(* ===== verification/_CoqProject ===== *)
-Q . S2P
Prelude.v
SecurityErrors.v
GoBytes.v
GoSort.v
Replay.v
WireV1.v
KeySchedule.v
Nonce.v
Ir.v
GoJson.v
Validate.v
Negotiate.v
Transcript.v
TranscriptFacts.v
Stream.v
Scheduler.v
Padding.v
Fsm.v
Proxysem.v
Framing.v
LiveProgram.v
LiveFraming.v
LiveDecode.v
LiveCodec.v
LiveCodecFacts.v
CborInstance.v
LiveCompile.v
Envelope.v
EnvelopeFacts.v
Context.v
IpPacket.v
IpPacketFacts.v
FlowTable.v
FlowFacts.v
FlowSpec.v
Admission.v
Records.v
RecordFacts.v
Channel.v
ChannelFacts.v
RecordDelivery.v
ServiceRecord.v
StrictConfig.v
Lifecycle.v
LifecycleFacts.v
LifecycleState.v
LifecycleProgress.v
SecureChannel.v
SecureChannelFacts.v
SecureChannelProgress.v
