(* ===== verification/Prelude.v ===== *)
(** * Kurdistan protocol core: a verification development

    The repository is a protocol compiler and its runtime. A profile (the IR
    under [src/internal/protocol/ir]) describes one generated protocol: its
    states, messages, frame grammar, scheduling, padding, stream limits and
    security policy. The protocol packages interpret a validated profile; the
    security package ([src/internal/crypto/security]) derives keys, negotiates
    capabilities, binds both ends to one context and protects the records that
    the framed operations travel in. This development models those two layers,
    the part of the system that every carrier, relay and app is built on.

    ** Files and what they model

    - [Prelude]: Go's [(value, error)] pairs with their notation, machine
      widths, slices by index, runs of stateful operations; [GoBytes],
      [GoSort], [GoJson]: what the sources use of [encoding/binary],
      [hash/crc32], [sort.SliceStable] and [encoding/json].
    - [SecurityErrors]: [crypto/security/errors.go].
    - [Replay]: [replay.go], the legacy window and the v1 window with its map
      and bitmap back ends, against the accepted-set specification [Replay.Spec].
    - [Nonce]: [nonce.go], the legacy manager and the v1 owners, against the
      counters of [Nonce.Spec].
    - [KeySchedule]: [keyschedule.go] and the suites of [context.go].
    - [Envelope], [EnvelopeFacts]: the v1 record codec of [envelope.go],
      [envelope_buffers_v3.go] and [bounded_storage_v3.go], over [Nonce] and
      [Replay]; [Context]: [context.go], [invariants.go], the JSON transcript
      and the legacy codec.
    - [Negotiate]: [capabilities.go], [compatibility.go], [config.go].
    - [Transcript], [TranscriptFacts]: [transcript.go] and
      [authenticated_context.go].
    - [WireV1]: [protocol/wirev1]; [Ir], [Validate]: [protocol/ir] (types,
      validation, effective policy); [Stream], [Scheduler], [Padding], [Fsm],
      [Proxysem]: the packages of the same names.
    - [Framing]: the allocating codec of [protocol/framing]; [LiveProgram]:
      [protocol/liveprogram/program_v1.go]; [LiveFraming], [LiveDecode]: the
      caller-buffer codec of live programs; [LiveCodec], [LiveCodecFacts],
      [CborInstance]: [liveprogram/codec_v1.go] and
      [resource_preflight_v1.go] over a CBOR library given as a class, and an
      instance of that class; [LiveCompile]: [protocol/liveprogramcompile].
    - [IpPacket], [IpPacketFacts]: [runtime/ip_packet_v1.go], the packets the
      tunnel admits; [FlowTable], [FlowFacts], [FlowSpec]:
      [runtime/production_flow_v1.go] against a bounded map of flows;
      [Admission]: [runtime/production_packet_admission_v1.go] and the return
      path of [service_pump_receive_v1.go].
    - [Records], [RecordFacts]: [runtime/application_record_v1.go] and
      [control_record_v1.go]; [Channel], [ChannelFacts]: the fragments and the
      reassembly of [runtime/protected_channel.go]; [RecordDelivery]: records
      over envelopes of opposite roles; [ServiceRecord]:
      [runtime/service_record_v1.go].
    - [StrictConfig]: the strict configuration of [runtime/config.go];
      [Lifecycle]: the two ends of an authenticated pair and their coordinator
      ([runtime/lifecycle.go], [authenticated_pair.go] and the reservations of
      [protected_channel.go]); [LifecycleFacts], [LifecycleState],
      [LifecycleProgress]: its order, safety and progress.
    - [SecureChannel]: the rest of [protected_channel.go], the channel over a
      pair, its envelopes and its reassembly; [SecureChannelFacts] and
      [SecureChannelProgress]: its safety and its progress.

    One Go function is one definition with its name, one struct one record with
    its fields in order (prefixed where Rocq would clash), one error return one
    [Err] with the sentinel and the detail text. A method that changes its
    receiver returns the new receiver. A method that holds a mutex from entry
    to exit is one atomic step, and concurrent use is a sequence of such steps.

    ** What the theorems show

    - Records: what one role seals the other opens, in order and without loss;
      no record is delivered twice and no nonce is used twice under one key,
      whatever the peer sends; associated data and context hashes fix every
      field they cover (up to a SHA-256 collision, which the statements name);
      the preallocated back ends answer like the map-backed ones; a destroyed
      codec refuses everything.
    - Negotiation: two peers select the same capabilities from their own views,
      above both floors and within both offers, and a selection leads to a
      valid effective policy.
    - Keys: the ratchet counts epochs exactly, replaces each secret by a different
      one and keeps the domains apart along a chain of epochs; the handshake secret
      is wiped on every path.
    - Profiles: validation means a reachable, terminating, unambiguous state
      machine; the interpreter follows it.
    - Streams: windows never go negative, credit is conserved, bytes are
      delivered in order, terminal streams stay terminal (for stream limits below
      the last identifiers, where the allocator wraps: [allocator_wraps]).
    - Frames: encoding then decoding is the identity for every validated
      profile and live program within the widths of the wire fields, sizes are computed exactly, the caller-buffer
      codecs agree with the allocating ones and are safe under overlap; a
      compiled live program frames as its profile does and has its security policy
      field by field; its encoding is canonical, and decodes back when its texts are
      UTF-8.
    - Tunnel: a packet is admitted exactly when its form, addresses and protocol
      are the ones the policy names; the flow table is a bounded map with
      references that never reach another flow; answers match their flows.
    - Operations: fragments reassemble to the operation they were cut from and
      to nothing else, within the memory bound; protected records and service
      records are delivered and canonical.
    - Pairs: under any sequence of operations of both ends no record position is
      reserved twice and no key outlives its lifetime; operations are delivered
      once, in order, and acknowledged only then; a closed pair stays closed and
      empty; an open one is well formed, and its operations complete. The channel
      refines the pair whatever the network delivers and whenever another
      goroutine closes it, and never publishes two records with one nonce; on an
      undisturbed channel every operation arrives with its bytes and is
      acknowledged, across key ratchets.

    ** Interfaces

    Code outside the repository is a class with the operations the sources call
    and, where a theorem needs it, a class of its documented laws: [Primitives]
    (SHA-256, HKDF), [Cipher] and [CipherLaws] (AES-256-GCM), [Encoding] (JSON
    of whole structs and SHA-256), [Rand] and [RandLaws] ([math/rand]), [Cbor] and
    its laws (the CBOR library). Each has a concrete instance (names with [toy], and
    [fixedCbor]) that the witnesses use.

    ** Fuel and bounds

    Loops over slices are structural. The planning loops of [Scheduler] get the
    length of the queue as fuel and remove at least one item per round; the
    search of [Validate.reachable] gets two more than the number of states it
    can reach; [PutUvarint] has the ten rounds a [uint64] needs. Theorems say
    that this is enough where the result depends on it. Integers are [Z] with
    the wrap-around of their width written out where the code can reach it.

    ** What is not modelled

    Methods on nil receivers, log and trace building, file I/O, and the lifetime
    of secrets in memory beyond the wiping the sources do explicitly. Outside
    the two layers: the transports, relay, product, self-host and Android
    packages (network and operating-system glue), the code generator and the
    audits, lab and phase tools (they build or inspect artefacts of the
    protocol, not the protocol). Of the session runtime, the goroutines,
    sockets and timers. The profile compiler draws profiles at
    random for [ir.Validate] to check, profile migration scans JSON documents,
    and the handshake of [crypto/auth] is a flow over Ed25519, X25519 and HMAC
    whose result is an input of [Lifecycle]. *)

From Stdlib Require Import ZArith Lia List Bool.
From stdpp Require Import base list gmap strings.

(** ** Results: Go's [(value, error)] pairs *)

Inductive result (E A : Type) : Type :=
  | Ok (a : A)
  | Err (e : E).
Arguments Ok {E A} _.
Arguments Err {E A} _.

#[export] Instance result_eq_dec {E A} `{EqDecision E, EqDecision A} :
  EqDecision (result E A).
Proof. solve_decision. Defined.

Definition rbind {E A B} (r : result E A) (k : A -> result E B) : result E B :=
  match r with Ok a => k a | Err e => Err e end.

(** [reject] is the early return [if cond { return err }]. *)
Definition reject {E} (cond : bool) (e : E) : result E unit :=
  if cond then Err e else Ok tt.

Definition isOk {E A} (r : result E A) : bool :=
  match r with Ok _ => true | Err _ => false end.

Definition map_err {E F A} (f : E -> F) (r : result E A) : result F A :=
  match r with Ok a => Ok a | Err e => Err (f e) end.

Declare Scope go_scope.
Delimit Scope go_scope with go.
Notation "'let?' x := r 'in' k" := (rbind r (fun x => k))
  (at level 10, x pattern, r at level 100, k at level 200) : go_scope.
Notation "'fail?' c 'with' e 'in' k" := (rbind (reject c e) (fun _ => k))
  (at level 10, c at level 100, e at level 100, k at level 200) : go_scope.
Open Scope go_scope.

(** [injection] would reduce the values; this does not. *)
Lemma Ok_inj {E A} (a b : A) : @Ok E A a = Ok b -> a = b.
Proof. by intros [= ->]. Qed.

Lemma rbind_ok {E A B} (r : result E A) (k : A -> result E B) b :
  rbind r k = Ok b <-> exists a, r = Ok a /\ k a = Ok b.
Proof.
  destruct r as [a|e]; simpl; split; [eauto | | discriminate |].
  - by intros (? & [= ->] & ?).
  - by intros (? & ? & ?).
Qed.

Lemma rbind_err {E A B} (r : result E A) (k : A -> result E B) e :
  rbind r k = Err e <-> r = Err e \/ exists a, r = Ok a /\ k a = Err e.
Proof.
  destruct r as [a|e']; simpl; split.
  - eauto.
  - by intros [? | (? & [= ->] & ?)].
  - intros [= ->]. by left.
  - by intros [[= ->] | (? & ? & ?)].
Qed.

Lemma reject_ok {E} (c : bool) (e : E) u : reject c e = Ok u <-> c = false.
Proof. by destruct c, u. Qed.

Lemma reject_bind_ok {E A} (c : bool) (e : E) (k : unit -> result E A) a :
  rbind (reject c e) k = Ok a <-> c = false /\ k tt = Ok a.
Proof. destruct c; simpl; split; [discriminate | by intros [? _] | done | by intros [_ ?]]. Qed.

Lemma map_err_ok {E F A} (f : E -> F) (r : result E A) a : map_err f r = Ok a <-> r = Ok a.
Proof. destruct r; simpl; split; congruence. Qed.

(** [go_inv H] decomposes [H : ... = Ok _] along the binds and the guards of
    the operation it speaks about. *)
Ltac go_inv H :=
  repeat match type of H with
  | rbind (reject _ _) _ = Ok _ =>
      let G := fresh "G" in apply reject_bind_ok in H as [G H]; cbv beta in H
  | reject _ _ = Ok _ => apply reject_ok in H
  | rbind _ _ = Ok _ =>
      let x := fresh "x" in let E := fresh "E" in
      apply rbind_ok in H as (x & E & H); cbv beta in H
  end.

(** [for _, x := range l { if ... { return err } }]. *)
Fixpoint forRange {E A} (l : list A) (f : A -> result E unit) : result E unit :=
  match l with
  | [] => Ok tt
  | x :: rest => rbind (f x) (fun _ => forRange rest f)
  end.

Lemma forRange_ok {E A} (l : list A) (f : A -> result E unit) u :
  forRange l f = Ok u <-> Forall (fun x => f x = Ok tt) l.
Proof.
  destruct u. induction l as [|x l IH]; simpl; [by split; [constructor|]|].
  rewrite rbind_ok, Forall_cons, <- IH. split.
  - by intros ([] & ? & ?).
  - intros [? ?]. by exists tt.
Qed.

(** ** Machine-width integers *)

Open Scope Z_scope.

Definition MaxUint64 : Z := 18446744073709551615.
Definition MaxInt64 : Z := 9223372036854775807.

Definition wrap (w z : Z) : Z := z mod 2 ^ w.
Definition wrap8 : Z -> Z := wrap 8.
Definition wrap16 : Z -> Z := wrap 16.
Definition wrap32 : Z -> Z := wrap 32.
Definition wrap64 : Z -> Z := wrap 64.

(** Conversion of a [uint64] to the signed 64-bit [int]. *)
Definition int64_of (z : Z) : Z :=
  let u := wrap64 z in if u <=? MaxInt64 then u else u - 2 ^ 64.

Definition uint (w z : Z) : Prop := 0 <= z < 2 ^ w.
Definition u8 : Z -> Prop := uint 8.
Definition u16 : Z -> Prop := uint 16.
Definition u32 : Z -> Prop := uint 32.
Definition u64 : Z -> Prop := uint 64.
Definition i64 (z : Z) : Prop := - 2 ^ 63 <= z <= MaxInt64.

Ltac unfold_widths :=
  unfold u8, u16, u32, u64, i64, uint, wrap8, wrap16, wrap32, wrap64, int64_of in *;
  change (2 ^ 8) with 256 in *; change (2 ^ 16) with 65536 in *;
  change (2 ^ 32) with 4294967296 in *;
  change (2 ^ 64) with 18446744073709551616 in *;
  change (2 ^ 63) with 9223372036854775808 in *;
  unfold MaxUint64, MaxInt64 in *.

(** Closes [Forall u64 [..]] and the like on literals. *)
Ltac solve_widths :=
  repeat (constructor; [unfold_widths; lia|]); try constructor; unfold_widths; lia.

Lemma wrap_small w z : uint w z -> wrap w z = z.
Proof. intros [H1 H2]. by apply Z.mod_small. Qed.

Lemma wrap_range w z : 0 <= w -> uint w (wrap w z).
Proof. intros H. unfold uint, wrap. apply Z.mod_pos_bound. by apply Z.pow_pos_nonneg. Qed.

Lemma wrap64_small z : u64 z -> wrap64 z = z.
Proof. apply wrap_small. Qed.

Lemma wrap32_small z : u32 z -> wrap32 z = z.
Proof. apply wrap_small. Qed.

Lemma wrap16_small z : u16 z -> wrap16 z = z.
Proof. apply wrap_small. Qed.

Lemma wrap64_range z : u64 (wrap64 z).
Proof. by apply wrap_range. Qed.

Lemma int64_small z : - 2 ^ 63 <= z <= MaxInt64 -> int64_of z = z.
Proof.
  intros Hz. unfold int64_of, wrap64, wrap. destruct (Z.le_gt_cases 0 z).
  - rewrite Z.mod_small by (unfold_widths; lia). destruct (Z.leb_spec z MaxInt64); [done|lia].
  - assert (z mod 2 ^ 64 = z + 2 ^ 64) as ->.
    { symmetry. apply Z.mod_unique with (-1); unfold_widths; lia. }
    destruct (Z.leb_spec (z + 2 ^ 64) MaxInt64); unfold_widths; lia.
Qed.

Lemma int64_of_small z : 0 <= z <= MaxInt64 -> int64_of z = z.
Proof. intros Hz. apply int64_small. unfold_widths. lia. Qed.

(** Sums of two [uint64] values either fit or wrap exactly once. *)
Lemma wrap64_add a b : u64 a -> u64 b ->
  wrap64 (a + b) = if a + b <=? MaxUint64 then a + b else a + b - 2 ^ 64.
Proof.
  intros Ha Hb. unfold wrap64, wrap. unfold_widths.
  destruct (Z.leb_spec (a + b) 18446744073709551615).
  - apply Z.mod_small. lia.
  - symmetry. apply Z.mod_unique with 1; lia.
Qed.

Lemma wrap64_sub a b : u64 a -> u64 b ->
  wrap64 (a - b) = if b <=? a then a - b else a - b + 2 ^ 64.
Proof.
  intros Ha Hb. unfold wrap64, wrap. unfold_widths. destruct (Z.leb_spec b a).
  - apply Z.mod_small. lia.
  - symmetry. apply Z.mod_unique with (-1); lia.
Qed.

(** ** Lengths, as Go's [int] *)

Definition zlen {A} (l : list A) : Z := Z.of_nat (length l).

Lemma zlen_nonneg {A} (l : list A) : 0 <= zlen l.
Proof. unfold zlen. lia. Qed.

Lemma zlen_nil {A} : zlen (@nil A) = 0.
Proof. done. Qed.

Lemma zlen_cons {A} (x : A) l : zlen (x :: l) = 1 + zlen l.
Proof. unfold zlen. simpl length. lia. Qed.

Lemma zlen_app {A} (l k : list A) : zlen (l ++ k) = zlen l + zlen k.
Proof. unfold zlen. rewrite length_app. lia. Qed.

Lemma zlen_zero {A} (l : list A) : zlen l = 0 -> l = [].
Proof. destruct l; [done|]. rewrite zlen_cons. pose proof (zlen_nonneg l). lia. Qed.

Create HintDb go discriminated.
Create Rewrite HintDb go.
#[export] Hint Rewrite @zlen_nil @zlen_cons @zlen_app : go.
#[export] Hint Resolve zlen_nonneg wrap64_range : go.

(** [l[a:b]] for in-range bounds. *)
Definition slice {A} (a b : Z) (l : list A) : list A :=
  take (Z.to_nat (b - a)) (drop (Z.to_nat a) l).
Definition ztake {A} (n : Z) (l : list A) : list A := take (Z.to_nat n) l.
Definition zdrop {A} (n : Z) (l : list A) : list A := drop (Z.to_nat n) l.

Lemma ztake_app {A} (l k : list A) : ztake (zlen l) (l ++ k) = l.
Proof. unfold ztake, zlen. rewrite Nat2Z.id. apply take_app_length. Qed.

Lemma zdrop_app {A} (l k : list A) : zdrop (zlen l) (l ++ k) = k.
Proof. unfold zdrop, zlen. rewrite Nat2Z.id. apply drop_app_length. Qed.

Lemma ztake_app_le {A} n (l k : list A) : zlen l = n -> ztake n (l ++ k) = l.
Proof. intros <-. apply ztake_app. Qed.

Lemma zdrop_app_le {A} n (l k : list A) : zlen l = n -> zdrop n (l ++ k) = k.
Proof. intros <-. apply zdrop_app. Qed.

Lemma ztake_zdrop {A} n (l : list A) : ztake n l ++ zdrop n l = l.
Proof. apply take_drop. Qed.

Lemma zlen_ztake {A} n (l : list A) : 0 <= n <= zlen l -> zlen (ztake n l) = n.
Proof. unfold zlen, ztake. rewrite length_take. lia. Qed.

Lemma zlen_zdrop {A} n (l : list A) : 0 <= n <= zlen l -> zlen (zdrop n l) = zlen l - n.
Proof. unfold zlen, zdrop. rewrite length_drop. lia. Qed.

Lemma slice_app {A} a b (pre mid post : list A) : zlen pre = a -> zlen mid = b - a ->
  slice a b (pre ++ mid ++ post) = mid.
Proof.
  intros <- Hm. unfold slice. rewrite <- Hm. unfold zlen.
  by rewrite !Nat2Z.id, drop_app_length, take_app_length.
Qed.

Lemma zdrop_zdrop {A} a b (l : list A) : 0 <= a -> 0 <= b -> zdrop a (zdrop b l) = zdrop (b + a) l.
Proof. intros Ha Hb. unfold zdrop. rewrite drop_drop. f_equal. lia. Qed.

Lemma ztake_all {A} (l : list A) : ztake (zlen l) l = l.
Proof. unfold ztake, zlen. rewrite Nat2Z.id. by apply take_ge. Qed.

Lemma zlen_slice {A} a b (l : list A) : 0 <= a <= b -> b <= zlen l -> zlen (slice a b l) = b - a.
Proof. intros Ha Hb. unfold slice, zlen in *. rewrite length_take, length_drop. lia. Qed.

Lemma length_slice {A} a b (l : list A) : 0 <= a <= b -> b <= zlen l ->
  length (slice a b l) = Z.to_nat (b - a).
Proof. unfold slice, zlen. rewrite length_take, length_drop. lia. Qed.

(** Adjacent slices. *)
Lemma slice_cat {A} a b c (l : list A) : 0 <= a <= b -> b <= c -> slice a b l ++ slice b c l = slice a c l.
Proof.
  intros Ha Hb. unfold slice. replace (Z.to_nat b) with (Z.to_nat (b - a) + Z.to_nat a)%nat by lia.
  replace (Z.to_nat (c - a)) with (Z.to_nat (b - a) + Z.to_nat (c - b))%nat by lia.
  rewrite <- take_take_drop, drop_drop. do 3 f_equal. lia.
Qed.

(** Cutting a list at a position. *)
Lemma split_at {A} (n : nat) (l : list A) : (n <= length l)%nat ->
  exists a b, l = a ++ b /\ length a = n.
Proof.
  intros H. exists (take n l), (drop n l). rewrite take_drop, length_take. split; [done|lia].
Qed.

(** ** Membership tests: [oneOf], [oneOfInt], map lookups used as sets *)

Definition mem {A} `{EqDecision A} (x : A) (l : list A) : bool :=
  bool_decide (x ∈ l).

Lemma mem_true {A} `{EqDecision A} (x : A) l : mem x l = true <-> x ∈ l.
Proof. apply bool_decide_eq_true. Qed.

Lemma mem_false {A} `{EqDecision A} (x : A) l : mem x l = false <-> x ∉ l.
Proof. apply bool_decide_eq_false. Qed.

(** ** Runs of a stateful operation *)

Section runs.
Context {S I O : Type}.

Fixpoint run (step : S -> I -> S * O) (st : S) (inputs : list I) : S * list O :=
  match inputs with
  | [] => (st, [])
  | i :: rest =>
      let '(st1, o) := step st i in
      let '(st2, os) := run step st1 rest in
      (st2, o :: os)
  end.

Definition outputs (step : S -> I -> S * O) (st : S) (inputs : list I) : list O :=
  snd (run step st inputs).

Lemma outputs_cons step st i rest :
  outputs step st (i :: rest) = snd (step st i) :: outputs step (fst (step st i)) rest.
Proof.
  unfold outputs. simpl. destruct (step st i) as [st1 o]. simpl.
  by destruct (run step st1 rest).
Qed.

(** An invariant of the step holds after every run. *)
Lemma run_invariant (P : S -> Prop) (Q : I -> Prop) step st inputs :
  (forall st i, P st -> Q i -> P (fst (step st i))) ->
  P st -> Forall Q inputs -> P (fst (run step st inputs)).
Proof.
  intros Hstep. revert st. induction inputs as [|i rest IH]; intros st HP HQ; [done|].
  apply Forall_cons_1 in HQ as [Hi Hrest]. simpl.
  specialize (Hstep st i HP Hi). destruct (step st i) as [st1 o]. simpl in Hstep.
  specialize (IH st1 Hstep Hrest). by destruct (run step st1 rest).
Qed.
End runs.

(** The inputs a run accepted, in order. *)
Fixpoint accepted {I E A} (inputs : list I) (outs : list (result E A)) : list I :=
  match inputs, outs with
  | i :: ins, o :: os => if isOk o then i :: accepted ins os else accepted ins os
  | _, _ => []
  end.
