(* ===== verification/SecurityErrors.v ===== *)
(** * Sentinel errors of the security package

    [src/internal/crypto/security/errors.go]: the legacy broad categories, the
    strict v1 sentinels with the categories each one matches under
    [errors.Is], and the wrapped forms ([%w: detail]) the package builds; the
    detail of a bare sentinel is empty. *)

From S2P Require Import Prelude.
From stdpp Require Import base list strings.

Inductive error : Type :=
  | ErrInvalidConfig (detail : string)
  | ErrInvalidSuite
  | ErrInvalidTranscript (detail : string)
  | ErrReplay (detail : string)
  | ErrDowngrade (detail : string)
  | ErrCompatibility (detail : string)
  | ErrNonceOverflow
  | ErrEnvelopeRejected (detail : string)
  | ErrCapabilityMismatch
  | ErrTranscriptMismatch
  | ErrSecretLeakCandidate
  | ErrPolicyInvalid
  | ErrNonceExhausted
  | ErrNonceMismatch
  | ErrAuthenticationFailed
  | ErrReplayDuplicate
  | ErrReplayStale
  | ErrReplayOutOfOrder
  | ErrReplayTooFarFuture
  | ErrReplayExhausted
  | ErrAEADInvalid
  | ErrEnvelopeContextInvalid
  | ErrEnvelopeModeRejected.

#[export] Instance error_eq_dec : EqDecision error.
Proof. solve_decision. Defined.

(** The broad categories a caller asks for with [errors.Is]. *)
Inductive class : Type :=
  | ClassInvalidConfig
  | ClassReplay
  | ClassDowngrade
  | ClassCompatibility
  | ClassNonceOverflow
  | ClassEnvelopeRejected.

(** [newStrictSentinel text classes...]: the categories of each sentinel. *)
Definition Is (e : error) (c : class) : bool :=
  match e, c with
  | ErrInvalidConfig _, ClassInvalidConfig => true
  | ErrReplay _, ClassReplay => true
  | ErrDowngrade _, ClassDowngrade => true
  | ErrCompatibility _, ClassCompatibility => true
  | ErrNonceOverflow, ClassNonceOverflow => true
  | ErrEnvelopeRejected _, ClassEnvelopeRejected => true
  | ErrPolicyInvalid, ClassInvalidConfig => true
  | ErrNonceExhausted, ClassNonceOverflow => true
  | (ErrReplayDuplicate | ErrReplayStale | ErrReplayOutOfOrder
    | ErrReplayTooFarFuture | ErrReplayExhausted), ClassReplay => true
  | (ErrAEADInvalid | ErrEnvelopeContextInvalid), ClassInvalidConfig => true
  | ErrEnvelopeModeRejected, ClassEnvelopeRejected => true
  | _, _ => false
  end.
