(* ===== verification/GoBytes.v ===== *)
(** * Bytes, fixed-width and variable-length integers, CRC-32

    What the sources use of Go's [encoding/binary] ([BigEndian.PutUint16],
    [PutUint32], [PutUint64], their readers, the little-endian 32-bit pair,
    [PutUvarint], [Uvarint]) and of [hash/crc32] (the IEEE table), with the
    round-trip and bound lemmas the codecs rest on. *)

From S2P Require Import Prelude.
From Stdlib Require Import ZArith Lia Strings.Byte String.
From stdpp Require Import base list strings.
Local Open Scope Z_scope.

Abbreviation bytes := (list Byte.byte).

(** ** One byte *)

Definition bz (b : Byte.byte) : Z := Z.of_N (Byte.to_N b).

Definition zb (z : Z) : Byte.byte :=
  match Byte.of_N (Z.to_N (z mod 256)) with Some b => b | None => Byte.x00 end.

#[export] Instance byte_eq_dec : EqDecision Byte.byte := Byte.byte_eq_dec.

Lemma bz_range b : 0 <= bz b < 256.
Proof. unfold bz. pose proof (Byte.to_N_bounded b). lia. Qed.

Lemma bz_zb z : bz (zb z) = z mod 256.
Proof.
  unfold bz, zb. pose proof (Z.mod_pos_bound z 256).
  destruct (Byte.of_N (Z.to_N (z mod 256))) as [b|] eqn:E.
  - apply Byte.to_of_N in E. rewrite E. lia.
  - apply Byte.of_N_None_iff in E. lia.
Qed.

Lemma zb_bz b : zb (bz b) = b.
Proof.
  unfold zb. rewrite Z.mod_small by apply bz_range. unfold bz.
  by rewrite N2Z.id, Byte.of_to_N.
Qed.

Lemma bz_inj a b : bz a = bz b -> a = b.
Proof. intros H. by rewrite <- (zb_bz a), H, zb_bz. Qed.

Lemma bz_zb_small z : 0 <= z < 256 -> bz (zb z) = z.
Proof. intros. rewrite bz_zb. by apply Z.mod_small. Qed.

(** ** Fixed-width integers *)

Fixpoint put_le (n : nat) (z : Z) : bytes :=
  match n with O => [] | S m => zb z :: put_le m (z / 256) end.
Definition get_le (l : bytes) : Z := foldr (fun b acc => bz b + 256 * acc) 0 l.
Definition put_be (n : nat) (z : Z) : bytes := reverse (put_le n z).
Definition get_be (l : bytes) : Z := get_le (reverse l).

Lemma length_put_le n z : length (put_le n z) = n.
Proof. revert z. induction n; intros; simpl; auto. Qed.

Lemma length_put_be n z : length (put_be n z) = n.
Proof. unfold put_be. by rewrite length_reverse, length_put_le. Qed.

Lemma zlen_put_be n z : zlen (put_be n z) = Z.of_nat n.
Proof. unfold zlen. by rewrite length_put_be. Qed.

Lemma zlen_put_le n z : zlen (put_le n z) = Z.of_nat n.
Proof. unfold zlen. by rewrite length_put_le. Qed.

Lemma get_put_le n z : get_le (put_le n z) = z mod 256 ^ Z.of_nat n.
Proof.
  revert z. induction n as [|n IH]; intros z.
  { simpl. by rewrite Z.mod_1_r. }
  simpl put_le. simpl get_le. fold (get_le (put_le n (z / 256))).
  rewrite IH, bz_zb, Nat2Z.inj_succ, Z.pow_succ_r by lia.
  rewrite Z.rem_mul_r by lia. done.
Qed.

Lemma put_get_le l : put_le (length l) (get_le l) = l.
Proof.
  induction l as [|b l IH]; [done|]. simpl put_le. simpl get_le. fold (get_le l).
  pose proof (bz_range b). f_equal.
  - apply bz_inj. rewrite bz_zb. rewrite Z.mul_comm, Z.mod_add by lia.
    by apply Z.mod_small.
  - rewrite Z.mul_comm, Z.div_add, Z.div_small by lia. by rewrite Z.add_0_l.
Qed.

Lemma get_le_range l : 0 <= get_le l < 256 ^ zlen l.
Proof.
  induction l as [|b l IH]; [simpl; unfold zlen; simpl; lia|].
  simpl get_le. fold (get_le l). pose proof (bz_range b).
  rewrite zlen_cons, Z.pow_add_r by (unfold zlen; lia). lia.
Qed.

Lemma get_put_be n z : get_be (put_be n z) = z mod 256 ^ Z.of_nat n.
Proof. unfold get_be, put_be. rewrite reverse_involutive. apply get_put_le. Qed.

Lemma put_get_be l : put_be (length l) (get_be l) = l.
Proof.
  unfold get_be, put_be. rewrite <- length_reverse at 1.
  by rewrite put_get_le, reverse_involutive.
Qed.

Lemma get_be_range l : 0 <= get_be l < 256 ^ zlen l.
Proof.
  unfold get_be. pose proof (get_le_range (reverse l)) as H.
  unfold zlen in *. by rewrite length_reverse in H.
Qed.

Definition PutUint16 (z : Z) : bytes := put_be 2 z.
Definition PutUint32 (z : Z) : bytes := put_be 4 z.
Definition PutUint64 (z : Z) : bytes := put_be 8 z.
Definition PutUint32LE (z : Z) : bytes := put_le 4 z.

Lemma get_PutUint16 z : get_be (PutUint16 z) = wrap16 z.
Proof. apply get_put_be. Qed.
Lemma get_PutUint32 z : get_be (PutUint32 z) = wrap32 z.
Proof. apply get_put_be. Qed.
Lemma get_PutUint64 z : get_be (PutUint64 z) = wrap64 z.
Proof. apply get_put_be. Qed.
Lemma get_PutUint32LE z : get_le (PutUint32LE z) = wrap32 z.
Proof. apply get_put_le. Qed.

Lemma put_be_inj n x y : 0 <= x < 256 ^ Z.of_nat n -> 0 <= y < 256 ^ Z.of_nat n ->
  put_be n x = put_be n y -> x = y.
Proof.
  intros Hx Hy H. apply (f_equal get_be) in H. rewrite !get_put_be in H.
  by rewrite !Z.mod_small in H.
Qed.

(** Reading equal encodings apart, field by field. *)
Lemma put_be_app_inj n x y (l l' : bytes) : 0 <= x < 256 ^ Z.of_nat n -> 0 <= y < 256 ^ Z.of_nat n ->
  put_be n x ++ l = put_be n y ++ l' -> x = y /\ l = l'.
Proof.
  intros Hx Hy [H ->]%app_inj_1; [|by rewrite !length_put_be]. split; [|done]. by eapply put_be_inj.
Qed.

Lemma bytes_app_inj (a b l l' : bytes) : zlen a = zlen b -> a ++ l = b ++ l' -> a = b /\ l = l'.
Proof. intros HL. apply app_inj_1. unfold zlen in HL. lia. Qed.

#[export] Hint Rewrite zlen_put_be zlen_put_le : go.

(** ** Variable-length integers *)

Definition MaxVarintLen64 : Z := 10.
Definition MaxVarintLen32 : Z := 5.

(** The loop of [PutUvarint]; ten rounds exhaust a [uint64]. *)
Fixpoint put_uvarint (fuel : nat) (x : Z) : bytes :=
  match fuel with
  | O => []
  | S n => if x <? 128 then [zb x]
           else zb (Z.lor (x mod 256) 128) :: put_uvarint n (Z.shiftr x 7)
  end.
Definition PutUvarint (x : Z) : bytes := put_uvarint 10 x.

(** [Uvarint]: [(value, n)] with [n > 0] the bytes read, [(0, 0)] when the
    buffer is too short and [n < 0] on overflow. *)
Fixpoint uvarint_loop (buf : bytes) (i x s : Z) : Z * Z :=
  match buf with
  | [] => (0, 0)
  | b :: rest =>
      if i =? MaxVarintLen64 then (0, - (i + 1))
      else if bz b <? 128 then
        if (i =? MaxVarintLen64 - 1) && (1 <? bz b) then (0, - (i + 1))
        else (Z.lor x (wrap64 (Z.shiftl (bz b) s)), i + 1)
      else uvarint_loop rest (i + 1)
             (Z.lor x (wrap64 (Z.shiftl (Z.land (bz b) 127) s))) (s + 7)
  end.
Definition Uvarint (buf : bytes) : Z * Z := uvarint_loop buf 0 0 0.

(** A disjoint [or] is a sum. *)
Lemma lor_shiftl_add a b s : 0 <= s -> 0 <= a < 2 ^ s ->
  Z.lor a (Z.shiftl b s) = a + b * 2 ^ s.
Proof.
  intros Hs Ha. rewrite <- (Z.shiftl_mul_pow2 b s) by done.
  assert (Z.land a (Z.shiftl b s) = 0) as Hland.
  { apply Z.bits_inj'. intros n Hn. rewrite Z.land_spec, Z.bits_0.
    destruct (Z.lt_ge_cases n s).
    - rewrite (Z.shiftl_spec_low b s n) by done. apply andb_false_r.
    - rewrite <- (Z.mod_small a (2 ^ s)) by done.
      by rewrite Z.mod_pow2_bits_high by lia. }
  rewrite Z.add_nocarry_lxor by done. by rewrite Z.lxor_lor.
Qed.

Lemma continuation_byte m : 0 <= m < 256 ->
  Z.land (Z.lor m 128) 127 = m mod 128 /\ 128 <= Z.lor m 128 < 256.
Proof.
  intros Hm.
  assert (forallb (fun k => let m := Z.of_nat k in
      (Z.land (Z.lor m 128) 127 =? m mod 128)
      && (128 <=? Z.lor m 128) && (Z.lor m 128 <? 256)) (seq 0 256) = true) as Hall
    by (vm_compute; reflexivity).
  rewrite forallb_forall in Hall. specialize (Hall (Z.to_nat m)).
  rewrite Z2Nat.id in Hall by lia.
  specialize (Hall ltac:(apply in_seq; lia)). cbv beta zeta in Hall.
  apply andb_true_iff in Hall as [[H1 H2]%andb_true_iff H3].
  apply Z.eqb_eq in H1. apply Z.leb_le in H2. apply Z.ltb_lt in H3. done.
Qed.

Lemma uvarint_loop_put fuel x i acc rest : 0 <= i -> i + Z.of_nat fuel = 10 ->
  (0 < fuel)%nat -> 0 <= x < 2 ^ (64 - 7 * i) -> 0 <= acc < 2 ^ (7 * i) ->
  uvarint_loop (put_uvarint fuel x ++ rest) i acc (7 * i)
  = (acc + x * 2 ^ (7 * i), i + zlen (put_uvarint fuel x)).
Proof.
  revert x i acc. induction fuel as [|fuel IH]; intros x i acc Hi Hfuel Hpos Hx Hacc; [lia|].
  cbn [put_uvarint]. unfold MaxVarintLen64 in *.
  assert (2 ^ 64 = 2 ^ (64 - 7 * i) * 2 ^ (7 * i)) as Hpow
    by (rewrite <- Z.pow_add_r by lia; f_equal; lia).
  assert (0 < 2 ^ (7 * i)) by (apply Z.pow_pos_nonneg; lia).
  destruct (Z.ltb_spec x 128) as [Hlt|Hge].
  - cbn [app uvarint_loop]. unfold MaxVarintLen64. rewrite bz_zb_small by lia.
    rewrite (proj2 (Z.eqb_neq i 10)) by lia.
    rewrite (proj2 (Z.ltb_lt x 128)) by lia.
    destruct (Z.eqb_spec i (10 - 1)) as [->|]; simpl.
    + change (64 - 7 * (10 - 1)) with 1 in Hx. rewrite (proj2 (Z.ltb_ge 1 x)) by lia.
      rewrite wrap64_small by (rewrite Z.shiftl_mul_pow2 by lia; split; lia).
      by rewrite lor_shiftl_add by lia.
    + rewrite wrap64_small; [by rewrite lor_shiftl_add by lia|].
      rewrite Z.shiftl_mul_pow2 by lia. unfold u64, uint. rewrite Hpow. nia.
  - pose proof (Z.mod_pos_bound x 256). destruct (continuation_byte (x mod 256)) as [Hl Hr]; [lia|].
    cbn [app uvarint_loop]. unfold MaxVarintLen64. rewrite bz_zb_small by lia.
    rewrite (proj2 (Z.eqb_neq i 10)) by lia.
    rewrite (proj2 (Z.ltb_ge _ 128)) by lia. rewrite Hl.
    replace (x mod 256 mod 128) with (x mod 128)
      by (change 256 with (128 * 2); rewrite Z.rem_mul_r, Z.mul_comm, Z.mod_add, Z.mod_mod by lia; done).
    pose proof (Z.mod_pos_bound x 128). pose proof (Z.div_mod x 128).
    assert (i <> 9) by (intros ->; change (64 - 7 * 9) with 1 in Hx; lia).
    rewrite wrap64_small by (rewrite Z.shiftl_mul_pow2 by lia; unfold u64, uint; rewrite Hpow; nia).
    rewrite lor_shiftl_add by lia. replace (7 * i + 7) with (7 * (i + 1)) by lia.
    rewrite Z.shiftr_div_pow2 by lia. change (2 ^ 7) with 128.
    assert (2 ^ (7 * (i + 1)) = 128 * 2 ^ (7 * i)) as Hp7
      by (replace (7 * (i + 1)) with (7 + 7 * i) by lia; rewrite Z.pow_add_r by lia; done).
    rewrite IH; [|lia|lia|lia| |].
    + rewrite zlen_cons, Hp7. f_equal; [nia|lia].
    + split; [apply Z.div_pos; lia|]. apply Z.div_lt_upper_bound; [lia|].
      replace (128 * 2 ^ (64 - 7 * (i + 1))) with (2 ^ (64 - 7 * i)); [lia|].
      change 128 with (2 ^ 7). rewrite <- Z.pow_add_r by lia. f_equal. lia.
    + rewrite Hp7. nia.
Qed.

(** [Uvarint] reads back what [PutUvarint] wrote and stops after it. *)
Lemma uvarint_roundtrip x rest : u64 x ->
  Uvarint (PutUvarint x ++ rest) = (x, zlen (PutUvarint x)).
Proof.
  intros Hx. unfold Uvarint, PutUvarint.
  pose proof (uvarint_loop_put 10 x 0 0 rest) as H.
  change (7 * 0) with 0 in H. change (64 - 0) with 64 in H.
  rewrite H by (done || lia || (unfold_widths; lia)). f_equal. lia.
Qed.

Lemma put_uvarint_nonempty fuel x : (0 < fuel)%nat -> 0 < zlen (put_uvarint fuel x).
Proof.
  destruct fuel; [lia|]. intros _. simpl. destruct (x <? 128); rewrite zlen_cons;
    pose proof (zlen_nonneg (@nil Byte.byte)); [lia|].
  pose proof (zlen_nonneg (put_uvarint fuel (Z.shiftr x 7))). lia.
Qed.

(** ** CRC-32 *)

Fixpoint crc_shift (n : nat) (c : Z) : Z :=
  match n with
  | O => c
  | S m => crc_shift m (if Z.odd c then Z.lxor (Z.shiftr c 1) 3988292384 else Z.shiftr c 1)
  end.
(** Entry [i] of [crc32.IEEETable]. *)
Definition crc_table (i : Z) : Z := crc_shift 8 i.

Definition crc32_update (crc : Z) (p : bytes) : Z :=
  Z.lxor 4294967295
    (foldl (fun c b => Z.lxor (crc_table (Z.lxor (c mod 256) (bz b))) (Z.shiftr c 8))
       (Z.lxor 4294967295 crc) p).
Definition ChecksumIEEE (p : bytes) : Z := crc32_update 0 p.

Example crc_check : ChecksumIEEE (list_byte_of_string "123456789") = 3421780262.
Proof. vm_compute. reflexivity. Qed.

Lemma lxor_range n a b : 0 <= n -> 0 <= a < 2 ^ n -> 0 <= b < 2 ^ n -> 0 <= Z.lxor a b < 2 ^ n.
Proof.
  intros Hn Ha Hb. assert (H0 : 0 <= Z.lxor a b) by (apply Z.lxor_nonneg; lia). split; [done|].
  destruct (Z.eq_dec (Z.lxor a b) 0) as [->|Hne]; [lia|].
  destruct (Z.eq_dec a 0) as [->|Ha0]; [rewrite Z.lxor_0_l; lia|].
  destruct (Z.eq_dec b 0) as [->|Hb0]; [rewrite Z.lxor_0_r; lia|].
  apply Z.log2_lt_pow2; [lia|]. eapply Z.le_lt_trans; [apply Z.log2_lxor; lia|].
  apply Z.max_lub_lt; apply Z.log2_lt_pow2; lia.
Qed.

Lemma shiftr_range n a k : 0 <= k -> 0 <= a < 2 ^ n -> 0 <= Z.shiftr a k < 2 ^ n.
Proof.
  intros Hk Ha. rewrite Z.shiftr_div_pow2 by done. pose proof (Z.pow_pos_nonneg 2 k).
  split; [apply Z.div_pos; lia|]. eapply Z.le_lt_trans; [|apply Ha].
  apply Z.div_le_upper_bound; nia.
Qed.

Lemma crc_shift_range m c : 0 <= c < 2 ^ 32 -> 0 <= crc_shift m c < 2 ^ 32.
Proof.
  revert c. induction m as [|m IH]; intros c Hc; [done|]. simpl. apply IH.
  pose proof (shiftr_range 32 c 1 ltac:(lia) Hc) as Hs.
  destruct (Z.odd c); [apply lxor_range; [lia|done|]; unfold_widths; lia|done].
Qed.

Lemma crc32_update_range crc p : 0 <= crc < 2 ^ 32 -> 0 <= crc32_update crc p < 2 ^ 32.
Proof.
  intros Hc. unfold crc32_update. assert (Hm : 0 <= 4294967295 < 2 ^ 32) by (unfold_widths; lia).
  apply lxor_range; [lia|done|].
  assert (Hi : 0 <= Z.lxor 4294967295 crc < 2 ^ 32) by (apply lxor_range; [lia|done|done]).
  revert Hi. generalize (Z.lxor 4294967295 crc). induction p as [|b p IH]; intros c Hi; [done|].
  simpl. apply IH. apply lxor_range; [lia| |by apply shiftr_range; [lia|]].
  apply crc_shift_range. pose proof (bz_range b). pose proof (Z.mod_pos_bound c 256 ltac:(lia)).
  destruct (lxor_range 8 (c mod 256) (bz b)) as [H1 H2]; [lia| | |].
  all: change (2 ^ 8) with 256 in *; change (2 ^ 32) with 4294967296; lia.
Qed.

(** ** Strings as byte sequences *)

Definition sbytes (s : string) : bytes := String.list_byte_of_string s.
Definition bstring (b : bytes) : string := String.string_of_list_byte b.

Lemma bstring_sbytes s : bstring (sbytes s) = s.
Proof. apply String.string_of_list_byte_of_string. Qed.

Lemma sbytes_bstring b : sbytes (bstring b) = b.
Proof. apply String.list_byte_of_string_of_list_byte. Qed.

Lemma sbytes_inj s t : sbytes s = sbytes t -> s = t.
Proof. intros H. by rewrite <- (bstring_sbytes s), H, bstring_sbytes. Qed.

Definition slen (s : string) : Z := zlen (sbytes s).

(** ** Slices of memory *)

(** A caller's slice: where it lies and what it holds. *)
Record Slice := mkSlice { sl_base : Z; sl_bytes : bytes }.

Definition sl_len (s : Slice) : Z := zlen (sl_bytes s).

(** Overwriting the bytes at a position, which must fit. *)
Definition writeAt (dst : bytes) (pos : Z) (b : bytes) : bytes :=
  ztake pos dst ++ b ++ zdrop (pos + zlen b) dst.

Lemma writeAt_nil dst pos : 0 <= pos -> writeAt dst pos [] = dst.
Proof. intros Hp. unfold writeAt. rewrite zlen_nil, Z.add_0_r. apply ztake_zdrop. Qed.

Lemma zlen_writeAt dst pos b : 0 <= pos -> pos + zlen b <= zlen dst -> zlen (writeAt dst pos b) = zlen dst.
Proof.
  intros Hp Hl. pose proof (zlen_nonneg b). unfold writeAt. rewrite !zlen_app, zlen_ztake, zlen_zdrop by lia. lia.
Qed.

Lemma writeAt_app dst pos a b : 0 <= pos -> pos + zlen a + zlen b <= zlen dst ->
  writeAt (writeAt dst pos a) (pos + zlen a) b = writeAt dst pos (a ++ b).
Proof.
  intros Hp Hl. pose proof (zlen_nonneg a). pose proof (zlen_nonneg b). unfold writeAt at 1.
  assert (Hpre : zlen (ztake pos dst ++ a) = pos + zlen a) by (rewrite zlen_app, zlen_ztake; lia).
  assert (E : writeAt dst pos a = (ztake pos dst ++ a) ++ zdrop (pos + zlen a) dst).
  { unfold writeAt. by rewrite <- app_assoc. }
  rewrite E. rewrite (ztake_app_le (pos + zlen a)) by done.
  rewrite <- (zdrop_zdrop (zlen b) (pos + zlen a)) by lia. rewrite (zdrop_app_le (pos + zlen a)) by done.
  rewrite zdrop_zdrop by lia. unfold writeAt. rewrite zlen_app, <- !app_assoc. do 3 f_equal. f_equal. lia.
Qed.
