(* ===== verification/GoSort.v ===== *)
(** * [sort.SliceStable]

    Go's stable sort inserts each element, from the right, into the sorted
    prefix before it: [for j := i; j > a && less(j, j-1); j--]. Slices of more
    than twenty elements are cut into blocks that are merged afterwards; the
    comparator is only ever asked whether a later element goes before an
    earlier one, so the result is the one of plain insertion whenever the
    comparator is a strict weak order on the pairs it is asked about. The
    interactive-first order of [PlanStreams] is not one when three different
    priorities meet ([prioLess_not_weak] in [Scheduler]); there the order of a
    longer slice is only known to be a permutation, and no theorem says more.
    The one of [ScheduleActiveStreams] breaks ties by stream id, and the
    streams come in the order of their ids. *)

From S2P Require Import Prelude.
From stdpp Require Import base list sorting.

Section sort.
Context {A : Type} (less : A -> A -> bool).

(** One insertion, on the reversed prefix. *)
Fixpoint insertRev (x : A) (prefix : list A) : list A :=
  match prefix with
  | [] => [x]
  | y :: rest => if less x y then y :: insertRev x rest else x :: prefix
  end.

Definition SliceStable (l : list A) : list A :=
  reverse (foldl (fun prefix x => insertRev x prefix) [] l).

Lemma insertRev_perm x p : Permutation (insertRev x p) (x :: p).
Proof using Type.
  induction p as [|y p IH]; simpl; [done|]. destruct (less x y); [|done].
  rewrite IH. apply Permutation_swap.
Qed.

Lemma foldl_insert_perm l p :
  Permutation (foldl (fun prefix x => insertRev x prefix) p l) (p ++ l).
Proof using Type.
  revert p. induction l as [|x l IH]; intros p; simpl; [by rewrite app_nil_r|].
  rewrite IH, insertRev_perm. by rewrite <- Permutation_middle.
Qed.

Lemma SliceStable_perm l : Permutation (SliceStable l) l.
Proof using Type. unfold SliceStable. by rewrite reverse_Permutation, foldl_insert_perm. Qed.

Lemma SliceStable_snoc l x :
  SliceStable (l ++ [x]) = reverse (insertRev x (reverse (SliceStable l))).
Proof using Type. unfold SliceStable. by rewrite foldl_app, reverse_involutive. Qed.

(** Inserting into [a ++ b] an element that goes before all of [b] and before
    nothing of [a]. *)
Lemma insertRev_between x a b :
  Forall (fun y => less x y = true) b -> Forall (fun y => less x y = false) a ->
  insertRev x (reverse (a ++ b)) = reverse (a ++ x :: b).
Proof using Type.
  intros Hb Ha. revert a Ha. induction b as [|y b IH] using rev_ind; intros a Ha.
  - rewrite app_nil_r, reverse_app. simpl.
    destruct a as [|z a _] using rev_ind; [done|].
    apply Forall_app in Ha as [_ Hz]. apply Forall_cons_1 in Hz as [Hz _].
    rewrite reverse_app. simpl. by rewrite Hz.
  - apply Forall_app in Hb as [Hb Hy]. apply Forall_cons_1 in Hy as [Hy _].
    rewrite app_assoc, reverse_app. simpl. rewrite Hy, IH by done.
    by rewrite (app_comm_cons b [y] x), app_assoc, (reverse_app _ [y]).
Qed.

(** Insertion with the strict part of a total order sorts. *)
Lemma SliceStable_sorted (R : A -> A -> Prop) l : Transitive R ->
  (forall x y, less x y = true -> R x y) -> (forall x y, less x y = false -> R y x) ->
  StronglySorted R (SliceStable l).
Proof using Type.
  intros HT Hlt Hge. induction l as [|x l IH] using rev_ind; [constructor|].
  rewrite SliceStable_snoc. clear -IH HT Hlt Hge. revert IH.
  generalize (SliceStable l). intros p. induction p as [|y p IH] using rev_ind; intros Hs.
  { simpl. by repeat constructor. }
  rewrite reverse_app. simpl. apply StronglySorted_app in Hs as (Hy & Hp & _).
  destruct (less x y) eqn:E.
  - rewrite reverse_cons. apply StronglySorted_app. split; [|split; [by apply IH|by repeat constructor]].
    intros a b Ha Hb. apply list_elem_of_singleton in Hb as ->. rewrite reverse_Permutation, insertRev_perm in Ha.
    apply elem_of_cons in Ha as [->|Ha]; [by apply Hlt|]. apply Hy; [|by left].
    by rewrite reverse_Permutation in Ha.
  - rewrite !reverse_cons, reverse_involutive. apply StronglySorted_app.
    assert (Hpy : StronglySorted R (p ++ [y])) by (apply StronglySorted_app; by repeat constructor).
    split; [|split; [done|by repeat constructor]].
    intros a b Ha Hb. apply list_elem_of_singleton in Hb as ->. apply Hge in E.
    apply elem_of_app in Ha as [Ha|Ha]; [|apply list_elem_of_singleton in Ha; by subst].
    transitivity y; [|done]. apply Hy; [done|by left].
Qed.

End sort.
