(* ===== verification/Replay.v ===== *)
(** * Replay windows

    [src/internal/crypto/security/replay.go]. The legacy [ReplayWindow] and
    the strict authentication-before-commit [ReplayWindowV1] with its two
    storage back ends: the map of seen sequences and the [uint64] bitmap ring
    of the bounded constructors. Every method holds the window's mutex for its
    whole body, so a method is one atomic step of the state. *)

From S2P Require Import Prelude SecurityErrors.
From stdpp Require Import base list gmap strings fin_sets.
From Stdlib Require Import ZArith Lia.
Local Open Scope Z_scope.

(** ** The legacy window *)

Module Legacy.

Record ReplayWindow := mkReplayWindow {
  WindowSize : Z;
  Policy : string;
  highest : Z;
  seen : gset Z;
}.

Definition NewReplayWindow (policy : string) (windowSize : Z) : ReplayWindow :=
  {| Policy := if bool_decide (policy = "") then "ordered_only" else policy;
     WindowSize := if windowSize <=? 0 then 64 else windowSize;
     highest := 0; seen := ∅ |}.

(** [checkLocked]; the sums are [uint64] sums and wrap around. *)
Definition checkLocked (r : ReplayWindow) (seq : Z) : result error unit :=
  fail? seq =? 0 with ErrReplay "sequence zero" in
  fail? bool_decide (seq ∈ seen r) with ErrReplay "duplicate sequence" in
  if mem (Policy r) ["ordered_only"; "strict_no_reorder"] then
    reject (negb (seq =? wrap64 (highest r + 1))) (ErrReplay "out-of-order sequence")
  else if mem (Policy r) ["bounded_reorder"; "windowed_replay"] then
    if highest r =? 0 then
      reject (WindowSize r <? seq) (ErrReplay "future sequence outside window")
    else
      fail? wrap64 (highest r + WindowSize r) <? seq
        with ErrReplay "future sequence outside window" in
      reject (wrap64 (seq + WindowSize r) <=? highest r)
        (ErrReplay "old sequence outside window")
  else Err (ErrInvalidConfig "unknown replay policy").

Definition precheck (r : ReplayWindow) (seq : Z) : result error unit := checkLocked r seq.

(** [commit]: the loop over [r.seen] deletes what left the window. *)
Definition commit (r : ReplayWindow) (seq : Z) : ReplayWindow * result error unit :=
  match checkLocked r seq with
  | Err e => (r, Err e)
  | Ok _ =>
      let highest' := if highest r <? seq then seq else highest r in
      ({| WindowSize := WindowSize r; Policy := Policy r; highest := highest';
          seen := filter (fun old => highest' < wrap64 (old + WindowSize r))
                    ({[seq]} ∪ seen r) |}, Ok tt)
  end.

Definition Accept (r : ReplayWindow) (seq : Z) : ReplayWindow * result error unit :=
  commit r seq.

Record Metadata := mkMetadata {
  md_policy : string; md_window_size : Z; md_highest : Z; md_seen_count : Z }.

Definition MetadataOf (r : ReplayWindow) : Metadata :=
  mkMetadata (Policy r) (WindowSize r) (highest r) (Z.of_nat (size (seen r))).

End Legacy.

(** ** The strict window *)

Definition ReplayPolicyOrderedOnlyV1 : string := "ordered_only".
Definition ReplayPolicyBoundedReorderV1 : string := "bounded_reorder".
Definition ReplayPolicyWindowedReplayV1 : string := "windowed_replay".
Definition replayWindowMinimumV1 : Z := 2.
Definition replayWindowMaximumV1 : Z := 4096.

Record replayWindowStateV1 := mkState {
  policy : string;
  window : Z;
  initialized : bool;
  highest : Z;
  seen : gset Z;
  bitmap : option (list Z);   (* nil for the map-backed window *)
}.

(** The handle: [state] is nil in a zero [ReplayWindowV1]. *)
Record ReplayWindowV1 := mkWindow { state : option replayWindowStateV1 }.

Definition validateReplayPolicyV1 (pol : string) (windowSize : Z) : result error unit :=
  fail? (windowSize <? replayWindowMinimumV1) || (replayWindowMaximumV1 <? windowSize)
    with ErrPolicyInvalid in
  if mem pol [ReplayPolicyOrderedOnlyV1; ReplayPolicyBoundedReorderV1;
              ReplayPolicyWindowedReplayV1]
  then Ok tt else Err ErrPolicyInvalid.

Definition NewReplayWindowV1 (pol : string) (windowSize : Z) : result error ReplayWindowV1 :=
  let? _ := validateReplayPolicyV1 pol windowSize in
  Ok (mkWindow (Some (mkState pol (wrap64 windowSize) false 0 ∅ None))).

Definition replayLowerBoundV1 (hi w : Z) : Z :=
  if hi <? w then 0 else hi - w + 1.

Definition containsV3Locked (r : replayWindowStateV1) (sequence : Z) : bool :=
  match bitmap r with
  | None => bool_decide (sequence ∈ seen r)
  | Some bm =>
      if negb (initialized r) || (highest r <? sequence)
         || (sequence <? replayLowerBoundV1 (highest r) (window r)) then false
      else
        let residue := sequence mod window r in
        Z.testbit (default 0 (bm !! Z.to_nat (residue / 64))) (residue mod 64)
  end.

Definition checkOrderedV1Locked (r : replayWindowStateV1) (sequence : Z) : result error unit :=
  if negb (initialized r) then
    if sequence =? 0 then Ok tt
    else if sequence <=? window r then Err ErrReplayOutOfOrder
    else Err ErrReplayTooFarFuture
  else if highest r =? MaxUint64 then Err ErrReplayExhausted
  else
    let next := wrap64 (highest r + 1) in
    if sequence =? next then Ok tt
    else if sequence <? next then Err ErrReplayStale
    else if (wrap64 (MaxUint64 - window r) <? next) || (sequence <=? wrap64 (next + window r))
    then Err ErrReplayOutOfOrder
    else Err ErrReplayTooFarFuture.

Definition checkBoundedV1Locked (r : replayWindowStateV1) (sequence : Z) : result error unit :=
  if negb (initialized r) then
    if sequence <=? window r then Ok tt else Err ErrReplayTooFarFuture
  else if sequence <? replayLowerBoundV1 (highest r) (window r) then Err ErrReplayStale
  else if sequence <=? highest r then Ok tt
  else if window r <? wrap64 (sequence - highest r) then Err ErrReplayTooFarFuture
  else Ok tt.

Definition checkWindowedV1Locked (r : replayWindowStateV1) (sequence : Z) : result error unit :=
  if negb (initialized r) || (highest r <? sequence) then Ok tt
  else if sequence <? replayLowerBoundV1 (highest r) (window r) then Err ErrReplayStale
  else Ok tt.

Definition checkV1Locked (r : replayWindowStateV1) (sequence : Z) : result error unit :=
  if containsV3Locked r sequence then Err ErrReplayDuplicate
  else if bool_decide (policy r = ReplayPolicyOrderedOnlyV1) then checkOrderedV1Locked r sequence
  else if bool_decide (policy r = ReplayPolicyBoundedReorderV1) then checkBoundedV1Locked r sequence
  else if bool_decide (policy r = ReplayPolicyWindowedReplayV1) then checkWindowedV1Locked r sequence
  else Err ErrPolicyInvalid.

(** Bit [residue] of the ring, written into word [residue/64]. *)
Definition setBit (residue : Z) (bm : list Z) : list Z :=
  alter (fun word => Z.lor word (Z.shiftl 1 (residue mod 64))) (Z.to_nat (residue / 64)) bm.
Definition clearBit (residue : Z) (bm : list Z) : list Z :=
  alter (fun word => Z.ldiff word (Z.shiftl 1 (residue mod 64))) (Z.to_nat (residue / 64)) bm.

(** The loop [for offset := 0; offset < difference; offset++]. *)
Fixpoint clearFrom (w oldLower : Z) (difference : nat) (bm : list Z) : list Z :=
  match difference with
  | O => bm
  | S n => clearFrom w (oldLower + 1) n (clearBit (wrap64 oldLower mod w) bm)
  end.

Definition insertBitmapV3Locked (r : replayWindowStateV1) (sequence : Z) (bm : list Z) : list Z :=
  let bm1 :=
    if initialized r && (highest r <? sequence) then
      let oldLower := replayLowerBoundV1 (highest r) (window r) in
      let newLower := replayLowerBoundV1 sequence (window r) in
      let difference := wrap64 (newLower - oldLower) in
      if window r <=? difference then (fun _ => 0) <$> bm
      else clearFrom (window r) oldLower (Z.to_nat difference) bm
    else bm in
  setBit (sequence mod window r) bm1.

Definition pruneV1Locked (r : replayWindowStateV1) : replayWindowStateV1 :=
  let lower := replayLowerBoundV1 (highest r) (window r) in
  {| policy := policy r; window := window r; initialized := initialized r;
     highest := highest r; seen := filter (fun s => lower <= s) (seen r);
     bitmap := bitmap r |}.

(** The body of [CommitAuthenticated] under the lock. *)
Definition commitLocked (r : replayWindowStateV1) (sequence : Z)
    : replayWindowStateV1 * result error unit :=
  match checkV1Locked r sequence with
  | Err e => (r, Err e)
  | Ok _ =>
      let seen' := match bitmap r with
                   | Some _ => seen r | None => {[sequence]} ∪ seen r end in
      let bitmap' := insertBitmapV3Locked r sequence <$> bitmap r in
      let highest' := if negb (initialized r) || (highest r <? sequence)
                      then sequence else highest r in
      (pruneV1Locked
         {| policy := policy r; window := window r; initialized := true;
            highest := highest'; seen := seen'; bitmap := bitmap' |}, Ok tt)
  end.

Definition Plausible (r : option ReplayWindowV1) (sequence : Z) : result error unit :=
  match r ≫= state with
  | None => Err ErrPolicyInvalid
  | Some st => checkV1Locked st sequence
  end.

Definition CommitAuthenticated (r : option ReplayWindowV1) (sequence : Z)
    : option ReplayWindowV1 * result error unit :=
  match r ≫= state with
  | None => (r, Err ErrPolicyInvalid)
  | Some st => let '(st', res) := commitLocked st sequence in
               (Some (mkWindow (Some st')), res)
  end.

(** [bits.OnesCount64] of each word. *)
Fixpoint onesCount (n : nat) (word : Z) : Z :=
  match n with
  | O => 0
  | S m => onesCount m word + Z.b2z (Z.testbit word (Z.of_nat m))
  end.

Definition seenCountV3Locked (r : replayWindowStateV1) : Z :=
  match bitmap r with
  | None => Z.of_nat (size (seen r))
  | Some bm => foldl (fun count word => count + onesCount 64 word) 0 bm
  end.

Record ReplayMetadataV1 := mkMetadataV1 {
  md_policy : string; md_window_size : Z; md_initialized : bool;
  md_highest : Z; md_seen_count : Z }.

Definition MetadataV1 (r : option ReplayWindowV1) : ReplayMetadataV1 :=
  match r ≫= state with
  | None => mkMetadataV1 "" 0 false 0 0
  | Some st => mkMetadataV1 (policy st) (wrap32 (window st)) (initialized st)
                 (highest st) (seenCountV3Locked st)
  end.

(** One cell of [newReplayArenaV3] (bounded_storage_v3.go): a fresh window
    whose ring has [(window+63)/64] words. *)
Definition newBoundedState (pol : string) (w : Z) : replayWindowStateV1 :=
  mkState pol w false 0 ∅ (Some (replicate (Z.to_nat ((w + 63) / 64)) 0)).

(** ** The bitmap ring *)

(** Bit [i] of the ring, read across the words. *)
Definition ringBit (bm : list Z) (i : Z) : bool :=
  Z.testbit (default 0 (bm !! Z.to_nat (i / 64))) (i mod 64).

Lemma word_index_eq i j : 0 <= i -> 0 <= j ->
  Z.to_nat (i / 64) = Z.to_nat (j / 64) -> i mod 64 = j mod 64 -> i = j.
Proof.
  intros Hi Hj Hd Hm. apply Z2Nat.inj in Hd; try (apply Z.div_pos; lia).
  rewrite (Z.div_mod i 64), (Z.div_mod j 64) by lia. lia.
Qed.

Lemma word_index_lt i (bm : list Z) : 0 <= i < 64 * zlen bm ->
  (Z.to_nat (i / 64) < length bm)%nat.
Proof.
  intros [H1 H2]. unfold zlen in H2.
  assert (i / 64 < Z.of_nat (length bm)) by (apply Z.div_lt_upper_bound; lia).
  pose proof (Z.div_pos i 64). lia.
Qed.

Section ring_update.
Context (f : Z -> Z -> Z) (keep : bool -> bool -> bool).
Context (f_spec : forall word k n, 0 <= k -> 0 <= n ->
           Z.testbit (f word k) n = keep (k =? n) (Z.testbit word n)).
Context (keep_other : forall b, keep false b = b).

Lemma ringBit_alter bm i j : 0 <= i < 64 * zlen bm -> 0 <= j ->
  ringBit (alter (fun word => f word (i mod 64)) (Z.to_nat (i / 64)) bm) j
  = keep (i =? j) (ringBit bm j).
Proof using f_spec keep_other.
  intros Hi Hj. unfold ringBit. rewrite list_lookup_alter. case_decide as Hw.
  - rewrite <- Hw.
    destruct (lookup_lt_is_Some_2 bm _ (word_index_lt i bm Hi)) as [word ->]. simpl.
    rewrite f_spec by (apply Z.mod_pos_bound; lia).
    destruct (Z.eqb_spec i j) as [->|Hne].
    + by rewrite Z.eqb_refl.
    + destruct (Z.eqb_spec (i mod 64) (j mod 64)); [|done].
      destruct Hne. apply word_index_eq; lia.
  - destruct (Z.eqb_spec i j) as [->|]; [done|]. by rewrite keep_other.
Qed.
End ring_update.

Lemma testbit_single k n : 0 <= k -> 0 <= n -> Z.testbit (Z.shiftl 1 k) n = (k =? n).
Proof.
  intros Hk Hn. rewrite Z.shiftl_1_l, Z.pow2_bits_eqb by lia. done.
Qed.

Lemma ringBit_set bm i j : 0 <= i < 64 * zlen bm -> 0 <= j ->
  ringBit (setBit i bm) j = (i =? j) || ringBit bm j.
Proof.
  intros. apply (ringBit_alter (fun word k => Z.lor word (Z.shiftl 1 k)) orb); try done.
  intros word k n Hk Hn. by rewrite Z.lor_spec, testbit_single, orb_comm.
Qed.

Lemma ringBit_clear bm i j : 0 <= i < 64 * zlen bm -> 0 <= j ->
  ringBit (clearBit i bm) j = negb (i =? j) && ringBit bm j.
Proof.
  intros. apply (ringBit_alter (fun word k => Z.ldiff word (Z.shiftl 1 k))
                   (fun e b => negb e && b)); try done.
  intros word k n Hk Hn. by rewrite Z.ldiff_spec, testbit_single, andb_comm.
Qed.

Lemma zlen_clearFrom w lo n bm : zlen (clearFrom w lo n bm) = zlen bm.
Proof.
  revert lo bm. induction n as [|n IH]; intros lo bm; [done|]. simpl. rewrite IH.
  unfold clearBit, zlen. by rewrite length_alter.
Qed.

Lemma ringBit_clearFrom w lo n bm j : 0 < w <= 64 * zlen bm -> 0 <= lo ->
  lo + Z.of_nat n <= 2 ^ 64 -> 0 <= j ->
  ringBit (clearFrom w lo n bm) j = true <->
  ringBit bm j = true /\ forall k, lo <= k < lo + Z.of_nat n -> k mod w <> j.
Proof.
  intros Hw. revert lo bm Hw. induction n as [|n IH]; intros lo bm Hw Hlo Hhi Hj.
  { simpl. split; [|tauto]. split; [done|]. intros k Hk. lia. }
  cbn [clearFrom]. rewrite (wrap64_small lo) by (unfold_widths; lia).
  assert (0 <= lo mod w < 64 * zlen bm) as Hr.
  { pose proof (Z.mod_pos_bound lo w). lia. }
  rewrite IH; [|unfold clearBit, zlen in *; rewrite length_alter; lia|lia|lia|done].
  rewrite ringBit_clear, andb_true_iff, negb_true_iff, Z.eqb_neq by done. split.
  - intros [[Hne Hb] Hk]. split; [done|]. intros k Hk'.
    destruct (decide (k = lo)) as [->|]; [done|]. apply Hk. lia.
  - intros [Hb Hk]. split; [split; [apply Hk; lia | done]|]. intros k Hk'. apply Hk. lia.
Qed.

Lemma ringBit_zeroed (bm : list Z) j : ringBit ((fun _ => 0) <$> bm) j = false.
Proof.
  unfold ringBit. rewrite list_lookup_fmap.
  destruct (bm !! _); simpl; apply Z.testbit_0_l.
Qed.

Lemma ringBit_replicate n j : ringBit (replicate n 0) j = false.
Proof.
  unfold ringBit. destruct (replicate n 0 !! _) as [word|] eqn:E; simpl.
  - apply lookup_replicate in E as [-> _]. apply Z.testbit_0_l.
  - apply Z.testbit_0_l.
Qed.

(** ** What a replay window promises

    The abstract window remembers every accepted sequence. It accepts a
    sequence that was never accepted and that the policy admits relative to
    the highest one accepted so far. *)

Module Spec.

Definition top (accepted : list Z) : Z := foldr Z.max 0 accepted.

Definition admits (pol : string) (w : Z) (accepted : list Z) (s : Z) : bool :=
  if bool_decide (pol = ReplayPolicyOrderedOnlyV1) then s =? zlen accepted
  else if bool_decide (pol = ReplayPolicyBoundedReorderV1) then
    if bool_decide (accepted = []) then s <=? w
    else (top accepted <? s + w) && (s <=? top accepted + w)
  else if bool_decide (pol = ReplayPolicyWindowedReplayV1) then
    bool_decide (accepted = []) || (top accepted <? s + w)
  else false.

Definition accepts (pol : string) (w : Z) (accepted : list Z) (s : Z) : bool :=
  negb (mem s accepted) && admits pol w accepted s.

(** The verdicts on a sequence of arrivals. *)
Fixpoint run (pol : string) (w : Z) (accepted : list Z) (arrivals : list Z) : list bool :=
  match arrivals with
  | [] => []
  | s :: rest =>
      let ok := accepts pol w accepted s in
      ok :: run pol w (if ok then s :: accepted else accepted) rest
  end.

Lemma top_ge l s : s ∈ l -> s <= top l.
Proof.
  induction l as [|x l IH]; [by intros ?%elem_of_nil|]. simpl.
  intros [->|H]%elem_of_cons; [lia|]. specialize (IH H). lia.
Qed.

Lemma top_nonneg l : 0 <= top l.
Proof. induction l; simpl; lia. Qed.

Lemma top_in l : l <> [] -> Forall (fun s => 0 <= s) l -> top l ∈ l.
Proof.
  induction l as [|x l IH]; [done|]. intros _ [Hx Hl]%Forall_cons_1. simpl.
  destruct (Z.max_spec x (top l)) as [[? ->]|[? ->]]; [|apply elem_of_cons; auto].
  apply elem_of_cons. right. apply IH; [|done]. intros ->. simpl in *. lia.
Qed.

End Spec.

(** The sequences the window still remembers: those at or above the lower
    bound of the sliding range. *)
Definition lowerOf (acc : list Z) (w : Z) : Z := replayLowerBoundV1 (Spec.top acc) w.

Definition stored (r : replayWindowStateV1) (acc : list Z) : Prop :=
  match bitmap r with
  | None => forall s, s ∈ seen r <-> s ∈ acc /\ lowerOf acc (window r) <= s
  | Some bm =>
      seen r = ∅ /\ zlen bm = (window r + 63) / 64 /\
      forall i, 0 <= i < window r ->
        ringBit bm i = true <->
        exists s, s ∈ acc /\ lowerOf acc (window r) <= s /\ s mod window r = i
  end.

(** The state of the code represents the history [acc] of accepted sequences. *)
Record represents (r : replayWindowStateV1) (acc : list Z) : Prop := {
  rep_policy : mem (policy r) [ReplayPolicyOrderedOnlyV1; ReplayPolicyBoundedReorderV1;
                               ReplayPolicyWindowedReplayV1] = true;
  rep_window : replayWindowMinimumV1 <= window r <= replayWindowMaximumV1;
  rep_init : initialized r = negb (bool_decide (acc = []));
  rep_highest : highest r = Spec.top acc;
  rep_u64 : Forall u64 acc;
  rep_ordered : policy r = ReplayPolicyOrderedOnlyV1 -> acc <> [] ->
                zlen acc = Spec.top acc + 1;
  rep_stored : stored r acc;
}.

Lemma lower_le_top w h : 0 < w -> 0 <= h -> 0 <= replayLowerBoundV1 h w <= h.
Proof. unfold replayLowerBoundV1. intros. destruct (Z.ltb_spec h w); lia. Qed.

Lemma lower_lt w h s : 0 < w -> 0 <= h -> 0 <= s ->
  replayLowerBoundV1 h w <= s <-> h < s + w.
Proof. unfold replayLowerBoundV1. intros. destruct (Z.ltb_spec h w); lia. Qed.

Lemma lower_mono w h k : 0 < w -> 0 <= h <= k ->
  replayLowerBoundV1 h w <= replayLowerBoundV1 k w.
Proof.
  unfold replayLowerBoundV1. intros. destruct (Z.ltb_spec h w), (Z.ltb_spec k w); lia.
Qed.

(** Two sequences of one window with the same residue are equal. *)
Lemma residue_inj w h s t : 0 < w -> 0 <= h ->
  replayLowerBoundV1 h w <= s <= h -> replayLowerBoundV1 h w <= t <= h ->
  s mod w = t mod w -> s = t.
Proof.
  intros Hw Hh Hs Ht He.
  assert (Z.abs (s - t) < w) by
    (unfold replayLowerBoundV1 in *; destruct (Z.ltb_spec h w); lia).
  pose proof (Z.div_mod s w). pose proof (Z.div_mod t w).
  assert (s / w = t / w) by nia. nia.
Qed.

Lemma Forall_u64_nonneg l : Forall u64 l -> Forall (fun s => 0 <= s) l.
Proof. intros H. eapply Forall_impl; [exact H|]. intros x Hx. by destruct Hx. Qed.

Lemma contains_spec r acc s : represents r acc -> u64 s ->
  containsV3Locked r s = mem s acc && (lowerOf acc (window r) <=? s).
Proof.
  intros [Hp Hw Hi Hh Hu _ Hst] Hs. unfold replayWindowMinimumV1 in *.
  unfold containsV3Locked. unfold stored in Hst. destruct (bitmap r) as [bm|].
  - destruct Hst as (_ & _ & Hbits). rewrite Hi, Hh. fold (lowerOf acc (window r)).
    case_bool_decide as Hne; [by subst|]. simpl negb. rewrite orb_false_l.
    destruct (Z.ltb_spec (Spec.top acc) s) as [Hlt|Hle]; simpl.
    { destruct (mem s acc) eqn:E; [|done]. apply mem_true, Spec.top_ge in E. lia. }
    destruct (Z.ltb_spec s (lowerOf acc (window r))) as [Hlt|Hge]; simpl.
    { rewrite (proj2 (Z.leb_gt _ _)) by lia. by rewrite andb_false_r. }
    rewrite (proj2 (Z.leb_le _ _) Hge), andb_true_r.
    fold (ringBit bm (s mod window r)).
    apply eq_bool_prop_intro. rewrite !Is_true_true, Hbits, mem_true
      by (apply Z.mod_pos_bound; lia).
    split; [|by eauto]. intros (t & Ht & Hlo & Hmod).
    assert (t = s) as <-; [|done].
    apply (residue_inj (window r) (Spec.top acc)); [lia|apply Spec.top_nonneg| |by split|done].
    split; [done|]. by apply Spec.top_ge.
  - apply eq_bool_prop_intro.
    by rewrite bool_decide_spec, Hst, Is_true_true, andb_true_iff, mem_true, Z.leb_le.
Qed.

(** The three policy checks, each against the abstract admission test. *)
Section policy_checks.
Context (r : replayWindowStateV1) (acc : list Z) (s : Z).
Context (Hrep : represents r acc) (Hs : u64 s).

Lemma rep_top_u64 : u64 (Spec.top acc).
Proof using Hrep.
  destruct (decide (acc = [])) as [E|E]; [by rewrite E|].
  eapply (proj1 (Forall_forall _ _) (rep_u64 _ _ Hrep)), Spec.top_in; [done|].
  apply Forall_u64_nonneg, Hrep.
Qed.

Lemma rep_lower : lowerOf acc (window r) <= s <-> Spec.top acc < s + window r.
Proof using Hrep Hs.
  pose proof rep_top_u64. pose proof (rep_window _ _ Hrep).
  unfold replayWindowMinimumV1 in *. apply lower_lt; unfold_widths; lia.
Qed.

Lemma ordered_check_spec : policy r = ReplayPolicyOrderedOnlyV1 ->
  isOk (checkOrderedV1Locked r s) = (s =? zlen acc).
Proof using Hrep Hs.
  intros Hpol. pose proof rep_top_u64 as Ht. destruct Hrep as [_ Hw Hi Hh _ Hord _].
  unfold checkOrderedV1Locked. rewrite Hi, Hh. specialize (Hord Hpol).
  case_bool_decide as E; simpl.
  { replace (zlen acc) with 0 by (by rewrite E).
    destruct (Z.eqb_spec s 0); [done|]. by destruct (s <=? window r). }
  rewrite Hord by done.
  destruct (Z.eqb_spec (Spec.top acc) MaxUint64); simpl.
  { symmetry. apply Z.eqb_neq. unfold_widths. lia. }
  rewrite wrap64_small by (unfold_widths; lia).
  destruct (Z.eqb_spec s (Spec.top acc + 1)); [done|].
  destruct (s <? _); [done|]. by destruct (_ || _).
Qed.

Lemma bounded_check_spec :
  isOk (checkBoundedV1Locked r s) = Spec.admits ReplayPolicyBoundedReorderV1 (window r) acc s.
Proof using Hrep Hs.
  pose proof rep_top_u64 as Ht. pose proof rep_lower as Hlow.
  destruct Hrep as [_ Hw Hi Hh _ _ _]. unfold checkBoundedV1Locked, Spec.admits. simpl.
  rewrite Hi, Hh. fold (lowerOf acc (window r)).
  case_bool_decide as E; simpl; [by destruct (s <=? window r)|].
  destruct (Z.ltb_spec s (lowerOf acc (window r))) as [H1|H1]; simpl.
  { symmetry. apply andb_false_iff. left. apply Z.ltb_ge. lia. }
  rewrite (proj2 (Z.ltb_lt _ _) (proj1 Hlow H1)). simpl.
  destruct (Z.leb_spec s (Spec.top acc)); simpl.
  { symmetry. apply Z.leb_le. unfold replayWindowMinimumV1 in *. lia. }
  rewrite wrap64_small by (unfold_widths; lia).
  destruct (Z.ltb_spec (window r) (s - Spec.top acc)); simpl; symmetry;
    [apply Z.leb_gt | apply Z.leb_le]; lia.
Qed.

Lemma windowed_check_spec :
  isOk (checkWindowedV1Locked r s) = Spec.admits ReplayPolicyWindowedReplayV1 (window r) acc s.
Proof using Hrep Hs.
  pose proof rep_lower as Hlow. destruct Hrep as [_ Hw Hi Hh _ _ _].
  unfold checkWindowedV1Locked, Spec.admits. simpl. rewrite Hi, Hh.
  fold (lowerOf acc (window r)). case_bool_decide as E; [done|]. simpl.
  destruct (Z.ltb_spec (Spec.top acc) s); simpl.
  { symmetry. apply Z.ltb_lt. unfold replayWindowMinimumV1 in *. lia. }
  destruct (Z.ltb_spec s (lowerOf acc (window r))); simpl; symmetry;
    [apply Z.ltb_ge | apply Z.ltb_lt]; lia.
Qed.

(** A sequence that has left the window is not admitted by any policy. *)
Lemma forgotten_not_admitted : s ∈ acc -> s < lowerOf acc (window r) ->
  Spec.admits (policy r) (window r) acc s = false.
Proof using Hrep Hs.
  intros Hin Hlt. pose proof rep_lower as Hlow. pose proof (Spec.top_ge _ _ Hin).
  pose proof (rep_ordered _ _ Hrep) as Hord.
  assert (acc <> []) by (intros E; rewrite E in Hin; by apply elem_of_nil in Hin).
  unfold Spec.admits. rewrite (bool_decide_eq_false_2 (acc = [])) by done. simpl.
  repeat case_bool_decide; try done.
  - apply Z.eqb_neq. rewrite Hord by done. lia.
  - apply andb_false_iff. left. apply Z.ltb_ge. lia.
  - apply Z.ltb_ge. lia.
Qed.

(** The check of the code is the abstract acceptance test. *)
Lemma check_spec : isOk (checkV1Locked r s) = Spec.accepts (policy r) (window r) acc s.
Proof using Hrep Hs.
  unfold checkV1Locked, Spec.accepts. rewrite (contains_spec r acc s Hrep Hs).
  assert (isOk (if bool_decide (policy r = ReplayPolicyOrderedOnlyV1)
                then checkOrderedV1Locked r s
                else if bool_decide (policy r = ReplayPolicyBoundedReorderV1)
                then checkBoundedV1Locked r s
                else if bool_decide (policy r = ReplayPolicyWindowedReplayV1)
                then checkWindowedV1Locked r s else Err ErrPolicyInvalid)
          = Spec.admits (policy r) (window r) acc s) as Hadm.
  { case_bool_decide as Hp1.
    { rewrite ordered_check_spec by done. unfold Spec.admits. by rewrite bool_decide_eq_true_2. }
    case_bool_decide as Hp2; [rewrite Hp2; apply bounded_check_spec|].
    case_bool_decide as Hp3; [rewrite Hp3; apply windowed_check_spec|].
    unfold Spec.admits. by rewrite !bool_decide_eq_false_2. }
  destruct (mem s acc) eqn:Hm; simpl; [|exact Hadm].
  destruct (Z.leb_spec (lowerOf acc (window r)) s); simpl; [done|].
  rewrite Hadm. apply forgotten_not_admitted; [by apply mem_true|done].
Qed.
End policy_checks.

(** ** Committing *)

(** [(window+63)/64] words hold every residue. *)
Lemma ring_capacity w : 0 <= w -> w <= 64 * ((w + 63) / 64).
Proof.
  intros. pose proof (Z.div_mod (w + 63) 64). pose proof (Z.mod_pos_bound (w + 63) 64). lia.
Qed.

Section commit.
Context (r : replayWindowStateV1) (acc : list Z) (s : Z).
Context (Hrep : represents r acc) (Hs : u64 s).
Context (Hacc : Spec.accepts (policy r) (window r) acc s = true).

Lemma window_pos : 0 < window r <= 4096.
Proof using Hrep.
  pose proof (rep_window _ _ Hrep).
  unfold replayWindowMinimumV1, replayWindowMaximumV1 in *. lia.
Qed.

Lemma acc_range t : t ∈ acc -> 0 <= t <= Spec.top acc.
Proof using Hrep.
  intros Ht. split; [|by apply Spec.top_ge].
  apply (proj1 (Forall_forall _ _) (rep_u64 _ _ Hrep)) in Ht. by destruct Ht.
Qed.

(** The lower bound of the window never moves back. *)
Lemma lower_grows : lowerOf acc (window r) <= lowerOf (s :: acc) (window r).
Proof using Hrep.
  pose proof window_pos. pose proof (Spec.top_nonneg acc).
  apply lower_mono; simpl; lia.
Qed.

(** An accepted sequence lies inside the window it creates. *)
Lemma accepted_in_window : lowerOf (s :: acc) (window r) <= s.
Proof using Hrep Hs Hacc.
  pose proof window_pos. pose proof (Spec.top_nonneg acc).
  destruct (Z.le_gt_cases s (Spec.top acc)) as [Hle|Hgt].
  2:{ unfold lowerOf. simpl. rewrite Z.max_l by lia. apply lower_le_top; lia. }
  replace (lowerOf (s :: acc) (window r)) with (lowerOf acc (window r))
    by (unfold lowerOf; simpl; f_equal; lia).
  destruct (Z.le_gt_cases (lowerOf acc (window r)) s) as [|Hlt]; [done|].
  destruct (decide (acc = [])) as [E|E].
  { rewrite E in *. unfold lowerOf, replayLowerBoundV1 in *. simpl in *.
    destruct (Z.ltb_spec 0 (window r)); unfold_widths; lia. }
  unfold Spec.accepts in Hacc. apply andb_true_iff in Hacc as [_ Ha].
  pose proof (rep_lower _ _ s Hrep Hs) as Hlow. unfold Spec.admits in Ha.
  rewrite (bool_decide_eq_false_2 (acc = [])) in Ha by done. simpl in Ha.
  pose proof (rep_ordered _ _ Hrep) as Hord.
  repeat case_bool_decide; try done.
  - apply Z.eqb_eq in Ha. rewrite Hord in Ha by done. lia.
  - apply andb_true_iff in Ha as [Ha _]. apply Z.ltb_lt in Ha. lia.
  - apply Z.ltb_lt in Ha. lia.
Qed.

(** The map back end after the insertion and the pruning. *)
Lemma seen_committed (sn : gset Z) :
  (forall t, t ∈ sn <-> t ∈ acc /\ lowerOf acc (window r) <= t) ->
  forall t, t ∈ filter (fun u => lowerOf (s :: acc) (window r) <= u) ({[s]} ∪ sn) <->
            t ∈ s :: acc /\ lowerOf (s :: acc) (window r) <= t.
Proof using Hrep.
  intros Hsn t. rewrite elem_of_filter, elem_of_union, elem_of_singleton, Hsn, elem_of_cons.
  pose proof lower_grows. split; [tauto|]. intros [Ht Hlo].
  split; [done|]. destruct Ht as [->|Ht]; [by left|]. right. split; [done|lia].
Qed.

(** The ring after the window moved, before the new bit is set. *)
Lemma ring_shifted (bm : list Z) i : initialized r = true -> highest r < s ->
  zlen bm = (window r + 63) / 64 ->
  (forall j, 0 <= j < window r -> ringBit bm j = true <->
     exists t, t ∈ acc /\ lowerOf acc (window r) <= t /\ t mod window r = j) ->
  0 <= i < window r ->
  let difference := wrap64 (lowerOf (s :: acc) (window r) - lowerOf acc (window r)) in
  ringBit (if window r <=? difference then (fun _ => 0) <$> bm
           else clearFrom (window r) (lowerOf acc (window r)) (Z.to_nat difference) bm) i = true
  <-> exists t, t ∈ acc /\ lowerOf (s :: acc) (window r) <= t /\ t mod window r = i.
Proof using Hrep Hs.
  intros Hinit Hgt Hlen Hbits Hi difference.
  pose proof window_pos as Hw. pose proof lower_grows as Hg.
  rewrite (rep_highest _ _ Hrep) in Hgt. pose proof (Spec.top_nonneg acc) as Htop.
  pose proof (lower_le_top (window r) (Spec.top acc)) as Hl.
  pose proof (lower_le_top (window r) s) as Hl'.
  assert (lowerOf (s :: acc) (window r) = replayLowerBoundV1 s (window r)) as Enew
    by (unfold lowerOf; simpl; f_equal; lia).
  assert (difference = lowerOf (s :: acc) (window r) - lowerOf acc (window r)) as Ed.
  { apply wrap64_small. unfold lowerOf in *. unfold_widths. lia. }
  clearbody difference. subst difference.
  destruct (Z.leb_spec (window r) (lowerOf (s :: acc) (window r) - lowerOf acc (window r)))
    as [Hbig|Hsmall].
  - rewrite ringBit_zeroed. split; [done|]. intros (t & Ht & Hlo & _).
    apply acc_range in Ht. unfold lowerOf, replayLowerBoundV1 in *.
    destruct (Z.ltb_spec (Spec.top acc) (window r)), (Z.ltb_spec (s `max` Spec.top acc) (window r)); lia.
  - rewrite ringBit_clearFrom;
      [|rewrite Hlen; pose proof (ring_capacity (window r)); lia
       |unfold lowerOf in *; lia|unfold lowerOf in *; unfold_widths; lia|lia].
    rewrite Hbits by done. rewrite Z2Nat.id by lia. split.
    + intros [(t & Ht & Hlo & Hm) Hk]. exists t. repeat split; try done.
      destruct (Z.le_gt_cases (lowerOf (s :: acc) (window r)) t); [done|].
      exfalso. apply (Hk t); [lia|done].
    + intros (t & Ht & Hlo & Hm). pose proof (acc_range _ Ht). split.
      * exists t. repeat split; try done. lia.
      * intros k Hk Hkm.
        assert (k = t); [|lia].
        apply (residue_inj (window r) (Spec.top acc)); unfold lowerOf in *; lia.
Qed.

Lemma insert_length (bm : list Z) :
  zlen (insertBitmapV3Locked r s bm) = zlen bm.
Proof.
  unfold insertBitmapV3Locked, setBit, zlen. rewrite length_alter. fold (zlen bm).
  destruct (_ && _); [|done]. destruct (_ <=? _); [by rewrite length_fmap|].
  apply zlen_clearFrom.
Qed.

(** The bitmap back end after [insertBitmapV3Locked]. *)
Lemma ring_committed (bm : list Z) i :
  zlen bm = (window r + 63) / 64 ->
  (forall j, 0 <= j < window r -> ringBit bm j = true <->
     exists t, t ∈ acc /\ lowerOf acc (window r) <= t /\ t mod window r = j) ->
  0 <= i < window r ->
  ringBit (insertBitmapV3Locked r s bm) i = true <->
  exists t, t ∈ s :: acc /\ lowerOf (s :: acc) (window r) <= t /\ t mod window r = i.
Proof using Hrep Hs Hacc.
  intros Hlen Hbits Hi. pose proof window_pos as Hw.
  pose proof (ring_capacity (window r)) as Hcap.
  unfold insertBitmapV3Locked. set (bm1 := if _ && _ then _ else _).
  assert (zlen bm1 = zlen bm) as Hlen1.
  { subst bm1. destruct (_ && _); [|done]. destruct (_ <=? _); [|apply zlen_clearFrom].
    unfold zlen. by rewrite length_fmap. }
  assert (ringBit bm1 i = true <->
          exists t, t ∈ acc /\ lowerOf (s :: acc) (window r) <= t /\ t mod window r = i) as H1.
  { subst bm1. destruct (initialized r && (highest r <? s)) eqn:E.
    - apply andb_true_iff in E as [E1 E2]. apply Z.ltb_lt in E2.
      assert (replayLowerBoundV1 s (window r) = lowerOf (s :: acc) (window r)) as Es.
      { unfold lowerOf. rewrite (rep_highest _ _ Hrep) in E2. simpl. f_equal. lia. }
      rewrite (rep_highest _ _ Hrep). fold (lowerOf acc (window r)). rewrite Es.
      by apply ring_shifted.
    - rewrite Hbits by done. destruct (decide (acc = [])) as [->|Hne].
      { split; intros (t & Ht & _); by apply elem_of_nil in Ht. }
      rewrite (rep_init _ _ Hrep), bool_decide_eq_false_2 in E by done. simpl in E.
      rewrite (rep_highest _ _ Hrep) in E. apply Z.ltb_ge in E.
      replace (lowerOf (s :: acc) (window r)) with (lowerOf acc (window r)); [done|].
      unfold lowerOf. simpl. f_equal. lia. }
  rewrite ringBit_set, orb_true_iff, H1, Z.eqb_eq; [|pose proof (Z.mod_pos_bound s (window r)); lia|lia].
  setoid_rewrite elem_of_cons. pose proof accepted_in_window. split.
  - intros [Hm|(t & Ht & ?)]; [exists s|exists t]; tauto.
  - intros (t & [->|Ht] & Hlo & Hm); [by left|]. right. by exists t.
Qed.

Lemma commit_represents :
  commitLocked r s =
    (fst (commitLocked r s), Ok tt) /\ represents (fst (commitLocked r s)) (s :: acc).
Proof using Hrep Hs Hacc.
  assert (checkV1Locked r s = Ok tt) as Hc.
  { pose proof (check_spec r acc s Hrep Hs) as H. rewrite Hacc in H.
    by destruct (checkV1Locked r s) as [[]|]. }
  unfold commitLocked. rewrite Hc. split; [done|]. simpl fst.
  assert ((if negb (initialized r) || (highest r <? s) then s else highest r)
          = Spec.top (s :: acc)) as Hhi.
  { rewrite (rep_init _ _ Hrep), (rep_highest _ _ Hrep). simpl.
    case_bool_decide as E; simpl; [subst acc; simpl; unfold_widths; lia|].
    destruct (Z.ltb_spec (Spec.top acc) s); lia. }
  constructor; simpl; try apply Hrep.
  - done.
  - done.
  - constructor; [done|apply Hrep].
  - intros Hp _. rewrite zlen_cons. unfold Spec.accepts, Spec.admits in Hacc.
    apply andb_true_iff in Hacc as [_ Ha]. rewrite bool_decide_eq_true_2 in Ha by done.
    apply Z.eqb_eq in Ha. destruct (decide (acc = [])) as [E|E].
    + rewrite E in *. rewrite zlen_nil in *. simpl. lia.
    + pose proof (rep_ordered _ _ Hrep Hp E). lia.
  - pose proof (rep_stored _ _ Hrep) as Hst. unfold stored in *. simpl.
    destruct (bitmap r) as [bm|]; simpl.
    + destruct Hst as (Hsn & Hlen & Hbits). rewrite Hsn, insert_length. split; [set_solver|].
      split; [done|]. intros i Hi. by apply ring_committed.
    + rewrite Hhi. by apply seen_committed.
Qed.
End commit.

Lemma commit_rejects r acc s : represents r acc -> u64 s ->
  Spec.accepts (policy r) (window r) acc s = false ->
  fst (commitLocked r s) = r /\ isOk (snd (commitLocked r s)) = false.
Proof.
  intros Hrep Hs Hacc. pose proof (check_spec r acc s Hrep Hs) as Hc.
  rewrite Hacc in Hc. unfold commitLocked. by destruct (checkV1Locked r s).
Qed.

Lemma commit_policy r s : policy (fst (commitLocked r s)) = policy r.
Proof. unfold commitLocked. by destruct (checkV1Locked r s). Qed.

Lemma commit_window r s : window (fst (commitLocked r s)) = window r.
Proof. unfold commitLocked. by destruct (checkV1Locked r s). Qed.

(** One step of the window is one step of the abstract window. *)
Lemma commit_step r acc s : represents r acc -> u64 s ->
  let ok := Spec.accepts (policy r) (window r) acc s in
  isOk (snd (commitLocked r s)) = ok /\
  represents (fst (commitLocked r s)) (if ok then s :: acc else acc).
Proof.
  intros Hrep Hs ok. destruct ok eqn:E.
  - destruct (commit_represents r acc s Hrep Hs E) as [He Hr]. split; [|done]. by rewrite He.
  - destruct (commit_rejects r acc s Hrep Hs E) as [-> ->]. done.
Qed.

Definition validWindow (pol : string) (w : Z) : Prop :=
  validateReplayPolicyV1 pol w = Ok tt.

Lemma validWindow_inv pol w : validWindow pol w ->
  2 <= w <= 4096 /\ mem pol [ReplayPolicyOrderedOnlyV1; ReplayPolicyBoundedReorderV1;
                             ReplayPolicyWindowedReplayV1] = true.
Proof.
  unfold validWindow, validateReplayPolicyV1. intros H. go_inv H.
  apply orb_false_iff in G as [G1 G2].
  apply Z.ltb_ge in G1, G2. unfold replayWindowMinimumV1, replayWindowMaximumV1 in *.
  destruct (mem pol _); [|done]. split; [lia|done].
Qed.

(** The state [NewReplayWindowV1] allocates. *)
Definition newMapState (pol : string) (w : Z) : replayWindowStateV1 :=
  mkState pol (wrap64 w) false 0 ∅ None.

Lemma newMapState_represents pol w : validWindow pol w -> represents (newMapState pol w) [].
Proof.
  intros [Hw Hp]%validWindow_inv.
  assert (wrap64 w = w) as Ew by (apply wrap64_small; unfold_widths; lia).
  constructor; unfold newMapState; simpl; rewrite ?Ew; try done.
  intros s. split; [by intros ?%elem_of_empty|]. intros [?%elem_of_nil _]. done.
Qed.

Lemma newBoundedState_represents pol w : validWindow pol w ->
  represents (newBoundedState pol w) [].
Proof.
  intros [Hw Hp]%validWindow_inv.
  constructor; unfold newBoundedState; simpl; try done.
  unfold stored. simpl. split; [done|]. split.
  - unfold zlen. rewrite length_replicate, Z2Nat.id; [done|]. apply Z.div_pos; lia.
  - intros i _. rewrite ringBit_replicate. split; [done|]. by intros (? & ?%elem_of_nil & _).
Qed.

Lemma run_meets_spec r acc arrivals : represents r acc -> Forall u64 arrivals ->
  map isOk (outputs commitLocked r arrivals) = Spec.run (policy r) (window r) acc arrivals.
Proof.
  revert r acc. induction arrivals as [|s rest IH]; intros r acc Hrep Hu; [done|].
  apply Forall_cons_1 in Hu as [Hs Hrest].
  destruct (commit_step r acc s Hrep Hs) as [Hok Hrep'].
  rewrite outputs_cons. simpl. rewrite Hok, (IH _ _ Hrep' Hrest).
  by rewrite commit_policy, commit_window.
Qed.

(** Two states of the same history answer every sequence alike. *)
Lemma check_determined r1 r2 acc s : represents r1 acc -> represents r2 acc -> u64 s ->
  policy r1 = policy r2 -> window r1 = window r2 -> checkV1Locked r1 s = checkV1Locked r2 s.
Proof.
  intros H1 H2 Hs Hp Hw. unfold checkV1Locked.
  rewrite (contains_spec r1 acc s H1 Hs), (contains_spec r2 acc s H2 Hs), Hp, Hw.
  unfold checkOrderedV1Locked, checkBoundedV1Locked, checkWindowedV1Locked.
  by rewrite (rep_init _ _ H1), (rep_init _ _ H2), (rep_highest _ _ H1), (rep_highest _ _ H2), Hw.
Qed.

Lemma runs_agree r1 r2 acc arrivals : represents r1 acc -> represents r2 acc ->
  policy r1 = policy r2 -> window r1 = window r2 -> Forall u64 arrivals ->
  outputs commitLocked r1 arrivals = outputs commitLocked r2 arrivals.
Proof.
  revert r1 r2 acc. induction arrivals as [|s rest IH]; intros r1 r2 acc H1 H2 Hp Hw Hu; [done|].
  apply Forall_cons_1 in Hu as [Hs Hrest]. rewrite !outputs_cons.
  assert (snd (commitLocked r1 s) = snd (commitLocked r2 s)) as ->.
  { unfold commitLocked. rewrite (check_determined r1 r2 acc s) by done.
    by destruct (checkV1Locked r2 s). }
  destruct (commit_step r1 acc s H1 Hs) as [_ H1'].
  destruct (commit_step r2 acc s H2 Hs) as [_ H2'].
  f_equal. rewrite Hp, Hw in H1'.
  eapply IH; [exact H1'|exact H2'| | |done]; by rewrite ?commit_policy, ?commit_window.
Qed.

(** What the abstract window accepts is accepted once. *)
Lemma spec_accepts_once pol w acc arrivals (outs : list (result error unit)) :
  NoDup acc -> map isOk outs = Spec.run pol w acc arrivals ->
  NoDup (accepted arrivals outs ++ acc).
Proof.
  revert acc outs. induction arrivals as [|s rest IH]; intros acc outs Hnd Houts; [done|].
  destruct outs as [|o outs]; simpl in Houts; [done|]. injection Houts as Ho Houts.
  simpl. rewrite Ho in *. destruct (Spec.accepts pol w acc s) eqn:E; [|by apply IH].
  unfold Spec.accepts in E. apply andb_true_iff in E as [E _].
  apply negb_true_iff, mem_false in E.
  specialize (IH (s :: acc) outs). rewrite <- Permutation_middle in IH. apply IH; [|done].
  by apply NoDup_cons_2.
Qed.

(** ** Properties of the strict window *)

(** C15: For every policy and window size the constructor admits, and every
    sequence of arriving [uint64] sequence numbers, the map-backed window
    accepts exactly the arrivals that the abstract window (remember everything
    accepted, admit by policy relative to the highest) accepts. *)
Theorem replay_map_refines_spec pol w arrivals :
  validWindow pol w -> Forall u64 arrivals ->
  map isOk (outputs commitLocked (newMapState pol w) arrivals) = Spec.run pol w [] arrivals.
Proof.
  intros Hv Hu. pose proof (newMapState_represents pol w Hv) as Hrep.
  rewrite (run_meets_spec _ _ _ Hrep Hu). apply validWindow_inv in Hv as [Hw _].
  unfold newMapState. simpl. rewrite wrap64_small; [done|]. unfold_widths. lia.
Qed.

Lemma replay_map_refines_spec_witness :
  map isOk (outputs commitLocked (newMapState "windowed_replay" 64) [5; 7; 5; 100; 36; 37; 36])
  = [true; true; false; true; false; true; false].
Proof.
  rewrite (replay_map_refines_spec "windowed_replay" 64);
    [vm_compute; reflexivity | vm_compute; reflexivity |].
  solve_widths.
Defined.

(** C4: The bitmap ring of the bounded constructors and the map of the general
    ones are interchangeable: on every run of commits the two back ends return
    the same results, errors included. *)
Theorem bitmap_equals_map pol w arrivals :
  validWindow pol w -> Forall u64 arrivals ->
  outputs commitLocked (newBoundedState pol w) arrivals
  = outputs commitLocked (newMapState pol w) arrivals.
Proof.
  intros Hv Hu. apply (runs_agree _ _ []);
    [by apply newBoundedState_represents|by apply newMapState_represents|done| |done].
  apply validWindow_inv in Hv as [Hw _]. simpl. rewrite wrap64_small; [done|].
  unfold_widths. lia.
Qed.

Lemma bitmap_equals_map_witness :
  outputs commitLocked (newBoundedState "bounded_reorder" 2) [1; 0; 3; 1; 9]
  = [Ok tt; Ok tt; Ok tt; Err ErrReplayStale; Err ErrReplayTooFarFuture].
Proof.
  rewrite (bitmap_equals_map "bounded_reorder" 2);
    [vm_compute; reflexivity | vm_compute; reflexivity |].
  solve_widths.
Defined.

(** No sequence number is accepted twice in the lifetime of a bounded
    window, whatever order, gaps and repetitions the arrivals have and however
    often the ring has wrapped. *)
Theorem replay_accepts_once pol w arrivals :
  validWindow pol w -> Forall u64 arrivals ->
  NoDup (accepted arrivals (outputs commitLocked (newBoundedState pol w) arrivals)).
Proof.
  intros Hv Hu. rewrite <- (app_nil_r (accepted _ _)).
  eapply spec_accepts_once; [constructor|].
  by apply run_meets_spec; [apply newBoundedState_represents|].
Qed.

Lemma replay_accepts_once_witness :
  NoDup (accepted [0; 1; 0; 1; 2; 2]
           (outputs commitLocked (newBoundedState "ordered_only" 2) [0; 1; 0; 1; 2; 2])).
Proof.
  apply (replay_accepts_once "ordered_only" 2); [vm_compute; reflexivity|].
  solve_widths.
Defined.

(** The sequences of an integer interval. *)
Lemma interval_size (X : gset Z) lo n : 0 <= n ->
  (forall s, s ∈ X -> lo <= s < lo + n) -> Z.of_nat (size X) <= n.
Proof.
  intros Hn Hin.
  assert (X ⊆ list_to_set ((fun k => lo + Z.of_nat k) <$> seq 0 (Z.to_nat n))) as Hsub.
  { intros s Hs. apply elem_of_list_to_set, list_elem_of_fmap. specialize (Hin s Hs).
    exists (Z.to_nat (s - lo)). split; [lia|]. apply elem_of_seq. lia. }
  apply subseteq_size in Hsub. rewrite size_list_to_set, length_fmap, length_seq in Hsub; [lia|].
  apply NoDup_fmap_2; [|apply NoDup_seq]. intros x y. lia.
Qed.

Lemma represents_run r acc arrivals : represents r acc -> Forall u64 arrivals ->
  exists acc', represents (fst (run commitLocked r arrivals)) acc'.
Proof.
  intros Hrep Hu. apply (run_invariant (fun r => exists acc', represents r acc') u64);
    [|by exists acc|done].
  intros st s [acc' Hr] Hs. destruct (commit_step st acc' s Hr Hs) as [_ ?]. eauto.
Qed.

(** A map-backed window never holds more than [window] sequences: every
    remembered sequence lies in the sliding range below the highest one, so
    the memory of a window is bounded however many records arrive. *)
Theorem replay_memory_bounded pol w arrivals :
  validWindow pol w -> Forall u64 arrivals ->
  let st := fst (run commitLocked (newMapState pol w) arrivals) in
  (forall s, s ∈ seen st ->
     replayLowerBoundV1 (highest st) (window st) <= s <= highest st) /\
  Z.of_nat (size (seen st)) <= window st.
Proof.
  intros Hv Hu st.
  destruct (represents_run _ [] arrivals (newMapState_represents _ _ Hv) Hu) as [acc Hrep].
  fold st in Hrep. assert (bitmap st = None) as Hb.
  { apply (run_invariant (fun r => bitmap r = None) u64); [|done|done].
    intros r s Hr _. unfold commitLocked. destruct (checkV1Locked r s); [|done].
    simpl. by rewrite Hr. }
  pose proof (rep_stored _ _ Hrep) as Hst. unfold stored in Hst. rewrite Hb in Hst.
  assert (forall s, s ∈ seen st ->
     replayLowerBoundV1 (highest st) (window st) <= s <= highest st) as Hrange.
  { intros s [Hs Hlo]%Hst. rewrite (rep_highest _ _ Hrep). split; [done|].
    by apply Spec.top_ge. }
  split; [done|]. pose proof (window_pos _ _ Hrep).
  apply (interval_size _ (highest st - window st + 1)); [lia|].
  intros s Hs. specialize (Hrange s Hs). unfold replayLowerBoundV1 in Hrange.
  destruct (Z.ltb_spec (highest st) (window st)); lia.
Qed.

Lemma replay_memory_bounded_witness :
  let st := fst (run commitLocked (newMapState "windowed_replay" 2) [4; 5; 9; 8; 100]) in
  Z.of_nat (size (seen st)) <= 2.
Proof.
  apply (replay_memory_bounded "windowed_replay" 2); [vm_compute; reflexivity|]. solve_widths.
Defined.

(** ** Properties of the legacy window *)

Module LegacyFacts.
Import Legacy.

(** Everything accepted is remembered, or is below the window for good. *)
Record remembers (r : ReplayWindow) (acc : list Z) : Prop := {
  rem_high : u64 (highest r);
  rem_le : forall s, s ∈ acc -> 0 < s <= highest r;
  rem_seen : forall s, s ∈ acc -> s ∈ seen r \/ wrap64 (s + WindowSize r) <= highest r;
}.

Lemma remembered_rejected r acc s : remembers r acc -> s ∈ acc ->
  isOk (checkLocked r s) = false.
Proof.
  intros [Hhigh Hle Hseen] Hs. pose proof (Hle s Hs) as Hr. unfold checkLocked.
  destruct (Z.eqb_spec s 0); [done|]. simpl. case_bool_decide as Hin; [done|]. simpl.
  destruct (Hseen s Hs) as [|Hgone]; [done|]. destruct (mem (Policy r) _).
  - destruct (Z.eqb_spec s (wrap64 (highest r + 1))) as [E|]; [|done].
    rewrite wrap64_add in E by (done || unfold_widths; lia).
    destruct (Z.leb_spec (highest r + 1) MaxUint64); unfold_widths; lia.
  - destruct (mem (Policy r) _); [|done]. destruct (Z.eqb_spec (highest r) 0); [lia|].
    destruct (_ <? s); [done|]. simpl. by rewrite (proj2 (Z.leb_le _ _) Hgone).
Qed.

Lemma commit_remembers r acc s : remembers r acc -> u64 s -> isOk (checkLocked r s) = true ->
  remembers (fst (commit r s)) (s :: acc).
Proof.
  intros [Hhigh Hle Hseen] Hs Hok. unfold commit.
  assert (s <> 0) as H0.
  { intros ->. unfold checkLocked in Hok. by rewrite Z.eqb_refl in Hok. }
  destruct (checkLocked r s) as [[]|]; [|done]. simpl. constructor; simpl.
  - by destruct (_ <? s).
  - intros t [->|Ht]%elem_of_cons; [|specialize (Hle t Ht)];
      destruct (Z.ltb_spec (highest r) s); unfold_widths; lia.
  - intros t Ht. rewrite elem_of_filter, elem_of_union, elem_of_singleton.
    set (h := if highest r <? s then s else highest r).
    assert (highest r <= h) by (subst h; destruct (Z.ltb_spec (highest r) s); lia).
    destruct (Z.le_gt_cases (wrap64 (t + WindowSize r)) h); [by right|]. left.
    split; [done|]. apply elem_of_cons in Ht as [->|Ht]; [by left|].
    right. destruct (Hseen t Ht); [done|lia].
Qed.

Lemma commit_accepts_once r acc arrivals : remembers r acc -> NoDup acc -> Forall u64 arrivals ->
  NoDup (accepted arrivals (outputs Accept r arrivals) ++ acc).
Proof.
  revert r acc. induction arrivals as [|s rest IH]; intros r acc Hrem Hnd Hu; [done|].
  apply Forall_cons_1 in Hu as [Hs Hrest]. rewrite outputs_cons. simpl.
  destruct (isOk (checkLocked r s)) eqn:E.
  - pose proof (commit_remembers r acc s Hrem Hs E) as Hrem'.
    assert (isOk (snd (Accept r s)) = true) as ->.
    { unfold Accept, commit. by destruct (checkLocked r s). }
    specialize (IH _ (s :: acc) Hrem'). rewrite <- Permutation_middle in IH.
    apply IH; [|done]. apply NoDup_cons_2; [|done]. intros Hin.
    by rewrite (remembered_rejected r acc s) in E.
  - assert (Accept r s = (r, snd (Accept r s)) /\ isOk (snd (Accept r s)) = false) as [-> ->].
    { unfold Accept, commit. by destruct (checkLocked r s). }
    by apply IH.
Qed.

(** The legacy window accepts no sequence number twice, for every policy
    string and window size, although its [uint64] window arithmetic wraps
    around near [MaxUint64]. *)
Theorem legacy_accepts_once pol w arrivals :
  Forall u64 arrivals ->
  NoDup (accepted arrivals (outputs Accept (NewReplayWindow pol w) arrivals)).
Proof.
  intros Hu. rewrite <- (app_nil_r (accepted _ _)). apply commit_accepts_once; [|constructor|done].
  constructor; simpl; [unfold_widths; lia|by intros s ?%elem_of_nil..].
Qed.

Lemma legacy_accepts_once_witness :
  NoDup (accepted [64; 18446744073709551615; 64; 1]
    (outputs Accept (NewReplayWindow "windowed_replay" 9223372036854775807)
       [64; 18446744073709551615; 64; 1])).
Proof. apply legacy_accepts_once. solve_widths. Defined.

End LegacyFacts.
