(* ===== verification/WireV1.v ===== *)
(** * The wire-major-1 outer envelope

    [src/internal/protocol/wirev1/codec.go] and [codec_buffers.go]: the
    48-byte header, its validation, and the three entry points [Encode],
    [EncodeInto] and [Decode]/[DecodeView]. The payload of a frame handed to
    [EncodeInto] may be a slice of the destination buffer itself, so
    [writeFrame] works on one memory and a payload reference into it. *)

From S2P Require Import Prelude GoBytes.
From Stdlib Require Import ZArith Lia Strings.Byte.
From stdpp Require Import base list strings.
Local Open Scope Z_scope.

Definition MajorVersion : Z := 1.
Definition MinorVersion : Z := 0.
Definition HeaderBytes : Z := 48.
Definition MaxControlBytes : Z := Z.shiftl 64 10.
Definition MaxPayloadBytes : Z := Z.shiftl 1 20.

Definition TypeClientHello : Z := 1.
Definition TypeReliableData : Z := 5.
Definition TypeHeartbeat : Z := 6.
Definition TypeServerFinish : Z := 9.
Definition FlagCritical : Z := 1.
Definition knownFlags : Z := FlagCritical.

Inductive error := ErrInvalidFrame.

Definition magic : bytes := sbytes "KURD".

Record Frame := mkFrame {
  Type_ : Z;
  Flags : Z;
  StreamID : Z;
  PlanDigest : bytes;
  Payload : bytes;
}.

#[export] Instance frame_eq_dec : EqDecision Frame.
Proof. solve_decision. Defined.

(** What Go's types say of a frame: [uint8], [uint8], [uint32], [[32]byte]. *)
Definition typed (f : Frame) : Prop :=
  u8 (Type_ f) /\ u8 (Flags f) /\ u32 (StreamID f) /\ length (PlanDigest f) = 32%nat.

Definition knownType (value : Z) : bool :=
  (TypeClientHello <=? value) && (value <=? TypeServerFinish).

Definition validate (f : Frame) : result error unit :=
  fail? negb (knownType (Type_ f)) || negb (Z.ldiff (Flags f) knownFlags =? 0)
        || bool_decide (PlanDigest f = replicate 32 Byte.x00)
        || (MaxPayloadBytes <? zlen (Payload f)) with ErrInvalidFrame in
  if Type_ f =? TypeReliableData then
    reject ((StreamID f =? 0) || (zlen (Payload f) =? 0)) ErrInvalidFrame
  else if Type_ f =? TypeHeartbeat then
    reject (negb (StreamID f =? 0) || negb (zlen (Payload f) =? 0)) ErrInvalidFrame
  else
    reject (negb (StreamID f =? 0) || (zlen (Payload f) =? 0)
            || (MaxControlBytes <? zlen (Payload f))) ErrInvalidFrame.

(** ** Memory: Go's [copy] into a slice, and a payload that may alias it *)

(** [copy(mem[lo:hi], src)]: as many bytes as fit. *)
Definition copyInto (lo hi : nat) (src mem : bytes) : bytes :=
  let n := (length src `min` (hi - lo))%nat in
  take lo mem ++ take n src ++ drop (lo + n) mem.

(** The payload of the frame being written: its own array, or the slice
    [dst[off : off+len]] of the destination. *)
Inductive payloadRef :=
  | Owned (b : bytes)
  | View (off len : nat).

Definition deref (mem : bytes) (p : payloadRef) : bytes :=
  match p with Owned b => b | View off len => take len (drop off mem) end.
Definition refLen (mem : bytes) (p : payloadRef) : Z := zlen (deref mem p).

(** [writeFrame(mem[:n], frame)]: the payload is moved before any header byte
    is written. *)
Definition writeFrame (mem : bytes) (n : nat) (f : Frame) (p : payloadRef) : bytes :=
  let len := refLen mem p in
  let mem := copyInto 48 n (deref mem p) mem in
  let mem := copyInto 0 4 magic mem in
  let mem := copyInto 4 8 [zb MajorVersion; zb MinorVersion; zb (Type_ f); zb (Flags f)] mem in
  let mem := copyInto 8 12 (PutUint32 (StreamID f)) mem in
  let mem := copyInto 12 16 (PutUint32 (wrap32 len)) mem in
  copyInto 16 48 (PlanDigest f) mem.

Definition Encode (f : Frame) : result error bytes :=
  let? _ := validate f in
  let n := Z.to_nat (HeaderBytes + zlen (Payload f)) in
  Ok (writeFrame (replicate n Byte.x00) n f (Owned (Payload f))).

(** [EncodeInto dst frame]: the new contents of [dst], and [(n, err)]. The
    frame's payload is the one [p] refers to. *)
Definition EncodeInto (dst : bytes) (f : Frame) (p : payloadRef) : bytes * result error Z :=
  match validate (mkFrame (Type_ f) (Flags f) (StreamID f) (PlanDigest f) (deref dst p)) with
  | Err e => (dst, Err e)
  | Ok _ =>
      let n := HeaderBytes + refLen dst p in
      if zlen dst <? n then (dst, Err ErrInvalidFrame)
      else (writeFrame dst (Z.to_nat n) f p, Ok n)
  end.

Definition DecodeView (encoded : bytes) : result error Frame :=
  fail? (zlen encoded <? HeaderBytes) || (HeaderBytes + MaxPayloadBytes <? zlen encoded)
        || negb (bool_decide (ztake 4 encoded = magic))
        || negb (bz (nth 4 encoded Byte.x00) =? MajorVersion)
        || negb (bz (nth 5 encoded Byte.x00) =? MinorVersion) with ErrInvalidFrame in
  let len := get_be (slice 12 16 encoded) in
  fail? negb (len + HeaderBytes =? zlen encoded) with ErrInvalidFrame in
  let f := mkFrame (bz (nth 6 encoded Byte.x00)) (bz (nth 7 encoded Byte.x00))
             (get_be (slice 8 12 encoded)) (slice 16 48 encoded) (zdrop HeaderBytes encoded) in
  let? _ := validate f in
  Ok f.

Definition Decode (encoded : bytes) : result error Frame :=
  let? f := DecodeView encoded in
  Ok (mkFrame (Type_ f) (Flags f) (StreamID f) (PlanDigest f) (Payload f)).

(** ** The layout of a record *)

Definition header (f : Frame) (len : Z) : bytes :=
  magic ++ [zb MajorVersion; zb MinorVersion; zb (Type_ f); zb (Flags f)]
  ++ PutUint32 (StreamID f) ++ PutUint32 (wrap32 len) ++ PlanDigest f.

Lemma copyInto_app pre old post src lo hi : length pre = lo -> length src = length old ->
  (lo + length src <= hi)%nat -> copyInto lo hi src (pre ++ old ++ post) = pre ++ src ++ post.
Proof.
  intros <- Hl Hhi. unfold copyInto.
  replace (length src `min` (hi - length pre))%nat with (length src) by lia.
  rewrite take_app_length, (take_ge src) by lia. f_equal. f_equal.
  rewrite app_assoc. by rewrite drop_app_length' by (rewrite length_app; lia).
Qed.

Lemma copyInto_head old post src hi : length src = length old -> (length src <= hi)%nat ->
  copyInto 0 hi src (old ++ post) = src ++ post.
Proof. intros. by apply (copyInto_app [] old post src). Qed.

Lemma length_header f len : length (PlanDigest f) = 32%nat -> length (header f len) = 48%nat.
Proof.
  intros H. unfold header, PutUint32. rewrite !length_app, !length_put_be, H. done.
Qed.

(** What [writeFrame] leaves in memory: header, payload, and the bytes beyond
    the record untouched. The payload is the one the reference named when the
    call began, wherever it lies. *)
Lemma writeFrame_layout mem n f p : length (PlanDigest f) = 32%nat ->
  n = (48 + length (deref mem p))%nat -> (n <= length mem)%nat ->
  writeFrame mem n f p = header f (refLen mem p) ++ deref mem p ++ drop n mem.
Proof.
  intros Hd Hn Hle. unfold writeFrame. set (len := refLen mem p).
  destruct (split_at n mem Hle) as (record & tail & Emem & Hrec).
  assert (drop n mem = tail) as -> by (rewrite Emem; by apply drop_app_length').
  set (pl := deref mem p) in *. clearbody pl len.
  destruct (split_at 48 record) as (ha & old & -> & Hh); [lia|]. rewrite length_app in Hrec.
  destruct (split_at 4 ha) as (h0 & hb & -> & H0); [lia|]. rewrite length_app in Hh.
  destruct (split_at 4 hb) as (h4 & hc & -> & H4); [lia|]. rewrite length_app in Hh.
  destruct (split_at 4 hc) as (h8 & hd & -> & H8); [lia|]. rewrite length_app in Hh.
  destruct (split_at 4 hd) as (h12 & h16 & -> & H12); [lia|]. rewrite length_app in Hh.
  rewrite Emem, <- (app_assoc _ old tail), copyInto_app by (rewrite ?length_app in *; lia).
  unfold header. rewrite <- !app_assoc.
  rewrite (copyInto_head h0) by (simpl; lia).
  rewrite (copyInto_app magic h4) by (done || simpl; lia).
  rewrite (app_assoc magic), (copyInto_app (magic ++ _) h8)
    by (rewrite ?length_app; unfold PutUint32; rewrite ?length_put_be; simpl; lia).
  rewrite (app_assoc (magic ++ _)), (copyInto_app ((magic ++ _) ++ _) h12)
    by (rewrite ?length_app; unfold PutUint32; rewrite ?length_put_be; simpl; lia).
  rewrite (app_assoc ((magic ++ _) ++ _)), (copyInto_app (((magic ++ _) ++ _) ++ _) h16)
    by (rewrite ?length_app; unfold PutUint32; rewrite ?length_put_be; simpl; lia).
  by rewrite <- !app_assoc.
Qed.

(** ** Encoding *)

Lemma Encode_layout f : typed f ->
  Encode f = let? _ := validate f in Ok (header f (zlen (Payload f)) ++ Payload f).
Proof.
  intros (_ & _ & _ & Hd). unfold Encode. destruct (validate f); [|done]. simpl rbind.
  assert (Z.to_nat (HeaderBytes + zlen (Payload f)) = (48 + length (Payload f))%nat) as Hn
    by (unfold HeaderBytes, zlen; lia).
  rewrite Hn, writeFrame_layout; [|done|done|by rewrite length_replicate].
  rewrite (drop_ge (replicate _ _)) by (rewrite length_replicate; simpl; lia).
  by rewrite app_nil_r.
Qed.

(** The fields of a record, each at its offset. *)
Record fields (bs : bytes) (b4 b5 b6 b7 : Byte.byte) (sid len digest payload : bytes) : Prop := {
  fd_eq : bs = magic ++ [b4; b5; b6; b7] ++ sid ++ len ++ digest ++ payload;
  fd_sid : length sid = 4%nat;
  fd_len : length len = 4%nat;
  fd_digest : length digest = 32%nat;
}.

Section record_fields.
Context bs b4 b5 b6 b7 sid len digest payload
  (F : fields bs b4 b5 b6 b7 sid len digest payload).

Lemma fields_slices :
  ztake 4 bs = magic /\ slice 8 12 bs = sid /\ slice 12 16 bs = len /\
  slice 16 48 bs = digest /\ zdrop 48 bs = payload /\ zlen bs = 48 + zlen payload /\
  nth 4 bs Byte.x00 = b4 /\ nth 5 bs Byte.x00 = b5 /\
  nth 6 bs Byte.x00 = b6 /\ nth 7 bs Byte.x00 = b7.
Proof using F.
  destruct F as [-> Hs Hl Hd]. repeat split.
  - rewrite (app_assoc magic). apply slice_app; unfold zlen; simpl; lia.
  - rewrite (app_assoc magic), (app_assoc (magic ++ _)).
    apply slice_app; unfold zlen; rewrite ?length_app; simpl; lia.
  - rewrite (app_assoc magic), (app_assoc (magic ++ _)), (app_assoc ((magic ++ _) ++ _)).
    apply slice_app; unfold zlen; rewrite ?length_app; simpl; lia.
  - rewrite !app_assoc. apply zdrop_app_le. unfold zlen. rewrite !length_app. simpl. lia.
  - rewrite !zlen_app. unfold zlen. simpl. lia.
Qed.

Lemma DecodeView_fields :
  DecodeView bs =
    fail? MaxPayloadBytes <? zlen payload with ErrInvalidFrame in
    fail? negb (bz b4 =? MajorVersion) || negb (bz b5 =? MinorVersion) with ErrInvalidFrame in
    fail? negb (get_be len =? zlen payload) with ErrInvalidFrame in
    let f := mkFrame (bz b6) (bz b7) (get_be sid) digest payload in
    let? _ := validate f in Ok f.
Proof using F.
  destruct fields_slices as (E1 & E2 & E3 & E4 & E5 & E6 & E7 & E8 & E9 & E10).
  unfold DecodeView, HeaderBytes. rewrite E1, E2, E3, E4, E5, E6, E7, E8, E9, E10.
  rewrite bool_decide_eq_true_2 by done. pose proof (zlen_nonneg payload).
  rewrite (proj2 (Z.ltb_ge _ 48)) by lia. rewrite orb_false_l. simpl negb. rewrite orb_false_r.
  replace (48 + MaxPayloadBytes <? 48 + zlen payload) with (MaxPayloadBytes <? zlen payload)
    by (destruct (Z.ltb_spec MaxPayloadBytes (zlen payload)), (Z.ltb_spec (48 + MaxPayloadBytes) (48 + zlen payload)); lia).
  replace (get_be len + 48 =? 48 + zlen payload) with (get_be len =? zlen payload)
    by (destruct (Z.eqb_spec (get_be len) (zlen payload)), (Z.eqb_spec (get_be len + 48) (48 + zlen payload)); lia).
  by destruct (MaxPayloadBytes <? zlen payload), (bz b4 =? _), (bz b5 =? _).
Qed.
End record_fields.

Lemma validate_payload f : validate f = Ok tt -> zlen (Payload f) <= MaxPayloadBytes.
Proof.
  unfold validate. intros H. go_inv H.
  apply orb_false_iff in G as [_ G]. by apply Z.ltb_ge.
Qed.

Lemma header_fields f : typed f ->
  fields (header f (zlen (Payload f)) ++ Payload f)
    (zb MajorVersion) (zb MinorVersion) (zb (Type_ f)) (zb (Flags f))
    (PutUint32 (StreamID f)) (PutUint32 (wrap32 (zlen (Payload f)))) (PlanDigest f) (Payload f).
Proof.
  intros (_ & _ & _ & Hd). split; [|apply length_put_be|apply length_put_be|done].
  unfold header. by rewrite <- !app_assoc.
Qed.

(** Every record long enough has the fields, and they are bytes it holds. *)
Lemma record_has_fields bs : HeaderBytes <= zlen bs -> ztake 4 bs = magic ->
  exists b4 b5 b6 b7 sid len digest payload, fields bs b4 b5 b6 b7 sid len digest payload.
Proof.
  unfold HeaderBytes, zlen. intros Hlen Hm.
  rewrite <- (ztake_zdrop 4 bs), Hm in Hlen |- *. rewrite length_app in Hlen. simpl in Hlen.
  set (rest := zdrop 4 bs) in *. clearbody rest.
  destruct (split_at 4 rest) as (v & r1 & -> & Hv); [lia|]. rewrite length_app in Hlen.
  destruct (split_at 4 r1) as (sid & r2 & -> & Hs); [lia|]. rewrite length_app in Hlen.
  destruct (split_at 4 r2) as (len & r3 & -> & Hl); [lia|]. rewrite length_app in Hlen.
  destruct (split_at 32 r3) as (digest & payload & -> & Hd); [lia|].
  destruct v as [|b4 [|b5 [|b6 [|b7 [|]]]]]; try done.
  by exists b4, b5, b6, b7, sid, len, digest, payload.
Qed.

(** ** Properties *)

(** Decoding an encoded frame returns the frame: every frame of the Go
    type that [Encode] accepts survives the wire unchanged. *)
Theorem wirev1_roundtrip f out : typed f -> Encode f = Ok out -> Decode out = Ok f.
Proof.
  intros Ht He. rewrite Encode_layout in He by done. apply rbind_ok in He as ([] & Hv & He).
  assert (out = header f (zlen (Payload f)) ++ Payload f) as -> by congruence. unfold Decode.
  rewrite (DecodeView_fields _ _ _ _ _ _ _ _ _ (header_fields f Ht)).
  pose proof (validate_payload f Hv) as Hp. destruct Ht as (H1 & H2 & H3 & H4).
  rewrite (proj2 (Z.ltb_ge _ _) Hp). rewrite !bz_zb.
  unfold u8, uint in H1, H2. change (2 ^ 8) with 256 in H1, H2.
  rewrite (Z.mod_small (Type_ f)), (Z.mod_small (Flags f)) by done.
  rewrite !get_PutUint32, (wrap32_small (StreamID f)) by done.
  assert (wrap32 (wrap32 (zlen (Payload f))) = zlen (Payload f)) as ->.
  { pose proof (zlen_nonneg (Payload f)). change MaxPayloadBytes with 1048576 in Hp.
    assert (u32 (zlen (Payload f))) as Hu by (unfold_widths; lia).
    by rewrite (wrap32_small (zlen _)), wrap32_small. }
  rewrite Z.eqb_refl. simpl negb. cbn [orb rbind reject negb].
  replace (mkFrame (Type_ f) (Flags f) (StreamID f) (PlanDigest f) (Payload f)) with f
    by (by destruct f).
  rewrite Z.eqb_refl, Hv. by destruct f.
Qed.

Lemma wirev1_roundtrip_witness :
  let f := mkFrame 5 1 7 (replicate 32 Byte.x41) (sbytes "payload") in
  exists out, Encode f = Ok out /\ Decode out = Ok f.
Proof.
  eexists. split; [vm_compute; reflexivity|].
  apply wirev1_roundtrip; [|vm_compute; reflexivity].
  repeat split; simpl; done || lia.
Defined.

(** The encoding is canonical: a byte string that [Decode] accepts is the
    encoding of the frame it returns, so no two records decode to one frame. *)
Theorem wirev1_canonical bs f : Decode bs = Ok f -> typed f /\ Encode f = Ok bs.
Proof.
  unfold Decode. intros H. apply rbind_ok in H as (g & Hg & H). injection H as <-.
  assert (HeaderBytes <= zlen bs /\ ztake 4 bs = magic) as [Hlen Hm].
  { unfold DecodeView in Hg. apply reject_bind_ok in Hg as [G _].
    repeat (apply orb_false_iff in G as [G ?]). split; [by apply Z.ltb_ge|].
    match goal with H : negb (bool_decide _) = false |- _ =>
      by apply negb_false_iff, bool_decide_eq_true in H end. }
  destruct (record_has_fields bs Hlen Hm) as (b4 & b5 & b6 & b7 & sid & len & dg & pl & F).
  rewrite (DecodeView_fields _ _ _ _ _ _ _ _ _ F) in Hg.
  apply reject_bind_ok in Hg as [_ Hg]. apply reject_bind_ok in Hg as [Gv Hg].
  apply reject_bind_ok in Hg as [Gl Hg]. cbv zeta in Hg.
  apply rbind_ok in Hg as ([] & Hv & Hg). injection Hg as <-. simpl.
  apply orb_false_iff in Gv as [G4 G5]. apply negb_false_iff, Z.eqb_eq in G4, G5, Gl.
  destruct F as [-> Hs Hl Hd].
  assert (typed (mkFrame (bz b6) (bz b7) (get_be sid) dg pl)) as Ht.
  { pose proof (get_be_range sid) as Hr. unfold zlen in Hr. rewrite Hs in Hr.
    repeat split; simpl; try apply bz_range; try done; apply Hr. }
  split; [done|]. rewrite Encode_layout, Hv by done. unfold header.
  cbn [rbind Type_ Flags StreamID PlanDigest Payload].
  rewrite <- !app_assoc, <- G4, <- G5, !zb_bz, <- Gl.
  assert (PutUint32 (get_be sid) = sid) as -> by (unfold PutUint32; rewrite <- Hs; apply put_get_be).
  pose proof (get_be_range len) as Hr. unfold zlen in Hr. rewrite Hl in Hr.
  rewrite wrap32_small by done.
  assert (PutUint32 (get_be len) = len) as -> by (unfold PutUint32; rewrite <- Hl; apply put_get_be).
  done.
Qed.

Lemma wirev1_canonical_witness :
  let bs := magic ++ [Byte.x01; Byte.x00; Byte.x06; Byte.x00] ++ PutUint32 0 ++ PutUint32 0
            ++ replicate 32 Byte.x11 in
  Encode (mkFrame 6 0 0 (replicate 32 Byte.x11) []) = Ok bs.
Proof.
  eapply (wirev1_canonical _ (mkFrame 6 0 0 (replicate 32 Byte.x11) [])).
  vm_compute. reflexivity.
Defined.

(** C17: [EncodeInto] writes exactly the record [Encode] builds and leaves the
    rest of the destination alone, also when the payload is a slice of the
    destination that overlaps the header or the payload area. *)
Theorem EncodeInto_overlap_safe dst f p n dst' : typed f ->
  EncodeInto dst f p = (dst', Ok n) ->
  Encode (mkFrame (Type_ f) (Flags f) (StreamID f) (PlanDigest f) (deref dst p))
    = Ok (ztake n dst') /\
  zdrop n dst' = zdrop n dst /\ n = HeaderBytes + zlen (deref dst p).
Proof.
  intros Ht. unfold EncodeInto.
  set (g := mkFrame (Type_ f) (Flags f) (StreamID f) (PlanDigest f) (deref dst p)).
  assert (typed g) as Hg by apply Ht.
  destruct (validate g) as [[]|] eqn:Hv; [|done].
  destruct (Z.ltb_spec (zlen dst) (HeaderBytes + refLen dst p)) as [|Hle]; [done|].
  intros [= <- <-]. rewrite (Encode_layout g Hg), Hv. simpl rbind.
  assert (Z.to_nat (HeaderBytes + refLen dst p) = (48 + length (deref dst p))%nat) as Hn
    by (unfold HeaderBytes, refLen, zlen; lia).
  rewrite Hn, writeFrame_layout; [|apply Ht|done|unfold HeaderBytes, refLen, zlen in *; lia].
  assert (HeaderBytes + refLen dst p = zlen (header f (refLen dst p) ++ deref dst p)) as Hz.
  { unfold zlen. rewrite length_app, length_header by apply Ht.
    unfold HeaderBytes, refLen, zlen. lia. }
  rewrite app_assoc. split; [|split]; [| |done].
  - rewrite ztake_app_le by done. done.
  - rewrite zdrop_app_le by done. unfold zdrop. by rewrite Hn.
Qed.

Lemma EncodeInto_overlap_safe_witness :
  let dst := replicate 20 Byte.x61 ++ replicate 60 Byte.x62 in
  let f := mkFrame 5 0 3 (replicate 32 Byte.x77) [] in
  zdrop 58 (fst (EncodeInto dst f (View 15 10))) = zdrop 58 dst.
Proof.
  intros dst f.
  eapply (EncodeInto_overlap_safe dst f (View 15 10) 58);
    [repeat split; simpl; done || lia | vm_compute; reflexivity].
Defined.
