(* ===== verification/KeySchedule.v ===== *)
(** * Suites and the v1 key schedule

    [src/internal/crypto/security/keyschedule.go] and the suite of
    [context.go]. HKDF-SHA256 and SHA-256 come from Go's crypto packages: they
    are the operations of the interface [Primitives], and nothing is assumed
    of them beyond their types. The schedule itself checks every output it
    gets, and the theorems below rest on those checks and on the encoding of
    the HKDF inputs. *)

From S2P Require Import Prelude GoBytes SecurityErrors.
From Stdlib Require Import ZArith Lia Strings.Byte.
From stdpp Require Import base list strings.
Local Open Scope Z_scope.

(** ** Suites (context.go) *)

Record Suite := mkSuite { KDF : string; AEAD : string; MAC : string; Transcript : string }.

#[export] Instance suite_eq_dec : EqDecision Suite.
Proof. solve_decision. Defined.

Definition SuiteKDFHKDFSHA256 : string := "kdf_hkdf_sha256".
Definition SuiteAEADAES256GCM : string := "aead_aes_256_gcm".
Definition SuiteMACHMACSHA256 : string := "mac_hmac_sha256".
Definition SuiteTranscriptSHA256V1 : string := "transcript_sha256_v1".

Definition DefaultSuite : Suite :=
  mkSuite SuiteKDFHKDFSHA256 SuiteAEADAES256GCM SuiteMACHMACSHA256 SuiteTranscriptSHA256V1.

Definition SuiteSupported (s : Suite) : bool := bool_decide (s = DefaultSuite).

(** ** The schedule *)

Class Primitives := {
  sha256 : bytes -> bytes;
  hkdf_extract : bytes -> bytes -> result unit bytes;           (* secret, salt *)
  hkdf_expand : bytes -> bytes -> Z -> result unit bytes;       (* prk, info, length *)
}.

Definition keyScheduleKeyBytes : Z := 32.
Definition keyScheduleNonceBytes : Z := 12.

Definition keyLabelC2SKey : string := "kurdistan/hkdf/v1/c2s-key".
Definition keyLabelS2CKey : string := "kurdistan/hkdf/v1/s2c-key".
Definition keyLabelC2SNonce : string := "kurdistan/hkdf/v1/c2s-nonce".
Definition keyLabelS2CNonce : string := "kurdistan/hkdf/v1/s2c-nonce".
Definition keyLabelExporter : string := "kurdistan/hkdf/v1/exporter".
Definition keyLabelRekey : string := "kurdistan/hkdf/v1/rekey".
Definition keyLabelRekeySalt : string := "kurdistan/hkdf/v1/rekey-salt".

(** [KDFError]: a reason and the package sentinel it wraps. *)
Inductive kdf_error := kdfInvalid (cause : error) (reason : string).

(** What an expand function may fail with: a [KDFError], or anything else. *)
Inductive expand_error := ExpandKDF (e : kdf_error) | ExpandOther.

Definition expandFunc : Type := bytes -> string -> bytes -> Z -> Z -> result expand_error bytes.

Record KeySchedule := mkSchedule {
  ks_Suite : Suite;
  Epoch : Z;
  ClientWriteKey : bytes;
  ServerWriteKey : bytes;
  ClientNonceBase : bytes;
  ServerNonceBase : bytes;
  ExporterSecret : bytes;
  rekeySecret : bytes;
  transcriptHash : bytes;      (* [32]byte *)
  boundEpoch : Z;
  exactV1 : bool;
}.

Record KeyScheduleInput := mkInput {
  ApplicationSecret : bytes; TranscriptHash : bytes; in_Suite : Suite }.

(** [combined |= item] over the bytes, compared with zero. *)
Definition allZeroKeyBytes (value : bytes) : bool :=
  foldl (fun combined item => Z.lor combined (bz item)) 0 value =? 0.

Definition validateKeyScheduleBytes (value : bytes) : result error unit :=
  reject (negb (zlen value =? 32) || allZeroKeyBytes value) (ErrInvalidConfig "").

Definition wipeKeyBytes (value : bytes) : bytes := (fun _ => Byte.x00) <$> value.

Definition writeKeyScheduleLP (out value : bytes) : bytes :=
  out ++ PutUint32 (wrap32 (zlen value)) ++ value.

Definition keyScheduleHash `{Primitives} (label : string) (parts : list bytes) : bytes :=
  sha256 (foldl writeKeyScheduleLP (writeKeyScheduleLP [] (sbytes label)) parts).

Definition keyScheduleU64 (value : Z) : bytes := PutUint64 value.

Definition keyScheduleInfo (label : string) (transcript : bytes) (epoch : Z) : bytes :=
  writeKeyScheduleLP [] (sbytes label) ++ transcript ++ PutUint64 epoch.

Definition keyScheduleOutputLength (label : string) : option Z :=
  if mem label [keyLabelC2SKey; keyLabelS2CKey; keyLabelExporter; keyLabelRekey]
  then Some keyScheduleKeyBytes
  else if mem label [keyLabelC2SNonce; keyLabelS2CNonce] then Some keyScheduleNonceBytes
  else None.

Definition expandKeyScheduleV1 `{Primitives} : expandFunc :=
  fun epochPRK label transcript epoch length =>
  map_err ExpandKDF (
  match keyScheduleOutputLength label with
  | None => Err (kdfInvalid (ErrInvalidConfig "") "label")
  | Some wantLength =>
      fail? negb (length =? wantLength) with kdfInvalid (ErrInvalidConfig "") "output_length" in
      let? _ := map_err (fun _ => kdfInvalid (ErrInvalidConfig "") "epoch_prk")
                  (validateKeyScheduleBytes epochPRK) in
      fail? allZeroKeyBytes transcript with kdfInvalid (ErrInvalidTranscript "") "transcript" in
      map_err (fun _ => kdfInvalid (ErrInvalidConfig "") "expand")
        (hkdf_expand epochPRK (keyScheduleInfo label transcript epoch) length)
  end).

(** The loop over named values with their lengths. *)
Fixpoint checkOutputs (outs : list (string * bytes * Z)) : result kdf_error unit :=
  match outs with
  | [] => Ok tt
  | (name, value, len) :: rest =>
      fail? negb (zlen value =? len) || allZeroKeyBytes value
        with kdfInvalid (ErrInvalidConfig "") name in
      checkOutputs rest
  end.

(** Whether two of the values at different positions are equal. *)
Fixpoint anyEqual (values : list bytes) : bool :=
  match values with [] => false | v :: rest => mem v rest || anyEqual rest end.

Definition validateRatchetSourceV1 (c : KeySchedule) : result kdf_error unit :=
  fail? negb (exactV1 c) with kdfInvalid (ErrInvalidConfig "") "schedule_version" in
  fail? negb (Epoch c =? boundEpoch c) with kdfInvalid (ErrInvalidConfig "") "epoch_skip" in
  fail? negb (SuiteSupported (ks_Suite c)) with kdfInvalid ErrInvalidSuite "suite" in
  fail? allZeroKeyBytes (transcriptHash c) with kdfInvalid (ErrInvalidTranscript "") "transcript" in
  let? _ := checkOutputs [
    ("client_write_key", ClientWriteKey c, keyScheduleKeyBytes);
    ("server_write_key", ServerWriteKey c, keyScheduleKeyBytes);
    ("client_nonce_base", ClientNonceBase c, keyScheduleNonceBytes);
    ("server_nonce_base", ServerNonceBase c, keyScheduleNonceBytes);
    ("exporter_secret", ExporterSecret c, keyScheduleKeyBytes);
    ("rekey_secret", rekeySecret c, keyScheduleKeyBytes) ] in
  fail? anyEqual [ClientWriteKey c; ServerWriteKey c; ExporterSecret c; rekeySecret c]
    with kdfInvalid (ErrInvalidConfig "") "key_domain" in
  reject (bool_decide (ClientNonceBase c = ServerNonceBase c))
    (kdfInvalid (ErrInvalidConfig "") "nonce_domain").

(** The loop over the six outputs; a foreign error becomes [kdf_invalid]. *)
Fixpoint expandAll (expand : string -> Z -> result expand_error bytes)
    (outs : list (string * Z)) : result kdf_error (list bytes) :=
  match outs with
  | [] => Ok []
  | (label, len) :: rest =>
      match expand label len with
      | Err (ExpandKDF e) => Err e
      | Err ExpandOther => Err (kdfInvalid (ErrInvalidConfig "") "expand")
      | Ok v => let? vs := expandAll expand rest in Ok (v :: vs)
      end
  end.

Definition epochOutputs : list (string * Z) := [
  (keyLabelC2SKey, keyScheduleKeyBytes); (keyLabelS2CKey, keyScheduleKeyBytes);
  (keyLabelC2SNonce, keyScheduleNonceBytes); (keyLabelS2CNonce, keyScheduleNonceBytes);
  (keyLabelExporter, keyScheduleKeyBytes); (keyLabelRekey, keyScheduleKeyBytes) ].

Definition deriveEpochKeyScheduleWithExpand (suite : Suite) (epochPRK transcript : bytes)
    (epoch : Z) (expand : option expandFunc) : result kdf_error KeySchedule :=
  fail? negb (SuiteSupported suite) with kdfInvalid ErrInvalidSuite "suite" in
  let? _ := map_err (fun _ => kdfInvalid (ErrInvalidConfig "") "epoch_prk")
              (validateKeyScheduleBytes epochPRK) in
  fail? allZeroKeyBytes transcript with kdfInvalid (ErrInvalidTranscript "") "transcript" in
  match expand with
  | None => Err (kdfInvalid (ErrInvalidConfig "") "expand_function")
  | Some expand =>
      let? vs := expandAll (fun label len => expand epochPRK label transcript epoch len)
                   epochOutputs in
      match vs with
      | [c2s; s2c; c2sn; s2cn; exporter; rekey] =>
          let schedule := mkSchedule suite epoch c2s s2c c2sn s2cn exporter rekey
                            transcript epoch true in
          let? _ := validateRatchetSourceV1 schedule in
          Ok schedule
      | _ => Err (kdfInvalid (ErrInvalidConfig "") "expand")
      end
  end.

(** [DeriveKeyScheduleV1]: the secret the caller handed over, as it is left in
    memory on return, and the schedule. The deferred wipe runs on every path. *)
Definition deriveKeyScheduleV1WithExpand (input : KeyScheduleInput) (expand : option expandFunc)
    : bytes * result kdf_error KeySchedule :=
  (wipeKeyBytes (ApplicationSecret input),
   let? _ := map_err (fun _ => kdfInvalid (ErrInvalidConfig "") "application_secret")
               (validateKeyScheduleBytes (ApplicationSecret input)) in
   let? _ := map_err (fun _ => kdfInvalid (ErrInvalidTranscript "") "transcript")
               (validateKeyScheduleBytes (TranscriptHash input)) in
   fail? negb (SuiteSupported (in_Suite input)) with kdfInvalid ErrInvalidSuite "suite" in
   deriveEpochKeyScheduleWithExpand (in_Suite input) (ApplicationSecret input)
     (TranscriptHash input) 0 expand).

Definition DeriveKeyScheduleV1 `{Primitives} (input : KeyScheduleInput)
    : bytes * result kdf_error KeySchedule :=
  deriveKeyScheduleV1WithExpand input (Some expandKeyScheduleV1).

Definition validateCrossEpochSeparationV1 (c p : KeySchedule) : result kdf_error unit :=
  reject (bool_decide (ClientWriteKey c = ClientWriteKey p)
          || bool_decide (ServerWriteKey c = ServerWriteKey p)
          || bool_decide (ClientNonceBase c = ClientNonceBase p)
          || bool_decide (ServerNonceBase c = ServerNonceBase p)
          || bool_decide (ExporterSecret c = ExporterSecret p)
          || bool_decide (rekeySecret c = rekeySecret p))
    (kdfInvalid (ErrInvalidConfig "") "epoch_domain").

Definition ratchetKeyScheduleV1 `{Primitives} (current : KeySchedule)
    (expand : option expandFunc) : result kdf_error KeySchedule :=
  let? _ := validateRatchetSourceV1 current in
  fail? Epoch current =? MaxUint64 with kdfInvalid (ErrInvalidConfig "") "epoch_overflow" in
  let next := wrap64 (Epoch current + 1) in
  let nextSalt := keyScheduleHash keyLabelRekeySalt [transcriptHash current; keyScheduleU64 next] in
  let? epochPRK := map_err (fun _ => kdfInvalid (ErrInvalidConfig "") "ratchet_extract")
                     (hkdf_extract (rekeySecret current) nextSalt) in
  let? pending := deriveEpochKeyScheduleWithExpand (ks_Suite current) epochPRK
                    (transcriptHash current) next expand in
  let? _ := validateCrossEpochSeparationV1 current pending in
  Ok pending.

Definition RatchetKeyScheduleV1 `{Primitives} (current : KeySchedule)
    : result kdf_error KeySchedule :=
  ratchetKeyScheduleV1 current (Some expandKeyScheduleV1).

(** [Destroy]: every secret is wiped, then the schedule is reset. *)
Definition Destroy (schedule : option KeySchedule) : option KeySchedule :=
  match schedule with
  | None => None
  | Some _ => Some (mkSchedule (mkSuite "" "" "" "") 0 [] [] [] [] [] []
                      (replicate 32 Byte.x00) 0 false)
  end.

(** ** The legacy schedule *)

Definition legacyKeyScheduleSaltPrefix : string := "kurdistan-key-schedule-v1:".
Definition legacyKeyScheduleInfoPrefix : string := "kurdistan-hkdf-v1/".

Fixpoint legacyExpandAll `{Primitives} (prk : bytes) (outs : list (string * Z))
    : result error (list bytes) :=
  match outs with
  | [] => Ok []
  | (label, len) :: rest =>
      let? v := map_err (fun _ => ErrInvalidConfig "legacy expand")
                  (hkdf_expand prk (sbytes (legacyKeyScheduleInfoPrefix ++ label)) len) in
      let? vs := legacyExpandAll prk rest in Ok (v :: vs)
  end.

Definition DeriveKeySchedule `{Primitives} (inputSecret : bytes) (transcript : string)
    (suite : Suite) : result error KeySchedule :=
  fail? zlen inputSecret =? 0 with ErrInvalidConfig "empty input secret" in
  fail? bool_decide (transcript = "") with ErrInvalidTranscript "" in
  fail? negb (SuiteSupported suite) with ErrInvalidSuite in
  let? prk := map_err (fun _ => ErrInvalidConfig "legacy extract")
                (hkdf_extract inputSecret (sbytes (legacyKeyScheduleSaltPrefix ++ transcript))) in
  let? vs := legacyExpandAll prk [
    ("client_write", keyScheduleKeyBytes); ("server_write", keyScheduleKeyBytes);
    ("client_nonce_base", keyScheduleNonceBytes); ("server_nonce_base", keyScheduleNonceBytes);
    ("exporter_secret", keyScheduleKeyBytes) ] in
  match vs with
  | [c; s; cn; sn; exporter] =>
      Ok (mkSchedule suite 0 c s cn sn exporter [] (replicate 32 Byte.x00) 0 false)
  | _ => Err (ErrInvalidConfig "legacy expand")
  end.

(** ** Encodings *)

Lemma writeLP_inj v v' rest rest' : zlen v < 2 ^ 32 -> zlen v' < 2 ^ 32 ->
  writeKeyScheduleLP [] v ++ rest = writeKeyScheduleLP [] v' ++ rest' -> v = v' /\ rest = rest'.
Proof.
  intros H1 H2 H. unfold writeKeyScheduleLP in H. rewrite !app_nil_l, <- !app_assoc in H.
  pose proof (zlen_nonneg v). pose proof (zlen_nonneg v').
  apply app_inj_1 in H as [Hlen H]; [|unfold PutUint32; by rewrite !length_put_be].
  rewrite !wrap32_small in Hlen by (unfold_widths; lia).
  apply put_be_inj in Hlen; [|change (256 ^ Z.of_nat 4) with (2 ^ 32); lia..].
  apply app_inj_1 in H; [done|]. unfold zlen in Hlen. lia.
Qed.

(** The HKDF [info] input separates its domain: two expansions have the
    same info bytes only for the same label, transcript and epoch. *)
Theorem keyScheduleInfo_injective l l' t t' e e' :
  slen l < 2 ^ 32 -> slen l' < 2 ^ 32 -> zlen t = 32 -> zlen t' = 32 -> u64 e -> u64 e' ->
  keyScheduleInfo l t e = keyScheduleInfo l' t' e' -> l = l' /\ t = t' /\ e = e'.
Proof.
  intros Hl Hl' Ht Ht' He He' H. unfold keyScheduleInfo in H.
  apply writeLP_inj in H as [Hlab H]; [|done..].
  apply app_inj_1 in H as [-> H]; [|unfold zlen in *; lia].
  apply put_be_inj in H; [|done..]. split; [by apply sbytes_inj|done].
Qed.

Lemma keyScheduleInfo_injective_witness :
  keyScheduleInfo "a" (replicate 32 Byte.x01) 0 <> keyScheduleInfo "a" (replicate 32 Byte.x01) 1.
Proof.
  intros H.
  pose proof (keyScheduleInfo_injective "a" "a" (replicate 32 Byte.x01) (replicate 32 Byte.x01) 0 1
    eq_refl eq_refl eq_refl eq_refl ltac:(unfold_widths; lia) ltac:(unfold_widths; lia) H)
    as (_ & _ & E). discriminate E.
Defined.

(** ** Well-formed schedules *)

(** Right lengths, no all-zero secret, and separated domains. *)
Record wellFormed (c : KeySchedule) : Prop := {
  wf_epoch : Epoch c = boundEpoch c;
  wf_suite : ks_Suite c = DefaultSuite;
  wf_keys : Forall (fun k => zlen k = 32 /\ allZeroKeyBytes k = false)
              [ClientWriteKey c; ServerWriteKey c; ExporterSecret c; rekeySecret c];
  wf_bases : Forall (fun k => zlen k = 12 /\ allZeroKeyBytes k = false)
               [ClientNonceBase c; ServerNonceBase c];
  wf_key_domains : NoDup [ClientWriteKey c; ServerWriteKey c; ExporterSecret c; rekeySecret c];
  wf_nonce_domains : ClientNonceBase c <> ServerNonceBase c;
}.

Lemma anyEqual_NoDup vs : anyEqual vs = false -> NoDup vs.
Proof.
  induction vs as [|v vs IH]; [constructor|]. simpl.
  intros [H1 H2]%orb_false_iff. constructor; [by apply mem_false|auto].
Qed.

Lemma validate_wellFormed c : validateRatchetSourceV1 c = Ok tt -> wellFormed c.
Proof.
  unfold validateRatchetSourceV1. intros H. go_inv H.
  apply negb_false_iff, Z.eqb_eq in G0. apply negb_false_iff, bool_decide_eq_true in G1.
  cbn [checkOutputs] in E. go_inv E.
  repeat match goal with G : negb _ || _ = false |- _ =>
    apply orb_false_iff in G as [?%negb_false_iff%Z.eqb_eq ?] end.
  constructor; try done; [by repeat constructor..| |].
  - by apply anyEqual_NoDup.
  - by apply bool_decide_eq_false in H.
Qed.

Lemma derive_ok suite prk tr epoch expand c :
  deriveEpochKeyScheduleWithExpand suite prk tr epoch expand = Ok c ->
  Epoch c = epoch /\ transcriptHash c = tr /\ ks_Suite c = suite /\
  validateRatchetSourceV1 c = Ok tt.
Proof.
  unfold deriveEpochKeyScheduleWithExpand. intros H. go_inv H.
  destruct expand as [ex|]; [|done]. go_inv H.
  destruct x0 as [|? [|? [|? [|? [|? [|? [|]]]]]]]; try done.
  apply rbind_ok in H as ([] & Hv & H). injection H as <-. done.
Qed.

(** Two schedules differ in each of the six secrets, compared name by name. *)
Definition separated (c p : KeySchedule) : Prop :=
  ClientWriteKey c <> ClientWriteKey p /\ ServerWriteKey c <> ServerWriteKey p /\
  ClientNonceBase c <> ClientNonceBase p /\ ServerNonceBase c <> ServerNonceBase p /\
  ExporterSecret c <> ExporterSecret p /\ rekeySecret c <> rekeySecret p.

Lemma crossEpoch_separated c p : validateCrossEpochSeparationV1 c p = Ok tt -> separated c p.
Proof.
  unfold validateCrossEpochSeparationV1. intros H. apply reject_ok in H.
  repeat (apply orb_false_iff in H as [H ?]).
  repeat match goal with H : bool_decide _ = false |- _ => apply bool_decide_eq_false in H end.
  done.
Qed.

Section ratchet.
Context `{Primitives}.

Lemma ratchet_ok expand c n : u64 (Epoch c) -> ratchetKeyScheduleV1 c expand = Ok n ->
  Epoch n = Epoch c + 1 /\ Epoch n <= MaxUint64 /\ transcriptHash n = transcriptHash c /\
  ks_Suite n = ks_Suite c /\ wellFormed c /\ wellFormed n /\ separated c n.
Proof using Type.
  unfold ratchetKeyScheduleV1. intros Hu Hr. go_inv Hr. repeat match goal with x : unit |- _ => destruct x end.
  injection Hr as <-. apply Z.eqb_neq in G.
  apply derive_ok in E1 as (He & Ht & Hs & Hv).
  rewrite wrap64_small in He by (unfold_widths; lia).
  repeat split; try done; try by apply validate_wellFormed.
  all: try (apply crossEpoch_separated in E2; by apply E2).
  rewrite He. unfold_widths. lia.
Qed.

Fixpoint ratchetN (n : nat) (c : KeySchedule) : result kdf_error KeySchedule :=
  match n with O => Ok c | S m => let? c' := ratchetN m c in RatchetKeyScheduleV1 c' end.

Lemma wiped_zero value : allZeroKeyBytes (wipeKeyBytes value) = true /\ zlen (wipeKeyBytes value) = zlen value.
Proof using Type. unfold wipeKeyBytes, zlen. rewrite length_fmap. split; [|done]. by induction value. Qed.

(** C40: A schedule derived from the handshake and ratcheted [n] times is at
    epoch [n] exactly, stays bound to the handshake transcript and the only
    supported suite, has secrets of the right lengths, none of them zero, in
    separated domains, and each of its six secrets differs from the secret of the
    same name in the schedule it replaced. The handed-over application secret is
    overwritten with zeros over its whole length, whether or not the derivation
    succeeds. *)
Theorem ratchet_chain input :
  (allZeroKeyBytes (fst (DeriveKeyScheduleV1 input)) = true /\ zlen (fst (DeriveKeyScheduleV1 input)) = zlen (ApplicationSecret input)) /\
  forall k0 n c c', snd (DeriveKeyScheduleV1 input) = Ok k0 -> ratchetN n k0 = Ok c -> RatchetKeyScheduleV1 c = Ok c' ->
    Epoch c = Z.of_nat n /\ Epoch c' = Z.of_nat n + 1 /\
    transcriptHash c' = TranscriptHash input /\ ks_Suite c' = DefaultSuite /\
    wellFormed c /\ wellFormed c' /\ separated c c'.
Proof using Type.
  split; [apply wiped_zero|]. intros k0 n c c' Hd Hn Hr. unfold DeriveKeyScheduleV1, deriveKeyScheduleV1WithExpand in Hd.
  cbn [snd] in Hd. go_inv Hd. apply derive_ok in Hd as (He & Ht & Hs & Hv).
  assert (u64 (Epoch c) /\ Epoch c = Z.of_nat n /\ transcriptHash c = TranscriptHash input)
    as (Hu & Hec & Htc).
  { clear Hr. revert c Hn. induction n as [|n IH]; intros c Hn; simpl in Hn.
    - injection Hn as <-. rewrite He. by repeat split.
    - apply rbind_ok in Hn as (c1 & Hc1 & Hn). destruct (IH c1 Hc1) as (Hu1 & He1 & Ht1).
      destruct (ratchet_ok _ _ _ Hu1 Hn) as (He2 & Hb & Ht2 & _).
      unfold_widths. repeat split; [lia..|]. by rewrite Ht2. }
  destruct (ratchet_ok _ _ _ Hu Hr) as (He' & Hb & Ht' & Hs' & Hwf & Hwf' & Hsep).
  split; [done|]. split; [lia|]. split; [by rewrite Ht'|]. split; [by apply Hwf'|]. done.
Qed.

(** The ratchet fails closed at the last epoch instead of wrapping. *)
Theorem ratchet_overflow_rejected c expand :
  Epoch c = MaxUint64 -> isOk (ratchetKeyScheduleV1 c expand) = false.
Proof using Type.
  intros He. unfold ratchetKeyScheduleV1. destruct (validateRatchetSourceV1 c); [|done].
  simpl. by rewrite He.
Qed.
End ratchet.

(** A deterministic stand-in for the primitives, for evaluation only. *)
Definition toyPrimitives : Primitives := {|
  sha256 := fun b => put_be 32 (1 + ChecksumIEEE b);
  hkdf_extract := fun secret salt => Ok (put_be 32 (1 + ChecksumIEEE (secret ++ salt)));
  hkdf_expand := fun prk info len => Ok (put_be (Z.to_nat len) (1 + ChecksumIEEE (prk ++ info)));
|}.

Definition toyInput : KeyScheduleInput :=
  mkInput (replicate 32 Byte.x5a) (replicate 32 Byte.xa5) DefaultSuite.

Definition toySchedule : KeySchedule :=
  match snd (@DeriveKeyScheduleV1 toyPrimitives toyInput) with
  | Ok k => k
  | Err _ => mkSchedule DefaultSuite 0 [] [] [] [] [] [] [] 0 false
  end.

Lemma ratchet_chain_witness :
  allZeroKeyBytes (fst (@DeriveKeyScheduleV1 toyPrimitives toyInput)) = true /\
  exists c c', @ratchetN toyPrimitives 2 toySchedule = Ok c /\
    @RatchetKeyScheduleV1 toyPrimitives c = Ok c' /\ Epoch c' = 3 /\ separated c c'.
Proof.
  destruct (@ratchet_chain toyPrimitives toyInput) as [[Hz _] HC]. split; [exact Hz|].
  eexists _, _. split; [vm_compute; reflexivity|]. split; [vm_compute; reflexivity|].
  destruct (HC toySchedule 2%nat
    (match @ratchetN toyPrimitives 2 toySchedule with Ok k => k | Err _ => toySchedule end)
    (match @ratchetN toyPrimitives 3 toySchedule with Ok k => k | Err _ => toySchedule end))
    as (_ & He & _ & _ & _ & _ & Hsep); [vm_compute; reflexivity..|].
  split; [exact He | exact Hsep].
Defined.

Lemma ratchet_overflow_rejected_witness :
  isOk (@ratchetKeyScheduleV1 toyPrimitives
    (mkSchedule DefaultSuite MaxUint64 [] [] [] [] [] [] [] MaxUint64 true) None) = false.
Proof. apply ratchet_overflow_rejected. reflexivity. Defined.
