(* ===== verification/Nonce.v ===== *)
(** * Nonce allocation

    [src/internal/crypto/security/nonce.go] and the domain count of
    [bounded_storage_v3.go]: the legacy counter manager, and the v1 owners
    with their two backends, a map of per-slot counters and the preallocated
    array of the bounded construction. The lock each operation takes makes it
    one atomic step; an operation is a function from the state to the state
    and the result. An array index out of range is a run-time panic in Go and
    is the result [None] here.

    [Spec] is the contract: one counter per domain, no machine width and no
    storage. Both backends refine it, and uniqueness is proved once, there. *)

From S2P Require Import Prelude GoBytes SecurityErrors KeySchedule.
From Stdlib Require Import ZArith Lia Strings.Byte.
From stdpp Require Import base list gmap strings.
Local Open Scope Z_scope.

Definition bxor (a b : Byte.byte) : Byte.byte := zb (Z.lxor (bz a) (bz b)).

Definition xorBytes (a b : bytes) : bytes := zip_with bxor a b.

(** ** The legacy manager *)

Module Legacy.

Record NonceManager := mkManager {
  Direction : string; Base : bytes; Counter : Z; Mode : string }.

Definition NewNonceManager `{Primitives} (direction : string) (base : bytes) (mode : string)
    : NonceManager :=
  let cp := if negb (zlen base =? 12) then ztake 12 (sha256 base) else base in
  let mode := if bool_decide (mode = "") then "directional_counter" else mode in
  mkManager direction cp 0 mode.

(** [out[len(out)-8+i] ^= buf[i]], then the direction bit of byte zero. *)
Definition nonceForLocked `{Primitives} (n : NonceManager) (seq : Z) : result error bytes :=
  if mem (Mode n) ["counter_xor_base"; "directional_counter"; "stream_partitioned_counter"] then
    let out := ztake (zlen (Base n) - 8) (Base n) ++
               xorBytes (zdrop (zlen (Base n) - 8) (Base n)) (PutUint64 seq) in
    Ok (if bool_decide (Direction n = "server")
        then match out with b :: rest => bxor b (zb 128) :: rest | [] => [] end
        else out)
  else if bool_decide (Mode n = "counter_append_base") then
    Ok (ztake 12 (sha256 (sbytes (Direction n ++ "/") ++ Base n ++ PutUint64 seq)))
  else Err (ErrInvalidConfig ("unknown nonce mode " ++ Mode n)).

(** The counter moves before the nonce is derived. *)
Definition Next `{Primitives} (n : NonceManager) : NonceManager * result error (bytes * Z) :=
  if Counter n =? MaxUint64 then (n, Err ErrNonceOverflow)
  else
    let n' := mkManager (Direction n) (Base n) (wrap64 (Counter n + 1)) (Mode n) in
    (n', let? nonce := nonceForLocked n' (Counter n') in Ok (nonce, Counter n')).

Definition SetCounterForTest (n : NonceManager) (counter : Z) : NonceManager :=
  mkManager (Direction n) (Base n) counter (Mode n).

End Legacy.

(** ** The v1 owners *)

Definition DirectionClientToRelayV1 : Z := 1.
Definition DirectionRelayToClientV1 : Z := 2.

Definition NonceModeCounterXORBaseV1 : string := "counter_xor_base".
Definition NonceModeCounterAppendBaseV1 : string := "counter_append_base".
Definition NonceModeDirectionalCounterV1 : string := "directional_counter".
Definition NonceModeStreamPartitionedCounterV1 : string := "stream_partitioned_counter".

Definition nonceBytesV1 : Z := 12.

Definition nonceControlRecordV1 : Z := 1.
Definition nonceApplicationRecordV1 : Z := 2.

Record NonceAllocationV1 := mkAllocation {
  Nonce : bytes; Sequence : Z; al_Epoch : Z; al_Direction : Z; Slot : Z }.

Record nonceDirectionConfigV1 := mkConfig {
  base : bytes; mode : string; epoch : Z; direction : Z }.

Record nonceSequenceStateV1 := mkSeq { next : Z; exhausted : bool }.

(** The zero value a map read of an absent key and [make] both give. *)
Definition zeroSeq : nonceSequenceStateV1 := mkSeq 0 false.

(** [fixed] is [None] where Go has a nil slice. *)
Record nonceDirectionStateV1 := mkState {
  config : nonceDirectionConfigV1;
  sequences : gmap Z nonceSequenceStateV1;
  fixed : option (list nonceSequenceStateV1);
}.

Definition nonceDomainsV3 (mode : string) : Z :=
  if bool_decide (mode = NonceModeStreamPartitionedCounterV1) then 65536 else 1.

Definition validateDirectionV1 (direction : Z) : result error unit :=
  reject (negb (direction =? DirectionClientToRelayV1)
          && negb (direction =? DirectionRelayToClientV1)) ErrNonceMismatch.

Definition validateNonceModeV1 (mode : string) : result error unit :=
  reject (negb (mem mode [NonceModeCounterXORBaseV1; NonceModeCounterAppendBaseV1;
                          NonceModeDirectionalCounterV1; NonceModeStreamPartitionedCounterV1]))
    ErrPolicyInvalid.

Definition validateNonceSlotV1 (class slot : Z) : result error unit :=
  if class =? nonceControlRecordV1 then reject (negb (slot =? 0)) ErrNonceMismatch
  else if class =? nonceApplicationRecordV1 then reject (slot =? 0) ErrNonceMismatch
  else Err ErrNonceMismatch.

Definition newNonceDirectionConfigV1 (epoch direction : Z) (base : bytes) (mode : string)
    : result error nonceDirectionConfigV1 :=
  let? _ := validateDirectionV1 direction in
  fail? negb (zlen base =? nonceBytesV1) with ErrNonceMismatch in
  let? _ := validateNonceModeV1 mode in
  Ok (mkConfig base mode epoch direction).

Definition newNonceDirectionBackendV1 (epoch direction : Z) (base : bytes) (mode : string)
    (bounded : bool) : result error nonceDirectionStateV1 :=
  let? config := newNonceDirectionConfigV1 epoch direction base mode in
  Ok (mkState config ∅
        (if bounded then Some (replicate (Z.to_nat (nonceDomainsV3 mode)) zeroSeq) else None)).

(** [nonceDirectionConfigV1.validateV1]. *)
Definition validateV1 (c : nonceDirectionConfigV1) : result error unit :=
  let? _ := validateDirectionV1 (direction c) in
  validateNonceModeV1 (mode c).

Definition deriveNonceV1 (config : nonceDirectionConfigV1) (slot sequence : Z)
    : result error bytes :=
  let? _ := validateV1 config in
  let encoded := PutUint64 sequence in
  if bool_decide (mode config = NonceModeCounterXORBaseV1) then
    Ok (slice 0 4 (base config) ++ xorBytes (slice 4 12 (base config)) encoded)
  else if bool_decide (mode config = NonceModeCounterAppendBaseV1) then
    Ok (encoded ++ slice 0 4 (base config))
  else if bool_decide (mode config = NonceModeDirectionalCounterV1) then
    Ok (slice 0 4 (base config) ++ encoded)
  else if bool_decide (mode config = NonceModeStreamPartitionedCounterV1) then
    Ok (slice 0 2 (base config) ++ PutUint16 slot
        ++ xorBytes (slice 4 12 (base config)) encoded)
  else Err ErrPolicyInvalid.

Definition expectedV1 (c : nonceDirectionConfigV1) (class slot sequence : Z)
    : result error bytes :=
  let? _ := validateV1 c in
  let? _ := validateNonceSlotV1 class slot in
  deriveNonceV1 c slot sequence.

(** The domain whose counter a slot draws from. *)
Definition stateSlot (c : nonceDirectionConfigV1) (slot : Z) : Z :=
  if bool_decide (mode c = NonceModeStreamPartitionedCounterV1) then slot else 0.

Definition loadSeq (s : nonceDirectionStateV1) (k : Z) : option nonceSequenceStateV1 :=
  match fixed s with
  | Some arr => arr !! Z.to_nat k
  | None => Some (default zeroSeq (sequences s !! k))
  end.

Definition storeSeq (s : nonceDirectionStateV1) (k : Z) (v : nonceSequenceStateV1)
    : nonceDirectionStateV1 :=
  match fixed s with
  | Some arr => mkState (config s) (sequences s) (Some (<[Z.to_nat k := v]> arr))
  | None => mkState (config s) (<[k := v]> (sequences s)) None
  end.

Definition advance (state : nonceSequenceStateV1) : nonceSequenceStateV1 :=
  if next state =? MaxUint64 then mkSeq (next state) true
  else mkSeq (wrap64 (next state + 1)) (exhausted state).

(** The counter is committed before the nonce is derived. *)
Definition allocateV1 (s : nonceDirectionStateV1) (class slot : Z)
    : nonceDirectionStateV1 * option (result error NonceAllocationV1) :=
  match (let? _ := validateV1 (config s) in validateNonceSlotV1 class slot) with
  | Err e => (s, Some (Err e))
  | Ok _ =>
      let k := stateSlot (config s) slot in
      match loadSeq s k with
      | None => (s, None)
      | Some state =>
          if exhausted state then (s, Some (Err ErrNonceExhausted))
          else
            let sequence := next state in
            let s' := storeSeq s k (advance state) in
            (s', Some (let? nonce := deriveNonceV1 (config s) slot sequence in
                       Ok (mkAllocation nonce sequence (epoch (config s))
                             (direction (config s)) slot)))
      end
  end.

(** [ClientNonceOwnerV1] and [RelayNonceOwnerV1]: two role-fixed types with the
    same fields; the constructors fix the directions. *)
Record NonceOwnerV1 := mkOwner {
  outbound : option nonceDirectionStateV1; inbound : nonceDirectionConfigV1 }.

Record nonceOwnerMaterialV1 := mkMaterial {
  m_epoch : Z; clientToRelay : bytes; relayToClient : bytes }.

Definition nonceOwnerMaterialFromScheduleV1 (schedule : KeySchedule) (mode : string)
    : result error nonceOwnerMaterialV1 :=
  let? _ := validateNonceModeV1 mode in
  let? _ := map_err (fun _ => ErrNonceMismatch) (validateRatchetSourceV1 schedule) in
  Ok (mkMaterial (Epoch schedule) (ClientNonceBase schedule) (ServerNonceBase schedule)).

Definition newClientNonceOwnerV1 (schedule : KeySchedule) (mode : string) (bounded : bool)
    : result error NonceOwnerV1 :=
  let? material := nonceOwnerMaterialFromScheduleV1 schedule mode in
  let? outbound := map_err (fun _ => ErrNonceMismatch)
    (newNonceDirectionBackendV1 (m_epoch material) DirectionClientToRelayV1
       (clientToRelay material) mode bounded) in
  let? inbound := map_err (fun _ => ErrNonceMismatch)
    (newNonceDirectionConfigV1 (m_epoch material) DirectionRelayToClientV1
       (relayToClient material) mode) in
  Ok (mkOwner (Some outbound) inbound).

Definition newRelayNonceOwnerV1 (schedule : KeySchedule) (mode : string) (bounded : bool)
    : result error NonceOwnerV1 :=
  let? material := nonceOwnerMaterialFromScheduleV1 schedule mode in
  let? outbound := map_err (fun _ => ErrNonceMismatch)
    (newNonceDirectionBackendV1 (m_epoch material) DirectionRelayToClientV1
       (relayToClient material) mode bounded) in
  let? inbound := map_err (fun _ => ErrNonceMismatch)
    (newNonceDirectionConfigV1 (m_epoch material) DirectionClientToRelayV1
       (clientToRelay material) mode) in
  Ok (mkOwner (Some outbound) inbound).

(** The two allocation methods of an owner, by record class. *)
Definition allocateOutbound (class slot : Z) (o : NonceOwnerV1)
    : NonceOwnerV1 * option (result error NonceAllocationV1) :=
  match outbound o with
  | None => (o, Some (Err ErrNonceMismatch))
  | Some s => let '(s', r) := allocateV1 s class slot in (mkOwner (Some s') (inbound o), r)
  end.

Definition AllocateOutboundControlV1 (o : NonceOwnerV1)
    : NonceOwnerV1 * option (result error NonceAllocationV1) :=
  allocateOutbound nonceControlRecordV1 0 o.

Definition AllocateOutboundApplicationV1 (o : NonceOwnerV1) (slot : Z)
    : NonceOwnerV1 * option (result error NonceAllocationV1) :=
  allocateOutbound nonceApplicationRecordV1 slot o.

Definition ExpectedInboundControlV1 (o : NonceOwnerV1) (sequence : Z) : result error bytes :=
  expectedV1 (inbound o) nonceControlRecordV1 0 sequence.

Definition ExpectedInboundApplicationV1 (o : NonceOwnerV1) (slot sequence : Z)
    : result error bytes :=
  expectedV1 (inbound o) nonceApplicationRecordV1 slot sequence.

(** ** The contract *)

Module Spec.

(** One counter per domain; [2^64] means the domain is used up. *)
Definition counters : Type := Z -> Z.

Definition bump (f : counters) (k : Z) : counters :=
  fun j => if j =? k then f k + 1 else f j.

Definition allocate (c : nonceDirectionConfigV1) (f : counters) (class slot : Z)
    : counters * result error NonceAllocationV1 :=
  match (let? _ := validateV1 c in validateNonceSlotV1 class slot) with
  | Err e => (f, Err e)
  | Ok _ =>
      let k := stateSlot c slot in
      if f k =? 2 ^ 64 then (f, Err ErrNonceExhausted)
      else (bump f k, let? nonce := deriveNonceV1 c slot (f k) in
                      Ok (mkAllocation nonce (f k) (epoch c) (direction c) slot))
  end.

End Spec.

(** A request: the record class and the slot. *)
Definition request : Type := Z * Z.

Definition implStep (s : nonceDirectionStateV1) (r : request) := allocateV1 s (fst r) (snd r).
Definition specStep (c : nonceDirectionConfigV1) (f : Spec.counters) (r : request) :=
  Spec.allocate c f (fst r) (snd r).

(** ** Nonce derivation is injective *)

Lemma bxor_inj a b c : bxor a b = bxor a c -> b = c.
Proof.
  unfold bxor. intros H. apply (f_equal bz) in H. rewrite !bz_zb in H.
  assert (Hr : forall x, 0 <= Z.lxor (bz a) (bz x) < 256).
  { intros x. pose proof (bz_range a). pose proof (bz_range x). split.
    - apply Z.lxor_nonneg. lia.
    - destruct (Z.eq_dec (Z.lxor (bz a) (bz x)) 0) as [->|Hn]; [lia|].
      apply Z.log2_lt_cancel. change (Z.log2 256) with 8.
      eapply Z.le_lt_trans; [apply Z.log2_lxor; lia|].
      change 8 with (Z.succ 7). apply Z.lt_succ_r, Z.max_lub;
        change 7 with (Z.log2 255); apply Z.log2_le_mono; lia. }
  rewrite !Z.mod_small in H by apply Hr.
  apply bz_inj. apply (f_equal (Z.lxor (bz a))) in H.
  by rewrite <- !Z.lxor_assoc, Z.lxor_nilpotent, !Z.lxor_0_l in H.
Qed.

Lemma xorBytes_inj a b c : length b = length a -> length c = length a ->
  xorBytes a b = xorBytes a c -> b = c.
Proof.
  revert b c. induction a as [|x a IH]; intros [|y b] [|z c] Hb Hc H; try done.
  simpl in H. injection H as H1 H2. apply bxor_inj in H1 as ->. f_equal. by apply IH; simpl in *; try lia.
Qed.

(** A configuration as the constructors build them. *)
Definition goodConfig (c : nonceDirectionConfigV1) : Prop :=
  validateV1 c = Ok tt /\ zlen (base c) = 12.

Lemma PutUint64_inj x y : u64 x -> u64 y -> PutUint64 x = PutUint64 y -> x = y.
Proof. intros Hx Hy. by apply put_be_inj. Qed.

Lemma xor_counter_inj b x y : zlen b = 12 -> u64 x -> u64 y ->
  xorBytes (slice 4 12 b) (PutUint64 x) = xorBytes (slice 4 12 b) (PutUint64 y) -> x = y.
Proof.
  intros Hb Hx Hy H. apply PutUint64_inj; [done..|].
  apply xorBytes_inj in H; [done|..]; unfold PutUint64; rewrite length_put_be, length_slice; lia.
Qed.

(** Case analysis on the mode; the mode names are distinct strings. *)
Ltac mode_cases :=
  repeat case_bool_decide;
  unfold NonceModeCounterXORBaseV1, NonceModeCounterAppendBaseV1,
    NonceModeDirectionalCounterV1, NonceModeStreamPartitionedCounterV1 in *; try congruence.

Lemma deriveNonce_inj c slot slot' x y n : goodConfig c -> u16 slot -> u16 slot' ->
  u64 x -> u64 y -> deriveNonceV1 c slot x = Ok n -> deriveNonceV1 c slot' y = Ok n ->
  stateSlot c slot = stateSlot c slot' /\ x = y.
Proof.
  intros [Hv Hb] Hs Hs' Hx Hy H1 H2. unfold deriveNonceV1 in *. rewrite Hv in *. cbn [rbind] in *.
  unfold stateSlot. mode_cases;
    rewrite <- H2 in H1; clear H2; apply Ok_inj in H1.
  - apply app_inv_head in H1. split; [done|]. by eapply xor_counter_inj.
  - apply app_inv_tail in H1. split; [done|]. by apply PutUint64_inj.
  - apply app_inv_head in H1. split; [done|]. by apply PutUint64_inj.
  - apply app_inv_head in H1. apply app_inj_1 in H1 as [H1 H2]; [|unfold PutUint16; by rewrite !length_put_be].
    apply put_be_inj in H1; [|done..]. split; [done|]. by eapply xor_counter_inj.
Qed.

Lemma deriveNonce_total c slot x : goodConfig c -> exists n, deriveNonceV1 c slot x = Ok n.
Proof.
  intros [Hv Hb]. unfold deriveNonceV1. rewrite Hv. simpl.
  unfold validateV1 in Hv. apply rbind_ok in Hv as (_ & _ & Hv).
  apply reject_ok, negb_false_iff, mem_true in Hv.
  rewrite !elem_of_cons, elem_of_nil in Hv. mode_cases; eauto. exfalso. tauto.
Qed.

(** ** Both backends refine the contract *)

(** The count a stored counter stands for. *)
Definition countOf (q : nonceSequenceStateV1) : Z := if exhausted q then 2 ^ 64 else next q.

Record simulates (c : nonceDirectionConfigV1) (s : nonceDirectionStateV1) (f : Spec.counters)
    : Prop := {
  sim_config : config s = c;
  sim_fixed : forall arr, fixed s = Some arr -> zlen arr = nonceDomainsV3 (mode c);
  sim_count : forall k q, u16 k -> loadSeq s k = Some q -> u64 (next q) /\ countOf q = f k;
}.

Lemma u16_domain c slot : u16 slot -> u16 (stateSlot c slot) /\ stateSlot c slot < nonceDomainsV3 (mode c).
Proof. unfold stateSlot, nonceDomainsV3. unfold_widths. case_bool_decide; lia. Qed.

Lemma loadSeq_total c s f slot : simulates c s f -> u16 slot ->
  exists q, loadSeq s (stateSlot c slot) = Some q.
Proof.
  intros Hsim Hs. destruct (u16_domain c slot Hs) as [H1 H2]. unfold loadSeq.
  destruct (fixed s) as [arr|] eqn:Ef; [|eauto].
  apply lookup_lt_is_Some_2. pose proof (sim_fixed _ _ _ Hsim _ Ef) as Hl.
  unfold zlen in Hl. unfold_widths. lia.
Qed.

Lemma loadSeq_store s k v j q : u16 k -> u16 j -> loadSeq (storeSeq s k v) j = Some q ->
  (j = k /\ q = v) \/ (j <> k /\ loadSeq s j = Some q).
Proof.
  intros Hk Hj. unfold loadSeq, storeSeq. destruct (fixed s) as [arr|] eqn:Ef; simpl.
  - intros [(H1 & -> & _)|[H1 H2]]%list_lookup_insert_Some.
    + left. unfold_widths. split; [lia|done].
    + right. split; [by intros ->|done].
  - intros [= <-]. destruct (decide (j = k)) as [->|Hn].
    + left. by rewrite lookup_insert_eq.
    + right. by rewrite lookup_insert_ne by done.
Qed.

Lemma countOf_advance q : u64 (next q) -> exhausted q = false ->
  u64 (next (advance q)) /\ countOf (advance q) = next q + 1 /\ countOf q = next q.
Proof.
  intros Hu He. unfold advance, countOf. rewrite He.
  destruct (Z.eqb_spec (next q) MaxUint64) as [Heq|Hne]; simpl.
  - rewrite Heq. split; [|done]. unfold_widths. lia.
  - rewrite wrap64_small by (unfold_widths; lia). unfold_widths. lia.
Qed.

Lemma simulates_step c s f r : goodConfig c -> u16 (snd r) -> simulates c s f ->
  simulates c (fst (implStep s r)) (fst (specStep c f r)) /\
  snd (implStep s r) = Some (snd (specStep c f r)).
Proof.
  intros Hg Hs Hsim. destruct r as [class slot]. unfold implStep, specStep, allocateV1, Spec.allocate.
  cbn [fst snd] in *. rewrite (sim_config _ _ _ Hsim).
  destruct (let? _ := validateV1 c in validateNonceSlotV1 class slot); [|done].
  destruct (loadSeq_total c s f slot Hsim Hs) as [q Hq]. rewrite Hq.
  destruct (u16_domain c slot Hs) as [Hk Hlt].
  destruct (sim_count _ _ _ Hsim _ _ Hk Hq) as [Hu Hc]. rewrite <- Hc.
  destruct (exhausted q) eqn:Ex.
  { unfold countOf. rewrite Ex. by rewrite Z.eqb_refl. }
  destruct (countOf_advance q Hu Ex) as (Hu' & Ha & Hn).
  rewrite Hn. destruct (Z.eqb_spec (next q) (2 ^ 64)) as [Heq|_]; [unfold_widths; lia|].
  split; [|done]. cbn [fst]. constructor.
  - unfold storeSeq. destruct (fixed s); apply (sim_config _ _ _ Hsim).
  - intros arr. unfold storeSeq. destruct (fixed s) as [arr0|] eqn:Ef; [|done].
    intros [= <-]. unfold zlen. rewrite length_insert. by apply (sim_fixed _ _ _ Hsim).
  - intros j q' Hj Hl. apply loadSeq_store in Hl as [[-> ->]|[Hne Hl]]; [..|done|done].
    + unfold Spec.bump. rewrite Z.eqb_refl. split; [done|]. lia.
    + unfold Spec.bump. destruct (Z.eqb_spec j (stateSlot c slot)); [done|].
      by apply (sim_count _ _ _ Hsim).
Qed.

Lemma newDirection_simulates e d b m bounded s :
  newNonceDirectionBackendV1 e d b m bounded = Ok s ->
  goodConfig (config s) /\ simulates (config s) s (fun _ => 0).
Proof.
  unfold newNonceDirectionBackendV1, newNonceDirectionConfigV1. intros H. go_inv H. go_inv E.
  injection E as <-. injection H as <-. simpl.
  repeat match goal with x : unit |- _ => destruct x end.
  apply negb_false_iff, Z.eqb_eq in G. split.
  { split; [|done]. unfold validateV1. simpl. by rewrite E0. }
  constructor; simpl; [done|..].
  - intros arr. destruct bounded; [|done]. intros [= <-]. unfold zlen. rewrite length_replicate.
    unfold nonceDomainsV3. case_bool_decide; lia.
  - intros k q Hk. unfold loadSeq. simpl. destruct bounded.
    + intros [-> _]%lookup_replicate. unfold_widths. simpl. split; [lia|done].
    + rewrite lookup_empty. intros [= <-]. unfold_widths. simpl. split; [lia|done].
Qed.

Lemma implOutputs c s f rs : goodConfig c -> simulates c s f ->
  Forall (fun r => u16 (snd r)) rs ->
  outputs implStep s rs = Some <$> outputs (specStep c) f rs.
Proof.
  intros Hg. revert s f. induction rs as [|r rs IH]; intros s f Hsim Hu; [done|].
  apply Forall_cons_1 in Hu as [Hr Hu].
  destruct (simulates_step c s f r Hg Hr Hsim) as [Hsim' Ho].
  rewrite !outputs_cons, fmap_cons, Ho. f_equal. by apply IH.
Qed.

(** C16: Both storage backends of a direction implement the same contract, one
    unbounded counter per domain: on every sequence of requests they return
    exactly its results, and the preallocated array is never indexed out of
    range. *)
Theorem nonce_backends_refine_spec e d b m bounded s rs :
  newNonceDirectionBackendV1 e d b m bounded = Ok s ->
  Forall (fun r => u16 (snd r)) rs ->
  outputs implStep s rs = Some <$> outputs (specStep (mkConfig b m e d)) (fun _ => 0) rs.
Proof.
  intros Hn Hu. destruct (newDirection_simulates _ _ _ _ _ _ Hn) as [Hg Hsim].
  assert (config s = mkConfig b m e d) as <-.
  { unfold newNonceDirectionBackendV1, newNonceDirectionConfigV1 in Hn. go_inv Hn.
    go_inv E. injection E as <-. by injection Hn as <-. }
  by apply implOutputs.
Qed.

(** ** Uniqueness *)

(** The nonces a run handed out, in order. *)
Definition nonces (outs : list (result error NonceAllocationV1)) : list bytes :=
  omap (fun o => match o with Ok a => Some (Nonce a) | Err _ => None end) outs.

Definition within (f : Spec.counters) : Prop := forall k, 0 <= f k <= 2 ^ 64.

Lemma specStep_ok c f r a : snd (specStep c f r) = Ok a ->
  Sequence a = f (stateSlot c (snd r)) /\ Slot a = snd r /\
  deriveNonceV1 c (snd r) (Sequence a) = Ok (Nonce a) /\
  f (stateSlot c (snd r)) <> 2 ^ 64 /\
  fst (specStep c f r) = Spec.bump f (stateSlot c (snd r)).
Proof.
  destruct r as [class slot]. unfold specStep, Spec.allocate. cbn [fst snd].
  destruct (let? _ := validateV1 c in validateNonceSlotV1 class slot); [|done].
  destruct (Z.eqb_spec (f (stateSlot c slot)) (2 ^ 64)); [done|]. cbn [fst snd].
  intros H. go_inv H. injection H as <-. done.
Qed.

Lemma specStep_mono c f r : within f ->
  within (fst (specStep c f r)) /\ forall k, f k <= fst (specStep c f r) k.
Proof.
  intros Hw. destruct r as [class slot]. unfold specStep, Spec.allocate. cbn [fst snd].
  destruct (let? _ := validateV1 c in validateNonceSlotV1 class slot);
    [|split; [done|intros; cbn [fst]; lia]].
  destruct (Z.eqb_spec (f (stateSlot c slot)) (2 ^ 64)) as [|Hne]; cbn [fst];
    [split; [done|intros; lia]|].
  split; intros k; unfold Spec.bump; destruct (Z.eqb_spec k (stateSlot c slot)) as [->|];
    pose proof (Hw (stateSlot c slot)); try lia; apply Hw.
Qed.

(** Every nonce a run hands out comes from a counter value at or above the
    one the run started with. *)
Lemma run_nonces_above c f rs n : within f -> Forall (fun r => u16 (snd r)) rs ->
  n ∈ nonces (outputs (specStep c) f rs) ->
  exists slot x, u16 slot /\ f (stateSlot c slot) <= x < 2 ^ 64 /\ deriveNonceV1 c slot x = Ok n.
Proof.
  revert f. induction rs as [|r rs IH]; intros f Hw Hu; [by intros ?%elem_of_nil|].
  apply Forall_cons_1 in Hu as [Hr Hu]. rewrite outputs_cons. intros Hin.
  destruct (specStep_mono c f r Hw) as [Hw' Hm].
  assert (Htail : n ∈ nonces (outputs (specStep c) (fst (specStep c f r)) rs) ->
    exists slot x, u16 slot /\ f (stateSlot c slot) <= x < 2 ^ 64 /\ deriveNonceV1 c slot x = Ok n).
  { intros H. destruct (IH _ Hw' Hu H) as (slot & x & Hs & Hx & Hd). exists slot, x.
    specialize (Hm (stateSlot c slot)). repeat split; [apply Hs|apply Hs|lia|lia|done]. }
  unfold nonces in Hin. cbn [omap list_omap] in Hin.
  destruct (snd (specStep c f r)) as [a|] eqn:Ea; [|by apply Htail].
  apply elem_of_cons in Hin as [->|Hin]; [|by apply Htail].
  destruct (specStep_ok _ _ _ _ Ea) as (Hseq & Hsl & Hd & Hne & _).
  exists (snd r), (Sequence a). specialize (Hw (stateSlot c (snd r))).
  repeat split; [apply Hr|apply Hr|lia|lia|done].
Qed.

Lemma spec_nonces_NoDup c f rs : goodConfig c -> within f ->
  Forall (fun r => u16 (snd r)) rs -> NoDup (nonces (outputs (specStep c) f rs)).
Proof.
  intros Hg. revert f. induction rs as [|r rs IH]; intros f Hw Hu; [constructor|].
  apply Forall_cons_1 in Hu as [Hr Hu]. rewrite outputs_cons.
  destruct (specStep_mono c f r Hw) as [Hw' Hm].
  unfold nonces. cbn [omap list_omap].
  destruct (snd (specStep c f r)) as [a|] eqn:Ea; [|by apply IH].
  apply NoDup_cons_2; [|by apply IH]. intros Hin.
  apply run_nonces_above in Hin as (slot & x & Hs & Hx & Hd); [|done..].
  destruct (specStep_ok _ _ _ _ Ea) as (Hseq & Hsl & Hd' & Hne & Hf).
  rewrite Hf in Hx. pose proof (Hw (stateSlot c slot)). pose proof (Hw (stateSlot c (snd r))).
  assert (0 <= x).
  { unfold Spec.bump in Hx. destruct (Z.eqb_spec (stateSlot c slot) (stateSlot c (snd r))); lia. }
  destruct (deriveNonce_inj c slot (snd r) x (Sequence a) (Nonce a)) as [Hk ->]; try done;
    [unfold_widths; lia..|].
  unfold Spec.bump in Hx. rewrite Hk, Z.eqb_refl in Hx. lia.
Qed.

Definition implNonces (outs : list (option (result error NonceAllocationV1))) : list bytes :=
  omap (fun o => match o with Some (Ok a) => Some (Nonce a) | _ => None end) outs.

Lemma implNonces_Some outs : implNonces (Some <$> outs) = nonces outs.
Proof.
  unfold implNonces, nonces. induction outs as [|[a|e] outs IH]; [done| |];
    rewrite fmap_cons; cbn [omap list_omap]; [by f_equal|exact IH].
Qed.

(** C5: One direction of an owner never hands out the same nonce twice: over
    any sequence of control and application requests, for each of the four
    nonce modes and each backend, the nonces returned are pairwise distinct. *)
Theorem nonces_unique e d b m bounded s rs :
  newNonceDirectionBackendV1 e d b m bounded = Ok s ->
  Forall (fun r => u16 (snd r)) rs ->
  NoDup (implNonces (outputs implStep s rs)).
Proof.
  intros Hn Hu. destruct (newDirection_simulates _ _ _ _ _ _ Hn) as [Hg Hsim].
  rewrite (implOutputs _ _ _ _ Hg Hsim Hu), implNonces_Some.
  apply spec_nonces_NoDup; [done| |done]. intros k. lia.
Qed.

(** ** Exhaustion *)

Definition spent (s : nonceDirectionStateV1) (k : Z) : Prop :=
  exists q, loadSeq s k = Some q /\ exhausted q = true.

Lemma storeSeq_spent s j k v : u16 j -> u16 k -> spent s k -> j <> k -> spent (storeSeq s j v) k.
Proof.
  intros Hj Hk (q & Hq & He) Hne. exists q. split; [|done].
  revert Hq. unfold loadSeq, storeSeq. destruct (fixed s) as [arr|]; simpl.
  - intros Hq. rewrite list_lookup_insert_ne; [done|]. unfold_widths. lia.
  - by rewrite lookup_insert_ne.
Qed.

Lemma step_spent s k r : u16 k -> u16 (snd r) -> spent s k ->
  spent (fst (implStep s r)) k /\ config (fst (implStep s r)) = config s.
Proof.
  intros Hk Hr Hsp. destruct r as [class slot]. unfold implStep, allocateV1. cbn [fst snd] in *.
  destruct (let? _ := validateV1 (config s) in validateNonceSlotV1 class slot); [|done].
  destruct (loadSeq s (stateSlot (config s) slot)) as [q|] eqn:Eq; [|done].
  destruct (exhausted q) eqn:Ex; [done|]. cbn [fst]. split.
  - apply storeSeq_spent; [by apply u16_domain|done|done|]. intros <-.
    destruct Hsp as (q' & Hq' & Hx). congruence.
  - unfold storeSeq. by destruct (fixed s).
Qed.

(** An exhausted domain fails closed for ever. Handing out the last
    sequence number [2^64 - 1] marks the domain; after that every request on
    it, in any interleaving with other requests, returns
    [ErrNonceExhausted], which callers see as the nonce-overflow category,
    and no counter wraps to zero. *)
Theorem nonce_exhaustion_permanent s class slot a rs class' slot' :
  u16 slot -> u16 slot' -> Forall (fun r => u16 (snd r)) rs ->
  snd (allocateV1 s class slot) = Some (Ok a) -> Sequence a = MaxUint64 ->
  (forall arr, fixed s = Some arr -> zlen arr = nonceDomainsV3 (mode (config s))) ->
  stateSlot (config s) slot' = stateSlot (config s) slot ->
  validateNonceSlotV1 class' slot' = Ok tt ->
  let s' := fst (run implStep (fst (allocateV1 s class slot)) rs) in
  allocateV1 s' class' slot' = (s', Some (Err ErrNonceExhausted)) /\
  Is ErrNonceExhausted ClassNonceOverflow = true.
Proof.
  intros Hs Hs' Hu Ha Hmax Hfix Hdom Hval. cbv zeta. split; [|done].
  destruct (u16_domain (config s) slot Hs) as [Hk Hlt].
  assert (Hsp : spent (fst (allocateV1 s class slot)) (stateSlot (config s) slot) /\
                config (fst (allocateV1 s class slot)) = config s /\ validateV1 (config s) = Ok tt).
  { revert Ha. unfold allocateV1.
    destruct (validateV1 (config s)) as [[]|] eqn:Ev; [|done]. cbn [rbind].
    destruct (validateNonceSlotV1 class slot); [|done].
    destruct (loadSeq s (stateSlot (config s) slot)) as [q|] eqn:Eq; [|done].
    destruct (exhausted q) eqn:Ex; [done|]. cbn [fst snd]. intros [= Ha].
    go_inv Ha. injection Ha as <-. simpl in Hmax. split; [|split; [|done]].
    - exists (advance q). split; [|unfold advance; by rewrite Hmax].
      revert Eq. unfold loadSeq, storeSeq. destruct (fixed s) as [arr|]; simpl.
      + intros Hl. apply list_lookup_insert_eq. by apply lookup_lt_Some in Hl.
      + intros _. by rewrite lookup_insert_eq.
    - unfold storeSeq. by destruct (fixed s). }
  set (s1 := fst (allocateV1 s class slot)) in *. clearbody s1.
  assert (Hrun : spent (fst (run implStep s1 rs)) (stateSlot (config s) slot) /\
                 config (fst (run implStep s1 rs)) = config s).
  { apply (run_invariant (fun t => spent t (stateSlot (config s) slot) /\ config t = config s)
             (fun r => u16 (snd r))); [|tauto|done].
    intros t r [Ht Hc] Hr. destruct (step_spent t _ r Hk Hr Ht) as [H1 H2]. by rewrite H2. }
  destruct Hrun as [(q & Hq & Hx) Hc]. destruct Hsp as (_ & _ & Hv).
  unfold allocateV1. rewrite Hc, Hv. cbn [rbind]. rewrite Hval, Hdom, Hq. by rewrite Hx.
Qed.

(** ** The two ends agree *)

Lemma expected_allocated s class slot a :
  snd (allocateV1 s class slot) = Some (Ok a) ->
  expectedV1 (config s) class slot (Sequence a) = Ok (Nonce a) /\
  Slot a = slot /\ al_Epoch a = epoch (config s) /\ al_Direction a = direction (config s).
Proof.
  unfold allocateV1, expectedV1. destruct (validateV1 (config s)) as [[]|]; [|done]. cbn [rbind].
  destruct (validateNonceSlotV1 class slot) as [[]|]; [|done].
  destruct (loadSeq s (stateSlot (config s) slot)) as [q|]; [|done].
  destruct (exhausted q); [done|]. cbn [snd]. intros [= H]. go_inv H. by injection H as <-.
Qed.

Lemma owners_mirror schedule m bc br client relay :
  newClientNonceOwnerV1 schedule m bc = Ok client ->
  newRelayNonceOwnerV1 schedule m br = Ok relay ->
  (exists s, outbound client = Some s /\ config s = inbound relay) /\
  (exists s, outbound relay = Some s /\ config s = inbound client).
Proof.
  unfold newClientNonceOwnerV1, newRelayNonceOwnerV1, newNonceDirectionBackendV1.
  intros H1 H2. destruct (nonceOwnerMaterialFromScheduleV1 schedule m) as [mat|]; [|done].
  cbn [rbind] in *.
  destruct (newNonceDirectionConfigV1 (m_epoch mat) DirectionClientToRelayV1 (clientToRelay mat) m),
    (newNonceDirectionConfigV1 (m_epoch mat) DirectionRelayToClientV1 (relayToClient mat) m);
    simpl in H1, H2; try done.
  injection H1 as <-. injection H2 as <-. simpl. split; eexists; done.
Qed.

(** Owners built on the two ends from the same key schedule and mode agree
    on every nonce: whatever the state of the client's owner, a nonce it
    allocates for a record is the one the relay's owner expects for the same
    class, slot and sequence, and the other way round. *)
Theorem nonce_peers_agree schedule m bc br client relay class slot s a :
  newClientNonceOwnerV1 schedule m bc = Ok client ->
  newRelayNonceOwnerV1 schedule m br = Ok relay ->
  snd (allocateV1 s class slot) = Some (Ok a) ->
  (Some (config s) = config <$> outbound client ->
     expectedV1 (inbound relay) class slot (Sequence a) = Ok (Nonce a)) /\
  (Some (config s) = config <$> outbound relay ->
     expectedV1 (inbound client) class slot (Sequence a) = Ok (Nonce a)).
Proof.
  intros H1 H2 Ha. destruct (owners_mirror _ _ _ _ _ _ H1 H2) as [(c & Hc & Ec) (r & Hr & Er)].
  destruct (expected_allocated s class slot a Ha) as [He _]. rewrite Hc, Hr. simpl.
  split; intros [= Hs]; congruence.
Qed.

(** ** The legacy counter *)

Module LegacyFacts.
Import Legacy.

Definition step `{Primitives} (n : NonceManager) (_ : unit) := Next n.

Definition handedOut (outs : list (result error (bytes * Z))) : list bytes :=
  omap (fun o => match o with Ok (b, _) => Some b | Err _ => None end) outs.

Definition counterModes : list string :=
  ["counter_xor_base"; "directional_counter"; "stream_partitioned_counter"].

(** Equal up to the counter. *)
Definition sameKey (n c : NonceManager) : Prop :=
  Base c = Base n /\ Mode c = Mode n /\ Direction c = Direction n.

Section legacy.
Context `{Primitives}.

Lemma nonceFor_inj n x y v : zlen (Base n) = 12 -> Mode n ∈ counterModes -> u64 x -> u64 y ->
  nonceForLocked n x = Ok v -> nonceForLocked n y = Ok v -> x = y.
Proof using Type.
  intros Hb Hm Hx Hy H1 H2. rewrite <- H1 in H2. clear H1. unfold nonceForLocked in H2.
  apply mem_true in Hm. unfold counterModes in Hm. rewrite Hm in H2. apply Ok_inj in H2.
  rewrite Hb in H2. change (12 - 8) with 4 in H2.
  assert (Hl : forall z, length (PutUint64 z) = length (zdrop 4 (Base n))).
  { intros z. unfold PutUint64, zdrop, zlen in *. rewrite length_put_be, length_drop. lia. }
  assert (E : xorBytes (zdrop 4 (Base n)) (PutUint64 x) = xorBytes (zdrop 4 (Base n)) (PutUint64 y)).
  { destruct (Base n) as [|b rest]; [done|].
    change (ztake 4 (b :: rest)) with (b :: take 3 rest) in H2. cbn [app] in H2.
    case_bool_decide; injection H2 as H2; by apply app_inv_head in H2. }
  apply xorBytes_inj in E; [|done..]. by apply PutUint64_inj.
Qed.

Lemma Next_ok n b k : u64 (Counter n) -> snd (Next n) = Ok (b, k) ->
  k = Counter n + 1 /\ u64 k /\ nonceForLocked n k = Ok b /\
  sameKey n (fst (Next n)) /\ Counter (fst (Next n)) = k.
Proof using Type.
  intros Hu. unfold Next. destruct (Z.eqb_spec (Counter n) MaxUint64); [done|].
  cbn [fst snd]. intros Hn. go_inv Hn. injection Hn as <- <-. simpl in *.
  rewrite wrap64_small in * by (unfold_widths; lia).
  split; [done|]. split; [unfold_widths; lia|]. done.
Qed.

Lemma Next_mono n : u64 (Counter n) ->
  sameKey n (fst (Next n)) /\ u64 (Counter (fst (Next n))) /\ Counter n <= Counter (fst (Next n)).
Proof using Type.
  intros Hu. unfold Next. destruct (Z.eqb_spec (Counter n) MaxUint64); cbn [fst].
  - split; [done|]. split; [done|lia].
  - simpl. rewrite wrap64_small by (unfold_widths; lia). split; [done|]. unfold_widths. lia.
Qed.

Lemma nonceFor_sameKey n c x : sameKey n c -> nonceForLocked c x = nonceForLocked n x.
Proof using Type. intros (H1 & H2 & H3). unfold nonceForLocked. by rewrite H1, H2, H3. Qed.

Lemma handedOut_above n k v : u64 (Counter n) -> v ∈ handedOut (outputs step n (replicate k tt)) ->
  exists x, Counter n < x /\ u64 x /\ nonceForLocked n x = Ok v.
Proof using Type.
  revert n. induction k as [|k IH]; intros n Hu; [by intros ?%elem_of_nil|].
  cbn [replicate]. rewrite outputs_cons. unfold handedOut, step at 1 2. cbn [omap list_omap].
  destruct (Next_mono n Hu) as (Hk & Hu' & Hle).
  assert (Htail : v ∈ handedOut (outputs step (fst (Next n)) (replicate k tt)) ->
    exists x, Counter n < x /\ u64 x /\ nonceForLocked n x = Ok v).
  { intros Hin. destruct (IH _ Hu' Hin) as (x & Hx & Hux & Hv). exists x.
    rewrite (nonceFor_sameKey n) in Hv by done. split; [lia|done]. }
  destruct (snd (Next n)) as [[b c]|] eqn:E; [|exact Htail].
  intros [->|Hin]%elem_of_cons; [|by apply Htail].
  destruct (Next_ok n b c Hu E) as (Hc & Huc & Hn & _). exists c. split; [lia|done].
Qed.

(** The legacy manager fails at the maximal counter instead of wrapping,
    and in its three counter modes no two successful calls return the same
    nonce. *)
Theorem legacy_nonces_unique n k :
  u64 (Counter n) -> zlen (Base n) = 12 -> Mode n ∈ counterModes ->
  NoDup (handedOut (outputs step n (replicate k tt))) /\
  (Counter n = MaxUint64 -> Next n = (n, Err ErrNonceOverflow)).
Proof using Type.
  intros Hu Hb Hm. split; [|intros E; unfold Next; by rewrite E].
  revert n Hu Hb Hm. induction k as [|k IH]; intros n Hu Hb Hm; [constructor|].
  cbn [replicate]. rewrite outputs_cons. unfold handedOut, step at 1 2. cbn [omap list_omap].
  destruct (Next_mono n Hu) as ((E1 & E2 & E3) & Hu' & _).
  assert (Hrest : NoDup (handedOut (outputs step (fst (Next n)) (replicate k tt)))).
  { apply IH; [done| |]; by rewrite ?E1, ?E2. }
  destruct (snd (Next n)) as [[b c]|] eqn:E; [|exact Hrest].
  apply NoDup_cons_2; [|exact Hrest]. intros Hin.
  destruct (Next_ok n b c Hu E) as (_ & Huc & Hn & Hk & Hcc).
  destruct (handedOut_above _ _ _ Hu' Hin) as (x & Hx & Hux & Hv).
  rewrite (nonceFor_sameKey n) in Hv by done.
  assert (x = c) by (by eapply nonceFor_inj). lia.
Qed.

End legacy.
End LegacyFacts.

(** ** Witnesses *)

Ltac solve_slots := repeat (constructor; [cbn [snd]; unfold_widths; lia|]); constructor.

Definition toyBase : bytes := zb <$> [1;2;3;4;5;6;7;8;9;10;11;12].

Definition toyState : nonceDirectionStateV1 :=
  match newNonceDirectionBackendV1 7 DirectionClientToRelayV1 toyBase
          NonceModeStreamPartitionedCounterV1 false with
  | Ok s => s
  | Err _ => mkState (mkConfig [] "" 0 0) ∅ None
  end.

Definition toyRequests : list request := [(1, 0); (2, 5); (2, 6); (2, 5); (2, 0); (1, 0)].

Lemma nonce_backends_refine_spec_witness :
  outputs implStep toyState toyRequests =
  Some <$> outputs (specStep (config toyState)) (fun _ => 0) toyRequests.
Proof.
  apply (nonce_backends_refine_spec 7 DirectionClientToRelayV1 toyBase
    NonceModeStreamPartitionedCounterV1 false); [reflexivity|solve_slots].
Defined.

Lemma nonces_unique_witness :
  length (implNonces (outputs implStep toyState toyRequests)) = 5%nat /\
  NoDup (implNonces (outputs implStep toyState toyRequests)).
Proof.
  split; [vm_compute; reflexivity|].
  apply (nonces_unique 7 DirectionClientToRelayV1 toyBase
    NonceModeStreamPartitionedCounterV1 false); [reflexivity|solve_slots].
Defined.

(** A direction one step before exhaustion. *)
Definition lastState : nonceDirectionStateV1 :=
  mkState (mkConfig toyBase NonceModeDirectionalCounterV1 0 1) ∅ (Some [mkSeq MaxUint64 false]).

Lemma nonce_exhaustion_permanent_witness :
  snd (allocateV1 (fst (run implStep (fst (allocateV1 lastState 1 0)) [(2, 9)])) 2 4)
  = Some (Err ErrNonceExhausted).
Proof.
  destruct (nonce_exhaustion_permanent lastState 1 0
    (mkAllocation (slice 0 4 toyBase ++ PutUint64 MaxUint64) MaxUint64 0 1 0) [(2, 9)] 2 4)
    as [H _]; [unfold_widths; lia|unfold_widths; lia|solve_slots|reflexivity|reflexivity
    |intros arr [= <-]; reflexivity|reflexivity|reflexivity|].
  rewrite H. reflexivity.
Defined.

Definition toyOwner (r : result error NonceOwnerV1) : NonceOwnerV1 :=
  match r with Ok o => o | Err _ => mkOwner None (config toyState) end.

Definition toyClient : NonceOwnerV1 :=
  Eval vm_compute in toyOwner (newClientNonceOwnerV1 toySchedule NonceModeCounterXORBaseV1 true).
Definition toyRelay : NonceOwnerV1 :=
  Eval vm_compute in toyOwner (newRelayNonceOwnerV1 toySchedule NonceModeCounterXORBaseV1 false).

Definition toyOutbound : nonceDirectionStateV1 :=
  Eval vm_compute in default toyState (outbound toyClient).
Definition toyAllocation : NonceAllocationV1 :=
  Eval vm_compute in match snd (allocateV1 toyOutbound 1 0) with
                     | Some (Ok a) => a | _ => mkAllocation [] 0 0 0 0 end.

Lemma nonce_peers_agree_witness :
  ExpectedInboundControlV1 toyRelay (Sequence toyAllocation) = Ok (Nonce toyAllocation).
Proof.
  apply (nonce_peers_agree toySchedule NonceModeCounterXORBaseV1 true false toyClient toyRelay
    nonceControlRecordV1 0 toyOutbound toyAllocation); vm_compute; reflexivity.
Defined.

Lemma legacy_nonces_unique_witness :
  let n := Legacy.mkManager "server" toyBase (MaxUint64 - 2) "directional_counter" in
  length (LegacyFacts.handedOut (outputs (@LegacyFacts.step toyPrimitives) n (replicate 4 tt))) = 2%nat /\
  NoDup (LegacyFacts.handedOut (outputs (@LegacyFacts.step toyPrimitives) n (replicate 4 tt))).
Proof.
  intros n. split; [vm_compute; reflexivity|].
  apply (@LegacyFacts.legacy_nonces_unique toyPrimitives n 4);
    [unfold n; simpl; unfold_widths; lia|reflexivity|unfold n; simpl; set_solver].
Defined.
