(* ===== verification/Ir.v ===== *)
(** * The profile IR

    [src/internal/protocol/ir/profile.go]: a compiled protocol profile. One
    record per struct, fields in source order with a short prefix per struct,
    since Rocq field names are global. [int], [int64] and [uint32] fields are
    [Z]; [float64] is the standard library's IEEE [spec_float]; a JSON object
    used as a map is a [gmap]. Reading and writing files is left out. *)

From S2P Require Import Prelude GoBytes.
From Stdlib Require Import ZArith Floats.SpecFloat.
From stdpp Require Import base list gmap strings.
Local Open Scope Z_scope.

Definition LegacySchemaVersionV1 : string := "0.1.0-lab".
Definition NextSchemaVersionV1 : string := "0.2.0-lab".
Definition LegacySecurityVersionV1 : string := "0.12.0-lab".
Definition NextSecurityVersionV1 : string := "0.13.0-lab".
Definition SupportedVersion : string := NextSchemaVersionV1.
Definition SupportedSecurityVersion : string := NextSecurityVersionV1.
Definition RoleClient : string := "client".
Definition RoleServer : string := "server".
Definition RoleShared : string := "shared".
Definition SemanticOpenStream : string := "open_stream".
Definition SemanticData : string := "data".
Definition SemanticClose : string := "close_stream".
Definition SemanticAck : string := "ack".
Definition SemanticResetStream : string := "reset_stream".
Definition SemanticWindowUpdate : string := "window_update".
Definition SemanticSessionClose : string := "session_close".
Definition SemanticPadding : string := "padding".
Definition SemanticError : string := "error".
Definition SemanticOpenRelay : string := "open_relay".
Definition SemanticTargetDescriptor : string := "target_descriptor".
Definition SemanticTargetData : string := "target_data".
Definition SemanticTargetResponse : string := "target_response".
Definition SemanticTargetError : string := "target_error".
Definition SemanticTargetClose : string := "target_close".
Definition SemanticTargetReset : string := "target_reset".
Definition SemanticTargetMetadata : string := "target_metadata".

Record RolePolicy := mkRolePolicy {
  rp_ClientRole : string;
  rp_ServerRole : string;
}.

Record CarrierSpec := mkCarrierSpec {
  cs_Type : string;
}.

Record State := mkState {
  st_ID : string;
  st_Role : string;
  st_Terminal : bool;
}.

Record Transition := mkTransition {
  tr_From : string;
  tr_To : string;
  tr_Role : string;
  tr_OnMessage : string;
  tr_EmitsMessage : string;
  tr_RequiresAuth : bool;
  tr_Description : string;
}.

Record FirstContactStep := mkFirstContactStep {
  fs_Role : string;
  fs_Direction : string;
  fs_Message : string;
  fs_WireSymbol : string;
  fs_FromState : string;
  fs_ToState : string;
  fs_PayloadSize : Z;
  fs_Proof : bool;
  fs_Decoy : bool;
}.

Record FirstContactSpec := mkFirstContactSpec {
  fc_PatternID : string;
  fc_StartState : string;
  fc_RelayReadyState : string;
  fc_Steps : list FirstContactStep;
}.

Record MessageSymbol := mkMessageSymbol {
  ms_Semantic : string;
  ms_WireSymbol : string;
  ms_Direction : string;
  ms_MinPayloadSize : Z;
  ms_MaxPayloadSize : Z;
}.

Record FrameGrammar := mkFrameGrammar {
  fg_LengthMode : string;
  fg_TypeMode : string;
  fg_HeaderOrder : list string;
  fg_FragmentationMode : string;
  fg_ChecksumMode : string;
  fg_PaddingPlacement : string;
}.

Record AuthSpec := mkAuthSpec {
  au_Mode : string;
  au_KeyID : string;
  au_TestKeyHex : string;
  au_NonceBytes : Z;
  au_ProofMessage : string;
}.

Record SchedulerPolicy := mkSchedulerPolicy {
  sc_Mode : string;
  sc_MaxBatchBytes : Z;
  sc_FlushIntervalMs : Z;
  sc_MaxInFlightFrames : Z;
  sc_PriorityMode : string;
}.

Record StreamPolicy := mkStreamPolicy {
  sp_IDStrategy : string;
  sp_IDEncodingMode : string;
  sp_MaxConcurrentStreams : Z;
  sp_InitialStreamWindowBytes : Z;
  sp_InitialSessionWindowBytes : Z;
  sp_WindowUpdatePolicy : string;
  sp_PriorityPolicy : string;
  sp_ClosePolicy : string;
  sp_ResetPolicy : string;
  sp_MaxStreamID : Z;
}.

Record ProxySemanticsPolicy := mkProxySemanticsPolicy {
  ps_RelayIntentEncoding : string;
  ps_TargetDescriptorEncoding : string;
  ps_RequestClassEncoding : string;
  ps_ResponseModeEncoding : string;
  ps_TargetErrorPolicy : string;
  ps_TargetClosePolicy : string;
  ps_TargetResetPolicy : string;
  ps_TargetMetadataPolicy : string;
  ps_RelayOpenOrderingPolicy : string;
  ps_RelayIntentPaddingPolicy : string;
  ps_TargetClassMapping : string;
  ps_TargetClasses : list string;
  ps_MaxRequestBytes : Z;
  ps_MaxResponseBytes : Z;
}.

Record CarrierPolicy := mkCarrierPolicy {
  cp_CarrierFamily : string;
  cp_EnvelopeEncoding : string;
  cp_FlushPolicy : string;
  cp_BatchPolicy : string;
  cp_ChunkingPolicy : string;
  cp_ReliabilityPolicy : string;
  cp_ReorderPolicy : string;
  cp_BackpressurePolicy : string;
  cp_PriorityMappingPolicy : string;
  cp_EnvelopePaddingPolicy : string;
  cp_TimingBucketPolicy : string;
  cp_MaxEnvelopeBytes : Z;
  cp_MaxMessagesPerEnvelope : Z;
  cp_MaxCarrierQueueDepth : Z;
  cp_MaxRetryCount : Z;
}.

Record WirePhasePlan := mkWirePhasePlan {
  wp_PhaseSequence : list string;
  wp_HandshakeRTTBucket : string;
  wp_DirectionPattern : string;
  wp_ControlPhaseEnabled : bool;
}.

Record WireFieldLayoutPlan := mkWireFieldLayoutPlan {
  wl_LayoutClass : string;
  wl_FieldOrder : list string;
  wl_VisibilityByField : gmap string string;
  wl_SizeBucketByField : gmap string string;
  wl_PayloadPosition : string;
}.

Record WireFirstFlightPlan := mkWireFirstFlightPlan {
  wff_PacketCountBucket : string;
  wff_DirectionPattern : string;
  wff_SizeBuckets : list string;
  wff_ControlIncluded : bool;
}.

Record WireFirstNPlan := mkWireFirstNPlan {
  wn_N : Z;
  wn_ShapeClass : string;
  wn_DirectionClass : string;
  wn_SizeClass : string;
}.

Record WireFrameSizePlan := mkWireFrameSizePlan {
  wfs_Strategy : string;
  wfs_SizeBuckets : list string;
  wfs_PaddingBudget : string;
  wfs_PayloadSplit : string;
}.

Record WireFragmentRhythmPlan := mkWireFragmentRhythmPlan {
  wr_Strategy : string;
  wr_FragmentBuckets : list string;
  wr_ReorderPermitted : bool;
  wr_ReassemblyPattern : string;
}.

Record WireControlPlan := mkWireControlPlan {
  wc_Richness : string;
  wc_PreDataControls : Z;
  wc_InterleaveClass : string;
  wc_CloseClass : string;
  wc_ResetClass : string;
}.

Record WireMetadataExposurePlan := mkWireMetadataExposurePlan {
  wm_ExposureClass : string;
  wm_CleartextFields : list string;
  wm_EncryptedFields : list string;
  wm_DerivedOnlyFields : list string;
}.

Record WireLengthAlonePlan := mkWireLengthAlonePlan {
  wla_Enabled : bool;
  wla_TriggerClass : string;
}.

Record WireShapePolicy := mkWireShapePolicy {
  ws_Version : string;
  ws_CorpusVersion : string;
  ws_PolicyID : string;
  ws_ProfileSeed : Z;
  ws_SelectedFamily : string;
  ws_SelectedCorpusEntry : string;
  ws_PhasePlan : WirePhasePlan;
  ws_FieldLayoutPlan : WireFieldLayoutPlan;
  ws_FirstFlightPlan : WireFirstFlightPlan;
  ws_FirstNPlan : WireFirstNPlan;
  ws_FrameSizePlan : WireFrameSizePlan;
  ws_FragmentRhythmPlan : WireFragmentRhythmPlan;
  ws_ControlPlan : WireControlPlan;
  ws_MetadataExposurePlan : WireMetadataExposurePlan;
  ws_LengthAlonePlan : WireLengthAlonePlan;
  ws_PolicyHash : string;
}.

Record AdapterPolicy := mkAdapterPolicy {
  ap_RequiredCapabilities : list string;
  ap_FlowLifecyclePolicy : string;
  ap_RuntimeMappingPolicy : string;
  ap_TracePolicy : string;
  ap_ErrorMappingPolicy : string;
  ap_BackpressurePolicy : string;
  ap_MaxFlows : Z;
  ap_MaxFlowBytes : Z;
  ap_MaxBufferedBytes : Z;
  ap_MaxEvents : Z;
}.

Record SecurityPolicy := mkSecurityPolicy {
  sec_SecurityVersion : string;
  sec_TranscriptMode : string;
  sec_KDFSuite : string;
  sec_AEADSuite : string;
  sec_MACSuite : string;
  sec_NonceMode : string;
  sec_ReplayPolicy : string;
  sec_ReplayWindowSize : Z;
  sec_DowngradePolicy : string;
  sec_CapabilityNegotiationPolicy : string;
  sec_ProfileCompatibilityPolicy : string;
  sec_KeyRotationPolicy : string;
  sec_ConfigValidationPolicy : string;
  sec_SecureEnvelopeMode : string;
  sec_MaxSessionMessages : Z;
  sec_MaxKeyLifetimeMessages : Z;
}.

Record CompatibilityMetadata := mkCompatibilityMetadata {
  cm_SchemaVersion : string;
  cm_CompilerSecurityVersion : string;
  cm_MinimumRuntimeVersion : string;
  cm_SupportedSecuritySuites : list string;
  cm_RequiredCapabilities : list string;
  cm_SupportedCarrierFamilies : list string;
  cm_SupportedProxyFeatures : list string;
  cm_SupportedStreamFeatures : list string;
  cm_MaxEnvelopeBytes : Z;
  cm_MaxStreamCount : Z;
  cm_MaxReplayWindow : Z;
}.

Record PaddingPolicy := mkPaddingPolicy {
  pp_Mode : string;
  pp_MinPaddingBytes : Z;
  pp_MaxPaddingBytes : Z;
  pp_Probability : spec_float;
}.

Record InvalidInputPolicy := mkInvalidInputPolicy {
  ii_UnknownFirstMessage : string;
  ii_MalformedFrame : string;
  ii_FailedAuth : string;
  ii_Replay : string;
  ii_DelayMsMin : Z;
  ii_DelayMsMax : Z;
}.

Record SafetyLimits := mkSafetyLimits {
  lim_MaxFrameBytes : Z;
  lim_MaxPayloadBytes : Z;
  lim_MaxStates : Z;
  lim_MaxTransitions : Z;
  lim_MaxSessionMillis : Z;
}.

Record Profile := mkProfile {
  pf_Version : string;
  pf_ID : string;
  pf_Seed : Z;
  pf_GenerationHash : string;
  pf_RolePolicy : RolePolicy;
  pf_Carrier : CarrierSpec;
  pf_States : list State;
  pf_Transitions : list Transition;
  pf_FirstContact : FirstContactSpec;
  pf_Messages : list MessageSymbol;
  pf_FrameGrammar : FrameGrammar;
  pf_Auth : AuthSpec;
  pf_Scheduler : SchedulerPolicy;
  pf_Stream : StreamPolicy;
  pf_ProxySemantics : ProxySemanticsPolicy;
  pf_CarrierPolicy : CarrierPolicy;
  pf_WireShape : WireShapePolicy;
  pf_AdapterPolicy : AdapterPolicy;
  pf_Security : SecurityPolicy;
  pf_Compatibility : CompatibilityMetadata;
  pf_Padding : PaddingPolicy;
  pf_InvalidInput : InvalidInputPolicy;
  pf_Limits : SafetyLimits;
}.

Record EffectiveSecurityPolicy := mkEffectiveSecurityPolicy {
  eff_ProfileID : string;
  eff_ProfileHash : string;
  eff_SchemaVersion : string;
  eff_CompilerSecurityVersion : string;
  eff_MinimumRuntimeVersion : string;
  eff_SecurityVersion : string;
  eff_TranscriptMode : string;
  eff_KDFSuite : string;
  eff_AEADSuite : string;
  eff_MACSuite : string;
  eff_NonceMode : string;
  eff_ReplayPolicy : string;
  eff_ReplayWindowSize : Z;
  eff_DowngradePolicy : string;
  eff_CapabilityNegotiationPolicy : string;
  eff_ProfileCompatibilityPolicy : string;
  eff_KeyRotationPolicy : string;
  eff_ConfigValidationPolicy : string;
  eff_SecureEnvelopeMode : string;
  eff_MaxSessionMessages : Z;
  eff_MaxKeyLifetimeMessages : Z;
  eff_ClientMandatoryCapabilities : list string;
  eff_ServerMandatoryCapabilities : list string;
  eff_SelectedCapabilities : list string;
  eff_validationHash : bytes;
}.


Definition RelaySemantics : list string := [
  SemanticOpenStream; SemanticData; SemanticClose; SemanticResetStream;
  SemanticWindowUpdate; SemanticSessionClose; SemanticAck; SemanticPadding; SemanticError;
  SemanticOpenRelay; SemanticTargetDescriptor; SemanticTargetData; SemanticTargetResponse;
  SemanticTargetError; SemanticTargetClose; SemanticTargetReset; SemanticTargetMetadata ].

Definition ProxySemantics : list string := [
  SemanticOpenRelay; SemanticTargetDescriptor; SemanticTargetData; SemanticTargetResponse;
  SemanticTargetError; SemanticTargetClose; SemanticTargetReset; SemanticTargetMetadata ].

Definition SyntheticTargetClasses : list string := [
  "echo"; "discard"; "fixed_response"; "slow_response"; "chunked_response"; "large_object";
  "error_response"; "reset_midstream"; "drip_response"; "jittery_response" ].

Definition CarrierFamilies : list string := [
  "stream_carrier"; "message_carrier"; "datagram_like_carrier"; "chunked_carrier";
  "batch_carrier"; "interactive_carrier"; "long_poll_style_carrier";
  "lossy_reordered_carrier" ].

Definition SecurityCapabilities : list string := [
  "multi_stream"; "proxy_semantics"; "carrier_abstraction"; "adapter_interface";
  "carrier_loss_recovery"; "carrier_backpressure"; "generated_backend";
  "transcript_binding"; "replay_window"; "nonce_schedule" ].

Definition AdapterCapabilities : list string := [
  "adapter_ingress"; "adapter_egress"; "flow_lifecycle"; "flow_reset"; "flow_half_close";
  "flow_backpressure"; "flow_priority"; "flow_metadata_only"; "runtime_stream_mapping";
  "trace_safe_adapter_summary" ].

Definition SecuritySuiteString : string :=
  "kdf_hkdf_sha256/aead_aes_256_gcm/mac_hmac_sha256/transcript_sha256_v1".

(** The first message of the profile with the given semantic or wire symbol. *)
Definition MessageBySemantic (p : Profile) (semantic : string) : option MessageSymbol :=
  snd <$> list_find (fun msg => ms_Semantic msg = semantic) (pf_Messages p).

Definition MessageByWireSymbol (p : Profile) (wire : string) : option MessageSymbol :=
  snd <$> list_find (fun msg => ms_WireSymbol msg = wire) (pf_Messages p).

(** JSON encoding and SHA-256 come from Go's library. The encoder may refuse a
    value (a NaN probability); nothing else is assumed of it. *)
Class Encoding := {
  marshalProfile : Profile -> result string bytes;
  marshalWireShape : WireShapePolicy -> result string bytes;
  marshalEffective : EffectiveSecurityPolicy -> result string bytes;
  sum256 : bytes -> bytes;
}.

Definition hexDigit (n : Z) : Byte.byte := zb (if n <? 10 then 48 + n else 87 + n).

Definition EncodeToString (b : bytes) : string :=
  bstring (concat ((fun x => [hexDigit (bz x / 16); hexDigit (bz x mod 16)]) <$> b)).

(** [cp := *p; cp.GenerationHash = ""]. *)
Definition withoutGenerationHash (p : Profile) : Profile :=
  mkProfile (pf_Version p) (pf_ID p) (pf_Seed p) "" (pf_RolePolicy p) (pf_Carrier p)
    (pf_States p) (pf_Transitions p) (pf_FirstContact p) (pf_Messages p) (pf_FrameGrammar p)
    (pf_Auth p) (pf_Scheduler p) (pf_Stream p) (pf_ProxySemantics p) (pf_CarrierPolicy p)
    (pf_WireShape p) (pf_AdapterPolicy p) (pf_Security p) (pf_Compatibility p) (pf_Padding p)
    (pf_InvalidInput p) (pf_Limits p).

Definition CanonicalHash `{Encoding} (p : Profile) : result string string :=
  let? raw := marshalProfile (withoutGenerationHash p) in
  Ok (EncodeToString (sum256 raw)).

Definition withoutPolicyHash (p : WireShapePolicy) : WireShapePolicy :=
  mkWireShapePolicy (ws_Version p) (ws_CorpusVersion p) (ws_PolicyID p) (ws_ProfileSeed p)
    (ws_SelectedFamily p) (ws_SelectedCorpusEntry p) (ws_PhasePlan p) (ws_FieldLayoutPlan p)
    (ws_FirstFlightPlan p) (ws_FirstNPlan p) (ws_FrameSizePlan p) (ws_FragmentRhythmPlan p)
    (ws_ControlPlan p) (ws_MetadataExposurePlan p) (ws_LengthAlonePlan p) "".

Definition wireShapePolicyHash `{Encoding} (p : WireShapePolicy) : result string string :=
  let? raw := marshalWireShape (withoutPolicyHash p) in
  Ok (EncodeToString (sum256 raw)).
