(* ===== verification/GoJson.v ===== *)
(** * JSON strings

    What the sources use of Go's [encoding/json]: [json.Marshal] of strings,
    lists of strings, [uint64] numbers and structs of them, in the compact form,
    with HTML escaping on. Text that is not valid UTF-8 is replaced, so the
    encoding is not injective in general; on ASCII text it is, also inside a
    larger encoding ([jsonString_inj]). *)

From S2P Require Import Prelude GoBytes Ir.
From Stdlib Require Import ZArith Lia Strings.Byte.
From stdpp Require Import base list strings pretty.
Local Open Scope Z_scope.

Definition inRange (lo hi : Z) (b : Byte.byte) : bool := (lo <=? bz b) && (bz b <=? hi).

(** The size of the valid multi-byte UTF-8 sequence at the front, [0] when
    there is none: [utf8.DecodeRune] would return [RuneError] and size one. *)
Definition runeSize4 (l : bytes) : nat :=
  match l with
  | b0 :: b1 :: b2 :: b3 :: _ =>
      if inRange 240 240 b0 && inRange 144 191 b1 && inRange 128 191 b2 && inRange 128 191 b3 then 4%nat
      else if inRange 241 243 b0 && inRange 128 191 b1 && inRange 128 191 b2 && inRange 128 191 b3 then 4%nat
      else if inRange 244 244 b0 && inRange 128 143 b1 && inRange 128 191 b2 && inRange 128 191 b3 then 4%nat
      else 0%nat
  | _ => 0%nat
  end.

Definition runeSize3 (l : bytes) : nat :=
  match l with
  | b0 :: b1 :: b2 :: _ =>
      if inRange 224 224 b0 && inRange 160 191 b1 && inRange 128 191 b2 then 3%nat
      else if (inRange 225 236 b0 || inRange 238 239 b0) && inRange 128 191 b1 && inRange 128 191 b2 then 3%nat
      else if inRange 237 237 b0 && inRange 128 159 b1 && inRange 128 191 b2 then 3%nat
      else 0%nat
  | _ => 0%nat
  end.

Definition runeSize2 (l : bytes) : nat :=
  match l with
  | b0 :: b1 :: _ => if inRange 194 223 b0 && inRange 128 191 b1 then 2%nat else 0%nat
  | _ => 0%nat
  end.

Definition decodedSize (l : bytes) : nat :=
  match runeSize2 l, runeSize3 l, runeSize4 l with
  | S n, _, _ => S n
  | _, S n, _ => S n
  | _, _, n => n
  end.

(** An ASCII byte inside a string literal. *)
Definition escapeByte (b : Byte.byte) : bytes :=
  let c := bz b in
  if (c =? 34) || (c =? 92) then [Byte.x5c; b]
  else if c =? 8 then sbytes "\b"
  else if c =? 12 then sbytes "\f"
  else if c =? 10 then sbytes "\n"
  else if c =? 13 then sbytes "\r"
  else if c =? 9 then sbytes "\t"
  else if (c <? 32) || (c =? 60) || (c =? 62) || (c =? 38)
  then sbytes "\u00" ++ [hexDigit (c / 16); hexDigit (c mod 16)]
  else [b].

(** The loop of [appendString]; [pending] bytes of a multi-byte rune are still
    to be copied, or skipped when the rune was escaped. *)
Fixpoint jsonBody (pending : nat) (copying : bool) (l : bytes) : bytes :=
  match l with
  | [] => []
  | b :: rest =>
      match pending with
      | S n => (if copying then [b] else []) ++ jsonBody n copying rest
      | O =>
          if bz b <? 128 then escapeByte b ++ jsonBody 0 true rest
          else match decodedSize l with
               | O => sbytes "\ufffd" ++ jsonBody 0 true rest
               | S n =>
                   if bool_decide (take 3 l = [Byte.xe2; Byte.x80; Byte.xa8]) then
                     sbytes "\u2028" ++ jsonBody n false rest
                   else if bool_decide (take 3 l = [Byte.xe2; Byte.x80; Byte.xa9]) then
                     sbytes "\u2029" ++ jsonBody n false rest
                   else b :: jsonBody n true rest
               end
      end
  end.

Definition quote : Byte.byte := Byte.x22.

Definition jsonString (s : string) : bytes := quote :: jsonBody 0 true (sbytes s) ++ [quote].

Fixpoint jsonJoin (items : list bytes) : bytes :=
  match items with
  | [] => []
  | [x] => x
  | x :: rest => x ++ [Byte.x2c] ++ jsonJoin rest
  end.

Definition jsonArray (items : list bytes) : bytes := [Byte.x5b] ++ jsonJoin items ++ [Byte.x5d].

(** A non-nil list of strings. *)
Definition jsonStrings (l : list string) : bytes := jsonArray (jsonString <$> l).

Definition jsonField (name : string) (value : bytes) : bytes := jsonString name ++ [Byte.x3a] ++ value.

Definition jsonObject (fields : list (string * bytes)) : bytes :=
  [Byte.x7b] ++ jsonJoin ((fun f => jsonField (fst f) (snd f)) <$> fields) ++ [Byte.x7d].

(** A non-negative integer. *)
Definition jsonNat (z : Z) : bytes := sbytes (pretty (Z.to_N z)).

Example json_escapes : jsonStrings ["a<b"; "q\t"] =
  sbytes "[" ++ [quote] ++ sbytes "a\u003cb" ++ [quote] ++ sbytes "," ++ [quote] ++ sbytes "q\\t" ++ [quote] ++ sbytes "]".
Proof. reflexivity. Qed.

(** ** Injectivity on ASCII text *)

Definition asciiText (l : bytes) : Prop := Forall (fun b => bz b < 128) l.

Fixpoint isPrefix (a b : bytes) : bool :=
  match a, b with
  | [], _ => true
  | x :: a, y :: b => Byte.eqb x y && isPrefix a b
  | _, [] => false
  end.

Lemma isPrefix_app a b x y : (length a <= length b)%nat -> a ++ x = b ++ y -> isPrefix a b = true.
Proof.
  revert b. induction a as [|c a IH]; intros [|d b] Hl Heq; cbn in *; try done; try lia.
  injection Heq as -> Heq. apply andb_true_iff. split; [|apply IH; [lia|done]].
  by apply Byte.byte_dec_lb.
Qed.

Definition asciiBytes : list Byte.byte := zb ∘ Z.of_nat <$> seq 0 128.

Lemma asciiBytes_elem b : bz b < 128 -> b ∈ asciiBytes.
Proof.
  intros Hb. pose proof (bz_range b). apply list_elem_of_fmap. exists (Z.to_nat (bz b)).
  split; [|apply elem_of_seq; lia]. unfold compose. by rewrite Z2Nat.id, zb_bz by lia.
Qed.

(** No code of a byte begins another's, and none begins with the quote. *)
Definition prefixFree : bool :=
  forallb (fun a => negb (isPrefix [quote] (escapeByte a)) && negb (isPrefix (escapeByte a) [quote]) &&
    forallb (fun b => Byte.eqb a b || negb (isPrefix (escapeByte a) (escapeByte b))) asciiBytes) asciiBytes.

Lemma escape_prefixFree a b : bz a < 128 -> bz b < 128 ->
  isPrefix (escapeByte a) (escapeByte b) = true -> a = b.
Proof.
  intros Ha%asciiBytes_elem Hb%asciiBytes_elem HP.
  assert (HF : prefixFree = true) by (vm_compute; reflexivity). unfold prefixFree in HF.
  rewrite forallb_forall in HF. specialize (HF a (proj1 (list_elem_of_In _ _) Ha)).
  apply andb_true_iff in HF as [_ HF]. rewrite forallb_forall in HF.
  specialize (HF b (proj1 (list_elem_of_In _ _) Hb)). rewrite HP, orb_false_r in HF.
  by apply Byte.byte_dec_bl.
Qed.

Lemma escape_inj a b x y : bz a < 128 -> bz b < 128 -> escapeByte a ++ x = escapeByte b ++ y -> a = b /\ x = y.
Proof.
  intros Ha Hb Heq.
  assert (a = b) as ->.
  { destruct (Nat.le_gt_cases (length (escapeByte a)) (length (escapeByte b))) as [HL|HL].
    - apply escape_prefixFree; try done. by eapply isPrefix_app.
    - symmetry. apply escape_prefixFree; try done. eapply isPrefix_app; [lia|by symmetry]. }
  split; [done|]. by apply app_inv_head in Heq.
Qed.

Lemma escape_not_quote a x y : bz a < 128 -> escapeByte a ++ x <> quote :: y.
Proof.
  intros Ha%asciiBytes_elem Heq.
  assert (HF : prefixFree = true) by (vm_compute; reflexivity). unfold prefixFree in HF.
  rewrite forallb_forall in HF. specialize (HF a (proj1 (list_elem_of_In _ _) Ha)).
  apply andb_true_iff in HF as [[HF HG]%andb_true_iff _].
  change (quote :: y) with ([quote] ++ y) in Heq.
  destruct (escapeByte a) as [|c l] eqn:E; [done|].
  rewrite (isPrefix_app [quote] (c :: l) y x) in HF; [done|cbn; lia|by symmetry].
Qed.

Lemma jsonBody_inj a b x y : asciiText a -> asciiText b ->
  jsonBody 0 true a ++ quote :: x = jsonBody 0 true b ++ quote :: y -> a = b /\ x = y.
Proof.
  revert b. induction a as [|c a IH]; intros [|d b] Ha Hb.
  - by intros [= ->].
  - apply Forall_cons_1 in Hb as [Hd Hb]. cbn [jsonBody]. rewrite (proj2 (Z.ltb_lt _ _) Hd), <- app_assoc.
    intros Heq. symmetry in Heq. by apply escape_not_quote in Heq.
  - apply Forall_cons_1 in Ha as [Hc Ha]. cbn [jsonBody]. rewrite (proj2 (Z.ltb_lt _ _) Hc), <- app_assoc.
    intros Heq. by apply escape_not_quote in Heq.
  - apply Forall_cons_1 in Ha as [Hc Ha], Hb as [Hd Hb]. cbn [jsonBody].
    rewrite (proj2 (Z.ltb_lt _ _) Hc), (proj2 (Z.ltb_lt _ _) Hd), <- !app_assoc.
    intros [-> Heq]%escape_inj; [|done..]. apply IH in Heq as [-> ->]; done.
Qed.

Lemma jsonString_inj s t x y : asciiText (sbytes s) -> asciiText (sbytes t) ->
  jsonString s ++ x = jsonString t ++ y -> s = t /\ x = y.
Proof.
  intros Hs Ht. unfold jsonString. cbn [app]. rewrite <- !app_assoc. cbn [app]. intros [= Heq].
  apply jsonBody_inj in Heq as [E ->]; [|done..]. split; [by apply sbytes_inj|done].
Qed.

(** A list of strings up to its closing bracket. *)
Lemma jsonJoin_inj l l' x y : Forall (fun s => asciiText (sbytes s)) l ->
  Forall (fun s => asciiText (sbytes s)) l' ->
  jsonJoin (jsonString <$> l) ++ Byte.x5d :: x = jsonJoin (jsonString <$> l') ++ Byte.x5d :: y ->
  l = l' /\ x = y.
Proof.
  revert l'. induction l as [|s l IH]; intros [|t l'] Hl Hl'.
  - by intros [= ->].
  - cbn [fmap list_fmap]. intros HE. by destruct (jsonString <$> l').
  - cbn [fmap list_fmap]. intros HE. by destruct (jsonString <$> l).
  - apply Forall_cons_1 in Hl as [Hs Hl], Hl' as [Ht Hl'].
    destruct l as [|s2 l], l' as [|t2 l']; cbn [fmap list_fmap jsonJoin]; rewrite <- ?app_assoc;
      intros [-> HE]%jsonString_inj; try done; [by injection HE as ->|].
    injection HE as HE. apply (IH (t2 :: l')) in HE as [-> ->]; done.
Qed.

Lemma jsonStrings_inj l l' x y : Forall (fun s => asciiText (sbytes s)) l ->
  Forall (fun s => asciiText (sbytes s)) l' -> jsonStrings l ++ x = jsonStrings l' ++ y -> l = l' /\ x = y.
Proof.
  intros Hl Hl' HE. unfold jsonStrings, jsonArray in HE. cbn [app] in HE. injection HE as HE.
  rewrite <- !app_assoc in HE. by apply jsonJoin_inj in HE.
Qed.
