(* ===== verification/Validate.v ===== *)
(** * Profile validation

    [src/internal/protocol/ir/validate.go]: every check of [Validate] in source
    order, each with the error it returns, and the effective security policy
    built from a validated profile. [Errorf] keeps the format string and the
    operands. The maps used as sets inside one function ([seen], [known]) are
    lists or [gset]s; loops over a slice with only early returns are
    [forRange]. *)

From S2P Require Import Prelude GoBytes Ir.
From Stdlib Require Import ZArith Lia Floats.SpecFloat Strings.String Strings.Ascii.
From stdpp Require Import base list gmap sets fin_sets strings relations sorting.
Local Open Scope Z_scope.

Inductive operand := AStr (s : string) | AInt (z : Z).

Inductive verror :=
  | Errorf (format : string) (args : list operand)
  | Wrapf (format : string) (cause : verror).

Definition f64_zero : spec_float := S754_zero false.
(** [1.0] as a normalised binary64. *)
Definition f64_one : spec_float := S754_finite false 4503599627370496 (-52).

(** ** Strings *)

(** [strings.Contains]. *)
Fixpoint Contains (s sub : string) : bool :=
  String.prefix sub s ||
  match s with String _ rest => Contains rest sub | EmptyString => false end.

Definition upperAscii (a : ascii) : ascii :=
  let n := N_of_ascii a in
  if ((97 <=? n) && (n <=? 122))%N then ascii_of_N (n - 32) else a.

Definition lowerAscii (a : ascii) : ascii :=
  let n := N_of_ascii a in
  if ((65 <=? n) && (n <=? 90))%N then ascii_of_N (n + 32) else a.

(** [strings.ToUpper], on what the caller looks for: no character outside
    ASCII has an upper case among the letters of [forbiddenWireConstants]. *)
Fixpoint ToUpper (s : string) : string :=
  match s with EmptyString => EmptyString | String a r => String (upperAscii a) (ToUpper r) end.

(** [strings.ToLower], with the two characters outside ASCII whose lower case
    is an ASCII letter: the Kelvin sign (E2 84 AA) and the dotted capital I
    (C4 B0). *)
Fixpoint ToLower (s : string) : string :=
  match s with
  | EmptyString => EmptyString
  | String a r =>
      match N_of_ascii a, r with
      | 226%N, String b (String c r') =>
          if (N_of_ascii b =? 132)%N && (N_of_ascii c =? 170)%N
          then String "k"%char (ToLower r') else String a (ToLower r)
      | 196%N, String b r' =>
          if (N_of_ascii b =? 176)%N then String "i"%char (ToLower r')
          else String a (ToLower r)
      | _, _ => String (lowerAscii a) (ToLower r)
      end
  end.

Definition forbiddenWireConstants : list string :=
  ["HELLO"; "AUTH"; "OPEN"; "KURD"; "VPN"; "PROXY"; "CONNECT"].

Fixpoint tokenChars (s : string) : bool :=
  match s with
  | EmptyString => true
  | String a r =>
      let n := N_of_ascii a in
      (((97 <=? n) && (n <=? 122)) || ((48 <=? n) && (n <=? 57)) || (n =? 95) || (n =? 45))%N
      && tokenChars r
  end.

Definition safeWireToken (value : string) : bool :=
  if bool_decide (value = "") then false
  else
    let lower := ToLower value in
    if bool_decide (lower = "auth_tag_like") then true
    else if existsb (Contains lower)
      ["raw_payload"; "raw_bytes"; "encoded_bytes"; "decoded_bytes"; "ciphertext"; "plaintext";
       "pcap"; "packet_dump"; "capture_bytes"; "auth_tag"; "nonce_base"; "secret"; "derived_key";
       "client_write_key"; "server_write_key"; "proof_material"; "private_key"; "session_secret";
       "destination_address"; "proxy_ip"; "server_ip"; "domain"; "sni"; "host_header"]
    then false
    else tokenChars value.

Definition validWireSizeBucket (bucket : string) : bool :=
  mem bucket ["size_0"; "size_1_3"; "size_4_8"; "size_9_16"; "size_17_32"; "size_33_64";
    "size_65_128"; "size_129_512"; "size_513_1500"; "size_1501_4096"; "size_4097_plus"].

(** Reading an absent key of a [map[string]string] gives the empty string. *)
Definition mapGet (m : gmap string string) (k : string) : string := default "" (m !! k).

(** The loop over a list that must hold known entries without repetition. *)
Fixpoint knownUnique (known seen values : list string) (unknown duplicate : string)
    : result verror unit :=
  match values with
  | [] => Ok tt
  | v :: rest =>
      fail? negb (mem v known) with Errorf unknown [AStr v] in
      fail? mem v seen with Errorf duplicate [AStr v] in
      knownUnique known (v :: seen) rest unknown duplicate
  end.

(** ** Limits and states *)

Definition validateSupportedVersionTupleV1 (p : Profile) : result verror unit :=
  reject (negb (bool_decide (pf_Version p = SupportedVersion))
          || negb (bool_decide (sec_SecurityVersion (pf_Security p) = SupportedSecurityVersion))
          || negb (bool_decide (cm_SchemaVersion (pf_Compatibility p) = SupportedVersion))
          || negb (bool_decide (cm_CompilerSecurityVersion (pf_Compatibility p)
                                = SupportedSecurityVersion))
          || negb (bool_decide (cm_MinimumRuntimeVersion (pf_Compatibility p)
                                = SupportedSecurityVersion)))
    (Errorf "unsupported profile version tuple" []).

Definition validateLimits (p : Profile) : result verror unit :=
  fail? (lim_MaxFrameBytes (pf_Limits p) <=? 0)
      || (1048576 <? lim_MaxFrameBytes (pf_Limits p))
    with Errorf "invalid max frame bytes" [] in
  fail? (lim_MaxPayloadBytes (pf_Limits p) <=? 0)
      || (8388608 <? lim_MaxPayloadBytes (pf_Limits p))
    with Errorf "invalid max payload bytes" [] in
  fail? (lim_MaxStates (pf_Limits p) <=? 0)
      || (lim_MaxStates (pf_Limits p) <? zlen (pf_States p))
    with Errorf "state count exceeds limits" [] in
  fail? (lim_MaxTransitions (pf_Limits p) <=? 0)
      || (lim_MaxTransitions (pf_Limits p) <? zlen (pf_Transitions p))
    with Errorf "transition count exceeds limits" [] in
  fail? (lim_MaxSessionMillis (pf_Limits p) <=? 0)
    with Errorf "max session duration is required" [] in
  Ok tt.

(** The pass over the states: their roles, and whether one is terminal. *)
Fixpoint scanStates (states : list State) (stateRoles : gmap string string) (hasTerminal : bool)
    : result verror (gmap string string * bool) :=
  match states with
  | [] => Ok (stateRoles, hasTerminal)
  | st :: rest =>
      fail? bool_decide (st_ID st = "") with Errorf "empty state id" [] in
      fail? negb (bool_decide (st_Role st = RoleClient)) && negb (bool_decide (st_Role st = RoleServer))
          && negb (bool_decide (st_Role st = RoleShared))
        with Errorf "invalid state role %q" [AStr (st_Role st)] in
      fail? bool_decide (is_Some (stateRoles !! st_ID st))
        with Errorf "duplicate state %q" [AStr (st_ID st)] in
      scanStates rest (<[st_ID st := st_Role st]> stateRoles) (hasTerminal || st_Terminal st)
  end.

Definition edgesOf (edges : gmap string (list string)) (s : string) : list string :=
  default [] (edges !! s).

(** The pass over the transitions: the edges, and the roles seen. *)
Fixpoint scanTransitions (stateRoles : gmap string string) (transitions : list Transition)
    (edges : gmap string (list string)) (seenClient seenServer : bool)
    : result verror (gmap string (list string) * bool * bool) :=
  match transitions with
  | [] => Ok (edges, seenClient, seenServer)
  | tr :: rest =>
      fail? bool_decide (stateRoles !! tr_From tr = None)
        with Errorf "transition from unknown state %q" [AStr (tr_From tr)] in
      fail? bool_decide (stateRoles !! tr_To tr = None)
        with Errorf "transition to unknown state %q" [AStr (tr_To tr)] in
      fail? negb (bool_decide (tr_Role tr = RoleClient)) && negb (bool_decide (tr_Role tr = RoleServer))
        with Errorf "invalid transition role %q" [AStr (tr_Role tr)] in
      fail? bool_decide (tr_OnMessage tr = "") with Errorf "transition message is required" [] in
      scanTransitions stateRoles rest
        (<[tr_From tr := edgesOf edges (tr_From tr) ++ [tr_To tr]]> edges)
        (seenClient || bool_decide (tr_Role tr = RoleClient))
        (seenServer || bool_decide (tr_Role tr = RoleServer))
  end.

(** The inner loop of [reachable]: unseen successors are marked and queued. *)
Fixpoint enqueue (nexts queue : list string) (seen : gset string) : list string * gset string :=
  match nexts with
  | [] => (queue, seen)
  | n :: rest =>
      if bool_decide (n ∈ seen) then enqueue rest queue seen
      else enqueue rest (queue ++ [n]) ({[n]} ∪ seen)
  end.

(** The outer loop, [None] when the fuel is spent. *)
Fixpoint bfs (fuel : nat) (edges : gmap string (list string)) (want : string)
    (queue : list string) (seen : gset string) : option bool :=
  match fuel with
  | O => None
  | S fuel =>
      match queue with
      | [] => Some false
      | cur :: queue =>
          if bool_decide (cur = want) then Some true
          else let '(queue, seen) := enqueue (edgesOf edges cur) queue seen in
               bfs fuel edges want queue seen
      end
  end.

(** Every edge target; a state enters the queue at most once. *)
Definition targets (edges : gmap string (list string)) : gset string :=
  list_to_set (concat (snd <$> map_to_list edges)).

Definition reachable (edges : gmap string (list string)) (start want : string) : bool :=
  default false (bfs (2 + size (targets edges)) edges want [start] {[start]}).

Definition validateStates (p : Profile) : result verror unit :=
  let? (stateRoles, hasTerminal) := scanStates (pf_States p) ∅ false in
  let fc := pf_FirstContact p in
  fail? bool_decide (stateRoles !! fc_StartState fc = None)
    with Errorf "start state is missing" [] in
  fail? bool_decide (stateRoles !! fc_RelayReadyState fc = None)
    with Errorf "relay-ready state is missing" [] in
  fail? negb hasTerminal with Errorf "terminal state is required" [] in
  fail? zlen (fc_Steps fc) =? 0 with Errorf "first-contact steps are required" [] in
  let? (edges, seenClient, seenServer) :=
    scanTransitions stateRoles (pf_Transitions p) ∅ false false in
  fail? negb seenClient || negb seenServer
    with Errorf "client and server transition paths are required" [] in
  fail? negb (reachable edges (fc_StartState fc) (fc_RelayReadyState fc))
    with Errorf "relay-ready state is unreachable" [] in
  let? _ := forRange (fc_Steps fc) (fun step =>
      fail? bool_decide (stateRoles !! fs_FromState step = None)
        with Errorf "first-contact step has unknown from state" [] in
      fail? bool_decide (stateRoles !! fs_ToState step = None)
        with Errorf "first-contact step has unknown to state" [] in
      fail? bool_decide (fs_WireSymbol step = "") || bool_decide (fs_Message step = "")
          || (fs_PayloadSize step <? 0)
        with Errorf "invalid first-contact step" [] in
      Ok tt) in
  match fc_Steps fc with
  | [] => Ok tt
  | first :: _ =>
      fail? negb (bool_decide (fs_Role first = RoleClient))
        with Errorf "first-contact must begin with client" [] in
      fail? fs_PayloadSize first <? au_NonceBytes (pf_Auth p)
        with Errorf "first-contact nonce payload is too small" [] in
      Ok tt
  end.

(** ** Messages *)

(** [seenWire] maps a wire symbol to the semantic that claimed it. *)
Fixpoint scanMessages (maxPayload : Z) (messages : list MessageSymbol)
    (seenWire : gmap string string) (seenSemantic : gset string)
    : result verror (gmap string string * gset string) :=
  match messages with
  | [] => Ok (seenWire, seenSemantic)
  | msg :: rest =>
      fail? bool_decide (ms_Semantic msg = "") || bool_decide (ms_WireSymbol msg = "")
        with Errorf "semantic and wire symbols are required" [] in
      fail? (ms_MinPayloadSize msg <? 0) || (ms_MaxPayloadSize msg <? ms_MinPayloadSize msg)
          || (maxPayload <? ms_MaxPayloadSize msg)
        with Errorf "invalid payload bounds for %q" [AStr (ms_Semantic msg)] in
      let upper := ToUpper (ms_WireSymbol msg) in
      let? _ := forRange forbiddenWireConstants (fun forbidden =>
          reject (Contains upper forbidden)
            (Errorf "forbidden wire symbol constant %q" [AStr forbidden])) in
      match seenWire !! ms_WireSymbol msg with
      | Some previous =>
          Err (Errorf "duplicate wire symbol %q for %q and %q"
                 [AStr (ms_WireSymbol msg); AStr previous; AStr (ms_Semantic msg)])
      | None =>
          scanMessages maxPayload rest (<[ms_WireSymbol msg := ms_Semantic msg]> seenWire)
            ({[ms_Semantic msg]} ∪ seenSemantic)
      end
  end.

Definition validateMessages (p : Profile) : result verror unit :=
  let? (seenWire, seenSemantic) :=
    scanMessages (lim_MaxPayloadBytes (pf_Limits p)) (pf_Messages p) ∅ ∅ in
  let? _ := forRange RelaySemantics (fun semantic =>
      reject (negb (bool_decide (semantic ∈ seenSemantic)))
        (Errorf "missing semantic message %q" [AStr semantic])) in
  forRange (fc_Steps (pf_FirstContact p)) (fun step =>
      reject (bool_decide (is_Some (seenWire !! fs_WireSymbol step)))
        (Errorf "first-contact wire symbol collides with frame symbol" [])).

(** ** Policies *)

Definition validateFrameGrammar (p : Profile) : result verror unit :=
  fail? negb (mem (fg_LengthMode (pf_FrameGrammar p)) ["varint_prefix"; "fixed_2_prefix";
      "fixed_4_prefix"; "length_suffix_lab"])
    with Errorf "invalid length mode" [] in
  fail? negb (mem (fg_TypeMode (pf_FrameGrammar p)) ["explicit_generated_tag";
      "derived_from_state"; "derived_from_header_order"; "table_indexed_symbol"])
    with Errorf "invalid type mode" [] in
  fail? negb (mem (fg_FragmentationMode (pf_FrameGrammar p)) ["no_fragmentation_for_small_payloads";
      "fixed_size_chunks"; "bounded_variable_chunks"; "scheduler_controlled_chunks"])
    with Errorf "invalid fragmentation mode" [] in
  fail? negb (mem (fg_ChecksumMode (pf_FrameGrammar p)) ["none"; "crc32"])
    with Errorf "invalid checksum mode" [] in
  fail? negb (mem (fg_PaddingPlacement (pf_FrameGrammar p)) ["none"; "prefix"; "suffix";
      "inter_frame"; "probabilistic"])
    with Errorf "invalid padding placement" [] in
  let? _ := forRange (fg_HeaderOrder (pf_FrameGrammar p)) (fun field =>
      fail? negb (mem field ["length"; "type"; "stream"; "flags"])
        with Errorf "invalid header field %q" [AStr field] in
      Ok tt) in
  let? _ := forRange ["length"; "type"; "stream"; "flags"] (fun field =>
      fail? negb (mem field (fg_HeaderOrder (pf_FrameGrammar p)))
        with Errorf "header order missing %q" [AStr field] in
      Ok tt) in
  Ok tt.

Definition validateScheduler (p : SchedulerPolicy) : result verror unit :=
  fail? negb (mem (sc_Mode p) ["max_speed"; "balanced"; "interactive_first"; "bulk_first"])
    with Errorf "invalid scheduler mode" [] in
  fail? (sc_MaxBatchBytes p <=? 0) || (32768 <? sc_MaxBatchBytes p)
    with Errorf "invalid scheduler batch size" [] in
  fail? (sc_FlushIntervalMs p <? 0) || (1000 <? sc_FlushIntervalMs p)
    with Errorf "invalid flush interval" [] in
  fail? negb (mem (sc_MaxInFlightFrames p) [4; 8; 16; 32])
    with Errorf "invalid max in-flight frame count" [] in
  fail? bool_decide (sc_PriorityMode p = "") with Errorf "priority mode is required" [] in
  Ok tt.

Definition validateStreamPolicy (p : StreamPolicy) (limits : SafetyLimits) : result verror unit :=
  fail? negb (mem (sp_IDStrategy p) ["sequential_odd_even"; "randomized_bounded_ids";
      "table_mapped_ids"; "varint_ids"])
    with Errorf "invalid stream id strategy" [] in
  fail? negb (mem (sp_IDEncodingMode p) ["fixed32_be"; "profile_xor32";
      "table_mapped32_le"; "varint"])
    with Errorf "invalid stream id encoding mode" [] in
  fail? negb (mem (sp_MaxConcurrentStreams p) [2; 4; 8; 16])
    with Errorf "invalid max concurrent streams" [] in
  fail? negb (mem (sp_InitialStreamWindowBytes p) [16384; 32768; 65536; 131072])
    with Errorf "invalid stream window" [] in
  fail? (sp_InitialSessionWindowBytes p <? sp_InitialStreamWindowBytes p)
    with Errorf "session window must be at least one stream window" [] in
  fail? (2097152 <? sp_InitialSessionWindowBytes p)
    with Errorf "session window exceeds lab safety limit" [] in
  fail? (0 <? lim_MaxPayloadBytes limits) && (lim_MaxPayloadBytes limits <? sp_InitialSessionWindowBytes p)
    with Errorf "session window exceeds payload limit" [] in
  fail? negb (mem (sp_WindowUpdatePolicy p) ["threshold_update"; "periodic_update";
      "per_frame_update"; "hybrid_update"])
    with Errorf "invalid window update policy" [] in
  fail? negb (mem (sp_PriorityPolicy p) ["fifo"; "interactive_first";
      "weighted_round_robin"; "smallest_pending_first"])
    with Errorf "invalid stream priority policy" [] in
  fail? negb (mem (sp_ClosePolicy p) ["explicit_close"; "half_close"; "close_after_ack"])
    with Errorf "invalid stream close policy" [] in
  fail? negb (mem (sp_ResetPolicy p) ["immediate_reset"; "reset_with_error_code";
      "delayed_reset"])
    with Errorf "invalid stream reset policy" [] in
  fail? (sp_MaxStreamID p =? 0) || (1073741824 <? sp_MaxStreamID p)
    with Errorf "invalid max stream id" [] in
  fail? (sp_MaxStreamID p <? wrap64 (sp_MaxConcurrentStreams p))
    with Errorf "max stream id cannot represent concurrent streams" [] in
  Ok tt.

Definition validateProxySemanticsPolicy (p : ProxySemanticsPolicy) (limits : SafetyLimits)
    (messages : list MessageSymbol) : result verror unit :=
  fail? negb (mem (ps_RelayIntentEncoding p) ["descriptor_before_open";
      "descriptor_after_open"; "split_descriptor"; "table_mapped_descriptor";
      "state_derived_descriptor"])
    with Errorf "invalid relay intent encoding" [] in
  fail? negb (mem (ps_TargetDescriptorEncoding p) ["compact_enum"; "generated_table_index";
      "split_fields"; "state_derived_class"; "padded_descriptor_block"])
    with Errorf "invalid target descriptor encoding" [] in
  fail? negb (mem (ps_RequestClassEncoding p) ["interactive"; "bulk"; "control";
      "error_test"; "generated_bucket"])
    with Errorf "invalid request class encoding" [] in
  fail? negb (mem (ps_ResponseModeEncoding p) ["immediate"; "chunked"; "delayed";
      "resettable"; "errorable"; "large_object"])
    with Errorf "invalid response mode encoding" [] in
  fail? negb (mem (ps_TargetErrorPolicy p) ["explicit_target_error"; "close_with_error";
      "reset_with_error"; "delayed_error"; "metadata_error"])
    with Errorf "invalid target error policy" [] in
  fail? negb (mem (ps_TargetClosePolicy p) ["explicit_close";
      "implicit_close_after_response"; "close_after_ack"; "half_close_compatible"])
    with Errorf "invalid target close policy" [] in
  fail? negb (mem (ps_TargetResetPolicy p) ["immediate_reset"; "reset_with_reason";
      "delayed_reset"; "reset_after_partial_response"])
    with Errorf "invalid target reset policy" [] in
  fail? negb (mem (ps_TargetMetadataPolicy p) ["none"; "pre_response_metadata";
      "post_response_metadata"; "metadata_as_control_frame"])
    with Errorf "invalid target metadata policy" [] in
  fail? negb (mem (ps_RelayOpenOrderingPolicy p) ["intent_before_stream";
      "stream_before_intent"; "descriptor_split_around_open"; "metadata_before_descriptor"])
    with Errorf "invalid relay open ordering policy" [] in
  fail? negb (mem (ps_RelayIntentPaddingPolicy p) ["none"; "bounded"; "descriptor_padding";
      "metadata_padding"])
    with Errorf "invalid relay intent padding policy" [] in
  fail? negb (mem (ps_TargetClassMapping p) ["direct_generated"; "table_mapped";
      "state_derived"; "bucketed"])
    with Errorf "invalid target class mapping" [] in
  fail? (ps_MaxRequestBytes p <=? 0) || (ps_MaxResponseBytes p <=? 0)
    with Errorf "proxy semantics byte limits are required" [] in
  fail? (0 <? lim_MaxPayloadBytes limits) && ((lim_MaxPayloadBytes limits <? ps_MaxRequestBytes p)
      || (lim_MaxPayloadBytes limits <? ps_MaxResponseBytes p))
    with Errorf "proxy semantics limits exceed payload limit" [] in
  fail? (524288 <? ps_MaxRequestBytes p) || (2097152 <? ps_MaxResponseBytes p)
    with Errorf "proxy semantics limits exceed lab safety bound" [] in
  fail? (zlen (ps_TargetClasses p) =? 0) with Errorf "proxy target classes are required" [] in
  let? _ := knownUnique SyntheticTargetClasses [] (ps_TargetClasses p)
    "unknown synthetic target class %q" "duplicate synthetic target class %q" in
  let? _ := forRange ProxySemantics (fun semantic =>
      let count := zlen (filter (fun msg => ms_Semantic msg = semantic) messages) in
      fail? negb (count =? 1)
        with Errorf "proxy semantic %q has %d mappings" [AStr semantic; AInt count] in
      Ok tt) in
  Ok tt.

Definition validateCarrierPolicy (p : CarrierPolicy) (limits : SafetyLimits) : result verror unit :=
  fail? negb (mem (cp_CarrierFamily p) CarrierFamilies)
    with Errorf "invalid carrier family" [] in
  fail? negb (mem (cp_EnvelopeEncoding p) ["single_semantic"; "coalesced_semantics";
      "split_semantic"; "table_mapped_envelope"; "state_derived_envelope"])
    with Errorf "invalid carrier envelope encoding" [] in
  fail? negb (mem (cp_FlushPolicy p) ["flush_each"; "flush_on_threshold";
      "flush_on_priority"; "flush_on_state_transition"; "delayed_flush_bucket"])
    with Errorf "invalid carrier flush policy" [] in
  fail? negb (mem (cp_BatchPolicy p) ["no_batch"; "fixed_batch"; "profile_bucket_batch";
      "priority_split_batch"; "state_transition_batch"])
    with Errorf "invalid carrier batch policy" [] in
  fail? negb (mem (cp_ChunkingPolicy p) ["no_chunk"; "fixed_chunk"; "profile_bucket_chunk";
      "priority_aware_chunk"; "state_derived_chunk"])
    with Errorf "invalid carrier chunking policy" [] in
  fail? negb (mem (cp_ReliabilityPolicy p) ["ordered_only"; "ack_required";
      "retry_bounded"; "drop_detect"; "reorder_recover"])
    with Errorf "invalid carrier reliability policy" [] in
  fail? negb (mem (cp_ReorderPolicy p) ["none"; "stable"; "deterministic_reorder";
      "lossy_reorder"; "recoverable_reorder"])
    with Errorf "invalid carrier reorder policy" [] in
  fail? negb (mem (cp_BackpressurePolicy p) ["carrier_queue_backpressure";
      "stream_window_backpressure"; "session_window_backpressure"; "priority_backpressure";
      "drop_or_delay_metadata"])
    with Errorf "invalid carrier backpressure policy" [] in
  fail? negb (mem (cp_PriorityMappingPolicy p) ["direct_priority"; "bucketed_priority";
      "state_derived_priority"; "interactive_bias"])
    with Errorf "invalid carrier priority mapping policy" [] in
  fail? negb (mem (cp_EnvelopePaddingPolicy p) ["none"; "small_bucket"; "state_bucket";
      "priority_bucket"; "carrier_family_bucket"])
    with Errorf "invalid carrier envelope padding policy" [] in
  fail? negb (mem (cp_TimingBucketPolicy p) ["none"; "flush_bucket"; "poll_cycle_bucket";
      "retry_bucket"])
    with Errorf "invalid carrier timing bucket policy" [] in
  fail? (cp_MaxEnvelopeBytes p <=? 0) || (lim_MaxFrameBytes limits <? cp_MaxEnvelopeBytes p)
    with Errorf "invalid carrier envelope byte limit" [] in
  fail? (cp_MaxMessagesPerEnvelope p <=? 0) || (32 <? cp_MaxMessagesPerEnvelope p)
    with Errorf "invalid carrier max messages per envelope" [] in
  fail? (cp_MaxCarrierQueueDepth p <=? 0) || (256 <? cp_MaxCarrierQueueDepth p)
    with Errorf "invalid carrier queue depth" [] in
  fail? (cp_MaxRetryCount p <? 0) || (8 <? cp_MaxRetryCount p)
    with Errorf "invalid carrier retry count" [] in
  Ok tt.

Definition validateWireShapePolicy `{Encoding} (p : WireShapePolicy) : result verror unit :=
  fail? negb (bool_decide (ws_Version p = "wiregen-policy-v1"))
    with Errorf "invalid wire-shape policy version" [] in
  fail? negb (bool_decide (ws_CorpusVersion p = "protocorpus-v1"))
    with Errorf "invalid wire-shape corpus version" [] in
  fail? negb (safeWireToken (ws_PolicyID p)) || negb (safeWireToken (ws_SelectedFamily p))
      || negb (safeWireToken (ws_SelectedCorpusEntry p)) || (ws_ProfileSeed p =? 0)
    with Errorf "invalid wire-shape policy identity" [] in
  fail? negb (mem (ws_SelectedFamily p) ["structured_encrypted"; "fully_encrypted";
      "greeting_based"; "length_prefixed"; "message_oriented"; "stream_oriented"; "control_rich";
      "minimal_handshake"; "multi_round_handshake"])
    with Errorf "invalid wire-shape selected family" [] in
  fail? (zlen (wp_PhaseSequence (ws_PhasePlan p)) =? 0)
      || negb (mem (wp_HandshakeRTTBucket (ws_PhasePlan p)) ["0rtt"; "1rtt"; "1_5rtt"; "2rtt";
      "multi_rtt"; "unknown"])
      || negb (mem (wp_DirectionPattern (ws_PhasePlan p)) ["client_first"; "server_first";
      "alternating"; "client_burst"; "server_burst"; "bidirectional_interleaved"; "unknown"])
    with Errorf "invalid wire-shape phase plan" [] in
  let? _ := forRange (wp_PhaseSequence (ws_PhasePlan p)) (fun phase =>
      fail? negb (mem phase ["greeting"; "handshake"; "control"; "data"; "close";
          "reset"])
        with Errorf "invalid wire-shape phase" [] in
      Ok tt) in
  fail? negb (safeWireToken (wl_LayoutClass (ws_FieldLayoutPlan p)))
      || (zlen (wl_FieldOrder (ws_FieldLayoutPlan p)) =? 0)
      || negb (safeWireToken (wl_PayloadPosition (ws_FieldLayoutPlan p)))
    with Errorf "invalid wire-shape field layout" [] in
  let? _ := forRange (wl_FieldOrder (ws_FieldLayoutPlan p)) (fun field =>
      fail? negb (mem field ["type"; "length"; "version"; "nonce_like"; "key_like";
          "certificate_like"; "reserved"; "padding_length"; "padding"; "payload";
          "auth_tag_like"; "unknown_encrypted"])
        with Errorf "invalid wire-shape field kind" [] in
      fail? negb (mem (mapGet (wl_VisibilityByField (ws_FieldLayoutPlan p)) field) ["cleartext";
          "encrypted"; "derived"; "absent"])
        with Errorf "invalid wire-shape field visibility" [] in
      fail? negb (validWireSizeBucket (mapGet (wl_SizeBucketByField (ws_FieldLayoutPlan p)) field))
        with Errorf "invalid wire-shape field size bucket" [] in
      Ok tt) in
  fail? negb (safeWireToken (wff_PacketCountBucket (ws_FirstFlightPlan p)))
      || negb (mem (wff_DirectionPattern (ws_FirstFlightPlan p)) ["client_first"; "server_first";
      "alternating"; "client_burst"; "server_burst"; "bidirectional_interleaved"; "unknown"])
      || (zlen (wff_SizeBuckets (ws_FirstFlightPlan p)) =? 0)
    with Errorf "invalid wire-shape first-flight plan" [] in
  let? _ := forRange (wff_SizeBuckets (ws_FirstFlightPlan p)) (fun bucket =>
      fail? negb (validWireSizeBucket bucket) with Errorf "invalid wire-shape first-flight bucket" [] in
      Ok tt) in
  fail? (wn_N (ws_FirstNPlan p) <=? 0) || (16 <? wn_N (ws_FirstNPlan p))
      || negb (safeWireToken (wn_ShapeClass (ws_FirstNPlan p)))
      || negb (safeWireToken (wn_DirectionClass (ws_FirstNPlan p)))
      || negb (safeWireToken (wn_SizeClass (ws_FirstNPlan p)))
    with Errorf "invalid wire-shape first-n plan" [] in
  fail? negb (safeWireToken (wfs_Strategy (ws_FrameSizePlan p)))
      || negb (safeWireToken (wfs_PaddingBudget (ws_FrameSizePlan p)))
      || negb (safeWireToken (wfs_PayloadSplit (ws_FrameSizePlan p)))
      || (zlen (wfs_SizeBuckets (ws_FrameSizePlan p)) =? 0)
    with Errorf "invalid wire-shape frame-size plan" [] in
  let? _ := forRange (wfs_SizeBuckets (ws_FrameSizePlan p)) (fun bucket =>
      fail? negb (validWireSizeBucket bucket) with Errorf "invalid wire-shape frame-size bucket" [] in
      Ok tt) in
  fail? negb (safeWireToken (wr_Strategy (ws_FragmentRhythmPlan p)))
      || negb (safeWireToken (wr_ReassemblyPattern (ws_FragmentRhythmPlan p)))
      || (zlen (wr_FragmentBuckets (ws_FragmentRhythmPlan p)) =? 0)
    with Errorf "invalid wire-shape fragment rhythm" [] in
  let? _ := forRange (wr_FragmentBuckets (ws_FragmentRhythmPlan p)) (fun bucket =>
      fail? negb (validWireSizeBucket bucket) with Errorf "invalid wire-shape fragment bucket" [] in
      Ok tt) in
  fail? negb (safeWireToken (wc_Richness (ws_ControlPlan p)))
      || (wc_PreDataControls (ws_ControlPlan p) <? 0)
      || (8 <? wc_PreDataControls (ws_ControlPlan p))
      || negb (safeWireToken (wc_InterleaveClass (ws_ControlPlan p)))
      || negb (safeWireToken (wc_CloseClass (ws_ControlPlan p)))
      || negb (safeWireToken (wc_ResetClass (ws_ControlPlan p)))
    with Errorf "invalid wire-shape control plan" [] in
  fail? negb (mem (wm_ExposureClass (ws_MetadataExposurePlan p)) ["none_visible";
      "minimal_visible"; "mixed_visible_encrypted"; "cleartext_header_encrypted_payload";
      "encrypted_header_encrypted_payload"; "unknown"])
    with Errorf "invalid wire-shape metadata exposure" [] in
  fail? negb (safeWireToken (wla_TriggerClass (ws_LengthAlonePlan p)))
    with Errorf "invalid wire-shape length-alone plan" [] in
  fail? bool_decide (ws_PolicyHash p = "") with Errorf "wire-shape policy hash is required" [] in
  let? expected := map_err (fun e => Errorf e []) (wireShapePolicyHash p) in
  fail? negb (bool_decide (expected = ws_PolicyHash p))
    with Errorf "wire-shape policy hash mismatch" [] in
  Ok tt.

Definition validateAdapterPolicy (p : AdapterPolicy) (_ : StreamPolicy) (limits : SafetyLimits)
    : result verror unit :=
  fail? negb (mem (ap_FlowLifecyclePolicy p) ["strict"; "half_close_aware";
      "drain_before_close"; "reset_terminal"])
    with Errorf "invalid adapter flow lifecycle policy" [] in
  fail? negb (mem (ap_RuntimeMappingPolicy p) ["one_flow_one_stream";
      "priority_mapped_stream"; "metadata_bound_stream"; "state_derived_mapping"])
    with Errorf "invalid adapter runtime mapping policy" [] in
  fail? negb (mem (ap_TracePolicy p) ["safe_buckets"; "metadata_only"; "strict_hygiene"])
    with Errorf "invalid adapter trace policy" [] in
  fail? negb (mem (ap_ErrorMappingPolicy p) ["flow_error"; "flow_reset"; "metadata_error";
      "close_with_error"])
    with Errorf "invalid adapter error mapping policy" [] in
  fail? negb (mem (ap_BackpressurePolicy p) ["adapter_queue"; "runtime_stream";
      "carrier_chain"; "priority_backpressure"])
    with Errorf "invalid adapter backpressure policy" [] in
  fail? (ap_MaxFlows p <=? 0) || (256 <? ap_MaxFlows p)
    with Errorf "invalid adapter max flows" [] in
  fail? (ap_MaxFlowBytes p <=? 0) || (lim_MaxPayloadBytes limits <? ap_MaxFlowBytes p)
    with Errorf "invalid adapter max flow bytes" [] in
  fail? (ap_MaxBufferedBytes p <=? 0) || (16777216 <? ap_MaxBufferedBytes p)
    with Errorf "invalid adapter max buffered bytes" [] in
  fail? (ap_MaxEvents p <=? 0) || (1048576 <? ap_MaxEvents p)
    with Errorf "invalid adapter max events" [] in
  fail? (zlen (ap_RequiredCapabilities p) =? 0) with Errorf "adapter required capabilities are missing" [] in
  let? _ := knownUnique AdapterCapabilities [] (ap_RequiredCapabilities p)
    "unknown adapter capability %q" "duplicate adapter capability %q" in
  Ok tt.

Definition validateSecurityPolicy (p : SecurityPolicy) : result verror unit :=
  fail? bool_decide (sec_SecurityVersion p = "") with Errorf "security version is required" [] in
  fail? negb (mem (sec_TranscriptMode p) ["canonical_v1"; "canonical_with_capabilities_v1";
      "canonical_with_carrier_binding_v1"; "canonical_full_binding_v1"])
    with Errorf "invalid transcript mode" [] in
  fail? negb (bool_decide (sec_KDFSuite p = "kdf_hkdf_sha256"))
    with Errorf "invalid KDF suite" [] in
  fail? negb (bool_decide (sec_AEADSuite p = "aead_aes_256_gcm"))
    with Errorf "invalid AEAD suite" [] in
  fail? negb (bool_decide (sec_MACSuite p = "mac_hmac_sha256"))
    with Errorf "invalid MAC suite" [] in
  fail? negb (mem (sec_NonceMode p) ["counter_xor_base"; "counter_append_base";
      "directional_counter"; "stream_partitioned_counter"])
    with Errorf "invalid nonce mode" [] in
  fail? negb (mem (sec_ReplayPolicy p) ["ordered_only"; "bounded_reorder"; "windowed_replay"])
    with Errorf "invalid replay policy" [] in
  fail? (sec_ReplayWindowSize p <=? 1) || (4096 <? sec_ReplayWindowSize p)
    with Errorf "invalid replay window size" [] in
  fail? negb (mem (sec_DowngradePolicy p) ["strict_suite_and_capabilities";
      "strict_capabilities"; "suite_bound_transcript"])
    with Errorf "invalid downgrade policy" [] in
  fail? negb (mem (sec_CapabilityNegotiationPolicy p) ["strict_required";
      "intersection_with_required"; "profile_declared_required"])
    with Errorf "invalid capability negotiation policy" [] in
  fail? negb (mem (sec_ProfileCompatibilityPolicy p) ["strict_schema";
      "schema_and_feature"; "full_policy_binding"])
    with Errorf "invalid profile compatibility policy" [] in
  fail? negb (mem (sec_KeyRotationPolicy p) ["session_only"; "message_lifetime_bound";
      "profile_lifetime_bound"])
    with Errorf "invalid key rotation policy" [] in
  fail? negb (mem (sec_ConfigValidationPolicy p) ["strict_required";
      "strict_with_redaction"; "strict_profile_bound"])
    with Errorf "invalid config validation policy" [] in
  fail? negb (mem (sec_SecureEnvelopeMode p) ["metadata_authenticated";
      "synthetic_aead_test"; "full_context_bound_envelope"])
    with Errorf "invalid secure envelope mode" [] in
  fail? (sec_MaxSessionMessages p <=? 0) || (16777216 <? sec_MaxSessionMessages p)
    with Errorf "invalid max session messages" [] in
  fail? (sec_MaxKeyLifetimeMessages p <=? 0)
      || (sec_MaxSessionMessages p <? sec_MaxKeyLifetimeMessages p)
    with Errorf "invalid max key lifetime messages" [] in
  Ok tt.

Definition validateCompatibility (c : CompatibilityMetadata) (sec : SecurityPolicy)
    (stream : StreamPolicy) (carrier : CarrierPolicy) (limits : SafetyLimits) : result verror unit :=
  fail? negb (bool_decide (cm_SchemaVersion c = SupportedVersion))
    with Errorf "invalid compatibility schema version" [] in
  fail? bool_decide (cm_CompilerSecurityVersion c = "")
      || bool_decide (cm_MinimumRuntimeVersion c = "")
    with Errorf "compatibility versions are required" [] in
  fail? negb (mem SecuritySuiteString (cm_SupportedSecuritySuites c))
    with Errorf "required security suite is not supported" [] in
  fail? (zlen (cm_RequiredCapabilities c) =? 0) with Errorf "required capabilities are missing" [] in
  let? _ := knownUnique SecurityCapabilities [] (cm_RequiredCapabilities c)
    "unknown required capability %q" "duplicate required capability %q" in
  fail? negb (mem (cp_CarrierFamily carrier) (cm_SupportedCarrierFamilies c))
    with Errorf "profile carrier family missing from compatibility metadata" [] in
  let? _ := forRange (cm_SupportedCarrierFamilies c) (fun family =>
      fail? negb (mem family CarrierFamilies) with Errorf "unknown compatibility carrier family %q" [AStr family] in
      Ok tt) in
  fail? (cm_MaxEnvelopeBytes c <=? 0) || (lim_MaxFrameBytes limits <? cm_MaxEnvelopeBytes c)
    with Errorf "invalid compatibility envelope limit" [] in
  fail? (cm_MaxStreamCount c <=? 0)
      || (cm_MaxStreamCount c <? sp_MaxConcurrentStreams stream) || (16 <? cm_MaxStreamCount c)
    with Errorf "invalid compatibility stream count" [] in
  fail? (cm_MaxReplayWindow c <=? 1) || (cm_MaxReplayWindow c <? sec_ReplayWindowSize sec)
      || (4096 <? cm_MaxReplayWindow c)
    with Errorf "invalid compatibility replay window" [] in
  Ok tt.

Definition validatePadding (p : PaddingPolicy) : result verror unit :=
  fail? negb (mem (pp_Mode p) ["none"; "bounded"; "probabilistic"; "fixed"; "inter_frame"])
    with Errorf "invalid padding mode" [] in
  fail? (pp_MinPaddingBytes p <? 0) || (pp_MaxPaddingBytes p <? pp_MinPaddingBytes p)
    with Errorf "invalid padding bounds" [] in
  fail? bool_decide (pp_Mode p = "none") && (negb (pp_MinPaddingBytes p =? 0)
      || negb (pp_MaxPaddingBytes p =? 0) || negb (SFeqb (pp_Probability p) f64_zero))
    with Errorf "no-padding policy must have zero bounds and probability" [] in
  fail? SFltb (pp_Probability p) f64_zero || SFltb f64_one (pp_Probability p)
    with Errorf "invalid padding probability" [] in
  Ok tt.

Definition validateInvalidInput (p : InvalidInputPolicy) : result verror unit :=
  fail? negb (mem (ii_UnknownFirstMessage p) ["silent_close"; "delayed_close";
      "generated_decoy_response"; "ordinary_error_shaped_response"])
    with Errorf "invalid unknown-first-message behavior" [] in
  fail? negb (mem (ii_MalformedFrame p) ["close"; "ignore"; "delayed_close";
      "generated_malformed_response"])
    with Errorf "invalid malformed-frame behavior" [] in
  fail? negb (mem (ii_FailedAuth p) ["close"; "delayed_close"; "decoy_path";
      "fixed_local_only_rejection"])
    with Errorf "invalid failed-auth behavior" [] in
  fail? negb (mem (ii_Replay p) ["close"; "delayed_close"; "reject_nonce";
      "ordinary_error_shaped_response"])
    with Errorf "invalid replay behavior" [] in
  fail? (ii_DelayMsMin p <? 0) || (ii_DelayMsMax p <? ii_DelayMsMin p)
    with Errorf "invalid invalid-input delay bounds" [] in
  Ok tt.

(** ** The whole profile *)

Definition Validate `{Encoding} (profile : option Profile) : result verror unit :=
  match profile with
  | None => Err (Errorf "profile is nil" [])
  | Some p =>
      fail? bool_decide (pf_Version p = "") with Errorf "version is required" [] in
      fail? negb (bool_decide (pf_Version p = SupportedVersion))
        with Errorf "unsupported version %q" [AStr (pf_Version p)] in
      let? _ := validateSupportedVersionTupleV1 p in
      fail? bool_decide (pf_ID p = "") with Errorf "profile id is required" [] in
      fail? negb (bool_decide (cs_Type (pf_Carrier p) = "lab_tcp"))
        with Errorf "carrier must be lab_tcp" [] in
      let? _ := (if bool_decide (pf_GenerationHash p = "") then Ok tt
                 else let? got := map_err (fun e => Errorf e []) (CanonicalHash p) in
                      reject (negb (bool_decide (got = pf_GenerationHash p)))
                        (Errorf "generation hash mismatch" [])) in
      let? _ := validateLimits p in
      let? _ := validateStates p in
      let? _ := validateMessages p in
      let? _ := validateFrameGrammar p in
      let? _ := validateScheduler (pf_Scheduler p) in
      let? _ := validateStreamPolicy (pf_Stream p) (pf_Limits p) in
      let? _ := validateProxySemanticsPolicy (pf_ProxySemantics p) (pf_Limits p) (pf_Messages p) in
      let? _ := validateCarrierPolicy (pf_CarrierPolicy p) (pf_Limits p) in
      let? _ := validateWireShapePolicy (pf_WireShape p) in
      let? _ := validateAdapterPolicy (pf_AdapterPolicy p) (pf_Stream p) (pf_Limits p) in
      let? _ := validateSecurityPolicy (pf_Security p) in
      let? _ := validateCompatibility (pf_Compatibility p) (pf_Security p) (pf_Stream p)
                  (pf_CarrierPolicy p) (pf_Limits p) in
      let? _ := validatePadding (pf_Padding p) in
      let? _ := validateInvalidInput (pf_InvalidInput p) in
      fail? negb (bool_decide (au_Mode (pf_Auth p) = "hmac-sha256-transcript-test-only"))
        with Errorf "unsupported auth mode %q" [AStr (au_Mode (pf_Auth p))] in
      fail? bool_decide (au_TestKeyHex (pf_Auth p) = "") || (au_NonceBytes (pf_Auth p) <? 8)
          || bool_decide (au_ProofMessage (pf_Auth p) = "")
        with Errorf "auth key, nonce size, and proof message are required" [] in
      Ok tt
  end.

(** ** The effective security policy *)

(** [sort.Strings]: byte order; equal strings are indistinguishable, so the
    sorted list is unique. *)
Definition sortStrings (l : list string) : list string := merge_sort String.le l.

(** The pass over the sorted list; [prev] is [out[i-1]], absent at [i = 0]. *)
Fixpoint checkCanonical (prev : option string) (l : list string) : result verror unit :=
  match l with
  | [] => Ok tt
  | c :: rest =>
      fail? bool_decide (c = "") || negb (mem c SecurityCapabilities)
        with Errorf "effective security policy: unknown capability" [] in
      fail? bool_decide (prev = Some c)
        with Errorf "effective security policy: duplicate capability" [] in
      checkCanonical (Some c) rest
  end.

Definition canonicalEffectiveCapabilities (values : list string) : result verror (list string) :=
  let out := sortStrings values in
  let? _ := checkCanonical None out in
  Ok out.

Definition zeroHash : bytes := replicate 32 Byte.x00.

(** The encoder skips the private field: it sees the policy without it. *)
Definition exportedFields (p : EffectiveSecurityPolicy) : EffectiveSecurityPolicy :=
  mkEffectiveSecurityPolicy (eff_ProfileID p) (eff_ProfileHash p) (eff_SchemaVersion p)
    (eff_CompilerSecurityVersion p) (eff_MinimumRuntimeVersion p) (eff_SecurityVersion p)
    (eff_TranscriptMode p) (eff_KDFSuite p) (eff_AEADSuite p) (eff_MACSuite p) (eff_NonceMode p)
    (eff_ReplayPolicy p) (eff_ReplayWindowSize p) (eff_DowngradePolicy p)
    (eff_CapabilityNegotiationPolicy p) (eff_ProfileCompatibilityPolicy p)
    (eff_KeyRotationPolicy p) (eff_ConfigValidationPolicy p) (eff_SecureEnvelopeMode p)
    (eff_MaxSessionMessages p) (eff_MaxKeyLifetimeMessages p) (eff_ClientMandatoryCapabilities p)
    (eff_ServerMandatoryCapabilities p) (eff_SelectedCapabilities p) zeroHash.

Definition effectivePolicyHash `{Encoding} (policy : EffectiveSecurityPolicy)
    : result string bytes :=
  let? raw := marshalEffective (exportedFields policy) in Ok (sum256 raw).

Definition hexValue (b : Byte.byte) : option Z :=
  let n := bz b in
  if (48 <=? n) && (n <=? 57) then Some (n - 48)
  else if (97 <=? n) && (n <=? 102) then Some (n - 87)
  else if (65 <=? n) && (n <=? 70) then Some (n - 55)
  else None.

(** [hex.DecodeString]. *)
Fixpoint decodeHex (b : bytes) : option bytes :=
  match b with
  | [] => Some []
  | h :: l :: rest =>
      x ← hexValue h; y ← hexValue l; r ← decodeHex rest; Some (zb (16 * x + y) :: r)
  | _ => None
  end.

Definition securityPolicyOf (policy : EffectiveSecurityPolicy) : SecurityPolicy :=
  mkSecurityPolicy (eff_SecurityVersion policy) (eff_TranscriptMode policy) (eff_KDFSuite policy)
    (eff_AEADSuite policy) (eff_MACSuite policy) (eff_NonceMode policy) (eff_ReplayPolicy policy)
    (eff_ReplayWindowSize policy) (eff_DowngradePolicy policy)
    (eff_CapabilityNegotiationPolicy policy) (eff_ProfileCompatibilityPolicy policy)
    (eff_KeyRotationPolicy policy) (eff_ConfigValidationPolicy policy)
    (eff_SecureEnvelopeMode policy) (eff_MaxSessionMessages policy)
    (eff_MaxKeyLifetimeMessages policy).

(** Every capability of both floors is selected. *)
Definition floorsSelected (client server selection : list string) (e : verror)
    : result verror unit :=
  forRange [client; server] (fun floor =>
    forRange floor (fun capability => reject (negb (mem capability selection)) e)).

Definition ValidateEffectiveSecurityPolicy `{Encoding} (policy : EffectiveSecurityPolicy)
    : result verror unit :=
  fail? bool_decide (eff_ProfileID policy = "")
      || negb (bool_decide (eff_SchemaVersion policy = SupportedVersion))
      || bool_decide (eff_CompilerSecurityVersion policy = "")
      || bool_decide (eff_MinimumRuntimeVersion policy = "")
    with Errorf "invalid effective security policy identity" [] in
  let? profileHash := match decodeHex (sbytes (eff_ProfileHash policy)) with
                      | Some h => Ok h
                      | None => Err (Errorf "invalid effective security policy profile hash" [])
                      end in
  fail? negb (zlen profileHash =? 32)
    with Errorf "invalid effective security policy profile hash" [] in
  fail? foldl (fun nonzero value => Z.lor nonzero (bz value)) 0 profileHash =? 0
    with Errorf "invalid effective security policy profile hash" [] in
  let? _ := map_err (Wrapf "invalid effective security policy: %w")
              (validateSecurityPolicy (securityPolicyOf policy)) in
  let? _ := forRange [eff_ClientMandatoryCapabilities policy; eff_ServerMandatoryCapabilities policy;
                      eff_SelectedCapabilities policy] (fun values =>
      match canonicalEffectiveCapabilities values with
      | Err _ => Err (Errorf "invalid effective security policy capabilities" [])
      | Ok canonical =>
          reject ((zlen canonical =? 0) || negb (bool_decide (values = canonical)))
            (Errorf "invalid effective security policy capabilities" [])
      end) in
  let? _ := floorsSelected (eff_ClientMandatoryCapabilities policy)
              (eff_ServerMandatoryCapabilities policy) (eff_SelectedCapabilities policy)
              (Errorf "invalid effective security policy floor" []) in
  match effectivePolicyHash policy with
  | Err _ => Err (Errorf "invalid or mutated effective security policy" [])
  | Ok want => reject (negb (bool_decide (eff_validationHash policy = want)))
                 (Errorf "invalid or mutated effective security policy" [])
  end.

(** The policy of a profile before its validation hash is computed: the private
    field still holds its zero value. *)
Definition effectiveOf (p : Profile) (profileHash : string) (client server selection : list string)
    (validationHash : bytes) : EffectiveSecurityPolicy :=
  let c := pf_Compatibility p in
  let s := pf_Security p in
  mkEffectiveSecurityPolicy (pf_ID p) profileHash (cm_SchemaVersion c)
    (cm_CompilerSecurityVersion c) (cm_MinimumRuntimeVersion c)
    (sec_SecurityVersion s) (sec_TranscriptMode s) (sec_KDFSuite s) (sec_AEADSuite s)
    (sec_MACSuite s) (sec_NonceMode s) (sec_ReplayPolicy s) (sec_ReplayWindowSize s)
    (sec_DowngradePolicy s) (sec_CapabilityNegotiationPolicy s)
    (sec_ProfileCompatibilityPolicy s) (sec_KeyRotationPolicy s) (sec_ConfigValidationPolicy s)
    (sec_SecureEnvelopeMode s) (sec_MaxSessionMessages s) (sec_MaxKeyLifetimeMessages s)
    client server selection validationHash.

Definition BuildEffectiveSecurityPolicy `{Encoding} (profile : option Profile)
    (clientFloor serverFloor selected : list string) : result verror EffectiveSecurityPolicy :=
  let? _ := map_err (Wrapf "effective security policy: %w") (Validate profile) in
  let? client := canonicalEffectiveCapabilities clientFloor in
  let? server := canonicalEffectiveCapabilities serverFloor in
  let? selection := canonicalEffectiveCapabilities selected in
  fail? (zlen client =? 0) || (zlen server =? 0) || (zlen selection =? 0)
    with Errorf "effective security policy: empty mandatory floor or selection" [] in
  let? _ := floorsSelected client server selection
              (Errorf "effective security policy: selection below mandatory floor" []) in
  match profile with
  | None => Err (Errorf "nil profile" [])
  | Some p =>
      let? profileHash := map_err (fun e => Errorf e []) (CanonicalHash p) in
      let? validationHash := map_err (fun e => Errorf e [])
        (effectivePolicyHash (effectiveOf p profileHash client server selection zeroHash)) in
      let policy := effectiveOf p profileHash client server selection validationHash in
      let? _ := ValidateEffectiveSecurityPolicy policy in
      Ok policy
  end.

(** ** Reachability *)

Definition edge (edges : gmap string (list string)) (x y : string) : Prop := y ∈ edgesOf edges x.

(** What one expansion does: new successors are queued once, and every queued
    state leaves the pool of unseen states. *)
Lemma enqueue_spec nexts q s q' s' : enqueue nexts q s = (q', s') ->
  exists new, q' = q ++ new /\ (forall x, x ∈ s' <-> x ∈ s \/ x ∈ nexts) /\
    (forall x, x ∈ new -> x ∈ nexts) /\ (forall x, x ∈ s' -> x ∈ s \/ x ∈ new) /\
    forall T : gset string, (forall x, x ∈ nexts -> x ∈ T) ->
      (length new + size (T ∖ s') = size (T ∖ s))%nat.
Proof.
  revert q s. induction nexts as [|n nexts IH]; intros q s; simpl.
  { intros [= <- <-]. exists []. rewrite app_nil_r. split; [done|]. split; [set_solver|].
    split; [set_solver|]. split; [tauto|]. done. }
  case_bool_decide as Hn; intros H; destruct (IH _ _ H) as (new & -> & H1 & H2 & H3 & H4).
  - exists new. split; [done|]. split; [set_solver|]. split; [set_solver|].
    split; [done|]. intros T HT. apply H4. set_solver.
  - exists (n :: new). rewrite <- app_assoc. split; [done|]. split; [set_solver|].
    split; [set_solver|]. split; [set_solver|]. intros T HT. simpl.
    specialize (H4 T ltac:(set_solver)).
    assert (T ∖ s = {[n]} ∪ T ∖ ({[n]} ∪ s)) as ->.
    { apply set_eq. intros x. destruct (decide (x = n)); set_solver. }
    assert (Hd : {[n]} ## T ∖ ({[n]} ∪ s)) by set_solver.
    pose proof (size_union {[n]} (T ∖ ({[n]} ∪ s)) Hd) as Hu.
    rewrite size_singleton in Hu. lia.
Qed.

Lemma targets_spec edges x y : edge edges x y -> y ∈ targets edges.
Proof.
  unfold edge, edgesOf, targets. destruct (edges !! x) as [l|] eqn:E; simpl; [|set_solver].
  intros Hy. apply elem_of_list_to_set, list_elem_of_In, in_concat. exists l. split; [|by apply list_elem_of_In].
  apply list_elem_of_In, list_elem_of_fmap. exists (x, l). split; [done|]. by apply elem_of_map_to_list.
Qed.

Lemma bfs_sound fuel edges start want q s :
  (forall x, x ∈ q -> rtc (edge edges) start x) ->
  bfs fuel edges want q s = Some true -> rtc (edge edges) start want.
Proof.
  revert q s. induction fuel as [|fuel IH]; intros q s Hq; simpl; [done|].
  destruct q as [|cur q]; [done|]. case_bool_decide as Hc.
  { intros _. subst. apply Hq. set_solver. }
  destruct (enqueue (edgesOf edges cur) q s) as [q' s'] eqn:E.
  destruct (enqueue_spec _ _ _ _ _ E) as (new & -> & _ & H2 & _).
  apply IH. intros x [Hx|Hx]%elem_of_app; [apply Hq; set_solver|].
  eapply rtc_r; [apply Hq; by left|]. by apply H2.
Qed.

Lemma bfs_complete fuel edges start want q s : start ∈ s ->
  (forall x, x ∈ s -> x ∈ q \/ x <> want /\ forall y, edge edges x y -> y ∈ s) ->
  bfs fuel edges want q s = Some false -> ~ rtc (edge edges) start want.
Proof.
  revert q s. induction fuel as [|fuel IH]; intros q s Hs Hinv; simpl; [done|].
  destruct q as [|cur q].
  { intros _ Hr. assert (want ∈ s) as Hw.
    { clear IH fuel. induction Hr as [|x y z Hxy Hyz IHr]; [done|].
      apply IHr; [|done]. destruct (Hinv x Hs) as [Hn|[_ Hc]]; [by apply elem_of_nil in Hn|].
      by apply Hc. }
    destruct (Hinv want Hw) as [Hn|[Hn _]]; [by apply elem_of_nil in Hn|done]. }
  case_bool_decide as Hc; [done|].
  destruct (enqueue (edgesOf edges cur) q s) as [q' s'] eqn:E.
  destruct (enqueue_spec _ _ _ _ _ E) as (new & -> & H1 & H2 & H3 & _).
  apply IH; [by apply H1; left|]. intros x Hx.
  destruct (H3 x Hx) as [Hin|Hin]; [|set_solver].
  destruct (Hinv x Hin) as [[->|Hq]%elem_of_cons|[Hne Hcl]]; [|set_solver|].
  - right. split; [done|]. intros y Hy. apply H1. by right.
  - right. split; [done|]. intros y Hy. apply H1. left. by apply Hcl.
Qed.

Lemma bfs_terminates fuel edges want q s :
  (length q + size (targets edges ∖ s) < fuel)%nat -> is_Some (bfs fuel edges want q s).
Proof.
  revert q s. induction fuel as [|fuel IH]; intros q s Hf; [lia|]. simpl.
  destruct q as [|cur q]; [done|]. case_bool_decide; [done|].
  destruct (enqueue (edgesOf edges cur) q s) as [q' s'] eqn:E.
  destruct (enqueue_spec _ _ _ _ _ E) as (new & -> & _ & _ & _ & H4).
  apply IH. specialize (H4 (targets edges)). rewrite length_app. simpl in Hf.
  rewrite <- H4 in Hf by (intros x; apply targets_spec). lia.
Qed.

Lemma reachable_fuel edges start want :
  is_Some (bfs (2 + size (targets edges)) edges want [start] {[start]}).
Proof.
  apply bfs_terminates. simpl.
  pose proof (subseteq_size (targets edges ∖ {[start]}) (targets edges) ltac:(set_solver)). lia.
Qed.

Lemma reachable_iff edges start want :
  reachable edges start want = true <-> rtc (edge edges) start want.
Proof.
  unfold reachable. destruct (reachable_fuel edges start want) as [b Hb]. rewrite Hb. simpl. destruct b.
  - split; [intros _|done]. eapply bfs_sound; [|exact Hb].
    intros x ->%list_elem_of_singleton. constructor.
  - split; [done|]. intros Hr. exfalso. revert Hr. eapply bfs_complete; [| |exact Hb]; set_solver.
Qed.

(** C18: The breadth-first search that decides whether the relay-ready state can
    be reached always terminates and is exact: it answers yes precisely when
    there is a path of transitions. *)
Theorem reachable_correct edges start want :
  is_Some (bfs (2 + size (targets edges)) edges want [start] {[start]}) /\
  (reachable edges start want = true <-> rtc (edge edges) start want).
Proof.
  split; [apply reachable_fuel | apply reachable_iff].
Qed.

(** ** What a validated profile guarantees *)

(** The checks of [Validate], one by one. *)
Record validated `{Encoding} (p : Profile) : Prop := {
  v_versions : validateSupportedVersionTupleV1 p = Ok tt;
  v_limits : validateLimits p = Ok tt;
  v_states : validateStates p = Ok tt;
  v_messages : validateMessages p = Ok tt;
  v_grammar : validateFrameGrammar p = Ok tt;
  v_scheduler : validateScheduler (pf_Scheduler p) = Ok tt;
  v_stream : validateStreamPolicy (pf_Stream p) (pf_Limits p) = Ok tt;
  v_proxy : validateProxySemanticsPolicy (pf_ProxySemantics p) (pf_Limits p) (pf_Messages p) = Ok tt;
  v_carrier : validateCarrierPolicy (pf_CarrierPolicy p) (pf_Limits p) = Ok tt;
  v_security : validateSecurityPolicy (pf_Security p) = Ok tt;
  v_compat : validateCompatibility (pf_Compatibility p) (pf_Security p) (pf_Stream p)
               (pf_CarrierPolicy p) (pf_Limits p) = Ok tt;
  v_padding : validatePadding (pf_Padding p) = Ok tt;
  v_nonce : 8 <= au_NonceBytes (pf_Auth p);
}.

Lemma Validate_validated `{Encoding} p : Validate (Some p) = Ok tt -> validated p.
Proof.
  unfold Validate. intros H0. go_inv H0. repeat match goal with x : unit |- _ => destruct x end.
  constructor; try done.
  match goal with G : bool_decide (au_TestKeyHex _ = _) || _ || _ = false |- _ =>
    apply orb_false_iff in G as [[_ G%Z.ltb_ge]%orb_false_iff _]; exact G end.
Qed.

Lemma scanStates_ok l roles t roles' t' : scanStates l roles t = Ok (roles', t') ->
  (forall x, is_Some (roles' !! x) <-> is_Some (roles !! x) \/ x ∈ st_ID <$> l) /\
  NoDup (st_ID <$> l) /\ (forall x, x ∈ st_ID <$> l -> roles !! x = None) /\
  t' = t || existsb st_Terminal l.
Proof.
  revert roles t. induction l as [|st l IH]; intros roles t Hs.
  { injection Hs as <- <-. simpl. split; [set_solver|]. split; [constructor|].
    split; [set_solver|]. by rewrite orb_false_r. }
  cbn [scanStates] in Hs. go_inv Hs. apply IH in Hs as (H1 & H2 & H3 & H4).
  apply bool_decide_eq_false, eq_None_not_Some in G1. rewrite fmap_cons. split; [|split; [|split]].
  - intros x. rewrite H1, elem_of_cons, lookup_insert_is_Some. destruct (decide (st_ID st = x)); naive_solver.
  - apply NoDup_cons_2; [|done]. intros Hin. apply H3 in Hin. by rewrite lookup_insert_eq in Hin.
  - intros x [->|Hin]%elem_of_cons; [done|]. apply H3 in Hin.
    apply lookup_insert_None in Hin. tauto.
  - rewrite H4. simpl. by rewrite orb_assoc.
Qed.

Lemma edge_insert edges x z a b :
  edge (<[x := edgesOf edges x ++ [z]]> edges) a b <-> edge edges a b \/ (a = x /\ b = z).
Proof.
  unfold edge, edgesOf. destruct (decide (x = a)) as [->|Hne].
  - rewrite lookup_insert_eq. simpl. rewrite elem_of_app, list_elem_of_singleton. tauto.
  - rewrite lookup_insert_ne by done. naive_solver.
Qed.

Definition takes (p : Profile) (x y : string) : Prop :=
  exists tr, tr ∈ pf_Transitions p /\ tr_From tr = x /\ tr_To tr = y.

Lemma scanTransitions_ok roles l e c s e' c' s' :
  scanTransitions roles l e c s = Ok (e', c', s') ->
  Forall (fun tr => is_Some (roles !! tr_From tr) /\ is_Some (roles !! tr_To tr)) l /\
  (forall x y, edge e' x y <-> edge e x y \/ exists tr, tr ∈ l /\ tr_From tr = x /\ tr_To tr = y) /\
  (c' = true -> c = true \/ exists tr, tr ∈ l /\ tr_Role tr = RoleClient) /\
  (s' = true -> s = true \/ exists tr, tr ∈ l /\ tr_Role tr = RoleServer).
Proof.
  revert e c s. induction l as [|tr l IH]; intros e c s Hs.
  { injection Hs as <- <- <-. split; [constructor|]. set_solver. }
  cbn [scanTransitions] in Hs. go_inv Hs. apply IH in Hs as (H1 & H2 & H3 & H4).
  apply bool_decide_eq_false in G, G0. split; [|split; [|split]].
  - constructor; [|done]. by rewrite <- !not_eq_None_Some.
  - intros x y. rewrite H2, edge_insert. setoid_rewrite elem_of_cons. naive_solver.
  - intros Hc. apply H3 in Hc as [[Hc|Hc%bool_decide_eq_true]%orb_true_iff|Hc];
      setoid_rewrite elem_of_cons; naive_solver.
  - intros Hc. apply H4 in Hc as [[Hc|Hc%bool_decide_eq_true]%orb_true_iff|Hc];
      setoid_rewrite elem_of_cons; naive_solver.
Qed.

(** A validated profile has a usable handshake state machine: its state ids
    are distinct, both ends of every transition are declared states, client
    and server both move, a terminal state exists, some path of transitions
    leads from the start state to the relay-ready state, and first contact
    opens with a client step long enough to carry the nonce. *)
Theorem Validate_state_machine `{Encoding} p : Validate (Some p) = Ok tt ->
  let ids := st_ID <$> pf_States p in
  NoDup ids /\
  Forall (fun tr => tr_From tr ∈ ids /\ tr_To tr ∈ ids) (pf_Transitions p) /\
  (exists tr, tr ∈ pf_Transitions p /\ tr_Role tr = RoleClient) /\
  (exists tr, tr ∈ pf_Transitions p /\ tr_Role tr = RoleServer) /\
  (exists st, st ∈ pf_States p /\ st_Terminal st = true) /\
  rtc (takes p) (fc_StartState (pf_FirstContact p)) (fc_RelayReadyState (pf_FirstContact p)) /\
  exists first rest, fc_Steps (pf_FirstContact p) = first :: rest /\
    fs_Role first = RoleClient /\ 8 <= au_NonceBytes (pf_Auth p) <= fs_PayloadSize first.
Proof.
  intros HV ids. apply Validate_validated in HV as [_ _ HS _ _ _ _ _ _ _ _ _ HN].
  unfold validateStates in HS. apply rbind_ok in HS as ([roles term] & E & HS).
  apply scanStates_ok in E as (R1 & R2 & _ & R4).
  go_inv HS. destruct x as [[edges sc] ss]. go_inv HS.
  apply scanTransitions_ok in E as (T1 & T2 & T3 & T4).
  apply negb_false_iff in G1, G4. apply orb_false_iff in G3 as [?%negb_false_iff ?%negb_false_iff].
  subst sc ss.
  assert (Hid : forall x, is_Some (roles !! x) -> x ∈ ids).
  { intros y Hy. apply R1 in Hy as [Hy|Hy]; [|done]. rewrite lookup_empty in Hy. by destruct Hy. }
  split; [done|]. split; [eapply Forall_impl; [exact T1|]; intros tr [? ?]; auto|].
  split; [by destruct (T3 eq_refl)|]. split; [by destruct (T4 eq_refl)|]. split.
  { rewrite R4 in G1. apply existsb_exists in G1 as (st & Hst & Ht).
    exists st. by rewrite list_elem_of_In. }
  split.
  { apply reachable_iff in G4. eapply rtc_subrel; [|exact G4]. intros y z Hxy. apply T2 in Hxy as [Hxy|Hxy]; [|done].
    unfold edge, edgesOf in Hxy. rewrite lookup_empty in Hxy. by apply elem_of_nil in Hxy. }
  destruct (fc_Steps (pf_FirstContact p)) as [|first rest]; [done|]. exists first, rest.
  apply reject_bind_ok in HS as [C1%negb_false_iff%bool_decide_eq_true HS].
  apply reject_bind_ok in HS as [C2%Z.ltb_ge _]. done.
Qed.

(** ** Messages *)

Lemma scanMessages_ok m l w s w' s' : scanMessages m l w s = Ok (w', s') ->
  (forall x, is_Some (w' !! x) <-> is_Some (w !! x) \/ x ∈ ms_WireSymbol <$> l) /\
  (forall x, x ∈ ms_WireSymbol <$> l -> w !! x = None) /\
  NoDup (ms_WireSymbol <$> l) /\
  (forall x, x ∈ s' <-> x ∈ s \/ x ∈ ms_Semantic <$> l) /\
  Forall (fun msg => Forall (fun f => Contains (ToUpper (ms_WireSymbol msg)) f = false)
                       forbiddenWireConstants) l.
Proof.
  revert w s. induction l as [|msg l IH]; intros w s Hs.
  { injection Hs as <- <-. split; [set_solver|]. split; [set_solver|]. split; [constructor|].
    split; [set_solver|constructor]. }
  cbn [scanMessages] in Hs. go_inv Hs. apply forRange_ok in E.
  destruct (w !! ms_WireSymbol msg) eqn:Ew; [done|].
  apply IH in Hs as (H1 & H2 & H3 & H4 & H5). rewrite !fmap_cons. split; [|split; [|split; [|split]]].
  - intros y. rewrite H1, elem_of_cons, lookup_insert_is_Some.
    destruct (decide (ms_WireSymbol msg = y)); naive_solver.
  - intros y [->|Hin]%elem_of_cons; [done|]. apply H2, lookup_insert_None in Hin. tauto.
  - apply NoDup_cons_2; [|done]. intros Hin. apply H2 in Hin. by rewrite lookup_insert_eq in Hin.
  - intros y. rewrite H4. set_solver.
  - constructor; [|done]. eapply Forall_impl; [exact E|]. by intros f Hf%reject_ok.
Qed.

Lemma list_find_unique {A B} `{EqDecision B} (f : A -> B) l x :
  NoDup (f <$> l) -> x ∈ l -> snd <$> list_find (fun y => f y = f x) l = Some x.
Proof.
  induction l as [|y l IH]; [intros _ []%elem_of_nil|]. rewrite fmap_cons.
  intros [Hn Hd]%NoDup_cons Hx. simpl. destruct (decide (f y = f x)) as [E|E].
  - apply elem_of_cons in Hx as [->|Hx]; [done|]. exfalso. apply Hn. rewrite E.
    by apply list_elem_of_fmap_2.
  - apply elem_of_cons in Hx as [->|Hx]; [done|]. specialize (IH Hd Hx).
    destruct (list_find (fun y => f y = f x) l) as [[i z]|]; [|done]. done.
Qed.

Lemma list_find_absent {A B} `{EqDecision B} (f : A -> B) l b :
  b ∉ f <$> l -> list_find (fun y => f y = b) l = None.
Proof. intros Hb. apply list_find_None, Forall_forall. intros y Hy <-. apply Hb. by apply list_elem_of_fmap_2. Qed.

(** In a validated profile the wire symbols are an unambiguous code: looking
    up the wire symbol of a message gives that message back, every relay
    semantic has a message and every proxy semantic exactly one, no
    first-contact symbol is mistaken for a frame symbol, and no symbol spells a
    forbidden protocol constant in any letter case. *)
Theorem Validate_messages_unambiguous `{Encoding} p : Validate (Some p) = Ok tt ->
  (forall msg, msg ∈ pf_Messages p -> MessageByWireSymbol p (ms_WireSymbol msg) = Some msg) /\
  (forall semantic, semantic ∈ RelaySemantics -> is_Some (MessageBySemantic p semantic)) /\
  (forall semantic, semantic ∈ ProxySemantics ->
     zlen (filter (fun msg => ms_Semantic msg = semantic) (pf_Messages p)) = 1) /\
  (forall step, step ∈ fc_Steps (pf_FirstContact p) ->
     MessageByWireSymbol p (fs_WireSymbol step) = None) /\
  Forall (fun msg => Forall (fun f => Contains (ToUpper (ms_WireSymbol msg)) f = false)
                       forbiddenWireConstants) (pf_Messages p).
Proof.
  intros HV. apply Validate_validated in HV as [_ _ _ HM _ _ _ HP _ _ _ _ _].
  unfold validateMessages in HM. apply rbind_ok in HM as ([w s] & E & HM).
  apply scanMessages_ok in E as (W1 & _ & W3 & S1 & F). apply rbind_ok in HM as (u & HR & HM).
  apply forRange_ok in HR. rewrite Forall_forall in HR.
  apply forRange_ok in HM. rewrite Forall_forall in HM.
  split; [|split; [|split; [|split]]].
  - intros msg Hin. by apply list_find_unique.
  - intros sem Hin. apply HR, reject_ok, negb_false_iff, bool_decide_eq_true, S1 in Hin.
    destruct Hin as [[]%elem_of_empty|Hin]. apply list_elem_of_fmap in Hin as (msg & -> & Hin).
    unfold MessageBySemantic. apply fmap_is_Some. by eapply list_find_elem_of.
  - unfold validateProxySemanticsPolicy in HP. go_inv HP. clear HP.
    match goal with E : forRange ProxySemantics _ = Ok _ |- _ => apply forRange_ok in E; rename E into HQ end.
    rewrite Forall_forall in HQ. intros sem Hin. specialize (HQ sem Hin). cbv zeta in HQ. go_inv HQ.
    match goal with G : negb (_ =? 1) = false |- _ => by apply negb_false_iff, Z.eqb_eq in G end.
  - intros step Hin. apply HM, reject_ok, bool_decide_eq_false in Hin.
    unfold MessageByWireSymbol. rewrite list_find_absent; [done|]. intros Hx. apply Hin, W1. by right.
  - done.
Qed.

(** ** Capability lists *)

Lemma checkCanonical_ok prev l : StronglySorted String.le (option_list prev ++ l) ->
  checkCanonical prev l = Ok tt <->
  Forall (fun c => c ∈ SecurityCapabilities) l /\ NoDup l /\ (forall c, prev = Some c -> c ∉ l).
Proof.
  revert prev. induction l as [|c l IH]; intros prev Hs; simpl.
  { split; [|done]. intros _. split; [constructor|]. split; [constructor|]. set_solver. }
  assert (Hs' : StronglySorted String.le (option_list (Some c) ++ l)).
  { destruct prev; [by inversion Hs|done]. }
  specialize (IH (Some c) Hs'). rewrite !reject_bind_ok, IH, orb_false_iff, negb_false_iff, mem_true.
  rewrite !bool_decide_eq_false, Forall_cons, NoDup_cons. split.
  - intros ((_ & Hk) & Hp & Hf & Hd & Hc). specialize (Hc c eq_refl).
    split; [done|]. split; [done|]. intros q -> [->|Hin]%elem_of_cons; [done|].
    apply Hp. f_equal. inversion Hs as [|? ? Hs1 Hf1]; subst.
    apply Forall_cons_1 in Hf1 as [Hqc _]. inversion Hs' as [|? ? _ Hf2]; subst.
    rewrite Forall_forall in Hf2. by apply (anti_symm String.le); [|apply Hf2].
  - intros ((Hk & Hf) & (Hc & Hd) & Hp). split; [split; [|done]|].
    + intros ->. unfold SecurityCapabilities in Hk. set_solver.
    + split; [intros ->; apply (Hp c eq_refl); by left|]. split; [done|]. split; [done|].
      by intros q [= <-].
Qed.

Lemma canonical_spec values out : canonicalEffectiveCapabilities values = Ok out <->
  out = sortStrings values /\ Forall (fun c => c ∈ SecurityCapabilities) values /\ NoDup values.
Proof.
  unfold canonicalEffectiveCapabilities.
  pose proof (StronglySorted_merge_sort String.le values) as Hs.
  pose proof (merge_sort_Permutation String.le values) as Hp. fold (sortStrings values) in *.
  rewrite rbind_ok. split.
  - intros ([] & Hc & [= <-]). apply (checkCanonical_ok None) in Hc as (Hf & Hd & _); [|done].
    split; [done|]. by rewrite <- Hp.
  - intros (-> & Hf & Hd). exists tt. split; [|done].
    apply (checkCanonical_ok None); [done|]. by rewrite Hp.
Qed.

#[export] Instance sortStrings_proper : Proper (Permutation ==> eq) sortStrings.
Proof.
  intros a b Hab. apply (Sorted_unique String.le); try apply Sorted_merge_sort; try apply _.
  unfold sortStrings. by rewrite !merge_sort_Permutation.
Qed.

(** Canonical capability lists: a list is accepted exactly when it holds
    known capabilities without repetition; the result is the same for every
    order of the input, is a permutation of it, is sorted, and is a fixed point
    of canonicalisation. *)
Theorem canonical_capabilities values :
  (isOk (canonicalEffectiveCapabilities values) = true <->
     Forall (fun c => c ∈ SecurityCapabilities) values /\ NoDup values) /\
  forall out, canonicalEffectiveCapabilities values = Ok out ->
    Permutation out values /\ Sorted String.le out /\
    canonicalEffectiveCapabilities out = Ok out /\
    forall other, Permutation other values -> canonicalEffectiveCapabilities other = Ok out.
Proof.
  split.
  - split.
    + destruct (canonicalEffectiveCapabilities values) as [out|] eqn:E; [|done].
      intros _. by apply canonical_spec in E as (_ & ?).
    + intros [Hf Hd]. by rewrite (proj2 (canonical_spec values _) (conj eq_refl (conj Hf Hd))).
  - intros out [-> [Hf Hd]]%canonical_spec.
    pose proof (merge_sort_Permutation String.le values) as Hp. fold (sortStrings values) in Hp.
    split; [done|]. split; [apply Sorted_merge_sort, _|]. split.
    + apply canonical_spec. split; [symmetry; by apply sortStrings_proper|]. by rewrite Hp.
    + intros other Ho. apply canonical_spec. by rewrite Ho.
Qed.

Lemma floorsSelected_ok c s sel e : floorsSelected c s sel e = Ok tt -> c ⊆ sel /\ s ⊆ sel.
Proof.
  unfold floorsSelected. intros Hf%forRange_ok. apply Forall_cons_1 in Hf as [Hc Hf].
  apply Forall_cons_1 in Hf as [Hs _]. apply forRange_ok in Hc. apply forRange_ok in Hs.
  rewrite Forall_forall in Hc, Hs.
  split; intros x Hx; [apply Hc in Hx|apply Hs in Hx];
    by apply reject_ok, negb_false_iff, mem_true in Hx.
Qed.

(** A built effective policy is sealed and above both floors: it passes its
    own validation, both mandatory floors are contained in the selection, the
    three lists are the canonical forms of what was asked for, and its security
    fields are the ones of the validated profile. *)
Theorem BuildEffective_sound `{Encoding} p cf sf sel policy :
  BuildEffectiveSecurityPolicy (Some p) cf sf sel = Ok policy ->
  Validate (Some p) = Ok tt /\
  ValidateEffectiveSecurityPolicy policy = Ok tt /\
  cf ⊆ sel /\ sf ⊆ sel /\
  Permutation (eff_SelectedCapabilities policy) sel /\
  securityPolicyOf policy = pf_Security p /\
  (exists h, CanonicalHash p = Ok h /\ eff_ProfileHash policy = h).
Proof.
  unfold BuildEffectiveSecurityPolicy. intros HB. go_inv HB.
  injection HB as <-. repeat match goal with u : unit |- _ => destruct u end.
  apply canonical_spec in E0 as (-> & _), E1 as (-> & _), E2 as (-> & _).
  apply floorsSelected_ok in E3 as [Hc Hs].
  assert (Hsub : forall a b, sortStrings a ⊆ sortStrings b -> a ⊆ b).
  { intros a b Hab y Hy. rewrite <- (merge_sort_Permutation String.le b).
    apply Hab. unfold sortStrings. by rewrite (merge_sort_Permutation String.le a). }
  apply map_err_ok in E, E4. split; [done|]. split; [done|]. split; [by apply Hsub|].
  split; [by apply Hsub|]. split; [apply merge_sort_Permutation|].
  split; [unfold securityPolicyOf, effectiveOf; simpl; by destruct (pf_Security p)|].
  eauto.
Qed.

(** ** A concrete profile, for evaluation *)

(** A stand-in for JSON and SHA-256. *)
Definition toyEncoding : Encoding := {|
  marshalProfile := fun _ => Ok [];
  marshalWireShape := fun _ => Ok [];
  marshalEffective := fun _ => Ok [];
  sum256 := fun _ => replicate 32 Byte.x5a;
|}.

Definition toyHash : string := EncodeToString (replicate 32 Byte.x5a).

Definition sampleLimits : SafetyLimits := mkSafetyLimits 65536 1048576 16 16 60000.

Definition sampleMessages : list MessageSymbol :=
  imap (fun i semantic => mkMessageSymbol semantic (String.append "w" (String (ascii_of_nat (97 + i)) ""))
                            "both" 0 65536) RelaySemantics.

Definition sampleStream : StreamPolicy :=
  mkStreamPolicy "sequential_odd_even" "varint" 4 16384 65536 "threshold_update"
    "interactive_first" "explicit_close" "immediate_reset" 16777216.

Definition sampleSecurity : SecurityPolicy :=
  mkSecurityPolicy SupportedSecurityVersion "canonical_v1" "kdf_hkdf_sha256" "aead_aes_256_gcm"
    "mac_hmac_sha256" "directional_counter" "windowed_replay" 64 "strict_capabilities"
    "strict_required" "strict_schema" "session_only" "strict_required" "metadata_authenticated"
    1024 512.

Definition sampleWireShape : WireShapePolicy :=
  mkWireShapePolicy "wiregen-policy-v1" "protocorpus-v1" "policy-1" 1 "length_prefixed" "entry-1"
    (mkWirePhasePlan ["handshake"; "data"] "1rtt" "client_first" true)
    (mkWireFieldLayoutPlan "layout" ["length"; "payload"]
       (<["length" := "cleartext"]> (<["payload" := "encrypted"]> ∅))
       (<["length" := "size_4_8"]> (<["payload" := "size_65_128"]> ∅)) "tail")
    (mkWireFirstFlightPlan "two" "client_first" ["size_33_64"] false)
    (mkWireFirstNPlan 4 "mixed" "mixed" "mixed")
    (mkWireFrameSizePlan "fixed" ["size_65_128"] "low" "none")
    (mkWireFragmentRhythmPlan "steady" ["size_65_128"] false "ordered")
    (mkWireControlPlan "low" 1 "none" "plain" "plain")
    (mkWireMetadataExposurePlan "minimal_visible" [] [] [])
    (mkWireLengthAlonePlan false "none")
    toyHash.

Definition sampleProfile : Profile :=
  mkProfile SupportedVersion "sample" 7 toyHash (mkRolePolicy RoleClient RoleServer)
    (mkCarrierSpec "lab_tcp")
    [mkState "start" RoleClient false; mkState "proof" RoleServer false;
     mkState "ready" RoleShared false; mkState "done" RoleShared true]
    [mkTransition "start" "proof" RoleClient "m1" "" false "";
     mkTransition "proof" "ready" RoleServer "m2" "" true "";
     mkTransition "ready" "done" RoleClient "m3" "" true ""]
    (mkFirstContactSpec "pattern" "start" "ready"
       [mkFirstContactStep RoleClient "c2s" "m1" "x1" "start" "proof" 32 false false;
        mkFirstContactStep RoleServer "s2c" "m2" "x2" "proof" "ready" 16 true false])
    sampleMessages
    (mkFrameGrammar "varint_prefix" "explicit_generated_tag" ["length"; "type"; "stream"; "flags"]
       "fixed_size_chunks" "crc32" "suffix")
    (mkAuthSpec "hmac-sha256-transcript-test-only" "k" "00ff" 16 "m2")
    (mkSchedulerPolicy "balanced" 16384 10 8 "fifo")
    sampleStream
    (mkProxySemanticsPolicy "descriptor_before_open" "compact_enum" "bulk" "chunked"
       "explicit_target_error" "explicit_close" "immediate_reset" "none" "intent_before_stream"
       "none" "direct_generated" ["echo"; "discard"] 65536 262144)
    (mkCarrierPolicy "stream_carrier" "single_semantic" "flush_each" "no_batch" "no_chunk"
       "ordered_only" "none" "carrier_queue_backpressure" "direct_priority" "none" "none"
       32768 4 16 2)
    sampleWireShape
    (mkAdapterPolicy ["adapter_ingress"; "adapter_egress"] "strict" "one_flow_one_stream"
       "safe_buckets" "flow_error" "adapter_queue" 8 65536 262144 1000)
    sampleSecurity
    (mkCompatibilityMetadata SupportedVersion SupportedSecurityVersion SupportedSecurityVersion
       [SecuritySuiteString] ["replay_window"; "multi_stream"] ["stream_carrier"] [] [] 32768 8 128)
    (mkPaddingPolicy "bounded" 4 16 f64_one)
    (mkInvalidInputPolicy "silent_close" "close" "close" "reject_nonce" 0 5)
    sampleLimits.

Lemma Validate_state_machine_witness :
  @Validate toyEncoding (Some sampleProfile) = Ok tt /\
  rtc (takes sampleProfile) "start" "ready".
Proof.
  split; [vm_compute; reflexivity|].
  apply (@Validate_state_machine toyEncoding sampleProfile). vm_compute; reflexivity.
Defined.

Lemma Validate_messages_unambiguous_witness :
  MessageByWireSymbol sampleProfile "x1" = None /\
  forall msg, msg ∈ pf_Messages sampleProfile ->
    MessageByWireSymbol sampleProfile (ms_WireSymbol msg) = Some msg.
Proof.
  destruct (@Validate_messages_unambiguous toyEncoding sampleProfile) as (H1 & _ & _ & H4 & _);
    [vm_compute; reflexivity|].
  split; [|exact H1].
  apply (H4 (mkFirstContactStep RoleClient "c2s" "m1" "x1" "start" "proof" 32 false false)).
  left.
Defined.

Lemma canonical_capabilities_witness :
  canonicalEffectiveCapabilities ["replay_window"; "multi_stream"] = Ok ["multi_stream"; "replay_window"].
Proof.
  destruct (canonical_capabilities ["multi_stream"; "replay_window"]) as [_ H].
  apply (H ["multi_stream"; "replay_window"]); [vm_compute; reflexivity|apply Permutation_swap].
Defined.

Definition sampleEffective : EffectiveSecurityPolicy :=
  match @BuildEffectiveSecurityPolicy toyEncoding (Some sampleProfile)
          ["replay_window"] ["multi_stream"] ["replay_window"; "multi_stream"] with
  | Ok policy => policy
  | Err _ => effectiveOf sampleProfile "" [] [] [] []
  end.

Lemma BuildEffective_sound_witness :
  @ValidateEffectiveSecurityPolicy toyEncoding sampleEffective = Ok tt /\
  securityPolicyOf sampleEffective = sampleSecurity.
Proof.
  destruct (@BuildEffective_sound toyEncoding sampleProfile ["replay_window"] ["multi_stream"]
    ["replay_window"; "multi_stream"] sampleEffective) as (_ & H1 & _ & _ & _ & H2 & _);
    [vm_compute; reflexivity|].
  split; [exact H1|exact H2].
Defined.
