(* ===== verification/Negotiate.v ===== *)
(** * Capability negotiation, compatibility and configuration

    [src/internal/crypto/security/capabilities.go], [compatibility.go] and
    [config.go]. A Go map used as a set is a [gset]; the loops that range over
    one either fail with the same error whatever the order or sort what they
    collect, so [elements] stands for the iteration. [%q] operands of error
    details stand unquoted. [RedactConfig] builds a map for a log and has no
    counterpart here; copying a slice is the identity. *)

From S2P Require Import Prelude GoBytes SecurityErrors KeySchedule Ir Validate.
From Stdlib Require Import ZArith Lia.
From stdpp Require Import base list gmap sets fin_sets strings sorting.
Local Open Scope Z_scope.

(** ** Capability sets *)

Record CapabilitySet := mkCapabilities { Features : list string }.

Record BilateralCapabilityInput := mkBilateral {
  LocalOffer : CapabilitySet;
  PeerOffer : CapabilitySet;
  LocalFloor : CapabilitySet;
  PeerFloor : CapabilitySet;
  CapabilityNegotiationPolicy : string;
  DowngradePolicy : string;
  LocalSuite : Suite;
  PeerSuite : Suite;
  LocalTranscriptMode : string;
  PeerTranscriptMode : string;
}.

Definition DefaultCapabilities : CapabilitySet := mkCapabilities [
  "multi_stream"; "proxy_semantics"; "carrier_abstraction"; "adapter_interface";
  "carrier_loss_recovery"; "carrier_backpressure"; "generated_backend";
  "transcript_binding"; "replay_window"; "nonce_schedule" ].

Definition KnownCapabilities : list string := Features DefaultCapabilities.

(** [seen] and [out]: the map and the slice the loop fills. *)
Fixpoint collectDistinct (features seen out : list string) : result error (list string) :=
  match features with
  | [] => Ok out
  | feature :: rest =>
      fail? negb (mem feature KnownCapabilities)
        with ErrInvalidConfig ("unknown capability " +:+ feature) in
      if mem feature seen then collectDistinct rest seen out
      else collectDistinct rest (feature :: seen) (out ++ [feature])
  end.

Definition canonicalCapabilities (features : list string) : result error (list string) :=
  let? out := collectDistinct features [] [] in
  Ok (sortStrings out).

Fixpoint collectUnique (features seen out : list string) : result error (list string) :=
  match features with
  | [] => Ok out
  | feature :: rest =>
      fail? negb (mem feature KnownCapabilities) with ErrInvalidConfig "unknown capability" in
      fail? mem feature seen with ErrInvalidConfig "duplicate capability" in
      collectUnique rest (feature :: seen) (out ++ [feature])
  end.

Definition canonicalUniqueCapabilities (features : list string) : result error (list string) :=
  let? out := collectUnique features [] [] in
  Ok (sortStrings out).

Definition setCapabilities (values : list string) : gset string := list_to_set values.

Definition RequireCapabilities (required selected : CapabilitySet) : result error unit :=
  let selectedSet := setCapabilities (Features selected) in
  forRange (Features required) (fun feature =>
    reject (negb (bool_decide (feature ∈ selectedSet))) (ErrDowngrade ("missing " +:+ feature))).

Definition DetectSuiteDowngrade (expected selected : Suite) (transcriptHash : string) : result error unit :=
  reject (negb (bool_decide (expected = selected))) (ErrDowngrade "suite mismatch").

Definition validateBilateralDowngrade (input : BilateralCapabilityInput) : result error unit :=
  fail? negb (SuiteSupported (LocalSuite input)) || negb (SuiteSupported (PeerSuite input))
    with ErrDowngrade "unsupported suite" in
  let policy := DowngradePolicy input in
  let sameSuite := bool_decide (LocalSuite input = PeerSuite input) in
  if bool_decide (policy = "strict_suite_and_capabilities") then
    reject (negb sameSuite) (ErrDowngrade "suite mismatch")
  else if bool_decide (policy = "strict_capabilities") then Ok tt
  else if bool_decide (policy = "suite_bound_transcript") then
    reject (negb sameSuite || bool_decide (LocalTranscriptMode input = "")
            || negb (bool_decide (LocalTranscriptMode input = PeerTranscriptMode input)))
      (ErrDowngrade "suite or transcript mismatch")
  else Err (ErrDowngrade "unknown downgrade policy").

Definition SelectBilateralCapabilities (input : BilateralCapabilityInput) : result error CapabilitySet :=
  let? _ := validateBilateralDowngrade input in
  let? localOffer := canonicalUniqueCapabilities (Features (LocalOffer input)) in
  let? peerOffer := canonicalUniqueCapabilities (Features (PeerOffer input)) in
  let? localFloor := canonicalUniqueCapabilities (Features (LocalFloor input)) in
  let? peerFloor := canonicalUniqueCapabilities (Features (PeerFloor input)) in
  fail? (zlen localOffer =? 0) || (zlen peerOffer =? 0) || (zlen localFloor =? 0) || (zlen peerFloor =? 0)
    with ErrDowngrade "empty offer or mandatory floor" in
  let floorSet : gset string := list_to_set localFloor ∪ list_to_set peerFloor in
  let? _ := forRange [localOffer; peerOffer] (fun offer =>
      let offerSet := setCapabilities offer in
      forRange (elements floorSet) (fun capability =>
        reject (negb (bool_decide (capability ∈ offerSet))) (ErrDowngrade "offer below bilateral floor"))) in
  let policy := CapabilityNegotiationPolicy input in
  let? selected :=
    (if bool_decide (policy = "strict_required") then Ok (elements floorSet)
     else if mem policy ["intersection_with_required"; "profile_declared_required"] then
       let peerSet := setCapabilities peerOffer in
       Ok (filter (fun capability => capability ∈ peerSet) localOffer)
     else Err (ErrDowngrade "unknown capability negotiation policy")) in
  Ok (mkCapabilities (sortStrings selected)).

(** ** Compatibility *)

Record RuntimeCompatibility := mkRuntime {
  rt_SchemaVersion : string;
  rt_CompilerSecurityVersion : string;
  rt_SupportedSecuritySuites : list string;
  rt_RequiredCapabilities : list string;
  rt_SupportedCarrierFamilies : list string;
  rt_SupportedProxyFeatures : list string;
  rt_SupportedStreamFeatures : list string;
  rt_MaxEnvelopeBytes : Z;
  rt_MaxStreamCount : Z;
  rt_MaxReplayWindow : Z;
}.

Definition suiteString (s : Suite) : string :=
  KDF s +:+ "/" +:+ AEAD s +:+ "/" +:+ MAC s +:+ "/" +:+ Transcript s.

Definition DefaultRuntimeCompatibility : RuntimeCompatibility :=
  mkRuntime SupportedVersion SupportedSecurityVersion
    [SuiteKDFHKDFSHA256 +:+ "/" +:+ SuiteAEADAES256GCM +:+ "/" +:+ SuiteMACHMACSHA256 +:+ "/"
       +:+ SuiteTranscriptSHA256V1]
    (Features DefaultCapabilities) CarrierFamilies ProxySemantics
    ["open_stream"; "data"; "close_stream"; "reset_stream"; "window_update"; "session_close"]
    (64 * 1024) 16 4096.

Definition contains (values : list string) (want : string) : bool := mem want values.

Definition CheckProfileCompatibility (p : option Profile) (runtime : RuntimeCompatibility)
    : result error unit :=
  match p with
  | None => Err (ErrCompatibility "nil profile")
  | Some p =>
      let c := pf_Compatibility p in
      fail? negb (bool_decide (cm_SchemaVersion c = rt_SchemaVersion runtime))
        with ErrCompatibility "schema version" in
      fail? bool_decide (cm_CompilerSecurityVersion c = "") || bool_decide (cm_MinimumRuntimeVersion c = "")
        with ErrCompatibility "missing version metadata" in
      fail? negb (contains (cm_SupportedSecuritySuites c) (suiteString DefaultSuite))
        with ErrCompatibility "security suite unsupported by profile" in
      fail? negb (contains (rt_SupportedSecuritySuites runtime) (suiteString DefaultSuite))
        with ErrCompatibility "security suite unsupported by runtime" in
      let? _ := RequireCapabilities (mkCapabilities (cm_RequiredCapabilities c))
                  (mkCapabilities (rt_RequiredCapabilities runtime)) in
      fail? negb (contains (rt_SupportedCarrierFamilies runtime) (cp_CarrierFamily (pf_CarrierPolicy p)))
        with ErrCompatibility "carrier family" in
      fail? (cm_MaxEnvelopeBytes c <=? 0) || (rt_MaxEnvelopeBytes runtime <? cm_MaxEnvelopeBytes c)
        with ErrCompatibility "envelope size" in
      fail? (cm_MaxStreamCount c <=? 0) || (rt_MaxStreamCount runtime <? cm_MaxStreamCount c)
        with ErrCompatibility "stream count" in
      reject ((cm_MaxReplayWindow c <=? 0) || (rt_MaxReplayWindow runtime <? cm_MaxReplayWindow c))
        (ErrCompatibility "replay window")
  end.

(** ** Configuration *)

Record SecurityConfig := mkSecurityConfig {
  cfg_ProfileID : string;
  cfg_ProfileHash : string;
  cfg_InputSecret : bytes;
  cfg_Suite : Suite;
  cfg_ReplayWindow : Z;
  cfg_MaxEnvelopeBytes : Z;
  cfg_QueueDepth : Z;
  cfg_Capabilities : list string;
  cfg_TranscriptHash : string;
  cfg_CapabilityHash : string;
  cfg_Debug : bool;
}.

Record PolicyBoundConfig := mkPolicyBound {
  config : SecurityConfig;
  policy : EffectiveSecurityPolicy;
}.

Definition ValidateConfig (cfg : SecurityConfig) : result error unit :=
  fail? bool_decide (cfg_ProfileID cfg = "") || bool_decide (cfg_ProfileHash cfg = "")
    with ErrInvalidConfig "missing profile identity" in
  fail? (zlen (cfg_InputSecret cfg) =? 0) with ErrInvalidConfig "missing secret" in
  fail? bool_decide (cfg_InputSecret cfg = replicate (length (cfg_InputSecret cfg)) Byte.x00)
    with ErrInvalidConfig "all-zero secret" in
  fail? negb (SuiteSupported (cfg_Suite cfg)) with ErrInvalidSuite in
  fail? (cfg_ReplayWindow cfg <=? 1) || (4096 <? cfg_ReplayWindow cfg) with ErrInvalidConfig "replay window" in
  fail? (cfg_MaxEnvelopeBytes cfg <=? 0) || (Z.shiftl 1 20 <? cfg_MaxEnvelopeBytes cfg)
    with ErrInvalidConfig "max envelope bytes" in
  fail? (cfg_QueueDepth cfg <=? 0) || (1024 <? cfg_QueueDepth cfg) with ErrInvalidConfig "queue depth" in
  fail? cfg_Debug cfg with ErrInvalidConfig "unsafe debug flag" in
  let? _ := canonicalCapabilities (cfg_Capabilities cfg) in
  Ok tt.

Definition BindEffectivePolicy `{Encoding} (cfg : SecurityConfig) (policy : EffectiveSecurityPolicy)
    : result error PolicyBoundConfig :=
  let? _ := ValidateConfig cfg in
  let? _ := map_err (fun _ => ErrInvalidConfig "effective policy") (ValidateEffectiveSecurityPolicy policy) in
  fail? negb (bool_decide (cfg_ProfileID cfg = eff_ProfileID policy))
      || negb (bool_decide (cfg_ProfileHash cfg = eff_ProfileHash policy))
      || negb (cfg_ReplayWindow cfg =? eff_ReplayWindowSize policy)
    with ErrInvalidConfig "effective policy identity" in
  fail? negb (bool_decide (KDF (cfg_Suite cfg) = eff_KDFSuite policy))
      || negb (bool_decide (AEAD (cfg_Suite cfg) = eff_AEADSuite policy))
      || negb (bool_decide (MAC (cfg_Suite cfg) = eff_MACSuite policy))
    with ErrInvalidConfig "effective policy suite" in
  match canonicalCapabilities (cfg_Capabilities cfg) with
  | Err _ => Err (ErrInvalidConfig "effective policy capabilities")
  | Ok capabilities =>
      fail? negb (bool_decide (capabilities = eff_SelectedCapabilities policy))
        with ErrInvalidConfig "effective policy capabilities" in
      Ok (mkPolicyBound cfg policy)
  end.

(** ** Sorted lists of strings *)

Lemma sortStrings_elem x l : x ∈ sortStrings l <-> x ∈ l.
Proof. unfold sortStrings. by rewrite merge_sort_Permutation. Qed.

Lemma sortStrings_NoDup l : NoDup (sortStrings l) <-> NoDup l.
Proof. unfold sortStrings. by rewrite merge_sort_Permutation. Qed.

Lemma sortStrings_sorted l : Sorted String.le (sortStrings l).
Proof. apply Sorted_merge_sort, _. Qed.

(** A sorted list without repetitions is determined by its elements. *)
Lemma sorted_set_unique (a b : list string) : Sorted String.le a -> Sorted String.le b ->
  NoDup a -> NoDup b -> (forall x, x ∈ a <-> x ∈ b) -> a = b.
Proof.
  intros Sa Sb Na Nb Hx. apply (Sorted_unique String.le); try apply _; try done.
  by apply NoDup_Permutation.
Qed.

(** ** What canonicalisation accepts *)

Definition known (l : list string) : Prop := Forall (fun c => c ∈ KnownCapabilities) l.

Lemma collectUnique_ok l seen out r : collectUnique l seen out = Ok r <->
  r = out ++ l /\ known l /\ NoDup l /\ (forall c, c ∈ l -> c ∉ seen).
Proof.
  revert seen out. induction l as [|c l IH]; intros seen out; cbn [collectUnique].
  { rewrite app_nil_r. split; [|by intros (-> & _)]. intros [= <-].
    split; [done|]. split; [constructor|]. split; [constructor|]. by intros c ?%elem_of_nil. }
  rewrite !reject_bind_ok, negb_false_iff, mem_true, mem_false, IH.
  rewrite <- app_assoc. unfold known. rewrite Forall_cons, NoDup_cons. cbn [app]. split.
  - intros (Hk & Hs & -> & Hf & Hd & Hx). split; [done|]. split; [done|]. split; [split; [|done]|].
    + intros Hc. apply (Hx c Hc), elem_of_cons. by left.
    + intros x [->|Hin]%elem_of_cons; [done|]. intros Hxs. apply (Hx x Hin), elem_of_cons. by right.
  - intros (-> & [Hk Hf] & [Hc Hd] & Hx). split; [done|]. split; [apply Hx, elem_of_cons; by left|].
    split; [done|]. split; [done|]. split; [done|].
    intros x Hin [->|Hs]%elem_of_cons; [done|]. apply (Hx x); [apply elem_of_cons; by right|done].
Qed.

Lemma canonicalUnique_spec l out : canonicalUniqueCapabilities l = Ok out <->
  out = sortStrings l /\ known l /\ NoDup l.
Proof.
  unfold canonicalUniqueCapabilities. rewrite rbind_ok. split.
  - intros (a & (-> & Hk & Hd & _)%collectUnique_ok & [= <-]). done.
  - intros (-> & Hk & Hd). exists l. split; [|done]. apply collectUnique_ok. split; [done|].
    split; [done|]. split; [done|]. by intros c _ ?%elem_of_nil.
Qed.

Lemma collectDistinct_ok l seen out : (forall c, c ∈ seen <-> c ∈ out) -> NoDup out ->
  match collectDistinct l seen out with
  | Ok r => known l /\ NoDup r /\ (forall c, c ∈ r <-> c ∈ out \/ c ∈ l)
  | Err _ => ~ known l
  end.
Proof.
  revert seen out. induction l as [|c l IH]; intros seen out Hs Hd; cbn [collectDistinct].
  { split; [constructor|]. split; [done|]. set_solver. }
  assert (Hcons : known (c :: l) -> c ∈ KnownCapabilities /\ known l) by exact (proj1 (Forall_cons (fun c => c ∈ KnownCapabilities) c l)).
  destruct (mem c KnownCapabilities) eqn:Ek; cbn [negb reject rbind].
  2: { intros [Hk _]%Hcons. by apply mem_false in Ek. }
  apply mem_true in Ek. destruct (mem c seen) eqn:Ec.
  - apply mem_true, Hs in Ec. specialize (IH seen out Hs Hd).
    destruct (collectDistinct l seen out); [|by intros [_ ?]%Hcons].
    destruct IH as (I1 & I2 & I3). split; [by constructor|]. split; [done|]. intros x. rewrite I3, elem_of_cons.
    split; [tauto|]. by intros [?|[->|?]]; auto.
  - apply mem_false in Ec. specialize (IH (c :: seen) (out ++ [c])).
    assert (Hs' : forall x, x ∈ c :: seen <-> x ∈ out ++ [c]).
    { intros x. rewrite elem_of_cons, elem_of_app, list_elem_of_singleton, Hs. tauto. }
    assert (Hd' : NoDup (out ++ [c])).
    { apply NoDup_app. split; [done|]. split; [|apply NoDup_singleton].
      intros x Hx ->%list_elem_of_singleton. by apply Ec, Hs. }
    specialize (IH Hs' Hd'). destruct (collectDistinct l _ _); [|by intros [_ ?]%Hcons].
    destruct IH as (I1 & I2 & I3). split; [by constructor|]. split; [done|].
    intros x. rewrite I3, elem_of_app, list_elem_of_singleton, elem_of_cons. tauto.
Qed.

Lemma canonicalCapabilities_spec l out : canonicalCapabilities l = Ok out <->
  known l /\ Sorted String.le out /\ NoDup out /\ forall c, c ∈ out <-> c ∈ l.
Proof.
  unfold canonicalCapabilities.
  pose proof (collectDistinct_ok l [] [] ltac:(done) ltac:(constructor)) as HC.
  destruct (collectDistinct l [] []) as [r|]; cbn [rbind].
  2: { split; [done|]. by intros [? _]. }
  destruct HC as (Hk & Hd & Hx). assert (Hx' : forall c, c ∈ r <-> c ∈ l) by (intros c; rewrite Hx; set_solver).
  split.
  - intros [= <-]. split; [done|]. split; [apply sortStrings_sorted|]. split; [by apply sortStrings_NoDup|].
    intros c. by rewrite sortStrings_elem.
  - intros (_ & Hs & Hd2 & Hx2). f_equal. apply sorted_set_unique; try done; [apply sortStrings_sorted|
      by apply sortStrings_NoDup|]. intros c. by rewrite sortStrings_elem, Hx', Hx2.
Qed.

(** ** Bilateral selection *)

Lemma Forall_two {A} (P : A -> Prop) a b : Forall P [a; b] <-> P a /\ P b.
Proof. by rewrite Forall_cons, Forall_singleton. Qed.

Lemma Forall_four {A} (P : A -> Prop) a b c d : Forall P [a; b; c; d] <-> P a /\ P b /\ P c /\ P d.
Proof. rewrite !Forall_cons, Forall_nil. tauto. Qed.

(** When two peers can agree at all. *)
Record negotiable (input : BilateralCapabilityInput) : Prop := {
  ng_suites : LocalSuite input = DefaultSuite /\ PeerSuite input = DefaultSuite;
  ng_downgrade : DowngradePolicy input ∈
    ["strict_suite_and_capabilities"; "strict_capabilities"; "suite_bound_transcript"];
  ng_transcript : DowngradePolicy input = "suite_bound_transcript" ->
    LocalTranscriptMode input <> "" /\ LocalTranscriptMode input = PeerTranscriptMode input;
  ng_lists : Forall (fun s => Features s <> [] /\ known (Features s) /\ NoDup (Features s))
    [LocalOffer input; PeerOffer input; LocalFloor input; PeerFloor input];
  ng_floors : Forall (fun s => Features s ⊆ Features (LocalOffer input) /\ Features s ⊆ Features (PeerOffer input))
    [LocalFloor input; PeerFloor input];
  ng_policy : CapabilityNegotiationPolicy input ∈
    ["strict_required"; "intersection_with_required"; "profile_declared_required"];
}.

(** What they agree on: both floors, or everything both offer. *)
Definition agreed (input : BilateralCapabilityInput) (c : string) : Prop :=
  if bool_decide (CapabilityNegotiationPolicy input = "strict_required")
  then c ∈ Features (LocalFloor input) \/ c ∈ Features (PeerFloor input)
  else c ∈ Features (LocalOffer input) /\ c ∈ Features (PeerOffer input).

Lemma downgrade_ok input : validateBilateralDowngrade input = Ok tt <->
  (LocalSuite input = DefaultSuite /\ PeerSuite input = DefaultSuite) /\
  DowngradePolicy input ∈ ["strict_suite_and_capabilities"; "strict_capabilities"; "suite_bound_transcript"] /\
  (DowngradePolicy input = "suite_bound_transcript" ->
    LocalTranscriptMode input <> "" /\ LocalTranscriptMode input = PeerTranscriptMode input).
Proof.
  unfold validateBilateralDowngrade, SuiteSupported.
  rewrite reject_bind_ok, orb_false_iff, !negb_false_iff, !bool_decide_eq_true.
  rewrite !elem_of_cons, elem_of_nil. split.
  - intros [[E1 E2] HD]. split; [done|]. rewrite E1, E2, (bool_decide_eq_true_2 _ eq_refl) in HD.
    destruct (decide (DowngradePolicy input = "strict_suite_and_capabilities")) as [->|N1]; [by split; [left|]|].
    rewrite (bool_decide_eq_false_2 _ N1) in HD.
    destruct (decide (DowngradePolicy input = "strict_capabilities")) as [->|N2]; [by split; [right; left|]|].
    rewrite (bool_decide_eq_false_2 _ N2) in HD.
    destruct (decide (DowngradePolicy input = "suite_bound_transcript")) as [N3|N3];
      [|by rewrite (bool_decide_eq_false_2 _ N3) in HD].
    rewrite (bool_decide_eq_true_2 _ N3) in HD.
    split; [by do 2 right; left|]. intros _. apply reject_ok in HD. cbn [negb orb] in HD. apply orb_false_iff in HD as [H3 H4].
    by apply bool_decide_eq_false in H3; apply negb_false_iff, bool_decide_eq_true in H4.
  - intros ([E1 E2] & HD & HT). split; [done|]. rewrite E1, E2, (bool_decide_eq_true_2 _ eq_refl).
    destruct HD as [->|[->|[HD|[]]]]; [done..|]. destruct (HT HD) as [H3 H4]. rewrite HD, <- H4.
    rewrite (bool_decide_eq_false_2 _ H3).
    by rewrite (bool_decide_eq_true_2 (LocalTranscriptMode input = LocalTranscriptMode input) eq_refl).
Qed.

Lemma sorted_nonempty l : (zlen (sortStrings l) =? 0) = false <-> l <> [].
Proof.
  unfold zlen, sortStrings. rewrite (merge_sort_Permutation String.le l), Z.eqb_neq.
  destruct l; cbn; split; intros; try done; lia.
Qed.

Lemma belowFloor_ok (floorSet : gset string) (offers : list (list string)) e :
  forRange offers (fun offer => forRange (elements floorSet) (fun c =>
      reject (negb (bool_decide (c ∈ setCapabilities offer))) e)) = (Ok tt : result error unit) <->
  Forall (fun offer => forall c, c ∈ floorSet -> c ∈ offer) offers.
Proof.
  rewrite forRange_ok. apply Forall_proper; [|done]. intros offer.
  rewrite forRange_ok, Forall_forall. split; intros HF c Hc.
  - specialize (HF c). rewrite elem_of_elements in HF. specialize (HF Hc).
    apply reject_ok, negb_false_iff, bool_decide_eq_true in HF. unfold setCapabilities in HF. set_solver.
  - apply reject_ok, negb_false_iff, bool_decide_eq_true. apply elem_of_elements in Hc.
    unfold setCapabilities. apply elem_of_list_to_set. by apply HF.
Qed.

(** The set the selection is sorted from, and its elements. *)
Definition selection (input : BilateralCapabilityInput) (lo po lf pf : list string) : list string :=
  if bool_decide (CapabilityNegotiationPolicy input = "strict_required")
  then elements (list_to_set lf ∪ list_to_set pf : gset string)
  else filter (fun c => c ∈ setCapabilities po) lo.

Lemma selection_elem input lo po lf pf c : c ∈ selection input lo po lf pf <->
  if bool_decide (CapabilityNegotiationPolicy input = "strict_required")
  then c ∈ lf \/ c ∈ pf else c ∈ lo /\ c ∈ po.
Proof.
  unfold selection, setCapabilities. case_bool_decide; [set_solver|].
  rewrite list_elem_of_filter, elem_of_list_to_set. tauto.
Qed.

Lemma selection_NoDup input lo po lf pf : NoDup lo -> NoDup (selection input lo po lf pf).
Proof. intros Hd. unfold selection. case_bool_decide; [apply NoDup_elements|by apply NoDup_filter]. Qed.

Lemma select_unfold input sel : SelectBilateralCapabilities input = Ok sel <->
  negotiable input /\ sel = mkCapabilities (sortStrings (selection input
    (sortStrings (Features (LocalOffer input))) (sortStrings (Features (PeerOffer input)))
    (sortStrings (Features (LocalFloor input))) (sortStrings (Features (PeerFloor input))))).
Proof.
  unfold SelectBilateralCapabilities. split.
  - intros HS. apply rbind_ok in HS as ([] & (D1 & D2 & D3)%downgrade_ok & HS).
    apply rbind_ok in HS as (lo & (-> & K1 & N1)%canonicalUnique_spec & HS).
    apply rbind_ok in HS as (po & (-> & K2 & N2)%canonicalUnique_spec & HS).
    apply rbind_ok in HS as (lf & (-> & K3 & N3)%canonicalUnique_spec & HS).
    apply rbind_ok in HS as (pf & (-> & K4 & N4)%canonicalUnique_spec & HS).
    apply reject_bind_ok in HS as [HE HS]. rewrite !orb_false_iff, !sorted_nonempty in HE.
    destruct HE as (((E1 & E2) & E3) & E4).
    apply rbind_ok in HS as ([] & HF%belowFloor_ok & HS). apply rbind_ok in HS as (out & HP & HS).
    apply Ok_inj in HS as <-.
    assert (HF' : forall c, c ∈ Features (LocalFloor input) \/ c ∈ Features (PeerFloor input) ->
      c ∈ Features (LocalOffer input) /\ c ∈ Features (PeerOffer input)).
    { intros c Hc. apply Forall_two in HF as (F1 & F2).
      rewrite <- (sortStrings_elem c (Features (LocalOffer input))), <- (sortStrings_elem c (Features (PeerOffer input))).
      split; [apply F1|apply F2]; rewrite elem_of_union, !elem_of_list_to_set, !sortStrings_elem; done. }
    assert (HQ : CapabilityNegotiationPolicy input ∈
      ["strict_required"; "intersection_with_required"; "profile_declared_required"] /\
      out = selection input (sortStrings (Features (LocalOffer input))) (sortStrings (Features (PeerOffer input)))
        (sortStrings (Features (LocalFloor input))) (sortStrings (Features (PeerFloor input)))).
    { unfold selection. case_bool_decide as HB; [injection HP as <-; rewrite HB; split; [by left|done]|].
      destruct (mem _ _) eqn:HM; [|done]. injection HP as <-. split; [right; by apply mem_true|done]. }
    destruct HQ as [HQ ->]. split; [|done]. constructor; try done.
    + by repeat constructor.
    + repeat constructor; intros c Hc; apply HF'; auto.
  - intros [[D1 D2 D3 HL HF HQ] ->]. rewrite (proj2 (downgrade_ok input)) by done. cbn [rbind].
    apply Forall_four in HL as ((E1 & K1 & N1) & (E2 & K2 & N2) & (E3 & K3 & N3) & (E4 & K4 & N4)).
    rewrite !(fun l K N => proj2 (canonicalUnique_spec l _) (conj eq_refl (conj K N))) by done. cbn [rbind].
    rewrite !(proj2 (sorted_nonempty _)) by done. cbn [orb reject rbind].
    rewrite (proj2 (belowFloor_ok _ _ _)).
    2: { apply Forall_two in HF as ((F1 & F2) & (F3 & F4)). apply Forall_two.
         split; intros c; rewrite elem_of_union, !elem_of_list_to_set, !sortStrings_elem; intros [?|?]; auto. }
    cbn [rbind]. unfold selection. case_bool_decide as HB; [done|].
    rewrite elem_of_cons in HQ. destruct HQ as [HQ|HQ]; [done|]. by rewrite (proj2 (mem_true _ _) HQ).
Qed.

(** C14: What two peers settle on. Selection succeeds exactly when both suites
    are the supported one, the downgrade policy is met, every offer and floor
    is a non-empty list of known capabilities without repetition, both floors
    lie within both offers and the negotiation policy is known; the result is
    then the one sorted list that holds exactly both floors (strict policy) or
    everything both sides offer (the other two). *)
Theorem bilateral_selection input sel : SelectBilateralCapabilities input = Ok sel <->
  negotiable input /\ Sorted String.le (Features sel) /\ NoDup (Features sel) /\
  forall c, c ∈ Features sel <-> agreed input c.
Proof.
  rewrite select_unfold. split.
  - intros [Hn ->]. cbn [Features]. split; [done|]. split; [apply sortStrings_sorted|].
    split; [|intros c; rewrite sortStrings_elem, selection_elem; unfold agreed;
      case_bool_decide; by rewrite !sortStrings_elem].
    apply sortStrings_NoDup, selection_NoDup, sortStrings_NoDup.
    pose proof (ng_lists _ Hn) as HL. rewrite Forall_cons in HL. apply HL.
  - intros (Hn & Hs & Hd & Hx). split; [done|]. destruct sel as [l]. cbn [Features] in *. f_equal.
    apply sorted_set_unique; [done|apply sortStrings_sorted|done| |].
    + apply sortStrings_NoDup, selection_NoDup, sortStrings_NoDup.
      pose proof (ng_lists _ Hn) as HL. rewrite Forall_cons in HL. apply HL.
    + intros c. rewrite Hx, sortStrings_elem, selection_elem. unfold agreed.
      case_bool_decide; by rewrite !sortStrings_elem.
Qed.

(** The same negotiation as the peer sees it. *)
Definition peerView (i : BilateralCapabilityInput) : BilateralCapabilityInput :=
  mkBilateral (PeerOffer i) (LocalOffer i) (PeerFloor i) (LocalFloor i) (CapabilityNegotiationPolicy i)
    (DowngradePolicy i) (PeerSuite i) (LocalSuite i) (PeerTranscriptMode i) (LocalTranscriptMode i).

Lemma negotiable_peer i : negotiable i -> negotiable (peerView i).
Proof.
  intros [[S1 S2] D T L F P]. apply Forall_four in L as (L1 & L2 & L3 & L4).
  apply Forall_two in F as ([F1 F2] & [F3 F4]).
  constructor; cbn; try done.
  - intros HT. destruct (T HT) as [T1 T2]. by rewrite <- T2.
  - by apply Forall_four.
  - by apply Forall_two.
Qed.

Lemma select_peer i sel : SelectBilateralCapabilities i = Ok sel -> SelectBilateralCapabilities (peerView i) = Ok sel.
Proof.
  rewrite !select_unfold. intros [Hn ->]. split; [by apply negotiable_peer|]. f_equal.
  pose proof (ng_lists _ Hn) as HL. apply Forall_four in HL as ((_ & _ & N1) & (_ & _ & N2) & _).
  apply sorted_set_unique; try apply sortStrings_sorted;
    try by apply sortStrings_NoDup, selection_NoDup, sortStrings_NoDup.
  intros c. rewrite !sortStrings_elem, !selection_elem. cbn. case_bool_decide; rewrite !sortStrings_elem; tauto.
Qed.

Lemma select_within i sel : SelectBilateralCapabilities i = Ok sel ->
  Features (LocalFloor i) ⊆ Features sel /\ Features (PeerFloor i) ⊆ Features sel /\
  Features sel ⊆ Features (LocalOffer i) /\ Features sel ⊆ Features (PeerOffer i).
Proof.
  intros [Hn ->]%select_unfold. cbn [Features].
  pose proof (ng_floors _ Hn) as HF. apply Forall_two in HF as ((F1 & F2) & (F3 & F4)).
  split_and!; intros c; rewrite sortStrings_elem, selection_elem; case_bool_decide; rewrite !sortStrings_elem;
    set_solver.
Qed.

(** Both peers reach the same result, each from its own view: one selects a
    set exactly when the other selects the same set, and it contains both
    mandatory floors and lies within both offers. *)
Theorem bilateral_agreement i sel : SelectBilateralCapabilities i = Ok sel ->
  SelectBilateralCapabilities (peerView i) = Ok sel /\
  Features (LocalFloor i) ⊆ Features sel /\ Features (PeerFloor i) ⊆ Features sel /\
  Features sel ⊆ Features (LocalOffer i) /\ Features sel ⊆ Features (PeerOffer i).
Proof.
  intros HS. split; [by apply select_peer|by apply select_within].
Qed.

(** ** Compatibility of validated profiles *)

Lemma require_ok required selected : RequireCapabilities required selected = Ok tt <->
  Features required ⊆ Features selected.
Proof.
  unfold RequireCapabilities, setCapabilities. rewrite forRange_ok, Forall_forall.
  split; intros HF c Hc; specialize (HF c Hc).
  - apply reject_ok, negb_false_iff, bool_decide_eq_true in HF. by apply elem_of_list_to_set in HF.
  - apply reject_ok, negb_false_iff, bool_decide_eq_true. by apply elem_of_list_to_set.
Qed.

Lemma knownUnique_known kn seen l u d : knownUnique kn seen l u d = Ok tt -> l ⊆ kn.
Proof.
  revert seen. induction l as [|c l IH]; intros seen HK; [apply list_subseteq_nil|].
  cbn [knownUnique] in HK. go_inv HK. apply IH in HK. apply negb_false_iff, mem_true in G.
  intros x [->|Hx]%elem_of_cons; [done|by apply HK].
Qed.

(** The default runtime runs every validated profile whose compatibility
    block asks for envelopes of at most 64 KiB, and refuses the others with
    the envelope error: no other check of [CheckProfileCompatibility] can fail
    on a profile that passed [Validate]. *)
Theorem validated_compatible `{Encoding} p : Validate (Some p) = Ok tt ->
  CheckProfileCompatibility (Some p) DefaultRuntimeCompatibility =
  if cm_MaxEnvelopeBytes (pf_Compatibility p) <=? 65536 then Ok tt else Err (ErrCompatibility "envelope size").
Proof.
  intros HV%Validate_validated. pose proof (v_compat _ HV) as HC. pose proof (v_carrier _ HV) as HF.
  unfold validateCompatibility in HC. go_inv HC. destruct x, x0.
  unfold validateCarrierPolicy in HF. apply reject_bind_ok in HF as [HF _].
  unfold CheckProfileCompatibility. change (rt_SchemaVersion DefaultRuntimeCompatibility) with SupportedVersion.
  change (suiteString DefaultSuite) with SecuritySuiteString. unfold contains. rewrite G, G0, G1. cbn [reject rbind].
  change (mem SecuritySuiteString (rt_SupportedSecuritySuites DefaultRuntimeCompatibility)) with true.
  cbn [negb reject rbind]. rewrite (proj2 (require_ok _ _)) by (exact (knownUnique_known _ _ _ _ _ E)).
  cbn [rbind]. change (rt_SupportedCarrierFamilies DefaultRuntimeCompatibility) with CarrierFamilies.
  rewrite HF. cbn [reject rbind]. cbn [DefaultRuntimeCompatibility rt_MaxEnvelopeBytes rt_MaxStreamCount rt_MaxReplayWindow].
  apply orb_false_iff in G4 as [G4%Z.leb_gt _], G5 as [[G5%Z.leb_gt _]%orb_false_iff K6%Z.ltb_ge].
  apply orb_false_iff in G6 as [[K7%Z.leb_gt _]%orb_false_iff K8%Z.ltb_ge].
  rewrite !(proj2 (Z.leb_gt _ _)), !(proj2 (Z.ltb_ge 16 _)), (proj2 (Z.ltb_ge 4096 _)) by lia.
  change (64 * 1024) with 65536. rewrite Z.ltb_antisym. by destruct (_ <=? 65536).
Qed.

(** ** From negotiation to a bound policy *)

Lemma hexValue_digit n : 0 <= n < 16 -> hexValue (hexDigit n) = Some n.
Proof.
  intros Hn. assert (HA : forallb (fun k => bool_decide (hexValue (hexDigit (Z.of_nat k)) = Some (Z.of_nat k))) (seq 0 16) = true)
    by (vm_compute; reflexivity).
  rewrite forallb_forall in HA. specialize (HA (Z.to_nat n)). rewrite Z2Nat.id in HA by lia.
  apply bool_decide_eq_true in HA; [done|]. apply in_seq. lia.
Qed.

Lemma decodeHex_encode b : decodeHex (sbytes (EncodeToString b)) = Some b.
Proof.
  unfold EncodeToString. rewrite sbytes_bstring. induction b as [|x b IH]; [done|].
  cbn [fmap list_fmap concat app decodeHex]. pose proof (bz_range x).
  rewrite !hexValue_digit by (split; [apply Z.div_pos || apply Z.mod_pos_bound|apply Z.div_lt_upper_bound || apply Z.mod_pos_bound]; lia).
  cbn. rewrite IH. cbn. rewrite <- Z.div_mod by lia. by rewrite zb_bz.
Qed.

Lemma sort_sorted l : Sorted String.le l -> sortStrings l = l.
Proof.
  intros Hs. apply (Sorted_unique String.le); try apply _; [apply sortStrings_sorted|done|].
  apply merge_sort_Permutation.
Qed.

Lemma sortStrings_idemp l : sortStrings (sortStrings l) = sortStrings l.
Proof. apply sort_sorted, sortStrings_sorted. Qed.

Lemma canonical_known l : known l -> NoDup l -> canonicalEffectiveCapabilities l = Ok (sortStrings l).
Proof. intros Hk Hd. by apply canonical_spec. Qed.

Lemma floorsSelected_subset c s sel e : c ⊆ sel -> s ⊆ sel -> floorsSelected c s sel e = Ok tt.
Proof.
  intros Hc Hs. unfold floorsSelected. apply forRange_ok, Forall_two.
  split; apply forRange_ok, Forall_forall; intros x Hx; apply reject_ok, negb_false_iff, mem_true; auto.
Qed.

(** A policy assembled from a validated profile and canonical lists is valid. *)
Lemma effective_valid `{Encoding} p h raw c s sel vh : validated p -> pf_ID p <> "" ->
  h = EncodeToString raw -> zlen raw = 32 -> foldl (fun nonzero v => Z.lor nonzero (bz v)) 0 raw <> 0 ->
  Forall (fun l => known l /\ NoDup l /\ Sorted String.le l /\ l <> []) [c; s; sel] ->
  c ⊆ sel -> s ⊆ sel -> effectivePolicyHash (effectiveOf p h c s sel zeroHash) = Ok vh ->
  ValidateEffectiveSecurityPolicy (effectiveOf p h c s sel vh) = Ok tt.
Proof.
  intros HV HI -> HL HZ HA Hc Hs HH. unfold ValidateEffectiveSecurityPolicy.
  pose proof (v_compat _ HV) as HC. unfold validateCompatibility in HC.
  apply reject_bind_ok in HC as [G1 HC]. apply reject_bind_ok in HC as [G2 _].
  apply orb_false_iff in G2 as [G2 G3]. cbn [effectiveOf eff_ProfileID eff_SchemaVersion eff_CompilerSecurityVersion
    eff_MinimumRuntimeVersion eff_ProfileHash eff_ClientMandatoryCapabilities eff_ServerMandatoryCapabilities
    eff_SelectedCapabilities eff_validationHash].
  rewrite (bool_decide_eq_false_2 _ HI), G1, G2, G3. cbn [orb reject rbind].
  rewrite decodeHex_encode. cbn [rbind]. rewrite HL, (proj2 (Z.eqb_neq _ _) HZ). cbn [negb reject rbind Z.eqb Pos.eqb].
  assert (Es : securityPolicyOf (effectiveOf p (EncodeToString raw) c s sel vh) = pf_Security p).
  { unfold securityPolicyOf, effectiveOf. cbn. by destruct (pf_Security p). }
  rewrite Es, (v_security _ HV). cbn [map_err rbind].
  rewrite (proj2 (forRange_ok _ _ tt)).
  2: { eapply Forall_impl; [exact HA|]. intros l (K1 & K2 & K3 & K4). cbv beta.
       rewrite (canonical_known l K1 K2), (sort_sorted l K3). apply reject_ok.
       rewrite (bool_decide_eq_true_2 _ eq_refl), orb_false_r. apply Z.eqb_neq. by destruct l. }
  cbn [rbind]. rewrite floorsSelected_subset by done. cbn [rbind].
  change (effectivePolicyHash (effectiveOf p (EncodeToString raw) c s sel vh))
    with (effectivePolicyHash (effectiveOf p (EncodeToString raw) c s sel zeroHash)).
  rewrite HH. by rewrite (bool_decide_eq_true_2 _ eq_refl).
Qed.

Lemma known_subset a b : known b -> a ⊆ b -> known a.
Proof. unfold known. rewrite !Forall_forall. intros Hb Hab x Hx. by apply Hb, Hab. Qed.

Lemma sorted_subset l : sortStrings l ⊆ l.
Proof. intros x. by rewrite sortStrings_elem. Qed.

Lemma sortStrings_nonnil l : l <> [] -> sortStrings l <> [].
Proof. intros Hl. apply sorted_nonempty in Hl. by intros E; rewrite E in Hl. Qed.

Lemma selected_facts i sel : SelectBilateralCapabilities i = Ok sel ->
  (known (Features sel) /\ NoDup (Features sel) /\ Sorted String.le (Features sel) /\ Features sel <> []) /\
  (known (Features (LocalFloor i)) /\ NoDup (Features (LocalFloor i)) /\ Features (LocalFloor i) <> []) /\
  (known (Features (PeerFloor i)) /\ NoDup (Features (PeerFloor i)) /\ Features (PeerFloor i) <> []).
Proof.
  intros HS. destruct (select_within i sel HS) as (W1 & _ & W3 & _). apply select_unfold in HS as [Hn Hsel].
  pose proof (ng_lists _ Hn) as HA. apply Forall_four in HA as ((A1 & K1 & N1) & _ & (A3 & K3 & N3) & (A4 & K4 & N4)).
  split; [|done]. split; [exact (known_subset _ _ K1 W3)|]. split_and!.
  - rewrite Hsel. by apply sortStrings_NoDup, selection_NoDup, sortStrings_NoDup.
  - rewrite Hsel. apply sortStrings_sorted.
  - intros E. rewrite E in W1. destruct (Features (LocalFloor i)) as [|c l]; [done|]. specialize (W1 c). set_solver.
Qed.

(** Negotiation leads to a policy: for capabilities two peers selected and a
    validated profile that has a non-zero digest, with an encoder that accepts
    every policy, building the effective policy over the two floors succeeds,
    and the policy is valid and carries exactly the selected capabilities and
    the profile's security settings. *)
Theorem negotiated_policy_builds `{Encoding} i sel p raw :
  SelectBilateralCapabilities i = Ok sel -> Validate (Some p) = Ok tt ->
  marshalProfile (withoutGenerationHash p) = Ok raw ->
  zlen (sum256 raw) = 32 -> foldl (fun nonzero v => Z.lor nonzero (bz v)) 0 (sum256 raw) <> 0 ->
  (forall policy, isOk (marshalEffective policy) = true) ->
  exists policy, BuildEffectiveSecurityPolicy (Some p) (Features (LocalFloor i)) (Features (PeerFloor i))
      (Features sel) = Ok policy /\
    ValidateEffectiveSecurityPolicy policy = Ok tt /\ eff_SelectedCapabilities policy = Features sel /\
    securityPolicyOf policy = pf_Security p.
Proof.
  intros HS HV HM HL HZ HE. destruct (selected_facts i sel HS) as ((K5 & N5 & S1 & A5) & (K3 & N3 & A3) & (K4 & N4 & A4)).
  destruct (select_within i sel HS) as (W1 & W2 & _).
  set (c := sortStrings (Features (LocalFloor i))). set (s := sortStrings (Features (PeerFloor i))).
  set (h := EncodeToString (sum256 raw)).
  assert (exists vh, effectivePolicyHash (effectiveOf p h c s (Features sel) zeroHash) = Ok vh) as [vh Hvh].
  { unfold effectivePolicyHash. specialize (HE (exportedFields (effectiveOf p h c s (Features sel) zeroHash))).
    destruct (marshalEffective _) as [r|]; [|done]. by eexists. }
  assert (HP : ValidateEffectiveSecurityPolicy (effectiveOf p h c s (Features sel) vh) = Ok tt).
  { eapply effective_valid; try done.
    - by apply Validate_validated.
    - unfold Validate in HV. go_inv HV. by apply bool_decide_eq_false in G1.
    - repeat apply Forall_cons_2; try apply Forall_nil_2; split_and!; try done;
        first [by apply sortStrings_sorted | by apply sortStrings_NoDup | by apply sortStrings_nonnil
              | by eapply known_subset; [|apply sorted_subset]].
    - etrans; [apply sorted_subset|done].
    - etrans; [apply sorted_subset|done]. }
  exists (effectiveOf p h c s (Features sel) vh). split; [|split; [exact HP|split; [done|]]].
  - unfold BuildEffectiveSecurityPolicy. rewrite HV. cbn [map_err rbind].
    rewrite (canonical_known _ K3 N3), (canonical_known _ K4 N4), (canonical_known _ K5 N5), (sort_sorted _ S1). cbn [rbind].
    rewrite (proj2 (sorted_nonempty _) A3), (proj2 (sorted_nonempty _) A4). fold c s.
    assert ((zlen (Features sel) =? 0) = false) as -> by (apply Z.eqb_neq; by destruct (Features sel)).
    cbn [orb reject rbind]. rewrite floorsSelected_subset.
    2,3: etrans; [apply sorted_subset|done].
    cbn [rbind]. unfold CanonicalHash. rewrite HM. cbn [rbind map_err]. fold h. rewrite Hvh. cbn [rbind map_err].
    by rewrite HP.
  - unfold securityPolicyOf, effectiveOf. cbn. by destruct (pf_Security p).
Qed.

Lemma effective_selected `{Encoding} pol : ValidateEffectiveSecurityPolicy pol = Ok tt ->
  Sorted String.le (eff_SelectedCapabilities pol) /\ NoDup (eff_SelectedCapabilities pol).
Proof.
  unfold ValidateEffectiveSecurityPolicy. intros HV. go_inv HV.
  match goal with G : forRange [_; _; _] _ = Ok _ |- _ => rename G into HF end.
  apply forRange_ok in HF. rewrite !Forall_cons in HF. destruct HF as (_ & _ & HF & _).
  destruct (canonicalEffectiveCapabilities _) as [l|] eqn:EC; [|done].
  apply canonical_spec in EC as (-> & _ & Hd). apply reject_ok, orb_false_iff in HF as [_ HF].
  apply negb_false_iff, bool_decide_eq_true in HF. split; [|done]. rewrite HF. apply sortStrings_sorted.
Qed.

(** Binding a configuration to a policy succeeds exactly when both are valid
    on their own, name the same profile, hash, replay window and suite, and
    list the same capabilities up to order and repetition; it returns the two
    unchanged. *)
Theorem bind_effective_exact `{Encoding} cfg pol b : BindEffectivePolicy cfg pol = Ok b <->
  b = mkPolicyBound cfg pol /\ ValidateConfig cfg = Ok tt /\ ValidateEffectiveSecurityPolicy pol = Ok tt /\
  cfg_ProfileID cfg = eff_ProfileID pol /\ cfg_ProfileHash cfg = eff_ProfileHash pol /\
  cfg_ReplayWindow cfg = eff_ReplayWindowSize pol /\ KDF (cfg_Suite cfg) = eff_KDFSuite pol /\
  AEAD (cfg_Suite cfg) = eff_AEADSuite pol /\ MAC (cfg_Suite cfg) = eff_MACSuite pol /\
  forall c, c ∈ cfg_Capabilities cfg <-> c ∈ eff_SelectedCapabilities pol.
Proof.
  assert (HX : ValidateConfig cfg = Ok tt -> ValidateEffectiveSecurityPolicy pol = Ok tt ->
    known (cfg_Capabilities cfg) /\ (canonicalCapabilities (cfg_Capabilities cfg) = Ok (eff_SelectedCapabilities pol) <->
      forall c, c ∈ cfg_Capabilities cfg <-> c ∈ eff_SelectedCapabilities pol)).
  { intros HC HP. destruct (effective_selected pol HP) as [Hs Hd].
    assert (Hk : known (cfg_Capabilities cfg)).
    { unfold ValidateConfig in HC. go_inv HC. by apply canonicalCapabilities_spec in E as [? _]. }
    split; [done|]. rewrite canonicalCapabilities_spec. split; [by intros (_ & _ & _ & Hx)|]. done. }
  unfold BindEffectivePolicy. split.
  - intros HB. go_inv HB. destruct x, x0. apply map_err_ok in E0. destruct (HX E E0) as [Hk Hx].
    rewrite !orb_false_iff, !negb_false_iff, !bool_decide_eq_true, ?Z.eqb_eq in G, G0.
    destruct (canonicalCapabilities (cfg_Capabilities cfg)) as [caps|]; [|done]. go_inv HB.
    apply negb_false_iff, bool_decide_eq_true in G1 as ->. apply Ok_inj in HB as <-.
    destruct G as [[G1 G2] G3%Z.eqb_eq], G0 as [[G4 G5] G6%bool_decide_eq_true].
    split_and!; try done. by apply Hx.
  - intros (-> & HC & HP & E1 & E2 & E3 & E4 & E5 & E6 & HS). destruct (HX HC HP) as [Hk Hx].
    rewrite HC, HP. cbn [rbind map_err]. rewrite E1, E2, E3, E4, E5, E6, Z.eqb_refl, (proj2 Hx HS).
    rewrite !bool_decide_eq_true_2 by done. done.
Qed.

(** ** Concrete negotiations *)

Definition sampleNegotiation : BilateralCapabilityInput :=
  mkBilateral (mkCapabilities ["replay_window"; "multi_stream"; "nonce_schedule"])
    (mkCapabilities ["multi_stream"; "replay_window"]) (mkCapabilities ["replay_window"])
    (mkCapabilities ["multi_stream"]) "intersection_with_required" "suite_bound_transcript"
    DefaultSuite DefaultSuite "canonical_v1" "canonical_v1".

Lemma bilateral_selection_witness :
  Features <$> (match SelectBilateralCapabilities sampleNegotiation with Ok s => Some s | Err _ => None end)
    = Some ["multi_stream"; "replay_window"] /\
  ("multi_stream" ∈ ["multi_stream"; "replay_window"] <-> agreed sampleNegotiation "multi_stream").
Proof.
  split; [vm_compute; reflexivity|].
  apply (bilateral_selection sampleNegotiation (mkCapabilities ["multi_stream"; "replay_window"])).
  vm_compute. reflexivity.
Defined.

Lemma bilateral_agreement_witness :
  SelectBilateralCapabilities (peerView sampleNegotiation) = Ok (mkCapabilities ["multi_stream"; "replay_window"]).
Proof.
  apply (bilateral_agreement sampleNegotiation (mkCapabilities ["multi_stream"; "replay_window"])).
  vm_compute. reflexivity.
Defined.

Lemma validated_compatible_witness :
  CheckProfileCompatibility (Some sampleProfile) DefaultRuntimeCompatibility = Ok tt.
Proof. apply (@validated_compatible toyEncoding sampleProfile). vm_compute. reflexivity. Defined.

Lemma negotiated_policy_builds_witness :
  exists policy, @BuildEffectiveSecurityPolicy toyEncoding (Some sampleProfile) ["replay_window"] ["multi_stream"]
    ["multi_stream"; "replay_window"] = Ok policy.
Proof.
  destruct (@negotiated_policy_builds toyEncoding sampleNegotiation (mkCapabilities ["multi_stream"; "replay_window"])
    sampleProfile []) as (policy & HB & _); [vm_compute; reflexivity|vm_compute; reflexivity|reflexivity|reflexivity
    |vm_compute; discriminate|reflexivity|].
  exists policy. exact HB.
Defined.

Definition sampleConfig : SecurityConfig :=
  mkSecurityConfig (eff_ProfileID sampleEffective) (eff_ProfileHash sampleEffective) [Byte.x07] DefaultSuite
    (eff_ReplayWindowSize sampleEffective) 4096 8 ["replay_window"; "multi_stream"; "replay_window"] "" "" false.

Lemma bind_effective_exact_witness :
  "replay_window" ∈ cfg_Capabilities sampleConfig <-> "replay_window" ∈ eff_SelectedCapabilities sampleEffective.
Proof.
  apply (@bind_effective_exact toyEncoding sampleConfig sampleEffective (mkPolicyBound sampleConfig sampleEffective)).
  vm_compute. reflexivity.
Defined.
