(* ===== verification/Transcript.v ===== *)
(** * Transcript bindings and the authenticated context

    [src/internal/crypto/security/transcript.go] (the handshake mode bindings
    and the policy encoding), [authenticated_context.go], and the capability
    hash of [capabilities.go]. A [[32]byte] is a list of bytes; writing to a
    [bytes.Buffer] is appending, and a writer is the function that returns the
    bytes it appends. SHA-256 is [sum256] of [Encoding]; nothing is assumed of
    it, and the binding theorems end in a collision it would have to have. *)

From S2P Require Import Prelude GoBytes GoJson SecurityErrors KeySchedule Ir Validate Negotiate.
From Stdlib Require Import ZArith Lia Strings.Byte.
From stdpp Require Import base list sets strings sorting.
Local Open Scope Z_scope.

(** ** Primitive writers *)

Definition writeU32 (value : Z) : bytes := PutUint32 value.
Definition writeLP (value : bytes) : bytes := writeU32 (wrap32 (zlen value)) ++ value.
Definition writeU64Context (value : Z) : bytes := PutUint64 value.

Definition validateASCII (value : string) : result error unit :=
  fail? bool_decide (value = "") with ErrInvalidTranscript "empty canonical value" in
  forRange (sbytes value) (fun b =>
    reject ((bz b <? 32) || (126 <? bz b)) (ErrInvalidTranscript "non-ascii canonical value")).

Definition allZero32 (value : bytes) : bool :=
  foldl (fun combined item => Z.lor combined (bz item)) 0 value =? 0.

Definition contextHash `{Encoding} (label : string) (parts : list bytes) : bytes :=
  sum256 (writeLP (sbytes label) ++ concat (writeLP <$> parts)).

(** ** String lists *)

(** [previous] is the item before, absent at the first. *)
Fixpoint checkSortedUnique (previous : option string) (l : list string) : result error unit :=
  match l with
  | [] => Ok tt
  | value :: rest =>
      let? _ := validateASCII value in
      fail? bool_decide (previous = Some value) with ErrInvalidTranscript "duplicate list item" in
      checkSortedUnique (Some value) rest
  end.

Definition writeList (l : list string) : bytes :=
  writeU32 (wrap32 (zlen l)) ++ concat ((fun v => writeLP (sbytes v)) <$> l).

Definition EncodeStringListV1 (values : list string) : result error bytes :=
  let canonical := sortStrings values in
  let? _ := checkSortedUnique None canonical in
  Ok (writeList canonical).

(** [values[i-1] >= value] refuses the list. *)
Fixpoint checkIncreasing (previous : option string) (l : list string) : result error unit :=
  match l with
  | [] => Ok tt
  | value :: rest =>
      let? _ := validateASCII value in
      fail? match previous with Some p => bool_decide (String.le value p) | None => false end
        with ErrInvalidTranscript "noncanonical list" in
      checkIncreasing (Some value) rest
  end.

Definition encodeStrictStringListV1 (values : list string) : result error bytes :=
  let? _ := checkIncreasing None values in
  Ok (writeList values).

(** ** The blocks a profile commits to *)

Record CompatibilityBlockV1 := mkCompatBlock {
  cb_SchemaVersion : string;
  cb_CompilerSecurityVersion : string;
  cb_MinimumRuntimeVersion : string;
  cb_SupportedSecuritySuites : list string;
  cb_RequiredCapabilities : list string;
  cb_SupportedCarrierFamilies : list string;
  cb_SupportedProxyFeatures : list string;
  cb_SupportedStreamFeatures : list string;
  cb_MaxEnvelopeBytes : Z;
  cb_MaxStreamCount : Z;
  cb_MaxReplayWindow : Z;
}.

Record LimitBlockV1 := mkLimitBlock {
  lb_MaxFrameBytes : Z;
  lb_MaxPayloadBytes : Z;
  lb_MaxStates : Z;
  lb_MaxTransitions : Z;
  lb_MaxSessionMillis : Z;             (* uint64, the others uint32 *)
  lb_CarrierMaxEnvelopeBytes : Z;
  lb_CarrierMaxQueueDepth : Z;
  lb_SessionMaxConcurrentStreams : Z;
}.

Record SelectedSuiteV1 := mkSelectedSuite { KDFSuite : string; AEADSuite : string; MACSuite : string }.

#[export] Instance SelectedSuite_eq_dec : EqDecision SelectedSuiteV1.
Proof. solve_decision. Defined.

Record ConfigSourceBlockV1 := mkConfigSource {
  cs_ProfileID : string;
  cs_ProfileHash : bytes;
  cs_SecurityVersion : string;
  cs_SelectedSuite : SelectedSuiteV1;
  cs_EffectivePolicyHash : bytes;
  cs_SelectedCapabilityHash : bytes;
  cs_AdapterClass : string;
  cs_CompatibilityBlockHash : bytes;
  cs_LimitBlockHash : bytes;
}.

Record HandshakeModeBinding := mkBinding {
  hb_ClientOptional : list string;
  hb_ServerOptional : list string;
  hb_FeatureVectors : list string;
  hb_CarrierFamily : string;
  hb_CarrierPolicyHash : bytes;
  hb_EnvelopeLimit : Z;
  hb_MaxFrameBytes : Z;
  hb_LocalAdapterClass : string;
  hb_FramingPolicyHash : bytes;
  hb_StateMachinePolicyHash : bytes;
  hb_SchedulerPolicyHash : bytes;
  hb_PaddingPolicyHash : bytes;
  hb_StreamPolicyHash : bytes;
  hb_ProxyPolicyHash : bytes;
  hb_CarrierContextHash : bytes;
  hb_CompatibilityBlock : CompatibilityBlockV1;
  hb_CompatibilityBlockHash : bytes;
  hb_LimitBlock : LimitBlockV1;
  hb_LimitBlockHash : bytes;
  hb_ConfigSourceBlock : ConfigSourceBlockV1;
  hb_ConfigSourceBlockHash : bytes;
}.

Record AuthenticatedContextHashInputV1 := mkContextInput {
  ci_EffectivePolicy : EffectiveSecurityPolicy;
  ci_EffectivePolicyHash : bytes;
  ci_TranscriptHash : bytes;
  ci_SelectedSuite : SelectedSuiteV1;
  ci_SelectedCapabilityHash : bytes;
  ci_ClientProfileHash : bytes;
  ci_ServerProfileHash : bytes;
  ci_ClientModeBinding : HandshakeModeBinding;
  ci_ServerModeBinding : HandshakeModeBinding;
}.

(** The three version strings and the five lists, in encoding order. *)
Definition compatStrings (v : CompatibilityBlockV1) : list string :=
  [cb_SchemaVersion v; cb_CompilerSecurityVersion v; cb_MinimumRuntimeVersion v].
Definition compatLists (v : CompatibilityBlockV1) : list (list string) :=
  [cb_SupportedSecuritySuites v; cb_RequiredCapabilities v; cb_SupportedCarrierFamilies v;
   cb_SupportedProxyFeatures v; cb_SupportedStreamFeatures v].

Definition ValidateCompatibilityBlockV1 (v : CompatibilityBlockV1) : result error unit :=
  let? _ := forRange (compatStrings v) validateASCII in
  let? _ := forRange (imap pair (compatLists v)) (fun '(i, values) =>
      fail? (i <? 3)%nat && (zlen values =? 0) with ErrInvalidTranscript "missing required compatibility list" in
      let? _ := encodeStrictStringListV1 values in
      Ok tt) in
  reject ((cb_MaxEnvelopeBytes v =? 0) || (cb_MaxStreamCount v =? 0) || (cb_MaxReplayWindow v =? 0))
    (ErrInvalidTranscript "invalid compatibility ceiling").

Definition CanonicalCompatibilityBlockV1 (v : CompatibilityBlockV1) : result error bytes :=
  let? _ := ValidateCompatibilityBlockV1 v in
  Ok (concat ((fun s => writeLP (sbytes s)) <$> compatStrings v)
      ++ concat ((fun l => writeLP (writeList l)) <$> compatLists v)
      ++ writeU32 (cb_MaxEnvelopeBytes v) ++ writeU32 (cb_MaxStreamCount v) ++ writeU32 (cb_MaxReplayWindow v)).

Definition CompatibilityBlockHashV1 `{Encoding} (v : CompatibilityBlockV1) : result error bytes :=
  let? raw := CanonicalCompatibilityBlockV1 v in
  Ok (contextHash "kurdistan/context/v1/compatibility-block" [raw]).

Definition ValidateLimitBlockV1 (v : LimitBlockV1) : result error unit :=
  reject ((lb_MaxFrameBytes v =? 0) || (lb_MaxPayloadBytes v =? 0) || (lb_MaxStates v =? 0)
          || (lb_MaxTransitions v =? 0) || (lb_MaxSessionMillis v =? 0)
          || (lb_CarrierMaxEnvelopeBytes v =? 0) || (lb_CarrierMaxQueueDepth v =? 0)
          || (lb_SessionMaxConcurrentStreams v =? 0)
          || (lb_MaxFrameBytes v <? lb_CarrierMaxEnvelopeBytes v))
    (ErrInvalidTranscript "invalid retained limit").

Definition CanonicalLimitBlockV1 (v : LimitBlockV1) : result error bytes :=
  let? _ := ValidateLimitBlockV1 v in
  Ok (writeU32 (lb_MaxFrameBytes v) ++ writeU32 (lb_MaxPayloadBytes v) ++ writeU32 (lb_MaxStates v)
      ++ writeU32 (lb_MaxTransitions v) ++ writeU64Context (lb_MaxSessionMillis v)
      ++ writeU32 (lb_CarrierMaxEnvelopeBytes v) ++ writeU32 (lb_CarrierMaxQueueDepth v)
      ++ writeU32 (lb_SessionMaxConcurrentStreams v)).

Definition LimitBlockHashV1 `{Encoding} (v : LimitBlockV1) : result error bytes :=
  let? raw := CanonicalLimitBlockV1 v in
  Ok (contextHash "kurdistan/context/v1/limit-block" [raw]).

Definition ValidateSelectedSuiteV1 (v : SelectedSuiteV1) : result error unit :=
  forRange [KDFSuite v; AEADSuite v; MACSuite v] validateASCII.

Definition CanonicalSelectedSuiteV1 (v : SelectedSuiteV1) : result error bytes :=
  let? _ := ValidateSelectedSuiteV1 v in
  Ok (writeLP (sbytes (KDFSuite v)) ++ writeLP (sbytes (AEADSuite v)) ++ writeLP (sbytes (MACSuite v))).

Definition ValidateConfigSourceBlockV1 (v : ConfigSourceBlockV1) : result error unit :=
  let? _ := validateASCII (cs_ProfileID v) in
  let? _ := validateASCII (cs_SecurityVersion v) in
  let? _ := ValidateSelectedSuiteV1 (cs_SelectedSuite v) in
  let? _ := validateASCII (cs_AdapterClass v) in
  forRange [cs_ProfileHash v; cs_EffectivePolicyHash v; cs_SelectedCapabilityHash v;
            cs_CompatibilityBlockHash v; cs_LimitBlockHash v] (fun value =>
    reject (allZero32 value) (ErrInvalidTranscript "zero config-source hash")).

(** [raw, _ := ...]: the bytes, empty on an error. *)
Definition orNil (r : result error bytes) : bytes := match r with Ok raw => raw | Err _ => [] end.

Definition CanonicalConfigSourceBlockV1 (v : ConfigSourceBlockV1) : result error bytes :=
  let? _ := ValidateConfigSourceBlockV1 v in
  Ok (writeLP (sbytes (cs_ProfileID v)) ++ cs_ProfileHash v ++ writeLP (sbytes (cs_SecurityVersion v))
      ++ writeLP (orNil (CanonicalSelectedSuiteV1 (cs_SelectedSuite v))) ++ cs_EffectivePolicyHash v
      ++ cs_SelectedCapabilityHash v ++ writeLP (sbytes (cs_AdapterClass v))
      ++ cs_CompatibilityBlockHash v ++ cs_LimitBlockHash v).

Definition ConfigSourceBlockHashV1 `{Encoding} (v : ConfigSourceBlockV1) : result error bytes :=
  let? raw := CanonicalConfigSourceBlockV1 v in
  Ok (contextHash "kurdistan/context/v1/config-source-block" [raw]).

(** ** Policy and capabilities *)

Definition EncodePolicyV1 `{Encoding} (policy : EffectiveSecurityPolicy) : result error bytes :=
  let? _ := map_err (fun _ => ErrInvalidTranscript "invalid effective policy")
              (ValidateEffectiveSecurityPolicy policy) in
  Ok (concat ((fun s => writeLP (sbytes s)) <$>
        [eff_SecurityVersion policy; eff_TranscriptMode policy; eff_KDFSuite policy; eff_AEADSuite policy;
         eff_MACSuite policy; eff_NonceMode policy; eff_ReplayPolicy policy])
      ++ writeU32 (wrap32 (eff_ReplayWindowSize policy))
      ++ concat ((fun s => writeLP (sbytes s)) <$>
        [eff_DowngradePolicy policy; eff_CapabilityNegotiationPolicy policy;
         eff_ProfileCompatibilityPolicy policy; eff_KeyRotationPolicy policy;
         eff_ConfigValidationPolicy policy; eff_SecureEnvelopeMode policy])
      ++ PutUint64 (wrap64 (eff_MaxSessionMessages policy))
      ++ PutUint64 (wrap64 (eff_MaxKeyLifetimeMessages policy))).

Definition EffectivePolicyHashV1 `{Encoding} (policy : EffectiveSecurityPolicy) : result error bytes :=
  let? raw := EncodePolicyV1 policy in
  Ok (contextHash "kurdistan/policy/v1/effective" [raw]).

(** [CapabilitySet.Hash]. *)
Definition Hash `{Encoding} (c : CapabilitySet) : result error string :=
  let? caps := canonicalCapabilities (Features c) in
  Ok (EncodeToString (sum256 (jsonObject
        [("domain", jsonString "kurdistan-capabilities-v1"); ("items", jsonStrings caps)]))).

Definition SelectedCapabilityHashV1 `{Encoding} (values : list string) : result error bytes :=
  fail? zlen values =? 0 with ErrInvalidTranscript "empty selected capability set" in
  let? _ := encodeStrictStringListV1 values in
  match Hash (mkCapabilities values) with
  | Err _ => Err (ErrInvalidTranscript "invalid selected capability set")
  | Ok encoded =>
      fail? negb (slen encoded =? 64) with ErrInvalidTranscript "invalid selected capability set" in
      match decodeHex (sbytes encoded) with
      | None => Err (ErrInvalidTranscript "invalid selected capability hash")
      | Some raw =>
          fail? negb (zlen raw =? 32) with ErrInvalidTranscript "invalid selected capability hash" in
          fail? allZero32 raw with ErrInvalidTranscript "zero selected capability hash" in
          Ok raw
      end
  end.

(** ** Mode bindings *)

Definition TranscriptCanonicalV1 : string := "canonical_v1".
Definition TranscriptCapabilitiesV1 : string := "canonical_with_capabilities_v1".
Definition TranscriptCarrierBindingV1 : string := "canonical_with_carrier_binding_v1".
Definition TranscriptFullBindingV1 : string := "canonical_full_binding_v1".

Definition knownTranscriptModeV1 (mode : string) : bool :=
  mem mode [TranscriptCanonicalV1; TranscriptCapabilitiesV1; TranscriptCarrierBindingV1; TranscriptFullBindingV1].

Definition knownCarrierFamilyV1 (value : string) : bool :=
  bool_decide (value = "tls13-tcp") || mem value CarrierFamilies.

Definition adapterClasses : list string :=
  ["one_flow_one_stream"; "priority_mapped_stream"; "metadata_bound_stream"; "state_derived_mapping"].

Definition bindingHashes (b : HandshakeModeBinding) : list bytes :=
  [hb_FramingPolicyHash b; hb_StateMachinePolicyHash b; hb_SchedulerPolicyHash b; hb_PaddingPolicyHash b;
   hb_StreamPolicyHash b; hb_ProxyPolicyHash b; hb_CarrierContextHash b].

Definition bindingLists (b : HandshakeModeBinding) : list (list string) :=
  [hb_ClientOptional b; hb_ServerOptional b; hb_FeatureVectors b].

(** The loop over the three lists. *)
Fixpoint writeLists (lists : list (list string)) : result error bytes :=
  match lists with
  | [] => Ok []
  | values :: rest =>
      let? raw := EncodeStringListV1 values in
      let? more := writeLists rest in
      Ok (writeLP raw ++ more)
  end.

Definition writeCapabilities (b : HandshakeModeBinding) : result error bytes :=
  fail? zlen (hb_FeatureVectors b) =? 0 with ErrInvalidTranscript "missing compatibility feature vectors" in
  writeLists (bindingLists b).

Definition writeCarrier (b : HandshakeModeBinding) : result error bytes :=
  let? _ := validateASCII (hb_CarrierFamily b) in
  let? _ := validateASCII (hb_LocalAdapterClass b) in
  fail? negb (knownCarrierFamilyV1 (hb_CarrierFamily b)) || negb (mem (hb_LocalAdapterClass b) adapterClasses)
      || allZero32 (hb_CarrierPolicyHash b) || (hb_EnvelopeLimit b =? 0) || (hb_MaxFrameBytes b =? 0)
      || (hb_MaxFrameBytes b <? hb_EnvelopeLimit b) || (Z.shiftl 1 20 <? hb_MaxFrameBytes b)
    with ErrInvalidTranscript "invalid carrier binding" in
  Ok (writeLP (sbytes (hb_CarrierFamily b)) ++ hb_CarrierPolicyHash b ++ writeU32 (hb_EnvelopeLimit b)
      ++ writeLP (sbytes (hb_LocalAdapterClass b))).

Definition CanonicalHandshakeModeBinding (mode : string) (b : HandshakeModeBinding) : result error bytes :=
  let label := writeLP (sbytes ("kurdistan/transcript/v1/" +:+ mode)) in
  if bool_decide (mode = TranscriptCanonicalV1) then Ok label
  else if bool_decide (mode = TranscriptCapabilitiesV1) then
    let? caps := writeCapabilities b in Ok (label ++ caps)
  else if bool_decide (mode = TranscriptCarrierBindingV1) then
    let? carrier := writeCarrier b in Ok (label ++ carrier)
  else if bool_decide (mode = TranscriptFullBindingV1) then
    let? caps := writeCapabilities b in
    let? carrier := writeCarrier b in
    let? _ := forRange (bindingHashes b) (fun value =>
        reject (allZero32 value) (ErrInvalidTranscript "invalid full binding")) in
    Ok (label ++ caps ++ carrier ++ concat (bindingHashes b))
  else Err (ErrInvalidTranscript "unknown transcript mode").

Definition CanonicalAuthenticatedModeBindingV1 `{Encoding} (mode : string) (b : HandshakeModeBinding)
    : result error bytes :=
  fail? negb (knownTranscriptModeV1 mode) with ErrInvalidTranscript "unknown transcript mode" in
  let? _ := validateASCII (hb_CarrierFamily b) in
  let? _ := validateASCII (hb_LocalAdapterClass b) in
  fail? (zlen (hb_FeatureVectors b) =? 0) || (hb_EnvelopeLimit b =? 0) || (hb_MaxFrameBytes b =? 0)
      || (hb_MaxFrameBytes b <? hb_EnvelopeLimit b) || (Z.shiftl 1 20 <? hb_MaxFrameBytes b)
      || negb (knownCarrierFamilyV1 (hb_CarrierFamily b)) || negb (mem (hb_LocalAdapterClass b) adapterClasses)
    with ErrInvalidTranscript "invalid authenticated mode binding" in
  fail? negb (hb_EnvelopeLimit b =? lb_CarrierMaxEnvelopeBytes (hb_LimitBlock b))
      || negb (hb_MaxFrameBytes b =? lb_MaxFrameBytes (hb_LimitBlock b))
    with ErrInvalidTranscript "contradictory retained limits" in
  let? _ := forRange (bindingLists b) (fun values => let? _ := encodeStrictStringListV1 values in Ok tt) in
  let? _ := forRange ([hb_CarrierPolicyHash b] ++ bindingHashes b
                      ++ [hb_CompatibilityBlockHash b; hb_LimitBlockHash b; hb_ConfigSourceBlockHash b])
      (fun value => reject (allZero32 value) (ErrInvalidTranscript "zero authenticated binding hash")) in
  let? compatibilityRaw := CanonicalCompatibilityBlockV1 (hb_CompatibilityBlock b) in
  fail? negb (bool_decide (CompatibilityBlockHashV1 (hb_CompatibilityBlock b) = Ok (hb_CompatibilityBlockHash b)))
    with ErrInvalidTranscript "compatibility hash mismatch" in
  let? limitRaw := CanonicalLimitBlockV1 (hb_LimitBlock b) in
  fail? negb (bool_decide (LimitBlockHashV1 (hb_LimitBlock b) = Ok (hb_LimitBlockHash b)))
    with ErrInvalidTranscript "limit hash mismatch" in
  let? configRaw := CanonicalConfigSourceBlockV1 (hb_ConfigSourceBlock b) in
  fail? negb (bool_decide (ConfigSourceBlockHashV1 (hb_ConfigSourceBlock b) = Ok (hb_ConfigSourceBlockHash b)))
      || negb (bool_decide (cs_CompatibilityBlockHash (hb_ConfigSourceBlock b) = hb_CompatibilityBlockHash b))
      || negb (bool_decide (cs_LimitBlockHash (hb_ConfigSourceBlock b) = hb_LimitBlockHash b))
      || negb (bool_decide (cs_AdapterClass (hb_ConfigSourceBlock b) = hb_LocalAdapterClass b))
    with ErrInvalidTranscript "config-source binding mismatch" in
  Ok (writeLP (sbytes mode) ++ concat ((fun l => writeLP (writeList l)) <$> bindingLists b)
      ++ writeLP (sbytes (hb_CarrierFamily b)) ++ hb_CarrierPolicyHash b ++ writeU32 (hb_EnvelopeLimit b)
      ++ writeU32 (hb_MaxFrameBytes b) ++ writeLP (sbytes (hb_LocalAdapterClass b))
      ++ concat (bindingHashes b)
      ++ writeLP compatibilityRaw ++ hb_CompatibilityBlockHash b
      ++ writeLP limitRaw ++ hb_LimitBlockHash b
      ++ writeLP configRaw ++ hb_ConfigSourceBlockHash b).

(** ** The context hash *)

Definition validateContextBindingV1 `{Encoding} (input : AuthenticatedContextHashInputV1)
    (b : HandshakeModeBinding) (profileHash : bytes) : result error bytes :=
  let policy := ci_EffectivePolicy input in
  let c := hb_CompatibilityBlock b in
  let config := hb_ConfigSourceBlock b in
  fail? (cb_MaxReplayWindow c <? wrap32 (eff_ReplayWindowSize policy))
      || (cb_MaxStreamCount c <? lb_SessionMaxConcurrentStreams (hb_LimitBlock b))
      || (cb_MaxEnvelopeBytes c <? lb_CarrierMaxEnvelopeBytes (hb_LimitBlock b))
    with ErrInvalidTranscript "effective value exceeds compatibility ceiling" in
  fail? negb (bool_decide (cs_ProfileID config = eff_ProfileID policy))
      || negb (bool_decide (cs_ProfileHash config = profileHash))
      || negb (bool_decide (cs_SecurityVersion config = eff_SecurityVersion policy))
      || negb (bool_decide (cs_SelectedSuite config = ci_SelectedSuite input))
      || negb (bool_decide (cs_EffectivePolicyHash config = ci_EffectivePolicyHash input))
      || negb (bool_decide (cs_SelectedCapabilityHash config = ci_SelectedCapabilityHash input))
      || negb (bool_decide (cb_SchemaVersion c = eff_SchemaVersion policy))
      || negb (bool_decide (cb_CompilerSecurityVersion c = eff_CompilerSecurityVersion policy))
      || negb (bool_decide (cb_MinimumRuntimeVersion c = eff_MinimumRuntimeVersion policy))
    with ErrInvalidTranscript "context source mismatch" in
  CanonicalAuthenticatedModeBindingV1 (eff_TranscriptMode policy) b.

(** The parts of the hash, in order, over the encodings computed before. *)
Definition contextParts (input : AuthenticatedContextHashInputV1)
    (policyRaw suiteRaw clientMode serverMode : bytes) : list bytes :=
  let c := ci_ClientModeBinding input in
  let s := ci_ServerModeBinding input in
  [PutUint16 1; policyRaw; ci_EffectivePolicyHash input; ci_TranscriptHash input; suiteRaw;
   ci_SelectedCapabilityHash input; ci_ClientProfileHash input; ci_ServerProfileHash input;
   orNil (CanonicalCompatibilityBlockV1 (hb_CompatibilityBlock c)); hb_CompatibilityBlockHash c;
   orNil (CanonicalCompatibilityBlockV1 (hb_CompatibilityBlock s)); hb_CompatibilityBlockHash s;
   orNil (CanonicalLimitBlockV1 (hb_LimitBlock c)); hb_LimitBlockHash c;
   orNil (CanonicalLimitBlockV1 (hb_LimitBlock s)); hb_LimitBlockHash s;
   orNil (CanonicalConfigSourceBlockV1 (hb_ConfigSourceBlock c)); hb_ConfigSourceBlockHash c;
   orNil (CanonicalConfigSourceBlockV1 (hb_ConfigSourceBlock s)); hb_ConfigSourceBlockHash s;
   clientMode; serverMode].

Definition contextLabel : string := "kurdistan/context/v1/authenticated".

(** The checks, and the parts that are hashed. *)
Definition contextInput `{Encoding} (input : AuthenticatedContextHashInputV1) : result error (list bytes) :=
  let policy := ci_EffectivePolicy input in
  let? policyRaw := EncodePolicyV1 policy in
  fail? negb (bool_decide (EffectivePolicyHashV1 policy = Ok (ci_EffectivePolicyHash input)))
      || allZero32 (ci_TranscriptHash input) || allZero32 (ci_SelectedCapabilityHash input)
      || allZero32 (ci_ClientProfileHash input) || allZero32 (ci_ServerProfileHash input)
    with ErrInvalidTranscript "invalid authenticated context identity" in
  let? profileRaw := match decodeHex (sbytes (eff_ProfileHash policy)) with
                     | Some raw => Ok raw
                     | None => Err (ErrInvalidTranscript "invalid effective profile hash")
                     end in
  fail? negb (zlen profileRaw =? 32) with ErrInvalidTranscript "invalid effective profile hash" in
  fail? allZero32 profileRaw || negb (bool_decide (ci_ClientProfileHash input = profileRaw))
      || negb (bool_decide (ci_ServerProfileHash input = profileRaw))
    with ErrInvalidTranscript "authenticated profile hash mismatch" in
  let? suiteRaw := CanonicalSelectedSuiteV1 (ci_SelectedSuite input) in
  fail? negb (bool_decide (SelectedCapabilityHashV1 (eff_SelectedCapabilities policy)
                           = Ok (ci_SelectedCapabilityHash input)))
    with ErrInvalidTranscript "selected capability hash mismatch" in
  fail? negb (bool_decide (ci_SelectedSuite input
                = mkSelectedSuite (eff_KDFSuite policy) (eff_AEADSuite policy) (eff_MACSuite policy)))
    with ErrInvalidTranscript "selected suite mismatch" in
  let? clientMode := validateContextBindingV1 input (ci_ClientModeBinding input) (ci_ClientProfileHash input) in
  let? serverMode := validateContextBindingV1 input (ci_ServerModeBinding input) (ci_ServerProfileHash input) in
  Ok (contextParts input policyRaw suiteRaw clientMode serverMode).

Definition ContextHashV1 `{Encoding} (input : AuthenticatedContextHashInputV1) : result error bytes :=
  let? parts := contextInput input in
  Ok (contextHash contextLabel parts).
