(* ===== verification/TranscriptFacts.v ===== *)
(** * What transcript bindings and context hashes commit to

    The canonical encodings of [Transcript] are injective as long as they are
    shorter than [2^32] bytes (a longer length prefix would wrap), so a context
    hash fixes every field that went into it up to a SHA-256 collision. *)

From S2P Require Import Prelude GoBytes GoJson SecurityErrors KeySchedule Ir Validate Negotiate Transcript.
From Stdlib Require Import ZArith Lia Strings.Byte.
From stdpp Require Import base list sets strings sorting.
Local Open Scope Z_scope.

(** ** Injective writers *)

Definition small (b : bytes) : Prop := zlen b < 2 ^ 32.

Lemma small_app a b : small (a ++ b) -> small a /\ small b.
Proof. unfold small. rewrite zlen_app. pose proof (zlen_nonneg a). pose proof (zlen_nonneg b). lia. Qed.

Lemma zlen_writeLP v : zlen (writeLP v) = 4 + zlen v.
Proof. unfold writeLP, writeU32, PutUint32. by rewrite zlen_app, zlen_put_be. Qed.

Lemma u32_inj x y r r' : u32 x -> u32 y -> writeU32 x ++ r = writeU32 y ++ r' -> x = y /\ r = r'.
Proof. intros Hx Hy. by apply put_be_app_inj. Qed.

Lemma lp_inj v v' r r' : small (writeLP v ++ r) -> writeLP v ++ r = writeLP v' ++ r' -> v = v' /\ r = r'.
Proof.
  intros HS HE. pose proof HS as HS'. rewrite HE in HS'. apply small_app in HS as [HS _], HS' as [HS' _].
  unfold small in HS, HS'. rewrite zlen_writeLP in HS, HS'. pose proof (zlen_nonneg v). pose proof (zlen_nonneg v').
  unfold writeLP in HE. rewrite <- !app_assoc, !wrap32_small in HE by (unfold_widths; lia).
  apply u32_inj in HE as [HL HE]; [|unfold_widths; lia..]. by apply bytes_app_inj.
Qed.

Lemma strings_inj l l' r r' : length l = length l' ->
  small (concat ((fun s => writeLP (sbytes s)) <$> l) ++ r) ->
  concat ((fun s => writeLP (sbytes s)) <$> l) ++ r = concat ((fun s => writeLP (sbytes s)) <$> l') ++ r' ->
  l = l' /\ r = r'.
Proof.
  revert l'. induction l as [|s l IH]; intros [|t l'] HL HS HE; cbn [length] in HL; try done.
  cbn [fmap list_fmap concat] in HS, HE. rewrite <- !app_assoc in HS. rewrite <- !app_assoc in HE.
  apply lp_inj in HE as [E HE]; [|done]. apply sbytes_inj in E as ->. apply small_app in HS as [_ HS].
  apply IH in HE as [-> ->]; [done|lia|done].
Qed.

Lemma zlen_writeList l : 4 + 4 * zlen l <= zlen (writeList l).
Proof.
  unfold writeList, writeU32, PutUint32. rewrite zlen_app, zlen_put_be. change (Z.of_nat 4) with 4.
  induction l as [|s l IH]; cbn [fmap list_fmap concat]; [unfold zlen; cbn; lia|].
  rewrite zlen_app, zlen_writeLP, zlen_cons. pose proof (zlen_nonneg (sbytes s)). lia.
Qed.

Lemma writeList_inj l l' r r' : small (writeList l ++ r) -> writeList l ++ r = writeList l' ++ r' ->
  l = l' /\ r = r'.
Proof.
  intros HS HE. pose proof HS as HS'. rewrite HE in HS'. pose proof (proj1 (small_app _ _ HS)) as B.
  pose proof (proj1 (small_app _ _ HS')) as B'. pose proof (zlen_writeList l). pose proof (zlen_writeList l').
  unfold small in B, B'. pose proof (zlen_nonneg l). pose proof (zlen_nonneg l').
  unfold writeList in HE. unfold writeList in HS. rewrite <- !app_assoc, !wrap32_small in HE by (unfold_widths; lia).
  apply u32_inj in HE as [HL HE]; [|unfold_widths; lia..]. rewrite <- app_assoc in HS. apply small_app in HS as [_ HS].
  apply strings_inj in HE; [done|unfold zlen in HL; lia|done].
Qed.

Lemma lists_inj ls ls' r r' : length ls = length ls' ->
  small (concat ((fun l => writeLP (writeList l)) <$> ls) ++ r) ->
  concat ((fun l => writeLP (writeList l)) <$> ls) ++ r = concat ((fun l => writeLP (writeList l)) <$> ls') ++ r' ->
  ls = ls' /\ r = r'.
Proof.
  revert ls'. induction ls as [|l ls IH]; intros [|l' ls'] HL HS HE; cbn [length] in HL; try done.
  cbn [fmap list_fmap concat] in HS, HE. rewrite <- !app_assoc in HS. rewrite <- !app_assoc in HE.
  apply lp_inj in HE as [E HE]; [|done]. apply small_app in HS as [HS0 HS].
  assert (l = l') as ->.
  { apply small_app in HS0 as [_ HS0]. destruct (writeList_inj l l' [] []) as [-> _]; [|by rewrite E|done].
    by rewrite app_nil_r. }
  apply IH in HE as [-> ->]; [done|lia|done].
Qed.

Definition hash32 (b : bytes) : Prop := zlen b = 32.

Lemma hashes_inj hs hs' r r' : length hs = length hs' -> Forall hash32 hs -> Forall hash32 hs' ->
  concat hs ++ r = concat hs' ++ r' -> hs = hs' /\ r = r'.
Proof.
  revert hs'. induction hs as [|h hs IH]; intros [|h' hs'] HL H1 H2 HE; cbn [length] in HL; try done.
  apply Forall_cons_1 in H1 as [A1 H1], H2 as [A2 H2]. unfold hash32 in A1, A2. cbn [concat] in HE. rewrite <- !app_assoc in HE.
  apply bytes_app_inj in HE as [-> HE]; [|congruence]. apply IH in HE as [-> ->]; [done|lia|done|done].
Qed.

(** ** Blocks *)

Definition typedCompat (v : CompatibilityBlockV1) : Prop :=
  u32 (cb_MaxEnvelopeBytes v) /\ u32 (cb_MaxStreamCount v) /\ u32 (cb_MaxReplayWindow v).

Definition typedLimit (v : LimitBlockV1) : Prop :=
  Forall u32 [lb_MaxFrameBytes v; lb_MaxPayloadBytes v; lb_MaxStates v; lb_MaxTransitions v;
    lb_CarrierMaxEnvelopeBytes v; lb_CarrierMaxQueueDepth v; lb_SessionMaxConcurrentStreams v] /\
  u64 (lb_MaxSessionMillis v).

Definition typedConfig (v : ConfigSourceBlockV1) : Prop :=
  Forall hash32 [cs_ProfileHash v; cs_EffectivePolicyHash v; cs_SelectedCapabilityHash v;
    cs_CompatibilityBlockHash v; cs_LimitBlockHash v].

Lemma compat_inj v v' raw : typedCompat v -> typedCompat v' -> small raw ->
  CanonicalCompatibilityBlockV1 v = Ok raw -> CanonicalCompatibilityBlockV1 v' = Ok raw -> v = v'.
Proof.
  intros (A1 & A2 & A3) (B1 & B2 & B3) HS HV HV'. unfold CanonicalCompatibilityBlockV1 in HV, HV'.
  apply rbind_ok in HV as (_ & _ & <-%Ok_inj), HV' as (_ & _ & HE%Ok_inj). symmetry in HE.
  apply strings_inj in HE as [E1 HE]; [|done..]. apply small_app in HS as [_ HS].
  apply lists_inj in HE as [E2 HE]; [|done..].
  apply u32_inj in HE as [E3 HE]; [|done..]. apply u32_inj in HE as [E4 HE]; [|done..].
  rewrite <- (app_nil_r (writeU32 _)) in HE. rewrite <- (app_nil_r (writeU32 (cb_MaxReplayWindow v'))) in HE.
  apply u32_inj in HE as [E5 _]; [|done..]. unfold compatStrings, compatLists in E1, E2.
  destruct v, v'; cbn in *. by simplify_eq.
Qed.

Lemma limit_inj v v' raw : typedLimit v -> typedLimit v' ->
  CanonicalLimitBlockV1 v = Ok raw -> CanonicalLimitBlockV1 v' = Ok raw -> v = v'.
Proof.
  intros [A1 A2] [B1 B2] HV HV'. unfold CanonicalLimitBlockV1 in HV, HV'.
  apply rbind_ok in HV as (_ & _ & <-%Ok_inj), HV' as (_ & _ & HE%Ok_inj). symmetry in HE.
  rewrite !Forall_cons in A1. rewrite !Forall_cons in B1.
  rewrite <- (app_nil_r (writeU32 (lb_SessionMaxConcurrentStreams v))) in HE.
  rewrite <- (app_nil_r (writeU32 (lb_SessionMaxConcurrentStreams v'))) in HE.
  apply u32_inj in HE as [E1 HE]; [|tauto..]. apply u32_inj in HE as [E2 HE]; [|tauto..].
  apply u32_inj in HE as [E3 HE]; [|tauto..]. apply u32_inj in HE as [E4 HE]; [|tauto..].
  apply put_be_app_inj in HE as [E5 HE]; [|done..]. apply u32_inj in HE as [E6 HE]; [|tauto..].
  apply u32_inj in HE as [E7 HE]; [|tauto..]. apply u32_inj in HE as [E8 HE]; [|tauto..].
  destruct v, v'; cbn in *. by simplify_eq.
Qed.

Lemma suite_inj v v' raw : small raw -> CanonicalSelectedSuiteV1 v = Ok raw ->
  CanonicalSelectedSuiteV1 v' = Ok raw -> v = v'.
Proof.
  intros HS HV HV'. unfold CanonicalSelectedSuiteV1 in HV, HV'.
  apply rbind_ok in HV as (_ & _ & <-%Ok_inj), HV' as (_ & _ & HE%Ok_inj). symmetry in HE.
  apply lp_inj in HE as [E1 HE]; [|done]. apply small_app in HS as [_ HS].
  apply lp_inj in HE as [E2 HE]; [|done]. apply small_app in HS as [_ HS].
  rewrite <- (app_nil_r (writeLP (sbytes (MACSuite v)))) in HE, HS.
  rewrite <- (app_nil_r (writeLP (sbytes (MACSuite v')))) in HE.
  apply lp_inj in HE as [E3 _]; [|done]. apply sbytes_inj in E1, E2, E3. destruct v, v'; cbn in *. by simplify_eq.
Qed.

Lemma config_inj v v' raw : typedConfig v -> typedConfig v' -> small raw ->
  CanonicalConfigSourceBlockV1 v = Ok raw -> CanonicalConfigSourceBlockV1 v' = Ok raw -> v = v'.
Proof.
  intros A B HS HV HV'. unfold CanonicalConfigSourceBlockV1 in HV, HV'.
  apply rbind_ok in HV as ([] & V1 & <-%Ok_inj), HV' as ([] & V2 & HE%Ok_inj). symmetry in HE.
  assert (exists s1, CanonicalSelectedSuiteV1 (cs_SelectedSuite v) = Ok s1) as [s1 Q1].
  { unfold ValidateConfigSourceBlockV1 in V1. go_inv V1. unfold CanonicalSelectedSuiteV1. rewrite E1. by eexists. }
  assert (exists s2, CanonicalSelectedSuiteV1 (cs_SelectedSuite v') = Ok s2) as [s2 Q2].
  { unfold ValidateConfigSourceBlockV1 in V2. go_inv V2. unfold CanonicalSelectedSuiteV1. rewrite E1. by eexists. }
  rewrite Q1 in HS. rewrite Q1, Q2 in HE. cbn [orNil] in HS, HE.
  unfold typedConfig in A, B. rewrite !Forall_cons in A. rewrite !Forall_cons in B. unfold hash32 in A, B.
  destruct A as (A1 & A2 & A3 & A4 & A5 & _), B as (B1 & B2 & B3 & B4 & B5 & _).
  apply lp_inj in HE as [E1 HE]; [|done]. apply small_app in HS as [_ HS].
  apply bytes_app_inj in HE as [E2 HE]; [|congruence]. apply small_app in HS as [_ HS].
  apply lp_inj in HE as [E3 HE]; [|done]. apply small_app in HS as [_ HS].
  apply lp_inj in HE as [E4 HE]; [|done]. apply small_app in HS as [HS4 HS]. apply small_app in HS4 as [_ HS4].
  apply bytes_app_inj in HE as [E5 HE]; [|congruence]. apply small_app in HS as [_ HS].
  apply bytes_app_inj in HE as [E6 HE]; [|congruence]. apply small_app in HS as [_ HS].
  apply lp_inj in HE as [E7 HE]; [|done].
  apply bytes_app_inj in HE as [E8 E9]; [|congruence]. subst s2.
  pose proof (suite_inj _ _ _ HS4 Q1 Q2) as E10. apply sbytes_inj in E1, E3, E7.
  destruct v, v'; cbn in *. by simplify_eq.
Qed.

(** ** Mode bindings *)

Record typedBinding (b : HandshakeModeBinding) : Prop := {
  tb_limits : u32 (hb_EnvelopeLimit b) /\ u32 (hb_MaxFrameBytes b);
  tb_carrier : hash32 (hb_CarrierPolicyHash b);
  tb_hashes : Forall hash32 (bindingHashes b);
  tb_blocks : hash32 (hb_CompatibilityBlockHash b) /\ hash32 (hb_LimitBlockHash b) /\
    hash32 (hb_ConfigSourceBlockHash b);
  tb_compat : typedCompat (hb_CompatibilityBlock b);
  tb_limit : typedLimit (hb_LimitBlock b);
  tb_config : typedConfig (hb_ConfigSourceBlock b);
}.

Section binding.
Context `{Encoding}.

(** The bytes of an accepted authenticated binding. *)
Lemma authBinding_ok mode b raw : CanonicalAuthenticatedModeBindingV1 mode b = Ok raw ->
  exists c l g, CanonicalCompatibilityBlockV1 (hb_CompatibilityBlock b) = Ok c /\
    CanonicalLimitBlockV1 (hb_LimitBlock b) = Ok l /\ CanonicalConfigSourceBlockV1 (hb_ConfigSourceBlock b) = Ok g /\
    raw = writeLP (sbytes mode) ++ concat ((fun l => writeLP (writeList l)) <$> bindingLists b)
      ++ writeLP (sbytes (hb_CarrierFamily b)) ++ hb_CarrierPolicyHash b ++ writeU32 (hb_EnvelopeLimit b)
      ++ writeU32 (hb_MaxFrameBytes b) ++ writeLP (sbytes (hb_LocalAdapterClass b))
      ++ concat (bindingHashes b)
      ++ writeLP c ++ hb_CompatibilityBlockHash b ++ writeLP l ++ hb_LimitBlockHash b
      ++ writeLP g ++ hb_ConfigSourceBlockHash b.
Proof using Type.
  unfold CanonicalAuthenticatedModeBindingV1. intros HB. go_inv HB. apply Ok_inj in HB as <-.
  by eexists _, _, _.
Qed.

Lemma authBinding_inj mode mode' b b' raw : typedBinding b -> typedBinding b' -> small raw ->
  CanonicalAuthenticatedModeBindingV1 mode b = Ok raw -> CanonicalAuthenticatedModeBindingV1 mode' b' = Ok raw ->
  mode = mode' /\ b = b'.
Proof using Type.
  intros [[A1 A2] A3 A4 (A5 & A6 & A7) A8 A9 A10] [[B1 B2] B3 B4 (B5 & B6 & B7) B8 B9 B10] HS
    (c & l & g & Q1 & Q2 & Q3 & ->)%authBinding_ok (c' & l' & g' & R1 & R2 & R3 & HE)%authBinding_ok.
  unfold hash32 in A3, A5, A6, A7, B3, B5, B6, B7.
  apply lp_inj in HE as [E1 HE]; [|done]. apply small_app in HS as [_ HS].
  apply lists_inj in HE as [E2 HE]; [|done..]. apply small_app in HS as [_ HS].
  apply lp_inj in HE as [E3 HE]; [|done]. apply small_app in HS as [_ HS].
  apply bytes_app_inj in HE as [E4 HE]; [|congruence]. apply small_app in HS as [_ HS].
  apply u32_inj in HE as [E5 HE]; [|done..]. apply small_app in HS as [_ HS].
  apply u32_inj in HE as [E6 HE]; [|done..]. apply small_app in HS as [_ HS].
  apply lp_inj in HE as [E7 HE]; [|done]. apply small_app in HS as [_ HS].
  apply hashes_inj in HE as [E8 HE]; [|done..]. apply small_app in HS as [_ HS].
  apply lp_inj in HE as [<- HE]; [|done]. apply small_app in HS as [S9 HS]. apply small_app in S9 as [_ S9].
  apply bytes_app_inj in HE as [E10 HE]; [|congruence]. apply small_app in HS as [_ HS].
  apply lp_inj in HE as [<- HE]; [|done]. apply small_app in HS as [_ HS].
  apply bytes_app_inj in HE as [E12 HE]; [|congruence]. apply small_app in HS as [_ HS].
  apply lp_inj in HE as [<- E14]; [|done]. apply small_app in HS as [S13 _]. apply small_app in S13 as [_ S13].
  pose proof (compat_inj _ _ _ A8 B8 S9 Q1 R1) as F1. pose proof (limit_inj _ _ _ A9 B9 Q2 R2) as F2.
  pose proof (config_inj _ _ _ A10 B10 S13 Q3 R3) as F3.
  apply sbytes_inj in E1, E3, E7. split; [done|]. unfold bindingLists, bindingHashes in E2, E8.
  destruct b, b'; cbn in *. by simplify_eq.
Qed.
End binding.

(** ** The policy *)

Lemma effective_security `{Encoding} p : ValidateEffectiveSecurityPolicy p = Ok tt ->
  validateSecurityPolicy (securityPolicyOf p) = Ok tt.
Proof.
  unfold ValidateEffectiveSecurityPolicy. intros HV. go_inv HV. destruct x0. by apply map_err_ok in E0.
Qed.

Lemma security_ranges p : validateSecurityPolicy p = Ok tt -> u32 (sec_ReplayWindowSize p) /\
  u64 (sec_MaxSessionMessages p) /\ u64 (sec_MaxKeyLifetimeMessages p).
Proof.
  unfold validateSecurityPolicy. intros HV. go_inv HV.
  repeat match goal with G : (_ <=? _) || _ = false |- _ => apply orb_false_iff in G as [?%Z.leb_gt ?%Z.ltb_ge] end.
  unfold_widths. lia.
Qed.

Lemma policy_inj `{Encoding} p p' raw : small raw -> EncodePolicyV1 p = Ok raw -> EncodePolicyV1 p' = Ok raw ->
  securityPolicyOf p = securityPolicyOf p'.
Proof.
  intros HS HV HV'. unfold EncodePolicyV1 in HV, HV'.
  apply rbind_ok in HV as ([] & V1%map_err_ok & <-%Ok_inj), HV' as ([] & V2%map_err_ok & HE%Ok_inj). symmetry in HE.
  apply effective_security, security_ranges in V1 as (A1 & A2 & A3), V2 as (B1 & B2 & B3).
  cbn [securityPolicyOf sec_ReplayWindowSize sec_MaxSessionMessages sec_MaxKeyLifetimeMessages] in *.
  rewrite !wrap32_small in HE by done. rewrite !wrap64_small in HE by done.
  rewrite !wrap32_small in HS by done. rewrite !wrap64_small in HS by done.
  apply strings_inj in HE as [E1 HE]; [|done..]. apply small_app in HS as [_ HS].
  apply u32_inj in HE as [E2 HE]; [|done..]. apply small_app in HS as [_ HS].
  apply strings_inj in HE as [E3 HE]; [|done..].
  apply put_be_app_inj in HE as [E4 HE]; [|done..]. apply put_be_inj in HE; [|done..].
  injection E1 as F1 F2 F3 F4 F5 F6 F7. injection E3 as K1 K2 K3 K4 K5 K6.
  unfold securityPolicyOf. clear - E2 E4 HE F1 F2 F3 F4 F5 F6 F7 K1 K2 K3 K4 K5 K6. by f_equal.
Qed.

(** ** Selected capabilities *)

Definition collision `{Encoding} : Prop := exists x y, x <> y /\ sum256 x = sum256 y.

Lemma hash_inputs `{Encoding} x y : sum256 x = sum256 y -> x = y \/ collision.
Proof. intros HE. destruct (decide (x = y)) as [->|Hne]; [by left|]. right. by exists x, y. Qed.

Lemma known_ascii l : known l -> Forall (fun s => asciiText (sbytes s)) l.
Proof.
  intros Hl. eapply Forall_impl; [exact Hl|]. intros c Hc.
  assert (HA : Forall (fun s => Forall (fun b => bz b < 128) (sbytes s)) KnownCapabilities)
    by (repeat constructor).
  rewrite Forall_forall in HA. by apply HA.
Qed.

Lemma checkIncreasing_sorted prev l : checkIncreasing prev l = Ok tt ->
  Sorted String.le l /\ NoDup l /\ (forall p, prev = Some p -> Forall (fun s => String.le p s /\ p <> s) l).
Proof.
  revert prev. induction l as [|s l IH]; intros prev HC; [split; [constructor|]; split; constructor|].
  cbn [checkIncreasing] in HC. go_inv HC. apply IH in HC as (I1 & I2 & I3). specialize (I3 s eq_refl).
  assert (HP : forall p, prev = Some p -> String.le p s /\ p <> s).
  { intros p ->. apply bool_decide_eq_false in G. destruct (total String.le p s) as [HL|HL]; [|done].
    split; [done|]. intros ->. by apply G. }
  split_and!.
  - apply Sorted_cons; [done|]. destruct l as [|t l]; constructor. apply Forall_cons_1 in I3 as [[? _] _]. done.
  - apply NoDup_cons_2; [|done]. intros Hin. rewrite Forall_forall in I3. by destruct (I3 s Hin).
  - intros p Hp. destruct (HP p Hp) as [HL Hne]. constructor; [done|].
    eapply Forall_impl; [exact I3|]. intros t [Ht Hst]. split; [by etrans|]. intros ->.
    apply Hst. by apply (anti_symm String.le).
Qed.

Lemma capabilityHash_ok `{Encoding} values h : SelectedCapabilityHashV1 values = Ok h ->
  known values /\ h = sum256 (jsonObject [("domain", jsonString "kurdistan-capabilities-v1"); ("items", jsonStrings values)]).
Proof.
  unfold SelectedCapabilityHashV1. intros HV. apply reject_bind_ok in HV as [_ HV].
  apply rbind_ok in HV as (raw & HR & HV). unfold encodeStrictStringListV1 in HR.
  apply rbind_ok in HR as ([] & (S1 & S2 & _)%checkIncreasing_sorted & _). unfold Hash in HV. cbn [Features] in HV.
  destruct (canonicalCapabilities values) as [caps|] eqn:EC; [|done]. cbn [rbind] in HV.
  apply canonicalCapabilities_spec in EC as (K1 & K2 & K3 & K4).
  assert (caps = values) as -> by (by apply sorted_set_unique).
  apply reject_bind_ok in HV as [_ HV]. rewrite decodeHex_encode in HV. go_inv HV. by apply Ok_inj in HV as <-.
Qed.

Lemma capabilityHash_inj `{Encoding} v v' h : SelectedCapabilityHashV1 v = Ok h -> SelectedCapabilityHashV1 v' = Ok h ->
  v = v' \/ collision.
Proof.
  intros (K1 & ->)%capabilityHash_ok (K2 & HE)%capabilityHash_ok. apply hash_inputs in HE as [HE|HE]; [|by right].
  left. unfold jsonObject in HE. cbn [fmap list_fmap fst snd jsonJoin app] in HE. injection HE as HE.
  rewrite <- !app_assoc in HE. by apply jsonJoin_inj in HE as [-> _]; [|apply known_ascii..].
Qed.

(** ** The context hash *)

Lemma lps_inj l l' : length l = length l' -> small (concat (writeLP <$> l)) ->
  concat (writeLP <$> l) = concat (writeLP <$> l') -> l = l'.
Proof.
  revert l'. induction l as [|v l IH]; intros [|v' l'] HL HS HE; cbn [length] in HL; try done.
  cbn [fmap list_fmap concat] in HS, HE. apply lp_inj in HE as [-> HE]; [|done]. apply small_app in HS as [_ HS].
  f_equal. apply IH; [lia|done..].
Qed.

Lemma lp_part l v : v ∈ l -> small (concat (writeLP <$> l)) -> small v.
Proof.
  induction l as [|w l IH]; [by intros ?%elem_of_nil|]. cbn [fmap list_fmap concat].
  intros [->|Hin]%elem_of_cons [S1 S2]%small_app; [by apply small_app in S1 as [_ ?]|by apply IH].
Qed.

(** What two inputs with one hash have in common. The mandatory floors and the
    validation hash of the policy are not part of the context. *)
Record sameContext (i i' : AuthenticatedContextHashInputV1) : Prop := {
  sc_policy : securityPolicyOf (ci_EffectivePolicy i) = securityPolicyOf (ci_EffectivePolicy i');
  sc_identity : eff_ProfileID (ci_EffectivePolicy i) = eff_ProfileID (ci_EffectivePolicy i') /\
    eff_SchemaVersion (ci_EffectivePolicy i) = eff_SchemaVersion (ci_EffectivePolicy i') /\
    eff_CompilerSecurityVersion (ci_EffectivePolicy i) = eff_CompilerSecurityVersion (ci_EffectivePolicy i') /\
    eff_MinimumRuntimeVersion (ci_EffectivePolicy i) = eff_MinimumRuntimeVersion (ci_EffectivePolicy i');
  sc_capabilities : eff_SelectedCapabilities (ci_EffectivePolicy i) = eff_SelectedCapabilities (ci_EffectivePolicy i');
  sc_policyHash : ci_EffectivePolicyHash i = ci_EffectivePolicyHash i';
  sc_transcript : ci_TranscriptHash i = ci_TranscriptHash i';
  sc_suite : ci_SelectedSuite i = ci_SelectedSuite i';
  sc_capabilityHash : ci_SelectedCapabilityHash i = ci_SelectedCapabilityHash i';
  sc_profiles : ci_ClientProfileHash i = ci_ClientProfileHash i' /\ ci_ServerProfileHash i = ci_ServerProfileHash i';
  sc_client : ci_ClientModeBinding i = ci_ClientModeBinding i';
  sc_server : ci_ServerModeBinding i = ci_ServerModeBinding i';
}.

Section context.
Context `{Encoding}.

(** What the checks before hashing establish. *)
Record checkedContext (i : AuthenticatedContextHashInputV1) (parts : list bytes) : Prop := {
  ck_parts : exists policyRaw suiteRaw clientMode serverMode,
    parts = contextParts i policyRaw suiteRaw clientMode serverMode /\
    EncodePolicyV1 (ci_EffectivePolicy i) = Ok policyRaw /\
    CanonicalSelectedSuiteV1 (ci_SelectedSuite i) = Ok suiteRaw /\
    CanonicalAuthenticatedModeBindingV1 (eff_TranscriptMode (ci_EffectivePolicy i)) (ci_ClientModeBinding i) = Ok clientMode /\
    CanonicalAuthenticatedModeBindingV1 (eff_TranscriptMode (ci_EffectivePolicy i)) (ci_ServerModeBinding i) = Ok serverMode;
  ck_capabilities : SelectedCapabilityHashV1 (eff_SelectedCapabilities (ci_EffectivePolicy i)) = Ok (ci_SelectedCapabilityHash i);
  ck_source : cs_ProfileID (hb_ConfigSourceBlock (ci_ClientModeBinding i)) = eff_ProfileID (ci_EffectivePolicy i) /\
    cb_SchemaVersion (hb_CompatibilityBlock (ci_ClientModeBinding i)) = eff_SchemaVersion (ci_EffectivePolicy i) /\
    cb_CompilerSecurityVersion (hb_CompatibilityBlock (ci_ClientModeBinding i)) = eff_CompilerSecurityVersion (ci_EffectivePolicy i) /\
    cb_MinimumRuntimeVersion (hb_CompatibilityBlock (ci_ClientModeBinding i)) = eff_MinimumRuntimeVersion (ci_EffectivePolicy i);
}.

Lemma contextBinding_ok i b ph raw : validateContextBindingV1 i b ph = Ok raw ->
  CanonicalAuthenticatedModeBindingV1 (eff_TranscriptMode (ci_EffectivePolicy i)) b = Ok raw /\
  cs_ProfileID (hb_ConfigSourceBlock b) = eff_ProfileID (ci_EffectivePolicy i) /\
  cb_SchemaVersion (hb_CompatibilityBlock b) = eff_SchemaVersion (ci_EffectivePolicy i) /\
  cb_CompilerSecurityVersion (hb_CompatibilityBlock b) = eff_CompilerSecurityVersion (ci_EffectivePolicy i) /\
  cb_MinimumRuntimeVersion (hb_CompatibilityBlock b) = eff_MinimumRuntimeVersion (ci_EffectivePolicy i).
Proof using Type.
  unfold validateContextBindingV1. cbv zeta. intros HV. go_inv HV.
  rewrite !orb_false_iff, !negb_false_iff, !bool_decide_eq_true in G0. tauto.
Qed.

Lemma contextInput_ok i parts : contextInput i = Ok parts -> checkedContext i parts.
Proof using Type.
  unfold contextInput. cbv zeta. intros HV. apply rbind_ok in HV as (pr & P1 & HV). apply reject_bind_ok in HV as [_ HV].
  apply rbind_ok in HV as (pf & _ & HV). apply reject_bind_ok in HV as [_ HV]. apply reject_bind_ok in HV as [_ HV].
  apply rbind_ok in HV as (sr & P2 & HV). apply reject_bind_ok in HV as [P3 HV]. apply reject_bind_ok in HV as [_ HV].
  apply rbind_ok in HV as (cm & [P4 P5]%contextBinding_ok & HV). apply rbind_ok in HV as (sm & [P6 _]%contextBinding_ok & HV).
  apply Ok_inj in HV as <-. apply negb_false_iff, bool_decide_eq_true in P3.
  constructor; [by exists pr, sr, cm, sm|done|done].
Qed.

(** The encoded context is shorter than 4 GiB. *)
Definition sizedContext (i : AuthenticatedContextHashInputV1) : Prop :=
  forall parts, contextInput i = Ok parts -> small (writeLP (sbytes contextLabel) ++ concat (writeLP <$> parts)).

Record typedContext (i : AuthenticatedContextHashInputV1) : Prop := {
  tc_client : typedBinding (ci_ClientModeBinding i);
  tc_server : typedBinding (ci_ServerModeBinding i);
  tc_size : sizedContext i;
}.

(** C13: Context binding: two authenticated contexts below 4 GiB have the same
    context hash only if they agree on the transcript hash, the suite, every
    security setting of the policy, the profile identity and versions, the
    selected capabilities, the profile hashes and every field of both sides'
    mode bindings with their blocks; otherwise SHA-256 has a collision. *)
Theorem context_hash_binds i i' h : typedContext i -> typedContext i' ->
  ContextHashV1 i = Ok h -> ContextHashV1 i' = Ok h -> sameContext i i' \/ collision.
Proof using Type.
  intros [T1 T2 T3] [U1 U2 _] H1 H2. unfold ContextHashV1 in H1, H2.
  apply rbind_ok in H1 as (parts & HP & <-%Ok_inj), H2 as (parts' & HP' & HE%Ok_inj). symmetry in HE.
  apply hash_inputs in HE as [HE|HE]; [|by right]. apply app_inv_head in HE.
  destruct (small_app _ _ (T3 parts HP)) as [_ HS].
  apply contextInput_ok in HP as [(pr & sr & cm & sm & -> & P1 & P2 & P3 & P4) C1 D1].
  apply contextInput_ok in HP' as [(pr' & sr' & cm' & sm' & -> & Q1 & Q2 & Q3 & Q4) C2 D2].
  apply lps_inj in HE; [|done|done].
  assert (HB : forall k v, contextParts i pr sr cm sm !! k = Some v -> small v).
  { intros k v Hk. eapply lp_part; [by eapply list_elem_of_lookup_2|exact HS]. }
  pose proof (HB 1%nat pr eq_refl) as S1. pose proof (HB 4%nat sr eq_refl) as S2.
  pose proof (HB 20%nat cm eq_refl) as S3. pose proof (HB 21%nat sm eq_refl) as S4. clear HB HS.
  injection HE as <- E1 E2 <- E3 E4 E5 _ _ _ _ _ _ _ _ _ _ _ _ <- <-.
  apply (authBinding_inj _ _ _ _ _ T1 U1 S3 P3) in Q3 as [_ F1]. apply (authBinding_inj _ _ _ _ _ T2 U2 S4 P4) in Q4 as [_ F2].
  rewrite <- E3 in C2. destruct (capabilityHash_inj _ _ _ C1 C2) as [F3|F3]; [|by right].
  left. constructor; try done; [exact (policy_inj _ _ _ S1 P1 Q1)| |exact (suite_inj _ _ _ S2 P2 Q2)].
  destruct D1 as (<- & <- & <- & <-), D2 as (<- & <- & <- & <-). by rewrite F1.
Qed.
End context.

(** ** The handshake mode binding *)

Lemma encodeList_inj l l' raw r : small (raw ++ r) -> EncodeStringListV1 l = Ok raw -> EncodeStringListV1 l' = Ok raw ->
  Permutation l l'.
Proof.
  intros [HS _]%small_app HV HV'. unfold EncodeStringListV1 in HV, HV'.
  apply rbind_ok in HV as (_ & _ & <-%Ok_inj), HV' as (_ & _ & HE%Ok_inj).
  destruct (writeList_inj (sortStrings l) (sortStrings l') [] []) as [E _]; rewrite ?app_nil_r; [done|by symmetry|].
  rewrite <- (merge_sort_Permutation String.le l), <- (merge_sort_Permutation String.le l').
  unfold sortStrings in E. by rewrite E.
Qed.

Lemma writeLists_inj ls ls' raw raw' r r' : length ls = length ls' -> small (raw ++ r) ->
  writeLists ls = Ok raw -> writeLists ls' = Ok raw' -> raw ++ r = raw' ++ r' ->
  Forall2 Permutation ls ls' /\ r = r'.
Proof.
  revert ls' raw raw'. induction ls as [|l ls IH]; intros [|l' ls'] raw raw' HL HS HV HV' HE; cbn [length] in HL; try done.
  { apply Ok_inj in HV as <-. apply Ok_inj in HV' as <-. by split; [constructor|]. }
  cbn [writeLists] in HV, HV'. apply rbind_ok in HV as (a & HA & HV). apply rbind_ok in HV as (m & HM & <-%Ok_inj).
  apply rbind_ok in HV' as (a' & HA' & HV'). apply rbind_ok in HV' as (m' & HM' & <-%Ok_inj).
  rewrite <- !app_assoc in HE. rewrite <- !app_assoc in HS. apply lp_inj in HE as [<- HE]; [|done].
  apply small_app in HS as [HS0 HS]. apply small_app in HS0 as [_ HS0].
  apply (IH ls' m m') in HE as [HF ->]; [|lia|done..]. split; [|done]. constructor; [|done].
  apply (encodeList_inj l l' a []); [by rewrite app_nil_r|done|done].
Qed.

(** What the binding of each transcript mode fixes. *)
Record committed (mode : string) (b b' : HandshakeModeBinding) : Prop := {
  cm_lists : mode = TranscriptCapabilitiesV1 \/ mode = TranscriptFullBindingV1 ->
    Forall2 Permutation (bindingLists b) (bindingLists b');
  cm_carrier : mode = TranscriptCarrierBindingV1 \/ mode = TranscriptFullBindingV1 ->
    hb_CarrierFamily b = hb_CarrierFamily b' /\ hb_CarrierPolicyHash b = hb_CarrierPolicyHash b' /\
    hb_EnvelopeLimit b = hb_EnvelopeLimit b' /\ hb_LocalAdapterClass b = hb_LocalAdapterClass b';
  cm_hashes : mode = TranscriptFullBindingV1 -> bindingHashes b = bindingHashes b';
}.

Lemma writeCapabilities_inj b b' raw raw' r r' : small (raw ++ r) -> writeCapabilities b = Ok raw ->
  writeCapabilities b' = Ok raw' -> raw ++ r = raw' ++ r' ->
  Forall2 Permutation (bindingLists b) (bindingLists b') /\ r = r'.
Proof.
  intros HS HV HV' HE. unfold writeCapabilities in HV, HV'. apply reject_bind_ok in HV as [_ HV], HV' as [_ HV'].
  by eapply writeLists_inj.
Qed.

Lemma writeCarrier_inj b b' raw raw' r r' : typedBinding b -> typedBinding b' -> small (raw ++ r) ->
  writeCarrier b = Ok raw -> writeCarrier b' = Ok raw' -> raw ++ r = raw' ++ r' ->
  (hb_CarrierFamily b = hb_CarrierFamily b' /\ hb_CarrierPolicyHash b = hb_CarrierPolicyHash b' /\
    hb_EnvelopeLimit b = hb_EnvelopeLimit b' /\ hb_LocalAdapterClass b = hb_LocalAdapterClass b') /\ r = r'.
Proof.
  intros [[A1 _] A2 _ _ _ _ _] [[B1 _] B2 _ _ _ _ _] HS HV HV' HE. unfold hash32 in A2, B2.
  unfold writeCarrier in HV, HV'. go_inv HV. go_inv HV'. apply Ok_inj in HV as <-, HV' as <-.
  rewrite <- !app_assoc in HE. rewrite <- !app_assoc in HS.
  apply lp_inj in HE as [Q1%sbytes_inj HE]; [|done]. apply small_app in HS as [_ HS].
  apply bytes_app_inj in HE as [Q2 HE]; [|congruence]. apply small_app in HS as [_ HS].
  apply u32_inj in HE as [Q3 HE]; [|done..]. apply small_app in HS as [_ HS].
  apply lp_inj in HE as [Q4%sbytes_inj HE]; done.
Qed.

(** An accepted binding starts with the label of its mode. *)
Lemma handshakeBinding_ok mode b raw : CanonicalHandshakeModeBinding mode b = Ok raw ->
  exists body, raw = writeLP (sbytes ("kurdistan/transcript/v1/" +:+ mode)) ++ body /\
  ((mode = TranscriptCanonicalV1 /\ body = []) \/
   (mode = TranscriptCapabilitiesV1 /\ writeCapabilities b = Ok body) \/
   (mode = TranscriptCarrierBindingV1 /\ writeCarrier b = Ok body) \/
   (mode = TranscriptFullBindingV1 /\ exists caps carrier, writeCapabilities b = Ok caps /\
      writeCarrier b = Ok carrier /\ body = caps ++ carrier ++ concat (bindingHashes b))).
Proof.
  unfold CanonicalHandshakeModeBinding. cbv zeta. intros HV.
  case_bool_decide as M1; [apply Ok_inj in HV as <-; exists []; split; [by rewrite app_nil_r|by left]|].
  case_bool_decide as M2; [apply rbind_ok in HV as (body & HC & <-%Ok_inj); exists body; split; [done|by right; left]|].
  case_bool_decide as M3; [apply rbind_ok in HV as (body & HC & <-%Ok_inj); exists body; split; [done|by do 2 right; left]|].
  case_bool_decide as M4; [|done]. apply rbind_ok in HV as (caps & HC & HV). apply rbind_ok in HV as (carrier & HD & HV).
  apply rbind_ok in HV as (_ & _ & <-%Ok_inj). exists (caps ++ carrier ++ concat (bindingHashes b)).
  split; [done|]. do 3 right. split; [done|]. by exists caps, carrier.
Qed.

(** The handshake mode binding separates modes and fixes what each mode
    promises to bind: equal bytes (below 4 GiB) mean equal modes and, per mode,
    the same capability lists up to order, the same carrier family, policy,
    envelope limit and adapter, and the same seven policy hashes. *)
Theorem mode_binding_commits mode mode' b b' raw : typedBinding b -> typedBinding b' -> small raw ->
  CanonicalHandshakeModeBinding mode b = Ok raw -> CanonicalHandshakeModeBinding mode' b' = Ok raw ->
  mode = mode' /\ committed mode b b'.
Proof.
  intros Tb Tb' HS (body & -> & HB)%handshakeBinding_ok (body' & HE & HB')%handshakeBinding_ok.
  apply lp_inj in HE as [HM HE]; [|done]. apply sbytes_inj in HM. apply small_app in HS as [_ HS].
  assert (mode = mode') as <- by (unfold app in HM; by simplify_eq/=). split; [done|]. clear HM.
  assert (HC : forall x : bytes, body = x -> small (x ++ [])) by (intros x <-; by rewrite app_nil_r).
  destruct HB as [[-> ->]|[[-> HB]|[[-> HB]|[-> (caps & carrier & HB1 & HB2 & ->)]]]].
  - by constructor; intros [?|?] || intros ?.
  - destruct HB' as [[? _]|[[_ HB']|[[? _]|[? _]]]]; try done. constructor; [intros _|by intros [?|?]|done].
    subst body'. by apply (writeCapabilities_inj b b' body body [] [] (HC body eq_refl)).
  - destruct HB' as [[? _]|[[? _]|[[_ HB']|[? _]]]]; try done. constructor; [by intros [?|?]|intros _|done].
    subst body'. by apply (writeCarrier_inj b b' body body [] [] Tb Tb' (HC body eq_refl)).
  - destruct HB' as [[? _]|[[? _]|[[? _]|[_ (caps' & carrier' & HB1' & HB2' & ->)]]]]; try done.
    destruct (writeCapabilities_inj b b' caps caps' _ _ HS HB1 HB1' HE) as [F1 HE']. apply small_app in HS as [_ HS].
    destruct (writeCarrier_inj b b' carrier carrier' _ _ Tb Tb' HS HB2 HB2' HE') as [F2 HE''].
    assert (F3 : bindingHashes b = bindingHashes b').
    { apply (hashes_inj (bindingHashes b) (bindingHashes b') [] []); rewrite ?app_nil_r;
        [done|by apply tb_hashes|by apply tb_hashes|done]. }
    constructor; [intros _; exact F1|intros _; exact F2|intros _; exact F3].
Qed.

(** ** A concrete context *)

Definition sampleHash : bytes := replicate 32 Byte.x5a.

Definition sampleCompatBlock : CompatibilityBlockV1 :=
  mkCompatBlock (eff_SchemaVersion sampleEffective) (eff_CompilerSecurityVersion sampleEffective)
    (eff_MinimumRuntimeVersion sampleEffective) [SecuritySuiteString] ["multi_stream"; "replay_window"]
    ["stream_carrier"] [] ["data"] 4096 8 4096.

Definition sampleLimitBlock : LimitBlockV1 := mkLimitBlock 65536 65536 16 16 60000 4096 8 8.

Definition sampleSuite : SelectedSuiteV1 :=
  mkSelectedSuite (eff_KDFSuite sampleEffective) (eff_AEADSuite sampleEffective) (eff_MACSuite sampleEffective).

Definition sampleBinding : HandshakeModeBinding :=
  mkBinding ["nonce_schedule"] [] ["fv1"; "fv2"] "tls13-tcp" sampleHash 4096 65536 "one_flow_one_stream"
    sampleHash sampleHash sampleHash sampleHash sampleHash sampleHash sampleHash
    sampleCompatBlock sampleHash sampleLimitBlock sampleHash
    (mkConfigSource (eff_ProfileID sampleEffective) sampleHash (eff_SecurityVersion sampleEffective) sampleSuite
       sampleHash sampleHash "one_flow_one_stream" sampleHash sampleHash) sampleHash.

Definition sampleInput : AuthenticatedContextHashInputV1 :=
  mkContextInput sampleEffective sampleHash sampleHash sampleSuite sampleHash sampleHash sampleHash
    sampleBinding sampleBinding.

Lemma sampleBinding_typed : typedBinding sampleBinding.
Proof.
  constructor; cbn; try (split; [|]); repeat constructor; try reflexivity; try discriminate; unfold_widths; cbn; lia.
Qed.

Lemma sampleInput_sized : @sizedContext toyEncoding sampleInput.
Proof.
  intros parts HP. vm_compute in HP. injection HP as <-. vm_compute. reflexivity.
Qed.

Lemma context_hash_binds_witness :
  sameContext sampleInput sampleInput \/ @collision toyEncoding.
Proof.
  assert (HT : @typedContext toyEncoding sampleInput)
    by (constructor; [apply sampleBinding_typed|apply sampleBinding_typed|apply sampleInput_sized]).
  apply (@context_hash_binds toyEncoding sampleInput sampleInput sampleHash HT HT); vm_compute; reflexivity.
Defined.

Lemma mode_binding_commits_witness :
  committed TranscriptFullBindingV1 sampleBinding sampleBinding.
Proof.
  apply (mode_binding_commits TranscriptFullBindingV1 TranscriptFullBindingV1 sampleBinding sampleBinding
    (orNil (CanonicalHandshakeModeBinding TranscriptFullBindingV1 sampleBinding)));
    [apply sampleBinding_typed|apply sampleBinding_typed|vm_compute; reflexivity..].
Defined.
