(* ===== verification/Stream.v ===== *)
(** * Multiplexed streams and flow control

    [src/internal/protocol/stream/]: a session owns a map of streams, an id
    allocator and two levels of windows. A session is used by one goroutine;
    each method is a function from the session to the session and its results.
    A stream is only reached through the map, so the map holds values. Windows
    are 64-bit [int]s and wrap ([int64_of]); ids are [uint32]. *)

From S2P Require Import Prelude GoBytes GoSort Ir Validate.
From Stdlib Require Import ZArith Lia.
From stdpp Require Import base list gmap strings sorting.
Local Open Scope Z_scope.

Inductive StreamState :=
  | StateIdle | StateOpen | StateHalfClosedLocal | StateHalfClosedRemote
  | StateClosed | StateReset.

#[export] Instance streamState_eq_dec : EqDecision StreamState.
Proof. solve_decision. Defined.

Inductive stream_error :=
  | ErrInvalidConfig (detail : string)
  | ErrUnknownStream
  | ErrMaxConcurrentStreams
  | ErrStreamClosed
  | ErrBackpressure.

Record Stream := mkStream {
  ID : Z;
  Priority : string;
  State : StreamState;
  windowBytes : Z;
  pendingBytes : Z;
  blocked : bool;
  buffer : bytes;
  resetReason : string;
}.

Record Config := mkConfig {
  IDStrategy : string;
  IDEncodingMode : string;
  MaxConcurrentStreams : Z;
  InitialStreamWindowBytes : Z;
  InitialSessionWindowBytes : Z;
  WindowUpdatePolicy : string;
  PriorityPolicy : string;
  ClosePolicy : string;
  ResetPolicy : string;
  MaxStreamID : Z;
}.

Record WriteResult := mkWriteResult {
  StreamID : Z;
  BytesAccepted : Z;
  Backpressured : bool;
  StreamWindowRemaining : Z;
  SessionWindowRemaining : Z;
}.

Record Session := mkSession {
  cfg : Config;
  nextID : Z;
  sessionWindow : Z;
  streams : gmap Z Stream;
  openOrder : list Z;
}.

Definition IsTerminal (state : StreamState) : bool :=
  bool_decide (state = StateClosed) || bool_decide (state = StateReset).

Definition WindowBucket (bytes : Z) : string :=
  if bytes <=? 0 then "blocked"
  else if bytes <=? 16 * 1024 then "low"
  else if bytes <=? 64 * 1024 then "medium"
  else "high".

Definition PriorityClass (priority : string) : string :=
  if bool_decide (priority = "interactive") then "interactive"
  else if bool_decide (priority = "bulk") then "bulk"
  else if bool_decide (priority = "") then "bulk"
  else "other".

Definition ConfigFromProfile (p : option Profile) : Config :=
  match p with
  | None => mkConfig "" "" 0 0 0 "" "" "" "" 0
  | Some p =>
      let s := pf_Stream p in
      mkConfig (sp_IDStrategy s) (sp_IDEncodingMode s) (sp_MaxConcurrentStreams s)
        (sp_InitialStreamWindowBytes s) (sp_InitialSessionWindowBytes s)
        (sp_WindowUpdatePolicy s) (sp_PriorityPolicy s) (sp_ClosePolicy s) (sp_ResetPolicy s)
        (sp_MaxStreamID s)
  end.

Definition orDefault (value fallback : string) : string :=
  if bool_decide (value = "") then fallback else value.

Definition NewSession (c : Config) : result stream_error Session :=
  fail? (MaxConcurrentStreams c <=? 0) || (InitialStreamWindowBytes c <=? 0)
      || (InitialSessionWindowBytes c <=? 0)
    with ErrInvalidConfig "positive stream count and windows are required" in
  fail? InitialSessionWindowBytes c <? InitialStreamWindowBytes c
    with ErrInvalidConfig "session window smaller than stream window" in
  let c' := mkConfig (orDefault (IDStrategy c) "sequential_odd_even") (IDEncodingMode c)
              (MaxConcurrentStreams c) (InitialStreamWindowBytes c) (InitialSessionWindowBytes c)
              (WindowUpdatePolicy c) (orDefault (PriorityPolicy c) "fifo")
              (orDefault (ClosePolicy c) "explicit_close")
              (orDefault (ResetPolicy c) "immediate_reset")
              (if MaxStreamID c =? 0 then 16777216 else MaxStreamID c) in
  Ok (mkSession c' 1 (InitialSessionWindowBytes c') ∅ []).

Definition activeStreamCount (s : Session) : Z :=
  Z.of_nat (size (filter (fun kv => IsTerminal (State kv.2) = false) (streams s))).

(** The session with its next id moved on, and the id. *)
Definition allocateID (s : Session) : result stream_error (Session * Z) :=
  let id := nextID s in
  fail? (id =? 0) || (MaxStreamID (cfg s) <? id) with ErrInvalidConfig "stream id overflow" in
  let next := if bool_decide (IDStrategy (cfg s) = "sequential_odd_even")
              then wrap32 (id + 2) else wrap32 (id + 1) in
  Ok (mkSession (cfg s) next (sessionWindow s) (streams s) (openOrder s), id).

Definition OpenStream (s : Session) (priority : string) : Session * result stream_error Z :=
  if MaxConcurrentStreams (cfg s) <=? activeStreamCount s then (s, Err ErrMaxConcurrentStreams)
  else
    let priority := orDefault priority "bulk" in
    match allocateID s with
    | Err e => (s, Err e)
    | Ok (s', id) =>
        let st := mkStream id priority StateOpen (InitialStreamWindowBytes (cfg s)) 0 false [] "" in
        (mkSession (cfg s') (nextID s') (sessionWindow s') (<[id := st]> (streams s'))
           (openOrder s' ++ [id]), Ok id)
    end.

(** Writing one stream back; nothing else of the session changes. *)
Definition setStream (s : Session) (id : Z) (st : Stream) : Session :=
  mkSession (cfg s) (nextID s) (sessionWindow s) (<[id := st]> (streams s)) (openOrder s).

Definition setSessionWindow (s : Session) (w : Z) : Session :=
  mkSession (cfg s) (nextID s) w (streams s) (openOrder s).

Definition setState (st : Stream) (state : StreamState) : Stream :=
  mkStream (ID st) (Priority st) state (windowBytes st) (pendingBytes st) (blocked st)
    (buffer st) (resetReason st).

Definition WriteData (s : Session) (id : Z) (payload : bytes)
    : Session * (WriteResult * option stream_error) :=
  match streams s !! id with
  | None => (s, (mkWriteResult id 0 false 0 0, Some ErrUnknownStream))
  | Some st =>
      if bool_decide (State st = StateClosed) || bool_decide (State st = StateReset)
         || bool_decide (State st = StateHalfClosedLocal)
      then (s, (mkWriteResult id 0 false 0 0, Some ErrStreamClosed))
      else
        let n := zlen payload in
        if (windowBytes st <? n) || (sessionWindow s <? n) then
          (setStream s id (mkStream (ID st) (Priority st) (State st) (windowBytes st)
             (pendingBytes st) true (buffer st) (resetReason st)),
           (mkWriteResult id 0 true (windowBytes st) (sessionWindow s), Some ErrBackpressure))
        else
          let w := int64_of (windowBytes st - n) in
          let sw := int64_of (sessionWindow s - n) in
          (setSessionWindow (setStream s id (mkStream (ID st) (Priority st) (State st) w
             (int64_of (pendingBytes st + n)) false (buffer st ++ payload) (resetReason st))) sw,
           (mkWriteResult id n false w sw, None))
  end.

Definition ReadData (s : Session) (id : Z) : Session * bytes :=
  match streams s !! id with
  | None => (s, [])
  | Some st =>
      (setStream s id (mkStream (ID st) (Priority st) (State st) (windowBytes st) 0
         (blocked st) [] (resetReason st)), buffer st)
  end.

Definition CloseLocal (s : Session) (id : Z) : Session * option stream_error :=
  match streams s !! id with
  | None => (s, Some ErrUnknownStream)
  | Some st =>
      match State st with
      | StateOpen => (setStream s id (setState st StateHalfClosedLocal), None)
      | StateHalfClosedRemote => (setStream s id (setState st StateClosed), None)
      | StateClosed | StateReset => (s, Some ErrStreamClosed)
      | _ => (s, None)
      end
  end.

Definition CloseRemote (s : Session) (id : Z) : Session * option stream_error :=
  match streams s !! id with
  | None => (s, Some ErrUnknownStream)
  | Some st =>
      match State st with
      | StateOpen => (setStream s id (setState st StateHalfClosedRemote), None)
      | StateHalfClosedLocal => (setStream s id (setState st StateClosed), None)
      | StateClosed | StateReset => (s, Some ErrStreamClosed)
      | _ => (s, None)
      end
  end.

Definition Reset (s : Session) (id : Z) (reason : string) : Session * option stream_error :=
  match streams s !! id with
  | None => (s, Some ErrUnknownStream)
  | Some st =>
      (setStream s id (mkStream (ID st) (Priority st) StateReset (windowBytes st)
         (pendingBytes st) false (buffer st) reason), None)
  end.

Definition WindowUpdate (s : Session) (id credit : Z) : Session * option stream_error :=
  if credit <=? 0 then (s, Some (ErrInvalidConfig "positive credit is required"))
  else match streams s !! id with
  | None => (s, Some ErrUnknownStream)
  | Some st =>
      if bool_decide (State st = StateClosed) || bool_decide (State st = StateReset)
      then (s, Some ErrStreamClosed)
      else
        let w := int64_of (windowBytes st + credit) in
        let sw := int64_of (sessionWindow s + credit) in
        (setSessionWindow (setStream s id (mkStream (ID st) (Priority st) (State st) w
           (pendingBytes st) (if (0 <? w) && (0 <? sw) then false else blocked st)
           (buffer st) (resetReason st))) sw, None)
  end.

(** [Session.State], [StreamWindow] and [SessionWindow]. *)
Definition StateOf (s : Session) (id : Z) : StreamState :=
  match streams s !! id with Some st => State st | None => StateIdle end.

Definition StreamWindow (s : Session) (id : Z) : Z :=
  match streams s !! id with Some st => windowBytes st | None => 0 end.

Definition SessionWindow (s : Session) : Z := sessionWindow s.

(** The comparators of [ScheduleActiveStreams]. *)
Definition interactiveLess (a b : Stream) : bool :=
  if negb (bool_decide (Priority a = Priority b)) then bool_decide (Priority a = "interactive")
  else ID a <? ID b.

Definition pendingLess (a b : Stream) : bool :=
  if pendingBytes a =? pendingBytes b then ID a <? ID b else pendingBytes a <? pendingBytes b.

Definition schedulable (st : Stream) : bool :=
  negb (blocked st || bool_decide (State st = StateClosed) || bool_decide (State st = StateReset)).

Definition candidates (s : Session) : list Stream :=
  omap (fun id => match streams s !! id with
                  | Some st => if schedulable st then Some st else None
                  | None => None
                  end) (openOrder s).

Definition ScheduleActiveStreams (s : Session) : list Z :=
  let c := candidates s in
  let p := PriorityPolicy (cfg s) in
  ID <$> (if bool_decide (p = "interactive_first") then SliceStable interactiveLess c
          else if bool_decide (p = "smallest_pending_first") then SliceStable pendingLess c
          else if bool_decide (p = "weighted_round_robin") then SliceStable interactiveLess c
          else c).

(** ** Runs of a session *)

Inductive op :=
  | OpOpen (priority : string)
  | OpWrite (id : Z) (payload : bytes)
  | OpRead (id : Z)
  | OpCloseLocal (id : Z)
  | OpCloseRemote (id : Z)
  | OpReset (id : Z) (reason : string)
  | OpCredit (id credit : Z).

Inductive output :=
  | OutOpen (r : result stream_error Z)
  | OutWrite (r : WriteResult) (e : option stream_error)
  | OutRead (b : bytes)
  | OutErr (e : option stream_error).

Definition step (s : Session) (o : op) : Session * output :=
  match o with
  | OpOpen priority => let '(s', r) := OpenStream s priority in (s', OutOpen r)
  | OpWrite id payload => let '(s', (r, e)) := WriteData s id payload in (s', OutWrite r e)
  | OpRead id => let '(s', b) := ReadData s id in (s', OutRead b)
  | OpCloseLocal id => let '(s', e) := CloseLocal s id in (s', OutErr e)
  | OpCloseRemote id => let '(s', e) := CloseRemote s id in (s', OutErr e)
  | OpReset id reason => let '(s', e) := Reset s id reason in (s', OutErr e)
  | OpCredit id credit => let '(s', e) := WindowUpdate s id credit in (s', OutErr e)
  end.

(** What an observer of the calls and their results adds up: the bytes accepted
    from and delivered to each stream's user, and the credit granted. *)
Record Ledger := mkLedger {
  accepted : Z -> bytes;
  delivered : Z -> bytes;
  credited : Z -> Z;
  acceptedTotal : Z;
  creditedTotal : Z;
}.

Definition emptyLedger : Ledger := mkLedger (fun _ => []) (fun _ => []) (fun _ => 0) 0 0.

Definition at_key {A} (f : Z -> A) (k : Z) (v : A) : Z -> A := fun j => if j =? k then v else f j.

Definition account (l : Ledger) (o : op) (out : output) : Ledger :=
  match o, out with
  | OpWrite id payload, OutWrite _ None =>
      mkLedger (at_key (accepted l) id (accepted l id ++ payload)) (delivered l) (credited l)
        (acceptedTotal l + zlen payload) (creditedTotal l)
  | OpRead id, OutRead b =>
      mkLedger (accepted l) (at_key (delivered l) id (delivered l id ++ b)) (credited l)
        (acceptedTotal l) (creditedTotal l)
  | OpCredit id credit, OutErr None =>
      mkLedger (accepted l) (delivered l) (at_key (credited l) id (credited l id + credit))
        (acceptedTotal l) (creditedTotal l + credit)
  | _, _ => l
  end.

Fixpoint runLedger (s : Session) (l : Ledger) (ops : list op) : Session * Ledger :=
  match ops with
  | [] => (s, l)
  | o :: rest => let '(s', out) := step s o in runLedger s' (account l o out) rest
  end.

Definition creditOf (o : op) : Z := match o with OpCredit _ c => Z.max 0 c | _ => 0 end.

Definition totalCredit (ops : list op) : Z := foldr (fun o acc => creditOf o + acc) 0 ops.

(** ** The session invariant *)

Lemma at_key_same {A} (f : Z -> A) k v : at_key f k v k = v.
Proof. unfold at_key. by rewrite Z.eqb_refl. Qed.

Lemma at_key_other {A} (f : Z -> A) k v j : j <> k -> at_key f k v j = f j.
Proof. unfold at_key. intros. by destruct (Z.eqb_spec j k). Qed.

(** Usable limits; [MaxStreamID] leaves room for the allocator's last step. *)
Record goodConfig (c : Config) : Prop := {
  gc_streams : 0 < MaxConcurrentStreams c;
  gc_window : 0 < InitialStreamWindowBytes c <= InitialSessionWindowBytes c;
  gc_ids : 1 <= MaxStreamID c <= 4294967293;
}.

Record okStream (c : Config) (l : Ledger) (id : Z) (st : Stream) : Prop := {
  os_id : ID st = id;
  os_window : windowBytes st = InitialStreamWindowBytes c + credited l id - zlen (accepted l id);
  os_nonneg : 0 <= windowBytes st;
  os_bytes : accepted l id = delivered l id ++ buffer st;
  os_pending : pendingBytes st = zlen (buffer st);
  os_state : State st <> StateIdle;
}.

Record coherent (c : Config) (s : Session) (l : Ledger) : Prop := {
  co_cfg : cfg s = c;
  co_next : 1 <= nextID s < 2 ^ 32;
  co_streams : forall id st, streams s !! id = Some st -> okStream c l id st /\ 1 <= id < nextID s;
  co_order : forall id, id ∈ openOrder s <-> is_Some (streams s !! id);
  co_sorted : StronglySorted Z.lt (openOrder s);
  co_unopened : forall id, streams s !! id = None ->
    accepted l id = [] /\ delivered l id = [] /\ credited l id = 0;
  co_session : sessionWindow s = InitialSessionWindowBytes c + creditedTotal l - acceptedTotal l;
  co_nonneg : 0 <= sessionWindow s;
  co_credit : forall id, 0 <= credited l id <= creditedTotal l;
  co_accepted : 0 <= acceptedTotal l;
  co_active : activeStreamCount s <= MaxConcurrentStreams c;
}.

Definition live (kv : Z * Stream) : Prop := IsTerminal (State kv.2) = false.

(** Updating a stream without reviving it does not raise the count. *)
Lemma filter_update_size (m : gmap Z Stream) i st st' : m !! i = Some st ->
  (IsTerminal (State st) = true -> IsTerminal (State st') = true) ->
  (size (filter live (<[i := st']> m)) <= size (filter live m))%nat.
Proof.
  intros Hi Hm. destruct (decide (live (i, st'))) as [Hl|Hl].
  - rewrite map_filter_insert_True by done. rewrite map_size_insert_Some; [done|].
    exists st. apply map_lookup_filter_Some. split; [done|].
    unfold live in *. simpl in *. destruct (IsTerminal (State st)); [|done]. by rewrite Hm in Hl.
  - rewrite map_filter_insert_False by done. rewrite map_filter_delete, map_size_delete.
    destruct (filter live m !! i); simpl; lia.
Qed.

(** One stream and the session window change, and the ledger with them. *)
Lemma coherent_update c s l id st st' w l' : coherent c s l ->
  streams s !! id = Some st ->
  (IsTerminal (State st) = true -> IsTerminal (State st') = true) ->
  okStream c l' id st' ->
  (forall j, j <> id -> accepted l' j = accepted l j /\ delivered l' j = delivered l j /\
                        credited l' j = credited l j) ->
  w = InitialSessionWindowBytes c + creditedTotal l' - acceptedTotal l' -> 0 <= w ->
  (forall j, 0 <= credited l' j <= creditedTotal l') -> 0 <= acceptedTotal l' ->
  coherent c (setSessionWindow (setStream s id st') w) l'.
Proof.
  intros [C1 C2 C3 C4 C5 C6 C7 C8 C9 C10 C11] Hid Hterm Hok Hother Hw Hw0 Hcr Hat.
  constructor; simpl; try done.
  - intros j sj. rewrite lookup_insert_Some. intros [[<- <-]|[Hne Hj]].
    + split; [done|]. by apply (C3 id st).
    + destruct (C3 j sj Hj) as [[O1 O2 O3 O4 O5 O6] Hr].
      destruct (Hother j) as (E1 & E2 & E3); [done|].
      split; [|done]. by constructor; rewrite ?E1, ?E2, ?E3.
  - intros j. rewrite C4, lookup_insert_is_Some. destruct (decide (id = j)) as [->|]; [|naive_solver].
    split; [by left|]. intros _. by exists st.
  - intros j. rewrite lookup_insert_None. intros [Hj Hne].
    destruct (Hother j) as (-> & -> & ->); [done|]. by apply C6.
  - unfold activeStreamCount. simpl. etransitivity; [|exact C11]. unfold activeStreamCount.
    apply inj_le. by eapply filter_update_size.
Qed.

Lemma coherent_open c s l priority : goodConfig c -> coherent c s l ->
  coherent c (fst (OpenStream s priority)) l.
Proof.
  intros [_ HW HI] C. pose proof C as [C1 C2 C3 C4 C5 C6 C7 C8 C9 C10 C11].
  unfold OpenStream, allocateID. rewrite C1. destruct (Z.leb_spec (MaxConcurrentStreams c) (activeStreamCount s)); [done|].
  destruct ((nextID s =? 0) || (MaxStreamID c <? nextID s)) eqn:E; [done|]. simpl.
  apply orb_false_iff in E as [_ E%Z.ltb_ge].
  set (next := if bool_decide (IDStrategy c = "sequential_odd_even")
               then wrap32 (nextID s + 2) else wrap32 (nextID s + 1)).
  assert (Hodd : nextID s < next < 2 ^ 32).
  { unfold next. case_bool_decide; rewrite wrap32_small; unfold_widths; lia. }
  clearbody next. assert (Hfresh : streams s !! nextID s = None).
  { destruct (streams s !! nextID s) as [st|] eqn:Hst; [|done]. destruct (C3 _ _ Hst). lia. }
  constructor; simpl; try done; try lia.
  - intros j sj. rewrite lookup_insert_Some. intros [[<- <-]|[Hne Hj]].
    + destruct (C6 _ Hfresh) as (H1 & H2 & H3). split; [|lia].
      constructor; simpl; rewrite ?H1, ?H2, ?H3; try done; unfold zlen; simpl; lia.
    + destruct (C3 j sj Hj) as [Hok Hr]. split; [done|lia].
  - intros j. rewrite elem_of_app, C4, lookup_insert_is_Some, list_elem_of_singleton.
    destruct (decide (nextID s = j)); naive_solver.
  - apply StronglySorted_app. split; [|split; [done|by repeat constructor]].
    intros a b Ha Hb. apply list_elem_of_singleton in Hb as ->. apply C4 in Ha as [sa Ha].
    destruct (C3 _ _ Ha). lia.
  - intros j. rewrite lookup_insert_None. intros [Hj _]. by apply C6.
  - unfold activeStreamCount in *. simpl. rewrite map_filter_insert_True by done.
    rewrite map_size_insert_None; [lia|]. apply map_lookup_filter_None. by left.
Qed.

(** The cases that leave the windows and the ledger alone. *)
Lemma coherent_same_window c s l id st st' : coherent c s l -> streams s !! id = Some st ->
  (IsTerminal (State st) = true -> IsTerminal (State st') = true) ->
  okStream c l id st' -> coherent c (setStream s id st') l.
Proof.
  intros C Hid Ht Hok. change (setStream s id st') with
    (setSessionWindow (setStream s id st') (sessionWindow s)).
  by eapply coherent_update; try done; try apply C.
Qed.

Lemma coherent_write c s l id payload : goodConfig c -> coherent c s l ->
  InitialSessionWindowBytes c + creditedTotal l <= MaxInt64 ->
  coherent c (fst (step s (OpWrite id payload)))
    (account l (OpWrite id payload) (snd (step s (OpWrite id payload)))).
Proof.
  intros G C HB. cbn [step]. unfold WriteData. destruct (streams s !! id) as [st|] eqn:Hid; [|done].
  destruct (bool_decide (State st = StateClosed) || bool_decide (State st = StateReset)
            || bool_decide (State st = StateHalfClosedLocal)) eqn:Hs; [done|].
  destruct (co_streams _ _ _ C _ _ Hid) as [[O1 O2 O3 O4 O5 O6] Hr].
  destruct ((windowBytes st <? zlen payload) || (sessionWindow s <? zlen payload)) eqn:Hw; cbn [fst snd account].
  { apply (coherent_same_window _ _ _ _ st); [done..|]. by constructor. }
  apply orb_false_iff in Hw as [Hw1%Z.ltb_ge Hw2%Z.ltb_ge].
  pose proof (zlen_nonneg payload) as Hp. pose proof (co_credit _ _ _ C id) as Hc.
  pose proof (co_session _ _ _ C) as Hsw. pose proof (co_accepted _ _ _ C) as Ha.
  pose proof (gc_window _ G) as Hg. pose proof (zlen_nonneg (accepted l id)) as Hl.
  assert (Hb : zlen (accepted l id) = zlen (delivered l id) + zlen (buffer st))
    by (by rewrite O4, zlen_app).
  pose proof (zlen_nonneg (delivered l id)). pose proof (zlen_nonneg (buffer st)).
  rewrite !int64_of_small by lia.
  eapply coherent_update; simpl; try done; try lia.
  - constructor; simpl; rewrite ?at_key_same, ?zlen_app; try done; try lia.
    by rewrite O4, app_assoc.
  - intros j Hj. by rewrite at_key_other.
  - apply (co_credit _ _ _ C).
Qed.

Lemma coherent_read c s l id : coherent c s l ->
  coherent c (fst (step s (OpRead id))) (account l (OpRead id) (snd (step s (OpRead id)))).
Proof.
  intros C. cbn [step]. unfold ReadData. destruct (streams s !! id) as [st|] eqn:Hid.
  - destruct (co_streams _ _ _ C _ _ Hid) as [[O1 O2 O3 O4 O5 O6] Hr]. cbn [fst snd account].
    change (setStream s id ?st') with (setSessionWindow (setStream s id st') (sessionWindow s)).
    eapply coherent_update; simpl; try done; try apply C.
    + constructor; simpl; rewrite ?at_key_same; try done. by rewrite app_nil_r.
    + intros j Hj. by rewrite at_key_other.
  - cbn [fst snd account]. destruct (co_unopened _ _ _ C _ Hid) as (U1 & U2 & U3).
    assert (Hsame : forall j, at_key (delivered l) id (delivered l id ++ []) j = delivered l j).
    { intros j. unfold at_key. destruct (Z.eqb_spec j id) as [->|]; [|done]. by rewrite app_nil_r. }
    destruct C as [C1 C2 C3 C4 C5 C6 C7 C8 C9 C10 C11]. constructor; simpl; try done.
    + intros j sj Hj. destruct (C3 j sj Hj) as [[O1 O2 O3 O4 O5 O6] Hr]. split; [|done].
      constructor; simpl; try done. by rewrite Hsame.
    + intros j Hj. rewrite Hsame. by apply C6.
Qed.

Lemma coherent_credit c s l id credit : goodConfig c -> coherent c s l ->
  InitialSessionWindowBytes c + creditedTotal l + Z.max 0 credit <= MaxInt64 ->
  coherent c (fst (step s (OpCredit id credit)))
    (account l (OpCredit id credit) (snd (step s (OpCredit id credit)))).
Proof.
  intros G C HB. cbn [step]. unfold WindowUpdate. destruct (Z.leb_spec credit 0) as [|Hpos]; [done|].
  destruct (streams s !! id) as [st|] eqn:Hid; [|done].
  destruct (bool_decide (State st = StateClosed) || bool_decide (State st = StateReset)) eqn:Hs; [done|].
  destruct (co_streams _ _ _ C _ _ Hid) as [[O1 O2 O3 O4 O5 O6] Hr]. cbn [fst snd account].
  pose proof (co_credit _ _ _ C id) as Hc. pose proof (co_session _ _ _ C) as Hsw.
  pose proof (co_accepted _ _ _ C) as Ha. pose proof (co_nonneg _ _ _ C) as Hn.
  pose proof (gc_window _ G) as Hg. pose proof (zlen_nonneg (accepted l id)) as Hl.
  rewrite !int64_of_small by lia.
  eapply coherent_update; simpl; try done; try lia.
  - constructor; simpl; rewrite ?at_key_same; try done; lia.
  - intros j Hj. by rewrite at_key_other.
  - intros j. unfold at_key. destruct (Z.eqb_spec j id); [lia|]. pose proof (co_credit _ _ _ C j). lia.
Qed.

Lemma coherent_close c s l o id : coherent c s l ->
  o = OpCloseLocal id \/ o = OpCloseRemote id \/ (exists r, o = OpReset id r) ->
  coherent c (fst (step s o)) (account l o (snd (step s o))).
Proof.
  intros C Ho.
  assert (Hset : forall st st', streams s !! id = Some st -> okStream c l id st ->
    ID st' = ID st -> windowBytes st' = windowBytes st -> pendingBytes st' = pendingBytes st ->
    buffer st' = buffer st -> State st' <> StateIdle ->
    (IsTerminal (State st) = true -> IsTerminal (State st') = true) ->
    coherent c (setStream s id st') l).
  { intros st st' Hid [O1 O2 O3 O4 O5 O6] E1 E2 E3 E4 E5 Ht. eapply coherent_same_window; try done.
    by constructor; rewrite ?E1, ?E2, ?E3, ?E4. }
  destruct (streams s !! id) as [st|] eqn:Hid.
  - destruct (co_streams _ _ _ C _ _ Hid) as [Hok Hr].
    destruct Ho as [->|[->|[r ->]]]; cbn [step]; unfold CloseLocal, CloseRemote, Reset; rewrite Hid;
      destruct (State st) eqn:Es; cbn [fst snd account]; try done;
      (eapply Hset; [done|exact Hok|..]; simpl; try done; by rewrite Es).
  - destruct Ho as [->|[->|[r ->]]]; cbn [step]; unfold CloseLocal, CloseRemote, Reset; by rewrite Hid.
Qed.

Lemma coherent_step c s l o : goodConfig c -> coherent c s l ->
  InitialSessionWindowBytes c + creditedTotal l + creditOf o <= MaxInt64 ->
  coherent c (fst (step s o)) (account l o (snd (step s o))).
Proof.
  intros G C HB. destruct o; simpl in HB.
  - pose proof (coherent_open c s l priority G C) as H. cbn [step].
    by destruct (OpenStream s priority).
  - apply coherent_write; [done..|lia].
  - by apply coherent_read.
  - eapply coherent_close; eauto.
  - eapply coherent_close; eauto.
  - eapply coherent_close; eauto 6.
  - by apply coherent_credit.
Qed.

Lemma creditOf_nonneg o : 0 <= creditOf o.
Proof. destruct o; simpl; lia. Qed.

Lemma account_credit l o out : creditedTotal (account l o out) <= creditedTotal l + creditOf o.
Proof.
  pose proof (creditOf_nonneg o). destruct o, out; simpl in *; try lia; destruct e; simpl; lia.
Qed.

Lemma totalCredit_nonneg ops : 0 <= totalCredit ops.
Proof. induction ops as [|o ops IH]; simpl; [lia|]. pose proof (creditOf_nonneg o). lia. Qed.

Lemma coherent_run c s l ops : goodConfig c -> coherent c s l ->
  InitialSessionWindowBytes c + creditedTotal l + totalCredit ops <= MaxInt64 ->
  coherent c (fst (runLedger s l ops)) (snd (runLedger s l ops)).
Proof.
  intros G. revert s l. induction ops as [|o ops IH]; intros s l C HB; [done|].
  cbn [runLedger]. simpl in HB. pose proof (totalCredit_nonneg ops).
  pose proof (coherent_step c s l o G C ltac:(lia)) as C'.
  destruct (step s o) as [s' out]. simpl in C'. apply IH; [done|].
  pose proof (account_credit l o out). lia.
Qed.

Lemma NewSession_coherent c s : NewSession c = Ok s -> 0 <= MaxStreamID c <= 4294967293 ->
  goodConfig (cfg s) /\ coherent (cfg s) s emptyLedger.
Proof.
  unfold NewSession. intros H HI. go_inv H. injection H as <-.
  apply orb_false_iff in G as [[G1%Z.leb_gt G2%Z.leb_gt]%orb_false_iff G3%Z.leb_gt].
  apply Z.ltb_ge in G0. split.
  - constructor; simpl; try lia. destruct (Z.eqb_spec (MaxStreamID c) 0); lia.
  - constructor; simpl; try done; try lia.
    + intros id. rewrite lookup_empty, elem_of_nil. split; [done|]. by intros [? ?].
    + constructor.
    + unfold activeStreamCount. simpl. rewrite map_filter_empty, map_size_empty. lia.
Qed.

Lemma run_coherent c s0 ops : NewSession c = Ok s0 -> 0 <= MaxStreamID c <= 4294967293 ->
  InitialSessionWindowBytes c + totalCredit ops <= MaxInt64 ->
  coherent (cfg s0) (fst (runLedger s0 emptyLedger ops)) (snd (runLedger s0 emptyLedger ops)).
Proof.
  intros HN HI HB. destruct (NewSession_coherent c s0 HN HI) as [G C].
  apply coherent_run; [done..|]. simpl.
  assert (InitialSessionWindowBytes (cfg s0) = InitialSessionWindowBytes c) as ->; [|lia].
  unfold NewSession in HN. go_inv HN. by injection HN as <-.
Qed.

(** C6: Flow control is exact. After any sequence of calls on a new session whose
    MaxStreamID is at most 2^32 - 3 (above that the allocator of stream ids
    wraps, see [allocator_wraps]; validated profiles stay far below), and
    as long as the credit granted in total fits the window type, the session
    window is the initial window plus all credit minus all accepted bytes and
    the window of every stream is the same balance for that stream; neither is
    ever negative, so no user can write more than it was granted, and the
    number of live streams stays within the limit. *)
Theorem session_flow_control c s0 ops :
  NewSession c = Ok s0 -> 0 <= MaxStreamID c <= 4294967293 ->
  InitialSessionWindowBytes c + totalCredit ops <= MaxInt64 ->
  let '(s, l) := runLedger s0 emptyLedger ops in
  0 <= SessionWindow s /\
  SessionWindow s = InitialSessionWindowBytes c + creditedTotal l - acceptedTotal l /\
  (forall id, StateOf s id <> StateIdle -> 0 <= StreamWindow s id /\
     StreamWindow s id = InitialStreamWindowBytes c + credited l id - zlen (accepted l id)) /\
  activeStreamCount s <= MaxConcurrentStreams c.
Proof.
  intros HN HI HB. pose proof (run_coherent c s0 ops HN HI HB) as C.
  assert (Hc : InitialSessionWindowBytes (cfg s0) = InitialSessionWindowBytes c /\
               InitialStreamWindowBytes (cfg s0) = InitialStreamWindowBytes c /\
               MaxConcurrentStreams (cfg s0) = MaxConcurrentStreams c).
  { unfold NewSession in HN. go_inv HN. by injection HN as <-. }
  destruct Hc as (E1 & E2 & E3).
  destruct (runLedger s0 emptyLedger ops) as [s l]. simpl in C.
  destruct C as [C1 C2 C3 C4 C5 C6 C7 C8 C9 C10 C11]. unfold SessionWindow.
  rewrite E1 in C7. rewrite E3 in C11. split; [lia|]. split; [lia|]. split; [|done].
  intros id. unfold StateOf, StreamWindow. destruct (streams s !! id) as [st|] eqn:Hid; [|done].
  intros _. destruct (C3 id st Hid) as [[O1 O2 O3 O4 O5 O6] _]. rewrite E2 in O2. lia.
Qed.

(** Each stream is a reliable byte pipe: after any sequence of calls, the
    bytes its writers had accepted are exactly the bytes handed to its readers
    followed by what is still buffered, in order, with nothing lost,
    duplicated or leaked from another stream, and the pending count is the
    length of the buffer. *)
Theorem session_delivery c s0 ops id st :
  NewSession c = Ok s0 -> 0 <= MaxStreamID c <= 4294967293 ->
  InitialSessionWindowBytes c + totalCredit ops <= MaxInt64 ->
  let '(s, l) := runLedger s0 emptyLedger ops in
  streams s !! id = Some st ->
  accepted l id = delivered l id ++ buffer st /\ pendingBytes st = zlen (buffer st).
Proof.
  intros HN HI HB. pose proof (run_coherent c s0 ops HN HI HB) as C.
  destruct (runLedger s0 emptyLedger ops) as [s l]. simpl in C. intros Hid.
  by destruct (co_streams _ _ _ C _ _ Hid) as [[O1 O2 O3 O4 O5 O6] _].
Qed.

(** ** The stream state machine *)

Definition target (o : op) : option Z :=
  match o with
  | OpOpen _ => None
  | OpWrite id _ | OpRead id | OpCloseLocal id | OpCloseRemote id | OpReset id _
  | OpCredit id _ => Some id
  end.

(** The moves of one stream; a reset is possible from every state. *)
Inductive move : StreamState -> StreamState -> Prop :=
  | move_stay x : move x x
  | move_half_local : move StateOpen StateHalfClosedLocal
  | move_half_remote : move StateOpen StateHalfClosedRemote
  | move_close_local : move StateHalfClosedRemote StateClosed
  | move_close_remote : move StateHalfClosedLocal StateClosed
  | move_reset x : move x StateReset.

#[export] Hint Constructors move : go.

Lemma setStream_other s i st j : j <> i -> streams (setStream s i st) !! j = streams s !! j.
Proof. intros. unfold setStream. simpl. by rewrite lookup_insert_ne. Qed.

Lemma step_other s o j : target o <> Some j -> (forall p, o <> OpOpen p) ->
  streams (fst (step s o)) !! j = streams s !! j.
Proof.
  intros Ht Ho. destruct o as [p|i b|i|i|i|i r|i cr]; simpl in *; [by destruct (Ho p)|..];
    assert (j <> i) by congruence;
    unfold WriteData, ReadData, CloseLocal, CloseRemote, Reset, WindowUpdate.
  all: try destruct (cr <=? 0); destruct (streams s !! i) as [st|]; try done.
  all: repeat (match goal with |- context [if ?b then _ else _] => destruct b end; try done).
  all: try destruct (State st); simpl; try done; by apply lookup_insert_ne.
Qed.

Lemma step_move s o j st : target o = Some j -> streams s !! j = Some st ->
  exists st', streams (fst (step s o)) !! j = Some st' /\ move (State st) (State st').
Proof.
  intros Ht Hj. destruct o as [p|i b|i|i|i|i r|i cr]; simpl in *; [done|..];
    injection Ht as <-;
    unfold WriteData, ReadData, CloseLocal, CloseRemote, Reset, WindowUpdate; rewrite Hj.
  all: try destruct (cr <=? 0).
  all: repeat (match goal with |- context [if ?b then _ else _] => destruct b end); simpl.
  all: try (destruct (State st) eqn:Es; simpl).
  all: rewrite ?lookup_insert_eq; eexists; (split; [done|]); simpl; rewrite ?Es; auto with go.
Qed.

Lemma open_other c s l p j st : coherent c s l -> streams s !! j = Some st ->
  streams (fst (step s (OpOpen p))) !! j = Some st.
Proof.
  intros C Hj. cbn [step]. unfold OpenStream, allocateID.
  destruct (_ <=? activeStreamCount s); [done|]. destruct ((nextID s =? 0) || _); [done|]. simpl.
  rewrite lookup_insert_ne; [done|]. destruct (co_streams _ _ _ C _ _ Hj). lia.
Qed.

Lemma step_stream c s l o j st : coherent c s l -> streams s !! j = Some st ->
  exists st', streams (fst (step s o)) !! j = Some st' /\ move (State st) (State st') /\
    (target o <> Some j -> st' = st).
Proof.
  intros C Hj. destruct (decide (target o = Some j)) as [Ht|Ht].
  { destruct (step_move s o j st Ht Hj) as (st' & H1 & H2). by exists st'. }
  exists st. split; [|auto with go].
  destruct o; try (rewrite step_other; done). by eapply open_other.
Qed.

(** Streams are independent state machines. At every point of a run, a call
    addressed to one stream leaves every other stream untouched, opening a
    stream leaves the existing ones untouched, and the addressed stream only
    moves along open, half closed, closed, with reset from anywhere. *)
Theorem streams_independent c s0 ops o j st :
  NewSession c = Ok s0 -> 0 <= MaxStreamID c <= 4294967293 ->
  InitialSessionWindowBytes c + totalCredit ops <= MaxInt64 ->
  let s := fst (runLedger s0 emptyLedger ops) in
  streams s !! j = Some st ->
  exists st', streams (fst (step s o)) !! j = Some st' /\ move (State st) (State st') /\
    (target o <> Some j -> st' = st).
Proof.
  intros HN HI HB s Hj. eapply step_stream; [|done]. exact (run_coherent c s0 ops HN HI HB).
Qed.

Lemma terminal_step c s l o j : coherent c s l -> IsTerminal (StateOf s j) = true ->
  IsTerminal (StateOf (fst (step s o)) j) = true.
Proof.
  intros C Ht. unfold StateOf in Ht. destruct (streams s !! j) as [st|] eqn:Hj; [|done].
  destruct (step_stream c s l o j st C Hj) as (st' & Hst & Hm & _).
  unfold StateOf. rewrite Hst. revert Ht. by destruct Hm.
Qed.

Lemma terminal_run c s l ops j : goodConfig c -> coherent c s l ->
  InitialSessionWindowBytes c + creditedTotal l + totalCredit ops <= MaxInt64 ->
  IsTerminal (StateOf s j) = true -> IsTerminal (StateOf (fst (runLedger s l ops)) j) = true.
Proof.
  intros G. revert s l. induction ops as [|o ops IH]; intros s l C HB Ht; [done|].
  cbn [runLedger]. simpl in HB. pose proof (totalCredit_nonneg ops).
  pose proof (coherent_step c s l o G C ltac:(lia)) as C'.
  pose proof (terminal_step c s l o j C Ht) as Ht'.
  destruct (step s o) as [s' out]. simpl in *. apply (IH s'); [done| |done].
  pose proof (account_credit l o out). lia.
Qed.

(** A finished stream stays finished: once a stream is closed or reset, no
    further sequence of calls reopens it, and every later write, credit or
    close on it fails with [ErrStreamClosed] and changes nothing. *)
Theorem terminal_is_final c s l ops j payload credit :
  goodConfig c -> coherent c s l ->
  InitialSessionWindowBytes c + creditedTotal l + totalCredit ops <= MaxInt64 ->
  IsTerminal (StateOf s j) = true -> 0 < credit ->
  let s' := fst (runLedger s l ops) in
  IsTerminal (StateOf s' j) = true /\
  WriteData s' j payload = (s', (mkWriteResult j 0 false 0 0, Some ErrStreamClosed)) /\
  WindowUpdate s' j credit = (s', Some ErrStreamClosed) /\
  CloseLocal s' j = (s', Some ErrStreamClosed) /\ CloseRemote s' j = (s', Some ErrStreamClosed).
Proof.
  intros G C HB Ht Hc s'. pose proof (terminal_run c s l ops j G C HB Ht) as Ht'. fold s' in Ht'.
  clearbody s'. split; [done|]. unfold StateOf in Ht'.
  destruct (streams s' !! j) as [st|] eqn:Hj; [|done].
  unfold WriteData, WindowUpdate, CloseLocal, CloseRemote. rewrite Hj.
  destruct (Z.leb_spec credit 0); [lia|]. by destruct (State st).
Qed.

(** ** Scheduling *)

Definition isInteractive (st : Stream) : bool := bool_decide (Priority st = "interactive").

Lemma interactive_sort l : StronglySorted (fun a b => ID a < ID b) l ->
  SliceStable interactiveLess l =
  filter (fun st => isInteractive st = true) l ++ filter (fun st => isInteractive st = false) l.
Proof.
  induction l as [|x l IH] using rev_ind; intros Hs; [done|].
  apply StronglySorted_app in Hs as (Hx & Hl & _).
  rewrite SliceStable_snoc, IH, !filter_app by done. clear IH.
  assert (Hlt : forall y, y ∈ l -> Priority x = Priority y -> interactiveLess x y = false).
  { intros y Hy Hp. unfold interactiveLess. rewrite bool_decide_eq_true_2 by done. simpl.
    apply Z.ltb_ge. pose proof (Hx y x Hy ltac:(by left)). lia. }
  destruct (isInteractive x) eqn:Ex.
  - rewrite insertRev_between.
    + rewrite reverse_involutive. rewrite !filter_cons_True, filter_cons_False by (by rewrite ?Ex).
      rewrite !filter_nil, app_nil_r, <- app_assoc. done.
    + apply Forall_forall. intros y [Hy Hin]%list_elem_of_filter. unfold interactiveLess, isInteractive in *.
      apply bool_decide_eq_true in Ex. apply bool_decide_eq_false in Hy.
      rewrite bool_decide_eq_false_2 by congruence. simpl. by apply bool_decide_eq_true.
    + apply Forall_forall. intros y [Hy Hin]%list_elem_of_filter. apply Hlt; [done|].
      unfold isInteractive in *. apply bool_decide_eq_true in Ex, Hy. congruence.
  - assert (Hn : forall y, y ∈ l -> interactiveLess x y = false).
    { intros y Hy. destruct (decide (Priority x = Priority y)); [by apply Hlt|].
      unfold interactiveLess. by rewrite bool_decide_eq_false_2. }
    rewrite <- (app_nil_r (_ ++ _)) at 1. rewrite insertRev_between; [|constructor|].
    + rewrite reverse_involutive. rewrite filter_cons_False, filter_cons_True by (by rewrite ?Ex).
      rewrite !filter_nil, app_nil_r, <- app_assoc. done.
    + apply Forall_forall. intros y [Hy|Hy]%elem_of_app; apply list_elem_of_filter in Hy as [_ Hy];
        by apply Hn.
Qed.

Lemma omap_sorted c s l : coherent c s l -> StronglySorted (fun a b => ID a < ID b) (candidates s).
Proof.
  intros C. unfold candidates. pose proof (co_sorted _ _ _ C) as Hs.
  assert (Hid : forall i st, streams s !! i = Some st -> ID st = i).
  { intros i st Hi. by destruct (co_streams _ _ _ C _ _ Hi) as [[? _ _ _ _ _] _]. }
  induction (openOrder s) as [|i ids IH]; [constructor|].
  apply StronglySorted_cons in Hs as [Hi Hs]. cbn [omap list_omap].
  destruct (streams s !! i) as [st|] eqn:Ei; [|by apply IH].
  destruct (schedulable st); [|by apply IH]. apply StronglySorted_cons. split; [|by apply IH].
  apply Forall_forall. intros st' (j & Hj & Ej)%list_elem_of_omap.
  destruct (streams s !! j) as [sj|] eqn:Esj; [|done]. destruct (schedulable sj); [|done].
  injection Ej as <-. rewrite (Hid i st Ei), (Hid j sj Esj). rewrite Forall_forall in Hi. by apply Hi.
Qed.

(** Pending bytes first, ids break ties. *)
Definition pendingOrder (a b : Stream) : Prop :=
  pendingBytes a < pendingBytes b \/ (pendingBytes a = pendingBytes b /\ ID a <= ID b).

Lemma pending_sort l : StronglySorted pendingOrder (SliceStable pendingLess l).
Proof.
  apply SliceStable_sorted.
  - intros x y z. unfold pendingOrder. lia.
  - intros x y. unfold pendingLess, pendingOrder.
    destruct (Z.eqb_spec (pendingBytes x) (pendingBytes y)); [intros ?%Z.ltb_lt|intros ?%Z.ltb_lt]; lia.
  - intros x y. unfold pendingLess, pendingOrder.
    destruct (Z.eqb_spec (pendingBytes x) (pendingBytes y)); [intros ?%Z.ltb_ge|intros ?%Z.ltb_ge]; lia.
Qed.

Lemma schedule_permutation s : Permutation (ScheduleActiveStreams s) (ID <$> candidates s).
Proof.
  unfold ScheduleActiveStreams. by repeat case_bool_decide; rewrite ?SliceStable_perm.
Qed.

(** Scheduling is fair and honours the policy. At every point of a run the
    schedule lists each live, unblocked stream exactly once; under
    interactive-first and weighted-round-robin it is the interactive streams in
    opening order followed by the others in opening order, and under
    smallest-pending-first it is sorted by pending bytes with ids breaking
    ties. *)
Theorem schedule_correct c s0 ops :
  NewSession c = Ok s0 -> 0 <= MaxStreamID c <= 4294967293 ->
  InitialSessionWindowBytes c + totalCredit ops <= MaxInt64 ->
  let s := fst (runLedger s0 emptyLedger ops) in
  NoDup (ScheduleActiveStreams s) /\
  (forall id, id ∈ ScheduleActiveStreams s <->
     exists st, streams s !! id = Some st /\ schedulable st = true) /\
  (PriorityPolicy (cfg s) ∈ ["interactive_first"; "weighted_round_robin"] ->
     ScheduleActiveStreams s =
     (ID <$> filter (fun st => isInteractive st = true) (candidates s)) ++
     (ID <$> filter (fun st => isInteractive st = false) (candidates s))) /\
  (PriorityPolicy (cfg s) = "smallest_pending_first" ->
     exists l, ScheduleActiveStreams s = ID <$> l /\ Permutation l (candidates s) /\
       StronglySorted pendingOrder l).
Proof.
  intros HN HI HB s. pose proof (run_coherent c s0 ops HN HI HB) as C. fold s in C.
  set (l := snd (runLedger s0 emptyLedger ops)) in C. clearbody s l.
  pose proof (omap_sorted _ _ _ C) as Hs. split; [|split; [|split]].
  - rewrite schedule_permutation. clear -Hs. induction (candidates s) as [|x l IH]; [constructor|].
    apply StronglySorted_cons in Hs as [Hx Hs]. rewrite fmap_cons. apply NoDup_cons_2; [|by apply IH].
    intros (y & Hy & Hin)%list_elem_of_fmap. rewrite Forall_forall in Hx. specialize (Hx y Hin). lia.
  - intros id. rewrite schedule_permutation, list_elem_of_fmap. unfold candidates.
    setoid_rewrite list_elem_of_omap. split.
    + intros (st & -> & i & Hi & Est). destruct (streams s !! i) as [si|] eqn:Ei; [|done].
      destruct (schedulable si) eqn:Es; [|done]. injection Est as <-. exists si.
      by destruct (co_streams _ _ _ C _ _ Ei) as [[-> _ _ _ _ _] _].
    + intros (st & Hst & Hsc). exists st. destruct (co_streams _ _ _ C _ _ Hst) as [[Hid _ _ _ _ _] _].
      split; [done|]. exists id. split; [by apply (co_order _ _ _ C)|]. by rewrite Hst, Hsc.
  - intros Hp. rewrite !elem_of_cons, elem_of_nil in Hp. unfold ScheduleActiveStreams.
    rewrite <- fmap_app, <- interactive_sort by done.
    destruct Hp as [->|[->|[]]]; reflexivity.
  - intros Hp. exists (SliceStable pendingLess (candidates s)).
    split; [unfold ScheduleActiveStreams; by rewrite Hp|]. split; [apply SliceStable_perm|apply pending_sort].
Qed.

(** ** Sessions of validated profiles *)

(** The stream policy of a validated profile always opens a session whose
    limits are in range: the windows are positive and ordered, at most 16
    streams are live, and the id space leaves the allocator room, so that the
    theorems on runs apply to it. *)
Theorem validated_profile_session `{Encoding} p :
  Validate (Some p) = Ok tt -> u32 (sp_MaxStreamID (pf_Stream p)) ->
  exists s, NewSession (ConfigFromProfile (Some p)) = Ok s /\ goodConfig (cfg s) /\
    coherent (cfg s) s emptyLedger /\ MaxConcurrentStreams (cfg s) <= 16 /\
    InitialSessionWindowBytes (cfg s) <= 2097152 /\
    snd (OpenStream s "") = Ok 1.
Proof.
  intros HV%Validate_validated Hu. pose proof (v_stream _ HV) as HS.
  unfold validateStreamPolicy in HS. go_inv HS. clear HS.
  repeat match goal with
  | G : negb (mem _ _) = false |- _ =>
      apply negb_false_iff, mem_true in G; rewrite !elem_of_cons, elem_of_nil in G
  | G : _ || _ = false |- _ => apply orb_false_iff in G as [? ?]
  | G : (_ <? _) = false |- _ => apply Z.ltb_ge in G
  | G : (_ =? _) = false |- _ => apply Z.eqb_neq in G
  end.
  set (c := ConfigFromProfile (Some p)).
  assert (Hm : 0 < MaxConcurrentStreams c <= 16) by (simpl; lia).
  assert (Hw : 0 < InitialStreamWindowBytes c <= InitialSessionWindowBytes c) by (simpl; lia).
  assert (Hi : 1 <= MaxStreamID c <= 4294967293) by (simpl; unfold_widths; lia).
  assert (Hs : InitialSessionWindowBytes c <= 2097152) by (simpl; lia).
  clearbody c. destruct (NewSession c) as [s|] eqn:HN.
  - exists s. split; [done|]. destruct (NewSession_coherent c s HN ltac:(lia)) as [HG HC].
    unfold NewSession in HN. go_inv HN. injection HN as <-. simpl in *.
    split; [done|]. split; [done|]. split; [lia|]. split; [lia|].
    unfold OpenStream, allocateID, activeStreamCount. simpl.
    rewrite map_filter_empty, map_size_empty. change (Z.of_nat 0) with 0.
    destruct (Z.leb_spec (MaxConcurrentStreams c) 0); [lia|].
    destruct (Z.eqb_spec (MaxStreamID c) 0); [lia|].
    by destruct (Z.ltb_spec (MaxStreamID c) 1); [lia|].
  - exfalso. unfold NewSession in HN.
    destruct (Z.leb_spec (MaxConcurrentStreams c) 0); [lia|].
    destruct (Z.leb_spec (InitialStreamWindowBytes c) 0); [lia|].
    destruct (Z.leb_spec (InitialSessionWindowBytes c) 0); [lia|].
    by destruct (Z.ltb_spec (InitialSessionWindowBytes c) (InitialStreamWindowBytes c)); [lia|].
Qed.

(** ** Limits of the allocator and of the windows *)

(** With [MaxStreamID] at the top of [uint32], which [NewSession] accepts and
    profile validation does not, the odd-even allocator wraps from the last id
    to 1 and an open replaces the stream that has it. *)
Lemma allocator_wraps c st : IDStrategy c = "sequential_odd_even" ->
  MaxStreamID c = 4294967295 -> 1 < MaxConcurrentStreams c -> State st = StateClosed ->
  let s := mkSession c 4294967295 1 {[1 := st]} [1] in
  let s1 := fst (OpenStream s "bulk") in
  snd (OpenStream s "bulk") = Ok 4294967295 /\ snd (OpenStream s1 "bulk") = Ok 1 /\
  StateOf s 1 = StateClosed /\ StateOf (fst (OpenStream s1 "bulk")) 1 = StateOpen.
Proof.
  intros H1 H2 H3 H4 s s1.
  assert (A : OpenStream s "bulk" = (s1, Ok 4294967295)).
  { unfold s1, OpenStream, allocateID, activeStreamCount. simpl. rewrite H1, H2.
    rewrite map_filter_singleton_False by (simpl; by rewrite H4). rewrite map_size_empty.
    change (Z.of_nat 0) with 0. by destruct (Z.leb_spec (MaxConcurrentStreams c) 0); [lia|]. }
  assert (B : streams s1 = <[4294967295 := mkStream 4294967295 "bulk" StateOpen
                (InitialStreamWindowBytes c) 0 false [] ""]> {[1 := st]} /\ nextID s1 = 1 /\ cfg s1 = c).
  { unfold s1, OpenStream, allocateID, activeStreamCount. simpl. rewrite H1, H2.
    rewrite map_filter_singleton_False by (simpl; by rewrite H4). rewrite map_size_empty.
    change (Z.of_nat 0) with 0. by destruct (Z.leb_spec (MaxConcurrentStreams c) 0); [lia|]. }
  destruct B as (B1 & B2 & B3). rewrite A. split; [done|].
  unfold OpenStream, allocateID, activeStreamCount. rewrite B1, B2, B3, H1, H2.
  rewrite map_filter_insert_True, map_filter_singleton_False by (simpl; by rewrite ?H4).
  rewrite insert_empty, map_size_singleton. change (Z.of_nat 1) with 1.
  destruct (Z.leb_spec (MaxConcurrentStreams c) 1); [lia|]. simpl.
  unfold StateOf. simpl. rewrite lookup_singleton_eq, lookup_insert_eq. done.
Qed.

(** ** Witnesses *)

Definition sampleConfig : Config := ConfigFromProfile (Some sampleProfile).

Definition sampleSession : Session := mkSession sampleConfig 1 65536 ∅ [].

Definition sampleOps : list op :=
  [OpOpen "bulk"; OpOpen "interactive"; OpWrite 1 (sbytes "alpha"); OpWrite 3 (sbytes "beta");
   OpRead 1; OpCredit 3 8; OpWrite 1 (sbytes "!"); OpCloseLocal 3; OpReset 5 "x"].

Lemma session_flow_control_witness :
  let '(s, l) := runLedger sampleSession emptyLedger sampleOps in
  SessionWindow s = 65534 /\ 0 <= SessionWindow s.
Proof.
  pose proof (session_flow_control sampleConfig sampleSession sampleOps eq_refl
    ltac:(vm_compute; split; congruence) ltac:(vm_compute; congruence)) as H.
  destruct (runLedger sampleSession emptyLedger sampleOps) as [s l] eqn:E.
  split; [|apply H]. apply (f_equal (fun x => SessionWindow (fst x))) in E.
  simpl fst in E. rewrite <- E. vm_compute. reflexivity.
Defined.

Lemma session_delivery_witness :
  let '(s, l) := runLedger sampleSession emptyLedger sampleOps in
  forall st, streams s !! 1 = Some st -> accepted l 1 = delivered l 1 ++ buffer st.
Proof.
  pose proof (fun st => session_delivery sampleConfig sampleSession sampleOps 1 st eq_refl
    ltac:(vm_compute; split; congruence) ltac:(vm_compute; congruence)) as H.
  destruct (runLedger sampleSession emptyLedger sampleOps) as [s l].
  intros st Hst. apply (H st Hst).
Defined.

Definition sampleFinal : Session := fst (runLedger sampleSession emptyLedger sampleOps).

Definition sampleStreamAt (id : Z) : Stream :=
  default (mkStream 0 "" StateIdle 0 0 false [] "") (streams sampleFinal !! id).

Lemma streams_independent_witness :
  streams (fst (step sampleFinal (OpReset 1 "bye"))) !! 3 = Some (sampleStreamAt 3).
Proof.
  destruct (streams_independent sampleConfig sampleSession sampleOps (OpReset 1 "bye") 3
    (sampleStreamAt 3) eq_refl ltac:(vm_compute; split; congruence)
    ltac:(vm_compute; congruence) ltac:(vm_compute; reflexivity)) as (st' & H1 & _ & H3).
  unfold sampleFinal. rewrite H1, H3; [reflexivity|]. simpl. congruence.
Defined.

Lemma terminal_is_final_witness :
  let s1 := fst (runLedger sampleSession emptyLedger [OpOpen ""; OpReset 1 "x"]) in
  CloseLocal (fst (runLedger s1 emptyLedger [OpOpen ""; OpRead 1])) 1 =
  (fst (runLedger s1 emptyLedger [OpOpen ""; OpRead 1]), Some ErrStreamClosed).
Proof.
  intros s1.
  assert (C : coherent sampleConfig s1 emptyLedger).
  { apply (run_coherent sampleConfig sampleSession [OpOpen ""; OpReset 1 "x"] eq_refl);
      vm_compute; try split; congruence. }
  assert (G : goodConfig sampleConfig) by (constructor; vm_compute; try split; congruence).
  apply (terminal_is_final sampleConfig s1 emptyLedger [OpOpen ""; OpRead 1] 1 [] 1 G C);
    [vm_compute; congruence|vm_compute; reflexivity|lia].
Defined.

Lemma schedule_correct_witness :
  ScheduleActiveStreams sampleFinal = [3; 1] /\ NoDup (ScheduleActiveStreams sampleFinal).
Proof.
  split; [vm_compute; reflexivity|].
  apply (schedule_correct sampleConfig sampleSession sampleOps eq_refl);
    vm_compute; try split; congruence.
Defined.

Lemma validated_profile_session_witness :
  exists s, NewSession sampleConfig = Ok s /\ snd (OpenStream s "") = Ok 1.
Proof.
  destruct (@validated_profile_session toyEncoding sampleProfile) as (s & H1 & _ & _ & _ & _ & H2);
    [vm_compute; reflexivity|vm_compute; split; congruence|].
  exists s. split; [exact H1|exact H2].
Defined.
