(* ===== verification/Scheduler.v ===== *)
(** * Batching, stream scheduling and fragment sizes

    [src/internal/protocol/scheduler/scheduler.go]. The planning loops remove
    at least one item per round, so the length of the queue is enough fuel.
    Sums of payload sizes are 64-bit [int] sums and wrap ([addInt]). *)

From S2P Require Import Prelude GoBytes GoSort Ir.
From Stdlib Require Import ZArith Lia.
From stdpp Require Import base list gmap strings sorting.
Local Open Scope Z_scope.

Definition addInt (a b : Z) : Z := int64_of (a + b).

Record Item := mkItem { it_Semantic : string; it_PayloadBytes : Z; Interactive : bool }.

Record StreamItem := mkStreamItem {
  si_StreamID : Z;
  si_Semantic : string;
  si_PayloadBytes : Z;
  si_Priority : string;
  Blocked : bool;
  Closed : bool;
}.

(** [Flush] and [StreamFlush]: the same fields over the two kinds of item. *)
Record Flush (A : Type) := mkFlush { AtMillis : Z; Items : list A; Bytes : Z; Reason : string }.
Arguments mkFlush {A} _ _ _ _.
Arguments AtMillis {A} _.
Arguments Items {A} _.
Arguments Bytes {A} _.
Arguments Reason {A} _.

(** ** [Plan] *)

Definition planLess (a b : Item) : bool :=
  if negb (Bool.eqb (Interactive a) (Interactive b)) then Interactive a
  else it_PayloadBytes a <? it_PayloadBytes b.

(** The inner loop: items taken (in order), their bytes, the frames in flight
    and what is left of the queue. *)
Fixpoint fillBatch (policy : SchedulerPolicy) (queue : list Item) (bytes inFlight : Z)
    : list Item * Z * Z * list Item :=
  match queue with
  | [] => ([], bytes, inFlight, [])
  | item :: rest =>
      if (addInt bytes (it_PayloadBytes item) <=? sc_MaxBatchBytes policy)
         && (inFlight <? sc_MaxInFlightFrames policy)
      then let '(taken, b, f, queue') :=
             fillBatch policy rest (addInt bytes (it_PayloadBytes item)) (addInt inFlight 1) in
           (item :: taken, b, f, queue')
      else ([], bytes, inFlight, queue)
  end.

(** The outer loop. *)
Fixpoint planLoop (fuel : nat) (policy : SchedulerPolicy) (queue : list Item) (inFlight now : Z)
    : list (Flush Item) :=
  match fuel, queue with
  | O, _ | _, [] => []
  | S fuel, first :: rest =>
      let '(taken, b, f, queue') := fillBatch policy queue 0 inFlight in
      let '(taken, b, f, queue') :=
        match taken with
        | [] => ([first], it_PayloadBytes first, addInt f 1, rest)
        | _ => (taken, b, f, queue')
        end in
      mkFlush now taken b (sc_Mode policy)
      :: planLoop fuel policy queue' (if sc_MaxInFlightFrames policy <=? f then 0 else f)
           (addInt now (sc_FlushIntervalMs policy))
  end.

Definition planQueue (policy : SchedulerPolicy) (items : list Item) : list Item :=
  if bool_decide (sc_Mode policy = "interactive_first") then SliceStable planLess items
  else if bool_decide (sc_Mode policy = "bulk_first")
  then SliceStable (fun a b => it_PayloadBytes b <? it_PayloadBytes a) items
  else items.

Definition Plan (policy : SchedulerPolicy) (items : list Item) : list (Flush Item) :=
  let queue := planQueue policy items in
  planLoop (length queue) policy queue 0 0.

(** ** [PlanStreams] *)

Definition prioLess (a b : StreamItem) : bool :=
  if negb (bool_decide (si_Priority a = si_Priority b))
  then bool_decide (si_Priority a = "interactive")
  else si_PayloadBytes a <? si_PayloadBytes b.

Definition smallestLess (a b : StreamItem) : bool :=
  if si_PayloadBytes a =? si_PayloadBytes b then si_StreamID a <? si_StreamID b
  else si_PayloadBytes a <? si_PayloadBytes b.

(** The queues of [byStream]; an absent key reads as the empty slice. *)
Definition queueOf (byStream : gmap Z (list StreamItem)) (id : Z) : list StreamItem :=
  default [] (byStream !! id).

Fixpoint groupByStream (items : list StreamItem) (byStream : gmap Z (list StreamItem))
    (order : list Z) : gmap Z (list StreamItem) * list Z :=
  match items with
  | [] => (byStream, order)
  | item :: rest =>
      let id := si_StreamID item in
      groupByStream rest (<[id := queueOf byStream id ++ [item]]> byStream)
        (if bool_decide (byStream !! id = None) then order ++ [id] else order)
  end.

(** One round over the streams: the first item of each non-empty queue. *)
Fixpoint rrRound (order : list Z) (byStream : gmap Z (list StreamItem)) (out : list StreamItem)
    (progress : bool) : gmap Z (list StreamItem) * list StreamItem * bool :=
  match order with
  | [] => (byStream, out, progress)
  | id :: rest =>
      match queueOf byStream id with
      | [] => rrRound rest byStream out progress
      | item :: queue => rrRound rest (<[id := queue]> byStream) (out ++ [item]) true
      end
  end.

Fixpoint rrLoop (fuel : nat) (n : Z) (order : list Z) (byStream : gmap Z (list StreamItem))
    (out : list StreamItem) : list StreamItem :=
  match fuel with
  | O => out
  | S fuel =>
      if zlen out <? n then
        let '(byStream, out, progress) := rrRound order byStream out false in
        if negb progress then out else rrLoop fuel n order byStream out
      else out
  end.

Definition roundRobin (items : list StreamItem) : list StreamItem :=
  let '(byStream, order) := groupByStream items ∅ [] in
  let order := SliceStable Z.ltb order in
  rrLoop (length items) (zlen items) order byStream [].

Fixpoint fillFlush (maxBatch maxInFlight : Z) (queue : list StreamItem) (count bytes : Z)
    : list StreamItem * Z * list StreamItem :=
  match queue with
  | [] => ([], bytes, [])
  | item :: rest =>
      if (count <? maxInFlight) && (addInt bytes (si_PayloadBytes item) <=? maxBatch)
      then let '(taken, b, queue') :=
             fillFlush maxBatch maxInFlight rest (count + 1) (addInt bytes (si_PayloadBytes item)) in
           (item :: taken, b, queue')
      else ([], bytes, queue)
  end.

Fixpoint streamsLoop (fuel : nat) (reason : string) (interval maxBatch maxInFlight : Z)
    (queue : list StreamItem) (now : Z) : list (Flush StreamItem) :=
  match fuel, queue with
  | O, _ | _, [] => []
  | S fuel, first :: rest =>
      let '(taken, b, queue') := fillFlush maxBatch maxInFlight queue 0 0 in
      let '(taken, b, queue') :=
        match taken with
        | [] => ([first], si_PayloadBytes first, rest)
        | _ => (taken, b, queue')
        end in
      mkFlush now taken b reason
      :: streamsLoop fuel reason interval maxBatch maxInFlight queue' (addInt now interval)
  end.

Definition admissible (item : StreamItem) : bool := negb (Blocked item || Closed item).

Definition streamsQueue (streamPolicy : StreamPolicy) (items : list StreamItem)
    : list StreamItem :=
  let queue := filter (fun item => admissible item = true) items in
  let p := sp_PriorityPolicy streamPolicy in
  if bool_decide (p = "interactive_first") then SliceStable prioLess queue
  else if bool_decide (p = "smallest_pending_first") then SliceStable smallestLess queue
  else if bool_decide (p = "weighted_round_robin") then roundRobin queue
  else SliceStable (fun a b => si_StreamID a <? si_StreamID b) queue.

Definition PlanStreams (streamPolicy : StreamPolicy) (policy : SchedulerPolicy)
    (items : list StreamItem) : list (Flush StreamItem) :=
  let queue := streamsQueue streamPolicy items in
  let maxBatch := if sc_MaxBatchBytes policy <=? 0 then 32 * 1024 else sc_MaxBatchBytes policy in
  let maxInFlight := if sc_MaxInFlightFrames policy <=? 0 then 4 else sc_MaxInFlightFrames policy in
  streamsLoop (length queue) (sp_PriorityPolicy streamPolicy) (sc_FlushIntervalMs policy)
    maxBatch maxInFlight queue 0.

(** ** Fragment sizes *)

Definition chunkLimit (fragmentationMode : string) (maxBatchBytes maxFrameBytes : Z) : Z :=
  let maxChunk :=
    if (maxBatchBytes <=? 0) || (int64_of (maxFrameBytes - 512) <? maxBatchBytes)
    then int64_of (maxFrameBytes - 512) else maxBatchBytes in
  let maxChunk :=
    if bool_decide (fragmentationMode = "fixed_size_chunks") then Z.min maxChunk 4096
    else if bool_decide (fragmentationMode = "bounded_variable_chunks") then Z.min maxChunk 6144
    else if bool_decide (fragmentationMode = "scheduler_controlled_chunks")
    then Z.min maxChunk maxBatchBytes
    else Z.min maxChunk (16 * 1024) in
  if maxChunk <? 1 then 1 else maxChunk.

Fixpoint cutSizes (fuel : nat) (maxChunk remaining : Z) : list Z :=
  match fuel with
  | O => []
  | S fuel =>
      if 0 <? remaining then
        let n := Z.min maxChunk remaining in n :: cutSizes fuel maxChunk (remaining - n)
      else []
  end.

(** The loop runs once per started chunk. *)
Definition FragmentSizesFor (fragmentationMode : string)
    (maxBatchBytes maxFrameBytes payloadLen : Z) : list Z :=
  if payloadLen <=? 0 then [0]
  else
    let maxChunk := chunkLimit fragmentationMode maxBatchBytes maxFrameBytes in
    cutSizes (Z.to_nat (payloadLen / maxChunk + 1)) maxChunk payloadLen.

Definition FragmentSizes (p : Profile) (payloadLen : Z) : list Z :=
  FragmentSizesFor (fg_FragmentationMode (pf_FrameGrammar p)) (sc_MaxBatchBytes (pf_Scheduler p))
    (lim_MaxFrameBytes (pf_Limits p)) payloadLen.

(** ** Batches *)

Definition sumZ (l : list Z) : Z := foldr Z.add 0 l.

Lemma sumZ_nonneg l : Forall (fun z => 0 <= z) l -> 0 <= sumZ l.
Proof. induction 1; simpl; lia. Qed.

Lemma addInt_small a b : 0 <= a + b <= MaxInt64 -> addInt a b = a + b.
Proof.
  intros H. unfold addInt, int64_of. rewrite wrap64_small by (unfold_widths; lia).
  by destruct (Z.leb_spec (a + b) MaxInt64); [|lia].
Qed.

(** A flush is non-empty, counts its bytes exactly, and exceeds neither limit
    unless it is a single oversized item. *)
Record okFlush {A} (size : A -> Z) (maxBatch maxItems : Z) (f : Flush A) : Prop := {
  of_nonempty : Items f <> [];
  of_bytes : Bytes f = sumZ (size <$> Items f);
  of_limit : Bytes f <= maxBatch \/ zlen (Items f) = 1;
  of_count : zlen (Items f) <= Z.max 1 maxItems;
}.

(** Payload sizes the sums of which cannot wrap. *)
Definition boundedSizes (maxBatch : Z) (sizes : list Z) : Prop :=
  Forall (fun z => 0 <= z /\ Z.max 0 maxBatch + z <= MaxInt64) sizes.

Lemma fillBatch_ok policy queue b f taken b' f' rest : i64 (sc_MaxInFlightFrames policy) ->
  fillBatch policy queue b f = (taken, b', f', rest) ->
  boundedSizes (sc_MaxBatchBytes policy) (it_PayloadBytes <$> queue) ->
  0 <= b <= Z.max 0 (sc_MaxBatchBytes policy) -> 0 <= f ->
  queue = taken ++ rest /\ b' = b + sumZ (it_PayloadBytes <$> taken) /\
  f' = f + zlen taken /\
  (taken <> [] -> b' <= sc_MaxBatchBytes policy /\ f' <= sc_MaxInFlightFrames policy).
Proof.
  intros Hi. revert b f taken b' f' rest.
  induction queue as [|item queue IH]; intros b f taken b' f' rest HF HB Hb Hf; simpl in HF.
  { injection HF as <- <- <- <-. simpl. unfold zlen. simpl. split; [done|]. split; [lia|]. split; [lia|done]. }
  rewrite fmap_cons in HB. apply Forall_cons_1 in HB as [[Hp1 Hp2] HB].
  rewrite addInt_small in HF by lia.
  destruct ((b + it_PayloadBytes item <=? sc_MaxBatchBytes policy)
            && (f <? sc_MaxInFlightFrames policy)) eqn:E.
  - apply andb_true_iff in E as [E1%Z.leb_le E2%Z.ltb_lt].
    rewrite addInt_small in HF by (unfold_widths; lia).
    destruct (fillBatch policy queue (b + it_PayloadBytes item) (f + 1)) as [[[t b1] f1] r] eqn:E3.
    injection HF as <- <- <- <-.
    destruct (IH _ _ _ _ _ _ E3 HB ltac:(lia) ltac:(lia)) as (-> & -> & -> & H4).
    rewrite zlen_cons, fmap_cons. simpl. split; [done|]. split; [lia|]. split; [lia|]. intros _.
    destruct t as [|x t]; [unfold zlen; simpl; lia|]. apply H4. done.
  - injection HF as <- <- <- <-. simpl. unfold zlen. simpl. split; [done|]. split; [lia|]. split; [lia|done].
Qed.

Lemma planLoop_ok fuel policy queue f now : (length queue <= fuel)%nat ->
  i64 (sc_MaxInFlightFrames policy) ->
  boundedSizes (sc_MaxBatchBytes policy) (it_PayloadBytes <$> queue) ->
  0 <= f -> (f = 0 \/ f < sc_MaxInFlightFrames policy) ->
  let flushes := planLoop fuel policy queue f now in
  concat (Items <$> flushes) = queue /\
  Forall (okFlush it_PayloadBytes (sc_MaxBatchBytes policy) (sc_MaxInFlightFrames policy)) flushes.
Proof.
  intros Hfuel Hi. revert queue f now Hfuel.
  induction fuel as [|fuel IH]; intros queue f now Hfuel HB Hf Hf'; simpl.
  { destruct queue; [by split; [|constructor]|simpl in Hfuel; lia]. }
  destruct queue as [|first rest]; [by split; [|constructor]|].
  destruct (fillBatch policy (first :: rest) 0 f) as [[[t b1] f1] r] eqn:E.
  pose proof HB as HB0. destruct (fillBatch_ok _ _ _ _ _ _ _ _ Hi E HB ltac:(lia) Hf) as (H1 & H2 & H3 & H4).
  destruct t as [|x t].
  - assert (f1 = f) as -> by (rewrite H3; unfold zlen; simpl; lia).
    rewrite addInt_small by (unfold_widths; lia).
    rewrite fmap_cons in HB. apply Forall_cons_1 in HB as [[Hp1 Hp2] HB].
    simpl in Hfuel.
    set (f2 := if sc_MaxInFlightFrames policy <=? f + 1 then 0 else f + 1).
    destruct (IH rest f2 (addInt now (sc_FlushIntervalMs policy))) as [I1 I2];
      [lia|done|unfold f2; destruct (Z.leb_spec (sc_MaxInFlightFrames policy) (f + 1)); lia..|].
    rewrite fmap_cons, concat_cons, I1. split; [done|]. constructor; [|done].
    constructor; simpl; unfold zlen; simpl; try done; lia.
  - destruct H4 as [H4 H5]; [done|].
    assert (Hlen : (length r <= fuel)%nat).
    { apply (f_equal length) in H1. rewrite length_app in H1. simpl in H1, Hfuel. lia. }
    assert (HBr : boundedSizes (sc_MaxBatchBytes policy) (it_PayloadBytes <$> r)).
    { rewrite H1, fmap_app in HB0. by apply Forall_app in HB0 as [_ ?]. }
    set (f2 := if sc_MaxInFlightFrames policy <=? f1 then 0 else f1).
    pose proof (zlen_nonneg (x :: t)) as Hz.
    destruct (IH r f2 (addInt now (sc_FlushIntervalMs policy))) as [I1 I2];
      [done|done|unfold f2; destruct (Z.leb_spec (sc_MaxInFlightFrames policy) f1); lia..|].
    rewrite fmap_cons, concat_cons, I1. split; [by rewrite H1|]. constructor; [|done].
    constructor; simpl; simpl in H2; try done; lia.
Qed.

Lemma planQueue_perm policy items : Permutation (planQueue policy items) items.
Proof. unfold planQueue. by repeat case_bool_decide; rewrite ?SliceStable_perm. Qed.

(** Batching loses nothing: the planned flushes hold every item exactly
    once, in the order the mode prescribes, the planning loop always finishes,
    every flush is non-empty with an exact byte count, and no flush exceeds the
    batch size or the frames allowed in flight unless it is one oversized
    item. *)
Theorem Plan_correct policy items :
  i64 (sc_MaxInFlightFrames policy) ->
  boundedSizes (sc_MaxBatchBytes policy) (it_PayloadBytes <$> items) ->
  concat (Items <$> Plan policy items) = planQueue policy items /\
  Permutation (concat (Items <$> Plan policy items)) items /\
  Forall (okFlush it_PayloadBytes (sc_MaxBatchBytes policy) (sc_MaxInFlightFrames policy))
    (Plan policy items).
Proof.
  intros Hi HB. pose proof (planQueue_perm policy items) as Hp. unfold Plan.
  destruct (planLoop_ok (length (planQueue policy items)) policy (planQueue policy items) 0 0)
    as [H1 H2]; [done|done|unfold boundedSizes; by rewrite Hp|lia|lia|].
  rewrite H1. done.
Qed.

(** ** Round robin *)

Lemma filter_perm (l k : list StreamItem) :
  (forall id, filter (fun x => si_StreamID x = id) l = filter (fun x => si_StreamID x = id) k) ->
  Permutation l k.
Proof.
  revert k. induction l as [|x l IH]; intros k Hk.
  { destruct k as [|y k]; [done|]. specialize (Hk (si_StreamID y)).
    by rewrite filter_cons_True in Hk. }
  assert (Hx : exists a b, k = a ++ x :: b /\ filter (fun y => si_StreamID y = si_StreamID x) a = []).
  { specialize (Hk (si_StreamID x)). rewrite filter_cons_True in Hk by done. clear IH.
    induction k as [|y k IHk]; [done|]. destruct (decide (si_StreamID y = si_StreamID x)) as [E|E].
    - rewrite filter_cons_True in Hk by done. injection Hk as -> _. by exists [], k.
    - rewrite filter_cons_False in Hk by done. destruct (IHk Hk) as (a & b & -> & Ha).
      exists (y :: a), b. split; [done|]. by rewrite filter_cons_False. }
  destruct Hx as (a & b & -> & Ha). rewrite <- Permutation_middle. f_equiv. apply IH. intros id.
  specialize (Hk id). rewrite filter_app in *. destruct (decide (si_StreamID x = id)) as [<-|E].
  - rewrite !filter_cons_True in Hk by done. rewrite Ha in *. by injection Hk.
  - by rewrite !filter_cons_False in Hk by done.
Qed.

Definition mine (id : Z) (l : list StreamItem) : list StreamItem :=
  filter (fun x => si_StreamID x = id) l.

Definition pending (by_ : gmap Z (list StreamItem)) (order : list Z) : list StreamItem :=
  concat (queueOf by_ <$> order).

Lemma queueOf_insert by_ i q j :
  queueOf (<[i := q]> by_) j = if decide (i = j) then q else queueOf by_ j.
Proof.
  unfold queueOf. destruct (decide (i = j)) as [->|]; by rewrite ?lookup_insert_eq, ?lookup_insert_ne.
Qed.

Lemma groupByStream_ok items by_ order by' order' :
  groupByStream items by_ order = (by', order') -> NoDup order ->
  (forall id, id ∈ order <-> is_Some (by_ !! id)) ->
  NoDup order' /\ (forall id, id ∈ order' <-> is_Some (by' !! id)) /\
  forall id, queueOf by' id = queueOf by_ id ++ mine id items.
Proof.
  revert by_ order. induction items as [|x items IH]; intros by_ order HG HN Ho; simpl in HG.
  { injection HG as <- <-. split; [done|]. split; [done|]. intros id. by rewrite app_nil_r. }
  apply IH in HG as (H1 & H2 & H3).
  - split; [done|]. split; [done|]. intros id. rewrite H3, queueOf_insert. unfold mine.
    destruct (decide (si_StreamID x = id)) as [<-|E].
    + by rewrite filter_cons_True, <- app_assoc.
    + by rewrite filter_cons_False.
  - case_bool_decide as E; [|done]. apply NoDup_app. split; [done|]. split; [|apply NoDup_singleton].
    intros id Hid ->%list_elem_of_singleton. apply Ho in Hid. rewrite E in Hid. by destruct Hid.
  - intros id. rewrite lookup_insert_is_Some. case_bool_decide as E.
    + rewrite elem_of_app, list_elem_of_singleton, Ho.
      destruct (decide (si_StreamID x = id)); naive_solver.
    + rewrite Ho. destruct (decide (si_StreamID x = id)) as [<-|]; [|naive_solver].
      apply not_eq_None_Some in E. naive_solver.
Qed.

Lemma pending_insert by_ i q ids : i ∉ ids -> pending (<[i := q]> by_) ids = pending by_ ids.
Proof.
  unfold pending. induction ids as [|j ids IH]; intros Hi; [done|].
  rewrite !fmap_cons, !concat_cons, queueOf_insert, IH by set_solver.
  destruct (decide (i = j)); [set_solver|done].
Qed.

Lemma pending_nil by_ ids : pending by_ ids = [] -> forall id, id ∈ ids -> queueOf by_ id = [].
Proof.
  unfold pending. induction ids as [|j ids IH]; intros Hp id Hin; [by apply elem_of_nil in Hin|].
  rewrite fmap_cons, concat_cons in Hp. apply app_eq_nil in Hp as [Hj Hp].
  apply elem_of_cons in Hin as [->|Hin]; [done|by apply IH].
Qed.

(** Every queue holds items of its own stream. *)
Definition owned (by_ : gmap Z (list StreamItem)) : Prop :=
  forall id, Forall (fun x => si_StreamID x = id) (queueOf by_ id).

Lemma rrRound_ok ids by_ out pr by' out' pr' :
  rrRound ids by_ out pr = (by', out', pr') -> NoDup ids -> owned by_ ->
  owned by' /\
  (forall id, mine id out' ++ queueOf by' id = mine id out ++ queueOf by_ id) /\
  (forall id, id ∉ ids -> queueOf by' id = queueOf by_ id) /\
  (length out' + length (pending by' ids) = length out + length (pending by_ ids))%nat /\
  (pr' = false -> out' = out /\ forall id, id ∈ ids -> queueOf by_ id = []) /\
  (length out <= length out')%nat /\
  (pr' = true -> pr = true \/ (length out < length out')%nat).
Proof.
  revert by_ out pr. induction ids as [|i ids IH]; intros by_ out pr HR HN HO; simpl in HR.
  { injection HR as <- <- <-. split; [done|]. split; [done|]. split; [done|]. split; [done|].
    split; [set_solver|]. split; [lia|tauto]. }
  apply NoDup_cons in HN as [Hi HN]. destruct (queueOf by_ i) as [|x q] eqn:Eq.
  - destruct (IH _ _ _ HR HN HO) as (H1 & H2 & H3 & H4 & H5 & H6 & H7).
    split; [done|]. split; [done|]. split; [intros id Hid; apply H3; set_solver|].
    split; [unfold pending in *; rewrite !fmap_cons, !concat_cons, (H3 i Hi), Eq; done|].
    split; [|done]. intros Hp. destruct (H5 Hp) as [-> H8]. split; [done|].
    intros id [->|Hin]%elem_of_cons; [done|by apply H8].
  - pose proof (HO i) as Hx. rewrite Eq in Hx. apply Forall_cons_1 in Hx as [Hx Hq].
    destruct (IH _ _ _ HR HN) as (H1 & H2 & H3 & H4 & H5 & H6 & H7).
    { intros id. rewrite queueOf_insert. destruct (decide (i = id)) as [<-|]; [done|apply HO]. }
    rewrite length_app in H4, H6, H7. simpl in H4, H6, H7.
    split; [done|]. split.
    { intros id. rewrite H2, queueOf_insert. unfold mine. rewrite filter_app.
      destruct (decide (i = id)) as [<-|E].
      - by rewrite filter_cons_True, filter_nil, Eq, <- app_assoc.
      - by rewrite filter_cons_False, filter_nil, app_nil_r by congruence. }
    split.
    { intros id Hid. rewrite H3 by set_solver. rewrite queueOf_insert.
      destruct (decide (i = id)); [set_solver|done]. }
    split.
    { unfold pending in *. rewrite !fmap_cons, !concat_cons, !length_app, (H3 i Hi), Eq.
      rewrite queueOf_insert, decide_True by done. simpl.
      fold (pending (<[i := q]> by_) ids) in H4. rewrite pending_insert in H4 by done.
      unfold pending in H4. lia. }
    split; [|split; [lia|intros _; right; lia]].
    intros Hp. exfalso. clear -HR Hp. subst pr'. revert HR. generalize (<[i := q]> by_), (out ++ [x]).
    induction ids as [|j ids IH]; intros b o HR; simpl in HR; [done|].
    destruct (queueOf b j); by eapply IH.
Qed.

Lemma rrLoop_ok fuel n order by_ out : NoDup order -> owned by_ ->
  (forall id, id ∉ order -> queueOf by_ id = []) ->
  zlen out + zlen (pending by_ order) = n -> (Z.to_nat (n - zlen out) <= fuel)%nat ->
  forall id, mine id (rrLoop fuel n order by_ out) = mine id out ++ queueOf by_ id.
Proof.
  intros HN. revert by_ out. induction fuel as [|fuel IH]; intros by_ out HO Hout Hn Hf id.
  all: assert (Hempty : zlen (pending by_ order) = 0 -> queueOf by_ id = []) by
    (intros Hz%zlen_zero; destruct (decide (id ∈ order)); [by eapply pending_nil|by apply Hout]).
  { simpl. pose proof (zlen_nonneg (pending by_ order)).
    rewrite Hempty, app_nil_r by lia. done. }
  simpl. destruct (Z.ltb_spec (zlen out) n) as [Hlt|Hge].
  2:{ rewrite Hempty, app_nil_r; [done|]. pose proof (zlen_nonneg (pending by_ order)). lia. }
  destruct (rrRound order by_ out false) as [[by' out'] pr] eqn:E.
  destruct (rrRound_ok _ _ _ _ _ _ _ E HN HO) as (H1 & H2 & H3 & H4 & H5 & H6 & H7).
  destruct pr; simpl.
  - destruct (H7 eq_refl) as [|H8]; [done|].
    rewrite <- H2. apply IH; [done| |unfold zlen in *; lia|unfold zlen in *; lia].
    intros j Hj. rewrite H3 by done. by apply Hout.
  - destruct H5 as [-> H5]; [done|].
    assert (queueOf by_ id = []) as ->; [|by rewrite app_nil_r].
    destruct (decide (id ∈ order)); [by apply H5|by apply Hout].
Qed.

Lemma mine_complement i id items : id <> i ->
  mine id (filter (fun x => si_StreamID x <> i) items) = mine id items.
Proof.
  intros Hne. unfold mine. rewrite list_filter_filter. apply list_filter_iff. intros x. naive_solver.
Qed.

Lemma length_mine_sum order items : NoDup order ->
  (forall x, x ∈ items -> si_StreamID x ∈ order) ->
  length (concat ((fun id => mine id items) <$> order)) = length items.
Proof.
  intros HN. revert items. induction HN as [|i order Hi HN IH]; intros items Hin.
  { destruct items as [|x items]; [done|]. exfalso. specialize (Hin x ltac:(by left)). set_solver. }
  rewrite fmap_cons, concat_cons, length_app.
  rewrite <- (Permutation_length (filter_app_complement (fun x => si_StreamID x = i) items)).
  rewrite length_app. f_equal.
  rewrite <- (IH (filter (fun x => si_StreamID x <> i) items)).
  - f_equal. f_equal. apply list_fmap_ext. intros k id Hk. symmetry. apply mine_complement.
    intros ->. apply Hi. by eapply list_elem_of_lookup_2.
  - intros x [Hx Hxi]%list_elem_of_filter. specialize (Hin x Hxi). set_solver.
Qed.

Lemma mine_owned id items : Forall (fun x => si_StreamID x = id) (mine id items).
Proof. apply Forall_forall. by intros x [Hx _]%list_elem_of_filter. Qed.

Lemma roundRobin_mine items id : mine id (roundRobin items) = mine id items.
Proof.
  unfold roundRobin. destruct (groupByStream items ∅ []) as [by_ order] eqn:E.
  apply groupByStream_ok in E as (HN & Ho & Hq); [|constructor|].
  2:{ intros j. rewrite elem_of_nil, lookup_empty. split; [done|]. by intros [? ?]. }
  assert (Hq' : forall j, queueOf by_ j = mine j items).
  { intros j. rewrite Hq. unfold queueOf. by rewrite lookup_empty. }
  pose proof (SliceStable_perm Z.ltb order) as Hp.
  rewrite rrLoop_ok; [by rewrite Hq'|..].
  - by rewrite Hp.
  - intros j. rewrite Hq'. apply mine_owned.
  - intros j. rewrite Hp, Ho. intros Hn. unfold queueOf. destruct (by_ !! j); [|done].
    destruct Hn. eauto.
  - assert (Hpend : pending by_ (SliceStable Z.ltb order) =
                    concat ((fun j => mine j items) <$> SliceStable Z.ltb order)).
    { unfold pending. f_equal. apply list_fmap_ext. intros; apply Hq'. }
    rewrite Hpend. unfold zlen. rewrite length_mine_sum; [simpl; lia|by rewrite Hp|].
    intros x Hx. rewrite Hp, Ho. destruct (by_ !! si_StreamID x) eqn:Ex; [done|].
    specialize (Hq' (si_StreamID x)). unfold queueOf in Hq'. rewrite Ex in Hq'. simpl in Hq'.
    assert (x ∈ mine (si_StreamID x) items) by (by apply list_elem_of_filter).
    rewrite <- Hq' in H. by apply elem_of_nil in H.
  - unfold zlen. simpl. lia.
Qed.

(** Weighted round robin neither loses, invents nor reorders within a
    stream: the loop always finishes with a permutation of the items in which
    the items of each stream keep their order. *)
Theorem roundRobin_correct items :
  Permutation (roundRobin items) items /\
  forall id, filter (fun x => si_StreamID x = id) (roundRobin items)
           = filter (fun x => si_StreamID x = id) items.
Proof.
  split; [|intros id; apply (roundRobin_mine items id)].
  apply filter_perm. intros id. apply (roundRobin_mine items id).
Qed.

Lemma roundRobin_perm items : Permutation (roundRobin items) items.
Proof. apply filter_perm. intros id. apply (roundRobin_mine items id). Qed.

(** ** Stream flushes *)

Lemma fillFlush_ok maxBatch maxInFlight queue count b taken b' rest :
  fillFlush maxBatch maxInFlight queue count b = (taken, b', rest) ->
  boundedSizes maxBatch (si_PayloadBytes <$> queue) ->
  0 <= b <= Z.max 0 maxBatch ->
  queue = taken ++ rest /\ b' = b + sumZ (si_PayloadBytes <$> taken) /\
  (taken <> [] -> b' <= maxBatch /\ count + zlen taken <= maxInFlight).
Proof.
  revert count b taken b' rest.
  induction queue as [|item queue IH]; intros count b taken b' rest HF HB Hb; simpl in HF.
  { injection HF as <- <- <-. simpl. split; [done|]. split; [lia|done]. }
  rewrite fmap_cons in HB. apply Forall_cons_1 in HB as [[Hp1 Hp2] HB].
  rewrite addInt_small in HF by lia.
  destruct ((count <? maxInFlight) && (b + si_PayloadBytes item <=? maxBatch)) eqn:E.
  - apply andb_true_iff in E as [E1%Z.ltb_lt E2%Z.leb_le].
    destruct (fillFlush maxBatch maxInFlight queue (count + 1) (b + si_PayloadBytes item))
      as [[t b1] r] eqn:E3.
    injection HF as <- <- <-. destruct (IH _ _ _ _ _ E3 HB ltac:(lia)) as (-> & -> & H4).
    rewrite zlen_cons, fmap_cons. simpl. split; [done|]. split; [lia|]. intros _.
    destruct t as [|x t]; [unfold zlen; simpl; lia|]. destruct H4 as [H4 H5]; [done|].
    simpl in *. lia.
  - injection HF as <- <- <-. simpl. split; [done|]. split; [lia|done].
Qed.

Lemma streamsLoop_ok fuel reason interval maxBatch maxInFlight queue now :
  (length queue <= fuel)%nat -> boundedSizes maxBatch (si_PayloadBytes <$> queue) ->
  let flushes := streamsLoop fuel reason interval maxBatch maxInFlight queue now in
  concat (Items <$> flushes) = queue /\
  Forall (okFlush si_PayloadBytes maxBatch maxInFlight) flushes.
Proof.
  revert queue now. induction fuel as [|fuel IH]; intros queue now Hfuel HB; simpl.
  { destruct queue; [by split; [|constructor]|simpl in Hfuel; lia]. }
  destruct queue as [|first rest]; [by split; [|constructor]|].
  destruct (fillFlush maxBatch maxInFlight (first :: rest) 0 0) as [[t b1] r] eqn:E.
  destruct (fillFlush_ok _ _ _ _ _ _ _ _ E HB ltac:(lia)) as (H1 & H2 & H3).
  simpl in Hfuel. destruct t as [|x t].
  - rewrite fmap_cons in HB. apply Forall_cons_1 in HB as [_ HB].
    destruct (IH rest (addInt now interval) ltac:(lia) HB) as [I1 I2].
    rewrite fmap_cons, concat_cons, I1. split; [done|]. constructor; [|done].
    constructor; simpl; unfold zlen; simpl; try done; lia.
  - destruct H3 as [H3 H4]; [done|].
    assert (Hlen : (length r <= fuel)%nat).
    { apply (f_equal length) in H1. rewrite length_app in H1. simpl in H1. lia. }
    rewrite H1, fmap_app in HB. apply Forall_app in HB as [_ HB].
    destruct (IH r (addInt now interval) Hlen HB) as [I1 I2].
    rewrite fmap_cons, concat_cons, I1. split; [by rewrite H1|]. constructor; [|done].
    constructor; simpl; simpl in H2; try done; lia.
Qed.

Lemma streamsQueue_perm sp items :
  Permutation (streamsQueue sp items) (filter (fun x => admissible x = true) items).
Proof.
  unfold streamsQueue. by repeat case_bool_decide; rewrite ?SliceStable_perm, ?roundRobin_perm.
Qed.

(** Stream scheduling emits exactly the items of streams that are neither
    blocked nor closed, each once, for every priority policy; every flush is
    non-empty with an exact byte count and stays within the effective batch
    size and frame count (the defaults when the policy gives none) unless it is
    one oversized item. *)
Theorem PlanStreams_correct sp policy items :
  let maxBatch := if sc_MaxBatchBytes policy <=? 0 then 32 * 1024 else sc_MaxBatchBytes policy in
  let maxFrames := if sc_MaxInFlightFrames policy <=? 0 then 4 else sc_MaxInFlightFrames policy in
  boundedSizes maxBatch (si_PayloadBytes <$> items) ->
  Permutation (concat (Items <$> PlanStreams sp policy items))
    (filter (fun x => admissible x = true) items) /\
  Forall (okFlush si_PayloadBytes maxBatch maxFrames) (PlanStreams sp policy items).
Proof.
  intros maxBatch maxFrames HB. unfold PlanStreams. fold maxBatch maxFrames. cbv zeta.
  pose proof (streamsQueue_perm sp items) as Hp.
  edestruct (streamsLoop_ok (length (streamsQueue sp items)) (sp_PriorityPolicy sp)
    (sc_FlushIntervalMs policy) maxBatch maxFrames (streamsQueue sp items) 0) as [H1 H2]; [done| |].
  - unfold boundedSizes in *. rewrite Hp, Forall_fmap. rewrite Forall_fmap in HB.
    rewrite !Forall_forall in *. intros x [_ Hx]%list_elem_of_filter. by apply HB.
  - rewrite H1. done.
Qed.

(** ** Fragments *)

Lemma cutSizes_ok fuel chunk n : 1 <= chunk -> 0 <= n <= chunk * Z.of_nat fuel ->
  sumZ (cutSizes fuel chunk n) = n /\ Forall (fun k => 1 <= k <= chunk) (cutSizes fuel chunk n).
Proof.
  intros Hc. revert n. induction fuel as [|fuel IH]; intros n Hn;
    [assert (n = 0) as -> by lia; simpl; split; [done|constructor]|]. simpl.
  destruct (Z.ltb_spec 0 n); simpl; [|split; [lia|constructor]].
  destruct (IH (n - Z.min chunk n)) as [H1 H2]; [rewrite Nat2Z.inj_succ in Hn; nia|].
  rewrite H1. split; [lia|]. constructor; [lia|done].
Qed.

Lemma chunkLimit_range mode batch frame : i64 batch -> 513 <= frame <= MaxInt64 ->
  1 <= chunkLimit mode batch frame <= frame - 512.
Proof.
  intros Hb Hf. unfold chunkLimit.
  assert (int64_of (frame - 512) = frame - 512) as ->.
  { apply int64_of_small. lia. }
  set (m := if (batch <=? 0) || (frame - 512 <? batch) then frame - 512 else batch).
  assert (Hm : 1 <= m <= frame - 512).
  { unfold m. destruct (Z.leb_spec batch 0), (Z.ltb_spec (frame - 512) batch); simpl; lia. }
  clearbody m. repeat case_bool_decide;
    match goal with |- context [?a <? 1] => destruct (Z.ltb_spec a 1) end; lia.
Qed.

Lemma chunkLimit_pos mode batch frame : 1 <= chunkLimit mode batch frame.
Proof.
  unfold chunkLimit. cbv zeta. match goal with |- context [?a <? 1] => destruct (Z.ltb_spec a 1) end; lia.
Qed.

Lemma FragmentSizesFor_sum mode batch frame len : 0 <= len ->
  sumZ (FragmentSizesFor mode batch frame len) = len /\
  Forall (fun n => 0 <= n <= chunkLimit mode batch frame /\ (0 < len -> 1 <= n))
    (FragmentSizesFor mode batch frame len).
Proof.
  intros Hl. pose proof (chunkLimit_pos mode batch frame) as Hc.
  unfold FragmentSizesFor. destruct (Z.leb_spec len 0) as [|Hpos].
  - assert (len = 0) as -> by lia. simpl. split; [done|]. constructor; [lia|constructor].
  - destruct (cutSizes_ok (Z.to_nat (len / chunkLimit mode batch frame + 1))
      (chunkLimit mode batch frame) len) as [H1 H2]; [lia| |].
    { pose proof (Z.div_pos len (chunkLimit mode batch frame)).
      pose proof (Z.div_mod len (chunkLimit mode batch frame)).
      pose proof (Z.mod_pos_bound len (chunkLimit mode batch frame)). nia. }
    split; [done|]. eapply Forall_impl; [exact H2|]. intros n Hn. simpl in Hn. lia.
Qed.

(** Fragmenting is exact: for every mode, batch size and frame limit that
    leaves room for a header, the sizes of the fragments add up to the payload
    length, each fragment is non-empty and fits in a frame, and the loop
    finishes; an empty payload is one empty fragment. *)
Theorem FragmentSizesFor_correct mode batch frame len :
  i64 batch -> 513 <= frame <= MaxInt64 -> 0 <= len ->
  sumZ (FragmentSizesFor mode batch frame len) = len /\
  Forall (fun n => 0 <= n <= frame - 512 /\ (0 < len -> 1 <= n)) (FragmentSizesFor mode batch frame len) /\
  FragmentSizesFor mode batch frame 0 = [0].
Proof.
  intros Hb Hf Hl. pose proof (chunkLimit_range mode batch frame Hb Hf) as Hc.
  destruct (FragmentSizesFor_sum mode batch frame len Hl) as [H1 H2].
  split; [done|]. split; [|done]. eapply Forall_impl; [exact H2|]. intros n Hn. simpl in Hn. lia.
Qed.

(** ** Witnesses *)

Definition sampleScheduler : SchedulerPolicy := mkSchedulerPolicy "interactive_first" 100 10 4 "fifo".

Definition sampleItems : list Item :=
  [mkItem "a" 60 false; mkItem "b" 50 true; mkItem "c" 500 false; mkItem "d" 40 true].

Lemma Plan_correct_witness :
  (Items <$> Plan sampleScheduler sampleItems) =
    [[mkItem "d" 40 true; mkItem "b" 50 true]; [mkItem "a" 60 false]; [mkItem "c" 500 false]] /\
  Permutation (concat (Items <$> Plan sampleScheduler sampleItems)) sampleItems.
Proof.
  split; [vm_compute; reflexivity|].
  apply (Plan_correct sampleScheduler sampleItems); [vm_compute; split; congruence|].
  repeat (constructor; [vm_compute; split; congruence|]). constructor.
Defined.

Definition sampleStreamItems : list StreamItem :=
  [mkStreamItem 3 "x" 10 "bulk" false false; mkStreamItem 1 "y" 20 "bulk" false false;
   mkStreamItem 3 "z" 30 "bulk" false false; mkStreamItem 5 "w" 5 "bulk" true false].

Lemma PlanStreams_correct_witness :
  Permutation (concat (Items <$> PlanStreams
    (mkStreamPolicy "" "" 0 0 0 "" "weighted_round_robin" "" "" 0) sampleScheduler sampleStreamItems))
    (filter (fun x => admissible x = true) sampleStreamItems).
Proof.
  apply (PlanStreams_correct (mkStreamPolicy "" "" 0 0 0 "" "weighted_round_robin" "" "" 0)
    sampleScheduler sampleStreamItems).
  repeat (constructor; [vm_compute; split; congruence|]). constructor.
Defined.

Lemma FragmentSizesFor_correct_witness :
  FragmentSizesFor "fixed_size_chunks" 16384 65536 10000 = [4096; 4096; 1808] /\
  sumZ (FragmentSizesFor "fixed_size_chunks" 16384 65536 10000) = 10000.
Proof.
  split; [vm_compute; reflexivity|].
  apply (FragmentSizesFor_correct "fixed_size_chunks" 16384 65536 10000);
    vm_compute; try split; congruence.
Defined.

(** The interactive-first comparator is not a strict weak order: a bulk item is
    equivalent to a control item, which is equivalent to a larger bulk item,
    but the two bulk items are ordered. *)
Lemma prioLess_not_weak :
  exists a b c, prioLess a b = false /\ prioLess b a = false /\ prioLess b c = false /\
    prioLess c b = false /\ prioLess a c = true.
Proof.
  exists (mkStreamItem 1 SemanticData 1 "bulk" false false),
    (mkStreamItem 2 SemanticData 5 "control" false false),
    (mkStreamItem 3 SemanticData 2 "bulk" false false). done.
Qed.
