(* ===== verification/Padding.v ===== *)
(** * The padding engine

    [src/internal/protocol/padding/padding.go]. The random source is Go's
    [math/rand]: the interface [Rand] has the three operations the engine
    uses, and [RandLaws] the documented range of [Intn]. [Intn] panics on a
    non-positive bound; that is the error [PanicIntn]. *)

From S2P Require Import Prelude GoBytes Ir Validate.
From Stdlib Require Import ZArith Lia Floats.SpecFloat.
From stdpp Require Import base list strings.
Local Open Scope Z_scope.

Class Rand := {
  source : Type;
  NewSource : Z -> source;
  Float64 : source -> spec_float * source;
  Intn : source -> Z -> Z * source;
}.

Class RandLaws `(Rand) : Prop :=
  intn_range : forall s n, 0 < n -> 0 <= fst (Intn s n) < n.

Inductive pad_error := PadErrorf (message : string) | PanicIntn.

Section engine.
Context `{Rand}.

Record Engine := mkEngine { policy : PaddingPolicy; rng : source }.

Definition New (p : PaddingPolicy) (seed : Z) : Engine := mkEngine p (NewSource seed).

(** [rand.Rand.Seed] restarts the source. *)
Definition ResetSeed (e : Engine) (seed : Z) : Engine := mkEngine (policy e) (NewSource seed).

Definition withRng (e : Engine) (r : source) : Engine := mkEngine (policy e) r.

(** [a > b] on floats; a comparison with NaN is false. *)
Definition f64_gt (a b : spec_float) : bool := SFltb b a.

(** The probability draw comes first and is only made in probabilistic mode. *)
Definition selectSize (e : Engine) : Engine * result pad_error (Z * bool) :=
  let p := policy e in
  let '(e, skip) :=
    if bool_decide (pp_Mode p = "probabilistic")
    then let '(x, r) := Float64 (rng e) in (withRng e r, f64_gt x (pp_Probability p))
    else (e, false) in
  if skip then (e, Ok (0, false))
  else if pp_MaxPaddingBytes p <? pp_MinPaddingBytes p
  then (e, Err (PadErrorf "invalid padding bounds"))
  else if pp_MinPaddingBytes p <? pp_MaxPaddingBytes p then
    let n := int64_of (pp_MaxPaddingBytes p - pp_MinPaddingBytes p + 1) in
    if n <=? 0 then (e, Err PanicIntn)
    else let '(k, r) := Intn (rng e) n in
         (withRng e r, Ok (int64_of (pp_MinPaddingBytes p + k), true))
  else (e, Ok (pp_MinPaddingBytes p, true)).

(** [fill] over [n] bytes of the destination. *)
Fixpoint fill (n : nat) (r : source) : bytes * source :=
  match n with
  | O => ([], r)
  | S n => let '(k, r) := Intn r 256 in
           let '(rest, r) := fill n r in (zb k :: rest, r)
  end.

Definition Generate (e : Engine) : Engine * result pad_error bytes :=
  if bool_decide (pp_Mode (policy e) = "none") then (e, Ok [])
  else match selectSize e with
       | (e, Err err) => (e, Err err)
       | (e, Ok (_, false)) => (e, Ok [])
       | (e, Ok (size, true)) =>
           let '(out, r) := fill (Z.to_nat size) (rng e) in (withRng e r, Ok out)
       end.

(** The destination after the call, and the count. *)
Definition GenerateInto (e : Engine) (dst : bytes) : Engine * (bytes * result pad_error Z) :=
  let p := policy e in
  if bool_decide (pp_Mode p = "none") then (e, (dst, Ok 0))
  else if (pp_MinPaddingBytes p <? 0) || (pp_MaxPaddingBytes p <? pp_MinPaddingBytes p)
          || (int64_of (pp_MaxPaddingBytes p - pp_MinPaddingBytes p) =? MaxInt64)
  then (e, (dst, Err (PadErrorf "invalid padding bounds")))
  else if zlen dst <? pp_MaxPaddingBytes p
  then (e, (dst, Err (PadErrorf "padding destination too short")))
  else match selectSize e with
       | (e, Err err) => (e, (dst, Err err))
       | (e, Ok (_, false)) => (e, (dst, Ok 0))
       | (e, Ok (size, true)) =>
           let '(out, r) := fill (Z.to_nat size) (rng e) in
           (withRng e r, (out ++ zdrop size dst, Ok size))
       end.

Lemma fill_length n r : length (fst (fill n r)) = n.
Proof using Type.
  revert r. induction n as [|n IH]; intros r; [done|]. simpl. destruct (Intn r 256) as [k r'].
  specialize (IH r'). destruct (fill n r'). simpl in *. lia.
Qed.

Lemma selectSize_policy e : policy (fst (selectSize e)) = policy e.
Proof using Type.
  unfold selectSize. case_bool_decide; [destruct (Float64 (rng e)); destruct (f64_gt _ _); [done|]|];
    (destruct (pp_MaxPaddingBytes (policy e) <? pp_MinPaddingBytes (policy e)); [done|]);
    (destruct (pp_MinPaddingBytes (policy e) <? pp_MaxPaddingBytes (policy e)); [|done]);
    (destruct (_ <=? 0); [done|]); by destruct (Intn _ _).
Qed.

Lemma selectSize_range `{!RandLaws H} e e' size :
  i64 (pp_MinPaddingBytes (policy e)) -> i64 (pp_MaxPaddingBytes (policy e)) ->
  0 <= pp_MinPaddingBytes (policy e) -> selectSize e = (e', Ok (size, true)) ->
  pp_MinPaddingBytes (policy e) <= size <= pp_MaxPaddingBytes (policy e).
Proof using Type.
  intros Hi1 Hi2 H0. unfold selectSize.
  set (p := policy e) in *. destruct (if bool_decide (pp_Mode p = "probabilistic") then _ else _) as [e1 skip].
  destruct skip; [done|]. destruct (Z.ltb_spec (pp_MaxPaddingBytes p) (pp_MinPaddingBytes p)); [done|].
  destruct (Z.ltb_spec (pp_MinPaddingBytes p) (pp_MaxPaddingBytes p)); [|intros [= _ <-]; lia].
  destruct (Z.leb_spec (int64_of (pp_MaxPaddingBytes p - pp_MinPaddingBytes p + 1)) 0) as [|Hn]; [done|].
  pose proof (intn_range (rng e1) _ Hn) as Hk. destruct (Intn (rng e1) _) as [k r]. simpl in Hk.
  intros [= _ <-].
  assert (Hs : pp_MaxPaddingBytes p - pp_MinPaddingBytes p + 1 <= MaxInt64 ->
    int64_of (pp_MaxPaddingBytes p - pp_MinPaddingBytes p + 1)
    = pp_MaxPaddingBytes p - pp_MinPaddingBytes p + 1).
  { intros Hle. unfold int64_of. rewrite wrap64_small by (unfold_widths; lia).
    by destruct (Z.leb_spec (pp_MaxPaddingBytes p - pp_MinPaddingBytes p + 1) MaxInt64); [|lia]. }
  assert (Hb : pp_MaxPaddingBytes p - pp_MinPaddingBytes p + 1 <= MaxInt64).
  { destruct (Z.le_gt_cases (pp_MaxPaddingBytes p - pp_MinPaddingBytes p + 1) MaxInt64); [done|].
    exfalso. assert (E : pp_MaxPaddingBytes p - pp_MinPaddingBytes p + 1 = 2 ^ 63) by (unfold_widths; lia).
    rewrite E in Hn. vm_compute in Hn. done. }
  rewrite Hs in Hk by done.
  assert (int64_of (pp_MinPaddingBytes p + k) = pp_MinPaddingBytes p + k) as ->; [|lia].
  unfold int64_of. rewrite wrap64_small by (unfold_widths; lia).
  destruct (Z.leb_spec (pp_MinPaddingBytes p + k) MaxInt64); [done|unfold_widths; lia].
Qed.

Lemma generate_into `{!RandLaws H} e dst :
  i64 (pp_MinPaddingBytes (policy e)) -> i64 (pp_MaxPaddingBytes (policy e)) ->
  0 <= pp_MinPaddingBytes (policy e) <= pp_MaxPaddingBytes (policy e) ->
  pp_MaxPaddingBytes (policy e) - pp_MinPaddingBytes (policy e) < MaxInt64 ->
  pp_MaxPaddingBytes (policy e) <= zlen dst ->
  exists pad, snd (Generate e) = Ok pad /\
    GenerateInto e dst = (fst (Generate e), (pad ++ zdrop (zlen pad) dst, Ok (zlen pad))) /\
    (pad = [] \/ pp_MinPaddingBytes (policy e) <= zlen pad <= pp_MaxPaddingBytes (policy e)).
Proof using Type.
  intros Hi1 Hi2 H0 Hd Hl. unfold Generate, GenerateInto.
  pose proof (fun e' s => selectSize_range e e' s Hi1 Hi2 ltac:(lia)) as Hr.
  set (p := policy e) in *.
  case_bool_decide as Hm; [exists []; by split; [|split; [|left]]|].
  assert (Hg : (pp_MinPaddingBytes p <? 0) || (pp_MaxPaddingBytes p <? pp_MinPaddingBytes p)
    || (int64_of (pp_MaxPaddingBytes p - pp_MinPaddingBytes p) =? MaxInt64) = false).
  { destruct (Z.ltb_spec (pp_MinPaddingBytes p) 0), (Z.ltb_spec (pp_MaxPaddingBytes p) (pp_MinPaddingBytes p));
      try lia. simpl. unfold int64_of. rewrite wrap64_small by (unfold_widths; lia).
    destruct (Z.leb_spec (pp_MaxPaddingBytes p - pp_MinPaddingBytes p) MaxInt64); [|lia].
    apply Z.eqb_neq. lia. }
  rewrite Hg. destruct (Z.ltb_spec (zlen dst) (pp_MaxPaddingBytes p)); [lia|].
  destruct (selectSize e) as [e' [[size sel]|err]] eqn:E.
  - destruct sel; [|exists []; by split; [|split; [|left]]].
    specialize (Hr e' size eq_refl). pose proof (fill_length (Z.to_nat size) (rng e')) as Hf.
    destruct (fill (Z.to_nat size) (rng e')) as [out r]. simpl in Hf. exists out.
    assert (zlen out = size) as -> by (unfold zlen; lia). split; [done|]. split; [done|]. by right.
  - exfalso. revert E. unfold selectSize. fold p.
    destruct (if bool_decide (pp_Mode p = "probabilistic") then _ else _) as [e1 skip].
    destruct skip; [done|]. destruct (Z.ltb_spec (pp_MaxPaddingBytes p) (pp_MinPaddingBytes p)); [lia|].
    destruct (Z.ltb_spec (pp_MinPaddingBytes p) (pp_MaxPaddingBytes p)); [|done].
    destruct (Z.leb_spec (int64_of (pp_MaxPaddingBytes p - pp_MinPaddingBytes p + 1)) 0) as [Hn|];
      [|by destruct (Intn _ _)].
    exfalso. revert Hn. unfold int64_of. rewrite wrap64_small by (unfold_widths; lia).
    destruct (Z.leb_spec (pp_MaxPaddingBytes p - pp_MinPaddingBytes p + 1) MaxInt64); lia.
Qed.

(** Padding stays in bounds and the caller-buffer variant is the allocating
    one: whenever it accepts the destination, [GenerateInto] leaves the engine
    in the same state as [Generate], reports exactly the length of the padding
    [Generate] would return, writes those bytes and keeps the rest of the
    buffer; generated padding is empty or between the two bounds of the
    policy. *)
Theorem GenerateInto_agrees `{!RandLaws H} e dst :
  i64 (pp_MinPaddingBytes (policy e)) -> i64 (pp_MaxPaddingBytes (policy e)) ->
  0 <= pp_MinPaddingBytes (policy e) <= pp_MaxPaddingBytes (policy e) ->
  pp_MaxPaddingBytes (policy e) - pp_MinPaddingBytes (policy e) < MaxInt64 ->
  pp_MaxPaddingBytes (policy e) <= zlen dst ->
  exists pad, snd (Generate e) = Ok pad /\
    GenerateInto e dst = (fst (Generate e), (pad ++ zdrop (zlen pad) dst, Ok (zlen pad))) /\
    (pad = [] \/ pp_MinPaddingBytes (policy e) <= zlen pad <= pp_MaxPaddingBytes (policy e)).
Proof using Type. apply generate_into. Qed.

End engine.

(** ** A concrete source, for evaluation *)

#[export] Instance toyRand : Rand := {|
  source := Z;
  NewSource := fun seed => seed;
  Float64 := fun s => (f64_zero, s + 1);
  Intn := fun s n => (s mod n, s * 5 + 1);
|}.

#[export] Instance toyRand_laws : RandLaws toyRand.
Proof. intros s n Hn. simpl. by apply Z.mod_pos_bound. Qed.

Definition sampleEngine : Engine := New (mkPaddingPolicy "bounded" 2 6 f64_one) 13.

Lemma GenerateInto_agrees_witness :
  exists pad, snd (Generate sampleEngine) = Ok pad /\ zlen pad = 5 /\
    GenerateInto sampleEngine (replicate 8 Byte.x00) =
    (fst (Generate sampleEngine), (pad ++ zdrop (zlen pad) (replicate 8 Byte.x00), Ok (zlen pad))).
Proof.
  destruct (GenerateInto_agrees sampleEngine (replicate 8 Byte.x00)) as (pad & H1 & H2 & _);
    [vm_compute; split; congruence..|vm_compute; reflexivity|vm_compute; congruence|].
  exists pad. split; [exact H1|]. split; [|exact H2].
  vm_compute in H1. injection H1 as <-. reflexivity.
Defined.
