(* ===== verification/Fsm.v ===== *)
(** * The handshake state machine interpreter

    [src/internal/protocol/fsm/interpreter.go]: one endpoint's walk through the
    transitions of a validated profile, and the dry run of the first-contact
    script over a client and a server interpreter. The specification is the
    labelled transition system [allowed]: a transition of the endpoint's own
    role, authenticated when the profile asks for it. *)

From S2P Require Import Prelude GoBytes Ir Validate.
From Stdlib Require Import ZArith Lia.
From stdpp Require Import base list gmap strings.
Local Open Scope Z_scope.

Inductive fsm_error :=
  | FsmInvalidProfile (e : verror)
  | FsmInvalidRole (role : string)
  | FsmRequiresRole (message role : string)
  | FsmRequiresProof (message : string)
  | FsmInvalidTransition (state message : string)
  | FsmUnknownPeerState (state : string)
  | FsmNotRelayReady.

Record Interpreter := mkInterpreter {
  profile : Profile;
  role : string;
  state : string;
}.

Definition setState (i : Interpreter) (s : string) : Interpreter := mkInterpreter (profile i) (role i) s.

Definition New `{Encoding} (p : Profile) (r : string) : result fsm_error Interpreter :=
  let? _ := map_err FsmInvalidProfile (Validate (Some p)) in
  fail? negb (bool_decide (r = RoleClient)) && negb (bool_decide (r = RoleServer))
    with FsmInvalidRole r in
  Ok (mkInterpreter p r (fc_StartState (pf_FirstContact p))).

(** The first transition out of the state on the message. *)
Definition firstMatch (p : Profile) (s message : string) : option Transition :=
  snd <$> list_find (fun tr => tr_From tr = s /\ tr_OnMessage tr = message) (pf_Transitions p).

Definition ApplyAuthenticated (i : Interpreter) (message : string) (authenticated : bool)
    : Interpreter * result fsm_error unit :=
  match firstMatch (profile i) (state i) message with
  | None => (i, Err (FsmInvalidTransition (state i) message))
  | Some tr =>
      if negb (bool_decide (tr_Role tr = role i)) then (i, Err (FsmRequiresRole message (tr_Role tr)))
      else if tr_RequiresAuth tr && negb authenticated then (i, Err (FsmRequiresProof message))
      else (setState i (tr_To tr), Ok tt)
  end.

Definition Apply (i : Interpreter) (message : string) : Interpreter * result fsm_error unit :=
  ApplyAuthenticated i message false.

Definition RelayReady (i : Interpreter) : bool :=
  bool_decide (state i = fc_RelayReadyState (pf_FirstContact (profile i))).

Definition SetStateForPeer (i : Interpreter) (s : string) : Interpreter * result fsm_error unit :=
  if mem s (st_ID <$> pf_States (profile i)) then (setState i s, Ok tt)
  else (i, Err (FsmUnknownPeerState s)).

Definition Terminal (i : Interpreter) : bool :=
  match list_find (fun st => st_ID st = state i) (pf_States (profile i)) with
  | Some (_, st) => st_Terminal st
  | None => false
  end.

Fixpoint contactLoop (client server : Interpreter) (steps : list FirstContactStep) (path : list string)
    : result fsm_error (Interpreter * Interpreter * list string) :=
  match steps with
  | [] => Ok (client, server, path)
  | step :: rest =>
      let active := if bool_decide (fs_Role step = RoleClient) then client else server in
      let active := if bool_decide (state active = fs_FromState step) then active
                    else setState active (fs_FromState step) in
      let? _ := snd (ApplyAuthenticated active (fs_Message step) (fs_Proof step)) in
      contactLoop (setState client (fs_ToState step)) (setState server (fs_ToState step)) rest
        (path ++ [fs_ToState step])
  end.

Definition RunFirstContactPath `{Encoding} (p : Profile) : result fsm_error (list string) :=
  let? client := New p RoleClient in
  let? server := New p RoleServer in
  let? (client, server, path) :=
    contactLoop client server (fc_Steps (pf_FirstContact p)) [fc_StartState (pf_FirstContact p)] in
  fail? negb (RelayReady client) || negb (RelayReady server) with FsmNotRelayReady in
  Ok path.

(** ** The specification *)

(** What a message may do to an endpoint of role [r] in state [s]. *)
Inductive allowed (p : Profile) (r : string) : string -> string * bool -> string -> Prop :=
  | Allowed tr authenticated :
      tr ∈ pf_Transitions p -> tr_Role tr = r -> (tr_RequiresAuth tr = true -> authenticated = true) ->
      allowed p r (tr_From tr) (tr_OnMessage tr, authenticated) (tr_To tr).

Inductive walk (p : Profile) (r : string) : string -> list (string * bool) -> string -> Prop :=
  | walk_nil s : walk p r s [] s
  | walk_cons s e s' es s'' : allowed p r s e s' -> walk p r s' es s'' -> walk p r s (e :: es) s''.

Definition apply (i : Interpreter) (e : string * bool) : Interpreter * result fsm_error unit :=
  ApplyAuthenticated i (fst e) (snd e).

Lemma firstMatch_some p s m tr : firstMatch p s m = Some tr ->
  tr ∈ pf_Transitions p /\ tr_From tr = s /\ tr_OnMessage tr = m.
Proof.
  unfold firstMatch. destruct (list_find _ _) as [[k t]|] eqn:E; [|done]. intros [= <-].
  apply list_find_Some in E as (E & HP & _). split; [by eapply list_elem_of_lookup_2|done].
Qed.

Lemma firstMatch_none p s m tr : firstMatch p s m = None -> tr ∈ pf_Transitions p ->
  tr_From tr = s -> tr_OnMessage tr <> m.
Proof.
  unfold firstMatch. destruct (list_find _ _) as [[k t]|] eqn:E; [done|]. intros _ Hin Hf Hm.
  apply list_find_None in E. rewrite Forall_forall in E. by apply (E tr).
Qed.

(** The step function: a message is applied exactly as the first matching
    transition says, and a rejected one changes nothing. *)
Lemma apply_cases i e :
  match snd (apply i e) with
  | Ok _ => allowed (profile i) (role i) (state i) e (state (fst (apply i e)))
  | Err _ => fst (apply i e) = i
  end /\ profile (fst (apply i e)) = profile i /\ role (fst (apply i e)) = role i.
Proof.
  destruct e as [m a]. unfold apply, ApplyAuthenticated. cbn [fst snd].
  destruct (firstMatch _ _ _) as [tr|] eqn:E; [|done].
  case_bool_decide as Hr; cbn [negb]; [|done].
  destruct (tr_RequiresAuth tr && negb a) eqn:Ha; [done|]. split; [|done]. cbn [fst snd setState state].
  apply firstMatch_some in E as (Hin & <- & <-). constructor; [done|done|].
  intros Hq. rewrite Hq in Ha. by destruct a.
Qed.

Lemma run_walk i es :
  walk (profile i) (role i) (state i) (accepted es (snd (run apply i es))) (state (fst (run apply i es))).
Proof.
  revert i. induction es as [|e es IH]; intros i; [constructor|]. simpl.
  pose proof (apply_cases i e) as (Hs & Hp & Hr). specialize (IH (fst (apply i e))).
  destruct (apply i e) as [i1 o]. cbn [fst snd] in *. destruct (run apply i1 es) as [i2 os].
  cbn [fst snd accepted] in *. rewrite Hp, Hr in IH. destruct o as [u|err]; cbn [isOk].
  - econstructor; [exact Hs|exact IH].
  - by subst i1.
Qed.

Lemma scanTransitions_known roles l e c s out : scanTransitions roles l e c s = Ok out ->
  Forall (fun tr => is_Some (roles !! tr_To tr)) l.
Proof.
  destruct out as [[e' c'] s']. intros (H1 & _)%scanTransitions_ok.
  eapply Forall_impl; [exact H1|]. by intros tr [_ ?].
Qed.

Lemma validateStates_closed p : validateStates p = Ok tt ->
  let ids := st_ID <$> pf_States p in
  fc_StartState (pf_FirstContact p) ∈ ids /\ Forall (fun tr => tr_To tr ∈ ids) (pf_Transitions p) /\
  fc_Steps (pf_FirstContact p) <> [].
Proof.
  unfold validateStates. intros HS. apply rbind_ok in HS as ([roles term] & E & HS).
  apply scanStates_ok in E as (R1 & _ & _ & _).
  assert (Hid : forall x, is_Some (roles !! x) -> x ∈ st_ID <$> pf_States p).
  { intros y Hy. apply R1 in Hy as [Hy|Hy]; [|done]. rewrite lookup_empty in Hy. by destruct Hy. }
  go_inv HS. destruct x as [[edges sc] ss]. apply scanTransitions_known in E.
  split; [|split].
  - apply Hid, not_eq_None_Some. by apply bool_decide_eq_false in G.
  - eapply Forall_impl; [exact E|]. auto.
  - intros Hn. rewrite Hn in *. done.
Qed.

Lemma walk_declared p r s es s' : Forall (fun tr => tr_To tr ∈ st_ID <$> pf_States p) (pf_Transitions p) ->
  walk p r s es s' -> s ∈ st_ID <$> pf_States p -> s' ∈ st_ID <$> pf_States p.
Proof.
  intros HT. induction 1 as [|s e s' es s'' Ha Hw IH]; [done|]. intros _. apply IH.
  destruct Ha as [tr a Hin _ _]. rewrite Forall_forall in HT. by apply HT.
Qed.

(** C19: An endpoint only ever moves as its profile allows: after any sequence
    of messages, its state is reached from the start state by transitions of
    its own role for exactly the messages it accepted, each authenticated where
    the profile requires it, a rejected message leaving no trace; the state is
    one the profile declares; and where the profile is deterministic, every
    allowed message is accepted. *)
Theorem interpreter_follows_profile `{Encoding} p r i es : New p r = Ok i ->
  let '(i', outs) := run apply i es in
  walk p r (fc_StartState (pf_FirstContact p)) (accepted es outs) (state i') /\
  state i' ∈ st_ID <$> pf_States p /\
  (NoDup ((fun tr => (tr_From tr, tr_OnMessage tr)) <$> pf_Transitions p) ->
   forall e s', allowed p r (state i') e s' -> apply i' e = (mkInterpreter p r s', Ok tt)).
Proof.
  intros HN. unfold New in HN. apply rbind_ok in HN as ([] & HV & HN). apply map_err_ok in HV.
  apply reject_bind_ok in HN as [_ HN]. injection HN as <-.
  set (i := mkInterpreter p r (fc_StartState (pf_FirstContact p))).
  pose proof (run_walk i es) as HW.
  assert (Hc : profile (fst (run apply i es)) = p /\ role (fst (run apply i es)) = r).
  { apply (run_invariant (fun j => profile j = p /\ role j = r) (fun _ => True)); [|done|].
    - intros j e [Hp Hr] _. destruct (apply_cases j e) as (_ & -> & ->). done.
    - by apply Forall_true. }
  destruct (run apply i es) as [i' outs]. cbn [fst snd] in *. destruct Hc as [Hp Hr].
  destruct (validateStates_closed p (v_states _ (Validate_validated _ HV))) as (Hst & HT & _).
  split; [exact HW|]. split; [by eapply walk_declared|].
  intros HD e s' Ha. inversion Ha as [tr a Hin Hrole Hauth Hs He Hs']; subst e s'.
  unfold apply, ApplyAuthenticated. cbn [fst snd]. rewrite Hp, Hr, <- Hs.
  destruct (firstMatch p (tr_From tr) (tr_OnMessage tr)) as [tr'|] eqn:E.
  - apply firstMatch_some in E as (Hin' & E1 & E2).
    assert (tr' = tr) as ->.
    { apply list_elem_of_lookup in Hin as [k Hk], Hin' as [k' Hk'].
      assert (k' = k) as ->.
      { eapply NoDup_lookup; [exact HD|rewrite list_lookup_fmap, Hk'; simpl; by rewrite E1, E2
          |by rewrite list_lookup_fmap, Hk]. }
      congruence. }
    rewrite bool_decide_eq_true_2 by done. cbn [negb].
    destruct (tr_RequiresAuth tr); [rewrite (Hauth eq_refl)|]; cbn [andb negb]; unfold setState;
      by rewrite Hp, Hr.
  - exfalso. by eapply (firstMatch_none p _ _ tr).
Qed.

(** ** The first-contact script *)

(** The transition the script's step names exists, belongs to the side the step
    is played on, and is authenticated when it has to be. *)
Definition stepAllowed (p : Profile) (step : FirstContactStep) : Prop :=
  exists tr, firstMatch p (fs_FromState step) (fs_Message step) = Some tr /\
    tr_Role tr = (if bool_decide (fs_Role step = RoleClient) then RoleClient else RoleServer) /\
    (tr_RequiresAuth tr = true -> fs_Proof step = true).

Lemma apply_accepts i m a u : snd (ApplyAuthenticated i m a) = Ok u <->
  exists tr, firstMatch (profile i) (state i) m = Some tr /\ tr_Role tr = role i /\
    (tr_RequiresAuth tr = true -> a = true).
Proof.
  unfold ApplyAuthenticated. destruct u. destruct (firstMatch _ _ _) as [tr|]; [|naive_solver].
  case_bool_decide as Hr; cbn [negb]; [|naive_solver].
  destruct (tr_RequiresAuth tr) eqn:E, a; cbn; naive_solver.
Qed.

Lemma contactLoop_ok p client server steps path out :
  profile client = p -> profile server = p -> role client = RoleClient -> role server = RoleServer ->
  contactLoop client server steps path = Ok out <->
  Forall (stepAllowed p) steps /\
  out = (setState client (default (state client) (last (fs_ToState <$> steps))),
         setState server (default (state server) (last (fs_ToState <$> steps))),
         path ++ (fs_ToState <$> steps)).
Proof.
  revert client server path. induction steps as [|st steps IH]; intros client server path H1 H2 H3 H4.
  { simpl. rewrite app_nil_r. unfold setState. destruct client, server. simpl. naive_solver. }
  cbn [contactLoop]. cbv zeta. rewrite rbind_ok. set (active := if bool_decide (state _ = _) then _ else _).
  assert (Hact : profile active = p /\ state active = fs_FromState st /\
    role active = (if bool_decide (fs_Role st = RoleClient) then RoleClient else RoleServer)).
  { unfold active. repeat case_bool_decide; simpl; split_and!; congruence. }
  destruct Hact as (A1 & A2 & A3).
  setoid_rewrite apply_accepts. rewrite A1, A2, A3. setoid_rewrite IH; [|done..].
  rewrite Forall_cons, fmap_cons. unfold setState. cbn [profile role state].
  rewrite <- app_assoc. cbn [app].
  assert (Hlast : forall d, default (fs_ToState st) (last (fs_ToState <$> steps)) =
                       default d (last (fs_ToState st :: (fs_ToState <$> steps)))).
  { intros d. by destruct (fs_ToState <$> steps) eqn:E using rev_ind; rewrite ?last_snoc, ?app_comm_cons, ?last_snoc. }
  rewrite <- !Hlast. unfold stepAllowed. split.
  - intros (? & ? & ? & ->). done.
  - intros [[? ?] ->]. exists tt. done.
Qed.

(** The dry run of the first-contact script accepts exactly the scripts
    whose every step names a transition its side may take, with proof where
    proof is required, and whose last step lands in the relay-ready state; the
    path it returns is the start state followed by the states the steps claim. *)
Theorem RunFirstContactPath_exact `{Encoding} p path :
  RunFirstContactPath p = Ok path <->
  Validate (Some p) = Ok tt /\ Forall (stepAllowed p) (fc_Steps (pf_FirstContact p)) /\
  last (fs_ToState <$> fc_Steps (pf_FirstContact p)) = Some (fc_RelayReadyState (pf_FirstContact p)) /\
  path = fc_StartState (pf_FirstContact p) :: (fs_ToState <$> fc_Steps (pf_FirstContact p)).
Proof.
  set (fc := pf_FirstContact p).
  assert (HNew : forall r, r = RoleClient \/ r = RoleServer -> Validate (Some p) = Ok tt ->
                   New p r = Ok (mkInterpreter p r (fc_StartState fc))).
  { intros r Hr HV. unfold New. rewrite HV. cbn [map_err rbind].
    destruct Hr as [->| ->]; reflexivity. }
  unfold RunFirstContactPath. fold fc. split.
  - intros HR. apply rbind_ok in HR as (client & HC & HR).
    assert (HV : Validate (Some p) = Ok tt).
    { unfold New in HC. apply rbind_ok in HC as ([] & HV & _). by apply map_err_ok in HV. }
    rewrite HNew in HC by auto. injection HC as <-. rewrite HNew in HR by auto. cbn [rbind] in HR.
    apply rbind_ok in HR as ([[client server] path'] & HL & HR).
    apply (contactLoop_ok p) in HL as (HF & HL); [|done..]. injection HL as -> -> ->.
    apply reject_bind_ok in HR as [[Hc _]%orb_false_iff HR]. injection HR as <-.
    apply negb_false_iff, bool_decide_eq_true in Hc. cbn [state setState profile] in Hc. fold fc in Hc.
    split; [done|]. split; [done|]. split; [|done].
    destruct (validateStates_closed p (v_states _ (Validate_validated _ HV))) as (_ & _ & Hne). fold fc in Hne.
    destruct (last (fs_ToState <$> fc_Steps fc)) as [s|] eqn:El; [by simpl in Hc; subst|].
    apply last_None, fmap_nil_inv in El. done.
  - intros (HV & HF & HL & ->). rewrite !HNew by auto. cbn [rbind].
    destruct (contactLoop_ok p (mkInterpreter p RoleClient (fc_StartState fc))
      (mkInterpreter p RoleServer (fc_StartState fc)) (fc_Steps fc) [fc_StartState fc]
      (mkInterpreter p RoleClient (fc_RelayReadyState fc), mkInterpreter p RoleServer (fc_RelayReadyState fc),
       fc_StartState fc :: (fs_ToState <$> fc_Steps fc))) as [_ Hloop]; [done..|].
    rewrite Hloop by (split; [done|]; by rewrite HL). cbn [rbind].
    unfold RelayReady. cbn [profile state]. fold fc. by rewrite bool_decide_eq_true_2.
Qed.

(** ** Witnesses *)

Definition sampleInterpreter : Interpreter := mkInterpreter sampleProfile RoleClient "start".

Lemma interpreter_follows_profile_witness :
  walk sampleProfile RoleClient "start" [("m1", false)] "proof" /\
  fst (run apply sampleInterpreter [("m2", true); ("m1", false); ("m2", true)])
  = mkInterpreter sampleProfile RoleClient "proof".
Proof.
  split; [|vm_compute; reflexivity].
  exact (proj1 (@interpreter_follows_profile toyEncoding sampleProfile RoleClient sampleInterpreter
    [("m2", true); ("m1", false); ("m2", true)] ltac:(vm_compute; reflexivity))).
Defined.

Lemma RunFirstContactPath_exact_witness :
  @RunFirstContactPath toyEncoding sampleProfile = Ok ["start"; "proof"; "ready"].
Proof.
  apply (@RunFirstContactPath_exact toyEncoding sampleProfile ["start"; "proof"; "ready"]).
  split; [vm_compute; reflexivity|]. split; [|split; reflexivity].
  repeat constructor; eexists; (split; [reflexivity|split; [reflexivity|done]]).
Defined.

(** ** A script the dry run should refuse *)

(** The dry run resets the active side to the step's claimed origin and never
    compares the step's claimed target with the transition's. *)
Definition shortcut : FirstContactSpec :=
  mkFirstContactSpec "pattern" "start" "ready"
    [mkFirstContactStep RoleClient "c2s" "m1" "x1" "start" "ready" 32 false false].

Definition shortcutProfile : Profile :=
  let p := sampleProfile in
  mkProfile (pf_Version p) (pf_ID p) (pf_Seed p) (pf_GenerationHash p) (pf_RolePolicy p) (pf_Carrier p)
    (pf_States p) (pf_Transitions p) shortcut (pf_Messages p) (pf_FrameGrammar p) (pf_Auth p)
    (pf_Scheduler p) (pf_Stream p) (pf_ProxySemantics p) (pf_CarrierPolicy p) (pf_WireShape p)
    (pf_AdapterPolicy p) (pf_Security p) (pf_Compatibility p) (pf_Padding p) (pf_InvalidInput p) (pf_Limits p).

(** A validated profile whose script reaches the relay-ready state in one
    unauthenticated step passes, though its only way there is a transition
    that requires proof. *)
Lemma dry_run_skips_proof :
  @RunFirstContactPath toyEncoding shortcutProfile = Ok ["start"; "ready"] /\
  ~ takes shortcutProfile "start" "ready" /\
  Forall (fun tr => tr_To tr = "ready" -> tr_RequiresAuth tr = true) (pf_Transitions shortcutProfile).
Proof.
  split; [vm_compute; reflexivity|]. split.
  - intros (tr & Hin & Hf & Ht). simpl in Hin. rewrite !elem_of_cons, elem_of_nil in Hin.
    destruct Hin as [->|[->|[->|[]]]]; done.
  - repeat constructor; done.
Qed.
