(* ===== verification/Proxysem.v ===== *)
(** * The synthetic proxy targets

    [src/internal/protocol/proxysem]: relay intents, the registry of synthetic
    targets, and the chunk schedule each target answers with. Nothing here
    touches a network: a target is a function from a request to chunk sizes. A
    descriptor's parameters are a map; which of several bad parameters an error
    names depends on Go's iteration order, whether there is an error does not
    ([parameters_order]). *)

From S2P Require Import Prelude GoBytes Ir Validate Padding.
From Stdlib Require Import ZArith Lia Strings.Ascii.
From stdpp Require Import base list gmap strings pretty.
Local Open Scope Z_scope.

Inductive proxy_error :=
  | ErrInvalidIntent (detail : string)
  | ErrUnknownTarget (detail : string)
  | ErrInvalidDescriptor (detail : string)
  | ErrOversizedTarget (detail : string).

Definition DefaultMaxRequestBytes : Z := 512 * 1024.
Definition DefaultMaxResponseBytes : Z := 2 * 1024 * 1024.

Record TargetDescriptor := mkTarget {
  td_Class : string;
  td_Variant : string;
  td_Parameters : gmap string string;
}.

Record RelayIntent := mkIntent {
  ri_StreamID : Z;
  ri_RelayIntentID : Z;
  ri_Target : TargetDescriptor;
  ri_RequestClass : string;
  ri_PriorityClass : string;
  ri_ResponseMode : string;
  ri_MaxRequestBytes : Z;
  ri_MaxResponseBytes : Z;
}.

Record TargetRequest := mkRequest {
  tr_StreamID : Z;
  tr_Bytes : Z;
  tr_Class : string;
}.

Record TargetChunk := mkChunk {
  ch_StreamID : Z;
  ch_Index : Z;
  ch_Bytes : Z;
  ch_Final : bool;
  ch_ErrorCode : string;
  ch_Reset : bool;
  ch_Backpressure : bool;
  ch_MetadataClass : string;
  ch_Tick : Z;
}.

Record TargetResult := mkResult {
  res_StreamID : Z;
  res_ResponseBytes : Z;
  res_ChunkCount : Z;
  res_ErrorCode : string;
  res_Closed : bool;
  res_Reset : bool;
}.

(** ** Parameters *)

(** [strconv.Atoi]: an optional sign and decimal digits, in the range of [int]. *)
Fixpoint decimal (s : string) (acc : Z) : option Z :=
  match s with
  | EmptyString => Some acc
  | String a r =>
      let n := Z.of_N (N_of_ascii a) in
      if (48 <=? n) && (n <=? 57) then decimal r (acc * 10 + (n - 48)) else None
  end.

Definition digits (s : string) : option Z :=
  match s with EmptyString => None | _ => decimal s 0 end.

Definition Atoi (s : string) : option Z :=
  let v := match s with
           | String "-" r => Z.opp <$> digits r
           | String "+" r => digits r
           | _ => digits s
           end in
  match v with
  | Some n => if (- MaxInt64 - 1 <=? n) && (n <=? MaxInt64) then Some n else None
  | None => None
  end.

Definition sizeParam (desc : TargetDescriptor) (key : string) (fallback : Z) : result proxy_error Z :=
  let value := mapGet (td_Parameters desc) key in
  if bool_decide (value = "") then Ok fallback
  else match Atoi value with
       | None => Err (ErrInvalidDescriptor ("invalid " +:+ key))
       | Some parsed =>
           fail? (parsed <? 0) || (DefaultMaxResponseBytes <? parsed)
             with ErrOversizedTarget (key +:+ " exceeds safety bound") in
           Ok parsed
       end.

Definition mustSizeParam (desc : TargetDescriptor) (key : string) (fallback : Z) : Z :=
  match sizeParam desc key fallback with Ok value => value | Err _ => fallback end.

Definition boundedIntParam (desc : TargetDescriptor) (key : string) (minValue maxValue fallback : Z)
    : result proxy_error Z :=
  let value := mapGet (td_Parameters desc) key in
  if bool_decide (value = "") then Ok fallback
  else match Atoi value with
       | None => Err (ErrInvalidDescriptor ("invalid " +:+ key))
       | Some parsed =>
           fail? (parsed <? minValue) || (maxValue <? parsed)
             with ErrInvalidDescriptor (key +:+ " outside bounds") in
           Ok parsed
       end.

Definition mustBoundedIntParam (desc : TargetDescriptor) (key : string)
    (fallback minValue maxValue : Z) : Z :=
  match boundedIntParam desc key minValue maxValue fallback with
  | Ok value => value
  | Err _ => fallback
  end.

Definition requestedChunks (desc : TargetDescriptor) (fallback : Z) : Z :=
  mustBoundedIntParam desc "chunks" fallback 1 256.

Definition unsafeParameterName (key : string) : bool :=
  existsb (Contains (ToLower key))
    ["host"; "hostname"; "address"; "addr"; "url"; "uri"; "ip"; "port"; "dns"; "domain"].

(** ** Chunks *)

Fixpoint chunkLoop (streamID count : Z) (backpressure : bool) (metadata : string)
    (fuel : nat) (i remaining : Z) : list TargetChunk :=
  match fuel with
  | O => []
  | S fuel =>
      let part := Z.quot remaining (count - i) in
      let part := if part =? 0 then remaining else part in
      mkChunk streamID i part (i =? count - 1) "" false (backpressure && (i =? 0)) metadata 0
      :: chunkLoop streamID count backpressure metadata fuel (i + 1) (remaining - part)
  end.

Definition chunksFor (streamID total count : Z) (backpressure : bool) (metadata : string)
    : list TargetChunk :=
  if total <=? 0 then []
  else
    let count := if count <=? 0 then 1 else count in
    let count := if total <? count then total else count in
    chunkLoop streamID count backpressure metadata (Z.to_nat count) 0 total.

Definition addChunk (result : TargetResult) (chunk : TargetChunk) : TargetResult :=
  mkResult (res_StreamID result) (res_ResponseBytes result + ch_Bytes chunk) (res_ChunkCount result)
    (if bool_decide (ch_ErrorCode chunk = "") then res_ErrorCode result else ch_ErrorCode chunk)
    (if ch_Reset chunk then false else res_Closed result)
    (if ch_Reset chunk then true else res_Reset result).

Definition resultFor (streamID : Z) (chunks : list TargetChunk) (errorCode : string) (reset : bool)
    : TargetResult :=
  fold_left addChunk chunks (mkResult streamID 0 (zlen chunks) errorCode (negb reset) reset).

(** ** The targets *)

Definition TargetEcho := "echo".
Definition TargetDiscard := "discard".
Definition TargetFixedResponse := "fixed_response".
Definition TargetSlowResponse := "slow_response".
Definition TargetChunkedResponse := "chunked_response".
Definition TargetLargeObject := "large_object".
Definition TargetErrorResponse := "error_response".
Definition TargetResetMidstream := "reset_midstream".
Definition TargetDripResponse := "drip_response".
Definition TargetJitteryResponse := "jittery_response".

Definition TargetClasses : list string :=
  [TargetEcho; TargetDiscard; TargetFixedResponse; TargetSlowResponse; TargetChunkedResponse;
   TargetLargeObject; TargetErrorResponse; TargetResetMidstream; TargetDripResponse;
   TargetJitteryResponse].

(** Every handler of the registry returns a nil error. *)
Definition Handler := TargetDescriptor -> TargetRequest -> Z -> list TargetChunk * TargetResult.

Definition runEcho : Handler := fun desc req seed =>
  let chunks := chunksFor (tr_StreamID req) (tr_Bytes req) (requestedChunks desc 1) false "echo" in
  (chunks, resultFor (tr_StreamID req) chunks "" false).

Definition runDiscard : Handler := fun desc req seed =>
  ([], mkResult (tr_StreamID req) 0 0 "" true false).

Definition runFixedResponse : Handler := fun desc req seed =>
  let size := mustSizeParam desc "bytes" 1024 in
  let chunks := chunksFor (tr_StreamID req) size (requestedChunks desc 1) false "fixed" in
  (chunks, resultFor (tr_StreamID req) chunks "" false).

Definition withTick (c : TargetChunk) (tick : Z) : TargetChunk :=
  mkChunk (ch_StreamID c) (ch_Index c) (ch_Bytes c) (ch_Final c) (ch_ErrorCode c) (ch_Reset c)
    (ch_Backpressure c) (ch_MetadataClass c) tick.

Definition runSlowResponse : Handler := fun desc req seed =>
  let size := mustSizeParam desc "bytes" 2048 in
  let ticks := mustBoundedIntParam desc "ticks" 2 1 64 in
  let chunks := chunksFor (tr_StreamID req) size ticks true "slow_tick" in
  let chunks := imap (fun i c => withTick c (Z.of_nat i + 1)) chunks in
  (chunks, resultFor (tr_StreamID req) chunks "" false).

Definition runChunkedResponse : Handler := fun desc req seed =>
  let size := mustSizeParam desc "bytes" 4096 in
  let chunks := chunksFor (tr_StreamID req) size (requestedChunks desc 4) false "chunk" in
  (chunks, resultFor (tr_StreamID req) chunks "" false).

Definition runLargeObject : Handler := fun desc req seed =>
  let size := mustSizeParam desc "bytes" (256 * 1024) in
  let chunks := chunksFor (tr_StreamID req) size (Z.max 4 (Z.quot size (32 * 1024))) true
                  "large_object" in
  (chunks, resultFor (tr_StreamID req) chunks "" false).

Definition runErrorResponse : Handler := fun desc req seed =>
  let code := mapGet (td_Parameters desc) "code" in
  let code := if bool_decide (code = "") then "synthetic_target_error" else code in
  ([], mkResult (tr_StreamID req) 0 0 code true false).

Definition withReset (c : TargetChunk) : TargetChunk :=
  mkChunk (ch_StreamID c) (ch_Index c) (ch_Bytes c) (ch_Final c) (ch_ErrorCode c) true
    (ch_Backpressure c) (ch_MetadataClass c) (ch_Tick c).

Definition runResetMidstream : Handler := fun desc req seed =>
  let partial := mustSizeParam desc "partial" (Z.min (tr_Bytes req) 256) in
  let chunks := chunksFor (tr_StreamID req) partial 1 false "partial_before_reset" in
  let chunks :=
    if zlen chunks =? 0
    then [mkChunk (tr_StreamID req) 0 0 true "" false false "partial_before_reset" 0]
    else chunks in
  let chunks := alter withReset (length chunks - 1)%nat chunks in
  (chunks, resultFor (tr_StreamID req) chunks "target_reset_midstream" true).

Definition runDripResponse : Handler := fun desc req seed =>
  let size := mustSizeParam desc "bytes" 1024 in
  let chunks := chunksFor (tr_StreamID req) size (requestedChunks desc 16) false "drip" in
  (chunks, resultFor (tr_StreamID req) chunks "" false).

Section random.
Context `{Rand}.

(** The three draws of a round are made in the order the source makes them:
    the size (not in the last round), then the tick. *)
Fixpoint jitterLoop (streamID chunkCount localSeed : Z) (fuel : nat) (i remaining : Z) (rng : source)
    : list TargetChunk :=
  match fuel with
  | O => []
  | S fuel =>
      let '(part, rng) :=
        if i <? chunkCount - 1
        then let '(k, rng) := Intn rng (Z.max 1 (Z.quot remaining (chunkCount - i))) in (1 + k, rng)
        else (remaining, rng) in
      let '(jitter, rng) := Intn rng 3 in
      mkChunk streamID i part (i =? chunkCount - 1) "" false false
        ("jitter_bucket_" +:+ pretty (Z.rem (localSeed + i) 4)) (i + 1 + jitter)
      :: jitterLoop streamID chunkCount localSeed fuel (i + 1) (remaining - part) rng
  end.

Definition runJitteryResponse : Handler := fun desc req seed =>
  let size := mustSizeParam desc "bytes" 2048 in
  let localSeed := mustBoundedIntParam desc "seed" (Z.rem seed 997) 0 (2 ^ 30) in
  let rng := NewSource (int64_of (seed + localSeed)) in
  let '(k, rng) := Intn rng 5 in
  let chunkCount := 2 + k in
  let chunks := jitterLoop (tr_StreamID req) chunkCount localSeed (Z.to_nat chunkCount) 0 size rng in
  (chunks, resultFor (tr_StreamID req) chunks "" false).

(** ** The registry *)

Definition DefaultRegistry : gmap string Handler := list_to_map
  [(TargetEcho, runEcho); (TargetDiscard, runDiscard); (TargetFixedResponse, runFixedResponse);
   (TargetSlowResponse, runSlowResponse); (TargetChunkedResponse, runChunkedResponse);
   (TargetLargeObject, runLargeObject); (TargetErrorResponse, runErrorResponse);
   (TargetResetMidstream, runResetMidstream); (TargetDripResponse, runDripResponse);
   (TargetJitteryResponse, runJitteryResponse)].

Definition checkParameter (kv : string * string) : result proxy_error unit :=
  fail? unsafeParameterName (fst kv) with ErrInvalidDescriptor ("unsafe parameter " +:+ fst kv) in
  reject (64 <? slen (snd kv)) (ErrInvalidDescriptor ("parameter too long " +:+ fst kv)).

Definition ValidateTarget (r : gmap string Handler) (desc : TargetDescriptor)
    : result proxy_error unit :=
  fail? bool_decide (td_Class desc = "") with ErrInvalidDescriptor "target class is required" in
  match r !! td_Class desc with
  | None => Err (ErrUnknownTarget (td_Class desc))
  | Some _ =>
      let? _ := forRange (map_to_list (td_Parameters desc)) checkParameter in
      let? _ := sizeParam desc "bytes" 0 in
      let? _ := sizeParam desc "partial" 0 in
      let? _ := boundedIntParam desc "chunks" 1 256 0 in
      let? _ := boundedIntParam desc "ticks" 1 64 0 in
      let? _ := boundedIntParam desc "seed" 0 (2 ^ 30) 0 in
      Ok tt
  end.

(** The handler exists once the descriptor is valid; calling a nil handler
    would panic, which [Run] cannot reach ([Run_handler]). *)
Definition Run (r : gmap string Handler) (desc : TargetDescriptor) (req : TargetRequest) (seed : Z)
    : result proxy_error (list TargetChunk * TargetResult) :=
  let? _ := ValidateTarget r desc in
  fail? tr_StreamID req =? 0 with ErrInvalidIntent "stream id is required" in
  fail? (tr_Bytes req <? 0) || (DefaultMaxRequestBytes <? tr_Bytes req)
    with ErrOversizedTarget "invalid request bytes" in
  match r !! td_Class desc with
  | Some handler => Ok (handler desc req seed)
  | None => Err (ErrUnknownTarget (td_Class desc))
  end.

Definition validRequestClass (class : string) : bool :=
  mem class ["interactive"; "bulk"; "control"; "error_test"; "generated_bucket"].

Definition validPriorityClass (class : string) : bool := mem class ["interactive"; "bulk"; "control"].

Definition validResponseMode (mode : string) : bool :=
  mem mode ["immediate"; "chunked"; "delayed"; "resettable"; "errorable"; "large_object"].

Definition ValidateRelayIntent (intent : RelayIntent) : result proxy_error unit :=
  fail? ri_StreamID intent =? 0 with ErrInvalidIntent "stream id is required" in
  fail? (ri_MaxRequestBytes intent <=? 0) || (ri_MaxResponseBytes intent <=? 0)
    with ErrInvalidIntent "positive request and response limits are required" in
  fail? (DefaultMaxRequestBytes <? ri_MaxRequestBytes intent)
      || (DefaultMaxResponseBytes <? ri_MaxResponseBytes intent)
    with ErrOversizedTarget "proxy intent exceeds lab safety bounds" in
  fail? negb (validRequestClass (ri_RequestClass intent))
    with ErrInvalidIntent ("invalid request class " +:+ ri_RequestClass intent) in
  fail? negb (validPriorityClass (ri_PriorityClass intent))
    with ErrInvalidIntent ("invalid priority class " +:+ ri_PriorityClass intent) in
  fail? negb (validResponseMode (ri_ResponseMode intent))
    with ErrInvalidIntent ("invalid response mode " +:+ ri_ResponseMode intent) in
  ValidateTarget DefaultRegistry (ri_Target intent).

Definition RunIntent (intent : RelayIntent) (request : TargetRequest) (seed : Z)
    : result proxy_error (list TargetChunk * TargetResult) :=
  let? _ := ValidateRelayIntent intent in
  let request := if tr_StreamID request =? 0
                 then mkRequest (ri_StreamID intent) (tr_Bytes request) (tr_Class request)
                 else request in
  fail? ri_MaxRequestBytes intent <? tr_Bytes request with ErrOversizedTarget "" in
  let? (chunks, result) := Run DefaultRegistry (ri_Target intent) request seed in
  fail? ri_MaxResponseBytes intent <? res_ResponseBytes result with ErrOversizedTarget "" in
  Ok (chunks, result).

End random.

Definition ResponseBucket (bytes : Z) : string :=
  if bytes <=? 0 then "none"
  else if bytes <=? 1024 then "small"
  else if bytes <=? 64 * 1024 then "medium"
  else if bytes <=? 512 * 1024 then "large"
  else "huge".

(** ** Shape and size of a response *)

Definition sumBytes (chunks : list TargetChunk) : Z := foldr (fun c s => ch_Bytes c + s) 0 chunks.

(** The chunks of a stream are numbered from zero and only the last is final. *)
Definition numbered (sid : Z) (chunks : list TargetChunk) : Prop :=
  forall i c, chunks !! i = Some c ->
    ch_StreamID c = sid /\ ch_Index c = Z.of_nat i /\ ch_Final c = bool_decide (S i = length chunks) /\
    ch_ErrorCode c = "".

Lemma chunkLoop_length sid count bp md fuel i remaining :
  length (chunkLoop sid count bp md fuel i remaining) = fuel.
Proof. revert i remaining. induction fuel; intros; simpl; auto. Qed.

Lemma chunkLoop_lookup sid count bp md fuel i remaining j c :
  chunkLoop sid count bp md fuel i remaining !! j = Some c ->
  ch_StreamID c = sid /\ ch_Index c = i + Z.of_nat j /\ ch_Final c = (i + Z.of_nat j =? count - 1) /\
  ch_ErrorCode c = "" /\ ch_Reset c = false.
Proof.
  revert i remaining j. induction fuel as [|fuel IH]; intros i remaining j Hc; [done|].
  destruct j as [|j]; simpl in Hc.
  - injection Hc as <-. cbn. by rewrite !Z.add_0_r.
  - destruct (IH _ _ _ Hc) as (H1 & H2 & H3 & H4 & H5).
    replace (i + Z.of_nat (S j)) with (i + 1 + Z.of_nat j) by lia. done.
Qed.

(** The remaining bytes stay between [q] and [q + 1] per remaining chunk. *)
Lemma chunkLoop_fair sid count bp md q fuel i remaining :
  1 <= q -> count - i = Z.of_nat fuel -> (0 < fuel)%nat ->
  q * (count - i) <= remaining <= (q + 1) * (count - i) ->
  sumBytes (chunkLoop sid count bp md fuel i remaining) = remaining /\
  Forall (fun c => q <= ch_Bytes c <= q + 1) (chunkLoop sid count bp md fuel i remaining).
Proof.
  intros Hq. revert i remaining. induction fuel as [|fuel IH]; intros i remaining Hf Hpos Hr; [lia|].
  cbn [chunkLoop]. rewrite Z.quot_div_nonneg by nia.
  pose proof (Z.div_mod remaining (count - i) ltac:(lia)) as Hd.
  pose proof (Z.mod_pos_bound remaining (count - i) ltac:(lia)) as Hm.
  set (k := remaining / (count - i)) in *. set (m := remaining mod (count - i)) in *.
  assert (Hk : q <= k <= q + 1) by nia.
  destruct (Z.eqb_spec k 0) as [|_]; [lia|]. cbn [sumBytes foldr ch_Bytes].
  destruct (decide (fuel = 0%nat)) as [->|Hne].
  { simpl. split; [nia|]. constructor; [done|constructor]. }
  destruct (IH (i + 1) (remaining - k)) as [H1 H2]; [lia|lia|nia|].
  fold (sumBytes (chunkLoop sid count bp md fuel (i + 1) (remaining - k))). rewrite H1.
  split; [lia|]. by constructor.
Qed.

Lemma chunksFor_sum sid total count bp md : sumBytes (chunksFor sid total count bp md) = Z.max 0 total.
Proof.
  unfold chunksFor. destruct (Z.leb_spec total 0); [simpl; lia|].
  set (c1 := if count <=? 0 then 1 else count). set (c2 := if total <? c1 then total else c1).
  assert (1 <= c1) by (unfold c1; destruct (Z.leb_spec count 0); lia).
  assert (1 <= c2 <= total) by (unfold c2; destruct (Z.ltb_spec total c1); lia).
  pose proof (Z.div_mod total c2 ltac:(lia)). pose proof (Z.mod_pos_bound total c2 ltac:(lia)).
  assert (1 <= total / c2) by (apply Z.div_le_lower_bound; lia).
  destruct (chunkLoop_fair sid c2 bp md (total / c2) (Z.to_nat c2) 0 total) as [-> _]; lia || nia.
Qed.

Lemma chunksFor_numbered sid total count bp md : numbered sid (chunksFor sid total count bp md).
Proof.
  intros i c. unfold chunksFor. destruct (total <=? 0); [done|].
  set (n := if total <? _ then _ else _). intros Hc. rewrite chunkLoop_length.
  pose proof (lookup_lt_Some _ _ _ Hc) as Hlt. rewrite chunkLoop_length in Hlt.
  destruct (chunkLoop_lookup _ _ _ _ _ _ _ _ _ Hc) as (H1 & H2 & H3 & H4 & _).
  repeat split; [done|lia| |done]. rewrite H3. apply eq_bool_prop_intro. rewrite !Is_true_true.
  rewrite bool_decide_eq_true, Z.eqb_eq. lia.
Qed.

Lemma chunksFor_split sid total count bp md : 0 < total ->
  Forall (fun c => total / Z.min (Z.max 1 count) total <= ch_Bytes c
                   <= total / Z.min (Z.max 1 count) total + 1) (chunksFor sid total count bp md).
Proof.
  intros Ht. unfold chunksFor. destruct (Z.leb_spec total 0); [lia|].
  set (n := Z.min _ _). set (c1 := if count <=? 0 then 1 else count).
  set (c2 := if total <? c1 then total else c1).
  assert (Hc : c2 = n).
  { unfold c2, c1, n. destruct (Z.leb_spec count 0); [destruct (Z.ltb_spec total 1)|
      destruct (Z.ltb_spec total count)]; lia. }
  rewrite Hc. assert (1 <= n <= total) by (unfold n; lia).
  pose proof (Z.div_mod total n ltac:(lia)). pose proof (Z.mod_pos_bound total n ltac:(lia)).
  assert (1 <= total / n) by (apply Z.div_le_lower_bound; lia).
  apply chunkLoop_fair; lia || nia.
Qed.

(** The bytes of a response are split fairly: [chunksFor] makes as many
    chunks as asked (at least one, at most one per byte), numbers them from
    zero with only the last one final, loses and invents no byte, and any two
    chunks differ by at most one byte. *)
Theorem chunksFor_fair sid total count bp md : 0 < total ->
  let chunks := chunksFor sid total count bp md in
  let n := Z.min (Z.max 1 count) total in
  zlen chunks = n /\ numbered sid chunks /\ sumBytes chunks = total /\
  Forall (fun c => total / n <= ch_Bytes c <= total / n + 1) chunks.
Proof.
  intros Ht chunks n. split; [|split; [apply chunksFor_numbered|split]].
  - unfold chunks, chunksFor. destruct (Z.leb_spec total 0); [lia|].
    unfold zlen. rewrite chunkLoop_length. unfold n.
    destruct (Z.leb_spec count 0); [destruct (Z.ltb_spec total 1)|destruct (Z.ltb_spec total count)]; lia.
  - unfold chunks. rewrite chunksFor_sum. lia.
  - by apply chunksFor_split.
Qed.

Lemma resultFor_fold chunks r : 
  let out := fold_left addChunk chunks r in
  res_StreamID out = res_StreamID r /\ res_ResponseBytes out = res_ResponseBytes r + sumBytes chunks /\
  res_ChunkCount out = res_ChunkCount r /\ res_Reset out = res_Reset r || existsb ch_Reset chunks /\
  (res_Closed r = negb (res_Reset r) -> res_Closed out = negb (res_Reset out)).
Proof.
  revert r. induction chunks as [|c chunks IH]; intros r; cbn [fold_left].
  { cbn. rewrite orb_false_r, Z.add_0_r. done. }
  destruct (IH (addChunk r c)) as (H1 & H2 & H3 & H4 & H5). cbn [addChunk res_StreamID
    res_ResponseBytes res_ChunkCount res_Reset res_Closed] in *. repeat split; [done| |done| |].
  - rewrite H2. cbn [sumBytes foldr]. fold (sumBytes chunks). lia.
  - rewrite H4. cbn [existsb]. by destruct (ch_Reset c), (res_Reset r).
  - intros Hc. apply H5. by destruct (ch_Reset c).
Qed.

(** What every target promises of its answer. *)
Record goodRun (sid : Z) (out : list TargetChunk * TargetResult) : Prop := {
  gr_numbered : numbered sid (fst out);
  gr_stream : res_StreamID (snd out) = sid;
  gr_count : res_ChunkCount (snd out) = zlen (fst out);
  gr_bytes : res_ResponseBytes (snd out) = sumBytes (fst out);
  gr_nonneg : 0 <= res_ResponseBytes (snd out);
  gr_reset : res_Reset (snd out) = existsb ch_Reset (fst out);
  gr_closed : res_Closed (snd out) = negb (res_Reset (snd out));
}.

Lemma resultFor_good sid chunks code reset : numbered sid chunks -> 0 <= sumBytes chunks ->
  (reset = true -> existsb ch_Reset chunks = true) ->
  goodRun sid (chunks, resultFor sid chunks code reset).
Proof.
  intros Hn Hs Hr.
  destruct (resultFor_fold chunks (mkResult sid 0 (zlen chunks) code (negb reset) reset))
    as (H1 & H2 & H3 & H4 & H5).
  constructor; cbn [fst snd]; unfold resultFor; [done|done|done|by rewrite H2|by rewrite H2| |auto].
  rewrite H4. cbn [res_Reset]. destruct reset; [by rewrite Hr|done].
Qed.

Lemma sizeParam_range desc key fallback v : 0 <= fallback <= DefaultMaxResponseBytes ->
  sizeParam desc key fallback = Ok v -> 0 <= v <= DefaultMaxResponseBytes.
Proof.
  intros Hf. unfold sizeParam. case_bool_decide; [by intros [= <-]|].
  destruct (Atoi _) as [n|]; [|done]. destruct (Z.ltb_spec n 0), (Z.ltb_spec DefaultMaxResponseBytes n);
    cbn [orb reject rbind]; intros [= <-]; lia.
Qed.

Lemma mustSizeParam_range desc key fallback : 0 <= fallback <= DefaultMaxResponseBytes ->
  0 <= mustSizeParam desc key fallback <= DefaultMaxResponseBytes.
Proof.
  intros Hf. unfold mustSizeParam. destruct (sizeParam desc key fallback) eqn:E; [|done].
  by eapply sizeParam_range.
Qed.

Lemma numbered_length sid (l l' : list TargetChunk) : length l = length l' ->
  (forall i c, l !! i = Some c -> exists c', l' !! i = Some c' /\ ch_StreamID c = ch_StreamID c' /\
     ch_Index c = ch_Index c' /\ ch_Final c = ch_Final c' /\ ch_ErrorCode c = ch_ErrorCode c') ->
  numbered sid l' -> numbered sid l.
Proof.
  intros Hl Hc Hn i c Hi. destruct (Hc i c Hi) as (c' & Hi' & -> & -> & -> & ->).
  rewrite Hl. by apply Hn.
Qed.

Lemma chunksFor_nonempty sid total count bp md : 0 < total -> chunksFor sid total count bp md <> [].
Proof.
  intros Ht He. pose proof (chunksFor_sum sid total count bp md) as Hs. rewrite He in Hs.
  simpl in Hs. lia.
Qed.

Lemma chunksFor_good sid total count bp md code : 0 <= total ->
  goodRun sid (chunksFor sid total count bp md, resultFor sid (chunksFor sid total count bp md) code false).
Proof.
  intros Ht. apply resultFor_good; [apply chunksFor_numbered|rewrite chunksFor_sum; lia|done].
Qed.

Lemma chunksFor_bytes sid total count bp md : Forall (fun c => 0 <= ch_Bytes c) (chunksFor sid total count bp md).
Proof.
  destruct (Z_lt_le_dec 0 total) as [Ht|Ht].
  - eapply Forall_impl; [by apply chunksFor_split|]. intros c Hc. simpl in Hc.
    assert (0 <= total / Z.min (Z.max 1 count) total) by (apply Z.div_pos; lia). lia.
  - unfold chunksFor. destruct (Z.leb_spec total 0); [constructor|lia].
Qed.

Lemma sumBytes_tick (l : list TargetChunk) (f : nat -> Z) :
  sumBytes (imap (fun i c => withTick c (f i)) l) = sumBytes l.
Proof.
  revert f. induction l as [|c l IH]; intros f; [done|]. simpl. f_equal. apply (IH (f ∘ S)).
Qed.

Lemma runSlow_good desc req seed : goodRun (tr_StreamID req) (runSlowResponse desc req seed).
Proof.
  unfold runSlowResponse. cbv zeta.
  pose proof (mustSizeParam_range desc "bytes" 2048 ltac:(unfold DefaultMaxResponseBytes; lia)).
  set (l := chunksFor _ _ _ _ _). apply resultFor_good; [| |done].
  - apply (numbered_length _ _ l); [by rewrite length_imap| |apply chunksFor_numbered].
    intros i c. rewrite list_lookup_imap. destruct (l !! i) as [c'|]; [|done]. intros [= <-].
    by exists c'.
  - rewrite (sumBytes_tick l (fun i => Z.of_nat i + 1)). unfold l. rewrite chunksFor_sum. lia.
Qed.

Lemma sumBytes_reset l i : sumBytes (alter withReset i l) = sumBytes l.
Proof. revert i. induction l as [|c l IH]; intros [|i]; simpl; try done. f_equal. apply IH. Qed.

Lemma existsb_reset l : l <> [] -> existsb ch_Reset (alter withReset (length l - 1)%nat l) = true.
Proof.
  induction l as [|c l IH]; [done|]. intros _. destruct l as [|d l]; [done|].
  replace (length (c :: d :: l) - 1)%nat with (S (length (d :: l) - 1)) by (simpl; lia).
  change (alter withReset (S (length (d :: l) - 1)) (c :: d :: l))
    with (c :: alter withReset (length (d :: l) - 1)%nat (d :: l)).
  cbn [existsb]. rewrite (IH ltac:(done)). apply orb_true_r.
Qed.

Lemma runReset_good desc req seed : 0 <= tr_Bytes req ->
  goodRun (tr_StreamID req) (runResetMidstream desc req seed).
Proof.
  intros Hb. unfold runResetMidstream. cbv zeta.
  pose proof (mustSizeParam_range desc "partial" (Z.min (tr_Bytes req) 256)
    ltac:(unfold DefaultMaxResponseBytes; lia)).
  set (l := chunksFor _ _ _ _ _).
  match goal with |- context [if zlen l =? 0 then ?a else l] => set (l' := if zlen l =? 0 then a else l) end.
  assert (Hl : numbered (tr_StreamID req) l' /\ 0 <= sumBytes l' /\ l' <> []).
  { unfold l'. destruct (Z.eqb_spec (zlen l) 0) as [|Hne].
    - split; [|done]. intros [|[|i]] c; simpl; [|done..]. by intros [= <-].
    - split; [apply chunksFor_numbered|]. split; [unfold l; rewrite chunksFor_sum; lia|].
      intros ->. done. }
  destruct Hl as (Hn & Hs & Hne). apply resultFor_good.
  - apply (numbered_length _ _ l'); [by rewrite length_alter| |done].
    intros i c. rewrite list_lookup_alter. case_decide as Hi; [subst i|by intros Hc; exists c].
    destruct (l' !! _) as [c'|] eqn:E; [|done]. intros [= <-]. by exists c'.
  - by rewrite sumBytes_reset.
  - intros _. by apply existsb_reset.
Qed.

Section jitter.
Context `{R : Rand} {RL : RandLaws R}.

Lemma jitterLoop_shape sid count ls fuel i remaining rng :
  count - i = Z.of_nat fuel -> (0 < fuel)%nat ->
  length (jitterLoop sid count ls fuel i remaining rng) = fuel /\
  sumBytes (jitterLoop sid count ls fuel i remaining rng) = remaining /\
  existsb ch_Reset (jitterLoop sid count ls fuel i remaining rng) = false /\
  (count - i <= remaining -> Forall (fun c => 1 <= ch_Bytes c) (jitterLoop sid count ls fuel i remaining rng)) /\
  forall j c, jitterLoop sid count ls fuel i remaining rng !! j = Some c ->
    ch_StreamID c = sid /\ ch_Index c = i + Z.of_nat j /\
    ch_Final c = (i + Z.of_nat j =? count - 1) /\ ch_ErrorCode c = "".
Proof using RL.
  revert i remaining rng. induction fuel as [|fuel IH]; intros i remaining rng Hf Hpos; [lia|].
  cbn [jitterLoop].
  set (bound := Z.max 1 (Z.quot remaining (count - i))).
  destruct (if i <? count - 1 then _ else _) as [part rng1] eqn:Ep.
  destruct (Intn rng1 3) as [jitter rng2] eqn:Ej.
  assert (Hpart : (fuel = 0%nat -> part = remaining) /\
                  ((0 < fuel)%nat -> count - i <= remaining -> 1 <= part /\ count - (i + 1) <= remaining - part)).
  { destruct (Z.ltb_spec i (count - 1)) as [Hi|Hi].
    - split; [intros ->; lia|]. intros _ Hr. destruct (Intn rng bound) as [k r'] eqn:Ek.
      injection Ep as <- _. pose proof (intn_range rng bound ltac:(unfold bound; lia)) as Hk.
      rewrite Ek in Hk. cbn [fst] in Hk. unfold bound in Hk. rewrite Z.quot_div_nonneg in Hk by lia.
      pose proof (Z.div_mod remaining (count - i) ltac:(lia)).
      pose proof (Z.mod_pos_bound remaining (count - i) ltac:(lia)).
      set (q := remaining / (count - i)) in *. nia.
    - injection Ep as <- _. split; [done|]. lia. }
  destruct Hpart as [Hlast Hmore]. destruct (decide (fuel = 0%nat)) as [->|Hne].
  { rewrite Hlast by done. simpl. split; [done|]. split; [lia|]. split; [done|]. split.
    - intros. constructor; [simpl; lia|constructor].
    - intros [|j] c Hc; [|done]. injection Hc as <-. cbn. by rewrite !Z.add_0_r. }
  destruct (IH (i + 1) (remaining - part) rng2 ltac:(lia) ltac:(lia)) as (H1 & H2 & H3 & H4 & H5).
  cbn [length sumBytes foldr existsb ch_Reset ch_Bytes orb]. rewrite H1.
  fold (sumBytes (jitterLoop sid count ls fuel (i + 1) (remaining - part) rng2)). rewrite H2, H3.
  split; [done|]. split; [lia|]. split; [done|]. split.
  { intros Hr. destruct (Hmore ltac:(lia) Hr). constructor; [done|]. by apply H4. }
  intros [|j] c Hc.
  - injection Hc as <-. cbn. by rewrite Z.add_0_r.
  - destruct (H5 j c Hc) as (E1 & E2 & E3 & E4).
    replace (i + Z.of_nat (S j)) with (i + 1 + Z.of_nat j) by lia. done.
Qed.

Lemma runJittery_good desc req seed : 
  goodRun (tr_StreamID req) (runJitteryResponse desc req seed) /\
  (6 <= res_ResponseBytes (snd (runJitteryResponse desc req seed)) ->
   Forall (fun c => 0 <= ch_Bytes c) (fst (runJitteryResponse desc req seed))).
Proof using RL.
  unfold runJitteryResponse. cbv zeta.
  pose proof (mustSizeParam_range desc "bytes" 2048 ltac:(unfold DefaultMaxResponseBytes; lia)).
  set (size := mustSizeParam _ _ _) in *. set (ls := mustBoundedIntParam _ _ _ _ _).
  destruct (Intn _ 5) as [k rng] eqn:Ek. pose proof (intn_range (NewSource (int64_of (seed + ls))) 5 ltac:(lia)) as Hk.
  rewrite Ek in Hk. cbn [fst] in Hk. cbn [fst snd].
  destruct (jitterLoop_shape (tr_StreamID req) (2 + k) ls (Z.to_nat (2 + k)) 0 size rng ltac:(lia) ltac:(lia))
    as (H1 & H2 & H3 & H4 & H5).
  set (l := jitterLoop _ _ _ _ _ _ _) in *.
  assert (G : goodRun (tr_StreamID req) (l, resultFor (tr_StreamID req) l "" false)).
  { apply resultFor_good; [|rewrite H2; lia|done]. intros i c Hc.
    pose proof (lookup_lt_Some _ _ _ Hc) as Hlt. rewrite H1 in Hlt.
    destruct (H5 i c Hc) as (E1 & E2 & E3 & E4). rewrite H1. repeat split; [done|lia| |done].
    rewrite E3. apply eq_bool_prop_intro. rewrite !Is_true_true, bool_decide_eq_true, Z.eqb_eq. lia. }
  split; [exact G|]. intros Hs. pose proof (gr_bytes _ _ G) as Hb. cbn [fst snd] in Hb.
  rewrite Hb, H2 in Hs. eapply Forall_impl; [apply H4; lia|]. simpl. lia.
Qed.

End jitter.

Section runs.
Context `{R : Rand} {RL : RandLaws R}.

Lemma registry_handler class h : DefaultRegistry !! class = Some h ->
  (class = TargetJitteryResponse /\ h = runJitteryResponse) \/
  (class <> TargetJitteryResponse /\
   h ∈ [runEcho; runDiscard; runFixedResponse; runSlowResponse; runChunkedResponse; runLargeObject;
        runErrorResponse; runResetMidstream; runDripResponse]).
Proof using Type.
  intros Hh. apply elem_of_list_to_map_2 in Hh. rewrite !elem_of_cons, elem_of_nil in Hh.
  rewrite !elem_of_cons. naive_solver.
Qed.

Lemma handlers_good h desc req seed :
  h ∈ [runEcho; runDiscard; runFixedResponse; runSlowResponse; runChunkedResponse; runLargeObject;
       runErrorResponse; runResetMidstream; runDripResponse] ->
  0 <= tr_Bytes req ->
  goodRun (tr_StreamID req) (h desc req seed) /\ Forall (fun c => 0 <= ch_Bytes c) (fst (h desc req seed)).
Proof using Type.
  intros Hh Hb.
  assert (Hsz : forall key fb, 0 <= fb <= 262144 -> 0 <= mustSizeParam desc key fb).
  { intros key fb Hf. apply mustSizeParam_range. unfold DefaultMaxResponseBytes. lia. }
  assert (Hempty : forall sid code, goodRun sid ([], mkResult sid 0 0 code true false)).
  { by constructor. }
  rewrite !elem_of_cons, elem_of_nil in Hh.
  destruct Hh as [->|[->|[->|[->|[->|[->|[->|[->|[->|[]]]]]]]]]].
  all: try (split; [apply chunksFor_good; first [done|apply Hsz; lia]|apply chunksFor_bytes]).
  - split; [apply Hempty|constructor].
  - split; [apply runSlow_good|]. unfold runSlowResponse. cbn [fst].
    apply Forall_lookup_2. intros i c. rewrite list_lookup_imap.
    destruct (_ !! i) as [c'|] eqn:E; [|done]. intros [= <-].
    exact (Forall_lookup_1 _ _ _ _ (chunksFor_bytes _ _ _ _ _) E).
  - split; [apply Hempty|constructor].
  - split; [by apply runReset_good|]. unfold runResetMidstream. cbn [fst].
    apply Forall_alter; [|intros c _ Hc; exact Hc]. 
    destruct (_ =? 0); [by repeat constructor|apply chunksFor_bytes].
Qed.

Lemma Run_good desc req seed out : Run DefaultRegistry desc req seed = Ok out ->
  0 <= tr_Bytes req <= DefaultMaxRequestBytes /\ goodRun (tr_StreamID req) out /\
  (td_Class desc <> TargetJitteryResponse \/ 6 <= res_ResponseBytes (snd out) ->
   Forall (fun c => 0 <= ch_Bytes c) (fst out)).
Proof using RL.
  unfold Run. intros (u & _ & HR)%rbind_ok. apply reject_bind_ok in HR as [_ HR].
  apply reject_bind_ok in HR as [[Hb%Z.ltb_ge Hm%Z.ltb_ge]%orb_false_iff HR].
  destruct (DefaultRegistry !! td_Class desc) as [h|] eqn:E; [|done]. injection HR as <-.
  split; [lia|]. apply registry_handler in E as [[E ->]|[E Hh]].
  - destruct (runJittery_good desc req seed). split; [done|]. intros [?|?]; [done|auto].
  - destruct (handlers_good h desc req seed Hh Hb). auto.
Qed.

(** Whatever synthetic target serves an accepted intent, the response is
    accounted for: its size is the sum of its chunks and stays within the
    intent's limit, the chunks belong to the intent's stream, are numbered from
    zero and only the last one is final, the stream ends closed exactly when no
    chunk resets it, and no chunk has a negative size, except that the jittery
    target needs at least six bytes for that. *)
Theorem RunIntent_accounted intent req seed chunks res :
  RunIntent intent req seed = Ok (chunks, res) ->
  let sid := if tr_StreamID req =? 0 then ri_StreamID intent else tr_StreamID req in
  goodRun sid (chunks, res) /\ res_ResponseBytes res <= ri_MaxResponseBytes intent <= DefaultMaxResponseBytes /\
  0 <= tr_Bytes req <= ri_MaxRequestBytes intent /\
  (td_Class (ri_Target intent) <> TargetJitteryResponse \/ 6 <= res_ResponseBytes res ->
   Forall (fun c => 0 <= ch_Bytes c) chunks).
Proof using RL.
  intros HI sid. unfold RunIntent in HI. apply rbind_ok in HI as (u & HV & HR).
  unfold ValidateRelayIntent in HV.
  do 2 apply reject_bind_ok in HV as [_ HV].
  apply reject_bind_ok in HV as [[_ Hm%Z.ltb_ge]%orb_false_iff _]. cbv zeta in HR.
  apply reject_bind_ok in HR as [Hq%Z.ltb_ge HR]. apply rbind_ok in HR as ([chunks' res'] & HR & HO).
  apply reject_bind_ok in HO as [Hr%Z.ltb_ge HO]. injection HO as <- <-.
  apply Run_good in HR as (H1 & H2 & H3). unfold sid.
  destruct (tr_StreamID req =? 0); cbn [tr_StreamID tr_Bytes] in *; split_and!; auto; lia.
Qed.

End runs.

(** Whether a parameter map passes does not depend on the iteration order. *)
Lemma parameters_order (l l' : list (string * string)) : l ≡ₚ l' ->
  forRange l checkParameter = Ok tt <-> forRange l' checkParameter = Ok tt.
Proof. intros Hp. by rewrite !forRange_ok, Hp. Qed.

(** The registry serves exactly the published classes. *)
Lemma registry_classes `{Rand} class : is_Some (DefaultRegistry !! class) <-> class ∈ TargetClasses.
Proof.
  unfold DefaultRegistry. rewrite <- elem_of_dom, dom_list_to_map_L, elem_of_list_to_set. done.
Qed.

(** ** Witnesses *)

Definition sampleIntent : RelayIntent :=
  mkIntent 9 1 (mkTarget TargetJitteryResponse "" {["bytes" := "100"; "seed" := "3"]})
    "interactive" "bulk" "chunked" 4096 65536.

Definition sampleRequest : TargetRequest := mkRequest 0 10 "interactive".

Definition sampleRun := RunIntent sampleIntent sampleRequest 41.

Lemma chunksFor_fair_witness :
  ch_Bytes <$> chunksFor 5 10 4 false "chunk" = [2; 2; 3; 3] /\
  sumBytes (chunksFor 5 10 4 false "chunk") = 10.
Proof.
  split; [vm_compute; reflexivity|].
  destruct (chunksFor_fair 5 10 4 false "chunk") as (_ & _ & H & _); [lia|exact H].
Defined.

Lemma RunIntent_accounted_witness :
  exists chunks res, RunIntent sampleIntent sampleRequest 41 = Ok (chunks, res) /\
    res_ResponseBytes res = 100 /\ sumBytes chunks = 100 /\ goodRun 9 (chunks, res) /\
    Forall (fun c => 0 <= ch_Bytes c) chunks.
Proof.
  destruct sampleRun as [[chunks res]|e] eqn:E; [|vm_compute in E; discriminate E].
  exists chunks, res. unfold sampleRun in E. split; [exact E|].
  destruct (RunIntent_accounted sampleIntent sampleRequest 41 chunks res E) as (H1 & _ & _ & H4).
  assert (Hb : res_ResponseBytes res = 100) by (vm_compute in E; injection E as <- <-; reflexivity).
  split; [exact Hb|]. split; [rewrite <- Hb; symmetry; exact (gr_bytes _ _ H1)|].
  split; [exact H1|]. apply H4. right. rewrite Hb. lia.
Defined.

(** With fewer bytes than chunks the jittery target answers with a chunk of
    negative size. *)
Lemma jittery_negative :
  exists chunks res, Run DefaultRegistry (mkTarget TargetJitteryResponse "" {["bytes" := "0"]})
    (mkRequest 1 0 "bulk") 0 = Ok (chunks, res) /\ Exists (fun c => ch_Bytes c < 0) chunks.
Proof.
  destruct (Run DefaultRegistry _ _ 0) as [[chunks res]|e] eqn:E; [|vm_compute in E; discriminate E].
  exists chunks, res. split; [done|]. vm_compute in E. injection E as <- <-.
  repeat (first [apply Exists_cons_hd; vm_compute; reflexivity|apply Exists_cons_tl]).
Qed.
