(* ===== verification/Framing.v ===== *)
(** * The framing codec

    [src/internal/protocol/framing/codec.go], [codec_buffer_helpers.go] and the
    profile half of [codec_spec_v1.go]. A writer that fills a caller's buffer
    from left to right is the function that returns the bytes it writes; that
    those bytes have exactly the length computed beforehand is a theorem
    ([frame_size_exact]). A reader is the list of bytes still to come. *)

From S2P Require Import Prelude GoBytes Ir Validate Scheduler Padding Proxysem.
From Stdlib Require Import ZArith Lia Strings.Byte.
From stdpp Require Import base list sets strings.
Local Open Scope Z_scope.

Inductive FragmentErrorKind :=
  | FragmentErrorEmpty | FragmentErrorMissing | FragmentErrorConflictingCount
  | FragmentErrorSemantic | FragmentErrorStream | FragmentErrorMessage
  | FragmentErrorOperation | FragmentErrorOutOfRange | FragmentErrorDuplicate
  | FragmentErrorReordered.

Inductive frame_error :=
  | FrameErrorf (message : string)
  | ErrUnexpectedEOF
  | ErrEOF
  | FragmentError (kind : FragmentErrorKind)
  | FrameProfile (e : verror)
  | FrameProxy (e : proxy_error)
  | FramePadding (e : pad_error).

Record Operation := mkOperation {
  Semantic : string;
  StreamID : Z;
  Sequence : Z;
  Offset : Z;
  CreditBytes : Z;
  Reason : string;
  Priority : string;
  EndStream : bool;
  Payload : bytes;
  RelayIntentID : Z;
  TargetClass : string;
  TargetVariant : string;
  RequestClass : string;
  ResponseMode : string;
  TargetErrorCode : string;
  TargetCloseReason : string;
  TargetResetReason : string;
  MetadataClass : string;
  ResponseChunkIndex : Z;
  PayloadByteCount : Z;
  ResponseByteCount : Z;
}.

Record DecodedFrame := mkDecoded {
  dOperation : Operation;
  WireSymbol : string;
  FrameBytes : Z;
  PayloadBytes : Z;
  PaddingBytes : Z;
  FragIndex : Z;
  FragCount : Z;
}.

Record codecMessage := mkCodecMessage { semantic : string; wireSymbol : string; typeTag : bytes }.

Record codecSpec := mkSpec {
  messages : list codecMessage;
  lengthMode : string;
  checksumMode : string;
  headerOrder : list string;
  fragmentationMode : string;
  paddingPlacement : string;
  padding : PaddingPolicy;
  maxFrameBytes : Z;
  maxPayloadBytes : Z;
  maxBatchBytes : Z;
  streamEncodingMode : string;
  profileXORStreamMask : Z;
  tableStreamMask : Z;
  crc32PrefixState : Z;
}.

(** ** The spec of a profile *)

(** [fmt.Sprint] of a string slice: the elements in brackets, separated by
    spaces. *)
Definition Sprint (l : list string) : string := "[" +:+ String.concat " " l +:+ "]".

Definition legacyStreamMaskFromProfile (profile : Profile) (salt : string) : Z :=
  ChecksumIEEE (sbytes (pf_ID profile +:+ ":" +:+ salt +:+ ":"
                        +:+ Sprint (fg_HeaderOrder (pf_FrameGrammar profile)))).

(** [byte(index)] and the low byte of a checksum, at the first message with the
    same wire symbol. *)
Fixpoint tableTag (profile : Profile) (candidates : list MessageSymbol) (index : Z)
    (message : MessageSymbol) : bytes :=
  match candidates with
  | [] => []
  | candidate :: rest =>
      if bool_decide (ms_WireSymbol candidate = ms_WireSymbol message)
      then [zb index; zb (Z.land (ChecksumIEEE (sbytes (pf_ID profile +:+ ":"
                                   +:+ ms_WireSymbol message))) 255)]
      else tableTag profile rest (index + 1) message
  end.

Definition legacyTypeTagFromProfile (profile : Profile) (message : MessageSymbol) : bytes :=
  let mode := fg_TypeMode (pf_FrameGrammar profile) in
  if bool_decide (mode = "table_indexed_symbol") then tableTag profile (pf_Messages profile) 0 message
  else if bool_decide (mode = "derived_from_state") then
    PutUint32 (ChecksumIEEE (sbytes (pf_ID profile +:+ ":state:" +:+ ms_WireSymbol message)))
  else if bool_decide (mode = "derived_from_header_order") then
    PutUint32 (ChecksumIEEE (sbytes (Sprint (fg_HeaderOrder (pf_FrameGrammar profile)) +:+ ":"
                                     +:+ ms_WireSymbol message)))
  else sbytes (ms_WireSymbol message).

Definition specOf (profile : Profile) : codecSpec :=
  let g := pf_FrameGrammar profile in
  mkSpec ((fun m => mkCodecMessage (ms_Semantic m) (ms_WireSymbol m)
                      (legacyTypeTagFromProfile profile m)) <$> pf_Messages profile)
    (fg_LengthMode g) (fg_ChecksumMode g) (fg_HeaderOrder g) (fg_FragmentationMode g)
    (fg_PaddingPlacement g) (pf_Padding profile)
    (lim_MaxFrameBytes (pf_Limits profile)) (lim_MaxPayloadBytes (pf_Limits profile))
    (sc_MaxBatchBytes (pf_Scheduler profile)) (sp_IDEncodingMode (pf_Stream profile))
    (legacyStreamMaskFromProfile profile "profile") (legacyStreamMaskFromProfile profile "table")
    (crc32_update 0 (sbytes (pf_ID profile))).

Definition codecSpecFromProfile `{Encoding} (profile : Profile) : result frame_error codecSpec :=
  let? _ := map_err FrameProfile (Validate (Some profile)) in
  Ok (specOf profile).

Definition messageBySemantic (spec : codecSpec) (s : string) : option codecMessage :=
  snd <$> list_find (fun m => semantic m = s) (messages spec).

Definition messageByTag (spec : codecSpec) (tag : bytes) : option codecMessage :=
  snd <$> list_find (fun m => typeTag m = tag) (messages spec).

(** ** Sizes and writers *)

Definition writeStreamID (spec : codecSpec) (streamID : Z) : result frame_error bytes :=
  let mode := streamEncodingMode spec in
  if mem mode ["fixed32_be"; ""] then Ok (PutUint32 streamID)
  else if bool_decide (mode = "profile_xor32")
  then Ok (PutUint32 (Z.lxor streamID (profileXORStreamMask spec)))
  else if bool_decide (mode = "table_mapped32_le")
  then Ok (PutUint32LE (Z.lxor streamID (tableStreamMask spec)))
  else if bool_decide (mode = "varint") then Ok (PutUvarint streamID)
  else Err (FrameErrorf "unsupported stream id encoding").

Definition headerField (msg : codecMessage) (stream : bytes) (fragIndex fragCount padLen : Z)
    (field : string) : bytes :=
  if bool_decide (field = "type") then zb (zlen (typeTag msg)) :: typeTag msg
  else if bool_decide (field = "stream") then zb (zlen stream) :: stream
  else if bool_decide (field = "flags") then
    zb (Z.lor (if 1 <? fragCount then 1 else 0) (if 0 <? padLen then 2 else 0))
    :: PutUint16 (wrap16 fragIndex) ++ PutUint16 (wrap16 fragCount) ++ PutUint16 (wrap16 padLen)
  else [].

Definition writeHeaderFields (spec : codecSpec) (msg : codecMessage)
    (streamID fragIndex fragCount padLen : Z) : result frame_error bytes :=
  let? stream := writeStreamID spec streamID in
  fail? 255 <? zlen (typeTag msg) with FrameErrorf "type tag too long" in
  Ok (concat (headerField msg stream fragIndex fragCount padLen <$> headerOrder spec)).

(** [for value >= 128 { n++; value >>= 7 }]: ten rounds exhaust a [uint64]. *)
Fixpoint uvarintRounds (fuel : nat) (n value : Z) : Z :=
  match fuel with
  | O => n
  | S fuel => if 128 <=? value then uvarintRounds fuel (n + 1) (Z.shiftr value 7) else n
  end.

Definition uvarintSize (value : Z) : Z := uvarintRounds 10 1 value.

Definition lengthWrapperSize (spec : codecSpec) (bodyBytes : Z) : result frame_error Z :=
  let mode := lengthMode spec in
  if bool_decide (mode = "varint_prefix") then Ok (uvarintSize (wrap64 bodyBytes))
  else if bool_decide (mode = "fixed_2_prefix") then
    fail? 65535 <? bodyBytes with FrameErrorf "frame too large for fixed 2-byte length" in Ok 2
  else if mem mode ["fixed_4_prefix"; "length_suffix_lab"] then Ok 4
  else Err (FrameErrorf "unsupported length mode").

Definition fieldSize (msg : codecMessage) (n : Z) (field : string) : Z :=
  if bool_decide (field = "type") then 1 + zlen (typeTag msg)
  else if bool_decide (field = "stream") then 1 + n
  else if bool_decide (field = "flags") then 7
  else 0.

Fixpoint sumFields (msg : codecMessage) (n limit size : Z) (fields : list string)
    : result frame_error Z :=
  match fields with
  | [] => Ok size
  | field :: rest =>
      fail? limit - size <? fieldSize msg n field with FrameErrorf "frame exceeds profile limit" in
      sumFields msg n limit (size + fieldSize msg n field) rest
  end.

Definition headerFieldsSize (spec : codecSpec) (msg : codecMessage) (streamID limit : Z)
    : result frame_error Z :=
  let? stream := writeStreamID spec streamID in
  fail? 255 <? zlen (typeTag msg) with FrameErrorf "type tag too long" in
  fail? limit <? 0 with FrameErrorf "frame exceeds profile limit" in
  sumFields msg (zlen stream) limit 0 (headerOrder spec).

Definition checksumSize (spec : codecSpec) : Z :=
  if bool_decide (checksumMode spec = "crc32") then 4 else 0.

(** Body and wrapper bytes. *)
Definition frameSizeWithSpec (spec : codecSpec) (msg : codecMessage) (streamID contentBytes : Z)
    : result frame_error (Z * Z) :=
  fail? (contentBytes <? 0) || (maxFrameBytes spec <? contentBytes)
    with FrameErrorf "frame exceeds profile limit" in
  fail? maxFrameBytes spec - contentBytes <? checksumSize spec
    with FrameErrorf "frame exceeds profile limit" in
  let? headerBytes := headerFieldsSize spec msg streamID
                        (maxFrameBytes spec - contentBytes - checksumSize spec) in
  let bodyBytes := headerBytes + contentBytes + checksumSize spec in
  let? wrapperBytes := lengthWrapperSize spec bodyBytes in
  fail? MaxInt64 - bodyBytes <? wrapperBytes with FrameErrorf "frame length overflow" in
  Ok (bodyBytes, wrapperBytes).

Definition crcForSpec (spec : codecSpec) (body : bytes) : Z :=
  crc32_update (crc32PrefixState spec) body.

(** Header, padding, metadata, payload and checksum, in writing order. *)
Definition frameBody (spec : codecSpec) (header meta payload pad : bytes) : bytes :=
  let prefix := bool_decide (paddingPlacement spec = "prefix") in
  let content := header ++ (if prefix then pad else []) ++ meta ++ payload
                   ++ (if prefix then [] else pad) in
  content ++ (if bool_decide (checksumMode spec = "crc32")
              then PutUint32 (crcForSpec spec content) else []).

Definition wrapBody (spec : codecSpec) (body : bytes) : bytes :=
  let mode := lengthMode spec in
  if bool_decide (mode = "varint_prefix") then PutUvarint (wrap64 (zlen body)) ++ body
  else if bool_decide (mode = "fixed_2_prefix") then PutUint16 (wrap16 (zlen body)) ++ body
  else if bool_decide (mode = "fixed_4_prefix") then PutUint32 (wrap32 (zlen body)) ++ body
  else body ++ PutUint32 (wrap32 (zlen body)).

(** The header was checked when its size was computed; an error is ignored. *)
Definition writeFrameWithSpec (spec : codecSpec) (msg : codecMessage) (streamID : Z)
    (meta payload pad : bytes) (fragIndex fragCount : Z) : bytes :=
  let header := match writeHeaderFields spec msg streamID fragIndex fragCount (zlen pad) with
                | Ok h => h
                | Err _ => []
                end in
  wrapBody spec (frameBody spec header meta payload pad).

(** ** Metadata *)

Definition operationMetadataStrings (op : Operation) : list string :=
  [Reason op; Priority op; TargetClass op; TargetVariant op; RequestClass op; ResponseMode op;
   TargetErrorCode op; TargetCloseReason op; TargetResetReason op; MetadataClass op].

Definition writeOperationMetadata (op : Operation) : bytes :=
  PutUint64 (Sequence op) ++ PutUint64 (Offset op) ++ PutUint32 (wrap32 (CreditBytes op))
  ++ [if EndStream op then Byte.x01 else Byte.x00]
  ++ PutUint64 (RelayIntentID op) ++ PutUint32 (wrap32 (PayloadByteCount op))
  ++ PutUint32 (wrap32 (ResponseByteCount op)) ++ PutUint32 (wrap32 (ResponseChunkIndex op))
  ++ concat ((fun value => zb (slen value) :: sbytes value) <$> operationMetadataStrings op).

Definition encodeOperationMetadata (op : Operation) : result frame_error bytes :=
  fail? 255 <? slen (Reason op) with FrameErrorf "reason too long" in
  fail? 255 <? slen (Priority op) with FrameErrorf "priority too long" in
  fail? CreditBytes op <? 0 with FrameErrorf "credit bytes cannot be negative" in
  fail? (PayloadByteCount op <? 0) || (ResponseByteCount op <? 0) || (ResponseChunkIndex op <? 0)
    with FrameErrorf "proxy byte counts and chunk indexes cannot be negative" in
  let? _ := forRange (operationMetadataStrings op) (fun value =>
      reject (255 <? slen value) (FrameErrorf "proxy metadata value too long")) in
  Ok (writeOperationMetadata op).

Record metadataView := mkMetadataView { fixed : bytes; values : list bytes }.

(** [count] length-prefixed values. *)
Fixpoint parseValues (count : nat) (rest : bytes) : result frame_error (list bytes * bytes) :=
  match count with
  | O => Ok ([], rest)
  | S count =>
      match rest with
      | [] => Err ErrUnexpectedEOF
      | b :: rest =>
          let n := bz b in
          fail? zlen rest <? n with ErrUnexpectedEOF in
          let? (vs, rest') := parseValues count (zdrop n rest) in
          Ok (ztake n rest :: vs, rest')
      end
  end.

Definition parseMetadataView (input : bytes) : result frame_error (metadataView * bytes) :=
  fail? zlen input <? 51 with ErrUnexpectedEOF in
  let? (vs, rest) := parseValues 10 (zdrop 41 input) in
  Ok (mkMetadataView (ztake 41 input) vs, rest).

Definition valueAt (v : metadataView) (i : nat) : string := bstring (nth i (values v) []).

(** [materialize]: semantic, stream and payload are filled in by the caller. *)
Definition materialize (v : metadataView) (sem : string) (streamID : Z) (payload : bytes)
    : Operation :=
  let f := fixed v in
  mkOperation sem streamID (get_be (slice 0 8 f)) (get_be (slice 8 16 f)) (get_be (slice 16 20 f))
    (valueAt v 0) (valueAt v 1) (negb (bool_decide (slice 20 21 f = [Byte.x00]))) payload
    (get_be (slice 21 29 f)) (valueAt v 2) (valueAt v 3) (valueAt v 4) (valueAt v 5) (valueAt v 6)
    (valueAt v 7) (valueAt v 8) (valueAt v 9) (get_be (slice 37 41 f)) (get_be (slice 29 33 f))
    (get_be (slice 33 37 f)).

Definition viewEqual (v w : metadataView) : bool :=
  bool_decide (slice 0 20 (fixed v) = slice 0 20 (fixed w))
  && Bool.eqb (bool_decide (slice 20 21 (fixed v) = [Byte.x00]))
              (bool_decide (slice 20 21 (fixed w) = [Byte.x00]))
  && bool_decide (slice 21 41 (fixed v) = slice 21 41 (fixed w))
  && bool_decide (values v = values w).

(** ** Encoding *)

Definition withPayload (op : Operation) (payload : bytes) : Operation :=
  mkOperation (Semantic op) (StreamID op) (Sequence op) (Offset op) (CreditBytes op) (Reason op)
    (Priority op) (EndStream op) payload (RelayIntentID op) (TargetClass op) (TargetVariant op)
    (RequestClass op) (ResponseMode op) (TargetErrorCode op) (TargetCloseReason op)
    (TargetResetReason op) (MetadataClass op) (ResponseChunkIndex op) (PayloadByteCount op)
    (ResponseByteCount op).

(** The loop that adds the three content sizes under the frame limit. *)
Fixpoint addSizes (limit contentBytes : Z) (sizes : list Z) : result frame_error Z :=
  match sizes with
  | [] => Ok contentBytes
  | size :: rest =>
      fail? limit - contentBytes <? size with FrameErrorf "frame exceeds profile limit" in
      addSizes limit (contentBytes + size) rest
  end.

Definition encodeFrameWithSpec (spec : codecSpec) (op : Operation) (pad : bytes)
    (fragIndex fragCount : Z) : result frame_error bytes :=
  match messageBySemantic spec (Semantic op) with
  | None => Err (FrameErrorf "unknown semantic")
  | Some msg =>
      fail? (0 <? zlen pad) && ((zlen pad <? pp_MinPaddingBytes (padding spec))
                                || (pp_MaxPaddingBytes (padding spec) <? zlen pad))
        with FrameErrorf "padding outside bounds" in
      let? meta := encodeOperationMetadata op in
      let? contentBytes := addSizes (maxFrameBytes spec) 0 [zlen meta; zlen (Payload op); zlen pad] in
      let? (body, wrapper) := frameSizeWithSpec spec msg (StreamID op) contentBytes in
      Ok (writeFrameWithSpec spec msg (StreamID op) meta (Payload op) pad fragIndex fragCount)
  end.

(** The loop over the fragment sizes; the engine is threaded through. *)
Fixpoint encodeParts `{Rand} (spec : codecSpec) (op : Operation) (engine : Engine) (payload : bytes)
    (idx count : Z) (sizes : list Z) : result frame_error (list bytes) :=
  match sizes with
  | [] => Ok []
  | size :: rest =>
      let '(engine, pad) := Generate engine in
      let? pad := map_err FramePadding pad in
      let? frame := encodeFrameWithSpec spec (withPayload op (ztake size payload)) pad idx count in
      let? frames := encodeParts spec op engine (zdrop size payload) (idx + 1) count rest in
      Ok (frame :: frames)
  end.

Definition encodeOperationWithSpec `{Rand} (spec : codecSpec) (op : Operation) (seed : Z)
    : result frame_error (list bytes) :=
  fail? maxPayloadBytes spec <? zlen (Payload op) with FrameErrorf "payload exceeds program limit" in
  fail? bool_decide (messageBySemantic spec (Semantic op) = None)
    with FrameErrorf "unknown semantic" in
  let sizes := FragmentSizesFor (fragmentationMode spec) (maxBatchBytes spec) (maxFrameBytes spec)
                 (zlen (Payload op)) in
  encodeParts spec op (New (padding spec) seed) (Payload op) 0 (zlen sizes) sizes.

(** ** Decoding *)

Definition unwrapLengthWithSpec (spec : codecSpec) (frame : bytes) : result frame_error bytes :=
  let mode := lengthMode spec in
  if bool_decide (mode = "varint_prefix") then
    let '(length, n) := Uvarint frame in
    fail? n <=? 0 with FrameErrorf "invalid varint length" in
    fail? negb (int64_of length =? zlen frame - n) with FrameErrorf "frame length mismatch" in
    Ok (zdrop n frame)
  else if bool_decide (mode = "fixed_2_prefix") then
    fail? zlen frame <? 2 with ErrUnexpectedEOF in
    fail? negb (get_be (ztake 2 frame) =? zlen frame - 2) with FrameErrorf "frame length mismatch" in
    Ok (zdrop 2 frame)
  else if bool_decide (mode = "fixed_4_prefix") then
    fail? zlen frame <? 4 with ErrUnexpectedEOF in
    fail? negb (get_be (ztake 4 frame) =? zlen frame - 4) with FrameErrorf "frame length mismatch" in
    Ok (zdrop 4 frame)
  else if bool_decide (mode = "length_suffix_lab") then
    fail? zlen frame <? 4 with ErrUnexpectedEOF in
    fail? negb (get_be (zdrop (zlen frame - 4) frame) =? zlen frame - 4)
      with FrameErrorf "frame length mismatch" in
    Ok (ztake (zlen frame - 4) frame)
  else Err (FrameErrorf "unsupported length mode").

Definition decodeStreamIDWithSpec (spec : codecSpec) (encoded : bytes) : result frame_error Z :=
  let mode := streamEncodingMode spec in
  if mem mode ["fixed32_be"; ""] then
    fail? negb (zlen encoded =? 4) with FrameErrorf "invalid fixed stream id length" in
    Ok (get_be encoded)
  else if bool_decide (mode = "profile_xor32") then
    fail? negb (zlen encoded =? 4) with FrameErrorf "invalid xor stream id length" in
    Ok (Z.lxor (get_be encoded) (profileXORStreamMask spec))
  else if bool_decide (mode = "table_mapped32_le") then
    fail? negb (zlen encoded =? 4) with FrameErrorf "invalid table stream id length" in
    Ok (Z.lxor (get_le encoded) (tableStreamMask spec))
  else if bool_decide (mode = "varint") then
    let '(value, n) := Uvarint encoded in
    fail? (n <=? 0) || (4294967295 <? value) with FrameErrorf "invalid varint stream id" in
    Ok value
  else Err (FrameErrorf "unsupported stream id encoding").

(** What the header loop has read so far. *)
Record header := mkHeader {
  h_msg : option codecMessage; h_stream : Z; h_index : Z; h_count : Z; h_pad : Z }.

Definition readField (spec : codecSpec) (h : header) (field : string) (rest : bytes)
    : result frame_error (header * bytes) :=
  if bool_decide (field = "type") then
    match rest with
    | [] => Err ErrUnexpectedEOF
    | b :: rest =>
        let n := bz b in
        fail? zlen rest <? n with ErrUnexpectedEOF in
        match messageByTag spec (ztake n rest) with
        | None => Err (FrameErrorf "unknown type tag")
        | Some found =>
            Ok (mkHeader (Some found) (h_stream h) (h_index h) (h_count h) (h_pad h), zdrop n rest)
        end
    end
  else if bool_decide (field = "stream") then
    match rest with
    | [] => Err ErrUnexpectedEOF
    | b :: rest =>
        let n := bz b in
        fail? (n <=? 0) || (zlen rest <? n) with ErrUnexpectedEOF in
        let? id := decodeStreamIDWithSpec spec (ztake n rest) in
        Ok (mkHeader (h_msg h) id (h_index h) (h_count h) (h_pad h), zdrop n rest)
    end
  else if bool_decide (field = "flags") then
    fail? zlen rest <? 7 with ErrUnexpectedEOF in
    Ok (mkHeader (h_msg h) (h_stream h) (get_be (slice 1 3 rest)) (get_be (slice 3 5 rest))
          (get_be (slice 5 7 rest)), zdrop 7 rest)
  else Ok (h, rest).

Fixpoint readFields (spec : codecSpec) (h : header) (fields : list string) (rest : bytes)
    : result frame_error (header * bytes) :=
  match fields with
  | [] => Ok (h, rest)
  | field :: fields =>
      let? (h, rest) := readField spec h field rest in readFields spec h fields rest
  end.

Definition decodeHeaderAndPayloadWithSpec (spec : codecSpec) (body : bytes)
    : result frame_error (codecMessage * header * bytes) :=
  let? (h, rest) := readFields spec (mkHeader None 0 0 1 0) (headerOrder spec) body in
  match h_msg h with
  | None => Err (FrameErrorf "missing type tag")
  | Some msg =>
      fail? h_count h <=? 0 with FrameErrorf "invalid fragment count" in
      Ok (msg, h, rest)
  end.

Record frameView := mkFrameView {
  fv_msg : codecMessage;
  fv_streamID : Z;
  fv_fragIndex : Z;
  fv_fragCount : Z;
  fv_padLen : Z;
  fv_bodyBytes : Z;
  fv_metadata : metadataView;
  fv_payload : bytes;
}.

(** The body without its checksum. *)
Definition checkedBody (spec : codecSpec) (body : bytes) : result frame_error bytes :=
  if bool_decide (checksumMode spec = "crc32") then
    fail? zlen body <? 4 with FrameErrorf "missing checksum" in
    let content := ztake (zlen body - 4) body in
    fail? negb (crcForSpec spec content =? get_be (zdrop (zlen body - 4) body))
      with FrameErrorf "checksum mismatch" in
    Ok content
  else Ok body.

Definition stripPadding (spec : codecSpec) (padLen : Z) (section : bytes) : bytes :=
  if 0 <? padLen then
    if bool_decide (paddingPlacement spec = "prefix") then zdrop padLen section
    else ztake (zlen section - padLen) section
  else section.

Definition parseFrameView (spec : codecSpec) (frame : bytes) : result frame_error frameView :=
  fail? (zlen frame =? 0) || (maxFrameBytes spec + MaxVarintLen64 <? zlen frame)
    with FrameErrorf "invalid frame size" in
  let? body := unwrapLengthWithSpec spec frame in
  let? content := checkedBody spec body in
  let? (msg, h, section) := decodeHeaderAndPayloadWithSpec spec content in
  fail? zlen section <? h_pad h with FrameErrorf "padding length exceeds payload section" in
  let? (meta, payload) := parseMetadataView (stripPadding spec (h_pad h) section) in
  fail? maxPayloadBytes spec <? zlen payload with FrameErrorf "payload exceeds profile limit" in
  Ok (mkFrameView msg (h_stream h) (h_index h) (h_count h) (h_pad h) (zlen body) meta payload).

Definition decodeFrameWithSpec (spec : codecSpec) (frame : bytes)
    : result frame_error DecodedFrame :=
  let? view := parseFrameView spec frame in
  Ok (mkDecoded (materialize (fv_metadata view) (semantic (fv_msg view)) (fv_streamID view)
                   (fv_payload view))
        (wireSymbol (fv_msg view)) (zlen frame) (zlen (fv_payload view)) (fv_padLen view)
        (fv_fragIndex view) (fv_fragCount view)).

(** The checks on one fragment against the first one, in source order. *)
Definition checkPart (expected : DecodedFrame) (expectedMetadata : bytes) (count position : Z)
    (seen : list Z) (part : DecodedFrame) : result frame_error unit :=
  fail? negb (FragCount part =? FragCount expected) with FragmentError FragmentErrorConflictingCount in
  fail? (FragIndex part <? 0) || (count <=? FragIndex part) with FragmentError FragmentErrorOutOfRange in
  fail? mem (FragIndex part) seen with FragmentError FragmentErrorDuplicate in
  fail? negb (FragIndex part =? position) with FragmentError FragmentErrorReordered in
  fail? negb (bool_decide (Semantic (dOperation part) = Semantic (dOperation expected)))
    with FragmentError FragmentErrorSemantic in
  fail? negb (StreamID (dOperation part) =? StreamID (dOperation expected))
    with FragmentError FragmentErrorStream in
  fail? negb (bool_decide (WireSymbol part = WireSymbol expected))
    with FragmentError FragmentErrorMessage in
  match encodeOperationMetadata (dOperation part) with
  | Err _ => Err (FragmentError FragmentErrorOperation)
  | Ok metadata => reject (negb (bool_decide (metadata = expectedMetadata)))
                     (FragmentError FragmentErrorOperation)
  end.

(** The loop: [seen] holds the indices met; each accepted fragment is the next
    one in order, so the payload grows at its end. *)
Fixpoint assemble (expected : DecodedFrame) (expectedMetadata : bytes) (count position : Z)
    (seen : list Z) (parts : list DecodedFrame) : result frame_error bytes :=
  match parts with
  | [] => Ok []
  | part :: rest =>
      let? _ := checkPart expected expectedMetadata count position seen part in
      let? tail := assemble expected expectedMetadata count (position + 1)
                     (FragIndex part :: seen) rest in
      Ok (Payload (dOperation part) ++ tail)
  end.

Fixpoint decodeAll (spec : codecSpec) (frames : list bytes) : result frame_error (list DecodedFrame) :=
  match frames with
  | [] => Ok []
  | frame :: rest =>
      let? part := decodeFrameWithSpec spec frame in
      let? parts := decodeAll spec rest in
      Ok (part :: parts)
  end.

(** On an error the source also hands back the frames decoded so far; the
    model's error does not carry them. *)
Definition decodeFramesWithSpec (spec : codecSpec) (frames : list bytes)
    : result frame_error (Operation * list DecodedFrame) :=
  let? decoded := decodeAll spec frames in
  match decoded with
  | [] => Err (FragmentError FragmentErrorEmpty)
  | expected :: _ =>
      fail? negb (FragCount expected =? zlen decoded) with FragmentError FragmentErrorMissing in
      let? expectedMetadata := map_err (fun _ => FragmentError FragmentErrorOperation)
                                 (encodeOperationMetadata (dOperation expected)) in
      let? payload := assemble expected expectedMetadata (zlen decoded) 0 [] decoded in
      Ok (withPayload (dOperation expected) payload, decoded)
  end.

(** ** Reading frames from a stream *)

Definition readFull (n : Z) (r : bytes) : result frame_error (bytes * bytes) :=
  fail? zlen r <? n with (if zlen r =? 0 then ErrEOF else ErrUnexpectedEOF) in
  Ok (ztake n r, zdrop n r).

Definition readPrefixBodyWithSpec (spec : codecSpec) (r prefix : bytes) (length : Z)
    : result frame_error (bytes * bytes) :=
  fail? (length <=? 0) || (maxFrameBytes spec <? length) with FrameErrorf "invalid frame length %d" in
  let? (body, r) := readFull length r in
  Ok (prefix ++ body, r).

Fixpoint readVarintFrame (spec : codecSpec) (r prefix : bytes) : result frame_error (bytes * bytes) :=
  match r with
  | [] => Err ErrEOF
  | b :: r =>
      let prefix := prefix ++ [b] in
      let '(length, n) := Uvarint prefix in
      if 0 <? n then readPrefixBodyWithSpec spec r prefix (int64_of length)
      else if MaxVarintLen64 <? zlen prefix then Err (FrameErrorf "invalid varint length")
      else readVarintFrame spec r prefix
  end.

(** Suffix framing: the first prefix of the stream that ends in its own length
    and decodes. *)
Fixpoint readSuffixFrame (spec : codecSpec) (r buf : bytes) : result frame_error (bytes * bytes) :=
  if zlen buf <? maxFrameBytes spec then
    match r with
    | [] => Err ErrEOF
    | b :: r =>
        let buf := buf ++ [b] in
        if (4 <=? zlen buf) && (get_be (zdrop (zlen buf - 4) buf) =? zlen buf - 4)
           && isOk (decodeFrameWithSpec spec buf)
        then Ok (buf, r)
        else readSuffixFrame spec r buf
    end
  else Err (FrameErrorf "suffix frame exceeds limit").

Definition readFrameWithSpec (spec : codecSpec) (r : bytes) : result frame_error (bytes * bytes) :=
  let mode := lengthMode spec in
  if bool_decide (mode = "varint_prefix") then readVarintFrame spec r []
  else if bool_decide (mode = "fixed_2_prefix") then
    let? (prefix, r) := readFull 2 r in readPrefixBodyWithSpec spec r prefix (get_be prefix)
  else if bool_decide (mode = "fixed_4_prefix") then
    let? (prefix, r) := readFull 4 r in readPrefixBodyWithSpec spec r prefix (get_be prefix)
  else if bool_decide (mode = "length_suffix_lab") then readSuffixFrame spec r []
  else Err (FrameErrorf "unsupported length mode").

(** Each round reads one frame; the count is at most 65535. *)
Fixpoint readFrames (spec : codecSpec) (fuel : nat) (r : bytes) : result frame_error (list bytes * bytes) :=
  match fuel with
  | O => Ok ([], r)
  | S fuel =>
      let? (frame, r) := readFrameWithSpec spec r in
      let? (frames, r) := readFrames spec fuel r in
      Ok (frame :: frames, r)
  end.

Definition readOperationWithSpec (spec : codecSpec) (r : bytes)
    : result frame_error (Operation * list DecodedFrame * bytes) :=
  let? (first, r) := readFrameWithSpec spec r in
  let? part := decodeFrameWithSpec spec first in
  let? (more, r) := readFrames spec (Z.to_nat (FragCount part - 1)) r in
  let? (op, decoded) := decodeFramesWithSpec spec (first :: more) in
  Ok (op, decoded, r).

(** ** The profile entry points *)

Definition validateProxyOperation `{Rand} (p : Profile) (op : Operation) : result frame_error unit :=
  let s := Semantic op in
  let limits := pf_ProxySemantics p in
  if mem s [SemanticOpenRelay; SemanticTargetDescriptor] then
    fail? bool_decide (TargetClass op = "") with FrameErrorf "target class is required for %s" in
    map_err FrameProxy (ValidateTarget DefaultRegistry (mkTarget (TargetClass op) (TargetVariant op) ∅))
  else if bool_decide (s = SemanticTargetData) then
    reject ((ps_MaxRequestBytes limits <? PayloadByteCount op)
            || (ps_MaxRequestBytes limits <? zlen (Payload op)))
      (FrameErrorf "proxy request exceeds profile limit")
  else if bool_decide (s = SemanticTargetResponse) then
    reject ((ps_MaxResponseBytes limits <? ResponseByteCount op)
            || (ps_MaxResponseBytes limits <? zlen (Payload op)))
      (FrameErrorf "proxy response exceeds profile limit")
  else if bool_decide (s = SemanticTargetError) then
    reject (bool_decide (TargetErrorCode op = "")) (FrameErrorf "target error code is required")
  else if bool_decide (s = SemanticTargetClose) then
    reject (bool_decide (TargetCloseReason op = "") && bool_decide (Reason op = ""))
      (FrameErrorf "target close reason is required")
  else if bool_decide (s = SemanticTargetReset) then
    reject (bool_decide (TargetResetReason op = "") && bool_decide (Reason op = ""))
      (FrameErrorf "target reset reason is required")
  else Ok tt.

Definition EncodeOperation `{Encoding, Rand} (p : Profile) (op : Operation) (seed : Z)
    : result frame_error (list bytes) :=
  let? _ := map_err FrameProfile (Validate (Some p)) in
  let? _ := validateProxyOperation p op in
  let? spec := codecSpecFromProfile p in
  encodeOperationWithSpec spec op seed.

Definition DecodeFrames `{Encoding} (p : Profile) (frames : list bytes)
    : result frame_error (Operation * list DecodedFrame) :=
  let? spec := codecSpecFromProfile p in decodeFramesWithSpec spec frames.

Definition DecodeFrame `{Encoding} (p : Profile) (frame : bytes) : result frame_error DecodedFrame :=
  let? spec := codecSpecFromProfile p in decodeFrameWithSpec spec frame.

Definition ReadFrame `{Encoding} (p : Profile) (r : bytes) : result frame_error (bytes * bytes) :=
  let? spec := codecSpecFromProfile p in readFrameWithSpec spec r.

(** The spec of a profile is a function of the profile: asking for it at every
    frame, as the source does, is asking for it once. *)
Definition ReadOperation `{Encoding} (p : Profile) (r : bytes)
    : result frame_error (Operation * list DecodedFrame * bytes) :=
  let? spec := codecSpecFromProfile p in readOperationWithSpec spec r.

(** An [io.Writer]: it takes the bytes or fails, and either way may have
    changed. *)
Section writer.
Context `{Encoding} {W : Type} (Write : W -> bytes -> W * result frame_error unit).

Fixpoint writeFrames (p : Profile) (w : W) (frames : list bytes)
    : W * result frame_error (list DecodedFrame) :=
  match frames with
  | [] => (w, Ok [])
  | frame :: rest =>
      match Write w frame with
      | (w, Err e) => (w, Err e)
      | (w, Ok _) =>
          match DecodeFrame p frame with
          | Err e => (w, Err e)
          | Ok part =>
              let '(w, parts) := writeFrames p w rest in
              (w, let? parts := parts in Ok (part :: parts))
          end
      end
  end.

Definition WriteOperation `{Rand} (w : W) (p : Profile) (op : Operation) (seed : Z)
    : W * result frame_error (list DecodedFrame) :=
  match EncodeOperation p op seed with
  | Err e => (w, Err e)
  | Ok frames => writeFrames p w frames
  end.

End writer.

(** [bytes.Buffer] as a writer. *)
Definition bufferWrite (w : bytes) (b : bytes) : bytes * result frame_error unit := (w ++ b, Ok tt).

(** ** Sizes *)

Lemma uvarint_rounds fuel x n : (0 < fuel)%nat -> 0 <= x < 2 ^ (7 * Z.of_nat fuel) ->
  zlen (put_uvarint fuel x) = uvarintRounds fuel n x - n + 1.
Proof.
  revert x n. induction fuel as [|fuel IH]; intros x n Hf Hx; [lia|].
  cbn [put_uvarint uvarintRounds]. destruct (Z.ltb_spec x 128), (Z.leb_spec 128 x); try lia.
  { rewrite zlen_cons, zlen_nil. lia. }
  rewrite zlen_cons. destruct fuel as [|fuel].
  { change (7 * Z.of_nat 1) with 7 in Hx. change (2 ^ 7) with 128 in Hx. lia. }
  rewrite (IH (Z.shiftr x 7) (n + 1)); [lia|lia|].
  rewrite Z.shiftr_div_pow2 by lia. split; [apply Z.div_pos; lia|].
  apply Z.div_lt_upper_bound; [lia|]. rewrite <- Z.pow_add_r by lia.
  replace (7 + 7 * Z.of_nat (S fuel)) with (7 * Z.of_nat (S (S fuel))) by lia. lia.
Qed.

Lemma uvarintSize_exact x : u64 x -> zlen (PutUvarint x) = uvarintSize x.
Proof.
  intros Hx. unfold PutUvarint, uvarintSize. rewrite (uvarint_rounds 10 x 1); [lia|lia|].
  change (7 * Z.of_nat 10) with 70. unfold_widths.
  change (2 ^ 70) with 1180591620717411303424. lia.
Qed.

Lemma uvarintSize_range x : u64 x -> 1 <= uvarintSize x <= 10.
Proof.
  intros Hx. rewrite <- uvarintSize_exact by done. unfold PutUvarint.
  assert (forall fuel y, zlen (put_uvarint fuel y) <= Z.of_nat fuel) as Hle.
  { induction fuel as [|fuel IH]; intros y; [done|]. cbn [put_uvarint].
    destruct (y <? 128); rewrite zlen_cons, ?zlen_nil; [lia|]. specialize (IH (Z.shiftr y 7)). lia. }
  pose proof (Hle 10%nat x). pose proof (put_uvarint_nonempty 10 x ltac:(lia)). lia.
Qed.

Lemma headerField_size msg stream i c p field :
  zlen (headerField msg stream i c p field) = fieldSize msg (zlen stream) field.
Proof.
  unfold headerField, fieldSize. repeat case_bool_decide; rewrite ?zlen_cons, ?zlen_app; done.
Qed.

Lemma sumFields_ok msg stream i c p limit size fields total :
  sumFields msg (zlen stream) limit size fields = Ok total ->
  total = size + zlen (concat (headerField msg stream i c p <$> fields)) /\
  (size <= limit -> total <= limit).
Proof.
  revert size. induction fields as [|f fields IH]; intros size H; simpl in H.
  { injection H as ->. unfold zlen. simpl. split; [lia|done]. }
  go_inv H. apply Z.ltb_ge in G. apply IH in H as [-> H].
  rewrite fmap_cons, concat_cons, zlen_app, headerField_size. split; [lia|]. intros _. apply H. lia.
Qed.

Lemma frameBody_size spec h meta payload pad :
  zlen (frameBody spec h meta payload pad) =
  zlen h + (zlen meta + zlen payload + zlen pad) + checksumSize spec.
Proof.
  unfold frameBody, checksumSize. repeat case_bool_decide; rewrite ?zlen_app, ?zlen_nil;
    unfold PutUint32; rewrite ?zlen_put_be; lia.
Qed.

Lemma wrapBody_size spec body w : u64 (zlen body) -> lengthWrapperSize spec (zlen body) = Ok w ->
  zlen (wrapBody spec body) = zlen body + w /\ 1 <= w <= 10.
Proof.
  intros Hu Hw. unfold lengthWrapperSize, wrapBody in *.
  case_bool_decide. { injection Hw as <-. rewrite wrap64_small, zlen_app, uvarintSize_exact by done.
    pose proof (uvarintSize_range _ Hu). lia. }
  case_bool_decide. { go_inv Hw. injection Hw as <-. rewrite zlen_app. unfold PutUint16.
    rewrite zlen_put_be. lia. }
  destruct (mem (lengthMode spec) ["fixed_4_prefix"; "length_suffix_lab"]); [|done]. injection Hw as <-.
  case_bool_decide; rewrite zlen_app; unfold PutUint32; rewrite zlen_put_be; lia.
Qed.

Lemma addSizes_three limit a b c total : addSizes limit 0 [a; b; c] = Ok total ->
  total = a + b + c.
Proof. cbn [addSizes]. intros H. go_inv H. injection H as <-. lia. Qed.

(** What a successful encoding establishes about its parts. *)
Record encoded (spec : codecSpec) (op : Operation) (pad : bytes) (i c : Z) (frame : bytes)
    (msg : codecMessage) (stream meta header body : bytes) (w : Z) : Prop := {
  en_msg : messageBySemantic spec (Semantic op) = Some msg;
  en_stream : writeStreamID spec (StreamID op) = Ok stream;
  en_tag : zlen (typeTag msg) <= 255;
  en_meta : encodeOperationMetadata op = Ok meta;
  en_header : header = concat (headerField msg stream i c (zlen pad) <$> headerOrder spec);
  en_body : body = frameBody spec header meta (Payload op) pad;
  en_frame : frame = wrapBody spec body;
  en_size : frameSizeWithSpec spec msg (StreamID op)
              (zlen meta + zlen (Payload op) + zlen pad) = Ok (zlen body, w);
  en_limit : zlen body <= maxFrameBytes spec;
  en_total : zlen frame = zlen body + w /\ 1 <= w <= 10;
  en_wrapper : lengthWrapperSize spec (zlen body) = Ok w;
}.

Lemma encodeFrame_encoded spec op pad i c frame : maxFrameBytes spec <= MaxInt64 ->
  encodeFrameWithSpec spec op pad i c = Ok frame ->
  exists msg stream meta header body w, encoded spec op pad i c frame msg stream meta header body w.
Proof.
  intros Hmax. unfold encodeFrameWithSpec.
  destruct (messageBySemantic spec (Semantic op)) as [msg|] eqn:Em; [|done].
  intros H. apply reject_bind_ok in H as [_ H].
  apply rbind_ok in H as (meta & Hmeta & H). apply rbind_ok in H as (content & Hc & H).
  apply rbind_ok in H as ([b w] & Hsize & H). apply Ok_inj in H.
  apply addSizes_three in Hc. subst content.
  pose proof Hsize as HS. unfold frameSizeWithSpec in HS.
  apply reject_bind_ok in HS as [[C1%Z.ltb_ge C2%Z.ltb_ge]%orb_false_iff HS].
  apply reject_bind_ok in HS as [C3%Z.ltb_ge HS].
  apply rbind_ok in HS as (hb & Hhb & HS). apply rbind_ok in HS as (w' & Hw & HS).
  apply reject_bind_ok in HS as [C4%Z.ltb_ge HS]. injection HS as Eb Ew. subst w'.
  unfold headerFieldsSize in Hhb. apply rbind_ok in Hhb as (stream & Hstream & Hhb).
  apply reject_bind_ok in Hhb as [C5%Z.ltb_ge Hhb]. apply reject_bind_ok in Hhb as [C6%Z.ltb_ge Hhb].
  destruct (sumFields_ok msg stream i c (zlen pad) _ _ _ _ Hhb) as [Hlen Hle]. specialize (Hle C6).
  set (header := concat (headerField msg stream i c (zlen pad) <$> headerOrder spec)) in *.
  set (body := frameBody spec header meta (Payload op) pad).
  assert (Hh : writeHeaderFields spec msg (StreamID op) i c (zlen pad) = Ok header).
  { unfold writeHeaderFields. rewrite Hstream. cbn [rbind].
    by destruct (Z.ltb_spec 255 (zlen (typeTag msg))); [lia|]. }
  assert (Hb : zlen body = b) by (unfold body; rewrite frameBody_size; lia).
  pose proof (zlen_nonneg body) as Hn. subst b.
  assert (Hu : u64 (zlen body)) by (rewrite Hb; unfold_widths; lia).
  unfold writeFrameWithSpec in H. rewrite Hh in H. fold body in H.
  exists msg, stream, meta, header, body, w. rewrite <- Hb in Hw.
  pose proof (wrapBody_size spec body w Hu Hw) as Hws. rewrite H in Hws.
  constructor; try done; [by rewrite Hb|lia].
Qed.

(** The size check is exact: when a frame is encoded, the body and wrapper
    sizes computed before anything is written are the sizes of what is written,
    and the body is within the profile's frame limit. *)
Theorem frame_size_exact spec op pad i c frame : maxFrameBytes spec <= MaxInt64 ->
  encodeFrameWithSpec spec op pad i c = Ok frame ->
  exists msg meta body wrapper,
    messageBySemantic spec (Semantic op) = Some msg /\ encodeOperationMetadata op = Ok meta /\
    frameSizeWithSpec spec msg (StreamID op) (zlen meta + zlen (Payload op) + zlen pad)
      = Ok (body, wrapper) /\
    zlen frame = body + wrapper /\ body <= maxFrameBytes spec.
Proof.
  intros Hm H. destruct (encodeFrame_encoded _ _ _ _ _ _ Hm H) as (msg & st & meta & h & b & w & E).
  exists msg, meta, (zlen b), w. split; [apply E|]. split; [apply E|]. split; [apply E|].
  split; apply E.
Qed.

(** ** Round trips of the parts *)

Lemma bz_zlen_small (l : bytes) : zlen l <= 255 -> bz (zb (zlen l)) = zlen l.
Proof. intros H. apply bz_zb_small. pose proof (zlen_nonneg l). lia. Qed.

(** A length-prefixed chunk at the front of a buffer. *)
Lemma chunk_front (v rest : bytes) : (zlen (v ++ rest) <? zlen v) = false /\
  ztake (zlen v) (v ++ rest) = v /\ zdrop (zlen v) (v ++ rest) = rest.
Proof.
  split; [|split; [apply ztake_app|apply zdrop_app]]. apply Z.ltb_ge. rewrite zlen_app.
  pose proof (zlen_nonneg rest). lia.
Qed.

Lemma parseValues_write vs rest : Forall (fun v => slen v <= 255) vs ->
  parseValues (length vs) (concat ((fun v => zb (slen v) :: sbytes v) <$> vs) ++ rest)
  = Ok (sbytes <$> vs, rest).
Proof.
  induction 1 as [|v vs Hv Hvs IH]; [done|]. rewrite !fmap_cons, concat_cons.
  cbn [length parseValues app]. change (slen v) with (zlen (sbytes v)) in Hv |- *.
  rewrite bz_zlen_small by done.
  rewrite <- app_assoc. destruct (chunk_front (sbytes v)
    (concat ((fun v => zb (slen v) :: sbytes v) <$> vs) ++ rest)) as (-> & -> & ->).
  cbn [reject rbind]. by rewrite IH.
Qed.

Lemma concat_values_size vs :
  zlen (concat ((fun v => zb (slen v) :: sbytes v) <$> vs)) >= Z.of_nat (length vs).
Proof.
  induction vs as [|v vs IH]; [done|]. rewrite fmap_cons, concat_cons, zlen_app, zlen_cons.
  pose proof (zlen_nonneg (sbytes v)). cbn [length]. lia.
Qed.

(** The operations whose numbers survive the wire's widths. *)
Record wireRange (op : Operation) : Prop := {
  wr_stream : u32 (StreamID op);
  wr_sequence : u64 (Sequence op);
  wr_offset : u64 (Offset op);
  wr_intent : u64 (RelayIntentID op);
  wr_credit : u32 (CreditBytes op);
  wr_payload : u32 (PayloadByteCount op);
  wr_response : u32 (ResponseByteCount op);
  wr_chunk : u32 (ResponseChunkIndex op);
}.

(** The 41 fixed bytes. *)
Definition fixedPart (op : Operation) : bytes :=
  PutUint64 (Sequence op) ++ PutUint64 (Offset op) ++ PutUint32 (wrap32 (CreditBytes op))
  ++ [if EndStream op then Byte.x01 else Byte.x00]
  ++ PutUint64 (RelayIntentID op) ++ PutUint32 (wrap32 (PayloadByteCount op))
  ++ PutUint32 (wrap32 (ResponseByteCount op)) ++ PutUint32 (wrap32 (ResponseChunkIndex op)).

Lemma fixedPart_size op : zlen (fixedPart op) = 41.
Proof. unfold fixedPart, PutUint64, PutUint32. rewrite !zlen_app, !zlen_put_be. done. Qed.

(** Cuts the middle one of three adjacent pieces out of the fixed part. *)
Ltac cut_fixed pre mid post :=
  match goal with |- slice _ _ (fixedPart ?op) = _ =>
    replace (fixedPart op) with (pre ++ mid ++ post)
      by (unfold fixedPart; rewrite <- ?app_assoc; reflexivity);
    apply slice_app; unfold PutUint64, PutUint32; rewrite ?zlen_app, ?zlen_put_be; reflexivity
  end.

Lemma fixedPart_slices op :
  slice 0 8 (fixedPart op) = PutUint64 (Sequence op) /\
  slice 8 16 (fixedPart op) = PutUint64 (Offset op) /\
  slice 16 20 (fixedPart op) = PutUint32 (wrap32 (CreditBytes op)) /\
  slice 20 21 (fixedPart op) = [if EndStream op then Byte.x01 else Byte.x00] /\
  slice 21 29 (fixedPart op) = PutUint64 (RelayIntentID op) /\
  slice 29 33 (fixedPart op) = PutUint32 (wrap32 (PayloadByteCount op)) /\
  slice 33 37 (fixedPart op) = PutUint32 (wrap32 (ResponseByteCount op)) /\
  slice 37 41 (fixedPart op) = PutUint32 (wrap32 (ResponseChunkIndex op)).
Proof.
  set (p1 := PutUint64 (Sequence op)). set (p2 := PutUint64 (Offset op)).
  set (p3 := PutUint32 (wrap32 (CreditBytes op))).
  set (p4 := [if EndStream op then Byte.x01 else Byte.x00]).
  set (p5 := PutUint64 (RelayIntentID op)). set (p6 := PutUint32 (wrap32 (PayloadByteCount op))).
  set (p7 := PutUint32 (wrap32 (ResponseByteCount op))).
  set (p8 := PutUint32 (wrap32 (ResponseChunkIndex op))).
  split; [cut_fixed (@nil Byte.byte) p1 (p2 ++ p3 ++ p4 ++ p5 ++ p6 ++ p7 ++ p8)|].
  split; [cut_fixed p1 p2 (p3 ++ p4 ++ p5 ++ p6 ++ p7 ++ p8)|].
  split; [cut_fixed (p1 ++ p2) p3 (p4 ++ p5 ++ p6 ++ p7 ++ p8)|].
  split; [cut_fixed (p1 ++ p2 ++ p3) p4 (p5 ++ p6 ++ p7 ++ p8)|].
  split; [cut_fixed (p1 ++ p2 ++ p3 ++ p4) p5 (p6 ++ p7 ++ p8)|].
  split; [cut_fixed (p1 ++ p2 ++ p3 ++ p4 ++ p5) p6 (p7 ++ p8)|].
  split; [cut_fixed (p1 ++ p2 ++ p3 ++ p4 ++ p5 ++ p6) p7 p8|].
  cut_fixed (p1 ++ p2 ++ p3 ++ p4 ++ p5 ++ p6 ++ p7) p8 (@nil Byte.byte).
Qed.

(** The view of the metadata of an operation. *)
Definition viewOf (op : Operation) : metadataView :=
  mkMetadataView (fixedPart op) (sbytes <$> operationMetadataStrings op).

Lemma metadata_roundtrip op meta rest : wireRange op -> encodeOperationMetadata op = Ok meta ->
  parseMetadataView (meta ++ rest) = Ok (viewOf op, rest) /\
  forall payload, materialize (viewOf op) (Semantic op) (StreamID op) payload = withPayload op payload.
Proof.
  intros [W1 W2 W3 W4 W5 W6 W7 W8] H. unfold encodeOperationMetadata in H. go_inv H. injection H as <-.
  apply forRange_ok in E.
  assert (HF : Forall (fun v => slen v <= 255) (operationMetadataStrings op)).
  { eapply Forall_impl; [exact E|]. intros v Hv%reject_ok%Z.ltb_ge. done. }
  assert (Hw : writeOperationMetadata op = fixedPart op ++
    concat ((fun v => zb (slen v) :: sbytes v) <$> operationMetadataStrings op)).
  { unfold writeOperationMetadata, fixedPart. by rewrite <- !app_assoc. }
  rewrite Hw, <- app_assoc. split.
  - unfold parseMetadataView. pose proof (concat_values_size (operationMetadataStrings op)) as Hs.
    change (Z.of_nat (length (operationMetadataStrings op))) with 10 in Hs.
    pose proof (zlen_nonneg rest). pose proof (fixedPart_size op) as Hf.
    rewrite !zlen_app, Hf. destruct (Z.ltb_spec (41 + (zlen (concat ((fun v => zb (slen v) :: sbytes v) <$> operationMetadataStrings op)) + zlen rest)) 51); [lia|].
    cbn [reject rbind]. rewrite (zdrop_app_le 41), (ztake_app_le 41) by done.
    by rewrite (parseValues_write (operationMetadataStrings op) rest HF : parseValues 10 _ = _).
  - intros payload. destruct (fixedPart_slices op) as (F1 & F2 & F3 & F4 & F5 & F6 & F7 & F8).
    unfold materialize, withPayload, valueAt, viewOf. cbn [values fixed].
    rewrite F1, F2, F3, F4, F5, F6, F7, F8, !get_PutUint64, !get_PutUint32.
    rewrite !wrap32_small by (rewrite ?wrap32_small; done). rewrite !wrap64_small by done.
    cbn [operationMetadataStrings fmap list_fmap nth]. rewrite !bstring_sbytes.
    by destruct (EndStream op).
Qed.

(** What the codec needs of a spec; every validated profile has it. *)
Record goodSpec (spec : codecSpec) : Prop := {
  gs_length : lengthMode spec ∈
    ["varint_prefix"; "fixed_2_prefix"; "fixed_4_prefix"; "length_suffix_lab"];
  gs_type : "type" ∈ headerOrder spec;
  gs_stream : "stream" ∈ headerOrder spec;
  gs_flags : "flags" ∈ headerOrder spec;
  gs_frame : maxFrameBytes spec <= 1048576;
  gs_xor : u32 (profileXORStreamMask spec);
  gs_table : u32 (tableStreamMask spec);
  gs_crc : u32 (crc32PrefixState spec);
}.

Lemma lxor_cancel a b : Z.lxor (Z.lxor a b) b = a.
Proof. by rewrite Z.lxor_assoc, Z.lxor_nilpotent, Z.lxor_0_r. Qed.

Lemma streamID_roundtrip spec id stream : goodSpec spec -> u32 id ->
  writeStreamID spec id = Ok stream ->
  decodeStreamIDWithSpec spec stream = Ok id /\ 1 <= zlen stream <= 10.
Proof.
  intros G Hid. unfold writeStreamID, decodeStreamIDWithSpec.
  assert (Hx : forall m, u32 m -> wrap32 (Z.lxor id m) = Z.lxor id m).
  { intros m Hm. apply wrap32_small. apply lxor_range; [lia|done|done]. }
  assert (L4 : forall z, zlen (PutUint32 z) = 4) by done.
  assert (L4' : forall z, zlen (PutUint32LE z) = 4) by done.
  destruct (mem (streamEncodingMode spec) ["fixed32_be"; ""]).
  { intros [= <-]. rewrite L4. split; [|lia].
    cbn [negb Z.eqb Pos.eqb reject rbind]. by rewrite get_PutUint32, wrap32_small. }
  case_bool_decide.
  { intros [= <-]. rewrite L4. split; [|lia].
    cbn [negb Z.eqb Pos.eqb reject rbind]. by rewrite get_PutUint32, Hx, lxor_cancel by apply G. }
  case_bool_decide.
  { intros [= <-]. rewrite L4'. split; [|lia].
    cbn [negb Z.eqb Pos.eqb reject rbind]. by rewrite get_PutUint32LE, Hx, lxor_cancel by apply G. }
  case_bool_decide; [|done]. intros [= <-].
  assert (Hu : u64 id) by (unfold_widths; lia).
  pose proof (uvarint_roundtrip id [] Hu) as Hr. rewrite app_nil_r in Hr. rewrite Hr.
  pose proof (uvarintSize_range id Hu) as Hs. rewrite uvarintSize_exact by done. split; [|lia].
  destruct (Z.leb_spec (uvarintSize id) 0); [lia|].
  destruct (Z.ltb_spec 4294967295 id); [unfold_widths; lia|]. done.
Qed.

Lemma wrap16_idem z : wrap16 (wrap16 z) = wrap16 z.
Proof. apply wrap16_small. by apply wrap_range. Qed.

(** The header after reading [fields], from what was written: the three 16-bit
    fields arrive reduced to their width. *)
Definition headerAfter (msg : codecMessage) (id i c p : Z) (fields : list string) (h : header)
    : header :=
  mkHeader (if bool_decide ("type" ∈ fields) then Some msg else h_msg h)
    (if bool_decide ("stream" ∈ fields) then id else h_stream h)
    (if bool_decide ("flags" ∈ fields) then i else h_index h)
    (if bool_decide ("flags" ∈ fields) then c else h_count h)
    (if bool_decide ("flags" ∈ fields) then p else h_pad h).

Section header_roundtrip.
Context (spec : codecSpec) (msg : codecMessage) (stream : bytes) (id i c p : Z).
Hypothesis Htag : messageByTag spec (typeTag msg) = Some msg.
Hypothesis Hlen : zlen (typeTag msg) <= 255.
Hypothesis Hstream : decodeStreamIDWithSpec spec stream = Ok id.
Hypothesis Hslen : 1 <= zlen stream <= 10.

Lemma readField_write h field rest :
  readField spec h field (headerField msg stream i c p field ++ rest) =
  Ok (headerAfter msg id (wrap16 i) (wrap16 c) (wrap16 p) [field] h, rest).
Proof using All.
  unfold readField, headerField, headerAfter.
  destruct (decide (field = "type")) as [->|N1]; [|rewrite (bool_decide_eq_false_2 (field = "type")) by done].
  { cbn [bool_decide]. rewrite !bool_decide_eq_true_2 by done.
    cbn [app]. rewrite bz_zlen_small by done. destruct (chunk_front (typeTag msg) rest) as (-> & -> & ->).
    cbn [reject rbind]. rewrite Htag. reflexivity. }
  destruct (decide (field = "stream")) as [->|N2]; [|rewrite (bool_decide_eq_false_2 (field = "stream")) by done].
  { rewrite !bool_decide_eq_true_2 by done.
    cbn [app]. rewrite bz_zlen_small by lia. destruct (chunk_front stream rest) as (-> & -> & ->).
    destruct (Z.leb_spec (zlen stream) 0); [lia|]. cbn [orb reject rbind]. rewrite Hstream. cbn [rbind].
    reflexivity. }
  destruct (decide (field = "flags")) as [->|N3]; [|rewrite (bool_decide_eq_false_2 (field = "flags")) by done].
  { rewrite !bool_decide_eq_true_2 by done.
    set (f := zb (Z.lor (if 1 <? c then 1 else 0) (if 0 <? p then 2 else 0))).
    set (a := PutUint16 (wrap16 i)). set (b := PutUint16 (wrap16 c)). set (d := PutUint16 (wrap16 p)).
    assert (zlen a = 2 /\ zlen b = 2 /\ zlen d = 2) as (La & Lb & Ld) by (by unfold a, b, d, PutUint16).
    change ((f :: a ++ b ++ d) ++ rest) with ([f] ++ (a ++ b ++ d) ++ rest).
    assert (Hs1 : slice 1 3 ([f] ++ (a ++ b ++ d) ++ rest) = a).
    { rewrite <- !app_assoc. by apply slice_app. }
    assert (Hs2 : slice 3 5 ([f] ++ (a ++ b ++ d) ++ rest) = b).
    { rewrite <- !app_assoc, (app_assoc [f]). apply slice_app; rewrite ?zlen_app; lia || done. }
    assert (Hs3 : slice 5 7 ([f] ++ (a ++ b ++ d) ++ rest) = d).
    { rewrite <- !app_assoc, (app_assoc [f]), (app_assoc ([f] ++ a)).
      apply slice_app; rewrite ?zlen_app, ?La, ?Lb; done. }
    assert (Hd : zdrop 7 ([f] ++ (a ++ b ++ d) ++ rest) = rest).
    { rewrite (app_assoc [f]). apply zdrop_app_le. rewrite !zlen_app, La, Lb, Ld. done. }
    assert (Hz : (zlen ([f] ++ (a ++ b ++ d) ++ rest) <? 7) = false).
    { apply Z.ltb_ge. rewrite !zlen_app, La, Lb, Ld. pose proof (zlen_nonneg rest).
      change (zlen [f]) with 1. lia. }
    rewrite Hz, Hs1, Hs2, Hs3, Hd. cbn [reject rbind]. unfold a, b, d.
    rewrite !get_PutUint16, !wrap16_idem. reflexivity. }
  rewrite !bool_decide_eq_false_2 by set_solver. by destruct h.
Qed.

Lemma readFields_write h fields rest :
  readFields spec h fields (concat (headerField msg stream i c p <$> fields) ++ rest) =
  Ok (headerAfter msg id (wrap16 i) (wrap16 c) (wrap16 p) fields h, rest).
Proof using All.
  revert h. induction fields as [|f fields IH]; intros h; [by destruct h|].
  rewrite fmap_cons, concat_cons, <- app_assoc. cbn [readFields].
  rewrite readField_write. cbn [rbind]. rewrite IH. f_equal. f_equal.
  unfold headerAfter. simpl. f_equal.
  all: repeat case_bool_decide; try done; set_solver.
Qed.

End header_roundtrip.

Lemma wrap_unwrap spec body w : goodSpec spec -> zlen body <= maxFrameBytes spec ->
  lengthWrapperSize spec (zlen body) = Ok w ->
  unwrapLengthWithSpec spec (wrapBody spec body) = Ok body.
Proof.
  intros G Hb Hw. pose proof (gs_frame _ G) as Hf. pose proof (zlen_nonneg body) as Hn.
  unfold unwrapLengthWithSpec, wrapBody, lengthWrapperSize in *.
  case_bool_decide.
  { rewrite wrap64_small by (unfold_widths; lia).
    rewrite uvarint_roundtrip by (unfold_widths; lia).
    assert (Hs : 1 <= zlen (PutUvarint (zlen body))).
    { rewrite uvarintSize_exact by (unfold_widths; lia). apply uvarintSize_range. unfold_widths; lia. }
    destruct (Z.leb_spec (zlen (PutUvarint (zlen body))) 0); [lia|]. cbn [reject rbind].
    assert (int64_of (zlen body) = zlen body) as ->.
    { unfold int64_of. rewrite wrap64_small by (unfold_widths; lia).
      destruct (Z.leb_spec (zlen body) MaxInt64); [done|unfold_widths; lia]. }
    rewrite zlen_app. replace (zlen (PutUvarint (zlen body)) + zlen body - zlen (PutUvarint (zlen body)))
      with (zlen body) by lia. rewrite Z.eqb_refl. cbn [negb reject rbind]. by rewrite zdrop_app. }
  case_bool_decide.
  { go_inv Hw. apply Z.ltb_ge in G0. assert (L : zlen (PutUint16 (wrap16 (zlen body))) = 2) by done.
    rewrite zlen_app, L. destruct (Z.ltb_spec (2 + zlen body) 2); [lia|]. cbn [reject rbind].
    rewrite (ztake_app_le 2), (zdrop_app_le 2), get_PutUint16, !wrap16_small
      by (rewrite ?wrap16_small; done || (unfold_widths; lia)).
    replace (2 + zlen body - 2) with (zlen body) by lia. by rewrite Z.eqb_refl. }
  assert (Hg : get_be (PutUint32 (wrap32 (zlen body))) = zlen body).
  { rewrite get_PutUint32, !wrap32_small; [done|..]; rewrite ?wrap32_small; unfold_widths; lia. }
  case_bool_decide.
  { assert (L : zlen (PutUint32 (wrap32 (zlen body))) = 4) by done.
    rewrite zlen_app, L. destruct (Z.ltb_spec (4 + zlen body) 4); [lia|]. cbn [reject rbind].
    rewrite (ztake_app_le 4), (zdrop_app_le 4), Hg by done.
    replace (4 + zlen body - 4) with (zlen body) by lia. by rewrite Z.eqb_refl. }
  case_bool_decide.
  { assert (L : zlen (PutUint32 (wrap32 (zlen body))) = 4) by done.
    rewrite zlen_app, L. destruct (Z.ltb_spec (zlen body + 4) 4); [lia|]. cbn [reject rbind].
    replace (zlen body + 4 - 4) with (zlen body) by lia.
    rewrite zdrop_app, ztake_app, Hg. by rewrite Z.eqb_refl. }
  exfalso. pose proof (gs_length _ G) as Hl. rewrite !elem_of_cons, elem_of_nil in Hl. tauto.
Qed.

Lemma checkedBody_body spec h meta payload pad : goodSpec spec ->
  checkedBody spec (frameBody spec h meta payload pad) =
  Ok (h ++ (if bool_decide (paddingPlacement spec = "prefix") then pad else []) ++ meta ++ payload
      ++ (if bool_decide (paddingPlacement spec = "prefix") then [] else pad)).
Proof.
  intros G. unfold checkedBody, frameBody.
  set (content := h ++ _). case_bool_decide; [|by rewrite app_nil_r].
  assert (L : zlen (PutUint32 (crcForSpec spec content)) = 4) by done.
  rewrite zlen_app, L. pose proof (zlen_nonneg content).
  destruct (Z.ltb_spec (zlen content + 4) 4); [lia|]. cbn [reject rbind].
  replace (zlen content + 4 - 4) with (zlen content) by lia.
  rewrite ztake_app, zdrop_app, get_PutUint32.
  rewrite wrap32_small by (apply crc32_update_range; apply G). by rewrite Z.eqb_refl.
Qed.

Lemma stripPadding_section spec meta payload pad :
  stripPadding spec (zlen pad)
    ((if bool_decide (paddingPlacement spec = "prefix") then pad else []) ++ meta ++ payload
     ++ (if bool_decide (paddingPlacement spec = "prefix") then [] else pad)) = meta ++ payload.
Proof.
  unfold stripPadding. destruct (Z.ltb_spec 0 (zlen pad)) as [Hp|Hp].
  - case_bool_decide; [by rewrite zdrop_app, app_nil_r|]. cbn [app].
    rewrite (app_assoc meta), zlen_app. apply ztake_app_le. lia.
  - pose proof (zlen_nonneg pad). assert (pad = []) as -> by (apply zlen_zero; lia).
    case_bool_decide; by rewrite ?app_nil_r.
Qed.

Definition decodedOf (msg : codecMessage) (op : Operation) (frame pad : bytes) (i c : Z)
    : DecodedFrame :=
  mkDecoded op (wireSymbol msg) (zlen frame) (zlen (Payload op)) (zlen pad) i c.

(** A message is found again by its semantic and by its tag. *)
Definition messageKnown (spec : codecSpec) (msg : codecMessage) : Prop :=
  messageByTag spec (typeTag msg) = Some msg /\ messageBySemantic spec (semantic msg) = Some msg.

Lemma messageBySemantic_semantic spec s msg : messageBySemantic spec s = Some msg -> semantic msg = s.
Proof.
  unfold messageBySemantic. destruct (list_find _ _) as [[k m]|] eqn:E; [|done].
  apply list_find_Some in E as (_ & E & _). intros [= <-]. done.
Qed.

Lemma withPayload_id op : withPayload op (Payload op) = op.
Proof. by destruct op. Qed.

Lemma frame_view spec op pad i c frame msg : goodSpec spec -> wireRange op ->
  messageBySemantic spec (Semantic op) = Some msg ->
  messageByTag spec (typeTag msg) = Some msg ->
  u16 i -> 1 <= c < 65536 -> zlen pad < 65536 -> zlen (Payload op) <= maxPayloadBytes spec ->
  encodeFrameWithSpec spec op pad i c = Ok frame ->
  exists body, body <= maxFrameBytes spec /\
    parseFrameView spec frame =
      Ok (mkFrameView msg (StreamID op) i c (zlen pad) body (viewOf op) (Payload op)).
Proof.
  intros G W Hsem Htag Hi Hc Hp Hpl HE.
  assert (Hmax : maxFrameBytes spec <= MaxInt64) by (pose proof (gs_frame _ G); unfold_widths; lia).
  destruct (encodeFrame_encoded _ _ _ _ _ _ Hmax HE) as (m & st & meta & h & b & w & E).
  destruct E as [E1 E2 E3 E4 E5 E6 E7 E8 E9 [E10 E10'] E11].
  assert (m = msg) as -> by congruence.
  destruct (streamID_roundtrip spec _ st G (wr_stream _ W) E2) as [Hst Hsl].
  pose proof (zlen_nonneg b). pose proof (zlen_nonneg pad).
  exists (zlen b). split; [done|]. unfold parseFrameView.
  assert (Hsz : (zlen frame =? 0) || (maxFrameBytes spec + MaxVarintLen64 <? zlen frame) = false).
  { unfold MaxVarintLen64. apply orb_false_iff. split; [apply Z.eqb_neq; lia|apply Z.ltb_ge; lia]. }
  rewrite Hsz. cbn [reject rbind]. rewrite E7, (wrap_unwrap spec b w) by done. cbn [rbind].
  rewrite E6, checkedBody_body by done. cbn [rbind].
  unfold decodeHeaderAndPayloadWithSpec. rewrite E5.
  rewrite (readFields_write spec msg st (StreamID op) i c (zlen pad)) by done.
  rewrite !wrap16_small by (done || (unfold_widths; lia)).
  cbn [rbind]. unfold headerAfter. cbn [h_msg h_count h_pad h_stream h_index].
  rewrite !bool_decide_eq_true_2 by apply G. destruct (Z.leb_spec c 0); [lia|]. cbn [reject rbind].
  set (section := (if bool_decide (paddingPlacement spec = "prefix") then pad else []) ++ _).
  assert (Hsec : (zlen section <? zlen pad) = false).
  { apply Z.ltb_ge. unfold section. pose proof (zlen_nonneg meta). pose proof (zlen_nonneg (Payload op)).
    case_bool_decide; rewrite !zlen_app, ?zlen_nil; lia. }
  cbn [h_pad h_stream h_index h_count]. rewrite Hsec. cbn [reject rbind].
  unfold section. rewrite stripPadding_section.
  destruct (metadata_roundtrip op meta (Payload op) W E4) as (Hv & _). rewrite Hv. cbn [rbind].
  destruct (Z.ltb_spec (maxPayloadBytes spec) (zlen (Payload op))); [lia|]. done.
Qed.

Lemma frame_roundtrip spec op pad i c frame msg : goodSpec spec -> wireRange op ->
  messageBySemantic spec (Semantic op) = Some msg ->
  messageByTag spec (typeTag msg) = Some msg ->
  u16 i -> 1 <= c < 65536 -> zlen pad < 65536 -> zlen (Payload op) <= maxPayloadBytes spec ->
  encodeFrameWithSpec spec op pad i c = Ok frame ->
  decodeFrameWithSpec spec frame = Ok (decodedOf msg op frame pad i c).
Proof.
  intros G W Hsem Htag Hi Hc Hp Hpl HE.
  destruct (frame_view spec op pad i c frame msg) as (body & _ & Hv); try done.
  unfold decodeFrameWithSpec. rewrite Hv. cbn [rbind].
  cbn [fv_metadata fv_msg fv_streamID fv_payload fv_padLen fv_fragIndex fv_fragCount].
  assert (exists meta, encodeOperationMetadata op = Ok meta) as [meta Hmeta].
  { unfold encodeFrameWithSpec in HE. rewrite Hsem in HE. apply reject_bind_ok in HE as [_ HE].
    apply rbind_ok in HE as (meta & Hm & _). eauto. }
  destruct (metadata_roundtrip op meta [] W Hmeta) as [_ Hm].
  rewrite (messageBySemantic_semantic _ _ _ Hsem), Hm, withPayload_id. done.
Qed.

(** Every frame decodes to what was encoded: for each length, checksum,
    stream-id and padding mode and every header order, repeated fields
    included, decoding an encoded frame returns the same operation with its
    message, fragment position and padding length. *)
Theorem frame_decode_encode spec op pad i c frame msg : goodSpec spec -> wireRange op ->
  messageBySemantic spec (Semantic op) = Some msg ->
  messageByTag spec (typeTag msg) = Some msg ->
  u16 i -> 1 <= c < 65536 -> zlen pad < 65536 -> zlen (Payload op) <= maxPayloadBytes spec ->
  encodeFrameWithSpec spec op pad i c = Ok frame ->
  decodeFrameWithSpec spec frame =
    Ok (mkDecoded op (wireSymbol msg) (zlen frame) (zlen (Payload op)) (zlen pad) i c).
Proof. apply frame_roundtrip. Qed.

(** ** Fragmented operations *)

(** One sent fragment: the frame, its padding and its part of the payload. *)
Record fragment := mkFragment { fr_frame : bytes; fr_pad : bytes; fr_chunk : bytes }.

Fixpoint decodedParts (msg : codecMessage) (op : Operation) (i c : Z) (l : list fragment)
    : list DecodedFrame :=
  match l with
  | [] => []
  | f :: rest => decodedOf msg (withPayload op (fr_chunk f)) (fr_frame f) (fr_pad f) i c
                 :: decodedParts msg op (i + 1) c rest
  end.

Lemma length_decodedParts msg op i c l : length (decodedParts msg op i c l) = length l.
Proof. revert i. induction l as [|f l IH]; intros i; simpl; [done|]. by rewrite IH. Qed.

Lemma wireRange_payload op b : wireRange op -> wireRange (withPayload op b).
Proof. by intros []. Qed.

Lemma metadata_payload op b : encodeOperationMetadata (withPayload op b) = encodeOperationMetadata op.
Proof. done. Qed.

Lemma encodeFrame_pad spec op pad i c frame : encodeFrameWithSpec spec op pad i c = Ok frame ->
  zlen pad <= Z.max 0 (pp_MaxPaddingBytes (padding spec)).
Proof.
  unfold encodeFrameWithSpec. destruct (messageBySemantic spec (Semantic op)); [|done].
  intros [H _]%reject_bind_ok. pose proof (zlen_nonneg pad).
  destruct (Z.ltb_spec 0 (zlen pad)); [|lia]. simpl in H.
  apply orb_false_iff in H as [_ H%Z.ltb_ge]. lia.
Qed.

(** The fragment is a frame of the operation, at some position. *)
Definition sentAs (spec : codecSpec) (op : Operation) (c : Z) (f : fragment) : Prop :=
  exists k, u16 k /\
    encodeFrameWithSpec spec (withPayload op (fr_chunk f)) (fr_pad f) k c = Ok (fr_frame f).

Lemma encodeParts_decode `{Rand} spec op msg engine payload i c sizes frames :
  goodSpec spec -> wireRange op ->
  messageBySemantic spec (Semantic op) = Some msg -> messageByTag spec (typeTag msg) = Some msg ->
  pp_MaxPaddingBytes (padding spec) < 65536 ->
  0 <= i -> i + zlen sizes <= c -> 1 <= c < 65536 -> zlen payload <= maxPayloadBytes spec ->
  sumZ sizes = zlen payload -> Forall (fun n => 0 <= n) sizes ->
  encodeParts spec op engine payload i c sizes = Ok frames ->
  exists l, frames = (fr_frame <$> l) /\ length l = length sizes /\
    decodeAll spec frames = Ok (decodedParts msg op i c l) /\ concat (fr_chunk <$> l) = payload /\
    Forall (sentAs spec op c) l.
Proof.
  intros G W Hs Ht Hmp. revert engine payload i frames.
  induction sizes as [|n sizes IH]; intros engine payload i frames Hi Hic Hc Hpl Hsum Hnn HE.
  { injection HE as <-. exists []. simpl in Hsum. symmetry in Hsum. apply zlen_zero in Hsum as ->.
    by repeat split. }
  apply Forall_cons_1 in Hnn as [Hn Hnn]. simpl in Hsum.
  assert (Hns : 0 <= sumZ sizes) by (by apply sumZ_nonneg).
  rewrite zlen_cons in Hic. pose proof (zlen_nonneg sizes) as Hz.
  cbn [encodeParts] in HE. destruct (Generate engine) as [engine' pad].
  apply rbind_ok in HE as (pd & Hpad & HE). apply rbind_ok in HE as (frame & Hf & HE).
  apply rbind_ok in HE as (rest & Hr & HE). injection HE as <-.
  assert (Lt : zlen (ztake n payload) = n) by (apply zlen_ztake; lia).
  assert (Ld : zlen (zdrop n payload) = sumZ sizes) by (rewrite zlen_zdrop; lia).
  destruct (IH engine' (zdrop n payload) (i + 1) rest) as (l & -> & Hl & Hd & Hcat & Hall);
    [lia..|done|done|].
  exists (mkFragment frame pd (ztake n payload) :: l). split; [done|]. split; [by simpl; rewrite Hl|].
  split; [|split; [rewrite fmap_cons, concat_cons, Hcat; apply (ztake_zdrop n payload)|]].
  - cbn [decodeAll].
    assert (Hdec : decodeFrameWithSpec spec frame
      = Ok (decodedOf msg (withPayload op (ztake n payload)) frame pd i c)).
    { apply frame_roundtrip; try done; [by apply wireRange_payload|unfold_widths; lia| |].
      - pose proof (encodeFrame_pad _ _ _ _ _ _ Hf). lia.
      - change (Payload (withPayload op (ztake n payload))) with (ztake n payload). lia. }
    rewrite Hdec. cbn [rbind]. rewrite Hd. done.
  - constructor; [exists i; split; [unfold_widths; lia|done]|done].
Qed.

Lemma assemble_parts msg op c0 expected meta count pos seen l :
  encodeOperationMetadata op = Ok meta ->
  Semantic (dOperation expected) = Semantic op -> StreamID (dOperation expected) = StreamID op ->
  WireSymbol expected = wireSymbol msg -> FragCount expected = c0 ->
  0 <= pos -> pos + zlen l <= count -> Forall (fun k => k < pos) seen ->
  assemble expected meta count pos seen (decodedParts msg op pos c0 l) = Ok (concat (fr_chunk <$> l)).
Proof.
  intros Hm H1 H2 H3 H4. revert pos seen. induction l as [|f l IH]; intros pos seen Hp Hc Hs; [done|].
  rewrite zlen_cons in Hc. pose proof (zlen_nonneg l). cbn [decodedParts assemble].
  assert (checkPart expected meta count pos seen
    (decodedOf msg (withPayload op (fr_chunk f)) (fr_frame f) (fr_pad f) pos c0) = Ok tt) as ->.
  { unfold checkPart, decodedOf. cbn [FragCount FragIndex dOperation WireSymbol].
    rewrite H4, Z.eqb_refl. cbn [negb reject rbind].
    destruct (Z.ltb_spec pos 0); [lia|]. destruct (Z.leb_spec count pos); [lia|]. cbn [orb reject rbind].
    assert (mem pos seen = false) as ->.
    { apply mem_false. intros Hin. rewrite Forall_forall in Hs. specialize (Hs pos Hin). lia. }
    cbn [reject rbind]. rewrite Z.eqb_refl. cbn [negb reject rbind].
    change (Semantic (withPayload op (fr_chunk f))) with (Semantic op).
    change (StreamID (withPayload op (fr_chunk f))) with (StreamID op).
    rewrite H1, H2, H3, !bool_decide_eq_true_2, Z.eqb_refl by done. cbn [negb reject rbind].
    rewrite metadata_payload, Hm, bool_decide_eq_true_2 by done. done. }
  cbn [rbind]. rewrite (IH (pos + 1)); [done|lia|lia|].
  constructor; [cbn; lia|]. eapply Forall_impl; [exact Hs|]. intros k Hk. simpl in Hk. lia.
Qed.

Lemma encodeParts_metadata `{Rand} spec op engine payload i c sizes frames : sizes <> [] ->
  encodeParts spec op engine payload i c sizes = Ok frames ->
  exists meta, encodeOperationMetadata op = Ok meta.
Proof.
  destruct sizes as [|n sizes]; [done|]. intros _. cbn [encodeParts].
  destruct (Generate engine) as [engine' pad]. intros HE.
  apply rbind_ok in HE as (pd & _ & HE). apply rbind_ok in HE as (frame & Hf & _).
  unfold encodeFrameWithSpec in Hf. destruct (messageBySemantic spec _); [|done].
  apply reject_bind_ok in Hf as [_ Hf]. apply rbind_ok in Hf as (meta & Hm & _). eauto.
Qed.

Lemma FragmentSizesFor_nonempty mode batch frame len : FragmentSizesFor mode batch frame len <> [].
Proof.
  unfold FragmentSizesFor. destruct (Z.leb_spec len 0) as [|Hp]; [done|]. cbv zeta.
  pose proof (chunkLimit_pos mode batch frame).
  pose proof (Z.div_pos len (chunkLimit mode batch frame)).
  destruct (Z.to_nat (len / chunkLimit mode batch frame + 1)) eqn:E; [lia|].
  simpl. by destruct (Z.ltb_spec 0 len); [|lia].
Qed.

(** What is needed to send an operation faithfully; see [goodSpec] and
    [wireRange]. The padding bound and the fragment count are the ones the
    16-bit header fields can carry. *)
Record sendable (spec : codecSpec) (op : Operation) (msg : codecMessage) : Prop := {
  sd_spec : goodSpec spec;
  sd_range : wireRange op;
  sd_semantic : messageBySemantic spec (Semantic op) = Some msg;
  sd_tag : messageByTag spec (typeTag msg) = Some msg;
  sd_padding : pp_MaxPaddingBytes (padding spec) < 65536;
  sd_count : zlen (FragmentSizesFor (fragmentationMode spec) (maxBatchBytes spec)
               (maxFrameBytes spec) (zlen (Payload op))) < 65536;
}.

Lemma encodeOperation_fragments `{Rand} spec op msg seed frames : sendable spec op msg ->
  encodeOperationWithSpec spec op seed = Ok frames ->
  exists l meta, frames = (fr_frame <$> l) /\ l <> [] /\ zlen l < 65536 /\
    encodeOperationMetadata op = Ok meta /\
    decodeAll spec frames = Ok (decodedParts msg op 0 (zlen l) l) /\
    concat (fr_chunk <$> l) = Payload op /\
    Forall (sentAs spec op (zlen l)) l.
Proof.
  intros [S1 S2 S3 S4 S5 S6] HE. unfold encodeOperationWithSpec in HE.
  apply reject_bind_ok in HE as [C1%Z.ltb_ge HE]. apply reject_bind_ok in HE as [_ HE].
  set (sizes := FragmentSizesFor _ _ _ _) in *. cbv zeta in HE.
  pose proof (FragmentSizesFor_nonempty (fragmentationMode spec) (maxBatchBytes spec)
    (maxFrameBytes spec) (zlen (Payload op))) as Hne. fold sizes in Hne.
  destruct (FragmentSizesFor_sum (fragmentationMode spec) (maxBatchBytes spec)
    (maxFrameBytes spec) (zlen (Payload op)) (zlen_nonneg _)) as [Hsum Hall]. fold sizes in Hsum, Hall.
  assert (Hz : 1 <= zlen sizes).
  { destruct sizes as [|n sizes']; [done|]. rewrite zlen_cons. pose proof (zlen_nonneg sizes'). lia. }
  destruct (encodeParts_metadata _ _ _ _ _ _ _ _ Hne HE) as [meta Hmeta].
  destruct (encodeParts_decode spec op msg (New (padding spec) seed) (Payload op) 0 (zlen sizes)
    sizes frames S1 S2 S3 S4 S5
    ltac:(lia) ltac:(lia) ltac:(lia) ltac:(lia) Hsum) as (l & Hf & Hl & Hd & Hcat & Hfa);
    [eapply Forall_impl; [exact Hall|]; intros k Hk; simpl in Hk; lia|done|].
  assert (El : zlen l = zlen sizes) by (unfold zlen; lia).
  exists l, meta. rewrite El. split; [done|]. split; [|done].
  intros ->. unfold zlen in El. simpl in El. unfold zlen in Hz. lia.
Qed.

Lemma decodeFrames_parts spec op msg meta frames l : frames = (fr_frame <$> l) -> l <> [] ->
  encodeOperationMetadata op = Ok meta ->
  decodeAll spec frames = Ok (decodedParts msg op 0 (zlen l) l) ->
  concat (fr_chunk <$> l) = Payload op ->
  decodeFramesWithSpec spec frames = Ok (op, decodedParts msg op 0 (zlen l) l).
Proof.
  intros -> Hne Hm Hd Hcat. unfold decodeFramesWithSpec. rewrite Hd. cbn [rbind].
  destruct l as [|f l]; [done|].
  pose proof (assemble_parts msg op (zlen (f :: l))
    (decodedOf msg (withPayload op (fr_chunk f)) (fr_frame f) (fr_pad f) 0 (zlen (f :: l)))
    meta (zlen (f :: l)) 0 [] (f :: l) Hm eq_refl eq_refl eq_refl eq_refl ltac:(lia) ltac:(lia)
    ltac:(constructor)) as Ha.
  assert (Hz : zlen (decodedParts msg op 0 (zlen (f :: l)) (f :: l)) = zlen (f :: l)).
  { unfold zlen. by rewrite length_decodedParts. }
  cbn [decodedParts] in Hz, Ha |- *. unfold decodedOf in *. rewrite Hz. cbn [FragCount dOperation].
  rewrite Z.eqb_refl. cbn [negb reject rbind]. rewrite metadata_payload, Hm.
  cbn [map_err rbind]. rewrite Ha. cbn [rbind]. rewrite Hcat.
  by destruct op.
Qed.

(** Fragmented operations are reassembled exactly: whatever the mode, the
    payload and the seed of the padding, decoding the frames of an encoded
    operation returns that operation. *)
Lemma encode_decode `{Rand} spec op msg seed frames : sendable spec op msg ->
  encodeOperationWithSpec spec op seed = Ok frames ->
  exists parts, decodeAll spec frames = Ok parts /\ decodeFramesWithSpec spec frames = Ok (op, parts).
Proof.
  intros Hs HE. destruct (encodeOperation_fragments spec op msg seed frames Hs HE)
    as (l & meta & H1 & H2 & _ & H3 & H4 & H5 & _). eexists. split; [done|].
  by eapply decodeFrames_parts.
Qed.


(** ** Frames in a byte stream *)

Lemma put_uvarint_continues fuel x a b : put_uvarint fuel x = a ++ b -> b <> [] ->
  Forall (fun c => 128 <= bz c) a.
Proof.
  revert x a. induction fuel as [|fuel IH]; intros x a Hp Hb; simpl in Hp.
  { symmetry in Hp. by apply app_eq_nil in Hp as [_ ?]. }
  destruct a as [|c a]; [constructor|]. destruct (x <? 128).
  { injection Hp as _ Hp. symmetry in Hp. by apply app_eq_nil in Hp as [_ ?]. }
  injection Hp as <- Hp. constructor; [|by eapply IH].
  destruct (continuation_byte (x mod 256) (Z.mod_pos_bound x 256 ltac:(lia))) as [_ Hc].
  rewrite bz_zb_small; lia.
Qed.

Lemma uvarint_incomplete a i acc s : Forall (fun c => 128 <= bz c) a -> i + zlen a <= 10 ->
  0 <= i -> uvarint_loop a i acc s = (0, 0).
Proof.
  intros Ha. revert i acc s. induction Ha as [|c a Hc Ha IH]; intros i acc s Hi Hi0; [done|].
  rewrite zlen_cons in Hi. pose proof (zlen_nonneg a). simpl. unfold MaxVarintLen64.
  destruct (Z.eqb_spec i 10); [lia|]. destruct (Z.ltb_spec (bz c) 128); [lia|]. apply IH; lia.
Qed.

Lemma readPrefix_body spec prefix body rest : 0 < zlen body <= maxFrameBytes spec ->
  readPrefixBodyWithSpec spec (body ++ rest) prefix (zlen body) = Ok (prefix ++ body, rest).
Proof.
  intros Hb. unfold readPrefixBodyWithSpec. destruct (Z.leb_spec (zlen body) 0); [lia|].
  destruct (Z.ltb_spec (maxFrameBytes spec) (zlen body)); [lia|]. cbn [orb reject rbind].
  unfold readFull. destruct (chunk_front body rest) as (-> & -> & ->). done.
Qed.

Lemma readVarint_front spec pre suf body rest : 0 < zlen body <= maxFrameBytes spec ->
  zlen body <= 1048576 -> PutUvarint (zlen body) = pre ++ suf -> suf <> [] ->
  readVarintFrame spec (suf ++ body ++ rest) pre = Ok (PutUvarint (zlen body) ++ body, rest).
Proof.
  intros Hb Hmax. revert pre. induction suf as [|b suf IH]; intros pre Hp Hs; [done|].
  cbn [app readVarintFrame]. assert (Hu : u64 (zlen body)) by (unfold_widths; lia).
  pose proof (uvarint_roundtrip (zlen body) [] Hu) as Hr. rewrite app_nil_r in Hr.
  pose proof (uvarintSize_range _ Hu) as Hsz. rewrite <- uvarintSize_exact in Hsz by done.
  destruct suf as [|b' suf].
  - rewrite <- Hp, Hr. destruct (Z.ltb_spec 0 (zlen (PutUvarint (zlen body)))); [|lia].
    cbn [app]. assert (int64_of (zlen body) = zlen body) as ->; [|by apply readPrefix_body].
    unfold int64_of. rewrite wrap64_small by done.
    destruct (Z.leb_spec (zlen body) MaxInt64); [done|unfold_widths; lia].
  - assert (Hp' : PutUvarint (zlen body) = (pre ++ [b]) ++ b' :: suf) by (by rewrite <- app_assoc).
    assert (Hl : zlen (pre ++ [b]) < zlen (PutUvarint (zlen body))).
    { rewrite Hp', (zlen_app (pre ++ [b])), (zlen_cons b'). pose proof (zlen_nonneg suf). lia. }
    unfold Uvarint. rewrite uvarint_incomplete; [|eapply put_uvarint_continues; [exact Hp'|done]|lia|lia].
    cbn [Z.ltb Z.compare]. unfold MaxVarintLen64.
    destruct (Z.ltb_spec 10 (zlen (pre ++ [b]))); [lia|]. by apply IH.
Qed.

Lemma metadata_size op meta : encodeOperationMetadata op = Ok meta -> 41 <= zlen meta.
Proof.
  unfold encodeOperationMetadata. intros H. go_inv H. injection H as <-.
  assert (writeOperationMetadata op = fixedPart op ++
    concat ((fun v => zb (slen v) :: sbytes v) <$> operationMetadataStrings op)) as ->.
  { unfold writeOperationMetadata, fixedPart. by rewrite <- !app_assoc. }
  rewrite zlen_app, fixedPart_size.
  pose proof (zlen_nonneg (concat ((fun v => zb (slen v) :: sbytes v) <$> operationMetadataStrings op))). lia.
Qed.

Lemma readFrame_front spec op pad i c frame rest : goodSpec spec ->
  lengthMode spec <> "length_suffix_lab" ->
  encodeFrameWithSpec spec op pad i c = Ok frame ->
  readFrameWithSpec spec (frame ++ rest) = Ok (frame, rest).
Proof.
  intros G Hm HE. pose proof (gs_frame _ G) as Hf.
  destruct (encodeFrame_encoded spec op pad i c frame) as (m & st & meta & h & b & w & E);
    [unfold_widths; lia|done|].
  destruct E as [E1 E2 E3 E4 E5 E6 E7 E8 E9 [E10 E10'] E11].
  assert (Hb : 0 < zlen b).
  { rewrite E6, frameBody_size. pose proof (metadata_size _ _ E4). pose proof (zlen_nonneg h).
    pose proof (zlen_nonneg (Payload op)). pose proof (zlen_nonneg pad). unfold checksumSize.
    case_bool_decide; lia. }
  unfold readFrameWithSpec, lengthWrapperSize in *. rewrite E7. unfold wrapBody.
  case_bool_decide.
  { rewrite wrap64_small by (unfold_widths; lia). rewrite <- app_assoc.
    apply (readVarint_front spec []); [lia|lia|done|].
    intros Hnil. pose proof (put_uvarint_nonempty 10 (zlen b) ltac:(lia)) as Hn.
    fold (PutUvarint (zlen b)) in Hn. rewrite Hnil in Hn. done. }
  case_bool_decide.
  { go_inv E11. apply Z.ltb_ge in G0. rewrite <- app_assoc. unfold readFull.
    destruct (chunk_front (PutUint16 (wrap16 (zlen b))) (b ++ rest)) as (C1 & C2 & C3).
    change (zlen (PutUint16 (wrap16 (zlen b)))) with 2 in C1, C2, C3. rewrite C1, C2, C3. cbn [reject rbind].
    rewrite get_PutUint16, !wrap16_small by (rewrite ?wrap16_small; unfold_widths; lia).
    apply readPrefix_body. lia. }
  case_bool_decide.
  { rewrite <- app_assoc. unfold readFull.
    destruct (chunk_front (PutUint32 (wrap32 (zlen b))) (b ++ rest)) as (C1 & C2 & C3).
    change (zlen (PutUint32 (wrap32 (zlen b)))) with 4 in C1, C2, C3. rewrite C1, C2, C3. cbn [reject rbind].
    rewrite get_PutUint32, !wrap32_small by (rewrite ?wrap32_small; unfold_widths; lia).
    apply readPrefix_body. lia. }
  exfalso. pose proof (gs_length _ G) as Hl. rewrite !elem_of_cons, elem_of_nil in Hl. tauto.
Qed.

Lemma readFrames_front spec op c l rest : goodSpec spec -> lengthMode spec <> "length_suffix_lab" ->
  Forall (sentAs spec op c) l ->
  readFrames spec (length l) (concat (fr_frame <$> l) ++ rest) = Ok (fr_frame <$> l, rest).
Proof.
  intros G Hm. induction 1 as [|f l (k & _ & Hf) Hl IH]; [done|].
  rewrite fmap_cons, concat_cons, <- app_assoc. cbn [length readFrames].
  rewrite (readFrame_front _ _ _ _ _ _ _ G Hm Hf). cbn [rbind]. by rewrite IH.
Qed.

Lemma encode_read `{Rand} spec op msg seed frames rest : sendable spec op msg ->
  lengthMode spec <> "length_suffix_lab" ->
  encodeOperationWithSpec spec op seed = Ok frames ->
  exists parts, decodeAll spec frames = Ok parts /\
    readOperationWithSpec spec (concat frames ++ rest) = Ok (op, parts, rest).
Proof.
  intros Hs Hm HE. destruct (encodeOperation_fragments spec op msg seed frames Hs HE)
    as (l & meta & H1 & H2 & Hlt & H3 & H4 & H5 & H6).
  pose proof (decodeFrames_parts spec op msg meta frames l H1 H2 H3 H4 H5) as Hdec.
  exists (decodedParts msg op 0 (zlen l) l). split; [done|].
  pose proof (sd_spec _ _ _ Hs) as G. subst frames. destruct l as [|f l]; [done|].
  unfold readOperationWithSpec. rewrite fmap_cons, concat_cons, <- app_assoc.
  inversion H6 as [|? ? (k & _ & Hf) Hl]; subst.
  rewrite (readFrame_front _ _ _ _ _ _ _ G Hm Hf). cbn [rbind].
  rewrite fmap_cons in H4. cbn [decodeAll decodedParts] in H4.
  apply rbind_ok in H4 as (part & Hpart & H4). apply rbind_ok in H4 as (parts & _ & H4).
  injection H4 as Hp _. rewrite Hpart. cbn [rbind]. rewrite Hp. unfold decodedOf. cbn [FragCount].
  assert (Z.to_nat (zlen (f :: l) - 1) = length l) as ->.
  { rewrite zlen_cons. unfold zlen. lia. }
  rewrite (readFrames_front spec op _ l rest G Hm Hl). cbn [rbind].
  rewrite fmap_cons in Hdec. by rewrite Hdec.
Qed.

(** The three prefix framings are self-delimiting: reading from a stream
    that starts with the frames of an encoded operation consumes exactly those
    frames, returns the operation, and leaves the rest of the stream. *)
Theorem operation_read_write `{Rand} spec op msg seed frames rest : sendable spec op msg ->
  lengthMode spec <> "length_suffix_lab" ->
  encodeOperationWithSpec spec op seed = Ok frames ->
  exists parts, decodeAll spec frames = Ok parts /\
    readOperationWithSpec spec (concat frames ++ rest) = Ok (op, parts, rest).
Proof. apply encode_read. Qed.

(** ** Profiles *)

Lemma ChecksumIEEE_range b : u32 (ChecksumIEEE b).
Proof. apply crc32_update_range. unfold_widths. lia. Qed.

Lemma specOf_good `{Encoding} p : Validate (Some p) = Ok tt -> goodSpec (specOf p).
Proof.
  intros HV%Validate_validated. pose proof (v_grammar _ HV) as HG. pose proof (v_limits _ HV) as HL.
  unfold validateFrameGrammar in HG.
  apply reject_bind_ok in HG as [C1%negb_false_iff%mem_true HG].
  do 4 apply reject_bind_ok in HG as [_ HG]. apply rbind_ok in HG as (u & _ & HG).
  apply rbind_ok in HG as (u' & HF & _). apply forRange_ok in HF. rewrite Forall_forall in HF.
  assert (Hin : forall f, f ∈ ["length"; "type"; "stream"; "flags"] -> f ∈ fg_HeaderOrder (pf_FrameGrammar p)).
  { intros f Hf. specialize (HF f Hf). go_inv HF.
    match goal with G : negb (mem _ _) = false |- _ => by apply negb_false_iff, mem_true in G end. }
  unfold validateLimits in HL. apply reject_bind_ok in HL as [[_ L%Z.ltb_ge]%orb_false_iff _].
  constructor; simpl; try done; try apply ChecksumIEEE_range.
  all: apply Hin; set_solver.
Qed.

Lemma messages_found {A B} `{EqDecision B} (f : A -> B) l x :
  NoDup (f <$> l) -> x ∈ l -> snd <$> list_find (fun y => f y = f x) l = Some x.
Proof. apply list_find_unique. Qed.

Lemma tableTag_index p l k i m : NoDup (ms_WireSymbol <$> l) -> l !! k = Some m ->
  exists b, tableTag p l i m = [zb (i + Z.of_nat k); b].
Proof.
  revert i k. induction l as [|x l IH]; intros i k HN Hk; [done|]. simpl.
  rewrite fmap_cons in HN. apply NoDup_cons in HN as [Hx HN]. destruct k as [|k]; simpl in Hk.
  - injection Hk as ->. rewrite bool_decide_eq_true_2 by done. rewrite Z.add_0_r. eauto.
  - rewrite bool_decide_eq_false_2.
    + destruct (IH (i + 1) k HN Hk) as [b Hb]. exists b. rewrite Hb. do 2 f_equal. lia.
    + intros E. apply Hx. rewrite E. apply list_elem_of_fmap_2. by eapply list_elem_of_lookup_2.
Qed.

(** The tags of a validated profile are distinct in the explicit mode, and in
    the table mode while the index fits its byte. The two checksum modes may
    collide. *)
Lemma profile_tags_distinct `{Encoding} p : Validate (Some p) = Ok tt ->
  fg_TypeMode (pf_FrameGrammar p) = "explicit_generated_tag" \/
  (fg_TypeMode (pf_FrameGrammar p) = "table_indexed_symbol" /\ zlen (pf_Messages p) <= 256) ->
  NoDup (legacyTypeTagFromProfile p <$> pf_Messages p).
Proof.
  intros HV%Validate_validated Hm. pose proof (v_messages _ HV) as HM. unfold validateMessages in HM.
  apply rbind_ok in HM as ([w s] & E & _). apply scanMessages_ok in E as (_ & _ & HN & _).
  unfold legacyTypeTagFromProfile. destruct Hm as [->|[-> Hlen]].
  - rewrite (list_fmap_ext _ (fun m => sbytes (ms_WireSymbol m))) by done.
    rewrite (list_fmap_compose ms_WireSymbol sbytes). apply NoDup_fmap_2; [|done].
    intros a b. apply sbytes_inj.
  - apply NoDup_alt. intros i j x Hi Hj.
    rewrite list_lookup_fmap in Hi, Hj. apply fmap_Some in Hi as (mi & Hmi & ->).
    apply fmap_Some in Hj as (mj & Hmj & Hj).
    cbn in Hj.
    destruct (tableTag_index p _ i 0 mi HN Hmi) as [bi Ti]. destruct (tableTag_index p _ j 0 mj HN Hmj) as [bj Tj].
    rewrite Ti, Tj in Hj. injection Hj as Hz _. apply (f_equal bz) in Hz.
    apply lookup_lt_Some in Hmi, Hmj. unfold zlen in Hlen. rewrite !bz_zb_small in Hz by lia. lia.
Qed.

Lemma writeFrames_buffer `{Encoding} p spec frames w parts : codecSpecFromProfile p = Ok spec ->
  decodeAll spec frames = Ok parts -> writeFrames bufferWrite p w frames = (w ++ concat frames, Ok parts).
Proof.
  intros Hs. revert w parts. induction frames as [|f frames IH]; intros w parts Hd.
  { injection Hd as <-. simpl. by rewrite app_nil_r. }
  cbn [decodeAll] in Hd. apply rbind_ok in Hd as (part & Hp & Hd). apply rbind_ok in Hd as (ps & Hps & Hd).
  injection Hd as <-. cbn [writeFrames bufferWrite]. unfold DecodeFrame. rewrite Hs. cbn [rbind].
  rewrite Hp, (IH _ _ Hps). cbn [rbind concat]. by rewrite <- app_assoc.
Qed.

(** What a successful [EncodeOperation] says about the profile and the operation. *)
Lemma EncodeOperation_sendable `{Encoding, Rand} p op seed frames :
  NoDup (legacyTypeTagFromProfile p <$> pf_Messages p) \/
  fg_TypeMode (pf_FrameGrammar p) = "explicit_generated_tag" \/
  (fg_TypeMode (pf_FrameGrammar p) = "table_indexed_symbol" /\ zlen (pf_Messages p) <= 256) ->
  wireRange op -> pp_MaxPaddingBytes (pf_Padding p) < 65536 ->
  zlen (FragmentSizes p (zlen (Payload op))) < 65536 ->
  EncodeOperation p op seed = Ok frames ->
  codecSpecFromProfile p = Ok (specOf p) /\ encodeOperationWithSpec (specOf p) op seed = Ok frames /\
  exists msg, sendable (specOf p) op msg.
Proof.
  intros Htags W Hpad Hcount HE. unfold EncodeOperation in HE.
  apply rbind_ok in HE as ([] & HV & HE). apply map_err_ok in HV.
  apply rbind_ok in HE as (u & _ & HE). unfold codecSpecFromProfile in *. rewrite HV in *.
  cbn [map_err rbind] in HE. split; [done|]. split; [done|].
  assert (HN : NoDup (legacyTypeTagFromProfile p <$> pf_Messages p)).
  { destruct Htags as [|Htags]; [done|]. by apply profile_tags_distinct. }
  pose proof HE as HE0. unfold encodeOperationWithSpec in HE0.
  apply reject_bind_ok in HE0 as [_ HE0]. apply reject_bind_ok in HE0 as [Hs%bool_decide_eq_false _].
  destruct (messageBySemantic (specOf p) (Semantic op)) as [msg|] eqn:Em; [|done].
  exists msg. constructor; try done; [by apply specOf_good|].
  unfold messageByTag, messageBySemantic in *. destruct (list_find _ _) as [[k m]|] eqn:E; [|done].
  injection Em as ->. apply list_find_Some in E as (E & _ & _). apply messages_found.
  - unfold specOf. cbn [messages]. rewrite <- list_fmap_compose. exact HN.
  - by eapply list_elem_of_lookup_2.
Qed.

(** C7: End to end for profiles: with a validated profile whose type tags are
    distinct, as they always are in the explicit and the table mode, whatever
    [EncodeOperation] emits, [DecodeFrames] turns back into the same operation;
    and in the self-delimiting length modes [WriteOperation] appends exactly
    those frames to a buffer, from which [ReadOperation] recovers the operation
    and leaves what follows. The numbers must fit the wire's widths. *)
Theorem profile_decode_encode `{Encoding, Rand} p op seed frames :
  NoDup (legacyTypeTagFromProfile p <$> pf_Messages p) \/
  fg_TypeMode (pf_FrameGrammar p) = "explicit_generated_tag" \/
  (fg_TypeMode (pf_FrameGrammar p) = "table_indexed_symbol" /\ zlen (pf_Messages p) <= 256) ->
  wireRange op -> pp_MaxPaddingBytes (pf_Padding p) < 65536 ->
  zlen (FragmentSizes p (zlen (Payload op))) < 65536 ->
  EncodeOperation p op seed = Ok frames ->
  exists parts, DecodeFrames p frames = Ok (op, parts) /\
    forall w rest, fg_LengthMode (pf_FrameGrammar p) <> "length_suffix_lab" ->
      WriteOperation bufferWrite w p op seed = (w ++ concat frames, Ok parts) /\
      ReadOperation p (concat frames ++ rest) = Ok (op, parts, rest).
Proof.
  intros Htags W Hpad Hcount HE.
  destruct (EncodeOperation_sendable p op seed frames) as (Hs & HF & msg & Hsend); try done.
  destruct (encode_decode _ _ _ _ _ Hsend HF) as (parts & Hd & HD).
  unfold DecodeFrames, ReadOperation, WriteOperation. rewrite Hs, HE. cbn [rbind].
  exists parts. split; [done|]. intros w rest Hm. split; [by eapply writeFrames_buffer|].
  destruct (encode_read _ _ _ _ _ rest Hsend Hm HF) as (parts' & Hd' & HR). congruence.
Qed.

(** ** Beyond the header's widths *)

(** Padding of exactly 65536 bytes, which profile validation does not exclude,
    arrives with padding length zero: the decoder takes it for payload. *)
Lemma padding_truncated spec op pad i c frame msg : goodSpec spec -> wireRange op ->
  messageBySemantic spec (Semantic op) = Some msg -> messageByTag spec (typeTag msg) = Some msg ->
  paddingPlacement spec <> "prefix" ->
  u16 i -> 1 <= c < 65536 -> zlen pad = 65536 -> zlen (Payload op) + 65536 <= maxPayloadBytes spec ->
  encodeFrameWithSpec spec op pad i c = Ok frame ->
  decodeFrameWithSpec spec frame =
    Ok (decodedOf msg (withPayload op (Payload op ++ pad)) frame [] i c).
Proof.
  intros G W Hsem Htag Hpp Hi Hc Hp Hpl HE.
  assert (Hmax : maxFrameBytes spec <= MaxInt64) by (pose proof (gs_frame _ G); unfold_widths; lia).
  destruct (encodeFrame_encoded _ _ _ _ _ _ Hmax HE) as (m & st & meta & h & b & w & E).
  destruct E as [E1 E2 E3 E4 E5 E6 E7 E8 E9 [E10 E10'] E11].
  assert (m = msg) as -> by congruence.
  destruct (streamID_roundtrip spec _ st G (wr_stream _ W) E2) as [Hst Hsl].
  pose proof (zlen_nonneg b). unfold decodeFrameWithSpec, parseFrameView.
  assert (Hsz : (zlen frame =? 0) || (maxFrameBytes spec + MaxVarintLen64 <? zlen frame) = false).
  { unfold MaxVarintLen64. apply orb_false_iff. split; [apply Z.eqb_neq; lia|apply Z.ltb_ge; lia]. }
  rewrite Hsz. cbn [reject rbind]. rewrite E7, (wrap_unwrap spec b w) by done. cbn [rbind].
  rewrite <- E7. rewrite E6, checkedBody_body by done. cbn [rbind].
  unfold decodeHeaderAndPayloadWithSpec. rewrite E5.
  rewrite (readFields_write spec msg st (StreamID op) i c (zlen pad)) by done.
  rewrite Hp. change (wrap16 65536) with 0.
  rewrite !wrap16_small by (done || (unfold_widths; lia)).
  cbn [rbind]. unfold headerAfter. cbn [h_msg h_count h_pad h_stream h_index].
  rewrite !bool_decide_eq_true_2 by apply G. destruct (Z.leb_spec c 0); [lia|]. cbn [reject rbind].
  rewrite bool_decide_eq_false_2 by done. cbn [app h_pad h_stream h_index h_count].
  destruct (Z.ltb_spec (zlen (meta ++ Payload op ++ pad)) 0) as [Hneg|_];
    [pose proof (zlen_nonneg (meta ++ Payload op ++ pad)); lia|]. cbn [reject rbind stripPadding Z.ltb Z.compare].
  destruct (metadata_roundtrip op meta (Payload op ++ pad) W E4) as (Hv & Hm).
  unfold stripPadding. cbn [Z.ltb Z.compare]. rewrite Hv. cbn [rbind].
  rewrite zlen_app, Hp. destruct (Z.ltb_spec (maxPayloadBytes spec) (zlen (Payload op) + 65536)); [lia|].
  cbn [reject rbind fv_metadata fv_msg fv_streamID fv_payload fv_padLen fv_fragIndex fv_fragCount].
  rewrite (messageBySemantic_semantic _ _ _ Hsem), Hm, zlen_app, Hp. unfold decodedOf.
  change (Payload (withPayload op (Payload op ++ pad))) with (Payload op ++ pad).
  rewrite zlen_app, Hp. done.
Qed.

(** ** Witnesses *)

Definition sampleOperation : Operation :=
  mkOperation SemanticData 3 7 0 0 "" "bulk" false (sbytes "hello, stream") 0 "" "" "" "" "" "" "" ""
    0 0 0.

Definition sampleSpec : codecSpec := specOf sampleProfile.

Definition sampleMsg : codecMessage :=
  default (mkCodecMessage "" "" []) (messageBySemantic sampleSpec SemanticData).

Definition sampleFrame : bytes :=
  match encodeFrameWithSpec sampleSpec sampleOperation [] 0 1 with Ok f => f | Err _ => [] end.

Definition sampleFrames : list bytes :=
  match encodeOperationWithSpec sampleSpec sampleOperation 5 with Ok f => f | Err _ => [] end.

Lemma sampleSpec_good : goodSpec sampleSpec.
Proof. apply (@specOf_good toyEncoding). vm_compute. reflexivity. Defined.

Lemma sampleOperation_range : wireRange sampleOperation.
Proof. constructor; vm_compute; split; congruence. Defined.

Lemma sampleOperation_sendable : sendable sampleSpec sampleOperation sampleMsg.
Proof.
  constructor; [exact sampleSpec_good|exact sampleOperation_range|vm_compute; reflexivity..].
Defined.

Lemma frame_size_exact_witness : zlen sampleFrame = 85.
Proof.
  destruct (frame_size_exact sampleSpec sampleOperation [] 0 1 sampleFrame)
    as (msg & meta & body & wrapper & H1 & H2 & H3 & H4 & _);
    [vm_compute; congruence|vm_compute; reflexivity|].
  rewrite H4. vm_compute in H1, H2. injection H1 as <-. injection H2 as <-.
  vm_compute in H3. injection H3 as <- <-. reflexivity.
Defined.

Lemma frame_decode_encode_witness :
  decodeFrameWithSpec sampleSpec sampleFrame =
    Ok (mkDecoded sampleOperation (wireSymbol sampleMsg) (zlen sampleFrame) 13 0 0 1).
Proof.
  apply (frame_decode_encode sampleSpec sampleOperation [] 0 1 sampleFrame sampleMsg);
    [exact sampleSpec_good|exact sampleOperation_range|vm_compute; reflexivity
    |vm_compute; reflexivity|vm_compute; split; congruence|lia|vm_compute; reflexivity
    |vm_compute; congruence|vm_compute; reflexivity].
Defined.

Lemma operation_read_write_witness :
  exists parts, readOperationWithSpec sampleSpec (concat sampleFrames ++ sbytes "tail")
    = Ok (sampleOperation, parts, sbytes "tail").
Proof.
  destruct (operation_read_write sampleSpec sampleOperation sampleMsg 5 sampleFrames (sbytes "tail"))
    as (parts & _ & H);
    [exact sampleOperation_sendable|vm_compute; congruence|vm_compute; reflexivity|].
  exists parts. exact H.
Defined.

Lemma profile_decode_encode_witness :
  exists frames parts, @EncodeOperation toyEncoding toyRand sampleProfile sampleOperation 5 = Ok frames /\
    @ReadOperation toyEncoding sampleProfile (concat frames ++ sbytes "tail")
    = Ok (sampleOperation, parts, sbytes "tail").
Proof.
  destruct (@profile_decode_encode toyEncoding toyRand sampleProfile sampleOperation 5 sampleFrames)
    as (parts & _ & H);
    [right; left; reflexivity|exact sampleOperation_range|vm_compute; reflexivity
    |vm_compute; reflexivity|vm_compute; reflexivity|].
  exists sampleFrames, parts. split; [vm_compute; reflexivity|].
  destruct (H [] (sbytes "tail")) as [_ HR]; [vm_compute; congruence|exact HR].
Defined.
