(* ===== verification/LiveProgram.v ===== *)
(** * Live programs

    [src/internal/protocol/liveprogram/program_v1.go]: the product-safe subset
    of a compiled profile and its validation. Slices are copied by value in the
    model, so [Clone] is the identity. SHA-256 is the [sum256] of [Encoding]. *)

From S2P Require Import Prelude GoBytes Ir Validate.
From Stdlib Require Import ZArith Lia Floats.SpecFloat Strings.Byte.
From stdpp Require Import base list sets strings sorting.
Local Open Scope Z_scope.

Definition SchemaV1 : string := "kurd-live-program-v1".
Definition MaxEncodedBytes : Z := Z.shiftl 48 10.

Inductive ErrorCategory :=
  | ErrorInvalid | ErrorSize | ErrorSchema | ErrorNonCanonical | ErrorUnsupported.

Record MessageV1 := mkMessageV1 {
  lm_Semantic : string;
  lm_WireSymbol : string;
  lm_Direction : string;
  lm_MinPayloadBytes : Z;
  lm_MaxPayloadBytes : Z;
}.

Record CompiledFramingV1 := mkCompiledFramingV1 {
  cf_DataTypeTag : bytes;
  cf_PaddingTypeTag : bytes;
  cf_ProfileXORStreamMask : Z;
  cf_TableStreamMask : Z;
  cf_CRC32PrefixState : Z;
}.

Record FrameV1 := mkFrameV1 {
  lf_LengthMode : string;
  lf_TypeMode : string;
  lf_HeaderOrder : list string;
  lf_FragmentationMode : string;
  lf_ChecksumMode : string;
  lf_PaddingPlacement : string;
  lf_Compiled : CompiledFramingV1;
}.

Record SchedulerV1 := mkSchedulerV1 {
  ls_Mode : string;
  ls_PriorityMode : string;
  ls_MaxBatchBytes : Z;
  ls_FlushIntervalMs : Z;
  ls_MaxInFlightFrames : Z;
}.

Record StreamV1 := mkStreamV1 { lst_IDEncodingMode : string; lst_MaxConcurrentStreams : Z }.

Record PaddingV1 := mkPaddingV1 {
  lpd_Mode : string;
  lpd_MinPaddingBytes : Z;
  lpd_MaxPaddingBytes : Z;
  lpd_Probability : spec_float;
}.

Record SecurityPolicyV1 := mkSecurityPolicyV1 {
  lsp_SecurityVersion : string;
  lsp_TranscriptMode : string;
  lsp_KDFSuite : string;
  lsp_AEADSuite : string;
  lsp_MACSuite : string;
  lsp_NonceMode : string;
  lsp_ReplayPolicy : string;
  lsp_ReplayWindowSize : Z;
  lsp_DowngradePolicy : string;
  lsp_CapabilityNegotiationPolicy : string;
  lsp_ProfileCompatibilityPolicy : string;
  lsp_KeyRotationPolicy : string;
  lsp_ConfigValidationPolicy : string;
  lsp_SecureEnvelopeMode : string;
  lsp_MaxSessionMessages : Z;
  lsp_MaxKeyLifetimeMessages : Z;
}.

Record SecurityV1 := mkSecurityV1 {
  lse_CompilerSecurityVersion : string;
  lse_MinimumRuntimeVersion : string;
  lse_Policy : SecurityPolicyV1;
  lse_ClientMandatoryCapabilities : list string;
  lse_RelayMandatoryCapabilities : list string;
  lse_SelectedCapabilities : list string;
}.

Record LimitsV1 := mkLimitsV1 {
  ll_MaxFrameBytes : Z;
  ll_MaxPayloadBytes : Z;
  ll_MaxSessionMillis : Z;
  ll_MaxSessionMessages : Z;
  ll_MaxKeyLifetimeMessages : Z;
}.

Record ProgramV1 := mkProgramV1 {
  lp_Schema : string;
  lp_ProgramID : bytes;
  lp_SourceSchemaVersion : string;
  lp_SourceGenerationHash : bytes;
  lp_Messages : list MessageV1;
  lp_Frame : FrameV1;
  lp_Scheduler : SchedulerV1;
  lp_Stream : StreamV1;
  lp_Padding : PaddingV1;
  lp_Security : SecurityV1;
  lp_Limits : LimitsV1;
}.

Definition DeriveProgramIDV1 `{Encoding} (source : bytes) : bytes :=
  ztake 16 (sum256 (sbytes SchemaV1 ++ [Byte.x00] ++ source)).

(** ** Validation *)

Definition allZero (value : bytes) : bool := forallb (fun b => bool_decide (b = Byte.x00)) value.

Definition safeToken (value : string) : bool :=
  if bool_decide (value = "") || (96 <? slen value) then false
  else if existsb (Contains (ToLower value))
            ["test"; "lab"; "key"; "seed"; "path"; "endpoint"; "secret"; "auth"] then false
  else tokenChars value.

Definition IsSafeWireSymbolV1 (value : string) : bool := safeToken value.

Definition exactSet (values expected : list string) : bool :=
  if negb (zlen values =? zlen expected) then false
  else bool_decide (sortStrings values = sortStrings expected).

Definition knownCapability (value : string) : bool :=
  mem value ["multi_stream"; "proxy_semantics"; "carrier_abstraction"; "adapter_interface";
    "carrier_loss_recovery"; "carrier_backpressure"; "generated_backend"; "transcript_binding";
    "replay_window"; "nonce_schedule"].

(** [previous] is the element before, if there is one. *)
Fixpoint increasingKnown (previous : option string) (values : list string) : bool :=
  match values with
  | [] => true
  | value :: rest =>
      knownCapability value
      && match previous with Some p => String.ltb p value | None => true end
      && increasingKnown (Some value) rest
  end.

Definition canonicalCapabilities (values : list string) : bool :=
  if (zlen values =? 0) || (32 <? zlen values) then false else increasingKnown None values.

Definition validateSecurity (value : SecurityV1) : result ErrorCategory unit :=
  let p := lse_Policy value in
  fail? bool_decide (lse_CompilerSecurityVersion value = "")
      || bool_decide (lse_MinimumRuntimeVersion value = "")
      || bool_decide (lsp_SecurityVersion p = "")
      || negb (mem (lsp_TranscriptMode p) ["canonical_v1"; "canonical_with_capabilities_v1";
           "canonical_with_carrier_binding_v1"; "canonical_full_binding_v1"])
      || negb (bool_decide (lsp_KDFSuite p = "kdf_hkdf_sha256"))
      || negb (bool_decide (lsp_AEADSuite p = "aead_aes_256_gcm"))
      || negb (bool_decide (lsp_MACSuite p = "mac_hmac_sha256"))
      || negb (mem (lsp_NonceMode p) ["counter_xor_base"; "counter_append_base";
           "directional_counter"; "stream_partitioned_counter"])
      || negb (mem (lsp_ReplayPolicy p) ["ordered_only"; "bounded_reorder"; "windowed_replay"])
      || (lsp_ReplayWindowSize p <=? 1) || (4096 <? lsp_ReplayWindowSize p)
      || negb (mem (lsp_DowngradePolicy p) ["strict_suite_and_capabilities"; "strict_capabilities";
           "suite_bound_transcript"])
      || negb (mem (lsp_CapabilityNegotiationPolicy p) ["strict_required";
           "intersection_with_required"; "profile_declared_required"])
      || negb (mem (lsp_ProfileCompatibilityPolicy p) ["strict_schema"; "schema_and_feature";
           "full_policy_binding"])
      || negb (mem (lsp_KeyRotationPolicy p) ["session_only"; "message_lifetime_bound";
           "profile_lifetime_bound"])
      || negb (mem (lsp_ConfigValidationPolicy p) ["strict_required"; "strict_with_redaction";
           "strict_profile_bound"])
      || negb (mem (lsp_SecureEnvelopeMode p) ["metadata_authenticated"; "synthetic_aead_test";
           "full_context_bound_envelope"])
      || (lsp_MaxSessionMessages p <? 1) || (Z.shiftl 1 24 <? lsp_MaxSessionMessages p)
      || (lsp_MaxKeyLifetimeMessages p <? 1)
      || (lsp_MaxSessionMessages p <? lsp_MaxKeyLifetimeMessages p)
    with ErrorInvalid in
  let? _ := forRange [lse_ClientMandatoryCapabilities value; lse_RelayMandatoryCapabilities value;
              lse_SelectedCapabilities value] (fun capabilities =>
      reject (negb (canonicalCapabilities capabilities)) ErrorInvalid) in
  forRange [lse_ClientMandatoryCapabilities value; lse_RelayMandatoryCapabilities value]
    (fun floor => forRange floor (fun capability =>
      reject (negb (mem capability (lse_SelectedCapabilities value))) ErrorInvalid)).

Fixpoint validateMessagesV1 (maxPayload : Z) (seenWire : list string) (messages : list MessageV1)
    : result ErrorCategory unit :=
  match messages with
  | [] => Ok tt
  | message :: rest =>
      fail? negb (IsSafeWireSymbolV1 (lm_WireSymbol message))
          || negb (bool_decide (lm_Direction message = "bidirectional"))
          || (lm_MinPayloadBytes message <? 0)
          || (lm_MaxPayloadBytes message <? lm_MinPayloadBytes message)
          || (maxPayload <? lm_MaxPayloadBytes message)
        with ErrorInvalid in
      fail? mem (lm_WireSymbol message) seenWire with ErrorSchema in
      validateMessagesV1 maxPayload (lm_WireSymbol message :: seenWire) rest
  end.

Definition isNaN (f : spec_float) : bool := match f with S754_nan => true | _ => false end.
Definition isInf (f : spec_float) : bool := match f with S754_infinity _ => true | _ => false end.

Definition ValidateV1 `{Encoding} (p : ProgramV1) : result ErrorCategory unit :=
  let frame := lp_Frame p in
  let compiled := lf_Compiled frame in
  let scheduler := lp_Scheduler p in
  let stream := lp_Stream p in
  let padding := lp_Padding p in
  let limits := lp_Limits p in
  let policy := lse_Policy (lp_Security p) in
  fail? negb (bool_decide (lp_Schema p = SchemaV1))
      || negb (bool_decide (lp_ProgramID p = DeriveProgramIDV1 (lp_SourceGenerationHash p)))
      || bool_decide (lp_SourceSchemaVersion p = "") || allZero (lp_SourceGenerationHash p)
    with ErrorInvalid in
  fail? negb (bool_decide ((lm_Semantic <$> lp_Messages p) = ["data"; "padding"])) with ErrorSchema in
  let? _ := validateMessagesV1 (ll_MaxPayloadBytes limits) [] (lp_Messages p) in
  fail? negb (mem (lf_LengthMode frame) ["varint_prefix"; "fixed_2_prefix"; "fixed_4_prefix";
           "length_suffix_lab"])
      || negb (mem (lf_TypeMode frame) ["explicit_generated_tag"; "derived_from_state";
           "derived_from_header_order"; "table_indexed_symbol"])
      || negb (mem (lf_FragmentationMode frame) ["no_fragmentation_for_small_payloads";
           "fixed_size_chunks"; "bounded_variable_chunks"; "scheduler_controlled_chunks"])
      || negb (mem (lf_ChecksumMode frame) ["none"; "crc32"])
      || negb (mem (lf_PaddingPlacement frame) ["none"; "prefix"; "suffix"; "inter_frame";
           "probabilistic"])
      || negb (exactSet (lf_HeaderOrder frame) ["length"; "type"; "stream"; "flags"])
    with ErrorInvalid in
  fail? (zlen (cf_DataTypeTag compiled) =? 0) || (255 <? zlen (cf_DataTypeTag compiled))
      || (zlen (cf_PaddingTypeTag compiled) =? 0) || (255 <? zlen (cf_PaddingTypeTag compiled))
      || bool_decide (cf_DataTypeTag compiled = cf_PaddingTypeTag compiled)
    with ErrorInvalid in
  fail? negb (mem (ls_Mode scheduler) ["max_speed"; "balanced"; "interactive_first"; "bulk_first"])
      || (ls_MaxBatchBytes scheduler <? 1) || (Z.shiftl 32 10 <? ls_MaxBatchBytes scheduler)
      || (ls_FlushIntervalMs scheduler <? 0) || (1000 <? ls_FlushIntervalMs scheduler)
      || negb (mem (ls_MaxInFlightFrames scheduler) [4; 8; 16; 32])
      || bool_decide (ls_PriorityMode scheduler = "")
    with ErrorInvalid in
  fail? negb (mem (lst_IDEncodingMode stream) ["fixed32_be"; "profile_xor32"; "table_mapped32_le";
           "varint"])
      || negb (mem (lst_MaxConcurrentStreams stream) [2; 4; 8; 16])
    with ErrorInvalid in
  fail? negb (mem (lpd_Mode padding) ["none"; "bounded"; "probabilistic"; "fixed"; "inter_frame"])
      || (lpd_MinPaddingBytes padding <? 0)
      || (lpd_MaxPaddingBytes padding <? lpd_MinPaddingBytes padding)
      || (ll_MaxFrameBytes limits <? lpd_MaxPaddingBytes padding)
      || isNaN (lpd_Probability padding) || isInf (lpd_Probability padding)
      || SFltb (lpd_Probability padding) f64_zero || SFltb f64_one (lpd_Probability padding)
      || (bool_decide (lpd_Mode padding = "none")
          && (negb (lpd_MinPaddingBytes padding =? 0) || negb (lpd_MaxPaddingBytes padding =? 0)
              || negb (SFeqb (lpd_Probability padding) f64_zero)))
    with ErrorInvalid in
  let? _ := validateSecurity (lp_Security p) in
  fail? (ll_MaxFrameBytes limits <? 1) || (Z.shiftl 1 20 <? ll_MaxFrameBytes limits)
      || (ll_MaxPayloadBytes limits <? 1) || (Z.shiftl 8 20 <? ll_MaxPayloadBytes limits)
      || (ll_MaxSessionMillis limits <? 1) || (ll_MaxSessionMessages limits <? 1)
      || (ll_MaxKeyLifetimeMessages limits <? 1)
      || (ll_MaxSessionMessages limits <? ll_MaxKeyLifetimeMessages limits)
      || negb (ll_MaxSessionMessages limits =? lsp_MaxSessionMessages policy)
      || negb (ll_MaxKeyLifetimeMessages limits =? lsp_MaxKeyLifetimeMessages policy)
    with ErrorInvalid in
  Ok tt.

(** ** What validation establishes for the codec *)

Record liveValid (p : ProgramV1) (data pad : MessageV1) : Prop := {
  lv_messages : lp_Messages p = [data; pad];
  lv_data : lm_Semantic data = SemanticData;
  lv_pad : lm_Semantic pad = SemanticPadding;
  lv_payload : 0 <= lm_MinPayloadBytes data <= lm_MaxPayloadBytes data;
  lv_limit : lm_MaxPayloadBytes data <= ll_MaxPayloadBytes (lp_Limits p);
  lv_symbols : lm_WireSymbol data <> lm_WireSymbol pad;
  lv_length : lf_LengthMode (lp_Frame p) ∈
    ["varint_prefix"; "fixed_2_prefix"; "fixed_4_prefix"; "length_suffix_lab"];
  lv_order : lf_HeaderOrder (lp_Frame p) ≡ₚ ["length"; "type"; "stream"; "flags"];
  lv_dataTag : 1 <= zlen (cf_DataTypeTag (lf_Compiled (lp_Frame p))) <= 255;
  lv_tags : cf_DataTypeTag (lf_Compiled (lp_Frame p)) <> cf_PaddingTypeTag (lf_Compiled (lp_Frame p));
  lv_batch : 1 <= ls_MaxBatchBytes (lp_Scheduler p) <= 32768;
  lv_stream : lst_IDEncodingMode (lp_Stream p) ∈
    ["fixed32_be"; "profile_xor32"; "table_mapped32_le"; "varint"];
  lv_padding : 0 <= lpd_MinPaddingBytes (lp_Padding p) <= lpd_MaxPaddingBytes (lp_Padding p);
  lv_nopad : lpd_Mode (lp_Padding p) = "none" -> lpd_MaxPaddingBytes (lp_Padding p) = 0;
  lv_frame : 1 <= ll_MaxFrameBytes (lp_Limits p) <= 1048576;
  lv_padframe : lpd_MaxPaddingBytes (lp_Padding p) <= ll_MaxFrameBytes (lp_Limits p);
}.

Lemma exactSet_permutation values expected : exactSet values expected = true -> values ≡ₚ expected.
Proof.
  unfold exactSet. destruct (zlen values =? zlen expected); [|done]. intros Hs%bool_decide_eq_true.
  pose proof (merge_sort_Permutation String.le values) as Hv.
  pose proof (merge_sort_Permutation String.le expected) as He.
  unfold sortStrings in Hs. by rewrite <- Hv, Hs, He.
Qed.

(** Reads off what a rejected disjunction of checks says. *)
Ltac read_flags :=
  repeat match goal with
  | G : _ || _ = false |- _ => apply orb_false_iff in G as []
  | G : negb _ = false |- _ => apply negb_false_iff in G
  | G : (_ <? _) = false |- _ => apply Z.ltb_ge in G
  | G : (_ =? _) = false |- _ => apply Z.eqb_neq in G
  | G : mem _ _ = true |- _ => apply mem_true in G
  | G : bool_decide _ = false |- _ => apply bool_decide_eq_false in G
  end.

Lemma ValidateV1_valid `{Encoding} p : ValidateV1 p = Ok tt -> exists data pad, liveValid p data pad.
Proof.
  unfold ValidateV1. intros HV.
  apply reject_bind_ok in HV as [_ HV].
  apply reject_bind_ok in HV as [Hm%negb_false_iff%bool_decide_eq_true HV].
  apply rbind_ok in HV as ([] & HM & HV). apply reject_bind_ok in HV as [Hf HV].
  apply reject_bind_ok in HV as [Ht HV]. apply reject_bind_ok in HV as [Hsch HV].
  apply reject_bind_ok in HV as [Hst HV]. apply reject_bind_ok in HV as [Hpd HV].
  apply rbind_ok in HV as ([] & _ & HV). apply reject_bind_ok in HV as [Hl _].
  destruct (lp_Messages p) as [|data [|pad [|]]] eqn:EM; [done|done| |done].
  injection Hm as Hd Hp. exists data, pad.
  cbn [validateMessagesV1] in HM. apply reject_bind_ok in HM as [HM1 HM].
  apply reject_bind_ok in HM as [_ HM]. apply reject_bind_ok in HM as [_ HM].
  apply reject_bind_ok in HM as [HM2%mem_false _].
  read_flags.
  change (Z.shiftl 32 10) with 32768 in *. change (Z.shiftl 1 20) with 1048576 in *.
  assert (1 <= zlen (cf_DataTypeTag (lf_Compiled (lp_Frame p))) <= 255).
  { pose proof (zlen_nonneg (cf_DataTypeTag (lf_Compiled (lp_Frame p)))). lia. }
  constructor; try done; try lia.
  - intros E. apply HM2. rewrite E. apply list_elem_of_singleton. done.
  - by apply exactSet_permutation.
  - intros Hmode. match goal with G : bool_decide _ && _ = false |- _ =>
      rewrite bool_decide_eq_true_2 in G by done; cbn [andb] in G; clear - G end.
    read_flags. by apply Z.eqb_eq.
Qed.
