(* ===== verification/LiveFraming.v ===== *)
(** * Framing over live programs

    The live-program half of [src/internal/protocol/framing/codec_spec_v1.go]
    and [codec.go], and [live_data_buffer_v3.go]: the data codec that encodes
    into and decodes from buffers of the caller. A buffer is its address and
    its bytes; the codec refuses overlapping buffers before it writes anything,
    so afterwards each one is written independently of the others. *)

From S2P Require Import Prelude GoBytes Ir Validate Scheduler Padding Framing LiveProgram.
From Stdlib Require Import ZArith Lia Strings.Byte.
From stdpp Require Import base list sets strings.
Local Open Scope Z_scope.

(** ** The spec of a live program *)

Definition liveSpec (program : ProgramV1) (data pad : MessageV1) : codecSpec :=
  let frame := lp_Frame program in
  let compiled := lf_Compiled frame in
  mkSpec [mkCodecMessage (lm_Semantic data) (lm_WireSymbol data) (cf_DataTypeTag compiled);
          mkCodecMessage (lm_Semantic pad) (lm_WireSymbol pad) (cf_PaddingTypeTag compiled)]
    (lf_LengthMode frame) (lf_ChecksumMode frame) (lf_HeaderOrder frame) (lf_FragmentationMode frame)
    (lf_PaddingPlacement frame)
    (mkPaddingPolicy (lpd_Mode (lp_Padding program)) (lpd_MinPaddingBytes (lp_Padding program))
       (lpd_MaxPaddingBytes (lp_Padding program)) (lpd_Probability (lp_Padding program)))
    (ll_MaxFrameBytes (lp_Limits program)) (ll_MaxPayloadBytes (lp_Limits program))
    (ls_MaxBatchBytes (lp_Scheduler program)) (lst_IDEncodingMode (lp_Stream program))
    (cf_ProfileXORStreamMask compiled) (cf_TableStreamMask compiled) (cf_CRC32PrefixState compiled).

(** A valid program has exactly two messages; indexing past them would panic. *)
Definition codecSpecFromLiveProgram `{Encoding} (program : ProgramV1) : result frame_error codecSpec :=
  let? _ := map_err (fun _ => FrameErrorf "live program framing rejected") (ValidateV1 program) in
  match lp_Messages program with
  | [data; pad] => Ok (liveSpec program data pad)
  | _ => Err (FrameErrorf "index out of range")
  end.

Definition EncodeLiveOperation `{Encoding, Rand} (program : ProgramV1) (op : Operation) (seed : Z)
    : result frame_error (list bytes) :=
  let? spec := codecSpecFromLiveProgram program in encodeOperationWithSpec spec op seed.

Definition DecodeLiveFrames `{Encoding} (program : ProgramV1) (frames : list bytes)
    : result frame_error (Operation * list DecodedFrame) :=
  let? spec := codecSpecFromLiveProgram program in decodeFramesWithSpec spec frames.

(** ** Buffers *)

Definition byteSlicesOverlap (a b : Slice) : bool :=
  if (sl_len a =? 0) || (sl_len b =? 0) then false
  else if sl_base a <=? sl_base b then sl_base b - sl_base a <? sl_len a
  else sl_base a - sl_base b <? sl_len b.

Record FrameSpanV3 := mkSpan { sp_Offset : Z; sp_Length : Z }.

(** The span table: where it lies in memory, and its entries of eight bytes. *)
Record SpanTable := mkSpans { st_base : Z; st_spans : list FrameSpanV3 }.

Definition spanBytes (t : SpanTable) : Slice :=
  mkSlice (st_base t) (replicate (length (st_spans t) * 8) Byte.x00).

Record LiveDataInfoV3 := mkInfo { di_StreamID : Z; di_PayloadBytes : Z }.

Record LiveDataBoundsV3 := mkBounds {
  lb_FrameBytes : Z;
  lb_LargestFrameBytes : Z;
  lb_FrameCount : Z;
  lb_PaddingBytes : Z;
}.

Inductive live_error :=
  | ErrLiveDataBufferV3
  | LiveFrame (e : frame_error).

(** ** The codec *)

Section codec.
Context `{Encoding, Rand}.

Record LiveDataCodecV3 := mkLiveCodec {
  lc_spec : codecSpec;
  lc_minPayload : Z;
  lc_maxPayload : Z;
  lc_chunk : Z;
  lc_engine : Engine;
}.

Definition NewLiveDataCodecV3 (program : ProgramV1) : result live_error LiveDataCodecV3 :=
  let? spec := map_err LiveFrame (codecSpecFromLiveProgram program) in
  match lp_Messages program with
  | message :: _ =>
      fail? (8 <? lm_MinPayloadBytes message) || (lm_MaxPayloadBytes message <? 272)
        with ErrLiveDataBufferV3 in
      let chunk := maxBatchBytes spec in
      let frameChunk := maxFrameBytes spec - 512 in
      let chunk := if (chunk <=? 0) || (frameChunk <? chunk) then frameChunk else chunk in
      let mode := fragmentationMode spec in
      let chunk :=
        if bool_decide (mode = "fixed_size_chunks") then Z.min chunk 4096
        else if bool_decide (mode = "bounded_variable_chunks") then Z.min chunk 6144
        else if bool_decide (mode = "scheduler_controlled_chunks") then Z.min chunk (maxBatchBytes spec)
        else Z.min chunk 16384 in
      let chunk := Z.max chunk 1 in
      Ok (mkLiveCodec spec (lm_MinPayloadBytes message)
            (Z.min (lm_MaxPayloadBytes message) (maxPayloadBytes spec)) chunk (New (padding spec) 0))
  | [] => Err ErrLiveDataBufferV3
  end.

Definition dataTag (spec : codecSpec) : bytes :=
  match messages spec with m :: _ => typeTag m | [] => [] end.

(** The closure [frameSize] of [Bounds]. *)
Definition boundFrameSize (spec : codecSpec) (q n : Z) : result live_error Z :=
  let body := zlen (dataTag spec) + 4 + 9 + 51 + n + q + checksumSize spec in
  fail? (maxFrameBytes spec <? body) || (4294967295 <? body) with ErrLiveDataBufferV3 in
  let? wrapper := map_err LiveFrame (lengthWrapperSize spec body) in
  Ok (body + wrapper).

Definition Bounds (c : LiveDataCodecV3) (payloadBytes : Z) : result live_error LiveDataBoundsV3 :=
  fail? (payloadBytes <=? 0) || (payloadBytes <? lc_minPayload c) || (lc_maxPayload c <? payloadBytes)
    with ErrLiveDataBufferV3 in
  let count := 1 + Z.quot (payloadBytes - 1) (lc_chunk c) in
  fail? 256 <? count with ErrLiveDataBufferV3 in
  let spec := lc_spec c in
  let q := if bool_decide (pp_Mode (padding spec) = "none") then 0
           else pp_MaxPaddingBytes (padding spec) in
  fail? 65535 <? q with ErrLiveDataBufferV3 in
  let last := payloadBytes - (count - 1) * lc_chunk c in
  let? tail := boundFrameSize spec q last in
  let? (largest, total) :=
    (if 1 <? count then
       let? full := boundFrameSize spec q (lc_chunk c) in
       Ok (Z.max full tail, tail + (count - 1) * full)
     else Ok (tail, tail)) in
  fail? (4294967295 <? total) || (4294967295 <? largest) with ErrLiveDataBufferV3 in
  Ok (mkBounds total largest count q).

(** The operation whose metadata the codec writes. *)
Definition dataOperation (streamID sequence : Z) (payload : bytes) : Operation :=
  mkOperation SemanticData streamID sequence 0 0 "" "" false payload 0 "" "" "" "" "" "" "" "" 0 0 0.

(** One round per fragment. An error of the padding engine counts as no
    padding and an error of the size computation as an empty frame, as in the
    source, which ignores both. *)
Fixpoint encodeLoop (c : LiveDataCodecV3) (b : LiveDataBoundsV3) (streamID : Z) (metadata : bytes)
    (fuel : nat) (i pos offset : Z) (payload frames scratch : bytes) (spans : list FrameSpanV3)
    : LiveDataCodecV3 * bytes * bytes * list FrameSpanV3 * Z :=
  match fuel with
  | O => (c, frames, scratch, spans, pos)
  | S fuel =>
      let spec := lc_spec c in
      let size := Z.min (lc_chunk c) (zlen payload - offset) in
      let '(engine, (used, padLen)) := GenerateInto (lc_engine c) (ztake (lb_PaddingBytes b) scratch) in
      let padLen := match padLen with Ok n => n | Err _ => 0 end in
      let scratch := used ++ zdrop (lb_PaddingBytes b) scratch in
      let c := mkLiveCodec spec (lc_minPayload c) (lc_maxPayload c) (lc_chunk c) engine in
      let msg := match messages spec with m :: _ => m | [] => mkCodecMessage "" "" [] end in
      let '(body, wrapper) :=
        match frameSizeWithSpec spec msg streamID (zlen metadata + size + padLen) with
        | Ok bw => bw
        | Err _ => (0, 0)
        end in
      let n := body + wrapper in
      let frame := writeFrameWithSpec spec msg streamID metadata (slice offset (offset + size) payload)
                     (ztake padLen scratch) i (lb_FrameCount b) in
      encodeLoop c b streamID metadata fuel (i + 1) (pos + n) (offset + size) payload
        (writeAt frames pos (ztake n frame)) scratch (<[Z.to_nat i := mkSpan pos n]> spans)
  end.

(** Everything that can be refused is refused before anything is written. *)
Definition encodeDataInto (c : LiveDataCodecV3) (framesDst paddingScratch payload : Slice)
    (streamID seed : Z) (spans : option SpanTable) (sequence : Z)
    : LiveDataCodecV3 * bytes * bytes * list FrameSpanV3 * result live_error (Z * Z) :=
  let keep e := (c, sl_bytes framesDst, sl_bytes paddingScratch, from_option st_spans [] spans, Err e) in
  match Bounds c (sl_len payload) with
  | Err e => keep e
  | Ok b =>
      match spans with
      | None => keep ErrLiveDataBufferV3
      | Some table =>
          if (streamID <? 2) || (65534 <? streamID) || (sl_len framesDst <? lb_FrameBytes b)
             || (sl_len paddingScratch <? lb_PaddingBytes b)
          then keep ErrLiveDataBufferV3
          else if byteSlicesOverlap framesDst paddingScratch || byteSlicesOverlap framesDst payload
                  || byteSlicesOverlap paddingScratch payload
                  || byteSlicesOverlap (spanBytes table) framesDst
                  || byteSlicesOverlap (spanBytes table) paddingScratch
                  || byteSlicesOverlap (spanBytes table) payload
          then keep ErrLiveDataBufferV3
          else
            let engine := ResetSeed (lc_engine c) seed in
            let c := mkLiveCodec (lc_spec c) (lc_minPayload c) (lc_maxPayload c) (lc_chunk c) engine in
            let metadata := writeOperationMetadata (dataOperation 0 sequence []) in
            let '(c, frames, scratch, spans, pos) :=
              encodeLoop c b streamID metadata (Z.to_nat (lb_FrameCount b)) 0 0 0 (sl_bytes payload)
                (sl_bytes framesDst) (sl_bytes paddingScratch) (st_spans table) in
            (c, frames, scratch, spans, Ok (pos, lb_FrameCount b))
      end
  end.

Definition EncodeInto c framesDst paddingScratch payload streamID seed spans :=
  encodeDataInto c framesDst paddingScratch payload streamID seed spans 0.

Definition EncodePacketV2Into c framesDst paddingScratch payload streamID seed spans :=
  encodeDataInto c framesDst paddingScratch payload streamID seed spans streamID.

(** ** Decoding into a buffer *)

(** The spans are consecutive, non-empty and cover the input. *)
Fixpoint coverLoop (size end_ : Z) (spans : list FrameSpanV3) : result live_error Z :=
  match spans with
  | [] => Ok end_
  | span :: rest =>
      fail? (sp_Length span =? 0) || negb (sp_Offset span =? end_) with ErrLiveDataBufferV3 in
      fail? size <? end_ + sp_Length span with ErrLiveDataBufferV3 in
      coverLoop size (end_ + sp_Length span) rest
  end.

(** A 32-bit field read into a 64-bit [int] is never negative. *)
Definition validOperation (v : metadataView) : bool :=
  forallb (fun offset => negb (int64_of (get_be (slice offset (offset + 4) (fixed v))) <? 0))
    [16; 29; 33; 37].

Definition checkView (c : LiveDataCodecV3) (count i total : Z) (expected part : frameView)
    : result live_error unit :=
  let fragment k := LiveFrame (FragmentError k) in
  fail? negb (fv_fragCount part =? fv_fragCount expected) with fragment FragmentErrorConflictingCount in
  fail? count <=? fv_fragIndex part with fragment FragmentErrorOutOfRange in
  fail? fv_fragIndex part <? i with fragment FragmentErrorDuplicate in
  fail? negb (fv_fragIndex part =? i) with fragment FragmentErrorReordered in
  fail? negb (bool_decide (semantic (fv_msg part) = semantic (fv_msg expected)))
    with fragment FragmentErrorSemantic in
  fail? negb (fv_streamID part =? fv_streamID expected) with fragment FragmentErrorStream in
  fail? negb (bool_decide (wireSymbol (fv_msg part) = wireSymbol (fv_msg expected)))
    with fragment FragmentErrorMessage in
  fail? negb (validOperation (fv_metadata part))
      || negb (viewEqual (fv_metadata part) (fv_metadata expected))
    with fragment FragmentErrorOperation in
  fail? negb (bool_decide (semantic (fv_msg part) = "data")) || (fv_streamID part <? 2)
      || (65534 <? fv_streamID part) || (maxFrameBytes (lc_spec c) <? fv_bodyBytes part)
      || (lc_maxPayload c - total <? zlen (fv_payload part))
    with ErrLiveDataBufferV3 in
  Ok tt.

Definition spanFrame (frameBytes : bytes) (span : FrameSpanV3) : bytes :=
  slice (sp_Offset span) (sp_Offset span + sp_Length span) frameBytes.

(** [expected] is the first view once it has been read. *)
Fixpoint checkLoop (c : LiveDataCodecV3) (frameBytes : bytes) (count i total : Z)
    (expected : option frameView) (spans : list FrameSpanV3)
    : result live_error (option frameView * Z) :=
  match spans with
  | [] => Ok (expected, total)
  | span :: rest =>
      let? part := map_err LiveFrame (parseFrameView (lc_spec c) (spanFrame frameBytes span)) in
      let? first :=
        match expected with
        | Some first => Ok first
        | None => fail? negb (fv_fragCount part =? count)
                    with LiveFrame (FragmentError FragmentErrorMissing) in Ok part
        end in
      let? _ := checkView c count i total first part in
      checkLoop c frameBytes count (i + 1) (total + zlen (fv_payload part)) (Some first) rest
  end.

(** [copy(payloadDst[pos:total], part.payload)] for each fragment, parsed again. *)
Fixpoint copyLoop (c : LiveDataCodecV3) (frameBytes : bytes) (total pos : Z) (dst : bytes)
    (spans : list FrameSpanV3) : bytes :=
  match spans with
  | [] => dst
  | span :: rest =>
      let payload := match parseFrameView (lc_spec c) (spanFrame frameBytes span) with
                     | Ok part => fv_payload part
                     | Err _ => []
                     end in
      let copied := ztake (total - pos) payload in
      copyLoop c frameBytes total (pos + zlen copied) (writeAt dst pos copied) rest
  end.

Definition DecodeInto (c : LiveDataCodecV3) (payloadDst frameBytes : Slice) (spans : SpanTable)
    : bytes * result live_error LiveDataInfoV3 :=
  let dst := sl_bytes payloadDst in
  let table := st_spans spans in
  let outcome :=
    fail? zlen table =? 0 with LiveFrame (FragmentError FragmentErrorEmpty) in
    fail? (256 <? zlen table) || byteSlicesOverlap payloadDst frameBytes with ErrLiveDataBufferV3 in
    fail? byteSlicesOverlap payloadDst (spanBytes spans) with ErrLiveDataBufferV3 in
    let? end_ := coverLoop (sl_len frameBytes) 0 table in
    fail? negb (end_ =? sl_len frameBytes) with ErrLiveDataBufferV3 in
    let? (expected, total) := checkLoop c (sl_bytes frameBytes) (zlen table) 0 0 None table in
    fail? (total <=? 0) || (total <? lc_minPayload c) || (sl_len payloadDst <? total)
      with ErrLiveDataBufferV3 in
    match expected with
    | Some first => Ok (mkInfo (fv_streamID first) total)
    | None => Err ErrLiveDataBufferV3
    end in
  match outcome with
  | Err e => (dst, Err e)
  | Ok info => (copyLoop c (sl_bytes frameBytes) (di_PayloadBytes info) 0 dst table, Ok info)
  end.

End codec.

(** ** A live program's spec *)

(** The masks and the checksum state are [uint32] in the source. *)
Definition liveTyped (program : ProgramV1) : Prop :=
  let compiled := lf_Compiled (lp_Frame program) in
  u32 (cf_ProfileXORStreamMask compiled) /\ u32 (cf_TableStreamMask compiled) /\
  u32 (cf_CRC32PrefixState compiled).

Lemma codecSpec_live `{Encoding} program spec : codecSpecFromLiveProgram program = Ok spec ->
  exists data pad, liveValid program data pad /\ spec = liveSpec program data pad.
Proof.
  unfold codecSpecFromLiveProgram. intros ([] & HV%map_err_ok & HS)%rbind_ok.
  destruct (ValidateV1_valid _ HV) as (data & pad & HL). exists data, pad. split; [done|].
  rewrite (lv_messages _ _ _ HL) in HS. by injection HS as <-.
Qed.

Section live.
Context (program : ProgramV1) (data pad : MessageV1).
Context (HL : liveValid program data pad) (HT : liveTyped program).

Let spec := liveSpec program data pad.
Let dataMsg := mkCodecMessage (lm_Semantic data) (lm_WireSymbol data)
                 (cf_DataTypeTag (lf_Compiled (lp_Frame program))).

Lemma live_goodSpec : goodSpec spec.
Proof using HL HT.
  destruct HT as (T1 & T2 & T3).
  constructor; try done; [apply (lv_length _ _ _ HL)| | | |apply (lv_frame _ _ _ HL)];
    unfold spec; cbn [headerOrder liveSpec]; rewrite (lv_order _ _ _ HL); set_solver.
Qed.

Lemma live_semantic : messageBySemantic spec SemanticData = Some dataMsg.
Proof using HL.
  unfold messageBySemantic, spec, dataMsg. cbn [liveSpec messages].
  cbn [list_find].
  rewrite decide_True by apply (lv_data _ _ _ HL). done.
Qed.

Lemma live_tag : messageByTag spec (typeTag dataMsg) = Some dataMsg.
Proof using HL.
  unfold messageByTag, spec, dataMsg. cbn [liveSpec messages typeTag list_find].
  by rewrite decide_True.
Qed.

(** The header of a data frame has a fixed size but for the stream id. *)
Lemma sumFields_fits msg n limit size fields : 0 <= n ->
  size + foldr (fun f s => fieldSize msg n f + s) 0 fields <= limit ->
  sumFields msg n limit size fields = Ok (size + foldr (fun f s => fieldSize msg n f + s) 0 fields).
Proof using Type.
  intros Hn.
  assert (Hf : forall f, 0 <= fieldSize msg n f).
  { intros f. unfold fieldSize. pose proof (zlen_nonneg (typeTag msg)). repeat case_bool_decide; lia. }
  assert (Hs : forall l, 0 <= foldr (fun f s => fieldSize msg n f + s) 0 l).
  { induction l as [|f l IH]; simpl; [done|]. specialize (Hf f). lia. }
  revert size. induction fields as [|f fields IH]; intros size Hl; simpl in *.
  { by rewrite Z.add_0_r. }
  specialize (Hs fields). destruct (Z.ltb_spec (limit - size) (fieldSize msg n f)); [lia|].
  cbn [reject rbind]. rewrite IH by lia. f_equal. lia.
Qed.

Lemma header_total msg n : 
  foldr (fun f s => fieldSize msg n f + s) 0 (headerOrder spec) = zlen (typeTag msg) + n + 9.
Proof using HL.
  assert (forall l l' : list string, l ≡ₚ l' ->
    foldr (fun f s => fieldSize msg n f + s) 0 l = foldr (fun f s => fieldSize msg n f + s) 0 l') as Hp.
  { induction 1; simpl; lia. }
  etransitivity; [exact (Hp _ _ (lv_order _ _ _ HL))|]. cbn [foldr].
  change (fieldSize msg n "length") with 0. change (fieldSize msg n "type") with (1 + zlen (typeTag msg)).
  change (fieldSize msg n "stream") with (1 + n). change (fieldSize msg n "flags") with 7. lia.
Qed.

Lemma uvarint_short x : 0 <= x < 2097152 -> zlen (PutUvarint x) <= 3.
Proof using Type.
  intros Hx. rewrite uvarintSize_exact by (unfold_widths; lia).
  assert (Hs : Z.shiftr (Z.shiftr x 7) 7 < 128).
  { rewrite Z.shiftr_shiftr, Z.shiftr_div_pow2 by lia. apply Z.div_lt_upper_bound; [done|].
    change (2 ^ (7 + 7) * 128) with 2097152. lia. }
  unfold uvarintSize. cbn [uvarintRounds]. destruct (Z.leb_spec 128 x); [|lia].
  destruct (Z.leb_spec 128 (Z.shiftr x 7)); [|lia].
  destruct (Z.leb_spec 128 (Z.shiftr (Z.shiftr x 7) 7)); lia.
Qed.

(** Stream ids of data frames take at most four bytes. *)
Lemma live_stream id : 2 <= id <= 65534 ->
  exists stream, writeStreamID spec id = Ok stream /\ 0 <= zlen stream <= 4.
Proof using HL.
  intros Hid. pose proof (lv_stream _ _ _ HL) as Hm. unfold writeStreamID.
  change (streamEncodingMode spec) with (lst_IDEncodingMode (lp_Stream program)).
  rewrite !elem_of_cons, elem_of_nil in Hm.
  destruct Hm as [->|[->|[->|[->|[]]]]].
  - by exists (PutUint32 id).
  - by exists (PutUint32 (Z.lxor id (profileXORStreamMask spec))).
  - by exists (PutUint32LE (Z.lxor id (tableStreamMask spec))).
  - exists (PutUvarint id). split; [reflexivity|]. pose proof (uvarint_short id). 
    pose proof (zlen_nonneg (PutUvarint id)). lia.
Qed.

Lemma lengthWrapper_mono a b w : 0 <= a <= b -> b <= 1048576 -> lengthWrapperSize spec b = Ok w ->
  exists w', lengthWrapperSize spec a = Ok w' /\ w' <= w.
Proof using Type.
  intros Hab Hb. unfold lengthWrapperSize. case_bool_decide.
  { intros [= <-]. eexists. split; [reflexivity|]. rewrite !wrap64_small by (unfold_widths; lia).
    rewrite <- !uvarintSize_exact by (unfold_widths; lia). unfold PutUvarint.
    generalize 10%nat. intros fuel. clear Hb. revert a b Hab.
    induction fuel as [|fuel IH]; intros a b Hab; [done|]. cbn [put_uvarint].
    destruct (Z.ltb_spec a 128), (Z.ltb_spec b 128); rewrite ?zlen_cons, ?zlen_nil; try lia.
    - pose proof (zlen_nonneg (put_uvarint fuel (Z.shiftr b 7))). lia.
    - specialize (IH (Z.shiftr a 7) (Z.shiftr b 7)). rewrite !Z.shiftr_div_pow2 in * by lia.
      pose proof (Z.div_pos a (2 ^ 7) ltac:(lia) ltac:(lia)).
      pose proof (Z.div_le_mono a b (2 ^ 7) ltac:(lia) ltac:(lia)). lia. }
  case_bool_decide.
  { intros [Hlt%Z.ltb_ge Hw]%reject_bind_ok. destruct (Z.ltb_spec 65535 a); [lia|]. exists 2.
    split; [done|]. by injection Hw as <-. }
  destruct (mem _ _); [|done]. intros [= <-]. by exists 4.
Qed.

Lemma wrapper_range b w : lengthWrapperSize spec b = Ok w -> 1 <= w <= 10.
Proof using Type.
  unfold lengthWrapperSize. case_bool_decide.
  - intros [= <-]. apply uvarintSize_range, wrap64_range.
  - case_bool_decide; [intros [_ Hx]%reject_bind_ok; injection Hx as <-; lia|].
    destruct (mem _ _); [intros [= <-]; lia|done].
Qed.

(** The size reserved by [Bounds] covers every frame with that much payload. *)
Lemma live_frame_fits q n B id size padLen : 2 <= id <= 65534 -> boundFrameSize spec q n = Ok B ->
  0 <= size <= n -> 0 <= padLen <= q ->
  exists body w, frameSizeWithSpec spec dataMsg id (51 + size + padLen) = Ok (body, w) /\ body + w <= B.
Proof using HL.
  intros Hid HB Hn Hq. unfold boundFrameSize in HB. cbv zeta in HB.
  change (dataTag spec) with (typeTag dataMsg) in HB.
  apply reject_bind_ok in HB as [[C1%Z.ltb_ge C2%Z.ltb_ge]%orb_false_iff HB].
  apply rbind_ok in HB as (wb & Hw%map_err_ok & HB). apply Ok_inj in HB as <-.
  destruct (live_stream id Hid) as (stream & Hs & Hsl).
  pose proof (lv_dataTag _ _ _ HL) as Htag. change (cf_DataTypeTag _) with (typeTag dataMsg) in Htag.
  pose proof (lv_frame _ _ _ HL) as Hmax. change (ll_MaxFrameBytes _) with (maxFrameBytes spec) in Hmax.
  assert (Hck : 0 <= checksumSize spec <= 4) by (unfold checksumSize; case_bool_decide; lia).
  destruct (lengthWrapper_mono (zlen (typeTag dataMsg) + zlen stream + 9 + (51 + size + padLen) + checksumSize spec)
    (zlen (typeTag dataMsg) + 4 + 9 + 51 + n + q + checksumSize spec) wb ltac:(lia) ltac:(lia) Hw)
    as (w & Hw' & Hle).
  exists (zlen (typeTag dataMsg) + zlen stream + 9 + (51 + size + padLen) + checksumSize spec), w.
  split; [|lia]. unfold frameSizeWithSpec.
  destruct (Z.ltb_spec (51 + size + padLen) 0); [lia|].
  destruct (Z.ltb_spec (maxFrameBytes spec) (51 + size + padLen)); [lia|]. cbn [orb reject rbind].
  destruct (Z.ltb_spec (maxFrameBytes spec - (51 + size + padLen)) (checksumSize spec)); [lia|].
  cbn [reject rbind]. unfold headerFieldsSize. rewrite Hs. cbn [rbind].
  destruct (Z.ltb_spec 255 (zlen (typeTag dataMsg))); [lia|]. cbn [reject rbind].
  match goal with |- context [?l <? 0] => destruct (Z.ltb_spec l 0); [lia|] end. cbn [reject rbind].
  rewrite sumFields_fits by (rewrite ?header_total; lia). cbn [rbind]. rewrite header_total, Z.add_0_l.
  rewrite Hw'. cbn [rbind].
  pose proof (wrapper_range _ _ Hw').
  match goal with |- context [?l <? w] => destruct (Z.ltb_spec l w); [unfold_widths; lia|] end. done.
Qed.

Lemma data_metadata id seq payload :
  encodeOperationMetadata (dataOperation id seq payload) = Ok (writeOperationMetadata (dataOperation 0 seq [])).
Proof using Type. reflexivity. Qed.

Lemma data_metadata_size seq : zlen (writeOperationMetadata (dataOperation 0 seq [])) = 51.
Proof using Type.
  unfold writeOperationMetadata, PutUint64, PutUint32.
  rewrite !zlen_app, !zlen_put_be. reflexivity.
Qed.

Lemma live_frame q n B id seq payload chunk padding_ i c : 2 <= id <= 65534 ->
  boundFrameSize spec q n = Ok B -> zlen chunk = n -> zlen padding_ <= q ->
  (padding_ = [] \/ pp_MinPaddingBytes (padding spec) <= zlen padding_ <= pp_MaxPaddingBytes (padding spec)) ->
  let meta := writeOperationMetadata (dataOperation 0 seq []) in
  let frame := writeFrameWithSpec spec dataMsg id meta chunk padding_ i c in
  encodeFrameWithSpec spec (withPayload (dataOperation id seq payload) chunk) padding_ i c = Ok frame /\
  zlen frame <= B /\
  exists body w, frameSizeWithSpec spec dataMsg id (zlen meta + n + zlen padding_) = Ok (body, w) /\
    zlen frame = body + w.
Proof using HL.
  intros Hid HB Hchunk Hq Hpad meta frame.
  pose proof (zlen_nonneg chunk). pose proof (zlen_nonneg padding_).
  destruct (live_frame_fits q n B id n (zlen padding_)) as (body & w & Hsize & Hle); [done|done|lia|lia|].
  assert (HE : encodeFrameWithSpec spec (withPayload (dataOperation id seq payload) chunk) padding_ i c = Ok frame).
  { unfold encodeFrameWithSpec. change (Semantic _) with SemanticData. rewrite live_semantic.
    assert (Hpb : (0 <? zlen padding_) && ((zlen padding_ <? pp_MinPaddingBytes (padding spec))
                     || (pp_MaxPaddingBytes (padding spec) <? zlen padding_)) = false).
    { destruct Hpad as [->|Hpad]; [done|]. destruct (Z.ltb_spec (zlen padding_) (pp_MinPaddingBytes (padding spec)));
        [lia|]. destruct (Z.ltb_spec (pp_MaxPaddingBytes (padding spec)) (zlen padding_)); [lia|].
      apply andb_false_r. }
    rewrite Hpb. cbn [reject rbind].
    change (encodeOperationMetadata (withPayload (dataOperation id seq payload) chunk)) with (Ok (E := frame_error) meta).
    cbn [rbind]. change (Payload (withPayload (dataOperation id seq payload) chunk)) with chunk.
    change (StreamID (withPayload (dataOperation id seq payload) chunk)) with id.
    pose proof Hsize as HS. unfold frameSizeWithSpec in HS.
    apply reject_bind_ok in HS as [[_ C%Z.ltb_ge]%orb_false_iff _].
    assert (Hm : zlen meta = 51) by apply data_metadata_size.
    cbn [addSizes]. destruct (Z.ltb_spec (maxFrameBytes spec - 0) (zlen meta)); [lia|]. cbn [reject rbind].
    destruct (Z.ltb_spec (maxFrameBytes spec - (0 + zlen meta)) (zlen chunk)); [lia|]. cbn [reject rbind].
    destruct (Z.ltb_spec (maxFrameBytes spec - (0 + zlen meta + zlen chunk)) (zlen padding_)); [lia|].
    cbn [reject rbind]. replace (0 + zlen meta + zlen chunk + zlen padding_) with (51 + n + zlen padding_) by lia.
    rewrite Hsize. done. }
  split; [done|].
  pose proof (lv_frame _ _ _ HL) as Hmax. change (ll_MaxFrameBytes _) with (maxFrameBytes spec) in Hmax.
  destruct (encodeFrame_encoded spec _ padding_ i c frame ltac:(unfold_widths; lia) HE)
    as (m & st & meta' & h & b & w' & [E1 E2 E3 E4 E5 E6 E7 E8 E9 [E10 E10'] E11]).
  change (Semantic _) with SemanticData in E1. rewrite live_semantic in E1. injection E1 as <-.
  rewrite metadata_payload, data_metadata in E4. injection E4 as <-. fold meta in E8.
  change (Payload (withPayload _ chunk)) with chunk in E8. change (StreamID _) with id in E8.
  rewrite Hchunk in E8. pose proof E8 as E8'. unfold meta in E8'. rewrite data_metadata_size, Hsize in E8'.
  injection E8' as Eb Ew. split; [lia|]. exists (zlen b), w'. split; [done|lia].
Qed.

(** ** Encoding into a buffer is the allocating encoder *)

(** The spans of consecutive frames. *)
Fixpoint spansOf (pos : Z) (frames : list bytes) : list FrameSpanV3 :=
  match frames with
  | [] => []
  | f :: rest => mkSpan pos (zlen f) :: spansOf (pos + zlen f) rest
  end.

Lemma length_spansOf pos frames : length (spansOf pos frames) = length frames.
Proof using Type. revert pos. induction frames; intros; simpl; auto. Qed.

Definition boundOf (q n : Z) : Z := match boundFrameSize spec q n with Ok B => B | Err _ => 0 end.
Definition boundSum (q : Z) (sizes : list Z) : Z := foldr (fun n s => boundOf q n + s) 0 sizes.

Section loop.
Context `{R : Rand} {RL : RandLaws R}.

Lemma Generate_policy e : policy (fst (Generate e)) = policy e.
Proof using Type.
  unfold Generate. case_bool_decide; [done|]. pose proof (selectSize_policy e) as Hp.
  destruct (selectSize e) as [e' [[size []]|err]]; cbn [fst] in *; try done.
  by destruct (fill _ _).
Qed.

(** What a codec of this program looks like, whatever its random state. *)
Record codecOf (c : LiveDataCodecV3) : Prop := {
  co_spec : lc_spec c = spec;
  co_min : lc_minPayload c = lm_MinPayloadBytes data;
  co_max : lc_maxPayload c = Z.min (lm_MaxPayloadBytes data) (maxPayloadBytes spec);
  co_chunk : lc_chunk c = chunkLimit (fragmentationMode spec) (maxBatchBytes spec) (maxFrameBytes spec);
  co_engine : policy (lc_engine c) = padding spec;
}.

(** One round of padding in the caller's scratch buffer. *)
Lemma round_padding e q scratch : policy e = padding spec ->
  pp_MaxPaddingBytes (padding spec) <= q <= zlen scratch ->
  exists pad_, snd (Generate e) = Ok pad_ /\
    GenerateInto e (ztake q scratch) = (fst (Generate e), (pad_ ++ zdrop (zlen pad_) (ztake q scratch), Ok (zlen pad_))) /\
    (pad_ = [] \/ pp_MinPaddingBytes (padding spec) <= zlen pad_ <= pp_MaxPaddingBytes (padding spec)) /\
    zlen pad_ <= q.
Proof using HL RL.
  intros He Hq. pose proof (lv_padding _ _ _ HL) as Hp. pose proof (lv_padframe _ _ _ HL) as Hpf.
  pose proof (lv_frame _ _ _ HL) as Hf.
  change (lpd_MinPaddingBytes (lp_Padding program)) with (pp_MinPaddingBytes (padding spec)) in Hp.
  change (lpd_MaxPaddingBytes (lp_Padding program)) with (pp_MaxPaddingBytes (padding spec)) in Hp, Hpf.
  assert (Hzt : zlen (ztake q scratch) = q) by (apply zlen_ztake; lia).
  destruct (generate_into e (ztake q scratch)) as (pad_ & G1 & G2 & G3); rewrite ?He; try (unfold_widths; lia).
  rewrite He in G3. exists pad_. split; [done|]. split; [done|]. split; [done|].
  destruct G3 as [->|G3]; [rewrite zlen_nil|]; lia.
Qed.

Lemma boundSum_nonneg q fuel chunk n : 0 <= q -> 1 <= chunk -> 0 <= boundSum q (cutSizes fuel chunk n).
Proof using Type.
  intros Hq Hc. revert n. induction fuel as [|fuel IH]; intros n; [done|]. cbn [cutSizes].
  destruct (Z.ltb_spec 0 n) as [Hn|]; [|done]. cbn [boundSum foldr]. fold (boundSum q). specialize (IH (n - Z.min chunk n)).
  assert (0 <= boundOf q (Z.min chunk n)); [|unfold boundSum in *; lia].
  unfold boundOf, boundFrameSize. cbv zeta. destruct (_ || _); [done|]. cbn [reject rbind].
  destruct (lengthWrapperSize _ _) as [w|] eqn:Hw; [|done]. cbn [map_err rbind].
  pose proof (wrapper_range _ _ Hw).
  pose proof (zlen_nonneg (dataTag spec)).
  assert (0 <= checksumSize spec) by (unfold checksumSize; case_bool_decide; lia). lia.
Qed.

Lemma spans_insert (l : list FrameSpanV3) (i : nat) x rest : (i < length l)%nat ->
  take (S i) (<[i := x]> l) ++ rest = take i l ++ x :: rest.
Proof using Type.
  intros Hi. rewrite (take_S_r _ _ x) by (by apply list_lookup_insert_eq).
  rewrite take_insert_ge by done. by rewrite <- app_assoc.
Qed.

Lemma encodeLoop_agrees b id seq payload chunk q fuel0 :
  2 <= id <= 65534 -> lb_PaddingBytes b = q -> pp_MaxPaddingBytes (padding spec) <= q ->
  let op := dataOperation id seq payload in
  let meta := writeOperationMetadata (dataOperation 0 seq []) in
  forall c i pos offset frames scratch spans,
  codecOf c -> lc_chunk c = chunk -> 1 <= chunk ->
  0 <= i -> 0 <= pos -> 0 <= offset <= zlen payload -> q <= zlen scratch ->
  let sizes := cutSizes fuel0 chunk (zlen payload - offset) in
  Forall (fun n => isOk (boundFrameSize spec q n) = true) sizes ->
  pos + boundSum q sizes <= zlen frames -> i + zlen sizes <= zlen spans ->
  exists fl c' scratch' spans',
    encodeParts spec op (lc_engine c) (zdrop offset payload) i (lb_FrameCount b) sizes = Ok fl /\
    encodeLoop c b id meta (length sizes) i pos offset payload frames scratch spans =
      (c', writeAt frames pos (concat fl), scratch', spans', pos + zlen (concat fl)) /\
    codecOf c' /\ length fl = length sizes /\ zlen (concat fl) <= boundSum q sizes /\
    spans' = take (Z.to_nat i) spans ++ spansOf pos fl ++ drop (Z.to_nat i + length fl) spans.
Proof using HL RL.
  intros Hid Hbq Hmq op meta. pose proof (lv_padding _ _ _ HL) as Hpd.
  change (lpd_MaxPaddingBytes (lp_Padding program)) with (pp_MaxPaddingBytes (padding spec)) in Hpd.
  induction fuel0 as [|fuel0 IH];
    intros c i pos offset frames scratch spans Hc Hchunk Hchunk1 Hi Hpos Hoff Hscr sizes Hok Hcap Hsp.
  { exists [], c, scratch, spans. simpl. rewrite writeAt_nil, zlen_nil, Z.add_0_r, Nat.add_0_r by done.
    repeat split; try apply Hc; try done. by rewrite take_drop. }
  unfold sizes in *. cbn [cutSizes] in *. destruct (Z.ltb_spec 0 (zlen payload - offset)) as [Hrem|Hrem].
  2: { exists [], c, scratch, spans. simpl. rewrite writeAt_nil, zlen_nil, Z.add_0_r, Nat.add_0_r by done.
    repeat split; try apply Hc; try done. by rewrite take_drop. }
  set (n := Z.min chunk (zlen payload - offset)) in *.
  apply Forall_cons_1 in Hok as [Hn Hok]. destruct (boundFrameSize spec q n) as [B|] eqn:HB; [|done].
  assert (HBo : boundOf q n = B) by (unfold boundOf; by rewrite HB).
  assert (Hbs : 0 <= boundSum q (cutSizes fuel0 chunk (zlen payload - offset - n)))
    by (apply boundSum_nonneg; lia).
  assert (Hcons : forall l, boundSum q (n :: l) = B + boundSum q l) by (intros; cbn; by rewrite HBo).
  rewrite Hcons in Hcap |- *.
  rewrite zlen_cons in Hsp.
  destruct (round_padding (lc_engine c) q scratch (co_engine _ Hc)) as (pd & G1 & G2 & G3 & G4); [lia|].
  assert (Hsl : slice offset (offset + n) payload = ztake n (zdrop offset payload)).
  { unfold slice, ztake, zdrop. do 2 f_equal. lia. }
  assert (Hzd : zlen (zdrop offset payload) = zlen payload - offset) by (apply zlen_zdrop; lia).
  assert (Hcz : zlen (ztake n (zdrop offset payload)) = n) by (apply zlen_ztake; lia).
  destruct (live_frame q n B id seq payload (ztake n (zdrop offset payload)) pd i (lb_FrameCount b)
    Hid HB Hcz G4 G3) as (F1 & F2 & body & w & F3 & F4). fold meta in F1, F2, F3, F4. fold op in F1.
  set (frame := writeFrameWithSpec _ _ _ _ _ _ _ _) in *. pose proof (zlen_nonneg frame).
  set (scratch1 := (pd ++ zdrop (zlen pd) (ztake q scratch)) ++ zdrop q scratch).
  set (c1 := mkLiveCodec spec (lc_minPayload c) (lc_maxPayload c) (lc_chunk c) (fst (Generate (lc_engine c)))).
  assert (Hc1 : codecOf c1).
  { constructor; try done; try apply Hc. unfold c1. cbn [lc_engine]. rewrite Generate_policy. apply Hc. }
  assert (Hs1 : zlen scratch1 = zlen scratch).
  { unfold scratch1. pose proof (zlen_nonneg pd).
    rewrite !zlen_app, !zlen_zdrop by (rewrite ?zlen_ztake; lia). rewrite zlen_ztake by lia. lia. }
  replace (zlen payload - offset - n) with (zlen payload - (offset + n)) in * by lia.
  destruct (IH c1 (i + 1) (pos + zlen frame) (offset + n) (writeAt frames pos frame) scratch1
    (<[Z.to_nat i := mkSpan pos (zlen frame)]> spans) Hc1) as (fl & c' & scratch' & spans' & I1 & I2 & I3 & I4 & I5 & I6);
    try lia; try done.
  { rewrite zlen_writeAt by lia. lia. }
  { unfold zlen in Hsp |- *. rewrite length_insert. lia. }
  exists (frame :: fl), c', scratch', spans'.
  assert (Hcat : zlen (concat (frame :: fl)) = zlen frame + zlen (concat fl)) by (cbn [concat]; apply zlen_app).
  split; [|split; [|split; [done|split; [cbn [length]; lia|split; [rewrite Hcat; lia|]]]]].
  - cbn [encodeParts]. destruct (Generate (lc_engine c)) as [e1 r1] eqn:EG. cbn [snd] in G1. subst r1.
    cbn [map_err rbind]. rewrite F1. cbn [rbind]. rewrite zdrop_zdrop by lia.
    change (lc_engine c1) with e1 in I1. by rewrite I1.
  - cbn [length encodeLoop]. rewrite (co_spec _ Hc), Hchunk, Hbq. fold n. rewrite G2. cbv zeta.
    fold scratch1.
    change (messages spec) with [dataMsg; mkCodecMessage (lm_Semantic pad) (lm_WireSymbol pad)
      (cf_PaddingTypeTag (lf_Compiled (lp_Frame program)))]. cbv iota beta.
    rewrite F3. rewrite Hsl.
    replace (ztake (zlen pd) scratch1) with pd by (unfold scratch1; rewrite <- app_assoc; by rewrite ztake_app).
    fold frame. rewrite <- F4. rewrite ztake_all.
    rewrite <- Hchunk. fold c1. rewrite Hchunk. rewrite I2. rewrite writeAt_app by lia.
    rewrite Hcat. cbn [concat]. f_equal. lia.
  - rewrite I6. replace (Z.to_nat (i + 1)) with (S (Z.to_nat i)) by lia.
    assert (Hlt : (Z.to_nat i < length spans)%nat) by (unfold zlen in Hsp; lia).
    rewrite spans_insert, drop_insert_lt by (done || lia). cbn [spansOf].
    replace (Z.to_nat i + length (frame :: fl))%nat with (S (Z.to_nat i) + length fl)%nat
      by (cbn [length]; lia). done.
Qed.

(** The fragments of a non-empty payload: full chunks and what is left. *)
Lemma cutSizes_shape fuel chunk n : 1 <= chunk -> 0 < n <= chunk * Z.of_nat fuel ->
  cutSizes fuel chunk n =
    replicate (Z.to_nat ((n - 1) / chunk)) chunk ++ [n - (n - 1) / chunk * chunk].
Proof using Type.
  intros Hc. revert n. induction fuel as [|fuel IH]; intros n Hn; [lia|]. cbn [cutSizes].
  destruct (Z.ltb_spec 0 n); [|lia]. destruct (Z.le_gt_cases n chunk) as [Hle|Hgt].
  - rewrite Z.min_r, Z.sub_diag by lia. rewrite Z.div_small by lia.
    cbn [replicate Z.to_nat app]. rewrite Z.mul_0_l, Z.sub_0_r. by destruct fuel.
  - rewrite Z.min_l by lia. rewrite IH by nia.
    assert (Hd : (n - 1) / chunk = (n - chunk - 1) / chunk + 1).
    { replace (n - 1) with (n - chunk - 1 + 1 * chunk) by lia. apply Z.div_add. lia. }
    pose proof (Z.div_pos (n - chunk - 1) chunk ltac:(lia) ltac:(lia)).
    rewrite Hd. set (m := (n - chunk - 1) / chunk) in *. replace (Z.to_nat (m + 1)) with (S (Z.to_nat m)) by lia.
    cbn [replicate app]. replace (n - (m + 1) * chunk) with (n - chunk - m * chunk) by lia. done.
Qed.

Lemma live_sizes c len : codecOf c -> 0 < len ->
  let k := (len - 1) / lc_chunk c in
  FragmentSizesFor (fragmentationMode spec) (maxBatchBytes spec) (maxFrameBytes spec) len
    = cutSizes (Z.to_nat (len / lc_chunk c + 1)) (lc_chunk c) len /\
  cutSizes (Z.to_nat (len / lc_chunk c + 1)) (lc_chunk c) len
    = replicate (Z.to_nat k) (lc_chunk c) ++ [len - k * lc_chunk c] /\ 0 <= k.
Proof using Type.
  intros Hc Hl k. pose proof (chunkLimit_pos (fragmentationMode spec) (maxBatchBytes spec) (maxFrameBytes spec)) as Hp.
  rewrite <- (co_chunk _ Hc) in Hp. split; [|split].
  - unfold FragmentSizesFor. destruct (Z.leb_spec len 0); [lia|]. by rewrite <- (co_chunk _ Hc).
  - apply cutSizes_shape; [done|]. pose proof (Z.div_pos len (lc_chunk c)).
    pose proof (Z.div_mod len (lc_chunk c)). pose proof (Z.mod_pos_bound len (lc_chunk c)). nia.
  - apply Z.div_pos; lia.
Qed.

(** What [Bounds] has computed when it accepts. *)
Lemma Bounds_ok c len b : codecOf c -> Bounds c len = Ok b ->
  let q := lb_PaddingBytes b in
  let sizes := FragmentSizesFor (fragmentationMode spec) (maxBatchBytes spec) (maxFrameBytes spec) len in
  0 < len /\ lc_minPayload c <= len <= lc_maxPayload c /\
  lb_FrameCount b = zlen sizes /\ zlen sizes <= 256 /\ 0 <= q <= 65535 /\
  pp_MaxPaddingBytes (padding spec) <= q /\
  Forall (fun n => isOk (boundFrameSize spec q n) = true) sizes /\ boundSum q sizes = lb_FrameBytes b.
Proof using HL.
  intros Hc HB q sizes. unfold Bounds in HB. cbv zeta in HB. rewrite (co_spec _ Hc) in HB.
  apply reject_bind_ok in HB as [[[C1%Z.leb_gt C2%Z.ltb_ge]%orb_false_iff C3%Z.ltb_ge]%orb_false_iff HB].
  destruct (live_sizes c len Hc C1) as (S1 & S2 & S3). fold sizes in S1. rewrite S2 in S1.
  pose proof (chunkLimit_pos (fragmentationMode spec) (maxBatchBytes spec) (maxFrameBytes spec)) as Hp.
  rewrite <- (co_chunk _ Hc) in Hp. rewrite Z.quot_div_nonneg in HB by lia.
  set (k := (len - 1) / lc_chunk c) in *.
  replace (1 + k - 1) with k in HB by lia.
  apply reject_bind_ok in HB as [C4%Z.ltb_ge HB]. apply reject_bind_ok in HB as [C5%Z.ltb_ge HB].
  set (q' := if bool_decide _ then 0 else _) in *.
  apply rbind_ok in HB as (tail & Ht & HB). apply rbind_ok in HB as ([largest total] & HT' & HB).
  apply reject_bind_ok in HB as [_ HB]. injection HB as <-. cbn [lb_PaddingBytes lb_FrameCount lb_FrameBytes] in *.
  assert (Hz : zlen sizes = 1 + k).
  { rewrite S1. unfold zlen. rewrite length_app, length_replicate. cbn [length]. lia. }
  pose proof (lv_padding _ _ _ HL) as Hpd. pose proof (lv_nopad _ _ _ HL) as Hnp.
  change (lpd_MaxPaddingBytes (lp_Padding program)) with (pp_MaxPaddingBytes (padding spec)) in Hpd, Hnp.
  change (lpd_Mode (lp_Padding program)) with (pp_Mode (padding spec)) in Hnp.
  assert (Hq : 0 <= q' /\ pp_MaxPaddingBytes (padding spec) <= q').
  { unfold q'. case_bool_decide as Hm; [specialize (Hnp Hm)|]; lia. }
  subst q. cbn [lb_PaddingBytes].
  assert (Hto : boundOf q' (len - k * lc_chunk c) = tail) by (unfold boundOf; by rewrite Ht).
  assert (Hfull : 0 < k -> exists full, boundFrameSize spec q' (lc_chunk c) = Ok full /\ total = tail + k * full).
  { intros Hk. destruct (Z.ltb_spec 1 (1 + k)); [|lia]. apply rbind_ok in HT' as (full & Hf & HT').
    injection HT' as _ <-. exists full. split; [done|lia]. }
  split_and!; try lia.
  - rewrite S1. apply Forall_app. split; [|constructor; [by rewrite Ht|constructor]].
    destruct (decide (0 < k)) as [Hk|]; [|by replace k with 0 by lia].
    destruct (Hfull Hk) as (full & Hf & _). apply Forall_replicate. by rewrite Hf.
  - rewrite S1. unfold boundSum. rewrite foldr_app. cbn [foldr]. rewrite Hto, Z.add_0_r.
    destruct (decide (0 < k)) as [Hk|].
    + destruct (Hfull Hk) as (full & Hf & ->).
      assert (Hbo : boundOf q' (lc_chunk c) = full) by (unfold boundOf; by rewrite Hf).
      rewrite <- (Z2Nat.id k) at 2 by lia. generalize (Z.to_nat k). clear -Hbo. intros m.
      induction m as [|m IH]; cbn [replicate foldr]; [lia|]. rewrite IH, Hbo. lia.
    + replace k with 0 in * by lia. cbn [Z.to_nat replicate foldr].
      destruct (Z.ltb_spec 1 (1 + 0)); [lia|]. by injection HT' as _ <-.
Qed.

Lemma encodeDataInto_agrees c framesDst scratch payload id seed table seq c' dst' scratch' spans' n count :
  codecOf c -> 256 <= zlen (st_spans table) ->
  encodeDataInto c framesDst scratch payload id seed (Some table) seq
    = (c', dst', scratch', spans', Ok (n, count)) ->
  exists frames,
    encodeOperationWithSpec spec (dataOperation id seq (sl_bytes payload)) seed = Ok frames /\
    count = zlen frames /\ n = zlen (concat frames) /\ 2 <= id <= 65534 /\
    lc_minPayload c <= sl_len payload <= lc_maxPayload c /\ 0 < sl_len payload /\
    pp_MaxPaddingBytes (padding spec) < 65536 /\ zlen frames <= 256 /\
    dst' = concat frames ++ zdrop n (sl_bytes framesDst) /\
    spans' = spansOf 0 frames ++ drop (length frames) (st_spans table) /\ codecOf c'.
Proof using HL RL.
  intros Hc Htab HE. unfold encodeDataInto in HE. cbv zeta in HE.
  destruct (Bounds c (sl_len payload)) as [b|] eqn:HB; [|done].
  destruct (Bounds_ok c _ b Hc HB) as (B1 & B2 & B3 & B4 & B5 & B6 & B7 & B8).
  destruct (_ || _) eqn:HG in HE; [done|]. destruct (_ || _) eqn:HO in HE; [done|].
  repeat apply orb_false_iff in HG as [HG ?]. repeat match goal with G : (_ <? _) = false |- _ => apply Z.ltb_ge in G end.
  set (c1 := mkLiveCodec (lc_spec c) _ _ _ (ResetSeed (lc_engine c) seed)) in HE.
  assert (Hc1 : codecOf c1) by (constructor; apply Hc).
  destruct (live_sizes c (sl_len payload) Hc B1) as (S1 & _ & _).
  set (sizes := FragmentSizesFor _ _ _ _) in *.
  destruct (encodeLoop_agrees b id seq (sl_bytes payload) (lc_chunk c) (lb_PaddingBytes b)
    (Z.to_nat (sl_len payload / lc_chunk c + 1)) ltac:(lia) eq_refl B6
    c1 0 0 0 (sl_bytes framesDst) (sl_bytes scratch) (st_spans table) Hc1 eq_refl)
    as (fl & c2 & scr2 & sp2 & L1 & L2 & L3 & L4 & L5 & L6).
  { rewrite (co_chunk _ Hc). apply chunkLimit_pos. }
  1-2: lia. { pose proof (zlen_nonneg (sl_bytes payload)). lia. } { done. }
  1-3: rewrite Z.sub_0_r; fold (sl_len payload); rewrite <- S1; try done.
  { rewrite B8. done. } { unfold zlen in *. lia. }
  rewrite Z.sub_0_r in L1, L2, L4, L5. fold (sl_len payload) in L1, L2, L4, L5. rewrite <- S1 in L1, L2, L4, L5.
  assert (Hcount : Z.to_nat (lb_FrameCount b) = length sizes) by (rewrite B3; unfold zlen; lia).
  rewrite Hcount, L2 in HE. injection HE as <- <- <- <- <- <-.
  assert (Hfl : zlen fl = zlen sizes) by (unfold zlen; lia).
  exists fl. split; [|split_and!; try done; try lia].
  - unfold encodeOperationWithSpec. change (Payload (dataOperation id seq (sl_bytes payload))) with (sl_bytes payload).
    fold (sl_len payload). destruct (Z.ltb_spec (maxPayloadBytes spec) (sl_len payload)).
    { rewrite (co_max _ Hc) in B2. lia. }
    cbn [reject rbind]. change (Semantic (dataOperation id seq (sl_bytes payload))) with SemanticData.
    rewrite live_semantic. rewrite bool_decide_eq_false_2 by done. cbn [reject rbind]. fold sizes.
    rewrite <- B3. change (zdrop 0 (sl_bytes payload)) with (sl_bytes payload) in L1.
    unfold c1 in L1. cbn [lc_engine] in L1. unfold ResetSeed in L1. rewrite (co_engine _ Hc) in L1. exact L1.
Qed.

End loop.

End live.
