(* ===== verification/LiveDecode.v ===== *)
(** * What the live data codec guarantees

    The buffer codec of [live_data_buffer_v3.go] against the allocating codec
    of [codec.go]: [EncodeInto] writes the frames of [EncodeLiveOperation],
    [DecodeInto] accepts what [DecodeLiveFrames] accepts within the data
    bounds, and decoding undoes encoding. *)

From S2P Require Import Prelude GoBytes Ir Validate Scheduler Padding Framing LiveProgram LiveFraming.
From Stdlib Require Import ZArith Lia Strings.Byte.
From stdpp Require Import base list sets strings.
Local Open Scope Z_scope.

(** ** Metadata views *)

(** What parsing establishes of a view. *)
Record wfView (v : metadataView) : Prop := {
  wv_fixed : zlen (fixed v) = 41;
  wv_values : length (values v) = 10%nat;
  wv_short : Forall (fun b => zlen b <= 255) (values v);
}.

Lemma parseValues_shape count rest vs rest' : parseValues count rest = Ok (vs, rest') ->
  length vs = count /\ Forall (fun b : bytes => zlen b <= 255) vs.
Proof.
  revert rest vs. induction count as [|count IH]; intros rest vs HP; [by injection HP as <- _|].
  cbn [parseValues] in HP. destruct rest as [|b rest]; [done|]. cbv zeta in HP.
  apply reject_bind_ok in HP as [Hn%Z.ltb_ge HP]. apply rbind_ok in HP as ([vs1 r1] & HV & HP).
  injection HP as <- <-. destruct (IH _ _ HV) as [H1 H2]. split; [simpl; by rewrite H1|].
  constructor; [|done]. pose proof (bz_range b). rewrite zlen_ztake; lia.
Qed.

Lemma parseMetadataView_wf input v rest : parseMetadataView input = Ok (v, rest) -> wfView v.
Proof.
  unfold parseMetadataView. intros [Hl%Z.ltb_ge HP]%reject_bind_ok.
  apply rbind_ok in HP as ([vs r] & HV & HP). injection HP as <- _.
  destruct (parseValues_shape _ _ _ _ HV) as [H1 H2]. constructor; [|done|done].
  cbn [fixed]. apply zlen_ztake. lia.
Qed.

(** The metadata a view stands for: the end-of-stream byte is normalised. *)
Definition canon (v : metadataView) : bytes := writeOperationMetadata (materialize v "" 0 []).

Lemma put_slice n a b (l : bytes) : b - a = Z.of_nat n -> 0 <= a -> b <= zlen l ->
  put_be n (get_be (slice a b l)) = slice a b l.
Proof.
  intros Hn Ha Hb. rewrite <- (put_get_be (slice a b l)) at 2. f_equal.
  pose proof (zlen_slice a b l) as Hs. unfold zlen in *. lia.
Qed.

Lemma get_slice_u32 a (l : bytes) : 0 <= a -> a + 4 <= zlen l -> u32 (get_be (slice a (a + 4) l)).
Proof.
  intros Ha Hl. pose proof (get_be_range (slice a (a + 4) l)) as Hr.
  rewrite zlen_slice in Hr by lia. replace (a + 4 - a) with 4 in Hr by lia. unfold_widths. exact Hr.
Qed.

Lemma values_materialize v s i p : length (values v) = 10%nat ->
  sbytes <$> operationMetadataStrings (materialize v s i p) = values v.
Proof.
  destruct v as [f vs]. intros Hl. cbn in Hl.
  do 10 (destruct vs as [|? vs]; [done|]). destruct vs; [|done].
  unfold operationMetadataStrings, materialize, valueAt.
  cbn [Reason Priority TargetClass TargetVariant RequestClass ResponseMode TargetErrorCode
    TargetCloseReason TargetResetReason MetadataClass values nth fmap list_fmap].
  by rewrite !sbytes_bstring.
Qed.

Lemma fixed_materialize v s i p : zlen (fixed v) = 41 ->
  fixedPart (materialize v s i p) =
    slice 0 20 (fixed v)
    ++ [if bool_decide (slice 20 21 (fixed v) = [Byte.x00]) then Byte.x00 else Byte.x01]
    ++ slice 21 41 (fixed v).
Proof.
  intros Hf. unfold fixedPart. cbn [materialize Sequence Offset CreditBytes EndStream RelayIntentID
    PayloadByteCount ResponseByteCount ResponseChunkIndex].
  pose proof (get_slice_u32 16 (fixed v) ltac:(lia) ltac:(lia)) as U1.
  pose proof (get_slice_u32 29 (fixed v) ltac:(lia) ltac:(lia)) as U2.
  pose proof (get_slice_u32 33 (fixed v) ltac:(lia) ltac:(lia)) as U3.
  pose proof (get_slice_u32 37 (fixed v) ltac:(lia) ltac:(lia)) as U4.
  rewrite !wrap32_small by done. unfold PutUint64, PutUint32.
  rewrite !put_slice by lia.
  rewrite <- (slice_cat 0 8 20), <- (slice_cat 8 16 20) by lia.
  rewrite <- (slice_cat 21 29 41), <- (slice_cat 29 33 41), <- (slice_cat 33 37 41) by lia.
  rewrite <- !app_assoc. by case_bool_decide.
Qed.

Lemma writeMetadata_parts op : writeOperationMetadata op =
  fixedPart op ++ concat ((fun b => zb (zlen b) :: b) <$> (sbytes <$> operationMetadataStrings op)).
Proof.
  unfold writeOperationMetadata, fixedPart. by rewrite <- !app_assoc, <- list_fmap_compose.
Qed.

Lemma canon_shape v s i p : wfView v ->
  encodeOperationMetadata (materialize v s i p) = Ok (canon v).
Proof.
  intros [W1 W2 W3]. unfold encodeOperationMetadata.
  set (op := materialize v s i p).
  assert (Hs : Forall (fun x => (255 <? slen x) = false) (operationMetadataStrings op)).
  { apply Forall_forall. intros x Hx. apply Z.ltb_ge.
    apply (list_elem_of_fmap_2 sbytes) in Hx. unfold op in Hx. rewrite values_materialize in Hx by done.
    rewrite Forall_forall in W3. exact (W3 _ Hx). }
  assert (Hr := Hs). do 2 apply Forall_cons_1 in Hr as [? Hr].
  assert (HF : forRange (operationMetadataStrings op) (fun value =>
      reject (255 <? slen value) (FrameErrorf "proxy metadata value too long")) = Ok tt).
  { apply forRange_ok. eapply Forall_impl; [exact Hs|]. intros x Hx. by apply reject_ok. }
  rewrite HF. repeat match goal with G : (255 <? _) = false |- _ => rewrite G end. cbn [reject rbind].
  assert (N : forall a b, (get_be (slice a b (fixed v)) <? 0) = false).
  { intros a b. apply Z.ltb_ge. apply get_be_range. }
  unfold op. cbn [materialize CreditBytes PayloadByteCount ResponseByteCount ResponseChunkIndex].
  rewrite !N. reflexivity.
Qed.

(** Length-prefixed values determine the values. *)
Lemma concat_values_inj (va vb : list bytes) : length va = length vb ->
  Forall (fun b => zlen b <= 255) va -> Forall (fun b => zlen b <= 255) vb ->
  concat ((fun b => zb (zlen b) :: b) <$> va) = concat ((fun b => zb (zlen b) :: b) <$> vb) -> va = vb.
Proof.
  revert vb. induction va as [|a va IH]; intros [|b vb] Hl Ha Hb Heq; try done.
  apply Forall_cons_1 in Ha as [Ha Hva]. apply Forall_cons_1 in Hb as [Hb Hvb].
  cbn in Heq. injection Heq as He Heq. apply (f_equal bz) in He. rewrite !bz_zlen_small in He by done.
  apply app_inj_1 in Heq as [-> Heq]; [|unfold zlen in He; lia].
  f_equal. apply IH; try done. by injection Hl.
Qed.

(** Two fragments carry the same metadata exactly when the metadata they stand
    for is written the same way. *)
Lemma viewEqual_canon v w : wfView v -> wfView w -> viewEqual v w = bool_decide (canon v = canon w).
Proof.
  intros [V1 V2 V3] [W1 W2 W3]. apply eq_true_iff_eq. rewrite bool_decide_eq_true.
  unfold viewEqual, canon. rewrite !andb_true_iff, !bool_decide_eq_true, eqb_true_iff.
  rewrite !writeMetadata_parts, !values_materialize, !fixed_materialize by done. split.
  - intros [[[-> ->] ->] ->]. done.
  - intros Hc. apply app_inj_1 in Hc as [Hf Hv]; [|rewrite !length_app, !length_slice by lia; done].
    apply app_inj_1 in Hf as [H1 Hf]; [|rewrite !length_slice by lia; done].
    injection Hf as H2 H3. split_and!; [done| |done|].
    + by destruct (bool_decide (slice 20 21 (fixed v) = _)), (bool_decide (slice 20 21 (fixed w) = _)).
    + apply concat_values_inj; try done. by rewrite V2.
Qed.

Lemma validOperation_true v : validOperation v = true.
Proof.
  unfold validOperation. apply forallb_forall. intros a Ha.
  apply negb_true_iff, Z.ltb_ge. pose proof (get_be_range (slice a (a + 4) (fixed v))) as Hr.
  assert (Hl : zlen (slice a (a + 4) (fixed v)) <= 4).
  { unfold slice, zlen. rewrite length_take. lia. }
  pose proof (Z.pow_le_mono_r 256 _ _ ltac:(lia) Hl) as Hp. change (256 ^ 4) with 4294967296 in Hp.
  unfold int64_of. rewrite wrap64_small by (unfold_widths; lia). 
  match goal with |- context [if ?b then _ else _] => destruct b eqn:E end; [lia|].
  apply Z.leb_gt in E. unfold_widths. lia.
Qed.

(** ** Checking a fragment *)

Section decode.
Context {R : Rand}.

Definition partOf (frame : bytes) (v : frameView) : DecodedFrame :=
  mkDecoded (materialize (fv_metadata v) (semantic (fv_msg v)) (fv_streamID v) (fv_payload v))
    (wireSymbol (fv_msg v)) (zlen frame) (zlen (fv_payload v)) (fv_padLen v) (fv_fragIndex v)
    (fv_fragCount v).

Record dataFrame (spec : codecSpec) (v : frameView) : Prop := {
  df_data : semantic (fv_msg v) = SemanticData;
  df_stream : 2 <= fv_streamID v <= 65534;
  df_body : fv_bodyBytes v <= maxFrameBytes spec;
}.

(** The checks of [DecodeInto] on one fragment are those of the allocating
    decoder and the data bounds. *)
Lemma checkView_part c count i total first part f0 f seen :
  wfView (fv_metadata first) -> wfView (fv_metadata part) -> 0 <= fv_fragIndex part ->
  Forall (fun k => k < i) seen ->
  checkView c count i total first part = Ok tt <->
  checkPart (partOf f0 first) (canon (fv_metadata first)) count i seen (partOf f part) = Ok tt /\
  dataFrame (lc_spec c) part /\ zlen (fv_payload part) <= lc_maxPayload c - total.
Proof using Type.
  intros W1 W2 Hi Hs. unfold checkView, checkPart, partOf.
  cbn [FragCount FragIndex dOperation WireSymbol].
  change (Semantic (materialize ?v ?s ?i ?p)) with s. change (StreamID (materialize ?v ?s ?i ?p)) with i.
  rewrite !reject_bind_ok, canon_shape, reject_ok by done.
  rewrite viewEqual_canon, validOperation_true by done. cbn [negb orb].
  rewrite !orb_false_iff, !Z.ltb_ge, !Z.leb_gt, !negb_false_iff, !Z.eqb_eq, !bool_decide_eq_true.
  split.
  - intros (? & ? & ? & E & ? & ? & ? & ? & ([[[? ?] ?] ?] & ?) & _).
    split; [|split; [constructor; done || lia|lia]]. split_and!; try done; try lia. apply mem_false. intros Hin.
    rewrite Forall_forall in Hs. specialize (Hs _ Hin). lia.
  - intros [(? & (? & ?) & ? & E & ? & ? & ? & ?) [[? ? ?] ?]]. split_and!; try done; lia.
Qed.

Lemma readFields_index spec h fields rest h' rest' : 0 <= h_index h ->
  readFields spec h fields rest = Ok (h', rest') -> 0 <= h_index h'.
Proof using Type.
  revert h rest. induction fields as [|f fields IH]; intros h rest Hh HR; [by injection HR as <- _|].
  cbn [readFields] in HR. apply rbind_ok in HR as ([h1 r1] & HF & HR). eapply IH; [|exact HR].
  clear IH HR. unfold readField in HF.
  case_bool_decide; [|case_bool_decide; [|case_bool_decide]].
  - destruct rest as [|b rest]; [done|]. apply reject_bind_ok in HF as [_ HF].
    destruct (messageByTag _ _); [|done]. by injection HF as <- _.
  - destruct rest as [|b rest]; [done|]. apply reject_bind_ok in HF as [_ HF].
    apply rbind_ok in HF as (id & _ & HF). by injection HF as <- _.
  - apply reject_bind_ok in HF as [_ HF]. injection HF as <- _. cbn [h_index]. apply get_be_range.
  - by injection HF as <- _.
Qed.

Lemma parseFrameView_wf spec frame v : parseFrameView spec frame = Ok v ->
  wfView (fv_metadata v) /\ 0 <= fv_fragIndex v.
Proof using Type.
  unfold parseFrameView. intros [_ HP]%reject_bind_ok. apply rbind_ok in HP as (body & _ & HP).
  apply rbind_ok in HP as (content & _ & HP). apply rbind_ok in HP as ([[msg h] section] & HD & HP).
  apply reject_bind_ok in HP as [_ HP]. apply rbind_ok in HP as ([meta payload] & HM & HP).
  apply reject_bind_ok in HP as [_ HP]. apply Ok_inj in HP as <-. cbn [fv_metadata fv_fragIndex].
  split; [by eapply parseMetadataView_wf|]. unfold decodeHeaderAndPayloadWithSpec in HD.
  apply rbind_ok in HD as ([h1 r1] & HR & HD). destruct (h_msg h1); [|done].
  apply reject_bind_ok in HD as [_ HD]. injection HD as _ <- _. by eapply readFields_index in HR.
Qed.

(** ** The loops *)

Definition parsed (spec : codecSpec) (frame : bytes) (v : frameView) : Prop :=
  parseFrameView spec frame = Ok v.

Lemma decodeAll_views spec frames parts : decodeAll spec frames = Ok parts <->
  exists vs, Forall2 (parsed spec) frames vs /\ parts = zip_with partOf frames vs.
Proof using Type.
  revert parts. induction frames as [|f frames IH]; intros parts.
  - split; [intros [= <-]; by exists []|]. intros (vs & HF & ->). by inversion HF.
  - cbn [decodeAll]. unfold decodeFrameWithSpec. rewrite rbind_ok. split.
    + intros (part & Hd & HP). apply rbind_ok in Hd as (v & Hv & Hd). apply Ok_inj in Hd as <-.
      apply rbind_ok in HP as (parts1 & Hp & HP). apply Ok_inj in HP as <-.
      apply IH in Hp as (vs & HF & ->). exists (v :: vs). split; [by constructor|done].
    + intros (vs & HF & ->). inversion HF as [|? v ? vs1 Hv HF1]; subst. exists (partOf f v).
      unfold parsed in Hv. rewrite Hv. split; [done|].
      destruct (IH (zip_with partOf frames vs1)) as [_ IH2]. rewrite IH2 by eauto. done.
Qed.

Lemma checkPart_index expected meta count i seen part :
  checkPart expected meta count i seen part = Ok tt -> FragIndex part = i.
Proof using Type.
  unfold checkPart. intros [_ HC]%reject_bind_ok. apply reject_bind_ok in HC as [_ HC].
  apply reject_bind_ok in HC as [_ HC]. by apply reject_bind_ok in HC as [HC%negb_false_iff%Z.eqb_eq _].
Qed.

Lemma checkLoop_parts c fb count first f0 spans i total seen r :
  wfView (fv_metadata first) -> Forall (fun k => k < i) seen -> total <= lc_maxPayload c ->
  let frames := spanFrame fb <$> spans in
  checkLoop c fb count i total (Some first) spans = Ok r <->
  exists vs payload, Forall2 (parsed (lc_spec c)) frames vs /\ Forall (dataFrame (lc_spec c)) vs /\
    assemble (partOf f0 first) (canon (fv_metadata first)) count i seen (zip_with partOf frames vs)
      = Ok payload /\
    total + zlen payload <= lc_maxPayload c /\ r = (Some first, total + zlen payload).
Proof using Type.
  intros W. cbv zeta. revert i total seen r.
  induction spans as [|span spans IH]; intros i total seen r Hs Ht.
  - cbn [checkLoop fmap list_fmap]. split.
    + intros [= <-]. exists [], []. rewrite zlen_nil, Z.add_0_r. by repeat constructor.
    + intros (vs & payload & HF & _ & HA & _ & ->). inversion HF; subst. cbn in HA. injection HA as <-.
      by rewrite zlen_nil, Z.add_0_r.
  - cbn [checkLoop fmap list_fmap]. rewrite rbind_ok. split.
    + intros (part & Hp%map_err_ok & HC). cbn [rbind] in HC. apply rbind_ok in HC as ([] & HV & HC).
      destruct (parseFrameView_wf _ _ _ Hp) as [W2 Hi].
      apply (checkView_part c count i total first part f0 (spanFrame fb span) seen) in HV
        as (HV & HD & Hroom); try done.
      assert (Hs' : Forall (fun k => k < i + 1) (fv_fragIndex part :: seen)).
      { apply checkPart_index in HV. cbn in HV. constructor; [lia|].
        eapply Forall_impl; [exact Hs|]. cbn. lia. }
      apply (IH _ _ _ _ Hs') in HC as (vs & payload & HF & HDs & HA & Hle & ->); [|lia].
      exists (part :: vs), (fv_payload part ++ payload). rewrite zlen_app.
      split; [by constructor|]. split; [by constructor|]. cbn [zip_with assemble]. rewrite HV. cbn [rbind].
      change (FragIndex (partOf (spanFrame fb span) part)) with (fv_fragIndex part). rewrite HA.
      split; [done|]. split; [lia|]. f_equal. lia.
    + intros (vs & payload & HF & HDs & HA & Hle & ->).
      inversion HF as [|? part ? vs1 Hp HF1]; subst. apply Forall_cons_1 in HDs as [HD HDs].
      exists part. split; [by apply map_err_ok|]. cbn [rbind].
      cbn [zip_with assemble] in HA. apply rbind_ok in HA as ([] & HV & HA).
      apply rbind_ok in HA as (tail & HA & HP). apply Ok_inj in HP as <-.
      change (Payload (dOperation (partOf (spanFrame fb span) part))) with (fv_payload part) in *.
      rewrite zlen_app in Hle |- *. pose proof (zlen_nonneg tail). pose proof (zlen_nonneg (fv_payload part)).
      destruct (parseFrameView_wf _ _ _ Hp) as [W2 Hi].
      assert (Hs' : Forall (fun k => k < i + 1) (fv_fragIndex part :: seen)).
      { apply checkPart_index in HV. cbn in HV. constructor; [lia|].
        eapply Forall_impl; [exact Hs|]. cbn. lia. }
      rewrite (proj2 (checkView_part c count i total first part f0 (spanFrame fb span) seen W W2 Hi Hs))
        by (split_and!; done || lia). cbn [rbind].
      apply (IH _ _ _ _ Hs'); [lia|]. exists vs1, tail. split_and!; try done; try lia. f_equal. lia.
Qed.

Lemma assemble_same expected meta count i seen parts payload :
  assemble expected meta count i seen parts = Ok payload ->
  Forall (fun part => Semantic (dOperation part) = Semantic (dOperation expected) /\
                      StreamID (dOperation part) = StreamID (dOperation expected)) parts.
Proof using Type.
  revert i seen payload. induction parts as [|part parts IH]; intros i seen payload HA; [constructor|].
  cbn [assemble] in HA. apply rbind_ok in HA as ([] & HC & HA). apply rbind_ok in HA as (tail & HA & _).
  constructor; [|by eapply IH]. unfold checkPart in HC.
  do 4 apply reject_bind_ok in HC as [_ HC].
  apply reject_bind_ok in HC as [H1%negb_false_iff%bool_decide_eq_true HC].
  by apply reject_bind_ok in HC as [H2%negb_false_iff%Z.eqb_eq _].
Qed.

Lemma coverLoop_spans fb end_ spans e : 0 <= end_ <= zlen fb ->
  coverLoop (zlen fb) end_ spans = Ok e ->
  Forall (fun s => 0 <= sp_Length s) spans ->
  let frames := spanFrame fb <$> spans in
  spans = spansOf end_ frames /\ concat frames = slice end_ e fb /\ end_ <= e <= zlen fb /\
  Forall (fun f => f <> []) frames.
Proof using Type.
  intros He HC HL. cbv zeta. revert end_ He HC. induction spans as [|s spans IH]; intros end_ He HC.
  - injection HC as <-. cbn. unfold slice. rewrite Z.sub_diag. repeat constructor; lia.
  - cbn [coverLoop] in HC. apply reject_bind_ok in HC as [[H1%Z.eqb_neq H2%negb_false_iff%Z.eqb_eq]%orb_false_iff HC].
    apply reject_bind_ok in HC as [H3%Z.ltb_ge HC]. apply Forall_cons_1 in HL as [HL0 HL].
    destruct (IH HL (end_ + sp_Length s) ltac:(lia) HC) as (I1 & I2 & I3 & I4).
    assert (Hz : zlen (spanFrame fb s) = sp_Length s).
    { unfold spanFrame. rewrite zlen_slice; lia. }
    cbn [fmap list_fmap spansOf concat]. rewrite Hz. split.
    { f_equal; [|exact I1]. destruct s as [o l]. cbn in *. by subst. }
    split; [|split; [lia|]].
    + rewrite I2. unfold spanFrame. rewrite H2. apply slice_cat; lia.
    + constructor; [|exact I4]. intros E. rewrite E, zlen_nil in Hz. lia.
Qed.

Lemma spansOf_lengths pos frames : Forall (fun s => 0 <= sp_Length s) (spansOf pos frames).
Proof using Type.
  revert pos. induction frames as [|f frames IH]; intros pos; constructor; [apply zlen_nonneg|apply IH].
Qed.

Lemma spans_cover pre frames post : Forall (fun f : bytes => f <> []) frames ->
  let fb := pre ++ concat frames ++ post in
  coverLoop (zlen fb) (zlen pre) (spansOf (zlen pre) frames) = Ok (zlen pre + zlen (concat frames)) /\
  spanFrame fb <$> spansOf (zlen pre) frames = frames.
Proof using Type.
  cbv zeta. revert pre. induction frames as [|f frames IH]; intros pre HN.
  - cbn. by rewrite zlen_nil, Z.add_0_r.
  - apply Forall_cons_1 in HN as [Hf HN]. specialize (IH (pre ++ f) HN) as [I1 I2].
    rewrite (zlen_app pre f), <- app_assoc in I1, I2.
    cbn [concat spansOf coverLoop fmap list_fmap sp_Length sp_Offset]. rewrite <- app_assoc, Z.eqb_refl.
    assert (Hz : (zlen f =? 0) = false) by (apply Z.eqb_neq; intros E; by apply zlen_zero in E).
    rewrite Hz. cbn [negb orb reject rbind].
    pose proof (zlen_nonneg (concat frames)). pose proof (zlen_nonneg post).
    match goal with |- context [?a <? ?b] => destruct (Z.ltb_spec a b) as [Hlt|_] end.
    { rewrite !zlen_app in Hlt. lia. }
    cbn [reject rbind]. split; [rewrite I1, (zlen_app f); f_equal; lia|].
    f_equal; [|exact I2]. unfold spanFrame. cbn [sp_Offset sp_Length]. apply slice_app; lia.
Qed.

Lemma copyLoop_payload c fb spans vs total pos dst :
  Forall2 (parsed (lc_spec c)) (spanFrame fb <$> spans) vs ->
  0 <= pos -> total <= zlen dst -> pos + zlen (concat (fv_payload <$> vs)) <= total ->
  copyLoop c fb total pos dst spans = writeAt dst pos (concat (fv_payload <$> vs)).
Proof using Type.
  revert vs pos dst. induction spans as [|s spans IH]; intros vs pos dst HF Hp Ht Hle;
    inversion HF as [|? v ? vs1 Hv HF1]; subst.
  - cbn. by rewrite writeAt_nil.
  - cbn [copyLoop fmap list_fmap concat] in *. unfold parsed in Hv. rewrite Hv.
    rewrite zlen_app in Hle. pose proof (zlen_nonneg (concat (fv_payload <$> vs1))).
    assert (Hc : ztake (total - pos) (fv_payload v) = fv_payload v).
    { unfold ztake. apply take_ge. unfold zlen in *. lia. }
    rewrite Hc. pose proof (zlen_nonneg (fv_payload v)).
    rewrite (IH vs1); try done; try lia; [|rewrite zlen_writeAt; lia].
    rewrite writeAt_app; [done|lia|lia].
Qed.

Lemma assemble_payload expected meta count i seen frames vs payload : length frames = length vs ->
  assemble expected meta count i seen (zip_with partOf frames vs) = Ok payload ->
  payload = concat (fv_payload <$> vs).
Proof using Type.
  revert vs i seen payload. induction frames as [|f frames IH]; intros [|v vs] i seen payload Hl HA; try done.
  { by injection HA as <-. }
  cbn [zip_with assemble] in HA. apply rbind_ok in HA as ([] & _ & HA).
  apply rbind_ok in HA as (tail & HA & HP). apply Ok_inj in HP as <-.
  apply IH in HA as ->; [done|]. by injection Hl.
Qed.

Record reassembles (spec : codecSpec) (frames : list bytes) (first : frameView) (vs : list frameView)
    (payload : bytes) : Prop := {
  ra_views : Forall2 (parsed spec) frames vs;
  ra_first : head vs = Some first;
  ra_count : fv_fragCount first = zlen frames;
  ra_payload : forall f0, assemble (partOf f0 first) (canon (fv_metadata first)) (zlen frames) 0 []
                            (zip_with partOf frames vs) = Ok payload;
}.

(** The frame the first view came from only shows in sizes nobody compares. *)
Lemma assemble_frame first f f' meta count i seen parts :
  assemble (partOf f first) meta count i seen parts = assemble (partOf f' first) meta count i seen parts.
Proof using Type.
  revert i seen. induction parts as [|part parts IH]; intros i seen; [done|].
  cbn [assemble]. by rewrite IH.
Qed.

Lemma decodeFrames_views spec frames op parts : decodeFramesWithSpec spec frames = Ok (op, parts) <->
  exists first vs payload, reassembles spec frames first vs payload /\
    parts = zip_with partOf frames vs /\
    op = materialize (fv_metadata first) (semantic (fv_msg first)) (fv_streamID first) payload.
Proof using Type.
  unfold decodeFramesWithSpec. rewrite rbind_ok. split.
  - intros (decoded & HD & HK). apply decodeAll_views in HD as (vs & HF & ->).
    inversion HF as [|f0 first fs vs1 Hv HF1]; subst; [done|]. cbn [zip_with] in HK.
    apply reject_bind_ok in HK as [Hc%negb_false_iff%Z.eqb_eq HK].
    assert (Hz : zlen (partOf f0 first :: zip_with partOf fs vs1) = zlen (f0 :: fs)).
    { unfold zlen. cbn [length]. rewrite length_zip_with_l_eq; [done|by eapply Forall2_length]. }
    rewrite Hz in Hc, HK. destruct (parseFrameView_wf _ _ _ Hv) as [W _].
    change (dOperation (partOf f0 first)) with (materialize (fv_metadata first) (semantic (fv_msg first))
      (fv_streamID first) (fv_payload first)) in HK.
    rewrite canon_shape in HK by done. cbn [map_err rbind] in HK.
    apply rbind_ok in HK as (payload & HA & HK). injection HK as <- <-.
    exists first, (first :: vs1), payload. split; [|done]. constructor; try done.
    intros f. erewrite assemble_frame. exact HA.
  - intros (first & vs & payload & [R1 R2 R3 R4] & -> & ->).
    exists (zip_with partOf frames vs). split; [apply decodeAll_views; eauto|].
    inversion R1 as [|f0 v0 fs vs1 Hv HF1]; subst; [done|]. injection R2 as ->.
    specialize (R4 f0). cbn [zip_with] in R4 |- *.
    assert (Hz : zlen (partOf f0 first :: zip_with partOf fs vs1) = zlen (f0 :: fs)).
    { unfold zlen. cbn [length]. rewrite length_zip_with_l_eq; [done|by eapply Forall2_length]. }
    rewrite Hz. change (FragCount (partOf f0 first)) with (fv_fragCount first).
    rewrite R3, Z.eqb_refl. cbn [negb reject rbind].
    destruct (parseFrameView_wf _ _ _ Hv) as [W _].
    change (dOperation (partOf f0 first)) with (materialize (fv_metadata first) (semantic (fv_msg first))
      (fv_streamID first) (fv_payload first)).
    rewrite canon_shape by done. cbn [map_err rbind]. rewrite R4. done.
Qed.

Lemma checkLoop_views c fb spans r : spans <> [] -> 0 <= lc_maxPayload c ->
  let frames := spanFrame fb <$> spans in
  checkLoop c fb (zlen spans) 0 0 None spans = Ok r <->
  exists first vs payload, reassembles (lc_spec c) frames first vs payload /\
    Forall (dataFrame (lc_spec c)) vs /\ zlen payload <= lc_maxPayload c /\
    r = (Some first, zlen payload).
Proof using Type.
  intros Hne Hmax. cbv zeta. destruct spans as [|s spans]; [done|].
  set (all := s :: spans) in *. assert (Hz : zlen all = zlen (spanFrame fb <$> all)).
  { unfold zlen. by rewrite length_fmap. }
  assert (Hstep : checkLoop c fb (zlen all) 0 0 None all = Ok r <->
    exists first, parsed (lc_spec c) (spanFrame fb s) first /\ fv_fragCount first = zlen all /\
      checkLoop c fb (zlen all) 0 0 (Some first) all = Ok r).
  { generalize (zlen all). intros count. unfold all. cbn [checkLoop]. rewrite rbind_ok. split.
    - intros (part & Hp%map_err_ok & HC). apply rbind_ok in HC as (first & HC1 & HC).
      apply reject_bind_ok in HC1 as [Hc%negb_false_iff%Z.eqb_eq HC1]. apply Ok_inj in HC1 as <-.
      exists part. split; [done|]. split; [done|]. rewrite Hp. exact HC.
    - intros (first & Hp & Hc & HC). exists first. split; [by apply map_err_ok|].
      unfold parsed in Hp. rewrite Hp in HC. cbn [map_err rbind] in HC. rewrite Hc, Z.eqb_refl. exact HC. }
  rewrite Hstep. clear Hstep. split.
  - intros (first & Hp & Hc & HC). destruct (parseFrameView_wf _ _ _ Hp) as [W _].
    apply (checkLoop_parts c fb (zlen all) first [] all 0 0 []) in HC
      as (vs & payload & HF & HD & HA & Hle & ->); try done.
    exists first, vs, payload. split; [|done]. inversion HF as [|? v0 ? vs1 Hv HF1]; subst.
    assert (v0 = first) as -> by (unfold parsed in *; congruence).
    constructor; [done|done|by rewrite <- Hz|]. intros f. rewrite <- Hz. erewrite assemble_frame. exact HA.
  - intros (first & vs & payload & [R1 R2 R3 R4] & HD & Hle & ->). exists first.
    inversion R1 as [|? v0 ? vs1 Hv HF1]; subst. injection R2 as ->. split; [done|].
    rewrite Hz. split; [done|]. destruct (parseFrameView_wf _ _ _ Hv) as [W _].
    apply (checkLoop_parts c fb _ first [] all 0 0 []); try done.
    exists (first :: vs1), payload. split_and!; try done.
Qed.

(** ** Decoding into a buffer is the allocating decoder *)

(** What [DecodeInto] requires of the frames, beyond their being decodable. *)
Record fitsInto (c : LiveDataCodecV3) (room : Z) (frames : list bytes) (op : Operation) : Prop := {
  fi_frames : zlen frames <= 256;
  fi_data : Semantic op = SemanticData;
  fi_stream : 2 <= StreamID op <= 65534;
  fi_bodies : Forall (fun f => exists v, parseFrameView (lc_spec c) f = Ok v /\
                        fv_bodyBytes v <= maxFrameBytes (lc_spec c)) frames;
  fi_payload : 0 < zlen (Payload op) <= room;
  fi_range : lc_minPayload c <= zlen (Payload op) <= lc_maxPayload c;
}.

Lemma dataFrames spec frames first vs payload : reassembles spec frames first vs payload ->
  Forall (dataFrame spec) vs <->
  semantic (fv_msg first) = SemanticData /\ 2 <= fv_streamID first <= 65534 /\
  Forall (fun f => exists v, parseFrameView spec f = Ok v /\ fv_bodyBytes v <= maxFrameBytes spec) frames.
Proof using Type.
  intros [R1 R2 R3 R4]. specialize (R4 []). apply assemble_same in R4. split.
  - intros HD. destruct vs as [|v0 vs]; [done|]. injection R2 as ->. 
    pose proof (Forall_inv HD) as [D1 D2 _]. split; [done|]. split; [done|].
    clear - R1 HD. revert HD. induction R1 as [|f v fs vs' Hv HF IH]; intros HD; [constructor|].
    apply Forall_cons_1 in HD as [[_ _ D] HD]. constructor; [|by apply IH]. by exists v.
  - intros (H1 & H2 & HB). clear R2 R3. induction R1 as [|f v fs vs' Hv HF IH]; [constructor|].
    cbn [zip_with] in R4. apply Forall_cons_1 in R4 as [[S1 S2] R4].
    apply Forall_cons_1 in HB as [(v' & Hv' & Hb) HB]. unfold parsed in Hv.
    assert (v' = v) as -> by congruence. constructor; [|by apply IH].
    cbn in S1, S2. constructor; [congruence|by rewrite S2|done].
Qed.

Lemma copy_back c fb spans first vs payload dst :
  reassembles (lc_spec c) (spanFrame fb <$> spans) first vs payload -> zlen payload <= zlen dst ->
  copyLoop c fb (zlen payload) 0 dst spans = payload ++ zdrop (zlen payload) dst.
Proof using Type.
  intros [R1 R2 R3 R4] Hl. specialize (R4 []).
  apply assemble_payload in R4; [|by eapply Forall2_length].
  rewrite (copyLoop_payload c fb spans vs); rewrite <- ?R4; try done; lia.
Qed.

Lemma decoded_nonempty spec frames vs : Forall2 (parsed spec) frames vs -> Forall (fun f => f <> []) frames.
Proof using Type.
  induction 1 as [|f v fs vs Hv HF IH]; constructor; [|done]. intros ->. unfold parsed, parseFrameView in Hv. done.
Qed.

Lemma DecodeInto_frames c dst fb spans dst' info :
  Forall (fun s => 0 <= sp_Length s) (st_spans spans) -> 0 <= lc_maxPayload c ->
  DecodeInto c dst fb spans = (dst', Ok info) <->
  byteSlicesOverlap dst fb = false /\ byteSlicesOverlap dst (spanBytes spans) = false /\
  exists frames op parts, st_spans spans = spansOf 0 frames /\ sl_bytes fb = concat frames /\
    decodeFramesWithSpec (lc_spec c) frames = Ok (op, parts) /\ fitsInto c (sl_len dst) frames op /\
    info = mkInfo (StreamID op) (zlen (Payload op)) /\
    dst' = Payload op ++ zdrop (zlen (Payload op)) (sl_bytes dst).
Proof using Type.
  intros HT Hmax. unfold DecodeInto. cbv zeta. split.
  - match goal with |- context [match ?o with Ok _ => _ | Err _ => _ end] => destruct o as [i|] eqn:EO end; [|done].
    intros [= <- <-]. apply reject_bind_ok in EO as [E1%Z.eqb_neq EO].
    apply reject_bind_ok in EO as [[E2%Z.ltb_ge E3]%orb_false_iff EO].
    apply reject_bind_ok in EO as [E4 EO]. apply rbind_ok in EO as (e & HC & EO).
    apply reject_bind_ok in EO as [->%negb_false_iff%Z.eqb_eq EO].
    apply rbind_ok in EO as ([first total] & HK & EO).
    apply reject_bind_ok in EO as [[[T1%Z.leb_gt T2%Z.ltb_ge]%orb_false_iff T3%Z.ltb_ge]%orb_false_iff EO].
    split; [done|]. split; [done|].
    apply coverLoop_spans in HC as (C1 & C2 & _ & _); [|unfold sl_len; pose proof (zlen_nonneg (sl_bytes fb)); lia|done].
    apply checkLoop_views in HK as (v & vs & payload & HR & HD & Hle & HE); [|by intros E; rewrite E in E1|done].
    injection HE as -> ->. apply Ok_inj in EO as <-. cbn [di_PayloadBytes].
    set (frames := spanFrame (sl_bytes fb) <$> st_spans spans) in *.
    set (op := materialize (fv_metadata v) (semantic (fv_msg v)) (fv_streamID v) payload).
    exists frames, op, (zip_with partOf frames vs). split; [exact C1|].
    split; [rewrite C2; unfold slice, sl_len; cbn [drop Z.to_nat]; rewrite Z.sub_0_r; symmetry; apply ztake_all|].
    split; [apply decodeFrames_views; by exists v, vs, payload|].
    apply (dataFrames _ _ _ _ _ HR) in HD as (D1 & D2 & D3).
    split; [|split; [done|]].
    + constructor; try done. by unfold frames, zlen; rewrite length_fmap.
    + by apply (copy_back _ _ _ v vs).
  - intros (O1 & O2 & frames & op & parts & S1 & S2 & HD & [F1 F2 F3 F4 F5 F6] & -> & ->).
    apply decodeFrames_views in HD as (v & vs & payload & HR & -> & ->).
    pose proof (decoded_nonempty _ _ _ (ra_views _ _ _ _ _ HR)) as HN.
    destruct (spans_cover [] frames [] HN) as [C1 C2]. rewrite app_nil_r in C1, C2.
    cbn [app] in C1, C2. change (zlen (@nil Byte.byte)) with 0 in C1, C2. rewrite Z.add_0_l in C1.
    assert (Hz : zlen (st_spans spans) = zlen frames) by (rewrite S1; unfold zlen; by rewrite length_spansOf).
    cbn [materialize Semantic StreamID Payload] in F2, F3, F5, F6 |- *.
    assert (Hne : st_spans spans <> []).
    { intros E. rewrite E in Hz. destruct frames; [|unfold zlen in Hz; done].
      pose proof (ra_views _ _ _ _ _ HR) as HV. inversion HV; subst. discriminate (ra_first _ _ _ _ _ HR). }
    assert (Hn0 : (zlen (st_spans spans) =? 0) = false).
    { apply Z.eqb_neq. intros E. by apply zlen_zero in E. }
    assert (HK : checkLoop c (sl_bytes fb) (zlen (st_spans spans)) 0 0 None (st_spans spans)
      = Ok (Some v, zlen payload)).
    { apply checkLoop_views; [done|done|]. rewrite S1, S2, C2. exists v, vs, payload.
      split; [done|]. split; [by apply (dataFrames _ _ _ _ _ HR)|]. split; [lia|done]. }
    rewrite Hn0, O1, O2, HK. unfold sl_len in *. rewrite S1, S2, C1. cbn [rbind]. rewrite Z.eqb_refl, <- S1, Hz.
    destruct (Z.ltb_spec 256 (zlen frames)); [lia|]. cbn [orb reject rbind negb].
    destruct (Z.leb_spec (zlen payload) 0); [lia|]. destruct (Z.ltb_spec (zlen payload) (lc_minPayload c)); [lia|].
    destruct (Z.ltb_spec (zlen (sl_bytes dst)) (zlen payload)); [lia|]. cbn [orb reject rbind di_PayloadBytes].
    rewrite S1. rewrite (copy_back _ _ _ v vs payload); [done| |lia]. by rewrite C2.
Qed.

(** A refused input leaves the destination alone. *)
Lemma DecodeInto_error c dst fb spans dst' e : DecodeInto c dst fb spans = (dst', Err e) ->
  dst' = sl_bytes dst.
Proof using Type.
  unfold DecodeInto. cbv zeta.
  match goal with |- context [match ?o with Ok _ => _ | Err _ => _ end] => destruct o end; [done|].
  by intros [= <- _].
Qed.

End decode.

(** ** The frames of an encoded operation *)

Lemma encodeParts_length `{Rand} spec op engine payload i c sizes frames :
  encodeParts spec op engine payload i c sizes = Ok frames -> length frames = length sizes.
Proof.
  revert engine payload i frames. induction sizes as [|n sizes IH]; intros engine payload i frames HE.
  { by injection HE as <-. }
  cbn [encodeParts] in HE. destruct (Generate engine) as [engine' pad].
  apply rbind_ok in HE as (pd & _ & HE). apply rbind_ok in HE as (frame & _ & HE).
  apply rbind_ok in HE as (rest & Hr & HE). apply Ok_inj in HE as <-. cbn [length]. by rewrite (IH _ _ _ _ Hr).
Qed.

Lemma encode_bodies `{Rand} spec op msg seed frames : sendable spec op msg ->
  encodeOperationWithSpec spec op seed = Ok frames ->
  Forall (fun f => exists v, parseFrameView spec f = Ok v /\ fv_bodyBytes v <= maxFrameBytes spec) frames.
Proof.
  intros Hs HE. destruct (encodeOperation_fragments spec op msg seed frames Hs HE)
    as (l & meta & -> & Hne & Hlt & _ & _ & Hcat & Hall).
  assert (Hmax : zlen (Payload op) <= maxPayloadBytes spec).
  { unfold encodeOperationWithSpec in HE. by apply reject_bind_ok in HE as [Hp%Z.ltb_ge _]. }
  assert (Hz : 1 <= zlen l) by (destruct l; [done|rewrite zlen_cons; pose proof (zlen_nonneg l); lia]).
  assert (Hch : Forall (fun f => zlen (fr_chunk f) <= zlen (Payload op)) l).
  { rewrite <- Hcat. clear. induction l as [|f l IH]; constructor; rewrite fmap_cons, concat_cons, zlen_app.
    - pose proof (zlen_nonneg (concat (fr_chunk <$> l))). lia.
    - eapply Forall_impl; [exact IH|]. cbn. intros g Hg. pose proof (zlen_nonneg (fr_chunk f)). lia. }
  rewrite Forall_fmap. apply Forall_forall. intros f Hf. rewrite Forall_forall in Hall, Hch.
  destruct (Hall f Hf) as (k & Hk & HF). specialize (Hch f Hf). destruct Hs as [S1 S2 S3 S4 S5 S6].
  pose proof (encodeFrame_pad _ _ _ _ _ _ HF).
  destruct (frame_view spec (withPayload op (fr_chunk f)) (fr_pad f) k (zlen l) (fr_frame f) msg)
    as (body & Hb & Hv); try done; try lia; [by apply wireRange_payload|cbn; lia|]. cbn. rewrite Hv. eauto.
Qed.

(** ** Codecs of a program *)

Section program.
Context `{Encoding, R : Rand} {RL : RandLaws R} (program : ProgramV1).

(** A codec is made once and then used; encoding moves its random state. *)
Inductive liveCodec : LiveDataCodecV3 -> Prop :=
  | live_new c : NewLiveDataCodecV3 program = Ok c -> liveCodec c
  | live_encode c dst scratch payload id seed spans seq c' dst' scratch' spans' r :
      liveCodec c ->
      encodeDataInto c dst scratch payload id seed spans seq = (c', dst', scratch', spans', r) ->
      liveCodec c'.

Lemma NewLiveDataCodecV3_codec c : NewLiveDataCodecV3 program = Ok c ->
  exists data pad, liveValid program data pad /\
    codecSpecFromLiveProgram program = Ok (liveSpec program data pad) /\ codecOf program data pad c.
Proof using Type.
  unfold NewLiveDataCodecV3. intros (spec & HS%map_err_ok & HN)%rbind_ok.
  destruct (codecSpec_live _ _ HS) as (data & pad & HL & ->). exists data, pad.
  split; [done|]. split; [done|]. rewrite (lv_messages _ _ _ HL) in HN.
  apply reject_bind_ok in HN as [_ HN]. apply Ok_inj in HN as <-.
  constructor; try done. cbn [lc_chunk]. unfold chunkLimit.
  pose proof (lv_frame _ _ _ HL) as Hf. change (ll_MaxFrameBytes (lp_Limits program))
    with (maxFrameBytes (liveSpec program data pad)) in Hf.
  rewrite int64_small by (unfold_widths; lia). change (16 * 1024) with 16384.
  repeat match goal with |- context [if ?b then _ else _] => destruct b eqn:? end;
    repeat match goal with G : (_ <? _) = true |- _ => apply Z.ltb_lt in G
                         | G : (_ <? _) = false |- _ => apply Z.ltb_ge in G end; lia.
Qed.

Lemma GenerateInto_policy e dst : policy (fst (GenerateInto e dst)) = policy e.
Proof using Type.
  unfold GenerateInto. case_bool_decide; [done|]. destruct (_ || _); [done|]. destruct (_ <? _); [done|].
  pose proof (selectSize_policy e) as Hp. destruct (selectSize e) as [e' [[size []]|err]]; cbn [fst] in *; try done.
  by destruct (fill _ _).
Qed.

Lemma encodeLoop_codec data pad b id meta fuel i pos offset payload c frames scratch spans :
  codecOf program data pad c ->
  codecOf program data pad
    (fst (fst (fst (fst (encodeLoop c b id meta fuel i pos offset payload frames scratch spans))))).
Proof using Type.
  revert i pos offset c frames scratch spans.
  induction fuel as [|fuel IH]; intros i pos offset c frames scratch spans Hc; [exact Hc|].
  cbn [encodeLoop]. pose proof (GenerateInto_policy (lc_engine c) (ztake (lb_PaddingBytes b) scratch)) as Hg.
  destruct (GenerateInto _ _) as [e [used pl]]. cbv zeta.
  match goal with |- context [match ?r with Ok _ => _ | Err _ => (0, 0) end] => destruct r as [[bd w]|] end;
    apply IH; constructor; try apply Hc; cbn [lc_engine fst] in *; rewrite Hg; apply Hc.
Qed.

Lemma encodeDataInto_codec data pad c dst scratch payload id seed spans seq c' dst' scratch' spans' r :
  codecOf program data pad c ->
  encodeDataInto c dst scratch payload id seed spans seq = (c', dst', scratch', spans', r) ->
  codecOf program data pad c' /\
  (isOk r = false -> c' = c /\ dst' = sl_bytes dst /\ scratch' = sl_bytes scratch /\
                     spans' = from_option st_spans [] spans).
Proof using Type.
  intros Hc HE. unfold encodeDataInto in HE. cbv zeta in HE.
  destruct (Bounds c (sl_len payload)) as [b|]; [|by injection HE as <- <- <- <- <-].
  destruct spans as [table|]; [|by injection HE as <- <- <- <- <-].
  destruct (_ || _); [by injection HE as <- <- <- <- <-|].
  destruct (_ || _); [by injection HE as <- <- <- <- <-|].
  set (c1 := mkLiveCodec (lc_spec c) _ _ _ (ResetSeed (lc_engine c) seed)) in HE.
  assert (Hc1 : codecOf program data pad c1) by (constructor; apply Hc).
  pose proof (encodeLoop_codec data pad b id (writeOperationMetadata (dataOperation 0 seq []))
    (Z.to_nat (lb_FrameCount b)) 0 0 0 (sl_bytes payload) c1 (sl_bytes dst) (sl_bytes scratch)
    (st_spans table) Hc1) as Hl.
  destruct (encodeLoop _ _ _ _ _ _ _ _ _ _ _ _) as [[[[c2 f2] s2] sp2] pos].
  injection HE as <- <- <- <- <-. by split.
Qed.

Lemma liveCodec_codec c : liveCodec c ->
  exists data pad, liveValid program data pad /\
    codecSpecFromLiveProgram program = Ok (liveSpec program data pad) /\ codecOf program data pad c.
Proof using Type.
  induction 1 as [c HN|c dst scratch payload id seed spans seq c' dst' scratch' spans' r _ IH HE];
    [by apply NewLiveDataCodecV3_codec|].
  destruct IH as (data & pad & HL & HS & Hc). exists data, pad. split; [done|]. split; [done|].
  by eapply encodeDataInto_codec.
Qed.

Lemma liveCodec_max c : liveCodec c -> 0 <= lc_maxPayload c.
Proof using Type.
  intros (data & pad & HL & _ & Hc)%liveCodec_codec. rewrite (co_max _ _ _ _ Hc).
  pose proof (lv_payload _ _ _ HL). pose proof (lv_limit _ _ _ HL).
  change (maxPayloadBytes (liveSpec program data pad)) with (ll_MaxPayloadBytes (lp_Limits program)). lia.
Qed.

(** Encoding into the caller's buffers is the allocating encoder: on
    success the destination starts with the frames of [EncodeLiveOperation],
    back to back, the span table describes exactly those frames, and the rest
    of both is untouched; on a refusal the codec, the buffers and the span
    table are what they were. *)
Theorem live_encode_agrees c dst scratch payload id seed table seq c' dst' scratch' spans' r :
  liveCodec c -> zlen (st_spans table) = 256 ->
  encodeDataInto c dst scratch payload id seed (Some table) seq = (c', dst', scratch', spans', r) ->
  match r with
  | Ok (n, count) => exists frames,
      EncodeLiveOperation program (dataOperation id seq (sl_bytes payload)) seed = Ok frames /\
      count = zlen frames /\ n = zlen (concat frames) /\
      dst' = concat frames ++ zdrop n (sl_bytes dst) /\
      spans' = spansOf 0 frames ++ drop (length frames) (st_spans table)
  | Err _ => c' = c /\ dst' = sl_bytes dst /\ scratch' = sl_bytes scratch /\ spans' = st_spans table
  end.
Proof using RL.
  intros (data & pad & HL & HS & Hc)%liveCodec_codec Ht HE. destruct r as [[n count]|e].
  - destruct (encodeDataInto_agrees program data pad HL c dst scratch payload id seed table seq c' dst'
      scratch' spans' n count Hc ltac:(lia) HE) as (frames & H1 & H2 & H3 & _ & _ & _ & _ & _ & H4 & H5 & _).
    exists frames. unfold EncodeLiveOperation. rewrite HS. done.
  - destruct (encodeDataInto_codec _ _ _ _ _ _ _ _ _ _ _ _ _ _ _ Hc HE) as [_ Hk]. by apply Hk.
Qed.

(** Decoding into the caller's buffer is the allocating decoder within the
    data bounds: it accepts exactly when the buffers do not overlap, the spans
    are those of consecutive frames that fill the input, [DecodeLiveFrames]
    accepts these frames, and the result is a data operation that fits; then
    the payload stands at the front of the destination and the rest of it is
    untouched. A refusal leaves the destination alone. *)
Theorem live_decode_agrees c dst fb spans dst' r : liveCodec c ->
  Forall (fun s => 0 <= sp_Length s) (st_spans spans) ->
  (forall info, DecodeInto c dst fb spans = (dst', Ok info) <->
     byteSlicesOverlap dst fb = false /\ byteSlicesOverlap dst (spanBytes spans) = false /\
     exists frames op parts, st_spans spans = spansOf 0 frames /\ sl_bytes fb = concat frames /\
       DecodeLiveFrames program frames = Ok (op, parts) /\ fitsInto c (sl_len dst) frames op /\
       info = mkInfo (StreamID op) (zlen (Payload op)) /\
       dst' = Payload op ++ zdrop (zlen (Payload op)) (sl_bytes dst)) /\
  (DecodeInto c dst fb spans = (dst', r) -> isOk r = false -> dst' = sl_bytes dst).
Proof using Type.
  intros Hl Ht. split.
  - intros info. rewrite DecodeInto_frames by (done || by apply liveCodec_max).
    apply liveCodec_codec in Hl as (data & pad & HL & HS & Hc).
    unfold DecodeLiveFrames. rewrite HS, (co_spec _ _ _ _ Hc). done.
  - intros HD Hr. destruct r as [|e]; [done|]. by eapply DecodeInto_error.
Qed.

(** C35: Decoding undoes encoding: what one codec of a program wrote, another
    codec of the program reads back into a buffer of its own as the stream id
    and the payload, byte for byte. *)
Theorem live_roundtrip c d dst scratch payload id seed table seq c' dst' scratch' spans' n count
    out fbBase spansBase : liveTyped program -> u64 seq -> liveCodec c -> liveCodec d ->
  zlen (st_spans table) = 256 ->
  encodeDataInto c dst scratch payload id seed (Some table) seq
    = (c', dst', scratch', spans', Ok (n, count)) ->
  let fb := mkSlice fbBase (ztake n dst') in
  let spans := mkSpans spansBase (take (Z.to_nat count) spans') in
  sl_len payload <= sl_len out ->
  byteSlicesOverlap out fb = false -> byteSlicesOverlap out (spanBytes spans) = false ->
  DecodeInto d out fb spans =
    (sl_bytes payload ++ zdrop (sl_len payload) (sl_bytes out), Ok (mkInfo id (sl_len payload))).
Proof using RL.
  intros HT Hseq Hlc Hld Ht HE fb spans Hroom O1 O2.
  pose proof (liveCodec_max d Hld) as Hmax.
  apply liveCodec_codec in Hlc as (data & pad & HL & HS & Hc).
  apply liveCodec_codec in Hld as (data2 & pad2 & HL2 & HS2 & Hd).
  assert (data2 = data /\ pad2 = pad) as [-> ->].
  { pose proof (lv_messages _ _ _ HL). pose proof (lv_messages _ _ _ HL2). split; congruence. }
  destruct (encodeDataInto_agrees program data pad HL c dst scratch payload id seed table seq c' dst'
    scratch' spans' n count Hc ltac:(lia) HE) as (frames & H1 & H2 & H3 & H4 & H5 & H6 & H7 & H8 & H9 & H10 & _).
  set (spec := liveSpec program data pad) in *. set (op := dataOperation id seq (sl_bytes payload)) in *.
  change (fragmentationMode spec) with (fragmentationMode (liveSpec program data pad)) in *.
  assert (Hs : sendable spec op (mkCodecMessage (lm_Semantic data) (lm_WireSymbol data)
    (cf_DataTypeTag (lf_Compiled (lp_Frame program))))).
  { constructor; [by apply live_goodSpec| |by apply live_semantic|by apply live_tag|done|].
    - constructor; unfold op; cbn; unfold_widths; lia || done.
    - unfold encodeOperationWithSpec in H1. apply reject_bind_ok in H1 as [_ H1].
      apply reject_bind_ok in H1 as [_ H1]. apply encodeParts_length in H1. unfold zlen in *. lia. }
  destruct (encode_decode spec op _ seed frames Hs H1) as (parts & _ & HD).
  pose proof (encode_bodies spec op _ seed frames Hs H1) as HB.
  assert (Hsp : st_spans spans = spansOf 0 frames).
  { unfold spans. cbn [st_spans]. rewrite H10, H2. unfold zlen. rewrite Nat2Z.id, <- (length_spansOf 0 frames).
    apply take_app_length. }
  apply DecodeInto_frames; [|done|].
  { rewrite Hsp. apply spansOf_lengths. }
  split; [done|]. split; [done|]. exists frames, op, parts. split; [done|].
  split; [unfold fb; cbn [sl_bytes]; rewrite H9, H3; apply ztake_app|].
  rewrite (co_spec _ _ _ _ Hd). split; [done|]. split; [|done].
  constructor; try done; [by rewrite (co_spec _ _ _ _ Hd)|].
  change (Payload op) with (sl_bytes payload). fold (sl_len payload).
  rewrite (co_min _ _ _ _ Hd), (co_max _ _ _ _ Hd), <- (co_min _ _ _ _ Hc), <- (co_max _ _ _ _ Hc).
  exact H5.
Qed.

End program.

(** ** Witnesses *)

Definition sampleProgram : ProgramV1 :=
  let source := replicate 32 Byte.x07 in
  mkProgramV1 SchemaV1 (@DeriveProgramIDV1 toyEncoding source) "1" source
    [mkMessageV1 "data" "sym_data" "bidirectional" 1 4096;
     mkMessageV1 "padding" "sym_pad" "bidirectional" 0 64]
    (mkFrameV1 "varint_prefix" "explicit_generated_tag" ["type"; "length"; "flags"; "stream"]
       "fixed_size_chunks" "crc32" "suffix" (mkCompiledFramingV1 [Byte.x01; Byte.x02] [Byte.x03] 77 99 5))
    (mkSchedulerV1 "balanced" "weighted" 16 10 8) (mkStreamV1 "profile_xor32" 8)
    (mkPaddingV1 "bounded" 1 8 f64_zero)
    (mkSecurityV1 "1" "1"
       (mkSecurityPolicyV1 "1" "canonical_v1" "kdf_hkdf_sha256" "aead_aes_256_gcm" "mac_hmac_sha256"
          "counter_xor_base" "ordered_only" 64 "strict_capabilities" "strict_required" "strict_schema"
          "session_only" "strict_required" "metadata_authenticated" 1000 100)
       ["nonce_schedule"] ["replay_window"] ["nonce_schedule"; "replay_window"])
    (mkLimitsV1 4096 4096 1000 1000 100).

Definition sampleCodec : @LiveDataCodecV3 toyRand :=
  match @NewLiveDataCodecV3 toyEncoding toyRand sampleProgram with
  | Ok c => c
  | Err _ => mkLiveCodec (liveSpec sampleProgram (mkMessageV1 "" "" "" 0 0) (mkMessageV1 "" "" "" 0 0)) 0 0 1
               (New (mkPaddingPolicy "none" 0 0 f64_zero) 0)
  end.

Lemma sampleCodec_live : @liveCodec toyEncoding toyRand sampleProgram sampleCodec.
Proof. apply live_new. vm_compute. reflexivity. Defined.

Definition samplePayload : Slice := mkSlice 3000 (sbytes "a live payload of thirty-six bytes..").
Definition sampleDst : Slice := mkSlice 1000 (replicate 320 Byte.x00).
Definition sampleScratch : Slice := mkSlice 2000 (replicate 8 Byte.x00).
Definition sampleTable : SpanTable := mkSpans 8000 (replicate 256 (mkSpan 0 0)).
Definition sampleOut : Slice := mkSlice 5000 (replicate 40 Byte.xff).

Definition sampleSent :=
  @encodeDataInto toyRand sampleCodec sampleDst sampleScratch samplePayload 5 42 (Some sampleTable) 0.

Definition sentFrames : list bytes :=
  match @EncodeLiveOperation toyEncoding toyRand sampleProgram (dataOperation 5 0 (sl_bytes samplePayload)) 42 with
  | Ok frames => frames
  | Err _ => []
  end.

Lemma live_encode_agrees_witness : exists n,
  sampleSent.2 = Ok (n, 3) /\ take 3 sampleSent.1.2 = spansOf 0 sentFrames /\
  ztake n sampleSent.1.1.1.2 = concat sentFrames.
Proof.
  pose proof (@live_encode_agrees toyEncoding toyRand toyRand_laws sampleProgram sampleCodec sampleDst
    sampleScratch samplePayload 5 42 sampleTable 0 sampleSent.1.1.1.1 sampleSent.1.1.1.2 sampleSent.1.1.2
    sampleSent.1.2 sampleSent.2 sampleCodec_live eq_refl ltac:(vm_compute; reflexivity)) as HW.
  assert (E : exists n, sampleSent.2 = Ok (n, 3)) by (eexists; vm_compute; reflexivity).
  destruct E as [n E]. exists n. rewrite E in HW. destruct HW as (frames & H1 & H2 & H3 & H4 & H5).
  assert (frames = sentFrames) as -> by (unfold sentFrames; by rewrite H1).
  split; [exact E|]. rewrite H4, H5, H3. split; [|apply ztake_app]. vm_compute. reflexivity.
Defined.

Lemma live_decode_agrees_witness :
  @DecodeInto toyRand sampleCodec sampleOut (mkSlice 1000 (concat sentFrames))
    (mkSpans 8000 (spansOf 0 sentFrames))
  = (sl_bytes samplePayload ++ replicate 4 Byte.xff, Ok (mkInfo 5 36)).
Proof.
  apply (@live_decode_agrees toyEncoding toyRand sampleProgram sampleCodec sampleOut
    (mkSlice 1000 (concat sentFrames)) (mkSpans 8000 (spansOf 0 sentFrames)) _ (Ok (mkInfo 5 36))
    sampleCodec_live); [apply spansOf_lengths|].
  split; [vm_compute; reflexivity|]. split; [vm_compute; reflexivity|].
  exists sentFrames, (dataOperation 5 0 (sl_bytes samplePayload)).
  eexists. split; [reflexivity|]. split; [reflexivity|]. split; [vm_compute; reflexivity|].
  split; [|split; vm_compute; reflexivity].
  constructor; [vm_compute; congruence|vm_compute; reflexivity|vm_compute; split; congruence| |
    vm_compute; split; congruence|vm_compute; split; congruence].
  repeat (constructor; [eexists; split; [vm_compute; reflexivity|vm_compute; congruence]|]). constructor.
Defined.

Lemma live_roundtrip_witness :
  @DecodeInto toyRand sampleCodec sampleOut (mkSlice 1000 (concat sentFrames))
    (mkSpans 8000 (spansOf 0 sentFrames))
  = (sl_bytes samplePayload ++ replicate 4 Byte.xff, Ok (mkInfo 5 36)).
Proof.
  pose proof (@live_roundtrip toyEncoding toyRand toyRand_laws sampleProgram sampleCodec sampleCodec
    sampleDst sampleScratch samplePayload 5 42 sampleTable 0 sampleSent.1.1.1.1 sampleSent.1.1.1.2
    sampleSent.1.1.2 sampleSent.1.2 (zlen (concat sentFrames)) 3 sampleOut 1000 8000) as HW.
  cbv zeta in HW. assert (E1 : ztake (zlen (concat sentFrames)) sampleSent.1.1.1.2 = concat sentFrames)
    by (vm_compute; reflexivity).
  assert (E2 : take (Z.to_nat 3) sampleSent.1.2 = spansOf 0 sentFrames) by (vm_compute; reflexivity).
  rewrite E1, E2 in HW. apply HW; clear HW; try exact sampleCodec_live; try (vm_compute; reflexivity);
    vm_compute; repeat split; congruence.
Defined.
