(* ===== verification/LiveCodec.v ===== *)
(** * The binary form of live programs

    [src/internal/protocol/liveprogram/codec_v1.go] and
    [resource_preflight_v1.go]. The CBOR library is the interface [Cbor]: its
    deterministic encoder over the values the codec builds ([cval]) and its
    strict decoder into each Go type the codec asks for. [CborLaws] says what
    the library documents of the two together: decoding undoes encoding within
    the decoder's limits, the encoding of a value starts with its major type,
    and an encoding is canonical. A Go map is an association list in key order;
    raw map fields are a [gmap]. Clearing buffers is not observable. *)

From S2P Require Import Prelude GoBytes GoJson Ir Validate LiveProgram.
From Stdlib Require Import ZArith Lia Floats.SpecFloat Strings.Byte.
From stdpp Require Import base list gmap strings.
Local Open Scope Z_scope.

Inductive cval :=
  | CInt (z : Z)
  | CText (s : string)
  | CBytes (b : bytes)
  | CFloat (f : spec_float)
  | CArr (l : list cval)
  | CMap (l : list (Z * cval)).

(** One decoder per Go type: [string], [[]byte], [int], [uint32], [float64],
    [[]string] and [[]cbor.RawMessage]. *)
Record decoder := mkDecoder {
  dString : bytes -> option string;
  dBytes : bytes -> option bytes;
  dInt : bytes -> option Z;
  dUint32 : bytes -> option Z;
  dFloat : bytes -> option spec_float;
  dStrings : bytes -> option (list string);
  dRaws : bytes -> option (list bytes);
}.

Class Cbor := {
  cborMarshal : cval -> option bytes;
  cborDecode : decoder;
  cborFields : bytes -> option (gmap Z bytes);   (* map[uint64]cbor.RawMessage *)
  cborAny : bytes -> option cval;
}.

(** *** What the library documents

    A value the decoder takes within its limits: 32 levels, arrays of at most 64
    elements, maps of at most 32 pairs with distinct keys, UTF-8 text, integers
    of 64 bits and numbers that are floats. *)

Fixpoint validUtf8 (fuel : nat) (l : bytes) : bool :=
  match fuel, l with
  | _, [] => true
  | O, _ => false
  | S fuel, b :: rest =>
      if bz b <? 128 then validUtf8 fuel rest
      else match decodedSize l with O => false | n => validUtf8 fuel (drop n l) end
  end.

Definition textOk (s : string) : bool := let b := sbytes s in validUtf8 (length b) b.

Fixpoint fits (depth : nat) (v : cval) : bool :=
  match depth with
  | O => false
  | S d =>
      match v with
      | CInt z => (- 2 ^ 63 <=? z) && (z <? 2 ^ 64)
      | CText s => textOk s
      | CBytes _ => true
      | CFloat f => negb (isNaN f) && valid_binary 53 1024 f
      | CArr l => (zlen l <=? 64) && forallb (fits d) l
      | CMap l => (zlen l <=? 32) && bool_decide (NoDup (fst <$> l))
          && forallb (fun kv => (0 <=? fst kv) && (fst kv <? 2 ^ 64) && fits d (snd kv)) l
      end
  end.

Definition maxNestedLevels : nat := 32.

(** The head byte of the encoding of a value. *)
Definition headOf (v : cval) (h : Z) : Prop :=
  match v with
  | CInt z => Z.shiftr h 5 = if z <? 0 then 1 else 0
  | CBytes _ => Z.shiftr h 5 = 2
  | CText _ => Z.shiftr h 5 = 3
  | CArr _ => Z.shiftr h 5 = 4
  | CMap _ => Z.shiftr h 5 = 5
  | CFloat _ => 249 <= h <= 251
  end.

Class CborLaws (cbor : Cbor) : Prop := {
  law_int z b : i64 z -> cborMarshal (CInt z) = Some b ->
    dInt cborDecode b = Some z;
  law_uint32 z b : u32 z -> cborMarshal (CInt z) = Some b -> dUint32 cborDecode b = Some z;
  law_text s b : textOk s = true -> cborMarshal (CText s) = Some b -> dString cborDecode b = Some s;
  law_bytes x b : cborMarshal (CBytes x) = Some b -> dBytes cborDecode b = Some x;
  law_float f b : fits 1 (CFloat f) = true -> cborMarshal (CFloat f) = Some b -> dFloat cborDecode b = Some f;
  law_texts l b : fits 2 (CArr (CText <$> l)) = true -> cborMarshal (CArr (CText <$> l)) = Some b ->
    dStrings cborDecode b = Some l;
  law_array l b : fits maxNestedLevels (CArr l) = true -> cborMarshal (CArr l) = Some b ->
    exists raws, dRaws cborDecode b = Some raws /\ Forall2 (fun v raw => cborMarshal v = Some raw) l raws;
  law_map l b : fits maxNestedLevels (CMap l) = true -> cborMarshal (CMap l) = Some b ->
    exists fields, cborFields b = Some fields /\ size fields = length l /\
      forall k v, (k, v) ∈ l -> exists raw, fields !! k = Some raw /\ cborMarshal v = Some raw;
  law_any v b : fits maxNestedLevels v = true -> cborMarshal v = Some b ->
    exists w, cborAny b = Some w /\ cborMarshal w = Some b;
  law_head v b : cborMarshal v = Some b -> exists h rest, b = h :: rest /\ headOf v (bz h);
}.

Definition orSchema {A} (o : option A) : result ErrorCategory A :=
  match o with Some a => Ok a | None => Err ErrorSchema end.

(** ** Encoding *)

Definition messageMap (v : MessageV1) : cval :=
  CMap [(1, CText (lm_Semantic v)); (2, CText (lm_WireSymbol v)); (3, CText (lm_Direction v));
        (4, CInt (lm_MinPayloadBytes v)); (5, CInt (lm_MaxPayloadBytes v))].

Definition messageMaps (values : list MessageV1) : cval := CArr (messageMap <$> values).

Definition compiledMap (v : CompiledFramingV1) : cval :=
  CMap [(1, CBytes (cf_DataTypeTag v)); (2, CBytes (cf_PaddingTypeTag v)); (3, CInt (cf_ProfileXORStreamMask v));
        (4, CInt (cf_TableStreamMask v)); (5, CInt (cf_CRC32PrefixState v))].

Definition texts (l : list string) : cval := CArr (CText <$> l).

Definition frameMap (v : FrameV1) : cval :=
  CMap [(1, CText (lf_LengthMode v)); (2, CText (lf_TypeMode v)); (3, texts (lf_HeaderOrder v));
        (4, CText (lf_FragmentationMode v)); (5, CText (lf_ChecksumMode v)); (6, CText (lf_PaddingPlacement v));
        (7, compiledMap (lf_Compiled v))].

Definition schedulerMap (v : SchedulerV1) : cval :=
  CMap [(1, CText (ls_Mode v)); (2, CInt (ls_MaxBatchBytes v)); (3, CInt (ls_FlushIntervalMs v));
        (4, CInt (ls_MaxInFlightFrames v)); (5, CText (ls_PriorityMode v))].

Definition streamMap (v : StreamV1) : cval :=
  CMap [(1, CText (lst_IDEncodingMode v)); (2, CInt (lst_MaxConcurrentStreams v))].

Definition paddingMap (v : PaddingV1) : cval :=
  CMap [(1, CText (lpd_Mode v)); (2, CInt (lpd_MinPaddingBytes v)); (3, CInt (lpd_MaxPaddingBytes v));
        (4, CFloat (lpd_Probability v))].

Definition securityPolicyMap (v : SecurityPolicyV1) : cval :=
  CMap [(1, CText (lsp_SecurityVersion v)); (2, CText (lsp_TranscriptMode v)); (3, CText (lsp_KDFSuite v));
        (4, CText (lsp_AEADSuite v)); (5, CText (lsp_MACSuite v)); (6, CText (lsp_NonceMode v));
        (7, CText (lsp_ReplayPolicy v)); (8, CInt (lsp_ReplayWindowSize v)); (9, CText (lsp_DowngradePolicy v));
        (10, CText (lsp_CapabilityNegotiationPolicy v)); (11, CText (lsp_ProfileCompatibilityPolicy v));
        (12, CText (lsp_KeyRotationPolicy v)); (13, CText (lsp_ConfigValidationPolicy v));
        (14, CText (lsp_SecureEnvelopeMode v)); (15, CInt (lsp_MaxSessionMessages v));
        (16, CInt (lsp_MaxKeyLifetimeMessages v))].

Definition securityMap (v : SecurityV1) : cval :=
  CMap [(1, CText (lse_CompilerSecurityVersion v)); (2, CText (lse_MinimumRuntimeVersion v));
        (3, securityPolicyMap (lse_Policy v)); (4, texts (lse_ClientMandatoryCapabilities v));
        (5, texts (lse_RelayMandatoryCapabilities v)); (6, texts (lse_SelectedCapabilities v))].

Definition limitsMap (v : LimitsV1) : cval :=
  CMap [(1, CInt (ll_MaxFrameBytes v)); (2, CInt (ll_MaxPayloadBytes v)); (3, CInt (ll_MaxSessionMillis v));
        (4, CInt (ll_MaxSessionMessages v)); (5, CInt (ll_MaxKeyLifetimeMessages v))].

Definition programMap (p : ProgramV1) : cval :=
  CMap [(1, CText (lp_Schema p)); (2, CBytes (lp_ProgramID p)); (3, CText (lp_SourceSchemaVersion p));
        (4, CBytes (lp_SourceGenerationHash p)); (5, messageMaps (lp_Messages p)); (6, frameMap (lp_Frame p));
        (7, schedulerMap (lp_Scheduler p)); (8, streamMap (lp_Stream p)); (9, paddingMap (lp_Padding p));
        (10, securityMap (lp_Security p)); (11, limitsMap (lp_Limits p))].

Definition programFieldCount : Z := 11.

Section codec.
Context `{Encoding} `{Cbor}.

Definition EncodeV1 (program : ProgramV1) : result ErrorCategory bytes :=
  let? _ := ValidateV1 program in
  match cborMarshal (programMap program) with
  | None => Err ErrorNonCanonical
  | Some encoded =>
      fail? (zlen encoded =? 0) || (MaxEncodedBytes <? zlen encoded) with ErrorSize in
      Ok encoded
  end.

(** ** Decoding *)

(** The labels [1..count], and the field under a label. *)
Definition rawMap (raw : bytes) (count : Z) : result ErrorCategory (gmap Z bytes) :=
  let? fields := orSchema (cborFields raw) in
  fail? negb (Z.of_nat (size fields) =? count) with ErrorSchema in
  let? _ := forRange (seqZ 1 count) (fun label => reject (bool_decide (fields !! label = None)) ErrorSchema) in
  Ok fields.

Definition field (fields : gmap Z bytes) (label : Z) : bytes := default [] (fields !! label).

Section decoding.
Context (decode : decoder).

(** [decode(fields[label], &out)]. *)
Definition get {A} (d : bytes -> option A) (fields : gmap Z bytes) (label : Z) : result ErrorCategory A :=
  orSchema (d (field fields label)).

Definition fixedBytes (raw : bytes) (len : Z) : result ErrorCategory bytes :=
  let? value := orSchema (dBytes decode raw) in
  fail? negb (zlen value =? len) with ErrorSchema in
  Ok value.

Definition decodeMessage (item : bytes) : result ErrorCategory MessageV1 :=
  let? fields := rawMap item 5 in
  let? semantic := get (dString decode) fields 1 in
  let? wire := get (dString decode) fields 2 in
  let? direction := get (dString decode) fields 3 in
  let? min := get (dInt decode) fields 4 in
  let? max := get (dInt decode) fields 5 in
  Ok (mkMessageV1 semantic wire direction min max).

Fixpoint decodeItems (items : list bytes) : result ErrorCategory (list MessageV1) :=
  match items with
  | [] => Ok []
  | item :: rest =>
      let? m := decodeMessage item in
      let? more := decodeItems rest in
      Ok (m :: more)
  end.

Definition decodeMessages (raw : bytes) : result ErrorCategory (list MessageV1) :=
  let? values := orSchema (dRaws decode raw) in
  fail? negb (zlen values =? 2) with ErrorSchema in
  decodeItems values.

Definition decodeFrame (raw : bytes) : result ErrorCategory FrameV1 :=
  let? fields := rawMap raw 7 in
  let? length := get (dString decode) fields 1 in
  let? type := get (dString decode) fields 2 in
  let? order := get (dStrings decode) fields 3 in
  let? fragmentation := get (dString decode) fields 4 in
  let? checksum := get (dString decode) fields 5 in
  let? placement := get (dString decode) fields 6 in
  let? compiled := rawMap (field fields 7) 5 in
  let? data := get (dBytes decode) compiled 1 in
  let? pad := get (dBytes decode) compiled 2 in
  let? xor := get (dUint32 decode) compiled 3 in
  let? table := get (dUint32 decode) compiled 4 in
  let? crc := get (dUint32 decode) compiled 5 in
  Ok (mkFrameV1 length type order fragmentation checksum placement (mkCompiledFramingV1 data pad xor table crc)).

Definition decodeScheduler (raw : bytes) : result ErrorCategory SchedulerV1 :=
  let? fields := rawMap raw 5 in
  let? mode := get (dString decode) fields 1 in
  let? batch := get (dInt decode) fields 2 in
  let? flush := get (dInt decode) fields 3 in
  let? inflight := get (dInt decode) fields 4 in
  let? priority := get (dString decode) fields 5 in
  Ok (mkSchedulerV1 mode priority batch flush inflight).

Definition decodeStream (raw : bytes) : result ErrorCategory StreamV1 :=
  let? fields := rawMap raw 2 in
  let? mode := get (dString decode) fields 1 in
  let? streams := get (dInt decode) fields 2 in
  Ok (mkStreamV1 mode streams).

Definition decodePadding (raw : bytes) : result ErrorCategory PaddingV1 :=
  let? fields := rawMap raw 4 in
  let? mode := get (dString decode) fields 1 in
  let? min := get (dInt decode) fields 2 in
  let? max := get (dInt decode) fields 3 in
  let? probability := get (dFloat decode) fields 4 in
  Ok (mkPaddingV1 mode min max probability).

Definition decodeSecurity (raw : bytes) : result ErrorCategory SecurityV1 :=
  let? fields := rawMap raw 6 in
  let? compiler := get (dString decode) fields 1 in
  let? minimum := get (dString decode) fields 2 in
  let? client := get (dStrings decode) fields 4 in
  let? relay := get (dStrings decode) fields 5 in
  let? selected := get (dStrings decode) fields 6 in
  let? policy := rawMap (field fields 3) 16 in
  let? version := get (dString decode) policy 1 in
  let? transcript := get (dString decode) policy 2 in
  let? kdf := get (dString decode) policy 3 in
  let? aead := get (dString decode) policy 4 in
  let? mac := get (dString decode) policy 5 in
  let? nonce := get (dString decode) policy 6 in
  let? replay := get (dString decode) policy 7 in
  let? window := get (dInt decode) policy 8 in
  let? downgrade := get (dString decode) policy 9 in
  let? negotiation := get (dString decode) policy 10 in
  let? compatibility := get (dString decode) policy 11 in
  let? rotation := get (dString decode) policy 12 in
  let? config := get (dString decode) policy 13 in
  let? envelope := get (dString decode) policy 14 in
  let? session := get (dInt decode) policy 15 in
  let? lifetime := get (dInt decode) policy 16 in
  Ok (mkSecurityV1 compiler minimum
        (mkSecurityPolicyV1 version transcript kdf aead mac nonce replay window downgrade negotiation
           compatibility rotation config envelope session lifetime) client relay selected).

Definition decodeLimits (raw : bytes) : result ErrorCategory LimitsV1 :=
  let? fields := rawMap raw 5 in
  let? frame := get (dInt decode) fields 1 in
  let? payload := get (dInt decode) fields 2 in
  let? millis := get (dInt decode) fields 3 in
  let? messages := get (dInt decode) fields 4 in
  let? lifetime := get (dInt decode) fields 5 in
  Ok (mkLimitsV1 frame payload millis messages lifetime).

Definition decodeProgramFieldsWithDecoderV1 (encoded : bytes) : result ErrorCategory ProgramV1 :=
  let? fields := rawMap encoded programFieldCount in
  let? schema := get (dString decode) fields 1 in
  fail? negb (bool_decide (schema = SchemaV1)) with ErrorSchema in
  let? id := fixedBytes (field fields 2) 16 in
  let? version := get (dString decode) fields 3 in
  let? hash := fixedBytes (field fields 4) 32 in
  let? messages := decodeMessages (field fields 5) in
  let? frame := decodeFrame (field fields 6) in
  let? scheduler := decodeScheduler (field fields 7) in
  let? stream := decodeStream (field fields 8) in
  let? padding := decodePadding (field fields 9) in
  let? security := decodeSecurity (field fields 10) in
  let? limits := decodeLimits (field fields 11) in
  Ok (mkProgramV1 schema id version hash messages frame scheduler stream padding security limits).

End decoding.

Definition decodeProgramFieldsV1 (encoded : bytes) : result ErrorCategory ProgramV1 :=
  decodeProgramFieldsWithDecoderV1 cborDecode encoded.

(** The generic decoding re-encodes to the same bytes. *)
Definition validateCore (encoded : bytes) : bool :=
  match cborAny encoded with
  | None => false
  | Some value => bool_decide (cborMarshal value = Some encoded)
  end.

Definition DecodeV1 (encoded : bytes) : result ErrorCategory ProgramV1 :=
  fail? (zlen encoded =? 0) || (MaxEncodedBytes <? zlen encoded) with ErrorSize in
  fail? negb (validateCore encoded) with ErrorNonCanonical in
  let? program := decodeProgramFieldsV1 encoded in
  let? _ := ValidateV1 program in
  fail? match EncodeV1 program with
        | Ok reencoded => negb (bool_decide (encoded = reencoded))
        | Err _ => true
        end with ErrorNonCanonical in
  Ok program.

(** ** Resource preflight *)

Definition major (raw : bytes) : Z := match raw with [] => -1 | b :: _ => Z.shiftr (bz b) 5 end.

(** A typed decoder behind a check of the major type. *)
Definition ofMajor {A} (want : Z) (d : bytes -> option A) (raw : bytes) : option A :=
  if major raw =? want then d raw else None.

Definition decodeResourceFieldV1 : decoder :=
  mkDecoder (ofMajor 3 (dString cborDecode)) (ofMajor 2 (dBytes cborDecode))
    (fun raw => if (major raw =? 0) || (major raw =? 1) then dInt cborDecode raw else None)
    (ofMajor 0 (dUint32 cborDecode))
    (fun raw => match raw with
                | b :: _ => if mem b [Byte.xf9; Byte.xfa; Byte.xfb] then dFloat cborDecode raw else None
                | [] => None
                end)
    (ofMajor 4 (fun raw =>
       values ← dRaws cborDecode raw;
       if forallb (fun value => major value =? 3) values then dStrings cborDecode raw else None))
    (ofMajor 4 (dRaws cborDecode)).

Definition PreflightResourcesV1 (encoded : bytes) : result ErrorCategory unit :=
  fail? (zlen encoded =? 0) || (MaxEncodedBytes <? zlen encoded) with ErrorSize in
  let? p := decodeProgramFieldsWithDecoderV1 decodeResourceFieldV1 encoded in
  let frame := lp_Frame p in
  let data := cf_DataTypeTag (lf_Compiled frame) in
  let pad := cf_PaddingTypeTag (lf_Compiled frame) in
  fail? negb (zlen (lf_HeaderOrder frame) =? 4) || (zlen data =? 0) || (255 <? zlen data)
      || (zlen pad =? 0) || (255 <? zlen pad) with ErrorSize in
  let? _ := forRange (lp_Messages p) (fun m =>
      reject ((slen (lm_WireSymbol m) =? 0) || (96 <? slen (lm_WireSymbol m))) ErrorSize) in
  let s := lp_Security p in
  forRange [lse_ClientMandatoryCapabilities s; lse_RelayMandatoryCapabilities s; lse_SelectedCapabilities s]
    (fun values => reject ((zlen values =? 0) || (32 <? zlen values)) ErrorSize).

End codec.
