(* ===== verification/LiveCodecFacts.v ===== *)
(** * The binary form of live programs is exact

    Encoding and decoding are inverse to each other on the programs the Go types
    can hold and whose texts are UTF-8 ([live_program_exact]), and the resource
    preflight admits every such encoded program ([preflight_admits]), for every CBOR
    library with the laws of [LiveCodec]. A small fixed-width library satisfies them. *)

From S2P Require Import Prelude GoBytes GoJson Ir Validate LiveProgram LiveCodec.
From Stdlib Require Import ZArith Lia Floats.SpecFloat Strings.Byte.
From stdpp Require Import base list gmap strings.
Local Open Scope Z_scope.

(** ** Programs as the Go types hold them *)

Definition programInts (p : ProgramV1) : list Z :=
  flat_map (fun m => [lm_MinPayloadBytes m; lm_MaxPayloadBytes m]) (lp_Messages p) ++
  [ls_MaxBatchBytes (lp_Scheduler p); ls_FlushIntervalMs (lp_Scheduler p); ls_MaxInFlightFrames (lp_Scheduler p);
   lst_MaxConcurrentStreams (lp_Stream p); lpd_MinPaddingBytes (lp_Padding p); lpd_MaxPaddingBytes (lp_Padding p);
   lsp_ReplayWindowSize (lse_Policy (lp_Security p)); lsp_MaxSessionMessages (lse_Policy (lp_Security p));
   lsp_MaxKeyLifetimeMessages (lse_Policy (lp_Security p)); ll_MaxFrameBytes (lp_Limits p);
   ll_MaxPayloadBytes (lp_Limits p); ll_MaxSessionMillis (lp_Limits p); ll_MaxSessionMessages (lp_Limits p);
   ll_MaxKeyLifetimeMessages (lp_Limits p)].

Definition programUints (p : ProgramV1) : list Z :=
  let c := lf_Compiled (lp_Frame p) in
  [cf_ProfileXORStreamMask c; cf_TableStreamMask c; cf_CRC32PrefixState c].

(** Every text of a program. *)
Definition programTexts (p : ProgramV1) : list string :=
  let f := lp_Frame p in
  let s := lp_Security p in
  let q := lse_Policy s in
  lp_Schema p :: lp_SourceSchemaVersion p ::
  flat_map (fun m => [lm_Semantic m; lm_WireSymbol m; lm_Direction m]) (lp_Messages p) ++
  [lf_LengthMode f; lf_TypeMode f; lf_FragmentationMode f; lf_ChecksumMode f; lf_PaddingPlacement f] ++
  lf_HeaderOrder f ++
  [ls_Mode (lp_Scheduler p); ls_PriorityMode (lp_Scheduler p); lst_IDEncodingMode (lp_Stream p);
   lpd_Mode (lp_Padding p); lse_CompilerSecurityVersion s; lse_MinimumRuntimeVersion s; lsp_SecurityVersion q;
   lsp_TranscriptMode q; lsp_KDFSuite q; lsp_AEADSuite q; lsp_MACSuite q; lsp_NonceMode q; lsp_ReplayPolicy q;
   lsp_DowngradePolicy q; lsp_CapabilityNegotiationPolicy q; lsp_ProfileCompatibilityPolicy q;
   lsp_KeyRotationPolicy q; lsp_ConfigValidationPolicy q; lsp_SecureEnvelopeMode q] ++
  lse_ClientMandatoryCapabilities s ++ lse_RelayMandatoryCapabilities s ++ lse_SelectedCapabilities s.

Record goTyped (p : ProgramV1) : Prop := {
  gt_ints : Forall i64 (programInts p);
  gt_uints : Forall u32 (programUints p);
  gt_id : zlen (lp_ProgramID p) = 16;
  gt_hash : zlen (lp_SourceGenerationHash p) = 32;
  gt_float : valid_binary 53 1024 (lpd_Probability (lp_Padding p)) = true;
}.

(** Every text is UTF-8. Go strings need not be, and validation does not ask for it
    where it only asks a text to be non-empty; CBOR text strings must be. *)
Definition utf8Texts (p : ProgramV1) : Prop := Forall (fun s => textOk s = true) (programTexts p).

(** Splits what holds of every element of a literal list. *)
Ltac typed := repeat match goal with
  | H : Forall _ (_ :: _) |- _ => apply Forall_cons in H as [? H]
  | H : Forall _ (_ ++ _) |- _ => apply Forall_app in H as [? H]
  | H : Forall _ [] |- _ => clear H
  end.

(** ** Values within the limits *)

Lemma fits_map d l : fits (S d) (CMap l) = (zlen l <=? 32) && bool_decide (NoDup (fst <$> l))
  && forallb (fun kv => (0 <=? fst kv) && (fst kv <? 2 ^ 64) && fits d (snd kv)) l.
Proof. done. Qed.

Lemma fits_arr d l : fits (S d) (CArr l) = (zlen l <=? 64) && forallb (fits d) l.
Proof. done. Qed.

Lemma fits_mono d v : fits d v = true -> fits (S d) v = true.
Proof.
  revert v. induction d as [|d IH]; intros v; [done|].
  destruct v as [| | | |l|l]; try done.
  - rewrite !fits_arr, !andb_true_iff, !forallb_forall. intros [? Hl]. split; [done|].
    intros x Hx. by apply IH, Hl.
  - rewrite !fits_map, !andb_true_iff, !forallb_forall. intros [? Hl]. split; [done|].
    intros x Hx. specialize (Hl _ Hx). rewrite !andb_true_iff in Hl |- *. destruct Hl. split; [done|]. by apply IH.
Qed.

Lemma fits_le d d' v : (d <= d')%nat -> fits d v = true -> fits d' v = true.
Proof. induction 1; [done|]. intros. by apply fits_mono, IHle. Qed.

Lemma fits_fields d l : zlen l <= 32 -> (fst <$> l) = seqZ 1 (zlen l) ->
  Forall (fun v => fits d v = true) (snd <$> l) -> fits (S d) (CMap l) = true.
Proof.
  intros Hl Hk HF. rewrite fits_map. apply andb_true_iff. split.
  - apply andb_true_iff. split; [by apply Z.leb_le|]. apply bool_decide_eq_true. rewrite Hk. apply NoDup_seqZ.
  - apply forallb_forall. intros [k v] Hin. apply list_elem_of_In in Hin.
    assert (k ∈ seqZ 1 (zlen l)) as Hkl. { rewrite <- Hk. apply list_elem_of_fmap. by exists (k, v). }
    apply elem_of_seqZ in Hkl. rewrite Forall_forall in HF. cbn [fst snd].
    rewrite !andb_true_iff, Z.leb_le, Z.ltb_lt. split; [lia|]. apply HF, list_elem_of_fmap. by exists (k, v).
Qed.

Lemma fits_text d s : textOk s = true -> fits (S d) (CText s) = true.
Proof. done. Qed.

Lemma fits_bytes d x : fits (S d) (CBytes x) = true.
Proof. done. Qed.

Lemma fits_float d f : isNaN f = false -> valid_binary 53 1024 f = true -> fits (S d) (CFloat f) = true.
Proof. intros Hn Hv. cbn [fits]. by rewrite Hn, Hv. Qed.

Lemma fits_pair d v w : fits d v = true -> fits d w = true -> forallb (fits d) [v; w] = true.
Proof. intros Hv Hw. cbn [forallb]. by rewrite Hv, Hw. Qed.

Lemma fits_int d z : i64 z -> fits (S d) (CInt z) = true.
Proof. intros [? ?]. unfold MaxInt64 in *. cbn [fits]. apply andb_true_iff. rewrite Z.leb_le, Z.ltb_lt. lia. Qed.

Lemma fits_uint d z : u32 z -> fits (S d) (CInt z) = true.
Proof. intros [? ?]. apply fits_int. split; unfold MaxInt64; lia. Qed.

Lemma fits_strings d l : zlen l <= 64 -> Forall (fun s => textOk s = true) l -> fits (S (S d)) (texts l) = true.
Proof.
  intros Hl HF. unfold texts. rewrite fits_arr. apply andb_true_iff. split.
  - apply Z.leb_le. unfold zlen in *. by rewrite length_fmap.
  - apply forallb_forall. intros v Hin. apply in_map_iff in Hin as (s & <- & Hin).
    rewrite Forall_forall in HF. apply fits_text, HF. by apply list_elem_of_In.
Qed.

#[local] Opaque fits.

(** What the limits of the decoder need beyond the Go types. *)
Record bounded (p : ProgramV1) : Prop := {
  bd_order : zlen (lf_HeaderOrder (lp_Frame p)) = 4;
  bd_client : 1 <= zlen (lse_ClientMandatoryCapabilities (lp_Security p)) <= 32;
  bd_relay : 1 <= zlen (lse_RelayMandatoryCapabilities (lp_Security p)) <= 32;
  bd_selected : 1 <= zlen (lse_SelectedCapabilities (lp_Security p)) <= 32;
  bd_data : 1 <= zlen (cf_DataTypeTag (lf_Compiled (lp_Frame p))) <= 255;
  bd_pad : 1 <= zlen (cf_PaddingTypeTag (lf_Compiled (lp_Frame p))) <= 255;
  bd_symbols : Forall (fun m => 1 <= slen (lm_WireSymbol m) <= 96) (lp_Messages p);
  bd_nan : isNaN (lpd_Probability (lp_Padding p)) = false;
}.

Lemma programMap_fits p x y : goTyped p -> utf8Texts p -> bounded p -> lp_Messages p = [x; y] ->
  fits maxNestedLevels (programMap p) = true.
Proof.
  intros HT Ht HB Hmsg. apply (fits_le 5); [unfold maxNestedLevels; lia|].
  pose proof (gt_ints _ HT) as Hi. pose proof (gt_uints _ HT) as Hu.
  unfold programInts, utf8Texts, programTexts, programUints in *. cbn zeta in *. rewrite Hmsg in *. cbn [flat_map app] in *.
  destruct HB. unfold programMap. apply fits_fields; [done|done|]. cbn [fmap list_fmap snd].
  unfold messageMaps, frameMap, compiledMap, schedulerMap, streamMap, paddingMap, securityMap, securityPolicyMap,
    limitsMap, messageMap. rewrite Hmsg. cbn [fmap list_fmap]. typed.
  repeat first
    [ apply fits_fields; [done|done|]; cbn [fmap list_fmap snd]
    | apply Forall_cons_2 | apply Forall_nil_2
    | apply fits_text; assumption | apply fits_int; assumption | apply fits_uint; assumption
    | apply fits_bytes | rewrite fits_arr; apply andb_true_iff; split; [done|]
    | apply fits_pair | apply fits_strings; [lia|assumption] ].
  apply fits_float; [done|apply HT].
Qed.

Section laws.
Context `{HE : Encoding} {cbor : Cbor} {HC : CborLaws cbor}.

(** A decoder that undoes the encoder on values within the limits. *)
Record goodDecoder (d : decoder) : Prop := {
  gd_int z b : i64 z -> cborMarshal (CInt z) = Some b -> dInt d b = Some z;
  gd_uint32 z b : u32 z -> cborMarshal (CInt z) = Some b -> dUint32 d b = Some z;
  gd_text s b : textOk s = true -> cborMarshal (CText s) = Some b -> dString d b = Some s;
  gd_bytes x b : cborMarshal (CBytes x) = Some b -> dBytes d b = Some x;
  gd_float f b : fits 1 (CFloat f) = true -> cborMarshal (CFloat f) = Some b -> dFloat d b = Some f;
  gd_texts l b : fits 2 (texts l) = true -> cborMarshal (texts l) = Some b -> dStrings d b = Some l;
  gd_array l b : fits maxNestedLevels (CArr l) = true -> cborMarshal (CArr l) = Some b ->
    exists raws, dRaws d b = Some raws /\ Forall2 (fun v raw => cborMarshal v = Some raw) l raws;
}.

Lemma cborDecode_good : goodDecoder cborDecode.
Proof. destruct HC. constructor; auto. Qed.

Lemma resource_good : goodDecoder decodeResourceFieldV1.
Proof.
  constructor; cbn [decodeResourceFieldV1 dInt dUint32 dString dBytes dFloat dStrings dRaws];
    unfold ofMajor, major.
  - intros z b Hz Hm. destruct (law_head _ _ Hm) as (h & rest & -> & Hh). cbn [headOf] in Hh.
    rewrite Hh. rewrite (law_int _ _ Hz Hm). by destruct (z <? 0).
  - intros z b Hz Hm. destruct (law_head _ _ Hm) as (h & rest & -> & Hh). cbn [headOf] in Hh.
    assert (z <? 0 = false) as E by (apply Z.ltb_ge; apply Hz). rewrite Hh, E. by apply law_uint32.
  - intros s b Hs Hm. destruct (law_head _ _ Hm) as (h & rest & -> & Hh). cbn [headOf] in Hh.
    rewrite Hh. by apply law_text.
  - intros s b Hm. destruct (law_head _ _ Hm) as (h & rest & -> & Hh). cbn [headOf] in Hh.
    rewrite Hh. by apply law_bytes.
  - intros f b Hf Hm. destruct (law_head _ _ Hm) as (h & rest & -> & Hh). cbn [headOf] in Hh.
    assert (h = zb 249 \/ h = zb 250 \/ h = zb 251) as E.
    { rewrite <- (zb_bz h). assert (bz h = 249 \/ bz h = 250 \/ bz h = 251) as [-> | [-> | ->]] by lia; auto. }
    destruct E as [-> | [-> | ->]]; by apply law_float.
  - intros l b Hl Hm. destruct (law_head _ _ Hm) as (h & rest & -> & Hh). cbn [headOf texts] in Hh. rewrite Hh.
    pose proof (law_texts _ _ Hl Hm) as HT. apply (fits_le _ maxNestedLevels) in Hl; [|unfold maxNestedLevels; lia].
    destruct (law_array _ _ Hl Hm) as (raws & Hr & HF). cbn [Z.eqb Pos.eqb]. rewrite Hr. cbn [mbind option_bind].
    replace (forallb _ raws) with true; [done|]. symmetry. apply forallb_forall. intros raw Hin.
    apply list_elem_of_In, list_elem_of_lookup in Hin as [i Hi].
    destruct (Forall2_lookup_r _ _ _ _ _ HF Hi) as (v & Hv & Hraw).
    apply list_lookup_fmap_Some in Hv as (s & -> & _).
    destruct (law_head _ _ Hraw) as (h' & rest' & -> & Hh'). by apply Z.eqb_eq.
  - intros l b Hl Hm. destruct (law_head _ _ Hm) as (h & rest & -> & Hh). cbn [headOf] in Hh.
    rewrite Hh. by apply law_array.
Qed.

(** ** Reading a map's fields *)

Definition fieldsOf (m : gmap Z bytes) (l : list (Z * cval)) : Prop :=
  fits maxNestedLevels (CMap l) = true /\
  forall k v, (k, v) ∈ l -> cborMarshal v = Some (field m k).

Lemma rawMap_fields l b count : fits maxNestedLevels (CMap l) = true -> cborMarshal (CMap l) = Some b ->
  (fst <$> l) = seqZ 1 count -> 0 <= count -> exists m, rawMap b count = Ok m /\ fieldsOf m l.
Proof.
  intros Hf Hm Hk Hc. destruct (law_map _ _ Hf Hm) as (m & Hr & Hs & Hin).
  assert (Z.of_nat (length l) = count) as Hlen.
  { rewrite <- (length_fmap fst l), Hk, length_seqZ. lia. }
  exists m. split.
  - unfold rawMap, orSchema. rewrite Hr. cbn [rbind]. rewrite Hs, Hlen, Z.eqb_refl. cbn [negb reject rbind].
    replace (forRange _ _) with (@Ok ErrorCategory unit tt); [done|]. symmetry. apply forRange_ok.
    apply Forall_forall. intros k Hin'. rewrite <- Hk in Hin'. apply list_elem_of_fmap in Hin' as ([k' v] & -> & Hv).
    destruct (Hin _ _ Hv) as (raw & Hraw & _). cbn [fst]. apply reject_ok. apply bool_decide_eq_false. by rewrite Hraw.
  - split; [done|]. intros k v Hv. destruct (Hin _ _ Hv) as (raw & Hraw & E). unfold field. by rewrite Hraw.
Qed.

Lemma fieldsOf_fits m l k v : fieldsOf m l -> (k, v) ∈ l -> fits maxNestedLevels v = true.
Proof.
  intros [Hf _] Hin%list_elem_of_In. unfold maxNestedLevels in *. rewrite fits_map in Hf.
  apply andb_true_iff in Hf as [_ Hf]. rewrite forallb_forall in Hf. specialize (Hf _ Hin).
  apply andb_true_iff in Hf as [_ Hf]. by apply fits_mono.
Qed.

Section decode.
Context (d : decoder) (HD : goodDecoder d).

Lemma get_text m l k s : fieldsOf m l -> (k, CText s) ∈ l -> get (dString d) m k = Ok s.
Proof.
  intros Hm Hin. unfold get, orSchema. pose proof (fieldsOf_fits _ _ _ _ Hm Hin) as Hf.
  by rewrite (gd_text d HD s _ Hf (proj2 Hm _ _ Hin)).
Qed.

Lemma get_bytes m l k x : fieldsOf m l -> (k, CBytes x) ∈ l -> get (dBytes d) m k = Ok x.
Proof. intros Hm Hin. unfold get, orSchema. by rewrite (gd_bytes d HD x _ (proj2 Hm _ _ Hin)). Qed.

Lemma get_int m l k z : fieldsOf m l -> (k, CInt z) ∈ l -> i64 z -> get (dInt d) m k = Ok z.
Proof. intros Hm Hin Hz. unfold get, orSchema. by rewrite (gd_int d HD z _ Hz (proj2 Hm _ _ Hin)). Qed.

Lemma get_uint32 m l k z : fieldsOf m l -> (k, CInt z) ∈ l -> u32 z -> get (dUint32 d) m k = Ok z.
Proof. intros Hm Hin Hz. unfold get, orSchema. by rewrite (gd_uint32 d HD z _ Hz (proj2 Hm _ _ Hin)). Qed.

Lemma get_float m l k f : fieldsOf m l -> (k, CFloat f) ∈ l -> get (dFloat d) m k = Ok f.
Proof.
  intros Hm Hin. unfold get, orSchema. pose proof (fieldsOf_fits _ _ _ _ Hm Hin) as Hf.
  by rewrite (gd_float d HD f _ Hf (proj2 Hm _ _ Hin)).
Qed.

Lemma fits_texts l : fits maxNestedLevels (texts l) = true -> fits 2 (texts l) = true.
Proof.
  unfold texts, maxNestedLevels. rewrite !fits_arr, !andb_true_iff, !forallb_forall. intros [? Hl].
  split; [done|]. intros x Hx. specialize (Hl _ Hx). apply in_map_iff in Hx as (s & <- & _). done.
Qed.

Lemma get_texts m l k t : fieldsOf m l -> (k, texts t) ∈ l -> get (dStrings d) m k = Ok t.
Proof.
  intros Hm Hin. unfold get, orSchema. pose proof (fieldsOf_fits _ _ _ _ Hm Hin) as Hf.
  by rewrite (gd_texts d HD t _ (fits_texts _ Hf) (proj2 Hm _ _ Hin)).
Qed.

Lemma get_fixed m l k x n : fieldsOf m l -> (k, CBytes x) ∈ l -> zlen x = n -> fixedBytes d (field m k) n = Ok x.
Proof.
  intros Hm Hin Hn. unfold fixedBytes, orSchema. rewrite (gd_bytes d HD x _ (proj2 Hm _ _ Hin)). cbn [rbind].
  by rewrite Hn, Z.eqb_refl.
Qed.

(** Finds a labelled field of a literal map. *)
Ltac in_fields := repeat first [apply list_elem_of_here | apply list_elem_of_further].

(** Reads one field through its decoder. *)
Ltac read_field Hm :=
  match type of Hm with fieldsOf ?m ?l =>
    first [ rewrite (get_text m l _ _ Hm) by in_fields | rewrite (get_bytes m l _ _ Hm) by in_fields
          | rewrite (get_int m l _ _ Hm) by first [assumption | in_fields]
          | rewrite (get_uint32 m l _ _ Hm) by first [assumption | in_fields]
          | rewrite (get_float m l _ _ Hm) by in_fields | rewrite (get_texts m l _ _ Hm) by in_fields ]
  end; cbn [rbind].

(** Opens the literal map of [n] fields a value was encoded as. *)
Ltac open_map H Hf n Hm :=
  match type of H with cborMarshal (CMap ?l) = Some ?b =>
    let m := fresh "m" in let HR := fresh "HR" in
    destruct (rawMap_fields l b n Hf H) as (m & HR & Hm); [done | done |]; rewrite HR; cbn [rbind]
  end.

Lemma decodeStream_enc v b : i64 (lst_MaxConcurrentStreams v) -> fits maxNestedLevels (streamMap v) = true ->
  cborMarshal (streamMap v) = Some b -> decodeStream d b = Ok v.
Proof.
  intros Hz Hf H. unfold streamMap in Hf, H. unfold decodeStream. open_map H Hf 2 Hm.
  repeat read_field Hm. by destruct v.
Qed.

Lemma decodeScheduler_enc v b : Forall i64 [ls_MaxBatchBytes v; ls_FlushIntervalMs v; ls_MaxInFlightFrames v] ->
  fits maxNestedLevels (schedulerMap v) = true -> cborMarshal (schedulerMap v) = Some b -> decodeScheduler d b = Ok v.
Proof.
  intros Hz Hf H. unfold schedulerMap in Hf, H. unfold decodeScheduler. typed. open_map H Hf 5 Hm.
  repeat read_field Hm. by destruct v.
Qed.

Lemma decodePadding_enc v b : Forall i64 [lpd_MinPaddingBytes v; lpd_MaxPaddingBytes v] ->
  fits maxNestedLevels (paddingMap v) = true -> cborMarshal (paddingMap v) = Some b -> decodePadding d b = Ok v.
Proof.
  intros Hz Hf H. unfold paddingMap in Hf, H. unfold decodePadding. typed. open_map H Hf 4 Hm.
  repeat read_field Hm. by destruct v.
Qed.

Lemma decodeLimits_enc v b : Forall i64 [ll_MaxFrameBytes v; ll_MaxPayloadBytes v; ll_MaxSessionMillis v;
    ll_MaxSessionMessages v; ll_MaxKeyLifetimeMessages v] ->
  fits maxNestedLevels (limitsMap v) = true -> cborMarshal (limitsMap v) = Some b -> decodeLimits d b = Ok v.
Proof.
  intros Hz Hf H. unfold limitsMap in Hf, H. unfold decodeLimits. typed. open_map H Hf 5 Hm.
  repeat read_field Hm. by destruct v.
Qed.

Lemma decodeFrame_enc v b : Forall u32 [cf_ProfileXORStreamMask (lf_Compiled v); cf_TableStreamMask (lf_Compiled v);
    cf_CRC32PrefixState (lf_Compiled v)] ->
  fits maxNestedLevels (frameMap v) = true -> cborMarshal (frameMap v) = Some b -> decodeFrame d b = Ok v.
Proof.
  intros Hz Hf H. unfold frameMap in Hf, H. unfold decodeFrame. typed. open_map H Hf 7 Hm.
  repeat read_field Hm. pose proof (proj2 Hm 7 (compiledMap (lf_Compiled v)) ltac:(in_fields)) as H7.
  pose proof (fieldsOf_fits _ _ 7 (compiledMap (lf_Compiled v)) Hm ltac:(in_fields)) as Hf7.
  unfold compiledMap in H7, Hf7. open_map H7 Hf7 5 Hm7. repeat read_field Hm7. by destruct v as [? ? ? ? ? ? []].
Qed.

Lemma decodeSecurity_enc v b : Forall i64 [lsp_ReplayWindowSize (lse_Policy v); lsp_MaxSessionMessages (lse_Policy v);
    lsp_MaxKeyLifetimeMessages (lse_Policy v)] ->
  fits maxNestedLevels (securityMap v) = true -> cborMarshal (securityMap v) = Some b -> decodeSecurity d b = Ok v.
Proof.
  intros Hz Hf H. unfold securityMap in Hf, H. unfold decodeSecurity. typed. open_map H Hf 6 Hm.
  repeat read_field Hm. pose proof (proj2 Hm 3 (securityPolicyMap (lse_Policy v)) ltac:(in_fields)) as H3.
  pose proof (fieldsOf_fits _ _ 3 (securityPolicyMap (lse_Policy v)) Hm ltac:(in_fields)) as Hf3.
  unfold securityPolicyMap in H3, Hf3. open_map H3 Hf3 16 Hm3. repeat read_field Hm3. by destruct v as [? ? [] ? ? ?].
Qed.

Lemma decodeMessage_enc v b : Forall i64 [lm_MinPayloadBytes v; lm_MaxPayloadBytes v] ->
  fits maxNestedLevels (messageMap v) = true -> cborMarshal (messageMap v) = Some b -> decodeMessage d b = Ok v.
Proof.
  intros Hz Hf H. unfold messageMap in Hf, H. unfold decodeMessage. typed. open_map H Hf 5 Hm.
  repeat read_field Hm. by destruct v.
Qed.

Lemma decodeMessages_enc x y b :
  Forall i64 (flat_map (fun m => [lm_MinPayloadBytes m; lm_MaxPayloadBytes m]) [x; y]) ->
  fits maxNestedLevels (messageMaps [x; y]) = true -> cborMarshal (messageMaps [x; y]) = Some b ->
  decodeMessages d b = Ok [x; y].
Proof.
  intros Hz Hf H. cbn in Hz. typed. unfold decodeMessages, messageMaps, orSchema in *.
  destruct (gd_array d HD _ _ Hf H) as (raws & Hr & HF). rewrite Hr. cbn [rbind].
  unfold messageMaps, maxNestedLevels in Hf. rewrite fits_arr in Hf. apply andb_true_iff in Hf as [_ Hf].
  cbn [fmap list_fmap forallb] in Hf. apply andb_true_iff in Hf as [Hx Hf]. apply andb_true_iff in Hf as [Hy _].
  apply fits_mono in Hx, Hy. inversion HF as [|? rx ? ? HX HF1]; subst. inversion HF1 as [|? ry ? ? HY HF2]; subst.
  inversion HF2; subst. cbn [decodeItems zlen length Z.of_nat Pos.of_succ_nat Pos.succ Z.eqb Pos.eqb negb reject rbind].
  rewrite (decodeMessage_enc x rx) by first [done | rewrite !Forall_cons, Forall_nil; done]. cbn [rbind].
  by rewrite (decodeMessage_enc y ry) by first [done | rewrite !Forall_cons, Forall_nil; done].
Qed.

(** The fields of an encoded program, whichever decoder reads them. *)
Lemma decodeProgram_enc p b x y : goTyped p -> lp_Schema p = SchemaV1 -> lp_Messages p = [x; y] ->
  fits maxNestedLevels (programMap p) = true -> cborMarshal (programMap p) = Some b ->
  decodeProgramFieldsWithDecoderV1 d b = Ok p.
Proof.
  intros HT Hs Hmsg Hf H. unfold programMap in Hf, H. unfold decodeProgramFieldsWithDecoderV1, programFieldCount.
  open_map H Hf 11 Hm. pose proof (gt_ints _ HT) as Hi. pose proof (gt_uints _ HT) as Hu.
  unfold programInts in Hi. apply Forall_app in Hi as [Him Hi]. rewrite Hmsg in Him.
  unfold programUints in Hu. cbn zeta in Hu.
  read_field Hm. rewrite bool_decide_eq_true_2 by done. cbn [negb reject rbind].
  rewrite (get_fixed _ _ _ _ 16 Hm) by first [in_fields; done | apply HT]. cbn [rbind].
  read_field Hm. rewrite (get_fixed _ _ _ _ 32 Hm) by first [in_fields; done | apply HT]. cbn [rbind].
  pose proof (fun k v Hin => conj (proj2 Hm k v Hin) (fieldsOf_fits _ _ k v Hm Hin)) as Hsub.
  destruct (Hsub 5 (messageMaps (lp_Messages p)) ltac:(in_fields)) as [H5 F5].
  destruct (Hsub 6 (frameMap (lp_Frame p)) ltac:(in_fields)) as [H6 F6].
  destruct (Hsub 7 (schedulerMap (lp_Scheduler p)) ltac:(in_fields)) as [H7 F7].
  destruct (Hsub 8 (streamMap (lp_Stream p)) ltac:(in_fields)) as [H8 F8].
  destruct (Hsub 9 (paddingMap (lp_Padding p)) ltac:(in_fields)) as [H9 F9].
  destruct (Hsub 10 (securityMap (lp_Security p)) ltac:(in_fields)) as [H10 F10].
  destruct (Hsub 11 (limitsMap (lp_Limits p)) ltac:(in_fields)) as [H11 F11].
  clear Hsub. rewrite Hmsg in H5, F5.
  rewrite (decodeMessages_enc x y) by done. cbn [rbind]. rewrite (decodeFrame_enc (lp_Frame p)) by done. cbn [rbind].
  typed.
  rewrite (decodeScheduler_enc (lp_Scheduler p)) by first [done | rewrite !Forall_cons, Forall_nil; done]. cbn [rbind].
  rewrite (decodeStream_enc (lp_Stream p)) by done. cbn [rbind].
  rewrite (decodePadding_enc (lp_Padding p)) by first [done | rewrite !Forall_cons, Forall_nil; done]. cbn [rbind].
  rewrite (decodeSecurity_enc (lp_Security p)) by first [done | rewrite !Forall_cons, Forall_nil; done]. cbn [rbind].
  rewrite (decodeLimits_enc (lp_Limits p)) by first [done | rewrite !Forall_cons, Forall_nil; done]. cbn [rbind].
  rewrite <- Hmsg. by destruct p.
Qed.
End decode.

(** ** The theorems *)

Lemma canonical_bounds l : canonicalCapabilities l = true -> 1 <= zlen l <= 32.
Proof.
  unfold canonicalCapabilities. pose proof (zlen_nonneg l). destruct (zlen l =? 0) eqn:E0, (32 <? zlen l) eqn:E1; try done.
  apply Z.eqb_neq in E0. apply Z.ltb_ge in E1. lia.
Qed.

Lemma safeToken_bounds w : safeToken w = true -> 1 <= slen w <= 96.
Proof.
  unfold safeToken. destruct (bool_decide (w = "")) eqn:E0; [done|]. destruct (96 <? slen w) eqn:E1; [done|]. intros _.
  apply bool_decide_eq_false in E0. apply Z.ltb_ge in E1. unfold slen in *. pose proof (zlen_nonneg (sbytes w)).
  destruct (decide (zlen (sbytes w) = 0)) as [E|]; [|lia]. apply zlen_zero in E. rewrite <- (bstring_sbytes w), E in E0. done.
Qed.

Lemma validated_bounded p : ValidateV1 p = Ok tt ->
  bounded p /\ lp_Schema p = SchemaV1 /\ exists x y, lp_Messages p = [x; y].
Proof.
  intros HV. destruct (ValidateV1_valid p HV) as (x & y & HL).
  unfold ValidateV1 in HV. apply reject_bind_ok in HV as [Hid HV].
  apply reject_bind_ok in HV as [_ HV]. apply rbind_ok in HV as ([] & HM & HV).
  apply reject_bind_ok in HV as [_ HV]. apply reject_bind_ok in HV as [Ht HV].
  apply reject_bind_ok in HV as [_ HV]. apply reject_bind_ok in HV as [_ HV].
  apply reject_bind_ok in HV as [Hpd HV]. apply rbind_ok in HV as ([] & HS & _).
  unfold validateSecurity in HS. apply reject_bind_ok in HS as [_ HS].
  apply rbind_ok in HS as ([] & HS%forRange_ok & _). rewrite !Forall_cons, !reject_ok, !negb_false_iff in HS.
  destruct HS as (Hc1 & Hc2 & Hc3 & _).
  rewrite (lv_messages _ _ _ HL) in HM. cbn [validateMessagesV1] in HM.
  apply reject_bind_ok in HM as [HM1 HM]. apply reject_bind_ok in HM as [_ HM]. apply reject_bind_ok in HM as [HM2 _].
  read_flags. split; [|split; [by eapply bool_decide_eq_true|by exists x, y; apply (lv_messages _ _ _ HL)]].
  pose proof (zlen_nonneg (cf_PaddingTypeTag (lf_Compiled (lp_Frame p)))).
  constructor; try done; try (apply canonical_bounds; done).
  - unfold zlen. by rewrite (lv_order _ _ _ HL).
  - apply (lv_dataTag _ _ _ HL).
  - lia.
  - rewrite (lv_messages _ _ _ HL), !Forall_cons, Forall_nil. split_and!; [..|done]; by apply safeToken_bounds.
Qed.

Lemma validated_fits p : goTyped p -> utf8Texts p -> ValidateV1 p = Ok tt -> fits maxNestedLevels (programMap p) = true.
Proof. intros HT HU (HB & _ & x & y & Hm)%validated_bounded. by eapply programMap_fits. Qed.

Lemma EncodeV1_ok p b : EncodeV1 p = Ok b ->
  ValidateV1 p = Ok tt /\ cborMarshal (programMap p) = Some b /\ (zlen b =? 0) || (MaxEncodedBytes <? zlen b) = false.
Proof.
  unfold EncodeV1. intros ([] & HV & HE')%rbind_ok. destruct (cborMarshal _) as [e|]; [|done].
  by apply reject_bind_ok in HE' as [Hs [= <-]].
Qed.

(** C37: the binary form of a live program is exact, whatever CBOR library with the
    documented laws carries it. What the decoder accepts is, byte for byte, the
    encoding of the program it returns, so no program has a second accepted encoding.
    Conversely the encoding of a program decodes to that program, provided its
    integers, identifier, hash and probability are of their Go types and all of its
    texts are UTF-8 (which validation does not check for every text and strict CBOR
    decoding demands). *)
Theorem live_program_exact p b :
  (DecodeV1 b = Ok p -> EncodeV1 p = Ok b) /\ (goTyped p -> utf8Texts p -> EncodeV1 p = Ok b -> DecodeV1 b = Ok p).
Proof.
  split; [intros HX|intros HT HU HX].
  - unfold DecodeV1 in HX. apply reject_bind_ok in HX as [_ HX]. apply reject_bind_ok in HX as [_ HX].
    apply rbind_ok in HX as (q & _ & HX). apply rbind_ok in HX as ([] & _ & HX).
    apply reject_bind_ok in HX as [HE' <-%Ok_inj]. destruct (EncodeV1 q) as [e|]; [|done].
    apply negb_false_iff, bool_decide_eq_true in HE'. by rewrite HE'.
  - destruct (EncodeV1_ok _ _ HX) as (HV & Hm & Hs). destruct (validated_bounded _ HV) as (HB & Hsch & x & y & Hmsg).
    pose proof (validated_fits _ HT HU HV) as Hf. unfold DecodeV1. rewrite Hs. cbn [reject rbind].
    destruct (law_any _ _ Hf Hm) as (w & Hw & Hww). unfold validateCore. rewrite Hw, bool_decide_eq_true_2 by done.
    cbn [negb reject rbind]. unfold decodeProgramFieldsV1.
    rewrite (decodeProgram_enc _ cborDecode_good p b x y) by done. cbn [rbind]. rewrite HV. cbn [rbind].
    rewrite HX, bool_decide_eq_true_2 by done. done.
Qed.

(** C39: the resource preflight, which reads the same fields with stricter typed
    decoders and neither canonicalises nor validates, admits every byte string the
    encoder produces for a program whose fields are of their Go types and whose texts
    are UTF-8. *)
Theorem preflight_admits p b : goTyped p -> utf8Texts p -> EncodeV1 p = Ok b -> PreflightResourcesV1 b = Ok tt.
Proof.
  intros HT HU HX. destruct (EncodeV1_ok _ _ HX) as (HV & Hm & Hs).
  destruct (validated_bounded _ HV) as (HB & Hsch & x & y & Hmsg). pose proof (validated_fits _ HT HU HV) as Hf.
  unfold PreflightResourcesV1. rewrite Hs. cbn [reject rbind].
  rewrite (decodeProgram_enc _ resource_good p b x y) by done. cbn [rbind]. cbn zeta. destruct HB.
  replace (_ || (255 <? zlen (cf_PaddingTypeTag (lf_Compiled (lp_Frame p))))) with false.
  2: { symmetry. rewrite !orb_false_iff, negb_false_iff, !Z.eqb_eq, !Z.eqb_neq, !Z.ltb_ge. lia. }
  cbn [reject rbind]. replace (forRange (lp_Messages p) _) with (@Ok ErrorCategory unit tt).
  - cbn [rbind]. apply forRange_ok. rewrite !Forall_cons, Forall_nil, !reject_ok, !orb_false_iff, !Z.eqb_neq, !Z.ltb_ge.
    split_and!; [lia..|done].
  - symmetry. apply forRange_ok. eapply Forall_impl; [exact bd_symbols0|]. intros m Hm'. cbv beta in Hm'.
    rewrite reject_ok, orb_false_iff, Z.eqb_neq, Z.ltb_ge. lia.
Qed.
End laws.
