(* ===== verification/CborInstance.v ===== *)
(** * A CBOR library with the documented laws

    Every head carries its argument in eight bytes, so an encoding is never the
    shortest one; otherwise it is laid out as CBOR is. It shows that the laws of
    [LiveCodec] hold together, and the witnesses run on it. *)

From S2P Require Import Prelude GoBytes GoJson Ir Validate LiveProgram LiveCodec LiveCodecFacts LiveDecode.
From Stdlib Require Import ZArith Lia Floats.SpecFloat Strings.Byte.
From stdpp Require Import base list gmap strings.
Local Open Scope Z_scope.

Definition fixedHead (h : Byte.byte) (n : Z) : option bytes :=
  if (0 <=? n) && (n <? 2 ^ 64) then Some (h :: put_be 8 n) else None.

Definition sgn (s : bool) : Z := if s then 1 else 0.

Definition floatBytes (f : spec_float) : option bytes :=
  match f with
  | S754_zero s => Some (zb (sgn s) :: put_be 8 0 ++ put_be 8 0)
  | S754_infinity s => Some (zb (2 + sgn s) :: put_be 8 0 ++ put_be 8 0)
  | S754_nan => Some (zb 4 :: put_be 8 0 ++ put_be 8 0)
  | S754_finite s m e =>
      if (Zpos m <? 2 ^ 64) && (0 <=? e + 2 ^ 63) && (e + 2 ^ 63 <? 2 ^ 64)
      then Some (zb (5 + sgn s) :: put_be 8 (Zpos m) ++ put_be 8 (e + 2 ^ 63)) else None
  end.

Definition bytesFloat (b : bytes) : spec_float :=
  match b with
  | t :: rest =>
      let m := Z.to_pos (get_be (ztake 8 rest)) in
      let e := get_be (zdrop 8 rest) - 2 ^ 63 in
      if bz t =? 0 then S754_zero false else if bz t =? 1 then S754_zero true
      else if bz t =? 2 then S754_infinity false else if bz t =? 3 then S754_infinity true
      else if bz t =? 5 then S754_finite false m e else if bz t =? 6 then S754_finite true m e
      else S754_nan
  | [] => S754_nan
  end.

Fixpoint fixedMarshal (v : cval) : option bytes :=
  match v with
  | CInt z => if z <? 0 then fixedHead Byte.x3b (- 1 - z) else fixedHead Byte.x1b z
  | CText s => h ← fixedHead Byte.x7b (slen s); Some (h ++ sbytes s)
  | CBytes b => h ← fixedHead Byte.x5b (zlen b); Some (h ++ b)
  | CFloat f => b ← floatBytes f; Some (Byte.xfb :: b)
  | CArr l =>
      h ← fixedHead Byte.x9b (zlen l);
      raws ← mapM fixedMarshal l;
      Some (h ++ concat raws)
  | CMap l =>
      h ← fixedHead Byte.xbb (zlen l);
      raws ← mapM (fun kv => k ← fixedHead Byte.x1b (fst kv); r ← fixedMarshal (snd kv); Some (k ++ r)) l;
      Some (h ++ concat raws)
  end.

Section parse.
Context (item : bytes -> option (cval * bytes)).

Fixpoint parseItems (n : nat) (b : bytes) : option (list cval * bytes) :=
  match n with
  | O => Some ([], b)
  | S n => '(v, b) ← item b; '(l, b) ← parseItems n b; Some (v :: l, b)
  end.

Fixpoint parsePairs (n : nat) (b : bytes) : option (list (Z * cval) * bytes) :=
  match n with
  | O => Some ([], b)
  | S n =>
      '(v, rest) ← item (zdrop 9 b); '(l, rest) ← parsePairs n rest;
      Some ((get_be (slice 1 9 b), v) :: l, rest)
  end.
End parse.

Fixpoint fixedParse (depth : nat) (b : bytes) : option (cval * bytes) :=
  match depth, b with
  | S d, h :: rest =>
      let n := get_be (ztake 8 rest) in
      let tail := zdrop 8 rest in
      if bz h =? 27 then Some (CInt n, tail)
      else if bz h =? 59 then Some (CInt (- 1 - n), tail)
      else if bz h =? 123 then Some (CText (bstring (ztake n tail)), zdrop n tail)
      else if bz h =? 91 then Some (CBytes (ztake n tail), zdrop n tail)
      else if bz h =? 251 then Some (CFloat (bytesFloat (ztake 17 rest)), zdrop 17 rest)
      else if bz h =? 155 then '(l, tail) ← parseItems (fixedParse d) (Z.to_nat n) tail; Some (CArr l, tail)
      else if bz h =? 187 then '(l, tail) ← parsePairs (fixedParse d) (Z.to_nat n) tail; Some (CMap l, tail)
      else None
  | _, _ => None
  end.

Definition whole (b : bytes) : option cval :=
  match fixedParse maxNestedLevels b with Some (v, []) => Some v | _ => None end.

Definition fixedDecode : decoder := {|
  dString b := match whole b with Some (CText s) => Some s | _ => None end;
  dBytes b := match whole b with Some (CBytes x) => Some x | _ => None end;
  dInt b := match whole b with Some (CInt z) => Some z | _ => None end;
  dUint32 b := match whole b with Some (CInt z) => Some z | _ => None end;
  dFloat b := match whole b with Some (CFloat f) => Some f | _ => None end;
  dStrings b := match whole b with
                | Some (CArr l) => mapM (fun v => match v with CText s => Some s | _ => None end) l
                | _ => None
                end;
  dRaws b := match whole b with Some (CArr l) => mapM fixedMarshal l | _ => None end;
|}.

Definition fixedCbor : Cbor := {|
  cborMarshal := fixedMarshal;
  cborDecode := fixedDecode;
  cborFields b := match whole b with
                  | Some (CMap l) => list_to_map <$> mapM (fun kv => r ← fixedMarshal (snd kv); Some (fst kv, r)) l
                  | _ => None
                  end;
  cborAny := whole;
|}.

(** ** Parsing undoes printing *)

Lemma fixedHead_some h n b : fixedHead h n = Some b -> u64 n /\ b = h :: put_be 8 n.
Proof.
  unfold fixedHead. destruct ((0 <=? n) && (n <? 2 ^ 64)) eqn:E; [|done]. intros [= <-].
  apply andb_true_iff in E as [?%Z.leb_le ?%Z.ltb_lt]. done.
Qed.

Lemma head_parts n (rest : bytes) : u64 n ->
  get_be (ztake 8 (put_be 8 n ++ rest)) = n /\ zdrop 8 (put_be 8 n ++ rest) = rest.
Proof.
  intros Hn. rewrite ztake_app_le, zdrop_app_le by apply zlen_put_be. split; [|done].
  rewrite get_put_be. by apply Z.mod_small.
Qed.

Lemma floatBytes_parse f b : isNaN f = false -> floatBytes f = Some b -> zlen b = 17 /\ bytesFloat b = f.
Proof.
  intros Hn. unfold floatBytes. destruct f as [s|s| |s m e]; [| |done|].
  - intros [= <-]. by destruct s.
  - intros [= <-]. by destruct s.
  - destruct (_ && _ && _) eqn:E; [|done]. intros <-%(inj Some).
    rewrite !andb_true_iff, Z.leb_le, !Z.ltb_lt in E. destruct E as [[? ?] ?].
    split; [by rewrite zlen_cons, zlen_app, !zlen_put_be|]. unfold bytesFloat.
    rewrite ztake_app_le, zdrop_app_le by apply zlen_put_be. rewrite !get_put_be.
    change (256 ^ Z.of_nat 8) with (2 ^ 64). rewrite !Z.mod_small by lia.
    replace (e + 2 ^ 63 - 2 ^ 63) with e by lia. by destruct s.
Qed.

Lemma parseItems_concat item l raws rest :
  Forall2 (fun v raw => forall rest, item (raw ++ rest) = Some (v, rest)) l raws ->
  parseItems item (length l) (concat raws ++ rest) = Some (l, rest).
Proof.
  induction 1 as [|v raw l raws Hv _ IH]; [done|]. cbn [parseItems length concat].
  by rewrite <- app_assoc, Hv; cbn [mbind option_bind]; rewrite IH.
Qed.

Lemma parsePairs_concat item (l : list (Z * cval)) raws rest :
  Forall2 (fun kv raw => u64 (fst kv) /\ exists r h, raw = h :: put_be 8 (fst kv) ++ r /\
    forall rest, item (r ++ rest) = Some (snd kv, rest)) l raws ->
  parsePairs item (length l) (concat raws ++ rest) = Some (l, rest).
Proof.
  induction 1 as [|[k v] raw l raws (Hk & r & h & -> & Hr) _ IH]; [done|]. cbn [parsePairs length concat fst snd] in *.
  assert (((h :: put_be 8 k ++ r) ++ concat raws) ++ rest = [h] ++ put_be 8 k ++ r ++ concat raws ++ rest) as ->.
  { cbn [app]. by rewrite <- !app_assoc. }
  rewrite (slice_app 1 9 [h] (put_be 8 k)) by (done || by rewrite zlen_put_be).
  rewrite get_put_be, Z.mod_small by done. rewrite (app_assoc [h]), zdrop_app_le by (by rewrite zlen_app, zlen_put_be).
  rewrite Hr. cbn [mbind option_bind]. by rewrite IH.
Qed.

Lemma mapM_forall {A B} (f : A -> option B) l r : mapM f l = Some r -> Forall2 (fun x y => f x = Some y) l r.
Proof. apply mapM_Some_1. Qed.

Lemma fixedParse_marshal d v b rest : fits d v = true -> fixedMarshal v = Some b ->
  fixedParse d (b ++ rest) = Some (v, rest).
Proof.
  revert v b rest. induction d as [|d IH]; intros v b rest Hf; [done|].
  destruct v as [z|s|x|f|l|l]; cbn [fixedMarshal].
  - destruct (z <? 0) eqn:Ez; intros (Hz & ->)%fixedHead_some; cbn [app fixedParse];
      destruct (head_parts _ rest Hz) as [-> ->]; cbn; [|done]. repeat f_equal. lia.
  - destruct (fixedHead _ _) as [h|] eqn:Eh; [|done]. apply fixedHead_some in Eh as [Hn ->]. intros <-%(inj Some).
    rewrite <- app_assoc. cbn [app fixedParse]. destruct (head_parts _ (sbytes s ++ rest) Hn) as [-> ->].
    cbn -[ztake zdrop]. unfold slen. by rewrite ztake_app, zdrop_app, bstring_sbytes.
  - destruct (fixedHead _ _) as [h|] eqn:Eh; [|done]. apply fixedHead_some in Eh as [Hn ->]. intros <-%(inj Some).
    rewrite <- app_assoc. cbn [app fixedParse]. destruct (head_parts _ (x ++ rest) Hn) as [-> ->].
    cbn -[ztake zdrop]. by rewrite ztake_app, zdrop_app.
  - destruct (floatBytes f) as [y|] eqn:Ey; [|done]. intros <-%(inj Some). cbn [fits] in Hf.
    apply andb_true_iff in Hf as [Hn%negb_true_iff _]. destruct (floatBytes_parse _ _ Hn Ey) as [Hl Hy].
    cbn [app fixedParse]. cbn -[ztake zdrop bytesFloat get_be]. by rewrite ztake_app_le, zdrop_app_le, Hy.
  - destruct (fixedHead _ _) as [h|] eqn:Eh; [|done]. apply fixedHead_some in Eh as [Hn ->]. cbn [mbind option_bind].
    destruct (mapM _ l) as [raws|] eqn:El; [|done]. intros <-%(inj Some). apply mapM_forall in El.
    rewrite fits_arr in Hf. apply andb_true_iff in Hf as [_ Hf]. rewrite forallb_forall in Hf.
    rewrite <- app_assoc. cbn [app fixedParse]. destruct (head_parts _ (concat raws ++ rest) Hn) as [-> ->].
    cbn -[parseItems]. unfold zlen. rewrite Nat2Z.id, parseItems_concat; [done|].
    apply Forall2_same_length_lookup_2; [by eapply Forall2_length|]. intros i v raw Hv Hr rest'.
    apply IH; [apply Hf, list_elem_of_In; by eapply list_elem_of_lookup_2|]. exact (Forall2_lookup_lr _ _ _ i _ _ El Hv Hr).
  - destruct (fixedHead _ _) as [h|] eqn:Eh; [|done]. apply fixedHead_some in Eh as [Hn ->]. cbn [mbind option_bind].
    destruct (mapM _ l) as [raws|] eqn:El; [|done]. intros <-%(inj Some). apply mapM_forall in El.
    rewrite fits_map in Hf. apply andb_true_iff in Hf as [_ Hf]. rewrite forallb_forall in Hf.
    rewrite <- app_assoc. cbn [app fixedParse]. destruct (head_parts _ (concat raws ++ rest) Hn) as [-> ->].
    cbn -[parsePairs]. unfold zlen. rewrite Nat2Z.id, parsePairs_concat; [done|].
    apply Forall2_same_length_lookup_2; [by eapply Forall2_length|]. intros i [k v] raw Hv Hr.
    pose proof (Forall2_lookup_lr _ _ _ i _ _ El Hv Hr) as Hk. cbn [fst snd] in Hk |- *.
    destruct (fixedHead _ k) as [hk|] eqn:Ek; [|done]. apply fixedHead_some in Ek as [Hku ->].
    cbn [mbind option_bind] in Hk. destruct (fixedMarshal v) as [r|] eqn:Er; [|done]. injection Hk as <-.
    split; [done|]. exists r, Byte.x1b. split; [done|]. intros rest'. apply IH; [|done].
    assert (In (k, v) l) as Hin by (apply list_elem_of_In; by eapply list_elem_of_lookup_2).
    specialize (Hf _ Hin). by apply andb_true_iff in Hf as [_ Hf].
Qed.

Lemma whole_marshal v b : fits maxNestedLevels v = true -> fixedMarshal v = Some b -> whole b = Some v.
Proof. intros Hf Hm. unfold whole. rewrite <- (app_nil_r b). by rewrite (fixedParse_marshal _ _ _ [] Hf Hm). Qed.

Lemma pairs_fields l raws :
  mapM (fun kv => k ← fixedHead Byte.x1b (fst kv); r ← fixedMarshal (snd kv); Some (k ++ r)) l = Some raws ->
  exists fields : list (Z * bytes),
    mapM (fun kv => r ← fixedMarshal (snd kv); Some (fst kv, r)) l = Some fields /\ (fst <$> fields) = (fst <$> l) /\
    forall k v, (k, v) ∈ l -> exists raw, (k, raw) ∈ fields /\ fixedMarshal v = Some raw.
Proof.
  intros Hr%mapM_forall. induction Hr as [|[k v] raw l raws Hk _ (fields & Hf & Hk' & Hin)].
  - exists []. split_and!; [done|done|]. intros k v H. by apply elem_of_nil in H.
  - cbn [fst snd] in Hk. destruct (fixedHead _ k); [|done]. cbn [mbind option_bind] in Hk.
    destruct (fixedMarshal v) as [r|] eqn:Er; [|done]. exists ((k, r) :: fields). split_and!.
    + cbn. rewrite Er. cbn. cbn in Hf. by rewrite Hf.
    + cbn. by rewrite Hk'.
    + intros k' v'. rewrite elem_of_cons. intros [[= -> ->]|H].
      * exists r. split; [apply list_elem_of_here|done].
      * destruct (Hin _ _ H) as (raw' & ? & ?). exists raw'. split; [by apply list_elem_of_further|done].
Qed.

Lemma texts_back l : mapM (fun v => match v with CText s => Some s | _ => None end) (CText <$> l) = Some l.
Proof. induction l as [|s l IH]; [done|]. cbn. cbn in IH. by rewrite IH. Qed.

Lemma fixedCbor_laws : CborLaws fixedCbor.
Proof.
  constructor; cbn [fixedCbor cborMarshal cborDecode cborFields cborAny fixedDecode dInt dUint32 dString dBytes dFloat
    dStrings dRaws].
  - intros z b Hz Hm. rewrite (whole_marshal (CInt z)); [done|by apply fits_int|done].
  - intros z b Hz Hm. rewrite (whole_marshal (CInt z)); [done|by apply fits_uint|done].
  - intros s b Hs Hm. rewrite (whole_marshal (CText s)); [done|by apply fits_text|done].
  - intros x b Hm. rewrite (whole_marshal (CBytes x)); [done|by apply fits_bytes|done].
  - intros f b Hf Hm. rewrite (whole_marshal (CFloat f)); [done| |done]. eapply fits_le; [|exact Hf].
    unfold maxNestedLevels. lia.
  - intros l b Hf Hm. rewrite (whole_marshal (CArr (CText <$> l))); [apply texts_back| |done].
    eapply fits_le; [|exact Hf]. unfold maxNestedLevels. lia.
  - intros l b Hf Hm. rewrite (whole_marshal (CArr l)) by done. cbn [fixedMarshal] in Hm.
    destruct (fixedHead _ _); [|done]. cbn [mbind option_bind] in Hm. destruct (mapM fixedMarshal l) as [raws|] eqn:E; [|done].
    exists raws. split; [done|]. by apply mapM_forall.
  - intros l b Hf Hm. rewrite (whole_marshal (CMap l)) by done. cbn [fixedMarshal] in Hm.
    destruct (fixedHead _ _); [|done]. cbn [mbind option_bind] in Hm.
    destruct (mapM _ l) as [raws|] eqn:E; [|done].
    unfold maxNestedLevels in Hf. rewrite fits_map in Hf. apply andb_true_iff in Hf as [Hf _].
    apply andb_true_iff in Hf as [_ Hnd%bool_decide_eq_true].
    destruct (pairs_fields l raws E) as (fields & Hf & Hk & Hin). rewrite Hf. cbn [fmap option_fmap option_map].
    exists (list_to_map fields). rewrite <- Hk in Hnd. split_and!; [done| |].
    + rewrite <- length_map_to_list. rewrite map_to_list_to_map by done.
      by rewrite <- (length_fmap fst fields), Hk, length_fmap.
    + intros k v (raw & Hraw & Hv)%Hin. exists raw. split; [|done]. by apply elem_of_list_to_map.
  - intros v b Hf Hm. exists v. split; [|done]. by apply whole_marshal.
  - intros v b Hm. destruct v as [z|s|x|f|l|l]; cbn [fixedMarshal] in Hm;
      repeat match type of Hm with
      | (if ?c then _ else _) = _ => destruct c eqn:?
      | mbind _ ?o = _ => destruct o eqn:?; [cbn [mbind option_bind] in Hm|done]
      end;
      repeat match goal with H : fixedHead _ _ = Some _ |- _ => apply fixedHead_some in H as [_ ->] end;
      try (apply (inj Some) in Hm as <-); eexists _, _; (split; [reflexivity|]); cbn [headOf];
      try match goal with H : (?z <? 0) = _ |- _ => rewrite H end; try done; by vm_compute.
Qed.

(** ** Witnesses *)

Definition sampleEncoded : bytes :=
  match @EncodeV1 toyEncoding fixedCbor sampleProgram with Ok b => b | Err _ => [] end.

Lemma sampleProgram_typed : goTyped sampleProgram.
Proof.
  constructor; try reflexivity; unfold programInts, programUints;
    repeat (constructor; [vm_compute; intuition discriminate|]); constructor.
Defined.

Lemma sampleProgram_texts : utf8Texts sampleProgram.
Proof. unfold utf8Texts, programTexts. repeat (constructor; [vm_compute; reflexivity|]). constructor. Defined.

Lemma live_program_exact_witness :
  @EncodeV1 toyEncoding fixedCbor sampleProgram = Ok sampleEncoded /\
  @DecodeV1 toyEncoding fixedCbor sampleEncoded = Ok sampleProgram.
Proof.
  split; [vm_compute; reflexivity|].
  apply (@live_program_exact toyEncoding fixedCbor fixedCbor_laws); [exact sampleProgram_typed | exact sampleProgram_texts | vm_compute; reflexivity].
Defined.

Lemma preflight_admits_witness : @PreflightResourcesV1 fixedCbor sampleEncoded = Ok tt.
Proof.
  apply (@preflight_admits toyEncoding fixedCbor fixedCbor_laws sampleProgram);
    [exact sampleProgram_typed | exact sampleProgram_texts | vm_compute; reflexivity].
Defined.
