(* ===== verification/LiveCompile.v ===== *)
(** * Compiling a profile to a live program

    [src/internal/protocol/liveprogramcompile/compile_v1.go]: the owner-side
    projection of a validated profile to the product-safe program, with its own
    encode and decode check. A live program frames data and padding exactly as
    the profile it was compiled from ([compile_frames_agree]), and what it ships
    is its own canonical form without the profile's name ([compile_sound]). *)

From S2P Require Import Prelude GoBytes GoJson Ir Validate Scheduler Padding Proxysem Framing LiveProgram LiveFraming.
From S2P Require Import LiveCodec LiveCodecFacts LiveDecode CborInstance.
From Stdlib Require Import ZArith Lia Floats.SpecFloat Strings.Byte.
From stdpp Require Import base list strings.
Local Open Scope Z_scope.

#[export] Instance spec_float_eq_dec : EqDecision spec_float.
Proof. solve_decision. Defined.
#[export] Instance MessageV1_eq_dec : EqDecision MessageV1.
Proof. solve_decision. Defined.
#[export] Instance CompiledFramingV1_eq_dec : EqDecision CompiledFramingV1.
Proof. solve_decision. Defined.
#[export] Instance FrameV1_eq_dec : EqDecision FrameV1.
Proof. solve_decision. Defined.
#[export] Instance SchedulerV1_eq_dec : EqDecision SchedulerV1.
Proof. solve_decision. Defined.
#[export] Instance StreamV1_eq_dec : EqDecision StreamV1.
Proof. solve_decision. Defined.
#[export] Instance PaddingV1_eq_dec : EqDecision PaddingV1.
Proof. solve_decision. Defined.
#[export] Instance SecurityPolicyV1_eq_dec : EqDecision SecurityPolicyV1.
Proof. solve_decision. Defined.
#[export] Instance SecurityV1_eq_dec : EqDecision SecurityV1.
Proof. solve_decision. Defined.
#[export] Instance LimitsV1_eq_dec : EqDecision LimitsV1.
Proof. solve_decision. Defined.
#[export] Instance ProgramV1_eq_dec : EqDecision ProgramV1.
Proof. solve_decision. Defined.

Record InputV1 := mkInputV1 {
  in_Profile : option Profile;
  in_ClientMandatoryFeatures : list string;
  in_RelayMandatoryFeatures : list string;
  in_SelectedFeatures : list string;
}.

Inductive compile_error := ErrCompilationRejected | ErrProjectionCollisionV1.

Definition countSemantic (messages : list MessageSymbol) (semantic : string) : Z :=
  foldl (fun count m => if bool_decide (ms_Semantic m = semantic) then count + 1 else count) 0 messages.

(** Past the [switch], and after a table without the symbol, the symbol itself. *)
Definition legacyTypeTag (profile : Profile) (message : MessageSymbol) : bytes :=
  let mode := fg_TypeMode (pf_FrameGrammar profile) in
  let symbol := ms_WireSymbol message in
  let table := list_find (fun c => ms_WireSymbol c = symbol) (pf_Messages profile) in
  if bool_decide (mode = "table_indexed_symbol") then
    match table with
    | Some (index, _) =>
        [zb (Z.of_nat index); zb (Z.land (ChecksumIEEE (sbytes (pf_ID profile +:+ ":" +:+ symbol))) 255)]
    | None => sbytes symbol
    end
  else if bool_decide (mode = "derived_from_state") then
    PutUint32 (ChecksumIEEE (sbytes (pf_ID profile +:+ ":state:" +:+ symbol)))
  else if bool_decide (mode = "derived_from_header_order") then
    PutUint32 (ChecksumIEEE (sbytes (Sprint (fg_HeaderOrder (pf_FrameGrammar profile)) +:+ ":" +:+ symbol)))
  else sbytes symbol.

Definition legacyStreamMask (profile : Profile) (salt : string) : Z :=
  ChecksumIEEE (sbytes (pf_ID profile +:+ ":" +:+ salt +:+ ":" +:+ Sprint (fg_HeaderOrder (pf_FrameGrammar profile)))).

Definition projectSecurity (profile : Profile) (effective : EffectiveSecurityPolicy) : SecurityV1 :=
  mkSecurityV1 (cm_CompilerSecurityVersion (pf_Compatibility profile)) (cm_MinimumRuntimeVersion (pf_Compatibility profile))
    (mkSecurityPolicyV1 (eff_SecurityVersion effective) (eff_TranscriptMode effective) (eff_KDFSuite effective)
       (eff_AEADSuite effective) (eff_MACSuite effective) (eff_NonceMode effective) (eff_ReplayPolicy effective)
       (eff_ReplayWindowSize effective) (eff_DowngradePolicy effective) (eff_CapabilityNegotiationPolicy effective)
       (eff_ProfileCompatibilityPolicy effective) (eff_KeyRotationPolicy effective)
       (eff_ConfigValidationPolicy effective) (eff_SecureEnvelopeMode effective) (eff_MaxSessionMessages effective)
       (eff_MaxKeyLifetimeMessages effective))
    (eff_ClientMandatoryCapabilities effective) (eff_ServerMandatoryCapabilities effective)
    (eff_SelectedCapabilities effective).

(** The composite literal of [CompileV1]. *)
Definition projectProgram `{Encoding} (profile : Profile) (sourceHash : bytes) (effective : EffectiveSecurityPolicy)
    (data padding : MessageSymbol) : ProgramV1 :=
  let g := pf_FrameGrammar profile in
  let message m := mkMessageV1 (ms_Semantic m) (ms_WireSymbol m) (ms_Direction m) (ms_MinPayloadSize m) (ms_MaxPayloadSize m) in
  mkProgramV1 SchemaV1 (DeriveProgramIDV1 sourceHash) (pf_Version profile) sourceHash [message data; message padding]
    (mkFrameV1 (fg_LengthMode g) (fg_TypeMode g) (fg_HeaderOrder g) (fg_FragmentationMode g) (fg_ChecksumMode g)
       (fg_PaddingPlacement g)
       (mkCompiledFramingV1 (legacyTypeTag profile data) (legacyTypeTag profile padding)
          (legacyStreamMask profile "profile") (legacyStreamMask profile "table") (crc32_update 0 (sbytes (pf_ID profile)))))
    (mkSchedulerV1 (sc_Mode (pf_Scheduler profile)) (sc_PriorityMode (pf_Scheduler profile))
       (sc_MaxBatchBytes (pf_Scheduler profile)) (sc_FlushIntervalMs (pf_Scheduler profile))
       (sc_MaxInFlightFrames (pf_Scheduler profile)))
    (mkStreamV1 (sp_IDEncodingMode (pf_Stream profile)) (sp_MaxConcurrentStreams (pf_Stream profile)))
    (mkPaddingV1 (pp_Mode (pf_Padding profile)) (pp_MinPaddingBytes (pf_Padding profile))
       (pp_MaxPaddingBytes (pf_Padding profile)) (pp_Probability (pf_Padding profile)))
    (projectSecurity profile effective)
    (mkLimitsV1 (lim_MaxFrameBytes (pf_Limits profile)) (lim_MaxPayloadBytes (pf_Limits profile))
       (lim_MaxSessionMillis (pf_Limits profile)) (sec_MaxSessionMessages (pf_Security profile))
       (sec_MaxKeyLifetimeMessages (pf_Security profile))).

(** [bytes.Contains]. *)
Fixpoint bytesContain (s sub : bytes) : bool :=
  bool_decide (sub `prefix_of` s) || match s with [] => false | _ :: rest => bytesContain rest sub end.

Definition orRejected {E A} (r : result E A) : result compile_error A := map_err (fun _ => ErrCompilationRejected) r.
Definition someRejected {A} (o : option A) : result compile_error A :=
  match o with Some a => Ok a | None => Err ErrCompilationRejected end.

Definition CompileV1 `{Encoding, Cbor} (input : InputV1) : result compile_error ProgramV1 :=
  let? profile := someRejected (in_Profile input) in
  let? _ := orRejected (Validate (Some profile)) in
  fail? bool_decide (pf_GenerationHash profile = "") with ErrCompilationRejected in
  let? canonicalHash := orRejected (CanonicalHash profile) in
  fail? negb (bool_decide (canonicalHash = pf_GenerationHash profile)) with ErrCompilationRejected in
  let? sourceHash := someRejected (decodeHex (sbytes canonicalHash)) in
  fail? negb (zlen sourceHash =? 32) with ErrCompilationRejected in
  let? effective := orRejected (BuildEffectiveSecurityPolicy (Some profile) (in_ClientMandatoryFeatures input)
                      (in_RelayMandatoryFeatures input) (in_SelectedFeatures input)) in
  let? _ := orRejected (ValidateEffectiveSecurityPolicy effective) in
  let? data := someRejected (MessageBySemantic profile SemanticData) in
  let? padding := someRejected (MessageBySemantic profile SemanticPadding) in
  fail? negb (countSemantic (pf_Messages profile) SemanticData =? 1)
      || negb (countSemantic (pf_Messages profile) SemanticPadding =? 1) with ErrCompilationRejected in
  fail? negb (IsSafeWireSymbolV1 (ms_WireSymbol data)) || negb (IsSafeWireSymbolV1 (ms_WireSymbol padding))
    with ErrProjectionCollisionV1 in
  let program := projectProgram profile sourceHash effective data padding in
  let compiled := lf_Compiled (lp_Frame program) in
  fail? bool_decide (cf_DataTypeTag compiled = cf_PaddingTypeTag compiled) with ErrProjectionCollisionV1 in
  let? _ := orRejected (ValidateV1 program) in
  let? encoded := orRejected (EncodeV1 program) in
  let? decoded := orRejected (DecodeV1 encoded) in
  fail? negb (bool_decide (program = decoded)) with ErrCompilationRejected in
  fail? bytesContain encoded (sbytes (pf_ID profile)) with ErrProjectionCollisionV1 in
  Ok decoded.

(** ** What a successful compilation says *)

Record compiledFrom `{Encoding, Cbor} (input : InputV1) (program : ProgramV1) (profile : Profile) (hash : string)
    (source encoded : bytes) (effective : EffectiveSecurityPolicy) (data pad : MessageSymbol) : Prop := {
  cp_profile : in_Profile input = Some profile;
  cp_valid : Validate (Some profile) = Ok tt;
  cp_hash : CanonicalHash profile = Ok hash /\ pf_GenerationHash profile = hash;
  cp_source : decodeHex (sbytes hash) = Some source /\ zlen source = 32;
  cp_effective : BuildEffectiveSecurityPolicy (Some profile) (in_ClientMandatoryFeatures input)
                   (in_RelayMandatoryFeatures input) (in_SelectedFeatures input) = Ok effective;
  cp_data : MessageBySemantic profile SemanticData = Some data;
  cp_pad : MessageBySemantic profile SemanticPadding = Some pad;
  cp_program : program = projectProgram profile source effective data pad;
  cp_tags : legacyTypeTag profile data <> legacyTypeTag profile pad;
  cp_live : ValidateV1 program = Ok tt;
  cp_encoded : EncodeV1 program = Ok encoded;
  cp_decoded : DecodeV1 encoded = Ok program;
  cp_name : bytesContain encoded (sbytes (pf_ID profile)) = false;
}.

Lemma someRejected_ok {A} (o : option A) a : someRejected o = Ok a <-> o = Some a.
Proof. destruct o; split; intros E; [injection E as ->|injection E as ->|..]; done. Qed.

Lemma CompileV1_compiled `{Encoding, Cbor} input program : CompileV1 input = Ok program ->
  exists profile hash source encoded effective data pad,
    compiledFrom input program profile hash source encoded effective data pad.
Proof.
  unfold CompileV1. intros HC.
  apply rbind_ok in HC as (profile & Hp%someRejected_ok & HC).
  apply rbind_ok in HC as ([] & HV%map_err_ok & HC). apply reject_bind_ok in HC as [_ HC].
  apply rbind_ok in HC as (hash & Hh%map_err_ok & HC).
  apply reject_bind_ok in HC as [Hg%negb_false_iff%bool_decide_eq_true HC].
  apply rbind_ok in HC as (source & Hs%someRejected_ok & HC).
  apply reject_bind_ok in HC as [Hl%negb_false_iff%Z.eqb_eq HC].
  apply rbind_ok in HC as (effective & He%map_err_ok & HC). apply rbind_ok in HC as ([] & _ & HC).
  apply rbind_ok in HC as (data & Hd%someRejected_ok & HC). apply rbind_ok in HC as (pad & Hpd%someRejected_ok & HC).
  apply reject_bind_ok in HC as [_ HC]. apply reject_bind_ok in HC as [_ HC]. cbv zeta in HC.
  apply reject_bind_ok in HC as [Ht%bool_decide_eq_false HC]. apply rbind_ok in HC as ([] & Hlive%map_err_ok & HC).
  apply rbind_ok in HC as (encoded & Henc%map_err_ok & HC). apply rbind_ok in HC as (decoded & Hdec%map_err_ok & HC).
  apply reject_bind_ok in HC as [Heq%negb_false_iff%bool_decide_eq_true HC].
  apply reject_bind_ok in HC as [Hn <-%Ok_inj]. subst decoded.
  exists profile, hash, source, encoded, effective, data, pad. constructor; done.
Qed.

(** ** The framing is the profile's *)

Lemma list_find_fmap_snd {A B} (f : A -> B) (P : B -> Prop) `{forall b, Decision (P b)} (l : list A) :
  snd <$> list_find P (f <$> l) = f <$> (snd <$> list_find (fun a => P (f a)) l).
Proof.
  induction l as [|a l IH]; [done|]. cbn [list_find fmap list_fmap]. case_decide; [done|].
  destruct (list_find P (f <$> l)) as [[]|], (list_find (fun a => P (f a)) l) as [[]|]; cbn in *; try done.
Qed.

Lemma tableTag_find profile message : forall l index, tableTag profile l index message =
  match list_find (fun c => ms_WireSymbol c = ms_WireSymbol message) l with
  | Some (i, _) => [zb (index + Z.of_nat i);
      zb (Z.land (ChecksumIEEE (sbytes (pf_ID profile +:+ ":" +:+ ms_WireSymbol message))) 255)]
  | None => []
  end.
Proof.
  induction l as [|c l IH]; intros index; [done|]. cbn [tableTag list_find].
  destruct (decide (ms_WireSymbol c = ms_WireSymbol message)) as [E|E].
  - rewrite bool_decide_eq_true_2 by done. by rewrite Z.add_0_r.
  - rewrite bool_decide_eq_false_2, IH by done.
    destruct (list_find _ l) as [[i x]|]; cbn [fmap option_fmap option_map prod_map]; [|done].
    by replace (index + 1 + Z.of_nat i) with (index + Z.of_nat (S i)) by lia.
Qed.

(** For a message of the profile the compiler's tag is the codec's. *)
Lemma legacyTypeTag_agrees profile message : message ∈ pf_Messages profile ->
  legacyTypeTag profile message = legacyTypeTagFromProfile profile message.
Proof.
  intros Hin. unfold legacyTypeTag, legacyTypeTagFromProfile. cbv zeta. rewrite tableTag_find.
  case_bool_decide; [|done]. destruct (list_find _ _) as [[i m]|] eqn:E; [by rewrite Z.add_0_l|].
  exfalso. apply list_find_None in E. rewrite Forall_forall in E. by apply (E message).
Qed.

Lemma MessageBySemantic_spec profile s m : MessageBySemantic profile s = Some m ->
  m ∈ pf_Messages profile /\ ms_Semantic m = s /\ messageBySemantic (specOf profile) s =
    Some (mkCodecMessage s (ms_WireSymbol m) (legacyTypeTagFromProfile profile m)).
Proof.
  intros HM. unfold messageBySemantic, specOf. cbn [messages]. rewrite list_find_fmap_snd. cbn [semantic].
  unfold MessageBySemantic in HM. rewrite HM. destruct (list_find _ _) as [[i x]|] eqn:E; [|done].
  injection HM as ->. apply list_find_Some in E as (Hi & <- & _). split; [by eapply list_elem_of_lookup_2|done].
Qed.

(** The encoder reads the messages of a spec only through the operation's
    semantic. *)
Definition withMessages (spec : codecSpec) (l : list codecMessage) : codecSpec :=
  mkSpec l (lengthMode spec) (checksumMode spec) (headerOrder spec) (fragmentationMode spec) (paddingPlacement spec)
    (padding spec) (maxFrameBytes spec) (maxPayloadBytes spec) (maxBatchBytes spec) (streamEncodingMode spec)
    (profileXORStreamMask spec) (tableStreamMask spec) (crc32PrefixState spec).

Section messages.
Context `{Rand} (spec : codecSpec) (l : list codecMessage).

Lemma encodeFrame_messages op pad i c :
  messageBySemantic (withMessages spec l) (Semantic op) = messageBySemantic spec (Semantic op) ->
  encodeFrameWithSpec (withMessages spec l) op pad i c = encodeFrameWithSpec spec op pad i c.
Proof. intros E. unfold encodeFrameWithSpec. rewrite E. by destruct (messageBySemantic spec (Semantic op)). Qed.

Lemma encodeParts_messages op engine payload i c sizes :
  messageBySemantic (withMessages spec l) (Semantic op) = messageBySemantic spec (Semantic op) ->
  encodeParts (withMessages spec l) op engine payload i c sizes = encodeParts spec op engine payload i c sizes.
Proof.
  intros E. revert engine payload i. induction sizes as [|n sizes IH]; intros; [done|]. cbn [encodeParts].
  destruct (Generate engine) as [engine' [pad|]]; [|done]. cbn [map_err rbind].
  rewrite (encodeFrame_messages (withPayload op (ztake n payload))) by done.
  destruct (encodeFrameWithSpec _ _ _ _ _); [|done]. cbn [rbind]. by rewrite IH.
Qed.

Lemma encodeOperation_messages op seed :
  messageBySemantic (withMessages spec l) (Semantic op) = messageBySemantic spec (Semantic op) ->
  encodeOperationWithSpec (withMessages spec l) op seed = encodeOperationWithSpec spec op seed.
Proof.
  intros E. unfold encodeOperationWithSpec. rewrite E. cbn [withMessages maxPayloadBytes fragmentationMode
    maxBatchBytes maxFrameBytes padding]. by rewrite encodeParts_messages.
Qed.
End messages.

Section compiled.
Context `{HE : Encoding, HR : Rand, HB : Cbor} (input : InputV1) (program : ProgramV1) (profile : Profile).
Context (hash : string) (source encoded : bytes) (effective : EffectiveSecurityPolicy) (data pad : MessageSymbol).
Context (HC : compiledFrom input program profile hash source encoded effective data pad).

Let liveMessages : list codecMessage :=
  [mkCodecMessage (ms_Semantic data) (ms_WireSymbol data) (legacyTypeTag profile data);
   mkCodecMessage (ms_Semantic pad) (ms_WireSymbol pad) (legacyTypeTag profile pad)].

Lemma compiled_spec : codecSpecFromLiveProgram program = Ok (withMessages (specOf profile) liveMessages).
Proof using HC.
  unfold codecSpecFromLiveProgram. rewrite (cp_live _ _ _ _ _ _ _ _ _ HC). cbn [map_err rbind].
  rewrite (cp_program _ _ _ _ _ _ _ _ _ HC). cbn [projectProgram lp_Messages]. f_equal.
  unfold liveSpec, withMessages. cbn. by destruct (pf_Padding profile).
Qed.

(** The live spec finds the two messages the profile's spec finds. *)
Lemma compiled_message s : s ∈ [SemanticData; SemanticPadding] ->
  exists msg, messageBySemantic (withMessages (specOf profile) liveMessages) s = Some msg /\
    messageBySemantic (specOf profile) s = Some msg /\
    messageByTag (withMessages (specOf profile) liveMessages) (typeTag msg) = Some msg.
Proof using HC.
  destruct (MessageBySemantic_spec _ _ _ (cp_data _ _ _ _ _ _ _ _ _ HC)) as (Hd & Sd & Ed).
  destruct (MessageBySemantic_spec _ _ _ (cp_pad _ _ _ _ _ _ _ _ _ HC)) as (Hp & Sp & Ep).
  pose proof (cp_tags _ _ _ _ _ _ _ _ _ HC) as HT.
  rewrite <- legacyTypeTag_agrees in Ed, Ep by done.
  unfold messageBySemantic at 1, messageByTag. cbn [withMessages messages liveMessages list_find].
  cbn [semantic typeTag]. rewrite Sd, Sp.
  rewrite !elem_of_cons. intros [->|[->|Hin]]; [| |by apply elem_of_nil in Hin].
  - eexists. rewrite decide_True by done. split; [done|]. split; [done|]. cbn [typeTag]. by rewrite decide_True.
  - eexists. rewrite decide_False by done. rewrite decide_True by done. split; [done|]. split; [done|]. cbn [typeTag].
    rewrite decide_False by done. by rewrite decide_True.
Qed.

Lemma compiled_encode op seed : Semantic op ∈ [SemanticData; SemanticPadding] ->
  EncodeLiveOperation program op seed = EncodeOperation profile op seed.
Proof using HC.
  intros Hop. destruct (compiled_message _ Hop) as (msg & H1 & H2 & _).
  unfold EncodeLiveOperation, EncodeOperation, codecSpecFromProfile. rewrite compiled_spec.
  rewrite (cp_valid _ _ _ _ _ _ _ _ _ HC). cbn [map_err rbind].
  rewrite encodeOperation_messages by (by rewrite H1, H2).
  unfold validateProxyOperation. rewrite !elem_of_cons in Hop.
  destruct Hop as [E|[E|Hin]]; [| |by apply elem_of_nil in Hin]; by rewrite E.
Qed.

Lemma compiled_decode op seed frames : Semantic op ∈ [SemanticData; SemanticPadding] ->
  wireRange op -> pp_MaxPaddingBytes (pf_Padding profile) < 65536 -> zlen (FragmentSizes profile (zlen (Payload op))) < 65536 ->
  EncodeOperation profile op seed = Ok frames ->
  exists parts, DecodeLiveFrames program frames = Ok (op, parts).
Proof using HC.
  intros Hop HW Hpad Hcount HF. destruct (compiled_message _ Hop) as (msg & H1 & H2 & H3).
  rewrite <- compiled_encode in HF by done. unfold EncodeLiveOperation in HF. rewrite compiled_spec in HF. cbn [rbind] in HF.
  assert (sendable (withMessages (specOf profile) liveMessages) op msg) as HS.
  { destruct (specOf_good profile (cp_valid _ _ _ _ _ _ _ _ _ HC)). by repeat (constructor; try done). }
  destruct (encode_decode _ op msg seed frames HS HF) as (parts & _ & HD).
  exists parts. unfold DecodeLiveFrames. by rewrite compiled_spec.
Qed.
End compiled.

(** C36: a live program speaks the wire format of the profile it was compiled
    from. For data and padding, the two operations it keeps, the live encoder
    emits exactly the frames of the profile's encoder, errors included, whatever the
    operation. The live decoder recovers the operation from the frames of the
    profile's encoder, in every type mode, because a compilation whose two tags
    collide is refused; this half is for operations whose numeric fields are in the
    range of the wire, profiles whose padding limit is below 65536 bytes and payloads
    that are cut into fewer than 65536 fragments (the frame stores both in 16 bits). *)
Theorem compile_frames_agree `{Encoding, Rand, Cbor} input program profile op seed :
  CompileV1 input = Ok program -> in_Profile input = Some profile -> Semantic op ∈ [SemanticData; SemanticPadding] ->
  EncodeLiveOperation program op seed = EncodeOperation profile op seed /\
  forall frames, wireRange op -> pp_MaxPaddingBytes (pf_Padding profile) < 65536 ->
    zlen (FragmentSizes profile (zlen (Payload op))) < 65536 -> EncodeOperation profile op seed = Ok frames ->
    exists parts, DecodeLiveFrames program frames = Ok (op, parts).
Proof.
  intros HC Hp Hop. destruct (CompileV1_compiled _ _ HC) as (q & hash & source & encoded & eff & data & pad & HF).
  pose proof (cp_profile _ _ _ _ _ _ _ _ _ HF) as Hq. rewrite Hp in Hq. injection Hq as <-.
  split; [by eapply compiled_encode|]. intros frames. by eapply compiled_decode.
Qed.


Lemma bytesContain_false s sub : bytesContain s sub = false -> ~ exists a b, s = a ++ sub ++ b.
Proof.
  induction s as [|x s IH]; cbn [bytesContain]; intros [Hp%bool_decide_eq_false Hs]%orb_false_iff (a & b & E).
  - apply Hp. symmetry in E. apply app_nil in E as [-> E]. exists b. by rewrite E.
  - destruct a as [|y a]; [apply Hp; by exists b|]. injection E as -> E. apply IH; eauto.
Qed.

(** What the security section of a live program must say, field by field. *)
Record securesWith (profile : Profile) (effective : EffectiveSecurityPolicy) (s : SecurityV1) : Prop := {
  sw_compiler : lse_CompilerSecurityVersion s = cm_CompilerSecurityVersion (pf_Compatibility profile);
  sw_runtime : lse_MinimumRuntimeVersion s = cm_MinimumRuntimeVersion (pf_Compatibility profile);
  sw_client : lse_ClientMandatoryCapabilities s = eff_ClientMandatoryCapabilities effective;
  sw_relay : lse_RelayMandatoryCapabilities s = eff_ServerMandatoryCapabilities effective;
  sw_selected : lse_SelectedCapabilities s = eff_SelectedCapabilities effective;
  sw_version : lsp_SecurityVersion (lse_Policy s) = eff_SecurityVersion effective;
  sw_transcript : lsp_TranscriptMode (lse_Policy s) = eff_TranscriptMode effective;
  sw_suites : lsp_KDFSuite (lse_Policy s) = eff_KDFSuite effective /\ lsp_AEADSuite (lse_Policy s) = eff_AEADSuite effective /\
    lsp_MACSuite (lse_Policy s) = eff_MACSuite effective;
  sw_nonce : lsp_NonceMode (lse_Policy s) = eff_NonceMode effective;
  sw_replay : lsp_ReplayPolicy (lse_Policy s) = eff_ReplayPolicy effective /\ lsp_ReplayWindowSize (lse_Policy s) = eff_ReplayWindowSize effective;
  sw_downgrade : lsp_DowngradePolicy (lse_Policy s) = eff_DowngradePolicy effective;
  sw_negotiation : lsp_CapabilityNegotiationPolicy (lse_Policy s) = eff_CapabilityNegotiationPolicy effective;
  sw_compatibility : lsp_ProfileCompatibilityPolicy (lse_Policy s) = eff_ProfileCompatibilityPolicy effective;
  sw_rotation : lsp_KeyRotationPolicy (lse_Policy s) = eff_KeyRotationPolicy effective;
  sw_validation : lsp_ConfigValidationPolicy (lse_Policy s) = eff_ConfigValidationPolicy effective;
  sw_envelope : lsp_SecureEnvelopeMode (lse_Policy s) = eff_SecureEnvelopeMode effective;
  sw_limits : lsp_MaxSessionMessages (lse_Policy s) = eff_MaxSessionMessages effective /\
    lsp_MaxKeyLifetimeMessages (lse_Policy s) = eff_MaxKeyLifetimeMessages effective;
}.

(** C38: what the compiler ships is sound. The program is valid; its source hash
    is the profile's generation hash and its identifier is derived from that
    alone; every field of its security section is the one of the same name of the
    profile's effective policy for the requested features (the client's floor for
    the client's, the server's for the relay's) or of the profile's compatibility
    section; and its encoding decodes to it and nowhere contains the profile's
    name. *)
Theorem compile_sound `{Encoding, Cbor} input program profile :
  CompileV1 input = Ok program -> in_Profile input = Some profile ->
  exists encoded effective,
    ValidateV1 program = Ok tt /\ EncodeV1 program = Ok encoded /\ DecodeV1 encoded = Ok program /\
    ~ (exists a b, encoded = a ++ sbytes (pf_ID profile) ++ b) /\
    decodeHex (sbytes (pf_GenerationHash profile)) = Some (lp_SourceGenerationHash program) /\
    lp_ProgramID program = DeriveProgramIDV1 (lp_SourceGenerationHash program) /\
    BuildEffectiveSecurityPolicy (Some profile) (in_ClientMandatoryFeatures input)
      (in_RelayMandatoryFeatures input) (in_SelectedFeatures input) = Ok effective /\
    securesWith profile effective (lp_Security program).
Proof.
  intros HC Hp. destruct (CompileV1_compiled _ _ HC) as (q & hash & source & encoded & eff & data & pad & HF).
  pose proof (cp_profile _ _ _ _ _ _ _ _ _ HF) as Hq. rewrite Hp in Hq. injection Hq as <-.
  exists encoded, eff. destruct HF as [_ _ [_ Hg] [Hs _] He _ _ Hprog _ Hv Henc Hdec Hn].
  split_and!; try done; [by apply bytesContain_false|..]; rewrite Hprog; try done. by rewrite Hg.
Qed.

(** ** Witnesses *)

Definition liveProfile : Profile :=
  let p := sampleProfile in
  mkProfile (pf_Version p) (pf_ID p) (pf_Seed p) (pf_GenerationHash p) (pf_RolePolicy p) (pf_Carrier p)
    (pf_States p) (pf_Transitions p) (pf_FirstContact p)
    ((fun m => mkMessageSymbol (ms_Semantic m) (ms_WireSymbol m) "bidirectional" (ms_MinPayloadSize m)
                 (ms_MaxPayloadSize m)) <$> pf_Messages p)
    (pf_FrameGrammar p) (pf_Auth p) (pf_Scheduler p) (pf_Stream p) (pf_ProxySemantics p) (pf_CarrierPolicy p)
    (pf_WireShape p) (pf_AdapterPolicy p) (pf_Security p) (pf_Compatibility p) (pf_Padding p)
    (pf_InvalidInput p) (pf_Limits p).

Definition sampleInput : InputV1 :=
  mkInputV1 (Some liveProfile) ["replay_window"] ["multi_stream"] ["multi_stream"; "replay_window"].

Definition sampleCompiled : ProgramV1 :=
  match @CompileV1 toyEncoding fixedCbor sampleInput with Ok p => p | Err _ => sampleProgram end.

Lemma sample_compiles : @CompileV1 toyEncoding fixedCbor sampleInput = Ok sampleCompiled.
Proof. vm_compute. reflexivity. Qed.

Definition compiledFrames : list bytes :=
  match @EncodeOperation toyEncoding toyRand liveProfile sampleOperation 5 with Ok l => l | Err _ => [] end.

Lemma compile_frames_agree_witness :
  @EncodeLiveOperation toyEncoding toyRand sampleCompiled sampleOperation 5 = Ok compiledFrames /\
  exists parts, @DecodeLiveFrames toyEncoding sampleCompiled compiledFrames = Ok (sampleOperation, parts).
Proof.
  destruct (@compile_frames_agree toyEncoding toyRand fixedCbor sampleInput sampleCompiled liveProfile sampleOperation 5)
    as [HE HD]; [exact sample_compiles | reflexivity | apply list_elem_of_here |].
  assert (HF : @EncodeOperation toyEncoding toyRand liveProfile sampleOperation 5 = Ok compiledFrames)
    by (vm_compute; reflexivity).
  split; [by rewrite HE|]. apply HD; [exact sampleOperation_range | vm_compute; reflexivity | vm_compute; reflexivity | exact HF].
Defined.

Lemma compile_sound_witness : exists encoded effective,
  @EncodeV1 toyEncoding fixedCbor sampleCompiled = Ok encoded /\ @DecodeV1 toyEncoding fixedCbor encoded = Ok sampleCompiled /\
  lse_ClientMandatoryCapabilities (lp_Security sampleCompiled) <> lse_RelayMandatoryCapabilities (lp_Security sampleCompiled) /\
  securesWith liveProfile effective (lp_Security sampleCompiled).
Proof.
  destruct (@compile_sound toyEncoding fixedCbor sampleInput sampleCompiled liveProfile)
    as (encoded & effective & _ & HE & HD & _ & _ & _ & _ & HS); [exact sample_compiles | reflexivity |].
  exists encoded, effective. split; [exact HE|]. split; [exact HD|]. split; [vm_compute; discriminate | exact HS].
Defined.
