(* ===== verification/Envelope.v ===== *)
(** * The strict record envelope

    [src/internal/crypto/security/envelope.go] (the v1 codec),
    [envelope_buffers_v3.go] and [bounded_storage_v3.go]: sealing and opening
    records over the nonce owners of [Nonce] and the replay windows of
    [Replay]. AES-256-GCM is the interface [Cipher]; [CipherLaws] says that a
    sealed record is sixteen bytes longer than its plaintext and that opening
    it under the same key, nonce and associated data returns the plaintext.

    A codec is its immutable part ([EnvelopeCodecV1]) and the state all its
    copies share ([strictEnvelopeStateV1]), which also holds the one-shot
    replay capabilities handed out so far: a capability is the index of its
    entry, so that copies of it share one decision. Authentication reads the
    state when it looks the window up, a commit is atomic under the state's
    mutex. Methods on nil codecs are left out. Destroying the state clears the
    pointers a capability is compared with; that is [es_authority]. A run-time
    panic is the error [Panic]. *)

From S2P Require Import Prelude GoBytes SecurityErrors KeySchedule Nonce Replay Ir.
From Stdlib Require Import ZArith Lia Strings.Byte.
From stdpp Require Import base list gmap strings.
Local Open Scope Z_scope.

Class Cipher := {
  aeadSeal : bytes -> bytes -> bytes -> bytes -> bytes;          (* key, nonce, plaintext, data *)
  aeadOpen : bytes -> bytes -> bytes -> bytes -> option bytes;   (* key, nonce, ciphertext, data *)
}.

(** [cipher.AEAD.Overhead] of GCM. *)
Definition Overhead : Z := 16.

Class CipherLaws `(Cipher) : Prop := {
  seal_length : forall k n p a, zlen (aeadSeal k n p a) = zlen p + Overhead;
  open_seal : forall k n p a, aeadOpen k n (aeadSeal k n p a) a = Some p;
}.

Inductive env_error := Sentinel (e : error) | Panic.

Definition RecordClassApplicationV1 : Z := 1.
Definition RecordClassSyntheticV1 : Z := 2.

Record EnvelopeContextV1 := mkEnvelopeContext {
  cx_EffectivePolicy : EffectiveSecurityPolicy;
  cx_MaxEnvelopeBytes : Z;
  cx_EffectivePolicyHash : bytes;      (* [32]byte, as the other hashes *)
  cx_TranscriptHash : bytes;
  cx_CapabilityHash : bytes;
  cx_ProfileHash : bytes;
  cx_FramingHash : bytes;
  cx_CarrierContextHash : bytes;
}.

Record EnvelopeRecordV1 := mkRecord {
  er_RecordType : Z;
  er_Epoch : Z;
  er_Direction : Z;
  er_Slot : Z;
  er_Sequence : Z;
  er_SealedLength : Z;
  er_Ciphertext : bytes;
}.

Record authenticatedReplayStateV1 := mkGrant { gr_slot : Z; gr_sequence : Z; gr_decided : bool }.

Record strictEnvelopeStateV1 := mkEnvState {
  es_replay : gmap Z ReplayWindowV1;
  es_nonces : option NonceOwnerV1;
  es_authority : bool;
  es_sealFail : bool;
  es_bounded : bool;
  es_destroyed : bool;
  es_windows : list ReplayWindowV1;
  es_grants : list authenticatedReplayStateV1;
}.

(** [None] is a nil AEAD. *)
Record EnvelopeCodecV1 := mkEnvelopeCodec {
  ec_context : EnvelopeContextV1;
  ec_epoch : Z;
  ec_outbound : option bytes;
  ec_inbound : option bytes;
}.

Definition setNonces (st : strictEnvelopeStateV1) (o : NonceOwnerV1) : strictEnvelopeStateV1 :=
  mkEnvState (es_replay st) (Some o) (es_authority st) (es_sealFail st) (es_bounded st)
    (es_destroyed st) (es_windows st) (es_grants st).
Definition setReplay (st : strictEnvelopeStateV1) (m : gmap Z ReplayWindowV1) : strictEnvelopeStateV1 :=
  mkEnvState m (es_nonces st) (es_authority st) (es_sealFail st) (es_bounded st)
    (es_destroyed st) (es_windows st) (es_grants st).
Definition setWindows (st : strictEnvelopeStateV1) (l : list ReplayWindowV1) : strictEnvelopeStateV1 :=
  mkEnvState (es_replay st) (es_nonces st) (es_authority st) (es_sealFail st) (es_bounded st)
    (es_destroyed st) l (es_grants st).
Definition setGrants (st : strictEnvelopeStateV1) (l : list authenticatedReplayStateV1)
    : strictEnvelopeStateV1 :=
  mkEnvState (es_replay st) (es_nonces st) (es_authority st) (es_sealFail st) (es_bounded st)
    (es_destroyed st) (es_windows st) l.

(** ** Construction *)

Definition zeroHashV1 (value : bytes) : bool := bool_decide (value = replicate 32 Byte.x00).

Definition validateEnvelopePolicyV1 (p : EffectiveSecurityPolicy) : result error unit :=
  fail? negb (bool_decide (eff_AEADSuite p = "aead_aes_256_gcm"))
      || negb (isOk (validateNonceModeV1 (eff_NonceMode p)))
      || negb (isOk (validateReplayPolicyV1 (eff_ReplayPolicy p) (eff_ReplayWindowSize p)))
    with ErrPolicyInvalid in
  reject (negb (mem (eff_SecureEnvelopeMode p)
    ["metadata_authenticated"; "synthetic_aead_test"; "full_context_bound_envelope"])) ErrPolicyInvalid.

Definition fullMode (context : EnvelopeContextV1) : bool :=
  bool_decide (eff_SecureEnvelopeMode (cx_EffectivePolicy context) = "full_context_bound_envelope").

Definition validateEnvelopeContextV1 (context : EnvelopeContextV1) : result error unit :=
  let? _ := validateEnvelopePolicyV1 (cx_EffectivePolicy context) in
  fail? fullMode context
      && (zeroHashV1 (cx_CapabilityHash context) || zeroHashV1 (cx_ProfileHash context)
          || zeroHashV1 (cx_FramingHash context) || zeroHashV1 (cx_CarrierContextHash context))
    with ErrEnvelopeContextInvalid in
  reject ((cx_MaxEnvelopeBytes context <? 16) || zeroHashV1 (cx_EffectivePolicyHash context)
          || zeroHashV1 (cx_TranscriptHash context)) ErrEnvelopeContextInvalid.

(** The string fields of a policy, in order, as [reflect] walks them. *)
Definition policyStrings (p : EffectiveSecurityPolicy) : list string :=
  [eff_ProfileID p; eff_ProfileHash p; eff_SchemaVersion p; eff_CompilerSecurityVersion p;
   eff_MinimumRuntimeVersion p; eff_SecurityVersion p; eff_TranscriptMode p; eff_KDFSuite p;
   eff_AEADSuite p; eff_MACSuite p; eff_NonceMode p; eff_ReplayPolicy p; eff_DowngradePolicy p;
   eff_CapabilityNegotiationPolicy p; eff_ProfileCompatibilityPolicy p; eff_KeyRotationPolicy p;
   eff_ConfigValidationPolicy p; eff_SecureEnvelopeMode p].

Definition policyLists (p : EffectiveSecurityPolicy) : list (list string) :=
  [eff_ClientMandatoryCapabilities p; eff_ServerMandatoryCapabilities p; eff_SelectedCapabilities p].

(** [unsafe.Sizeof] of the named type, which depends on the compiler. *)
Definition layout : Type := string -> Z.

Definition boundedAESAllowanceV3 : Z := 4096.

Definition boundedEnvelopeScratchV3 (sizeof : layout) : Z :=
  2 * 222 + nonceBytesV1 + sizeof "NonceAllocationV1".

Fixpoint countStrings (limit : Z) (values : list string) (total : Z) : result error Z :=
  match values with
  | [] => Ok total
  | value :: rest =>
      fail? limit <? slen value with ErrInvalidConfig "" in
      countStrings limit rest (wrap64 (total + slen value))
  end.

Fixpoint countLists (sizeof : layout) (lists : list (list string)) (total : Z) : result error Z :=
  match lists with
  | [] => Ok total
  | values :: rest =>
      fail? 32 <? zlen values with ErrInvalidConfig "" in
      let? total := countStrings 96 values total in
      countLists sizeof rest (wrap64 (total + zlen values * sizeof "string"))
  end.

Definition EnvelopeStorageOwnedBytesV3 (sizeof : layout) (policy : EffectiveSecurityPolicy)
    : result error Z :=
  let? _ := validateEnvelopePolicyV1 policy in
  let? descriptors := countStrings 256 (policyStrings policy) 0 in
  let? descriptors := countLists sizeof (policyLists policy) descriptors in
  let d := nonceDomainsV3 (eff_NonceMode policy) in
  let j := (wrap64 (eff_ReplayWindowSize policy) + 63) / 64 in
  let fixed := wrap64 (sizeof "EnvelopeCodecV1" + sizeof "strictEnvelopeStateV1"
    + sizeof "ClientNonceOwnerV1" + sizeof "nonceDirectionStateV1"
    + sizeof "authenticatedReplayAuthorityV1" + 4 * sizeof "capture"
    + sizeof "authenticatedReplayStateV1" + sizeof "authenticatedReplayGrantV1"
    + boundedAESAllowanceV3 + boundedEnvelopeScratchV3 sizeof + descriptors) in
  let per := wrap64 (sizeof "nonceSequenceStateV1" + sizeof "ReplayWindowV1"
    + sizeof "replayWindowStateV1" + j * 8) in
  fail? (MaxUint64 - fixed) / per <? d with ErrInvalidConfig "" in
  Ok (wrap64 (fixed + d * per)).

Definition EnvelopeOwnedBytesV3 (sizeof : layout) (context : EnvelopeContextV1) : result error Z :=
  let? _ := validateEnvelopeContextV1 context in
  EnvelopeStorageOwnedBytesV3 sizeof (cx_EffectivePolicy context).

Definition newReplayArenaV3 (context : EnvelopeContextV1) : list ReplayWindowV1 :=
  let p := cx_EffectivePolicy context in
  replicate (Z.to_nat (nonceDomainsV3 (eff_NonceMode p)))
    (mkWindow (Some (newBoundedState (eff_ReplayPolicy p) (eff_ReplayWindowSize p)))).

(** [aes.NewCipher] and [cipher.NewGCM] accept every 32-byte key. *)
Definition newAEADV1 (key : bytes) : result error bytes :=
  fail? negb (zlen key =? 32) with ErrAEADInvalid in Ok key.

Definition newEnvelopeCodecBackendV1 (schedule : KeySchedule) (context : EnvelopeContextV1)
    (owner : NonceOwnerV1) (outboundKey inboundKey : bytes) (bounded : bool)
    : result error (EnvelopeCodecV1 * strictEnvelopeStateV1) :=
  let? _ := validateEnvelopeContextV1 context in
  fail? negb (Epoch schedule =? boundEpoch schedule) || negb (exactV1 schedule) with ErrNonceMismatch in
  let? outbound := newAEADV1 outboundKey in
  let? inbound := newAEADV1 inboundKey in
  Ok (mkEnvelopeCodec context (Epoch schedule) (Some outbound) (Some inbound),
      mkEnvState ∅ (Some owner) true false bounded false
        (if bounded then newReplayArenaV3 context else []) []).

(** Both roles; the two write keys change places. *)
Definition newRoleEnvelopeV1 (sizeof : layout) (schedule : KeySchedule) (context : EnvelopeContextV1)
    (client bounded : bool) : result error (EnvelopeCodecV1 * strictEnvelopeStateV1) :=
  let? _ := validateEnvelopeContextV1 context in
  let? _ := (if bounded then let? _ := EnvelopeOwnedBytesV3 sizeof context in Ok tt else Ok tt) in
  let mode := eff_NonceMode (cx_EffectivePolicy context) in
  if client then
    let? owner := newClientNonceOwnerV1 schedule mode bounded in
    newEnvelopeCodecBackendV1 schedule context owner (ClientWriteKey schedule)
      (ServerWriteKey schedule) bounded
  else
    let? owner := newRelayNonceOwnerV1 schedule mode bounded in
    newEnvelopeCodecBackendV1 schedule context owner (ServerWriteKey schedule)
      (ClientWriteKey schedule) bounded.

(** ** Associated data *)

Definition ExpectedClassV1 (c : EnvelopeCodecV1) (st : strictEnvelopeStateV1) : result error Z :=
  fail? es_destroyed st with ErrEnvelopeContextInvalid in
  let m := eff_SecureEnvelopeMode (cx_EffectivePolicy (ec_context c)) in
  if mem m ["metadata_authenticated"; "full_context_bound_envelope"] then Ok RecordClassApplicationV1
  else if bool_decide (m = "synthetic_aead_test") then Ok RecordClassSyntheticV1
  else Err ErrPolicyInvalid.

(** [class, _ := c.ExpectedClassV1()]. *)
Definition classOrZero (c : EnvelopeCodecV1) (st : strictEnvelopeStateV1) : Z :=
  match ExpectedClassV1 c st with Ok k => k | Err _ => 0 end.

Definition fullHashes (c : EnvelopeCodecV1) : bytes :=
  let cx := ec_context c in
  if fullMode cx
  then cx_CapabilityHash cx ++ cx_ProfileHash cx ++ cx_FramingHash cx ++ cx_CarrierContextHash cx
  else [].

(** The prefix of the caller's scratch that the writer fills. *)
Definition writeApplicationAADV1 (c : EnvelopeCodecV1) (st : strictEnvelopeStateV1)
    (record : EnvelopeRecordV1) : bytes :=
  let cx := ec_context c in
  PutUint16 1 ++ PutUint16 1 ++ cx_EffectivePolicyHash cx ++ cx_TranscriptHash cx
  ++ PutUint16 (classOrZero c st) ++ PutUint64 (er_Epoch record) ++ PutUint16 (er_Direction record)
  ++ PutUint16 (er_Slot record) ++ PutUint64 (er_Sequence record) ++ PutUint32 (er_SealedLength record)
  ++ fullHashes c.

Definition applicationAADV1 := writeApplicationAADV1.

Definition aadV1 (c : EnvelopeCodecV1) (st : strictEnvelopeStateV1) (record : EnvelopeRecordV1)
    (recordAAD : bytes) : bytes :=
  if er_RecordType record =? 1 then applicationAADV1 c st record
  else
    let cx := ec_context c in
    sbytes "kurdistan/envelope/v1" ++ PutUint16 (er_RecordType record) ++ PutUint64 (er_Epoch record)
    ++ PutUint16 (er_Direction record) ++ PutUint16 (er_Slot record) ++ PutUint64 (er_Sequence record)
    ++ PutUint16 (classOrZero c st) ++ cx_EffectivePolicyHash cx ++ cx_TranscriptHash cx
    ++ fullHashes c ++ recordAAD.

Definition envelopeSlicesOverlapV3 (a b : Slice) : bool :=
  if (sl_len a =? 0) || (sl_len b =? 0) then false
  else if sl_base a <=? sl_base b then sl_base b - sl_base a <? sl_len a
  else sl_base a - sl_base b <? sl_len b.

(** ** Sealing *)

Section operations.
Context `{Cipher}.

(** One of the two allocation closures of the owner. *)
Definition allocateClass (class slot : Z) (o : NonceOwnerV1)
    : NonceOwnerV1 * option (result error NonceAllocationV1) :=
  if class =? nonceControlRecordV1 then AllocateOutboundControlV1 o
  else AllocateOutboundApplicationV1 o slot.

(** [dst] is the caller's buffer of the [into] variant. The state, the buffer
    and the record; after the allocation nothing gives the nonce back. *)
Definition sealDestinationV1 (c : EnvelopeCodecV1) (st : strictEnvelopeStateV1) (dst : option Slice)
    (class recordType slot : Z) (plaintext : Slice) (recordAAD : bytes)
    : strictEnvelopeStateV1 * option bytes * result env_error EnvelopeRecordV1 :=
  let kept e := (st, sl_bytes <$> dst, Err (Sentinel e)) in
  match ec_outbound c with
  | None => kept ErrNonceMismatch
  | Some key =>
      if es_destroyed st || (recordType =? 0) then kept ErrNonceMismatch
      else if ((class =? nonceApplicationRecordV1) && negb (recordType =? 1))
              || ((class =? nonceControlRecordV1) && (recordType =? 1)) then kept ErrNonceMismatch
      else if cx_MaxEnvelopeBytes (ec_context c) <? sl_len plaintext + Overhead then kept ErrAEADInvalid
      else
        match (match dst with
               | None => Ok tt
               | Some d =>
                   let? _ := validateNonceSlotV1 class slot in
                   reject ((sl_len d <? sl_len plaintext + Overhead)
                           || envelopeSlicesOverlapV3 d plaintext) ErrAEADInvalid
               end) with
        | Err e => kept e
        | Ok _ =>
            match es_nonces st with
            | None => (st, sl_bytes <$> dst, Err Panic)
            | Some owner =>
                let '(owner', r) := allocateClass class slot owner in
                let st' := setNonces st owner' in
                match r with
                | None => (st', sl_bytes <$> dst, Err Panic)
                | Some (Err e) => (st', sl_bytes <$> dst, Err (Sentinel e))
                | Some (Ok a) =>
                    if es_sealFail st' then (st', sl_bytes <$> dst, Err (Sentinel ErrAEADInvalid))
                    else
                      let record := mkRecord recordType (al_Epoch a) (al_Direction a) (Slot a)
                                      (Sequence a) (wrap32 (sl_len plaintext + Overhead)) [] in
                      let aad := match dst with
                                 | Some _ => writeApplicationAADV1 c st' record
                                 | None => aadV1 c st' record recordAAD
                                 end in
                      let ct := aeadSeal key (Nonce a) (sl_bytes plaintext) aad in
                      (st', (fun d => writeAt (sl_bytes d) 0 ct) <$> dst,
                       Ok (mkRecord recordType (al_Epoch a) (al_Direction a) (Slot a) (Sequence a)
                             (wrap32 (sl_len plaintext + Overhead)) ct))
                end
            end
        end
  end.

Definition sealV1 c st class recordType slot plaintext recordAAD :=
  sealDestinationV1 c st None class recordType slot plaintext recordAAD.

Definition SealControlV1 c st recordType plaintext recordAAD :=
  sealV1 c st nonceControlRecordV1 recordType 0 plaintext recordAAD.

Definition SealApplicationV1 c st slot plaintext :=
  sealV1 c st nonceApplicationRecordV1 1 slot plaintext [].

Definition SealApplicationIntoV1 c st (dst : Slice) slot plaintext :=
  sealDestinationV1 c st (Some dst) nonceApplicationRecordV1 1 slot plaintext [].

(** ** Authentication and the replay decision *)

Definition replayKeyV1 (c : EnvelopeCodecV1) (slot : Z) : Z :=
  if bool_decide (eff_NonceMode (cx_EffectivePolicy (ec_context c)) = NonceModeStreamPartitionedCounterV1)
  then slot else 0.

Definition freshWindow (c : EnvelopeCodecV1) : result error ReplayWindowV1 :=
  let p := cx_EffectivePolicy (ec_context c) in
  NewReplayWindowV1 (eff_ReplayPolicy p) (eff_ReplayWindowSize p).

Definition replayPrecheckV1 (c : EnvelopeCodecV1) (st : strictEnvelopeStateV1) (slot : Z)
    : result env_error ReplayWindowV1 :=
  let key := replayKeyV1 c slot in
  if es_bounded st then
    fail? es_destroyed st with Sentinel ErrNonceMismatch in
    match es_windows st !! Z.to_nat key with Some w => Ok w | None => Err Panic end
  else match es_replay st !! key with
       | Some w => Ok w
       | None => map_err Sentinel (freshWindow c)
       end.

Definition commitReplayV1 (c : EnvelopeCodecV1) (st : strictEnvelopeStateV1) (slot sequence : Z)
    : strictEnvelopeStateV1 * result env_error unit :=
  let key := replayKeyV1 c slot in
  if es_bounded st then
    if es_destroyed st then (st, Err (Sentinel ErrNonceMismatch))
    else match es_windows st !! Z.to_nat key with
         | None => (st, Err Panic)
         | Some w =>
             let '(w', r) := CommitAuthenticated (Some w) sequence in
             (setWindows st (<[Z.to_nat key := default w w']> (es_windows st)), map_err Sentinel r)
         end
  else
    match (match es_replay st !! key with Some w => Ok w | None => freshWindow c end) with
    | Err e => (st, Err (Sentinel e))
    | Ok w =>
        let '(w', r) := CommitAuthenticated (Some w) sequence in
        match r with
        | Err e => (st, Err (Sentinel e))
        | Ok _ => (setReplay st (<[key := default w w']> (es_replay st)), Ok tt)
        end
    end.

(** Associated data of the [into] variant is the application's. On a bad tag
    the plaintext prefix of the caller's buffer is cleared. *)
Definition authenticateDestinationV1 (c : EnvelopeCodecV1) (st : strictEnvelopeStateV1)
    (dst : option Slice) (class : Z) (record : EnvelopeRecordV1) (cipherBase : Z) (recordAAD : bytes)
    : strictEnvelopeStateV1 * option bytes * result env_error (bytes * nat) :=
  let kept e := (st, sl_bytes <$> dst, Err e) in
  let outcome :=
    match ec_inbound c, es_nonces st with
    | Some key, Some owner =>
        fail? es_destroyed st || (er_RecordType record =? 0)
            || negb (er_Direction record =? direction (inbound owner))
            || negb (er_Epoch record =? ec_epoch c) with Sentinel ErrNonceMismatch in
        fail? ((class =? nonceApplicationRecordV1) && negb (er_RecordType record =? 1))
            || ((class =? nonceControlRecordV1) && (er_RecordType record =? 1))
          with Sentinel ErrNonceMismatch in
        let? _ := map_err Sentinel (validateNonceSlotV1 class (er_Slot record)) in
        let n := zlen (er_Ciphertext record) in
        fail? (n <? Overhead) || (cx_MaxEnvelopeBytes (ec_context c) <? n)
            || negb (er_SealedLength record =? n) with Sentinel ErrAEADInvalid in
        fail? match dst with
              | Some d => (sl_len d <? n - Overhead)
                          || envelopeSlicesOverlapV3 d (mkSlice cipherBase (er_Ciphertext record))
              | None => false
              end with Sentinel ErrAEADInvalid in
        let? expected := map_err Sentinel
          (if class =? nonceControlRecordV1 then ExpectedInboundControlV1 owner (er_Sequence record)
           else ExpectedInboundApplicationV1 owner (er_Slot record) (er_Sequence record)) in
        let? replay := replayPrecheckV1 c st (er_Slot record) in
        let? _ := map_err Sentinel (Plausible (Some replay) (er_Sequence record)) in
        Ok (key, expected)
    | _, _ => Err (Sentinel ErrNonceMismatch)
    end in
  match outcome with
  | Err e => kept e
  | Ok (key, expected) =>
      let aad := match dst with
                 | Some _ => writeApplicationAADV1 c st record
                 | None => aadV1 c st record recordAAD
                 end in
      match aeadOpen key expected (er_Ciphertext record) aad with
      | None =>
          let n := Z.to_nat (zlen (er_Ciphertext record) - Overhead) in
          (st, (fun d => writeAt (sl_bytes d) 0 (replicate n Byte.x00)) <$> dst,
           Err (Sentinel ErrAuthenticationFailed))
      | Some plaintext =>
          (setGrants st (es_grants st ++ [mkGrant (er_Slot record) (er_Sequence record) false]),
           (fun d => writeAt (sl_bytes d) 0 plaintext) <$> dst,
           Ok (plaintext, length (es_grants st)))
      end
  end.

Definition AuthenticateControlV1 c st record recordAAD :=
  authenticateDestinationV1 c st None nonceControlRecordV1 record 0 recordAAD.

Definition AuthenticateApplicationV1 c st record :=
  authenticateDestinationV1 c st None nonceApplicationRecordV1 record 0 [].

Definition AuthenticateApplicationIntoV1 c st (dst : Slice) record cipherBase :=
  authenticateDestinationV1 c st (Some dst) nonceApplicationRecordV1 record cipherBase [].

(** A capability that was never handed out is Go's zero value. *)
Definition decide_ (st : strictEnvelopeStateV1) (g : nat)
    : option (authenticatedReplayStateV1 * strictEnvelopeStateV1) :=
  match es_grants st !! g with
  | Some grant =>
      if negb (es_authority st) || gr_decided grant then None
      else Some (grant, setGrants st
             (<[g := mkGrant (gr_slot grant) (gr_sequence grant) true]> (es_grants st)))
  | None => None
  end.

Definition Commit (c : EnvelopeCodecV1) (st : strictEnvelopeStateV1) (g : nat)
    : strictEnvelopeStateV1 * result env_error unit :=
  match decide_ st g with
  | None => (st, Err (Sentinel ErrReplayDuplicate))
  | Some (grant, st') => commitReplayV1 c st' (gr_slot grant) (gr_sequence grant)
  end.

Definition Discard (st : strictEnvelopeStateV1) (g : nat)
    : strictEnvelopeStateV1 * result env_error unit :=
  match decide_ st g with
  | None => (st, Err (Sentinel ErrReplayDuplicate))
  | Some (_, st') => (st', Ok tt)
  end.

(** [OpenControlV1] and [OpenApplicationV1]: authenticate, then commit. *)
Definition openV1 (c : EnvelopeCodecV1) (st : strictEnvelopeStateV1) (class : Z)
    (record : EnvelopeRecordV1) (recordAAD : bytes) : strictEnvelopeStateV1 * result env_error bytes :=
  let '(st1, _, r) := authenticateDestinationV1 c st None class record 0 recordAAD in
  match r with
  | Err e => (st1, Err e)
  | Ok (plaintext, g) =>
      let '(st2, r2) := Commit c st1 g in
      (st2, let? _ := r2 in Ok plaintext)
  end.

Definition OpenControlV1 c st record recordAAD := openV1 c st nonceControlRecordV1 record recordAAD.
Definition OpenApplicationV1 c st record := openV1 c st nonceApplicationRecordV1 record [].

End operations.

(** ** Destruction *)

Definition zeroContext : EnvelopeContextV1 :=
  let z := replicate 32 Byte.x00 in
  mkEnvelopeContext (mkEffectiveSecurityPolicy "" "" "" "" "" "" "" "" "" "" "" "" 0 "" "" "" "" "" "" 0 0
    [] [] [] z) 0 z z z z z z.

(** The owners and windows are unreachable afterwards; clearing them is not
    observable. *)
Definition DestroyBoundedV3 (c : EnvelopeCodecV1) (st : strictEnvelopeStateV1)
    : EnvelopeCodecV1 * strictEnvelopeStateV1 * result error unit :=
  if negb (es_bounded st) then (c, st, Err (ErrInvalidConfig ""))
  else
    let st' := if es_destroyed st then st
               else mkEnvState (es_replay st) None false false (es_bounded st) true [] (es_grants st) in
    (mkEnvelopeCodec zeroContext 0 None None, st', Ok tt).
