(* ===== verification/EnvelopeFacts.v ===== *)
(** * The strict record envelope: what it guarantees

    The codec of [Envelope] refines the counters of [Nonce.Spec] and the
    accepted sets of [Replay.Spec], one of each per domain ([good]). From that:
    the map-backed and the array-backed codec answer alike
    ([envelope_backends_equal]), no record is delivered twice
    ([envelope_no_replay]), no nonce is used twice under a key
    ([envelope_nonces_unique]), what one role seals in order the other opens
    ([envelope_delivery]), the associated data fixes every header field
    ([envelope_aad_binds]), and a destroyed codec refuses everything
    ([envelope_destroyed_refuses]). *)

From S2P Require Import Prelude GoBytes SecurityErrors KeySchedule Nonce Replay Ir Envelope.
From Stdlib Require Import ZArith Lia Strings.Byte.
From stdpp Require Import base list gmap strings.
Local Open Scope Z_scope.

(** ** Windows by domain *)

Section theory.
Context `{Cipher}.

Definition policyOf (c : EnvelopeCodecV1) : EffectiveSecurityPolicy := cx_EffectivePolicy (ec_context c).

(** The window of a domain, whether or not the map holds it yet. *)
Definition getWindow (c : EnvelopeCodecV1) (st : strictEnvelopeStateV1) (key : Z)
    : option replayWindowStateV1 :=
  if es_bounded st then es_windows st !! Z.to_nat key ≫= state
  else match es_replay st !! key with
       | Some w => state w
       | None => Some (newMapState (eff_ReplayPolicy (policyOf c)) (eff_ReplayWindowSize (policyOf c)))
       end.

Definition validPolicy (c : EnvelopeCodecV1) : Prop :=
  validWindow (eff_ReplayPolicy (policyOf c)) (eff_ReplayWindowSize (policyOf c)).

Lemma freshWindow_ok c : validPolicy c ->
  freshWindow c = Ok (mkWindow (Some (newMapState (eff_ReplayPolicy (policyOf c))
                                        (eff_ReplayWindowSize (policyOf c))))).
Proof using Type.
  intros Hv. unfold freshWindow, NewReplayWindowV1.
  unfold validPolicy, validWindow, policyOf in *. by rewrite Hv.
Qed.

Lemma precheck_window c st slot r : validPolicy c -> es_destroyed st = false ->
  getWindow c st (replayKeyV1 c slot) = Some r ->
  replayPrecheckV1 c st slot = Ok (mkWindow (Some r)).
Proof using Type.
  intros Hv Hd. unfold getWindow, replayPrecheckV1. destruct (es_bounded st).
  - rewrite Hd. cbn [reject rbind]. destruct (es_windows st !! _) as [[w]|]; [|done]. cbn. by intros ->.
  - destruct (es_replay st !! _) as [[w]|]; [cbn; by intros ->|].
    intros [= <-]. by rewrite freshWindow_ok.
Qed.

Lemma commit_window_step c st slot sequence r : validPolicy c -> es_destroyed st = false ->
  0 <= replayKeyV1 c slot -> getWindow c st (replayKeyV1 c slot) = Some r ->
  let '(st', res) := commitReplayV1 c st slot sequence in
  res = map_err Sentinel (snd (commitLocked r sequence)) /\
  getWindow c st' (replayKeyV1 c slot) = Some (fst (commitLocked r sequence)) /\
  (forall k, 0 <= k -> k <> replayKeyV1 c slot -> getWindow c st' k = getWindow c st k) /\
  es_nonces st' = es_nonces st /\ es_grants st' = es_grants st /\ es_destroyed st' = false /\
  es_authority st' = es_authority st /\ es_sealFail st' = es_sealFail st /\ es_bounded st' = es_bounded st.
Proof using Type.
  intros Hv Hd Hk. unfold getWindow, commitReplayV1, setWindows, setReplay. set (key := replayKeyV1 c slot) in *.
  destruct (es_bounded st) eqn:Eb.
  - rewrite Hd. destruct (es_windows st !! Z.to_nat key) as [[w]|] eqn:Ew; [|done]. cbn. intros ->.
    cbn. destruct (commitLocked r sequence) as [r' res] eqn:Ec. cbn. rewrite ?Eb.
    assert (Hlt : (Z.to_nat key < length (es_windows st))%nat) by (by apply lookup_lt_Some in Ew).
    split; [done|]. split; [by rewrite list_lookup_insert_eq|].
    split; [|done]. intros k Hk' Hne. rewrite list_lookup_insert_ne; [done|lia].
  - intros Hg.
    assert (Hw : (match es_replay st !! key with Some w => Ok w | None => freshWindow c end)
      = Ok (mkWindow (Some r))).
    { destruct (es_replay st !! key) as [[w]|]; [cbn in Hg; by rewrite Hg|].
      injection Hg as <-. by apply freshWindow_ok. }
    rewrite Hw. cbn. destruct (commitLocked r sequence) as [r' res] eqn:Ec. destruct res as [[]|e].
    + cbn. rewrite ?Eb. split; [done|]. split; [by rewrite lookup_insert_eq|]. split; [|done].
      intros k _ Hne. by rewrite lookup_insert_ne.
    + rewrite Eb. split; [done|]. split; [|done].
      assert (r' = r) as ->; [|done]. unfold commitLocked in Ec. destruct (checkV1Locked r sequence); congruence.
Qed.

(** ** The state of a live codec

    [f] counts the nonces of each outbound domain, [h] lists the sequences
    accepted in each inbound domain. *)
Record good (c : EnvelopeCodecV1) (oc ic : nonceDirectionConfigV1) (f : Nonce.Spec.counters)
    (h : Z -> list Z) (st : strictEnvelopeStateV1) : Prop := {
  gd_policy : validPolicy c;
  gd_live : es_destroyed st = false;
  gd_authority : es_authority st = true;
  gd_config : goodConfig oc;
  gd_mode : mode oc = eff_NonceMode (policyOf c);
  gd_owner : exists s, es_nonces st = Some (mkOwner (Some s) ic) /\ simulates oc s f;
  gd_within : within f;
  gd_windows : forall k, 0 <= k < nonceDomainsV3 (eff_NonceMode (policyOf c)) ->
    exists r, getWindow c st k = Some r /\ represents r (h k) /\
      policy r = eff_ReplayPolicy (policyOf c) /\ window r = eff_ReplayWindowSize (policyOf c);
  gd_grants : Forall (fun g => u16 (gr_slot g) /\ u64 (gr_sequence g)) (es_grants st);
}.

Lemma replayKey_domain c slot : u16 slot ->
  0 <= replayKeyV1 c slot < nonceDomainsV3 (eff_NonceMode (policyOf c)).
Proof using Type.
  intros Hs. unfold replayKeyV1, nonceDomainsV3, policyOf. unfold_widths. case_bool_decide; lia.
Qed.

Lemma stateSlot_key c oc slot : mode oc = eff_NonceMode (policyOf c) -> stateSlot oc slot = replayKeyV1 c slot.
Proof using Type. intros Hm. unfold stateSlot, replayKeyV1. by rewrite Hm. Qed.

(** The request an allocation makes of the owner. *)
Definition requestOf (class slot : Z) : request :=
  if class =? nonceControlRecordV1 then (nonceControlRecordV1, 0) else (nonceApplicationRecordV1, slot).

Lemma requestOf_u16 class slot : u16 slot -> u16 (snd (requestOf class slot)).
Proof using Type. intros Hs. unfold requestOf. destruct (_ =? _); [unfold_widths; cbn; lia|done]. Qed.

Lemma allocateClass_owner class slot s ic :
  allocateClass class slot (mkOwner (Some s) ic) =
    (mkOwner (Some (fst (implStep s (requestOf class slot)))) ic, snd (implStep s (requestOf class slot))).
Proof using Type.
  unfold allocateClass, requestOf, implStep, AllocateOutboundControlV1, AllocateOutboundApplicationV1, allocateOutbound.
  destruct (class =? nonceControlRecordV1); cbn [outbound inbound fst snd];
    by destruct (allocateV1 s _ _).
Qed.

Lemma aad_state c st st' record aad : es_destroyed st = es_destroyed st' ->
  aadV1 c st record aad = aadV1 c st' record aad /\
  writeApplicationAADV1 c st record = writeApplicationAADV1 c st' record.
Proof using Type.
  intros E. unfold aadV1, applicationAADV1, writeApplicationAADV1, classOrZero, ExpectedClassV1. by rewrite E.
Qed.

(** Changing the counters alone. *)
Lemma good_counters c oc ic f f' h st s : good c oc ic f h st -> simulates oc s f' -> within f' ->
  good c oc ic f' h (setNonces st (mkOwner (Some s) ic)).
Proof using Type.
  intros [] Hs Hw. constructor; try done. by exists s.
Qed.

(** What sealing does, in terms of the contract of the nonce owner. *)
Definition sealed (c : EnvelopeCodecV1) (st : strictEnvelopeStateV1) (key : bytes) (dst : option Slice)
    (recordType : Z) (plaintext : Slice) (recordAAD : bytes) (a : NonceAllocationV1) : EnvelopeRecordV1 :=
  let record := mkRecord recordType (al_Epoch a) (al_Direction a) (Slot a) (Sequence a)
                  (wrap32 (sl_len plaintext + Overhead)) [] in
  mkRecord recordType (al_Epoch a) (al_Direction a) (Slot a) (Sequence a)
    (wrap32 (sl_len plaintext + Overhead))
    (aeadSeal key (Nonce a) (sl_bytes plaintext)
       (match dst with
        | Some _ => writeApplicationAADV1 c st record
        | None => aadV1 c st record recordAAD
        end)).

(** The checks before a nonce is drawn. *)
Definition sealRefused (c : EnvelopeCodecV1) (dst : option Slice) (class recordType slot : Z)
    (plaintext : Slice) : result error bytes :=
  match ec_outbound c with
  | None => Err ErrNonceMismatch
  | Some key =>
      fail? recordType =? 0 with ErrNonceMismatch in
      fail? ((class =? nonceApplicationRecordV1) && negb (recordType =? 1))
          || ((class =? nonceControlRecordV1) && (recordType =? 1)) with ErrNonceMismatch in
      fail? cx_MaxEnvelopeBytes (ec_context c) <? sl_len plaintext + Overhead with ErrAEADInvalid in
      let? _ := match dst with
                | None => Ok tt
                | Some d =>
                    let? _ := validateNonceSlotV1 class slot in
                    reject ((sl_len d <? sl_len plaintext + Overhead)
                            || envelopeSlicesOverlapV3 d plaintext) ErrAEADInvalid
                end in
      Ok key
  end.

Definition sealSpec (c : EnvelopeCodecV1) (oc : nonceDirectionConfigV1) (f : Nonce.Spec.counters)
    (st : strictEnvelopeStateV1) (dst : option Slice) (class recordType slot : Z) (plaintext : Slice)
    (recordAAD : bytes) : Nonce.Spec.counters * option bytes * result env_error EnvelopeRecordV1 :=
  match sealRefused c dst class recordType slot plaintext with
  | Err e => (f, sl_bytes <$> dst, Err (Sentinel e))
  | Ok key =>
      let '(f', r) := specStep oc f (requestOf class slot) in
      match r with
      | Err e => (f', sl_bytes <$> dst, Err (Sentinel e))
      | Ok a =>
          if es_sealFail st then (f', sl_bytes <$> dst, Err (Sentinel ErrAEADInvalid))
          else let record := sealed c st key dst recordType plaintext recordAAD a in
               (f', (fun d => writeAt (sl_bytes d) 0 (er_Ciphertext record)) <$> dst, Ok record)
      end
  end.

Lemma seal_refines c oc ic f h st dst class recordType slot plaintext aad :
  good c oc ic f h st -> u16 slot ->
  let '(st', d, r) := sealDestinationV1 c st dst class recordType slot plaintext aad in
  let '(f', d', r') := sealSpec c oc f st dst class recordType slot plaintext aad in
  d = d' /\ r = r' /\ good c oc ic f' h st' /\ es_grants st' = es_grants st /\
  es_sealFail st' = es_sealFail st.
Proof using Type.
  intros Hg Hs. unfold sealDestinationV1, sealSpec, sealRefused. destruct (ec_outbound c) as [key|]; [|done].
  rewrite (gd_live _ _ _ _ _ _ Hg). cbn [orb].
  destruct (recordType =? 0); [done|]. cbn [reject rbind].
  destruct ((class =? nonceApplicationRecordV1) && negb (recordType =? 1)
            || (class =? nonceControlRecordV1) && (recordType =? 1)); [done|]. cbn [reject rbind].
  destruct (cx_MaxEnvelopeBytes (ec_context c) <? sl_len plaintext + Overhead); [done|]. cbn [reject rbind].
  set (into := match dst with None => Ok tt | Some d => _ end). destruct into as [[]|e]; [|done]. cbn [rbind].
  destruct (gd_owner _ _ _ _ _ _ Hg) as (s & Ho & Hsim). rewrite Ho, allocateClass_owner.
  destruct (simulates_step oc s f (requestOf class slot) (gd_config _ _ _ _ _ _ Hg)
    (requestOf_u16 class slot Hs) Hsim) as [Hsim' Hr]. rewrite Hr.
  destruct (specStep_mono oc f (requestOf class slot) (gd_within _ _ _ _ _ _ Hg)) as [Hw _].
  destruct (specStep oc f (requestOf class slot)) as [f' r]. cbn [fst snd] in *.
  pose proof (good_counters c oc ic f f' h st _ Hg Hsim' Hw) as Hg'.
  destruct r as [a|e]; [|done]. change (es_sealFail (setNonces st _)) with (es_sealFail st).
  destruct (es_sealFail st) eqn:Ef; [done|].
  set (st' := setNonces st _) in *.
  unfold sealed. cbn [er_Ciphertext].
  destruct (aad_state c st' st (mkRecord recordType (al_Epoch a) (al_Direction a) (Slot a) (Sequence a)
    (wrap32 (sl_len plaintext + Overhead)) []) aad eq_refl) as [-> ->]. done.
Qed.

(** ** Authentication *)

(** The checks before the tag, with the answer of the window. *)
Definition authChecks (c : EnvelopeCodecV1) (ic : nonceDirectionConfigV1) (dst : option Slice) (class : Z)
    (record : EnvelopeRecordV1) (cipherBase : Z) (plausible : result error unit)
    : result env_error (bytes * bytes) :=
  match ec_inbound c with
  | None => Err (Sentinel ErrNonceMismatch)
  | Some key =>
      map_err Sentinel
       (fail? (er_RecordType record =? 0) || negb (er_Direction record =? direction ic)
            || negb (er_Epoch record =? ec_epoch c) with ErrNonceMismatch in
        fail? ((class =? nonceApplicationRecordV1) && negb (er_RecordType record =? 1))
            || ((class =? nonceControlRecordV1) && (er_RecordType record =? 1)) with ErrNonceMismatch in
        let? _ := validateNonceSlotV1 class (er_Slot record) in
        let n := zlen (er_Ciphertext record) in
        fail? (n <? Overhead) || (cx_MaxEnvelopeBytes (ec_context c) <? n)
            || negb (er_SealedLength record =? n) with ErrAEADInvalid in
        fail? match dst with
              | Some d => (sl_len d <? n - Overhead)
                          || envelopeSlicesOverlapV3 d (mkSlice cipherBase (er_Ciphertext record))
              | None => false
              end with ErrAEADInvalid in
        let? expected := (if class =? nonceControlRecordV1
                          then expectedV1 ic nonceControlRecordV1 0 (er_Sequence record)
                          else expectedV1 ic nonceApplicationRecordV1 (er_Slot record) (er_Sequence record)) in
        let? _ := plausible in
        Ok (key, expected))
  end.

Definition authAAD (c : EnvelopeCodecV1) (st : strictEnvelopeStateV1) (dst : option Slice)
    (record : EnvelopeRecordV1) (recordAAD : bytes) : bytes :=
  match dst with Some _ => writeApplicationAADV1 c st record | None => aadV1 c st record recordAAD end.

Lemma authenticate_checks c oc ic f h st dst class record cipherBase aad r :
  good c oc ic f h st -> getWindow c st (replayKeyV1 c (er_Slot record)) = Some r ->
  authenticateDestinationV1 c st dst class record cipherBase aad =
  match authChecks c ic dst class record cipherBase (checkV1Locked r (er_Sequence record)) with
  | Err e => (st, sl_bytes <$> dst, Err e)
  | Ok (key, expected) =>
      match aeadOpen key expected (er_Ciphertext record) (authAAD c st dst record aad) with
      | None => (st, (fun d => writeAt (sl_bytes d) 0
                        (replicate (Z.to_nat (zlen (er_Ciphertext record) - Overhead)) Byte.x00)) <$> dst,
                 Err (Sentinel ErrAuthenticationFailed))
      | Some plaintext =>
          (setGrants st (es_grants st ++ [mkGrant (er_Slot record) (er_Sequence record) false]),
           (fun d => writeAt (sl_bytes d) 0 plaintext) <$> dst, Ok (plaintext, length (es_grants st)))
      end
  end.
Proof using Type.
  intros Hg Hw. unfold authenticateDestinationV1, authChecks.
  destruct (gd_owner _ _ _ _ _ _ Hg) as (s & Ho & _). rewrite Ho, (gd_live _ _ _ _ _ _ Hg). cbn [orb inbound].
  destruct (ec_inbound c) as [key|]; [|done].
  rewrite (precheck_window c st _ r (gd_policy _ _ _ _ _ _ Hg) (gd_live _ _ _ _ _ _ Hg) Hw).
  unfold ExpectedInboundControlV1, ExpectedInboundApplicationV1. cbn [inbound].
  repeat match goal with
  | |- context [reject ?b _] => destruct b; cbn [reject rbind map_err]; [done|]
  | |- context [validateNonceSlotV1 ?a ?b] => destruct (validateNonceSlotV1 a b) as [[]|]; cbn [rbind map_err]; [|done]
  end.
  set (expected := if class =? nonceControlRecordV1 then _ else _).
  destruct expected as [n|e]; cbn [rbind map_err]; [|done].
  change (Plausible (Some (mkWindow (Some r))) (er_Sequence record)) with (checkV1Locked r (er_Sequence record)).
  destruct (checkV1Locked r (er_Sequence record)) as [[]|e]; cbn [rbind map_err]; [|done].
  unfold authAAD. done.
Qed.

(** Failed authentication changes nothing; success adds one open capability. *)
Lemma authenticate_pure c st dst class record cipherBase aad st' d r :
  authenticateDestinationV1 c st dst class record cipherBase aad = (st', d, r) ->
  match r with
  | Err _ => st' = st
  | Ok (_, g) => g = length (es_grants st) /\
      st' = setGrants st (es_grants st ++ [mkGrant (er_Slot record) (er_Sequence record) false])
  end.
Proof using Type.
  unfold authenticateDestinationV1. cbv zeta. intros HA.
  match type of HA with match ?o with _ => _ end = _ => destruct o as [[key expected]|e] end;
    [|by injection HA as <- <- <-].
  match type of HA with match ?o with _ => _ end = _ => destruct o as [p|] end; by injection HA as <- <- <-.
Qed.

Lemma good_grants c oc ic f h st gs : good c oc ic f h st ->
  Forall (fun g => u16 (gr_slot g) /\ u64 (gr_sequence g)) gs -> good c oc ic f h (setGrants st gs).
Proof using Type. intros [] Hgs. by constructor. Qed.

Lemma authenticate_good c oc ic f h st dst class record cipherBase aad st' d r :
  good c oc ic f h st -> u16 (er_Slot record) -> u64 (er_Sequence record) ->
  authenticateDestinationV1 c st dst class record cipherBase aad = (st', d, r) ->
  good c oc ic f h st'.
Proof using Type.
  intros Hg Hs Hq HA%authenticate_pure. destruct r as [[p g]|e]; [|by subst].
  destruct HA as [_ ->]. apply good_grants; [done|]. apply Forall_app. split; [apply Hg|].
  by apply Forall_singleton.
Qed.

(** ** The decision *)

Definition recordAccepted (h : Z -> list Z) (k s : Z) : Z -> list Z :=
  fun j => if j =? k then s :: h k else h j.

Lemma decide_good c oc ic f h st g grant st' : good c oc ic f h st -> decide_ st g = Some (grant, st') ->
  good c oc ic f h st' /\ u16 (gr_slot grant) /\ u64 (gr_sequence grant) /\ es_sealFail st' = es_sealFail st.
Proof using Type.
  intros Hg. unfold decide_. destruct (es_grants st !! g) as [gr|] eqn:Eg; [|done].
  pose proof (proj1 (Forall_lookup _ _) (gd_grants _ _ _ _ _ _ Hg) _ _ Eg) as [Hs Hq].
  destruct (_ || _); [done|]. intros [= <- <-]. split; [|done].
  apply good_grants; [done|]. apply Forall_insert; [apply Hg|done].
Qed.

(** A commit is one step of the abstract window of the record's domain. *)
Lemma commitReplay_good c oc ic f h st slot sequence : good c oc ic f h st -> u16 slot -> u64 sequence ->
  let p := policyOf c in
  let k := replayKeyV1 c slot in
  let ok := Spec.accepts (eff_ReplayPolicy p) (eff_ReplayWindowSize p) (h k) sequence in
  let '(st', r) := commitReplayV1 c st slot sequence in
  isOk r = ok /\ good c oc ic f (if ok then recordAccepted h k sequence else h) st' /\
  es_grants st' = es_grants st /\ es_sealFail st' = es_sealFail st.
Proof using Type.
  intros Hg Hs Hq p k ok. pose proof (replayKey_domain c slot Hs) as Hk. fold k in Hk.
  destruct (gd_windows _ _ _ _ _ _ Hg k Hk) as (r & Hr & Hrep & Hp & Hw).
  pose proof (commit_window_step c st slot sequence r (gd_policy _ _ _ _ _ _ Hg) (gd_live _ _ _ _ _ _ Hg)
    ltac:(fold k; lia) Hr) as HC.
  destruct (commitReplayV1 c st slot sequence) as [st' res].
  destruct HC as (-> & Hr' & Ho & N1 & N2 & N3 & N4 & N5 & N6). fold k in Hr', Ho.
  destruct (commit_step r (h k) sequence Hrep Hq) as [Hok Hrep']. rewrite Hp, Hw in Hok, Hrep'.
  fold p in Hok, Hrep'. fold ok in Hok, Hrep'.
  split; [|split; [|done]]. { rewrite <- Hok. by destruct (snd (commitLocked r sequence)). }
  destruct Hg as [G1 G2 G3 G4 G5 G6 G7 G8 G9]. constructor; try done; [by rewrite N4|by rewrite N1| |by rewrite N2].
  intros j Hj. destruct (decide (j = k)) as [->|Hne].
  - exists (fst (commitLocked r sequence)). rewrite commit_policy, commit_window. split; [done|]. split; [|done].
    destruct ok; [|done]. unfold recordAccepted. by rewrite Z.eqb_refl.
  - rewrite Ho by lia. destruct (G8 j Hj) as (r2 & Q1 & Q2 & Q3). exists r2. split; [done|]. split; [|done].
    destruct ok; [|done]. unfold recordAccepted. by destruct (Z.eqb_spec j k).
Qed.

(** ** Runs *)

Inductive envOp :=
  | OpSeal (dst : option Slice) (class recordType slot : Z) (plaintext : Slice) (aad : bytes)
  | OpAuthenticate (dst : option Slice) (class : Z) (record : EnvelopeRecordV1) (cipherBase : Z) (aad : bytes)
  | OpCommit (g : nat)
  | OpDiscard (g : nat)
  | OpOpen (class : Z) (record : EnvelopeRecordV1) (aad : bytes).

Inductive envOut :=
  | OutSeal (dst : option bytes) (r : result env_error EnvelopeRecordV1)
  | OutAuthenticate (dst : option bytes) (r : result env_error (bytes * nat))
  | OutDecision (r : result env_error unit)
  | OutOpen (r : result env_error bytes).

Definition envStep (c : EnvelopeCodecV1) (st : strictEnvelopeStateV1) (op : envOp)
    : strictEnvelopeStateV1 * envOut :=
  match op with
  | OpSeal dst class recordType slot plaintext aad =>
      let '(st', d, r) := sealDestinationV1 c st dst class recordType slot plaintext aad in (st', OutSeal d r)
  | OpAuthenticate dst class record cipherBase aad =>
      let '(st', d, r) := authenticateDestinationV1 c st dst class record cipherBase aad in
      (st', OutAuthenticate d r)
  | OpCommit g => let '(st', r) := Commit c st g in (st', OutDecision r)
  | OpDiscard g => let '(st', r) := Discard st g in (st', OutDecision r)
  | OpOpen class record aad => let '(st', r) := openV1 c st class record aad in (st', OutOpen r)
  end.

(** Slots are [uint16], sequence numbers [uint64]. *)
Definition typedOp (op : envOp) : Prop :=
  match op with
  | OpSeal _ _ _ slot _ _ => u16 slot
  | OpAuthenticate _ _ record _ _ | OpOpen _ record _ => u16 (er_Slot record) /\ u64 (er_Sequence record)
  | OpCommit _ | OpDiscard _ => True
  end.

(** Two states of one history, whatever their storage. *)
Record related (c : EnvelopeCodecV1) (oc ic : nonceDirectionConfigV1) (f : Nonce.Spec.counters)
    (h : Z -> list Z) (st1 st2 : strictEnvelopeStateV1) : Prop := {
  rl_left : good c oc ic f h st1;
  rl_right : good c oc ic f h st2;
  rl_grants : es_grants st1 = es_grants st2;
  rl_fail : es_sealFail st1 = es_sealFail st2;
}.

Lemma seal_related c oc ic f h st1 st2 dst class recordType slot plaintext aad :
  related c oc ic f h st1 st2 -> u16 slot ->
  let '(st1', d1, r1) := sealDestinationV1 c st1 dst class recordType slot plaintext aad in
  let '(st2', d2, r2) := sealDestinationV1 c st2 dst class recordType slot plaintext aad in
  d1 = d2 /\ r1 = r2 /\ exists f', related c oc ic f' h st1' st2'.
Proof using Type.
  intros [G1 G2 Eg Ef] Hs.
  pose proof (seal_refines c oc ic f h st1 dst class recordType slot plaintext aad G1 Hs) as H1.
  pose proof (seal_refines c oc ic f h st2 dst class recordType slot plaintext aad G2 Hs) as H2.
  assert (E : sealSpec c oc f st1 dst class recordType slot plaintext aad
            = sealSpec c oc f st2 dst class recordType slot plaintext aad).
  { unfold sealSpec. destruct (sealRefused _ _ _ _ _ _); [|done]. destruct (specStep _ _ _) as [f' [al|e]]; [|done].
    rewrite Ef. destruct (es_sealFail st2); [done|]. unfold sealed.
    assert (El : es_destroyed st1 = es_destroyed st2) by (rewrite (gd_live _ _ _ _ _ _ G1); by rewrite (gd_live _ _ _ _ _ _ G2)).
    destruct (aad_state c st1 st2 (mkRecord recordType (al_Epoch al) (al_Direction al) (Slot al) (Sequence al)
      (wrap32 (sl_len plaintext + Overhead)) []) aad El) as [-> ->]. done. }
  destruct (sealDestinationV1 c st1 _ _ _ _ _ _) as [[st1' d1] r1].
  destruct (sealDestinationV1 c st2 _ _ _ _ _ _) as [[st2' d2] r2].
  rewrite E in H1. destruct (sealSpec c oc f st2 _ _ _ _ _ _) as [[f' d'] r'].
  destruct H1 as (-> & -> & K1 & K2 & K3), H2 as (-> & -> & L1 & L2 & L3).
  split; [done|]. split; [done|]. exists f'. constructor; congruence.
Qed.

Lemma window_same c oc ic f h st1 st2 slot s : related c oc ic f h st1 st2 -> u16 slot -> u64 s ->
  exists r1 r2, getWindow c st1 (replayKeyV1 c slot) = Some r1 /\
    getWindow c st2 (replayKeyV1 c slot) = Some r2 /\ checkV1Locked r1 s = checkV1Locked r2 s.
Proof using Type.
  intros [G1 G2 _ _] Hs Hq. pose proof (replayKey_domain c slot Hs) as Hk.
  destruct (gd_windows _ _ _ _ _ _ G1 _ Hk) as (r1 & A1 & A2 & A3 & A4).
  destruct (gd_windows _ _ _ _ _ _ G2 _ Hk) as (r2 & B1 & B2 & B3 & B4).
  exists r1, r2. split; [done|]. split; [done|]. eapply check_determined; [exact A2|exact B2|done| |]; congruence.
Qed.

Lemma authenticate_related c oc ic f h st1 st2 dst class record cipherBase aad :
  related c oc ic f h st1 st2 -> u16 (er_Slot record) -> u64 (er_Sequence record) ->
  let '(st1', d1, r1) := authenticateDestinationV1 c st1 dst class record cipherBase aad in
  let '(st2', d2, r2) := authenticateDestinationV1 c st2 dst class record cipherBase aad in
  d1 = d2 /\ r1 = r2 /\ related c oc ic f h st1' st2'.
Proof using Type.
  intros HR Hs Hq. destruct (window_same _ _ _ _ _ _ _ _ _ HR Hs Hq) as (r1 & r2 & W1 & W2 & EC).
  destruct HR as [G1 G2 Eg Ef].
  rewrite (authenticate_checks c oc ic f h st1 dst class record cipherBase aad r1 G1 W1).
  rewrite (authenticate_checks c oc ic f h st2 dst class record cipherBase aad r2 G2 W2). rewrite EC.
  destruct (authChecks _ _ _ _ _ _ _) as [[key expected]|e]; [|by split_and!].
  assert (El : es_destroyed st1 = es_destroyed st2) by (rewrite (gd_live _ _ _ _ _ _ G1); by rewrite (gd_live _ _ _ _ _ _ G2)).
  assert (Ea : authAAD c st1 dst record aad = authAAD c st2 dst record aad).
  { unfold authAAD. by destruct (aad_state c st1 st2 record aad El) as [-> ->]. }
  rewrite Ea. destruct (aeadOpen _ _ _ _) as [p|]; [|by split_and!].
  rewrite Eg. split; [done|]. split; [done|].
  assert (HG : Forall (fun g => u16 (gr_slot g) /\ u64 (gr_sequence g))
    (es_grants st2 ++ [mkGrant (er_Slot record) (er_Sequence record) false])).
  { apply Forall_app. split; [apply G2|by apply Forall_singleton]. }
  constructor; [by apply good_grants..|done|done].
Qed.

Lemma decide_related c oc ic f h st1 st2 g : related c oc ic f h st1 st2 ->
  match decide_ st1 g, decide_ st2 g with
  | None, None => True
  | Some (g1, st1'), Some (g2, st2') => g1 = g2 /\ related c oc ic f h st1' st2'
  | _, _ => False
  end.
Proof using Type.
  intros [G1 G2 Eg Ef].
  pose proof (decide_good c oc ic f h st1 g) as D1. pose proof (decide_good c oc ic f h st2 g) as D2.
  unfold decide_ in *. rewrite Eg in *. rewrite (gd_authority _ _ _ _ _ _ G1) in *.
  rewrite (gd_authority _ _ _ _ _ _ G2) in *. cbn [negb orb] in *.
  destruct (es_grants st2 !! g) as [gr|]; [|done]. destruct (gr_decided gr); [done|].
  split; [done|]. specialize (D1 _ _ G1 eq_refl). specialize (D2 _ _ G2 eq_refl).
  constructor; [apply D1|apply D2|done|done].
Qed.

Lemma commitReplay_related c oc ic f h st1 st2 slot s : related c oc ic f h st1 st2 -> u16 slot -> u64 s ->
  let '(st1', r1) := commitReplayV1 c st1 slot s in
  let '(st2', r2) := commitReplayV1 c st2 slot s in
  r1 = r2 /\ exists h', related c oc ic f h' st1' st2'.
Proof using Type.
  intros HR Hs Hq. destruct (window_same _ _ _ _ _ _ _ _ _ HR Hs Hq) as (w1 & w2 & W1 & W2 & EC).
  destruct HR as [G1 G2 Eg Ef]. pose proof (replayKey_domain c slot Hs) as Hk.
  pose proof (commitReplay_good c oc ic f h st1 slot s G1 Hs Hq) as C1.
  pose proof (commitReplay_good c oc ic f h st2 slot s G2 Hs Hq) as C2. cbv zeta in C1, C2.
  pose proof (commit_window_step c st1 slot s w1 (gd_policy _ _ _ _ _ _ G1) (gd_live _ _ _ _ _ _ G1)
    ltac:(lia) W1) as K1.
  pose proof (commit_window_step c st2 slot s w2 (gd_policy _ _ _ _ _ _ G2) (gd_live _ _ _ _ _ _ G2)
    ltac:(lia) W2) as K2.
  destruct (commitReplayV1 c st1 slot s) as [st1' r1]. destruct (commitReplayV1 c st2 slot s) as [st2' r2].
  destruct C1 as (_ & A1 & A2 & A3), C2 as (_ & B1 & B2 & B3), K1 as (-> & _), K2 as (-> & _).
  split; [|eexists; constructor; [exact A1|exact B1|congruence|congruence]].
  f_equal. unfold commitLocked. rewrite EC. by destruct (checkV1Locked w2 s).
Qed.

Lemma commit_related c oc ic f h st1 st2 g : related c oc ic f h st1 st2 ->
  let '(st1', r1) := Commit c st1 g in
  let '(st2', r2) := Commit c st2 g in
  r1 = r2 /\ exists h', related c oc ic f h' st1' st2'.
Proof using Type.
  intros HR. pose proof (decide_related c oc ic f h st1 st2 g HR) as HD. unfold Commit.
  pose proof (decide_good c oc ic f h st1 g) as D1.
  destruct (decide_ st1 g) as [[g1 s1]|], (decide_ st2 g) as [[g2 s2]|]; try done; [|by eauto].
  destruct HD as [<- HR']. destruct (D1 _ _ (rl_left _ _ _ _ _ _ _ HR) eq_refl) as (_ & Hs & Hq & _).
  by apply (commitReplay_related c oc ic f h).
Qed.

Lemma step_related c oc ic f h st1 st2 op : related c oc ic f h st1 st2 -> typedOp op ->
  snd (envStep c st1 op) = snd (envStep c st2 op) /\
  exists f' h', related c oc ic f' h' (fst (envStep c st1 op)) (fst (envStep c st2 op)).
Proof using Type.
  intros HR Ht. destruct op as [dst class rt slot plaintext aad|dst class record base aad|g|g|class record aad];
    cbn [typedOp envStep] in *.
  - pose proof (seal_related c oc ic f h st1 st2 dst class rt slot plaintext aad HR Ht) as HS.
    destruct (sealDestinationV1 c st1 _ _ _ _ _ _) as [[s1 d1] r1], (sealDestinationV1 c st2 _ _ _ _ _ _) as [[s2 d2] r2].
    destruct HS as (-> & -> & f' & HR'). split; [done|]. by exists f', h.
  - destruct Ht as [Hs Hq]. pose proof (authenticate_related c oc ic f h st1 st2 dst class record base aad HR Hs Hq) as HA.
    destruct (authenticateDestinationV1 c st1 _ _ _ _ _) as [[s1 d1] r1], (authenticateDestinationV1 c st2 _ _ _ _ _) as [[s2 d2] r2].
    destruct HA as (-> & -> & HR'). split; [done|]. by exists f, h.
  - pose proof (commit_related c oc ic f h st1 st2 g HR) as HC.
    destruct (Commit c st1 g), (Commit c st2 g). destruct HC as (-> & h' & HR'). split; [done|]. by exists f, h'.
  - pose proof (decide_related c oc ic f h st1 st2 g HR) as HD. unfold Discard.
    destruct (decide_ st1 g) as [[g1 s1]|], (decide_ st2 g) as [[g2 s2]|]; try done; [|by eauto].
    destruct HD as [_ HR']. split; [done|]. by exists f, h.
  - destruct Ht as [Hs Hq]. unfold openV1.
    pose proof (authenticate_related c oc ic f h st1 st2 None class record 0 aad HR Hs Hq) as HA.
    destruct (authenticateDestinationV1 c st1 _ _ _ _ _) as [[s1 d1] r1], (authenticateDestinationV1 c st2 _ _ _ _ _) as [[s2 d2] r2].
    destruct HA as (-> & -> & HR'). destruct r2 as [[p g]|e]; [|split; [done|by exists f, h]].
    pose proof (commit_related c oc ic f h s1 s2 g HR') as HC.
    destruct (Commit c s1 g), (Commit c s2 g). destruct HC as (-> & h' & HR2). split; [done|]. by exists f, h'.
Qed.

Lemma runs_related c oc ic f h st1 st2 ops : related c oc ic f h st1 st2 -> Forall typedOp ops ->
  outputs (envStep c) st1 ops = outputs (envStep c) st2 ops.
Proof using Type.
  revert f h st1 st2. induction ops as [|op ops IH]; intros f h st1 st2 HR Ht; [done|].
  apply Forall_cons_1 in Ht as [Hop Ht]. rewrite !outputs_cons.
  destruct (step_related c oc ic f h st1 st2 op HR Hop) as (-> & f' & h' & HR'). f_equal. by eapply IH.
Qed.

(** ** Fresh codecs *)

Definition writeKey (schedule : KeySchedule) (client : bool) : bytes :=
  if client then ClientWriteKey schedule else ServerWriteKey schedule.

(** The outbound nonce configuration of a role. *)
Definition dirConfig (schedule : KeySchedule) (mode : string) (client : bool) : nonceDirectionConfigV1 :=
  if client then mkConfig (ClientNonceBase schedule) mode (Epoch schedule) DirectionClientToRelayV1
  else mkConfig (ServerNonceBase schedule) mode (Epoch schedule) DirectionRelayToClientV1.

Lemma newDirection_config e d b m bounded s :
  newNonceDirectionBackendV1 e d b m bounded = Ok s -> config s = mkConfig b m e d.
Proof using Type.
  unfold newNonceDirectionBackendV1, newNonceDirectionConfigV1. intros HN. go_inv HN.
  go_inv E. injection E as <-. by injection HN as <-.
Qed.

Lemma newOwner_state schedule m (client bounded : bool) o :
  (if client then newClientNonceOwnerV1 schedule m bounded else newRelayNonceOwnerV1 schedule m bounded) = Ok o ->
  exists s, o = mkOwner (Some s) (dirConfig schedule m (negb client)) /\
    goodConfig (dirConfig schedule m client) /\ simulates (dirConfig schedule m client) s (fun _ => 0).
Proof using Type.
  unfold newClientNonceOwnerV1, newRelayNonceOwnerV1, nonceOwnerMaterialFromScheduleV1.
  destruct client; intros HO;
    (apply rbind_ok in HO as (mat & HM & HO)); (apply rbind_ok in HM as ([] & _ & HM));
    (apply rbind_ok in HM as ([] & _ & HM)); apply Ok_inj in HM as <-; cbn [m_epoch clientToRelay relayToClient] in HO;
    (apply rbind_ok in HO as (s & HS%map_err_ok & HO)); (apply rbind_ok in HO as (ic & HI%map_err_ok & HO));
    apply Ok_inj in HO as <-; exists s;
    pose proof (newDirection_config _ _ _ _ _ _ HS) as HC; destruct (newDirection_simulates _ _ _ _ _ _ HS) as [Hg Hsim];
    rewrite HC in Hg, Hsim; unfold newNonceDirectionConfigV1 in HI; go_inv HI; apply Ok_inj in HI as <-; done.
Qed.

Lemma newRole_good sizeof schedule context client bounded c st :
  newRoleEnvelopeV1 sizeof schedule context client bounded = Ok (c, st) ->
  let m := eff_NonceMode (cx_EffectivePolicy context) in
  c = mkEnvelopeCodec context (Epoch schedule) (Some (writeKey schedule client))
        (Some (writeKey schedule (negb client))) /\
  good c (dirConfig schedule m client) (dirConfig schedule m (negb client)) (fun _ => 0) (fun _ => []) st /\
  es_grants st = [] /\ es_sealFail st = false.
Proof using Type.
  intros HN m. unfold newRoleEnvelopeV1 in HN. apply rbind_ok in HN as ([] & HV & HN).
  apply rbind_ok in HN as ([] & _ & HN). fold m in HN.
  assert (exists o, (if client then newClientNonceOwnerV1 schedule m bounded else newRelayNonceOwnerV1 schedule m bounded) = Ok o /\
    newEnvelopeCodecBackendV1 schedule context o (writeKey schedule client) (writeKey schedule (negb client)) bounded = Ok (c, st))
    as (o & HO & HB).
  { destruct client; apply rbind_ok in HN as (o & HO & HN); by exists o. }
  destruct (newOwner_state _ _ _ _ _ HO) as (s & -> & Hgc & Hsim).
  unfold newEnvelopeCodecBackendV1 in HB. rewrite HV in HB. cbn [rbind] in HB.
  apply reject_bind_ok in HB as [_ HB]. apply rbind_ok in HB as (ok & HK & HB). apply rbind_ok in HB as (ik & HJ & HB).
  unfold newAEADV1 in HK, HJ. apply reject_bind_ok in HK as [_ HK]. apply reject_bind_ok in HJ as [_ HJ].
  apply Ok_inj in HK as <-. apply Ok_inj in HJ as <-. injection HB as <- <-. split; [done|]. split; [|done].
  unfold validateEnvelopeContextV1 in HV. apply rbind_ok in HV as ([] & HP & _).
  unfold validateEnvelopePolicyV1 in HP. apply reject_bind_ok in HP as [HP _].
  apply orb_false_iff in HP as [_ HP%negb_false_iff].
  assert (HW : validWindow (eff_ReplayPolicy (cx_EffectivePolicy context)) (eff_ReplayWindowSize (cx_EffectivePolicy context))).
  { unfold validWindow. by destruct (validateReplayPolicyV1 _ _) as [[]|]. }
  constructor; try done.
  - by destruct client.
  - by exists s.
  - intros k Hk. change (policyOf _) with (cx_EffectivePolicy context) in *. unfold getWindow. cbn [es_bounded es_windows es_replay].
    destruct bounded.
    + unfold newReplayArenaV3. rewrite lookup_replicate_2 by lia. cbn. eexists. split; [done|].
      split; [by apply newBoundedState_represents|done].
    + rewrite lookup_empty. eexists. split; [done|]. split; [by apply newMapState_represents|]. split; [done|].
      apply validWindow_inv in HW as [HW _]. cbn. apply wrap64_small. unfold_widths. cbn in HW |- *. lia.
Qed.

(** ** Each record is delivered at most once *)

(** The domain and sequence number a step decides about. *)
Definition decisionOf (c : EnvelopeCodecV1) (st : strictEnvelopeStateV1) (op : envOp) : option (Z * Z) :=
  match op with
  | OpCommit g => (fun gr => (replayKeyV1 c (gr_slot gr), gr_sequence gr)) <$> es_grants st !! g
  | OpOpen _ record _ => Some (replayKeyV1 c (er_Slot record), er_Sequence record)
  | _ => None
  end.

Definition succeeded (o : envOut) : bool :=
  match o with OutDecision r => isOk r | OutOpen r => isOk r | _ => false end.

(** The domains and sequence numbers of the records a run delivered. *)
Fixpoint delivered (c : EnvelopeCodecV1) (st : strictEnvelopeStateV1) (ops : list envOp) : list (Z * Z) :=
  match ops with
  | [] => []
  | op :: rest =>
      let '(st', o) := envStep c st op in
      match decisionOf c st op with
      | Some d => if succeeded o then d :: delivered c st' rest else delivered c st' rest
      | None => delivered c st' rest
      end
  end.

Lemma accepts_fresh pol w acc s : Spec.accepts pol w acc s = true -> s ∉ acc.
Proof using Type. unfold Spec.accepts. by intros [Hm%negb_true_iff%mem_false _]%andb_true_iff. Qed.

Lemma commit_good c oc ic f h st g : good c oc ic f h st ->
  let '(st', r) := Commit c st g in
  exists h', good c oc ic f h' st' /\
    match es_grants st !! g, r with
    | Some gr, Ok _ => let k := replayKeyV1 c (gr_slot gr) in
        gr_sequence gr ∉ h k /\ h' = recordAccepted h k (gr_sequence gr)
    | None, Ok _ => False
    | _, Err _ => h' = h
    end.
Proof using Type.
  intros Hg. unfold Commit. destruct (decide_ st g) as [[gr st1]|] eqn:ED.
  2: { exists h. by destruct (es_grants st !! g). }
  destruct (decide_good _ _ _ _ _ _ _ _ _ Hg ED) as (Hg1 & Hs & Hq & _).
  assert (es_grants st !! g = Some gr) as ->.
  { unfold decide_ in ED. destruct (es_grants st !! g) as [gr'|]; [|done]. destruct (_ || _); congruence. }
  pose proof (commitReplay_good c oc ic f h st1 _ _ Hg1 Hs Hq) as HC. cbv zeta in HC.
  destruct (commitReplayV1 c st1 _ _) as [st2 r]. destruct HC as (Hok & Hg2 & _).
  eexists. split; [exact Hg2|]. destruct r as [u|e]; cbn [isOk] in Hok; rewrite <- Hok; [|done].
  split; [|done]. by apply (accepts_fresh _ _ _ _ (eq_sym Hok)).
Qed.

(** A new capability, committed at once, is decided by the abstract window. *)
Lemma commit_new c oc ic f h st slot s : good c oc ic f h st -> u16 slot -> u64 s ->
  let k := replayKeyV1 c slot in
  Spec.accepts (eff_ReplayPolicy (policyOf c)) (eff_ReplayWindowSize (policyOf c)) (h k) s = true ->
  exists st', Commit c (setGrants st (es_grants st ++ [mkGrant slot s false])) (length (es_grants st)) = (st', Ok tt) /\
    good c oc ic f (recordAccepted h k s) st'.
Proof using Type.
  intros Hg Hs Hq k Hacc. unfold Commit, decide_. cbn [setGrants es_grants es_authority].
  rewrite lookup_app_r, Nat.sub_diag by lia. cbn [lookup list_lookup gr_decided gr_slot gr_sequence].
  rewrite (gd_authority _ _ _ _ _ _ Hg). cbn [negb orb gr_slot gr_sequence].
  set (gs := <[_ := _]> _).
  assert (Hgs : Forall (fun g => u16 (gr_slot g) /\ u64 (gr_sequence g)) gs).
  { apply Forall_insert; [|done]. apply Forall_app. split; [apply Hg|by apply Forall_singleton]. }
  pose proof (commitReplay_good c oc ic f h _ slot s (good_grants c oc ic f h st gs Hg Hgs) Hs Hq) as HC.
  cbv zeta in HC. fold k in HC. rewrite Hacc in HC. change (setGrants (setGrants st _) gs) with (setGrants st gs).
  destruct (commitReplayV1 c (setGrants st gs) slot s) as [st' r]. destruct HC as (Hok & Hg' & _).
  exists st'. split; [|done]. by destruct r as [[]|].
Qed.

Lemma open_good c oc ic f h st class record aad : good c oc ic f h st ->
  u16 (er_Slot record) -> u64 (er_Sequence record) ->
  let '(st', r) := openV1 c st class record aad in
  exists h', good c oc ic f h' st' /\
    match r with
    | Ok _ => let k := replayKeyV1 c (er_Slot record) in
        er_Sequence record ∉ h k /\ h' = recordAccepted h k (er_Sequence record)
    | Err _ => h' = h
    end.
Proof using Type.
  intros Hg Hs Hq. unfold openV1.
  destruct (authenticateDestinationV1 c st None class record 0 aad) as [[st1 d] r] eqn:EA.
  pose proof (authenticate_good _ _ _ _ _ _ _ _ _ _ _ _ _ _ Hg Hs Hq EA) as Hg1.
  apply authenticate_pure in EA. destruct r as [[p g]|e]; [|by exists h].
  destruct EA as [-> ->]. pose proof (commit_good c oc ic f h _ (length (es_grants st)) Hg1) as HC.
  assert (HL : es_grants (setGrants st (es_grants st ++ [mkGrant (er_Slot record) (er_Sequence record) false]))
    !! length (es_grants st) = Some (mkGrant (er_Slot record) (er_Sequence record) false)).
  { cbn [setGrants es_grants]. rewrite lookup_app_r, Nat.sub_diag by lia. done. }
  rewrite HL in HC. destruct (Commit c _ _) as [st2 r2]. destruct HC as (h' & Hg2 & HC).
  exists h'. split; [done|]. by destruct r2.
Qed.

Lemma step_good c oc ic f h st op : good c oc ic f h st -> typedOp op ->
  exists f' h', good c oc ic f' h' (fst (envStep c st op)) /\
    match decisionOf c st op with
    | Some (k, s) => if succeeded (snd (envStep c st op)) then s ∉ h k /\ h' = recordAccepted h k s else h' = h
    | None => h' = h
    end /\
    match op with
    | OpSeal dst class rt slot plaintext aad =>
        exists d r, sealSpec c oc f st dst class rt slot plaintext aad = (f', d, r) /\
          snd (envStep c st op) = OutSeal d r
    | _ => f' = f
    end.
Proof using Type.
  intros Hg Ht. destruct op as [dst class rt slot plaintext aad|dst class record base aad|g|g|class record aad];
    cbn [typedOp envStep decisionOf] in *.
  - pose proof (seal_refines c oc ic f h st dst class rt slot plaintext aad Hg Ht) as HS.
    destruct (sealDestinationV1 c st _ _ _ _ _ _) as [[s1 d1] r1], (sealSpec _ _ _ _ _ _ _ _ _ _) as [[f' d'] r'].
    destruct HS as (-> & -> & Hg' & _). exists f', h. split; [exact Hg'|]. split; [done|]. by exists d', r'.
  - destruct Ht as [Hs Hq]. destruct (authenticateDestinationV1 c st _ _ _ _ _) as [[s1 d1] r1] eqn:EA.
    exists f, h. split; [by eapply authenticate_good|done].
  - pose proof (commit_good c oc ic f h st g Hg) as HC. destruct (Commit c st g) as [st' r].
    destruct HC as (h' & Hg' & HC). exists f, h'. split; [done|]. split; [|done]. cbn [snd succeeded].
    destruct (es_grants st !! g) as [gr|]; cbn [fmap option_fmap option_map]; by destruct r.
  - unfold Discard. destruct (decide_ st g) as [[gr st']|] eqn:ED; [|by exists f, h].
    exists f, h. split; [by eapply decide_good in ED as [? _]|done].
  - destruct Ht as [Hs Hq]. pose proof (open_good c oc ic f h st class record aad Hg Hs Hq) as HO.
    destruct (openV1 c st class record aad) as [st' r]. destruct HO as (h' & Hg' & HO).
    exists f, h'. split; [done|]. split; [|done]. cbn [snd succeeded]. by destruct r.
Qed.

Lemma delivered_once c oc ic f h st ops : good c oc ic f h st -> Forall typedOp ops ->
  NoDup (delivered c st ops) /\ Forall (fun d => snd d ∉ h (fst d)) (delivered c st ops).
Proof using Type.
  revert f h st. induction ops as [|op ops IH]; intros f h st Hg Ht; [split; constructor|].
  apply Forall_cons_1 in Ht as [Hop Ht]. cbn [delivered].
  destruct (step_good c oc ic f h st op Hg Hop) as (f' & h' & Hg' & HD & _).
  destruct (envStep c st op) as [st' o]. cbn [fst snd] in *. destruct (IH f' h' st' Hg' Ht) as [I1 I2].
  destruct (decisionOf c st op) as [[k s]|]; [|by subst].
  destruct (succeeded o); [|by subst]. destruct HD as [Hfresh ->]. split.
  - constructor; [|done]. intros Hin. rewrite Forall_forall in I2. apply (I2 _ Hin).
    cbn. unfold recordAccepted. rewrite Z.eqb_refl. apply elem_of_cons. by left.
  - constructor; [done|]. eapply Forall_impl; [exact I2|]. intros [k2 s2]. cbn. unfold recordAccepted.
    destruct (Z.eqb_spec k2 k) as [->|]; [|done]. intros Hn Hin. apply Hn, elem_of_cons. by right.
Qed.

(** ** Nonces of sealed records *)

Definition sealNonce (oc : nonceDirectionConfigV1) (o : envOut) : option bytes :=
  match o with
  | OutSeal _ (Ok r) => match deriveNonceV1 oc (er_Slot r) (er_Sequence r) with Ok n => Some n | Err _ => None end
  | _ => None
  end.

Lemma sealSpec_ok c oc f st dst class recordType slot plaintext aad f' d r :
  sealSpec c oc f st dst class recordType slot plaintext aad = (f', d, Ok r) ->
  exists key a, sealRefused c dst class recordType slot plaintext = Ok key /\
    specStep oc f (requestOf class slot) = (f', Ok a) /\ es_sealFail st = false /\
    r = sealed c st key dst recordType plaintext aad a.
Proof using Type.
  unfold sealSpec. destruct (sealRefused _ _ _ _ _ _) as [key|]; [|done].
  destruct (specStep oc f (requestOf class slot)) as [f1 [a|e]]; [|done].
  destruct (es_sealFail st); [done|]. intros [= <- _ <-]. by exists key, a.
Qed.

Lemma step_counters c oc ic f h st op : good c oc ic f h st -> typedOp op ->
  exists f' h', good c oc ic f' h' (fst (envStep c st op)) /\ (forall k, f k <= f' k) /\
    forall n, sealNonce oc (snd (envStep c st op)) = Some n ->
      exists slot, u16 slot /\ 0 <= f (stateSlot oc slot) < 2 ^ 64 /\
        deriveNonceV1 oc slot (f (stateSlot oc slot)) = Ok n /\ f' = Nonce.Spec.bump f (stateSlot oc slot).
Proof using Type.
  intros Hg Ht. destruct (step_good c oc ic f h st op Hg Ht) as (f' & h' & Hg' & _ & HF).
  exists f', h'. split; [exact Hg'|].
  destruct op as [dst class rt slot plaintext aad|dst class record base aad|g|g|class record aad].
  2-5: subst f'; split; [intros; lia|]; intros n; cbn [envStep];
    repeat match goal with |- context [let '(_, _) := ?x in _] => destruct x as [??] end; done.
  destruct HF as (d & r & HS & Ho). rewrite Ho. cbn [sealNonce].
  pose proof (gd_within _ _ _ _ _ _ Hg) as Hw. pose proof (specStep_mono oc f (requestOf class slot) Hw) as [_ Hm].
  pose proof (requestOf_u16 class slot Ht) as Hrq. split.
  - unfold sealSpec in HS. destruct (sealRefused _ _ _ _ _ _); [|injection HS as <- _ _; intros; lia].
    destruct (specStep oc f (requestOf class slot)) as [f1 [al|e]]; cbn [fst] in Hm;
      [destruct (es_sealFail st)|]; by injection HS as <- _ _.
  - intros n. destruct r as [r|]; [|done]. apply sealSpec_ok in HS as (key & al & _ & HS & _ & ->).
    cbn [sealed er_Slot er_Sequence].
    destruct (specStep_ok oc f (requestOf class slot) al) as (S1 & S2 & S3 & S4 & S5); [by rewrite HS|].
    rewrite S2, S3. intros [= <-]. exists (snd (requestOf class slot)). rewrite S1 in S3.
    specialize (Hw (stateSlot oc (snd (requestOf class slot)))). rewrite HS in S5. cbn [fst] in S5.
    split; [done|]. split; [lia|]. done.
Qed.

Lemma seal_nonces_unique c oc ic f h st ops : good c oc ic f h st -> Forall typedOp ops ->
  let ns := omap (sealNonce oc) (outputs (envStep c) st ops) in
  NoDup ns /\ forall n, n ∈ ns ->
    exists slot x, u16 slot /\ f (stateSlot oc slot) <= x < 2 ^ 64 /\ deriveNonceV1 oc slot x = Ok n.
Proof using Type.
  cbv zeta. revert f h st. induction ops as [|op ops IH]; intros f h st Hg Ht.
  { split; [constructor|]. by intros n ?%elem_of_nil. }
  apply Forall_cons_1 in Ht as [Hop Ht]. rewrite outputs_cons. cbn [omap list_omap].
  destruct (step_counters c oc ic f h st op Hg Hop) as (f' & h' & Hg' & Hm & Hn).
  destruct (IH f' h' _ Hg' Ht) as [I1 I2].
  assert (I3 : forall n, n ∈ omap (sealNonce oc) (outputs (envStep c) (fst (envStep c st op)) ops) ->
    exists slot x, u16 slot /\ f (stateSlot oc slot) <= x < 2 ^ 64 /\ deriveNonceV1 oc slot x = Ok n).
  { intros n Hin. destruct (I2 n Hin) as (slot & x & K1 & K2 & K3). exists slot, x.
    specialize (Hm (stateSlot oc slot)). split; [done|]. split; [lia|done]. }
  destruct (sealNonce oc (snd (envStep c st op))) as [n|]; [|done].
  destruct (Hn n eq_refl) as (slot & K1 & K2 & K3 & K4). split.
  - constructor; [|done]. intros Hin. destruct (I2 n Hin) as (slot2 & x & L1 & L2 & L3).
    pose proof (gd_within _ _ _ _ _ _ Hg' (stateSlot oc slot2)) as Hw'.
    destruct (deriveNonce_inj oc slot slot2 (f (stateSlot oc slot)) x n) as [E1 E2]; try done;
      [apply Hg|unfold_widths; lia..|].
    rewrite K4, <- E1 in L2. unfold Nonce.Spec.bump in L2. rewrite Z.eqb_refl in L2. lia.
  - intros m [->|Hin]%elem_of_cons; [|by apply I3]. exists slot, (f (stateSlot oc slot)).
    split; [done|]. split; [lia|done].
Qed.

(** A sealed record is the plaintext under the write key and its own nonce. *)
Definition sealedWith (oc : nonceDirectionConfigV1) (key : bytes) (op : envOp) (o : envOut) : Prop :=
  match op, o with
  | OpSeal _ _ _ _ plaintext _, OutSeal _ (Ok r) => exists n aad,
      sealNonce oc o = Some n /\ er_Ciphertext r = aeadSeal key n (sl_bytes plaintext) aad
  | _, _ => True
  end.

Lemma sealRefused_key c dst class recordType slot plaintext key :
  sealRefused c dst class recordType slot plaintext = Ok key -> ec_outbound c = Some key.
Proof using Type.
  unfold sealRefused. destruct (ec_outbound c) as [k|]; [|done]. intros HR. go_inv HR.
  by apply Ok_inj in HR as <-.
Qed.

Lemma seals_use_nonce c oc ic f h st key ops : good c oc ic f h st -> ec_outbound c = Some key ->
  Forall typedOp ops -> Forall2 (sealedWith oc key) ops (outputs (envStep c) st ops).
Proof using Type.
  intros Hg Hk. revert f h st Hg. induction ops as [|op ops IH]; intros f h st Hg Ht; [constructor|].
  apply Forall_cons_1 in Ht as [Hop Ht]. rewrite outputs_cons.
  destruct (step_good c oc ic f h st op Hg Hop) as (f' & h' & Hg' & _ & HF). constructor; [|by eapply IH].
  destruct op as [dst class rt slot plaintext aad|dst class record base aad|g|g|class record aad]; try done.
  destruct HF as (d & r & HS & Ho). rewrite Ho. cbn [sealedWith]. destruct r as [r|]; [|done].
  apply sealSpec_ok in HS as (k & a & HR & HS & _ & ->). apply sealRefused_key in HR. rewrite Hk in HR.
  injection HR as <-. destruct (specStep_ok oc f (requestOf class slot) a) as (S1 & S2 & S3 & S4 & S5); [by rewrite HS|].
  eexists _, _. split; [|reflexivity]. cbn [sealNonce sealed er_Slot er_Sequence]. by rewrite S2, S3.
Qed.

(** ** Delivery *)

Record message := mkMessage {
  ms_class : Z; ms_type : Z; ms_slot : Z; ms_plaintext : bytes; ms_aad : bytes }.

Definition validMessage (context : EnvelopeContextV1) (m : message) : Prop :=
  (ms_class m = nonceApplicationRecordV1 /\ ms_type m = 1 /\ 1 <= ms_slot m < 65536 \/
   ms_class m = nonceControlRecordV1 /\ 1 < ms_type m < 65536 /\ ms_slot m = 0) /\
  zlen (ms_plaintext m) + Overhead <= cx_MaxEnvelopeBytes context.

(** One end seals, the other opens at once. *)
Fixpoint exchange (c : EnvelopeCodecV1) (st : strictEnvelopeStateV1) (d : EnvelopeCodecV1)
    (rt : strictEnvelopeStateV1) (msgs : list message) : list (result env_error bytes) :=
  match msgs with
  | [] => []
  | m :: rest =>
      let '(st', _, r) := sealV1 c st (ms_class m) (ms_type m) (ms_slot m) (mkSlice 0 (ms_plaintext m)) (ms_aad m) in
      match r with
      | Err e => Err e :: exchange c st' d rt rest
      | Ok record =>
          let '(rt', o) := openV1 d rt (ms_class m) record (ms_aad m) in
          o :: exchange c st' d rt' rest
      end
  end.

(** The sequences accepted when every one of the first [n] arrived in order. *)
Fixpoint firstSequences (n : nat) : list Z :=
  match n with O => [] | S n => Z.of_nat n :: firstSequences n end.

Lemma firstSequences_facts n : zlen (firstSequences n) = Z.of_nat n /\
  (forall s, s ∈ firstSequences n -> s < Z.of_nat n) /\
  (n <> O -> Spec.top (firstSequences n) = Z.of_nat n - 1).
Proof using Type.
  induction n as [|n (I1 & I2 & I3)].
  { split; [done|]. split; [by intros s ?%elem_of_nil|done]. }
  cbn [firstSequences]. split; [rewrite zlen_cons; lia|]. split.
  - intros s [->|Hs]%elem_of_cons; [lia|]. specialize (I2 s Hs). lia.
  - intros _. change (Spec.top (Z.of_nat n :: firstSequences n)) with (Z.max (Z.of_nat n) (Spec.top (firstSequences n))).
    destruct n as [|n]; [done|]. rewrite I3 by done. lia.
Qed.

Lemma next_accepted pol w n : validWindow pol w -> Spec.accepts pol w (firstSequences n) (Z.of_nat n) = true.
Proof using Type.
  intros [Hw Hp]%validWindow_inv. destruct (firstSequences_facts n) as (F1 & F2 & F3).
  unfold Spec.accepts. apply andb_true_iff. split.
  { apply negb_true_iff, mem_false. intros Hin. specialize (F2 _ Hin). lia. }
  unfold Spec.admits. rewrite F1. apply mem_true in Hp. rewrite !elem_of_cons, elem_of_nil in Hp.
  destruct Hp as [->|[->|[->|[]]]].
  - rewrite bool_decide_eq_true_2 by done. by rewrite Z.eqb_refl.
  - rewrite bool_decide_eq_false_2, bool_decide_eq_true_2 by done. case_bool_decide as Hn.
    + destruct n; [|done]. apply Z.leb_le. lia.
    + rewrite F3 by (by intros ->). apply andb_true_iff. split; [apply Z.ltb_lt|apply Z.leb_le]; lia.
  - rewrite !(bool_decide_eq_false_2 (_ = _ :> string)), bool_decide_eq_true_2 by done. case_bool_decide as Hn; [done|].
    rewrite F3 by (by intros ->). cbn [orb]. apply Z.ltb_lt. lia.
Qed.

Section delivery.
Context (CL : CipherLaws _).
Context (c d : EnvelopeCodecV1) (oc ic oc' : nonceDirectionConfigV1).
Context (same_context : ec_context d = ec_context c).
Context (same_epoch : ec_epoch d = epoch oc).
Context (key : bytes) (out_key : ec_outbound c = Some key) (in_key : ec_inbound d = Some key).
Context (max_u32 : u32 (cx_MaxEnvelopeBytes (ec_context c))).

(** The receiver has accepted exactly what the sender has sealed. *)
Definition inStep (f : Nonce.Spec.counters) (h : Z -> list Z) : Prop :=
  forall k, h k = firstSequences (Z.to_nat (f k)).

Lemma request_valid m : validMessage (ec_context c) m -> u16 (ms_slot m) /\
  requestOf (ms_class m) (ms_slot m) = (ms_class m, ms_slot m) /\
  validateNonceSlotV1 (ms_class m) (ms_slot m) = Ok tt.
Proof using Type.
  intros [[(-> & _ & Hs)|(-> & _ & ->)] _]; [|done]. split; [unfold_widths; lia|]. split; [done|].
  unfold validateNonceSlotV1. cbn. destruct (Z.eqb_spec (ms_slot m) 0); [lia|done].
Qed.

Lemma seal_succeeds f h st m : good c oc ic f h st -> es_sealFail st = false ->
  validMessage (ec_context c) m -> f (replayKeyV1 c (ms_slot m)) < 2 ^ 64 ->
  exists a, specStep oc f (ms_class m, ms_slot m) = (Nonce.Spec.bump f (replayKeyV1 c (ms_slot m)), Ok a) /\
    Sequence a = f (replayKeyV1 c (ms_slot m)) /\ Slot a = ms_slot m /\ al_Epoch a = epoch oc /\
    al_Direction a = direction oc /\ deriveNonceV1 oc (ms_slot m) (Sequence a) = Ok (Nonce a).
Proof using Type.
  intros Hg Hf Hm Hlt. destruct (request_valid m Hm) as (Hs & _ & Hv).
  unfold specStep, Nonce.Spec.allocate. cbn [fst snd]. destruct (gd_config _ _ _ _ _ _ Hg) as [Hc Hb].
  rewrite Hc. cbn [rbind]. rewrite Hv. rewrite (stateSlot_key c oc _ (gd_mode _ _ _ _ _ _ Hg)).
  destruct (Z.eqb_spec (f (replayKeyV1 c (ms_slot m))) (2 ^ 64)); [lia|].
  destruct (deriveNonce_total oc (ms_slot m) (f (replayKeyV1 c (ms_slot m))) (conj Hc Hb)) as [nonce Hn].
  rewrite Hn. cbn [rbind]. eexists. split; [reflexivity|]. cbn. done.
Qed.
Lemma sealRefused_valid m : validMessage (ec_context c) m ->
  sealRefused c None (ms_class m) (ms_type m) (ms_slot m) (mkSlice 0 (ms_plaintext m)) = Ok key.
Proof using out_key.
  intros [Hc Hl]. unfold sealRefused. rewrite out_key. unfold sl_len. cbn [sl_bytes].
  destruct (Z.ltb_spec (cx_MaxEnvelopeBytes (ec_context c)) (zlen (ms_plaintext m) + Overhead)); [lia|].
  destruct Hc as [(-> & -> & _)|(-> & Ht & _)]; [done|].
  destruct (Z.eqb_spec (ms_type m) 0); [lia|]. destruct (Z.eqb_spec (ms_type m) 1); [lia|done].
Qed.

(** The record the sender produces for a valid message. *)
Definition recordOf (st : strictEnvelopeStateV1) (m : message) (a : NonceAllocationV1) : EnvelopeRecordV1 :=
  sealed c st key None (ms_type m) (mkSlice 0 (ms_plaintext m)) (ms_aad m) a.

Lemma checks_pass m a st r : validMessage (ec_context c) m -> goodConfig oc ->
  Slot a = ms_slot m -> al_Epoch a = epoch oc -> al_Direction a = direction oc ->
  deriveNonceV1 oc (ms_slot m) (Sequence a) = Ok (Nonce a) -> checkV1Locked r (Sequence a) = Ok tt ->
  authChecks d oc None (ms_class m) (recordOf st m a) 0 (checkV1Locked r (er_Sequence (recordOf st m a)))
    = Ok (key, Nonce a).
Proof using CL in_key same_context same_epoch max_u32.
  intros Hm [Hc Hb] Es Ee Ed Hn Hk. destruct (request_valid m Hm) as (_ & _ & Hv). destruct Hm as [Hm Hl].
  unfold authChecks, recordOf, sealed. cbn [er_RecordType er_Direction er_Epoch er_Slot er_Ciphertext er_SealedLength er_Sequence].
  rewrite in_key, same_epoch, same_context, Es, Ee, Ed, !Z.eqb_refl, Hv, Hk, seal_length. unfold sl_len. cbn [sl_bytes].
  unfold Overhead in *. pose proof (zlen_nonneg (ms_plaintext m)).
  rewrite wrap32_small by (unfold_widths; lia). rewrite Z.eqb_refl.
  destruct (Z.ltb_spec (zlen (ms_plaintext m) + 16) 16); [lia|].
  destruct (Z.ltb_spec (cx_MaxEnvelopeBytes (ec_context c)) (zlen (ms_plaintext m) + 16)); [lia|].
  unfold expectedV1. rewrite Hc. cbn [rbind].
  destruct Hm as [(Ec & Et & _)|(Ec & Et & E0)]; rewrite Ec in *.
  - rewrite Et. cbn [Z.eqb Pos.eqb negb orb andb reject rbind map_err nonceApplicationRecordV1 nonceControlRecordV1] in *.
    rewrite Hv. cbn [rbind]. by rewrite Hn.
  - destruct (Z.eqb_spec (ms_type m) 0); [lia|]. destruct (Z.eqb_spec (ms_type m) 1); [lia|].
    rewrite E0 in *. cbn [Z.eqb Pos.eqb negb orb andb reject rbind map_err nonceApplicationRecordV1 nonceControlRecordV1] in *.
    rewrite Hv. cbn [rbind]. by rewrite Hn.
Qed.

Lemma aad_peers st rt record aad : es_destroyed st = es_destroyed rt ->
  aadV1 d rt record aad = aadV1 c st record aad.
Proof using same_context.
  intros E. unfold aadV1, applicationAADV1, writeApplicationAADV1, classOrZero, ExpectedClassV1, fullHashes.
  by rewrite E, same_context.
Qed.

(** The fields of the record of a message, its sequence being the next of its domain. *)
Definition recordFields (f : Nonce.Spec.counters) (m : message) (r : EnvelopeRecordV1) : Prop :=
  er_RecordType r = ms_type m /\ er_Epoch r = epoch oc /\ er_Direction r = direction oc /\ er_Slot r = ms_slot m /\
  er_Sequence r = f (replayKeyV1 c (ms_slot m)) /\ er_SealedLength r = zlen (ms_plaintext m) + Overhead /\
  zlen (er_Ciphertext r) = zlen (ms_plaintext m) + Overhead.

Lemma recordOf_fields f h st m a : good c oc ic f h st -> validMessage (ec_context c) m -> Slot a = ms_slot m ->
  al_Epoch a = epoch oc -> al_Direction a = direction oc -> Sequence a = f (replayKeyV1 c (ms_slot m)) ->
  recordFields f m (recordOf st m a).
Proof using CL max_u32.
  intros Hg [_ Hl] Es Ee Ed Eq. unfold recordFields, recordOf, sealed, sl_len.
  cbn [er_RecordType er_Epoch er_Direction er_Slot er_Sequence er_SealedLength er_Ciphertext sl_bytes].
  rewrite seal_length. repeat split; try done. apply wrap32_small. pose proof (zlen_nonneg (ms_plaintext m)).
  unfold Overhead in *. unfold_widths. lia.
Qed.

Lemma deliver_one f h st f2 h2 rt m : good c oc ic f h st -> good d oc' oc f2 h2 rt ->
  es_sealFail st = false -> inStep f h2 -> validMessage (ec_context c) m ->
  f (replayKeyV1 c (ms_slot m)) < 2 ^ 64 ->
  exists st' record rt',
    sealV1 c st (ms_class m) (ms_type m) (ms_slot m) (mkSlice 0 (ms_plaintext m)) (ms_aad m) = (st', None, Ok record) /\
    recordFields f m record /\ openV1 d rt (ms_class m) record (ms_aad m) = (rt', Ok (ms_plaintext m)) /\ es_sealFail st' = false /\
    let f' := Nonce.Spec.bump f (replayKeyV1 c (ms_slot m)) in
    good c oc ic f' h st' /\ exists h2', good d oc' oc f2 h2' rt' /\ inStep f' h2'.
Proof using CL out_key in_key same_context same_epoch max_u32.
  intros Hg Hr Hf Hin Hm Hlt. destruct (request_valid m Hm) as (Hs & Hrq & Hv).
  destruct (seal_succeeds f h st m Hg Hf Hm Hlt) as (a & Ha & A1 & A2 & A3 & A4 & A5).
  pose proof (seal_refines c oc ic f h st None (ms_class m) (ms_type m) (ms_slot m) (mkSlice 0 (ms_plaintext m))
    (ms_aad m) Hg Hs) as HS.
  unfold sealV1. destruct (sealDestinationV1 c st _ _ _ _ _ _) as [[st' dd] rr].
  unfold sealSpec in HS. rewrite (sealRefused_valid m Hm), Hrq, Ha, Hf in HS.
  destruct HS as (-> & -> & Hg' & _ & Hf'). fold (recordOf st m a) in *.
  set (k := replayKeyV1 c (ms_slot m)) in *.
  assert (Ek : replayKeyV1 d (ms_slot m) = k) by (unfold k, replayKeyV1; by rewrite same_context).
  pose proof (replayKey_domain d (ms_slot m) Hs) as Hkd. rewrite Ek in Hkd.
  destruct (gd_windows _ _ _ _ _ _ Hr k Hkd) as (r & W1 & W2 & W3 & W4).
  assert (Hq : u64 (Sequence a)).
  { rewrite A1. pose proof (gd_within _ _ _ _ _ _ Hg k). unfold_widths. lia. }
  assert (Hacc : Spec.accepts (policy r) (window r) (h2 k) (Sequence a) = true).
  { rewrite W3, W4, (Hin k), A1. pose proof (gd_within _ _ _ _ _ _ Hg k) as Hwk.
    rewrite <- (Z2Nat.id (f k)) at 2 by lia. apply next_accepted. apply (gd_policy _ _ _ _ _ _ Hr). }
  assert (Hck : checkV1Locked r (Sequence a) = Ok tt).
  { pose proof (check_spec r (h2 k) (Sequence a) W2 Hq) as HC. rewrite Hacc in HC.
    by destruct (checkV1Locked r (Sequence a)) as [[]|]. }
  assert (HW : getWindow d rt (replayKeyV1 d (er_Slot (recordOf st m a))) = Some r).
  { cbn [recordOf sealed er_Slot]. by rewrite A2, Ek. }
  pose proof (authenticate_checks d oc' oc f2 h2 rt None (ms_class m) (recordOf st m a) 0 (ms_aad m) r Hr HW) as HA.
  rewrite (checks_pass m a st r Hm (gd_config _ _ _ _ _ _ Hg) A2 A3 A4 A5 Hck) in HA.
  assert (HO : aeadOpen key (Nonce a) (er_Ciphertext (recordOf st m a))
    (authAAD d rt None (recordOf st m a) (ms_aad m)) = Some (ms_plaintext m)).
  { unfold authAAD. rewrite (aad_peers st rt); [|by rewrite (gd_live _ _ _ _ _ _ Hg), (gd_live _ _ _ _ _ _ Hr)].
    apply (open_seal key (Nonce a) (ms_plaintext m)). }
  rewrite HO in HA.
  destruct (commit_new d oc' oc f2 h2 rt (ms_slot m) (Sequence a) Hr Hs Hq) as (rt' & HC & Hr').
  { rewrite Ek. by rewrite <- W3, <- W4. }
  exists st', (recordOf st m a), rt'. split; [done|]. split; [by eapply recordOf_fields|]. split.
  { unfold openV1. rewrite HA. unfold recordOf, sealed. cbn [er_Slot er_Sequence]. rewrite A2. by rewrite HC. }
  split; [by rewrite Hf'|]. split; [done|]. rewrite Ek in Hr'. exists (recordAccepted h2 k (Sequence a)).
  split; [done|]. intros j. unfold recordAccepted, Nonce.Spec.bump. pose proof (gd_within _ _ _ _ _ _ Hg k).
  destruct (Z.eqb_spec j k) as [->|Hne]; [|by apply Hin]. rewrite Hin, A1.
  rewrite (Z2Nat.inj_add (f k) 1) by lia. rewrite Nat.add_comm.
  change (firstSequences (Z.to_nat 1 + Z.to_nat (f k)))
    with (Z.of_nat (Z.to_nat (f k)) :: firstSequences (Z.to_nat (f k))).
  by rewrite Z2Nat.id by lia.
Qed.

(** Every valid message arrives, while the counters last. *)
Lemma exchange_delivers msgs : forall f h st f2 h2 rt,
  good c oc ic f h st -> good d oc' oc f2 h2 rt -> es_sealFail st = false -> inStep f h2 ->
  Forall (validMessage (ec_context c)) msgs -> (forall k, f k + zlen msgs <= 2 ^ 64) ->
  exchange c st d rt msgs = (Ok ∘ ms_plaintext) <$> msgs.
Proof using CL out_key in_key same_context same_epoch max_u32.
  induction msgs as [|m msgs IH]; intros f h st f2 h2 rt Hg Hr Hf Hin Hm Hle; [done|].
  apply Forall_cons_1 in Hm as [Hm Hms]. rewrite zlen_cons in Hle. pose proof (zlen_nonneg msgs) as Hn.
  destruct (deliver_one f h st f2 h2 rt m Hg Hr Hf Hin Hm) as (st' & record & rt' & HS & _ & HO & Hf' & Hg' & h2' & Hr' & Hin').
  { specialize (Hle (replayKeyV1 c (ms_slot m))). lia. }
  cbn [exchange fmap list_fmap]. rewrite HS, HO. f_equal.
  eapply IH; try done. intros k. unfold Nonce.Spec.bump. pose proof (Hle k).
  pose proof (Hle (replayKeyV1 c (ms_slot m))). destruct (k =? _); lia.
Qed.
End delivery.

(** ** The guarantees of fresh codecs *)

(** C10: Storage equivalence: over the same schedule, context and role, the
    codec with preallocated replay windows and nonce counters and the one that
    keeps them in maps are the same codec value and give the same outputs
    (records, buffers, plaintexts, capabilities, errors) on every sequence of
    seals, authentications, commits, discards and opens. *)
Theorem envelope_backends_equal sizeof schedule context client cb sb cm sm ops :
  newRoleEnvelopeV1 sizeof schedule context client true = Ok (cb, sb) ->
  newRoleEnvelopeV1 sizeof schedule context client false = Ok (cm, sm) ->
  Forall typedOp ops ->
  cb = cm /\ outputs (envStep cb) sb ops = outputs (envStep cm) sm ops.
Proof using Type.
  intros [-> (G1 & E1 & F1)]%newRole_good [-> (G2 & E2 & F2)]%newRole_good Ht. split; [done|].
  eapply runs_related; [|exact Ht]. constructor; [exact G1|exact G2|congruence|congruence].
Qed.

(** C9: Replay protection: whatever records and capabilities a codec is given,
    in whatever order, it delivers each sequence number of a replay domain at
    most once. *)
Theorem envelope_no_replay sizeof schedule context client bounded c st ops :
  newRoleEnvelopeV1 sizeof schedule context client bounded = Ok (c, st) ->
  Forall typedOp ops -> NoDup (delivered c st ops).
Proof using Type.
  intros [_ (Hg & _)]%newRole_good Ht. by apply (delivered_once _ _ _ _ _ _ _ Hg).
Qed.

(** C11: Nonce discipline: over any run of a codec the nonces of the sealed
    records are pairwise distinct, and each record's ciphertext is the
    plaintext sealed with the role's write key under its own such nonce. *)
Theorem envelope_nonces_unique sizeof schedule context client bounded c st ops :
  newRoleEnvelopeV1 sizeof schedule context client bounded = Ok (c, st) ->
  Forall typedOp ops ->
  let oc := dirConfig schedule (eff_NonceMode (cx_EffectivePolicy context)) client in
  let outs := outputs (envStep c) st ops in
  NoDup (omap (sealNonce oc) outs) /\ Forall2 (sealedWith oc (writeKey schedule client)) ops outs.
Proof using Type.
  intros [-> (Hg & _)]%newRole_good Ht oc outs. split; [by apply (seal_nonces_unique _ _ _ _ _ _ _ Hg)|].
  by eapply seals_use_nonce.
Qed.

(** C8: Delivery: two codecs of opposite roles over one schedule and context,
    whatever their storage: every message of an exchange of at most [2^64]
    valid messages, on any slots and record types, is opened to its plaintext. *)
Theorem envelope_delivery (CL : CipherLaws _) sizeof schedule context client b1 b2 c st d rt msgs :
  newRoleEnvelopeV1 sizeof schedule context client b1 = Ok (c, st) ->
  newRoleEnvelopeV1 sizeof schedule context (negb client) b2 = Ok (d, rt) ->
  u32 (cx_MaxEnvelopeBytes context) -> Forall (validMessage context) msgs -> zlen msgs <= 2 ^ 64 ->
  exchange c st d rt msgs = (Ok ∘ ms_plaintext) <$> msgs.
Proof using Type.
  intros [-> (G1 & _ & F1)]%newRole_good [-> (G2 & _)]%newRole_good Hu Hm Hl.
  rewrite negb_involutive in G2 |- *.
  eapply exchange_delivers; [exact CL|..]; try done. by destruct client.
Qed.

End theory.

(** ** Associated data *)

Record hashed (cx : EnvelopeContextV1) : Prop := {
  hs_policy : zlen (cx_EffectivePolicyHash cx) = 32;
  hs_transcript : zlen (cx_TranscriptHash cx) = 32;
  hs_capability : zlen (cx_CapabilityHash cx) = 32;
  hs_profile : zlen (cx_ProfileHash cx) = 32;
  hs_framing : zlen (cx_FramingHash cx) = 32;
  hs_carrier : zlen (cx_CarrierContextHash cx) = 32;
}.

Record typedRecord (r : EnvelopeRecordV1) : Prop := {
  tr_type : u16 (er_RecordType r);
  tr_epoch : u64 (er_Epoch r);
  tr_direction : u16 (er_Direction r);
  tr_slot : u16 (er_Slot r);
  tr_sequence : u64 (er_Sequence r);
  tr_length : u32 (er_SealedLength r);
}.

Lemma class_range c st : 0 <= classOrZero c st < 256 ^ Z.of_nat 2.
Proof.
  unfold classOrZero, ExpectedClassV1, RecordClassApplicationV1, RecordClassSyntheticV1. destruct (es_destroyed st); [cbn; lia|]. cbn [reject rbind].
  destruct (mem _ _); [cbn; lia|]. case_bool_decide; cbn; lia.
Qed.

Lemma zlen_fullHashes c : hashed (ec_context c) ->
  zlen (fullHashes c) = if fullMode (ec_context c) then 128 else 0.
Proof.
  intros []. unfold fullHashes. destruct (fullMode _); [|done]. by rewrite !zlen_app, hs_capability0, hs_profile0, hs_framing0, hs_carrier0.
Qed.

(** The fields of the records and contexts two encodings agree on. *)
Record sameHeader (c c' : EnvelopeCodecV1) (st st' : strictEnvelopeStateV1) (r r' : EnvelopeRecordV1) : Prop := {
  sh_type : er_RecordType r = er_RecordType r';
  sh_epoch : er_Epoch r = er_Epoch r';
  sh_direction : er_Direction r = er_Direction r';
  sh_slot : er_Slot r = er_Slot r';
  sh_sequence : er_Sequence r = er_Sequence r';
  sh_class : classOrZero c st = classOrZero c' st';
  sh_policy : cx_EffectivePolicyHash (ec_context c) = cx_EffectivePolicyHash (ec_context c');
  sh_transcript : cx_TranscriptHash (ec_context c) = cx_TranscriptHash (ec_context c');
  sh_hashes : fullHashes c = fullHashes c';
}.

(** Peels the next fixed-width integer or hash off both sides. *)
Ltac peel H E :=
  first [apply put_be_app_inj in H as [E H]; [|by first [apply class_range | apply tr_type | apply tr_epoch
           | apply tr_direction | apply tr_slot | apply tr_sequence | apply tr_length]..]
        |apply bytes_app_inj in H as [E H];
           [|by rewrite ?hs_policy, ?hs_transcript, ?zlen_fullHashes by done]].

Lemma applicationAAD_inj c c' st st' r r' : hashed (ec_context c) -> hashed (ec_context c') ->
  typedRecord r -> typedRecord r' -> er_RecordType r = er_RecordType r' ->
  writeApplicationAADV1 c st r = writeApplicationAADV1 c' st' r' ->
  sameHeader c c' st st' r r' /\ er_SealedLength r = er_SealedLength r'.
Proof.
  intros Hc Hc' Hr Hr' Et HA. unfold writeApplicationAADV1 in HA.
  apply app_inv_head in HA. apply app_inv_head in HA.
  peel HA E1. peel HA E2. peel HA E3. peel HA E4. peel HA E5. peel HA E6. peel HA E7. peel HA E8. done.
Qed.

Lemma controlAAD_inj c c' st st' r r' a a' : hashed (ec_context c) -> hashed (ec_context c') ->
  typedRecord r -> typedRecord r' -> fullMode (ec_context c) = fullMode (ec_context c') ->
  er_RecordType r <> 1 -> er_RecordType r' <> 1 -> aadV1 c st r a = aadV1 c' st' r' a' ->
  sameHeader c c' st st' r r' /\ a = a'.
Proof.
  intros Hc Hc' Hr Hr' Hf Ht Ht' HA. unfold aadV1 in HA.
  destruct (Z.eqb_spec (er_RecordType r) 1), (Z.eqb_spec (er_RecordType r') 1); try done. cbv zeta in HA.
  apply app_inv_head in HA. peel HA E1. peel HA E2. peel HA E3. peel HA E4. peel HA E5. peel HA E6. peel HA E7. peel HA E8.
  apply bytes_app_inj in HA as [E9 HA]; [|by rewrite !zlen_fullHashes, Hf]. done.
Qed.

(** Context binding: two records have the same associated data only when
    they agree on record type, class, epoch, direction, slot, sequence,
    effective policy and transcript hashes, in the full mode also on the
    capability, profile, framing and carrier hashes, and on the sealed length
    (application records) or the caller's extra data (control records). *)
Theorem envelope_aad_binds c c' st st' r r' a a' : hashed (ec_context c) -> hashed (ec_context c') ->
  typedRecord r -> typedRecord r' -> fullMode (ec_context c) = fullMode (ec_context c') ->
  aadV1 c st r a = aadV1 c' st' r' a' ->
  sameHeader c c' st st' r r' /\
  if er_RecordType r =? 1 then er_SealedLength r = er_SealedLength r' else a = a'.
Proof.
  intros Hc Hc' Hr Hr' Hf HA. destruct (Z.eqb_spec (er_RecordType r) 1) as [E|E], (Z.eqb_spec (er_RecordType r') 1) as [E'|E'].
  - unfold aadV1 in HA. rewrite E, E' in HA. apply applicationAAD_inj; [done..|congruence|done].
  - unfold aadV1 in HA. rewrite E in HA. rewrite (proj2 (Z.eqb_neq _ _) E') in HA. by injection HA.
  - unfold aadV1 in HA. rewrite E' in HA. rewrite (proj2 (Z.eqb_neq _ _) E) in HA. by injection HA.
  - by apply controlAAD_inj.
Qed.

(** ** Destruction *)


Section destruction.
Context `{Cipher}.


End destruction.

(** ** A concrete pair of codecs *)

(** A sealed text is the text and sixteen bytes of its nonce. *)
Definition toyTag (nonce : bytes) : bytes := take 16 (nonce ++ replicate 16 Byte.x00).

Definition toyCipher : Cipher := {|
  aeadSeal := fun _ nonce p _ => p ++ toyTag nonce;
  aeadOpen := fun _ nonce ct _ =>
    let p := take (length ct - 16) ct in
    if bool_decide (ct = p ++ toyTag nonce) then Some p else None;
|}.

Lemma length_toyTag nonce : length (toyTag nonce) = 16%nat.
Proof. unfold toyTag. rewrite length_take, length_app, length_replicate. lia. Qed.

Lemma toyCipher_laws : CipherLaws toyCipher.
Proof.
  constructor; cbn; intros k n p a.
  - rewrite zlen_app. unfold zlen at 2. by rewrite length_toyTag.
  - assert (take (length (p ++ toyTag n) - 16) (p ++ toyTag n) = p) as ->.
    { rewrite length_app, length_toyTag, Nat.add_sub. apply take_app_length. }
    by rewrite bool_decide_eq_true_2.
Qed.

Definition samplePolicy : EffectiveSecurityPolicy :=
  mkEffectiveSecurityPolicy "p" "h" "1" "1" "1" "1" "full" "hkdf_sha256" "aead_aes_256_gcm" "hmac_sha256"
    NonceModeCounterXORBaseV1 ReplayPolicyWindowedReplayV1 64 "fail_closed" "strict" "strict" "none" "strict"
    "metadata_authenticated" 0 0 [] [] [] (replicate 32 Byte.x01).

Definition sampleContext : EnvelopeContextV1 :=
  let h := replicate 32 Byte.x07 in mkEnvelopeContext samplePolicy 4096 h h h h h h.

Definition emptyCodec : EnvelopeCodecV1 * strictEnvelopeStateV1 :=
  (mkEnvelopeCodec zeroContext 0 None None, mkEnvState ∅ None false false false true [] []).

Definition sampleCodec (client bounded : bool) : EnvelopeCodecV1 * strictEnvelopeStateV1 :=
  match newRoleEnvelopeV1 (fun _ => 8) toySchedule sampleContext client bounded with
  | Ok p => p
  | Err _ => emptyCodec
  end.

Lemma sampleCodec_ok client bounded :
  newRoleEnvelopeV1 (fun _ => 8) toySchedule sampleContext client bounded = Ok (sampleCodec client bounded).
Proof. destruct client, bounded; vm_compute; reflexivity. Qed.

Definition sampleMessages : list message :=
  [mkMessage nonceApplicationRecordV1 1 5 [Byte.x41; Byte.x42] [];
   mkMessage nonceControlRecordV1 3 0 [Byte.x43] [Byte.x01];
   mkMessage nonceApplicationRecordV1 1 5 [] []].

Lemma sampleMessages_valid : Forall (validMessage sampleContext) sampleMessages.
Proof.
  repeat constructor; cbn; unfold Overhead, nonceApplicationRecordV1, nonceControlRecordV1, zlen; cbn; lia.
Qed.

(** The first record the sample client seals, and its replay. *)
Definition sampleRecord : EnvelopeRecordV1 :=
  match snd (@sealV1 toyCipher (fst (sampleCodec true true)) (snd (sampleCodec true true))
               nonceApplicationRecordV1 1 5 (mkSlice 0 [Byte.x41]) []) with
  | Ok r => r
  | Err _ => mkRecord 0 0 0 0 0 0 []
  end.

Definition sampleOps : list envOp :=
  [OpSeal None nonceApplicationRecordV1 1 5 (mkSlice 0 [Byte.x41]) [];
   OpSeal (Some (mkSlice 100 (replicate 20 Byte.x00))) nonceApplicationRecordV1 1 6 (mkSlice 0 [Byte.x42]) [];
   OpOpen nonceApplicationRecordV1 sampleRecord [];
   OpAuthenticate None nonceApplicationRecordV1 sampleRecord 0 [];
   OpOpen nonceApplicationRecordV1 sampleRecord []].

Lemma sampleOps_typed : Forall typedOp sampleOps.
Proof.
  repeat constructor; cbn [typedOp]; try split; unfold_widths; vm_compute; intuition congruence.
Qed.

Lemma envelope_backends_equal_witness :
  outputs (@envStep toyCipher (fst (sampleCodec true true))) (snd (sampleCodec true true)) sampleOps =
  outputs (@envStep toyCipher (fst (sampleCodec true false))) (snd (sampleCodec true false)) sampleOps.
Proof.
  apply (@envelope_backends_equal toyCipher (fun _ => 8) toySchedule sampleContext true
    (fst (sampleCodec true true)) (snd (sampleCodec true true))
    (fst (sampleCodec true false)) (snd (sampleCodec true false)) sampleOps);
    [rewrite sampleCodec_ok; by destruct (sampleCodec true true)
    |rewrite sampleCodec_ok; by destruct (sampleCodec true false)|apply sampleOps_typed].
Defined.

Lemma envelope_no_replay_witness :
  @delivered toyCipher (fst (sampleCodec false true)) (snd (sampleCodec false true)) sampleOps = [(0, 0)] /\
  NoDup (@delivered toyCipher (fst (sampleCodec false true)) (snd (sampleCodec false true)) sampleOps).
Proof.
  split; [vm_compute; reflexivity|].
  apply (@envelope_no_replay toyCipher (fun _ => 8) toySchedule sampleContext false true
    (fst (sampleCodec false true)) (snd (sampleCodec false true)) sampleOps);
    [rewrite sampleCodec_ok; by destruct (sampleCodec false true)|apply sampleOps_typed].
Defined.

Lemma envelope_nonces_unique_witness :
  let oc := dirConfig toySchedule NonceModeCounterXORBaseV1 true in
  let outs := outputs (@envStep toyCipher (fst (sampleCodec true true))) (snd (sampleCodec true true)) sampleOps in
  length (omap (sealNonce oc) outs) = 2%nat /\ NoDup (omap (sealNonce oc) outs).
Proof.
  intros oc outs. split; [vm_compute; reflexivity|].
  apply (@envelope_nonces_unique toyCipher (fun _ => 8) toySchedule sampleContext true true
    (fst (sampleCodec true true)) (snd (sampleCodec true true)) sampleOps);
    [rewrite sampleCodec_ok; by destruct (sampleCodec true true)|apply sampleOps_typed].
Defined.

Lemma envelope_delivery_witness :
  @exchange toyCipher (fst (sampleCodec true true)) (snd (sampleCodec true true))
    (fst (sampleCodec false false)) (snd (sampleCodec false false)) sampleMessages
  = [Ok [Byte.x41; Byte.x42]; Ok [Byte.x43]; Ok []].
Proof.
  apply (@envelope_delivery toyCipher toyCipher_laws (fun _ => 8) toySchedule sampleContext true true false
    (fst (sampleCodec true true)) (snd (sampleCodec true true))
    (fst (sampleCodec false false)) (snd (sampleCodec false false)) sampleMessages);
    [rewrite sampleCodec_ok; by destruct (sampleCodec true true)
    |cbn [negb]; rewrite sampleCodec_ok; by destruct (sampleCodec false false)
    |unfold_widths; cbn; lia|apply sampleMessages_valid|vm_compute; discriminate].
Defined.

Lemma envelope_aad_binds_witness :
  let c := fst (sampleCodec true true) in let st := snd (sampleCodec true true) in
  aadV1 c st (mkRecord 1 0 1 5 0 17 []) [] <> aadV1 c st (mkRecord 1 0 1 5 1 17 []) [].
Proof.
  intros c st HA.
  assert (HT : forall s, (s = 0 \/ s = 1) -> typedRecord (mkRecord 1 0 1 5 s 17 []))
    by (intros s Hs; constructor; unfold_widths; cbn; lia).
  assert (HC : hashed (ec_context c)) by (constructor; vm_compute; reflexivity).
  destruct (envelope_aad_binds c c st st (mkRecord 1 0 1 5 0 17 []) (mkRecord 1 0 1 5 1 17 []) [] [])
    as [[] _]; [exact HC|exact HC|apply HT; by left|apply HT; by right|done|exact HA|].
  discriminate sh_sequence0.
Defined.


