(* ===== verification/Context.v ===== *)
(** * Session contexts and the legacy envelope

    [src/internal/crypto/security/context.go], the JSON transcript of
    [transcript.go], [invariants.go] and the [EnvelopeCodec] of [envelope.go].
    Identity errors are [ContextIdentity]; other errors of the package are
    [Other]. AES-256-GCM is [Cipher], with [AEADError] for its failure. *)

From S2P Require Import Prelude GoBytes GoJson SecurityErrors KeySchedule Nonce Replay Ir Validate Negotiate Transcript Envelope EnvelopeFacts.
From Stdlib Require Import ZArith Lia Strings.Byte.
From stdpp Require Import base list gmap strings sorting.
Local Open Scope Z_scope.

Inductive context_error :=
  | ContextIdentity (field reason : string)
  | Other (e : error)
  | AEADError.

Record SecurityContext := mkContext {
  sx_ProfileID : string;
  sx_ProfileHash : string;
  sx_SessionID : string;
  sx_TranscriptHash : string;
  sx_CapabilityHash : string;
  sx_CarrierBinding : string;
  sx_StreamBinding : string;
  sx_ProxyBinding : string;
  sx_Suite : Suite;
}.

Record TranscriptInput := mkTranscriptInput {
  ti_ProfileID : string;
  ti_ProfileHash : string;
  ti_CompilerHash : string;
  ti_SemanticMappingHash : string;
  ti_FSMPolicy : string;
  ti_FramingPolicy : string;
  ti_SchedulerPolicy : string;
  ti_PaddingPolicy : string;
  ti_StreamPolicy : string;
  ti_ProxyPolicy : string;
  ti_CarrierPolicy : string;
  ti_Capabilities : list string;
  ti_SessionNonce : bytes;
  ti_Suite : Suite;
  ti_OrderedStatePath : list string;
  ti_AdditionalPolicyData : gmap string string;
}.

(** ** Identity checks *)

Definition identityEqual (a b : string) : bool := (slen a =? slen b) && bool_decide (sbytes a = sbytes b).

Definition validateIdentityText (field value : string) : result context_error unit :=
  fail? bool_decide (value = "") with ContextIdentity field "empty" in
  fail? 512 <? slen value with ContextIdentity field "wrong_length" in
  forRange (sbytes value) (fun b =>
    reject ((bz b <? 33) || (126 <? bz b)) (ContextIdentity field "malformed")).

Definition validateHashIdentity (field value : string) : result context_error unit :=
  fail? bool_decide (value = "") with ContextIdentity field "empty" in
  fail? negb (slen value =? 64) with ContextIdentity field "wrong_length" in
  match decodeHex (sbytes value) with
  | None => Err (ContextIdentity field "malformed")
  | Some raw =>
      fail? negb (zlen raw =? 32) with ContextIdentity field "malformed" in
      fail? negb (identityEqual value (EncodeToString raw)) with ContextIdentity field "malformed" in
      reject (allZero32 raw) (ContextIdentity field "all_zero")
  end.

(** ** Hashes over JSON *)

Section hashing.
Context `{Encoding}.

Definition hashStrings (parts : list string) : string := EncodeToString (sum256 (jsonStrings parts)).

Definition contextSessionID (ctx : SecurityContext) : string :=
  hashStrings ["kurdistan-session-v1"; sx_ProfileID ctx; sx_ProfileHash ctx; sx_TranscriptHash ctx;
    sx_CapabilityHash ctx; sx_CarrierBinding ctx; sx_StreamBinding ctx; sx_ProxyBinding ctx;
    KDF (sx_Suite ctx); AEAD (sx_Suite ctx); MAC (sx_Suite ctx); Transcript (sx_Suite ctx)].

Definition ValidateContextIdentity (ctx : SecurityContext) : result context_error unit :=
  let? _ := validateIdentityText "profile_id" (sx_ProfileID ctx) in
  let? _ := forRange [("profile_hash", sx_ProfileHash ctx); ("session_id", sx_SessionID ctx);
                      ("transcript_hash", sx_TranscriptHash ctx); ("capability_hash", sx_CapabilityHash ctx)]
              (fun '(field, value) => validateHashIdentity field value) in
  let? _ := forRange [("carrier_binding", sx_CarrierBinding ctx); ("stream_binding", sx_StreamBinding ctx);
                      ("proxy_binding", sx_ProxyBinding ctx)]
              (fun '(field, value) => validateIdentityText field value) in
  fail? negb (SuiteSupported (sx_Suite ctx)) with ContextIdentity "suite" "unknown" in
  reject (negb (identityEqual (sx_SessionID ctx) (contextSessionID ctx))) (ContextIdentity "session_id" "inconsistent").

Definition suiteJSON (s : Suite) : bytes :=
  jsonObject [("kdf", jsonString (KDF s)); ("aead", jsonString (AEAD s)); ("mac", jsonString (MAC s));
              ("transcript", jsonString (Transcript s))].

Definition transcriptDomain : string := "kurdistan-transcript-v1".

(** A field with [omitempty]. *)
Definition omitEmpty (name : string) (items : list bytes) : list (string * bytes) :=
  match items with [] => [] | _ => [(name, jsonArray items)] end.

Definition CanonicalTranscript (input : TranscriptInput) : result error bytes :=
  fail? bool_decide (ti_ProfileID input = "") || bool_decide (ti_ProfileHash input = "")
      || (zlen (ti_SessionNonce input) =? 0)
    with ErrInvalidTranscript "missing profile, hash, or nonce" in
  let? caps := canonicalCapabilities (ti_Capabilities input) in
  let data := ti_AdditionalPolicyData input in
  let keys := sortStrings (fst <$> map_to_list data) in
  let additional := (fun key => jsonObject [("key", jsonString key); ("value", jsonString (mapGet data key))]) <$> keys in
  Ok (jsonObject (
    [("version", jsonString SupportedSecurityVersion); ("domain", jsonString transcriptDomain);
     ("profile_id", jsonString (ti_ProfileID input)); ("profile_hash", jsonString (ti_ProfileHash input));
     ("compiler_hash", jsonString (ti_CompilerHash input));
     ("semantic_mapping_hash", jsonString (ti_SemanticMappingHash input));
     ("fsm_policy", jsonString (ti_FSMPolicy input)); ("framing_policy", jsonString (ti_FramingPolicy input));
     ("scheduler_policy", jsonString (ti_SchedulerPolicy input));
     ("padding_policy", jsonString (ti_PaddingPolicy input)); ("stream_policy", jsonString (ti_StreamPolicy input));
     ("proxy_policy", jsonString (ti_ProxyPolicy input)); ("carrier_policy", jsonString (ti_CarrierPolicy input));
     ("capabilities", jsonStrings caps);
     ("session_nonce_hex", jsonString (EncodeToString (ti_SessionNonce input)));
     ("suite", suiteJSON (ti_Suite input))]
    ++ omitEmpty "ordered_state_path" (jsonString <$> ti_OrderedStatePath input)
    ++ omitEmpty "additional_policy_data" additional)).

Definition TranscriptHash (input : TranscriptInput) : result error string :=
  let? raw := CanonicalTranscript input in
  Ok (EncodeToString (sum256 raw)).

Definition BuildContext (input : TranscriptInput) : result context_error SecurityContext :=
  let? _ := validateIdentityText "profile_id" (ti_ProfileID input) in
  let? _ := validateHashIdentity "profile_hash" (ti_ProfileHash input) in
  let? _ := forRange [("carrier_binding", ti_CarrierPolicy input); ("stream_binding", ti_StreamPolicy input);
                      ("proxy_binding", ti_ProxyPolicy input)]
              (fun '(field, value) => validateIdentityText field value) in
  fail? negb (SuiteSupported (ti_Suite input)) with ContextIdentity "suite" "unknown" in
  let? transcriptHash := map_err Other (TranscriptHash input) in
  let? capabilityHash := map_err Other (Hash (mkCapabilities (ti_Capabilities input))) in
  let ctx sessionID := mkContext (ti_ProfileID input) (ti_ProfileHash input) sessionID transcriptHash capabilityHash
                         (ti_CarrierPolicy input) (ti_StreamPolicy input) (ti_ProxyPolicy input) (ti_Suite input) in
  let ctx := ctx (contextSessionID (ctx "")) in
  let? _ := ValidateContextIdentity ctx in
  Ok ctx.

End hashing.

(** ** Secret scanning *)

Definition containsAt (raw needle : bytes) (i : nat) : bool := bool_decide (take (length needle) (drop i raw) = needle).

Definition containsBytes (raw needle : bytes) : bool :=
  if (zlen needle =? 0) || (zlen raw <? zlen needle) then false
  else existsb (containsAt raw needle) (seq 0 (length raw - length needle + 1)).

Definition TraceHasSecretCandidate (raw : bytes) (forbidden : list bytes) : bool :=
  existsb (fun item => negb (zlen item =? 0) && containsBytes raw item) forbidden.

(** ** The legacy envelope codec *)

Record SecureEnvelope := mkSecureEnvelope {
  se_Sequence : Z;
  se_StreamID : Z;
  se_Semantic : string;
  se_CarrierFamily : string;
  se_TranscriptHash : string;
  se_CapabilityHash : string;
  se_Nonce : bytes;
  se_Ciphertext : bytes;
  se_CiphertextBytes : Z;
  se_AuthTagBytes : Z;
  se_MetadataClass : string;
}.

Record EnvelopeMetadata := mkEnvelopeMetadata {
  em_StreamID : Z; em_Semantic : string; em_CarrierFamily : string; em_MetadataClass : string }.

Record EnvelopeCodec := mkLegacyCodec {
  lc_ctx : SecurityContext;
  lc_key : bytes;
  lc_nonces : Nonce.Legacy.NonceManager;
  lc_replay : Replay.Legacy.ReplayWindow;
}.

Definition envelopeAAD (env : SecureEnvelope) : bytes :=
  jsonObject [("sequence", jsonNat (se_Sequence env)); ("stream_id", jsonNat (se_StreamID env));
    ("semantic", jsonString (se_Semantic env)); ("carrier_family", jsonString (se_CarrierFamily env));
    ("transcript_hash", jsonString (se_TranscriptHash env)); ("capability_hash", jsonString (se_CapabilityHash env));
    ("metadata_class", jsonString (se_MetadataClass env))].

Section legacy.
Context `{Encoding} `{Primitives} `{Cipher}.

Definition NewEnvelopeCodec (ctx : SecurityContext) (keys : KeySchedule) (direction : string)
    : result context_error EnvelopeCodec :=
  let? _ := ValidateContextIdentity ctx in
  fail? negb (SuiteSupported (ks_Suite keys)) || negb (bool_decide (ks_Suite keys = sx_Suite ctx))
    with ContextIdentity "suite" "inconsistent" in
  let? (key, base) :=
    (if bool_decide (direction = "server") then Ok (ServerWriteKey keys, ServerNonceBase keys)
     else if bool_decide (direction = "client") then Ok (ClientWriteKey keys, ClientNonceBase keys)
     else Err (ContextIdentity "direction" "unknown")) in
  fail? negb (zlen key =? 32) with Other (ErrInvalidConfig "invalid key length") in
  Ok (mkLegacyCodec ctx key (Nonce.Legacy.NewNonceManager direction base "directional_counter")
        (Replay.Legacy.NewReplayWindow "windowed_replay" 64)).

Definition setNonceManager (c : EnvelopeCodec) (n : Nonce.Legacy.NonceManager) : EnvelopeCodec :=
  mkLegacyCodec (lc_ctx c) (lc_key c) n (lc_replay c).
Definition setReplayWindow (c : EnvelopeCodec) (r : Replay.Legacy.ReplayWindow) : EnvelopeCodec :=
  mkLegacyCodec (lc_ctx c) (lc_key c) (lc_nonces c) r.

Definition Seal (c : EnvelopeCodec) (meta : EnvelopeMetadata) (plaintext : bytes)
    : EnvelopeCodec * result context_error SecureEnvelope :=
  match (let? _ := validateIdentityText "semantic" (em_Semantic meta) in
         validateIdentityText "carrier_binding" (em_CarrierFamily meta)) with
  | Err e => (c, Err e)
  | Ok _ =>
      let '(nonces, r) := Nonce.Legacy.Next (lc_nonces c) in
      (setNonceManager c nonces,
       let? (nonce, seq) := map_err Other r in
       let env := mkSecureEnvelope seq (em_StreamID meta) (em_Semantic meta) (em_CarrierFamily meta)
                    (sx_TranscriptHash (lc_ctx c)) (sx_CapabilityHash (lc_ctx c)) nonce [] 0 Overhead
                    (em_MetadataClass meta) in
       let ct := aeadSeal (lc_key c) nonce plaintext (envelopeAAD env) in
       Ok (mkSecureEnvelope seq (em_StreamID meta) (em_Semantic meta) (em_CarrierFamily meta)
             (sx_TranscriptHash (lc_ctx c)) (sx_CapabilityHash (lc_ctx c)) nonce ct (zlen ct) Overhead
             (em_MetadataClass meta)))
  end.

Definition Open (c : EnvelopeCodec) (env : SecureEnvelope) : EnvelopeCodec * result context_error bytes :=
  let checks :=
    let? _ := validateHashIdentity "transcript_hash" (se_TranscriptHash env) in
    let? _ := validateHashIdentity "capability_hash" (se_CapabilityHash env) in
    let? _ := validateIdentityText "semantic" (se_Semantic env) in
    let? _ := validateIdentityText "carrier_binding" (se_CarrierFamily env) in
    fail? negb (identityEqual (se_TranscriptHash env) (sx_TranscriptHash (lc_ctx c)))
      with Other ErrTranscriptMismatch in
    fail? negb (identityEqual (se_CapabilityHash env) (sx_CapabilityHash (lc_ctx c)))
      with Other ErrCapabilityMismatch in
    fail? negb (zlen (se_Nonce env) =? 12) || (zlen (se_Ciphertext env) =? 0)
      with Other (ErrEnvelopeRejected "malformed envelope") in
    let? _ := map_err Other (Replay.Legacy.precheck (lc_replay c) (se_Sequence env)) in
    match aeadOpen (lc_key c) (se_Nonce env) (se_Ciphertext env) (envelopeAAD env) with
    | None => Err AEADError
    | Some plaintext => Ok plaintext
    end in
  match checks with
  | Err e => (c, Err e)
  | Ok plaintext =>
      let '(replay, r) := Replay.Legacy.commit (lc_replay c) (se_Sequence env) in
      (setReplayWindow c replay, let? _ := map_err Other r in Ok plaintext)
  end.

End legacy.

(** ** Session identities *)

Lemma identityEqual_true a b : identityEqual a b = true -> a = b.
Proof. unfold identityEqual. intros [_ E%bool_decide_eq_true]%andb_true_iff. by apply sbytes_inj. Qed.

Lemma identityText_ascii field v : validateIdentityText field v = Ok tt -> asciiText (sbytes v).
Proof.
  unfold validateIdentityText. intros HV. go_inv HV. apply forRange_ok in HV.
  eapply Forall_impl; [exact HV|]. cbv beta. intros b Hb%reject_ok.
  apply orb_false_iff in Hb as [_ Hb%Z.ltb_ge]. lia.
Qed.

Lemma hexDigit_ascii n : 0 <= n < 16 -> bz (hexDigit n) < 128.
Proof. intros Hn. unfold hexDigit. rewrite bz_zb_small; destruct (Z.ltb_spec n 10); lia. Qed.

Lemma encode_ascii b : asciiText (sbytes (EncodeToString b)).
Proof.
  unfold EncodeToString. rewrite sbytes_bstring. induction b as [|x b IH]; [constructor|].
  cbn [fmap list_fmap concat app]. pose proof (bz_range x).
  pose proof (Z.mod_pos_bound (bz x) 16 ltac:(lia)). pose proof (Z.div_pos (bz x) 16 ltac:(lia) ltac:(lia)).
  pose proof (Z.div_lt_upper_bound (bz x) 16 16 ltac:(lia) ltac:(lia)).
  constructor; [apply hexDigit_ascii; lia|]. constructor; [apply hexDigit_ascii; lia|done].
Qed.

Lemma encode_inj a b : EncodeToString a = EncodeToString b -> a = b.
Proof. intros E. pose proof (decodeHex_encode a) as HA. rewrite E, decodeHex_encode in HA. congruence. Qed.

(** A hash identity is the canonical hex form of a non-zero digest. *)
Lemma hashIdentity_ok field v : validateHashIdentity field v = Ok tt ->
  exists raw, v = EncodeToString raw /\ zlen raw = 32 /\ allZero32 raw = false.
Proof.
  unfold validateHashIdentity. intros HV. go_inv HV. destruct (decodeHex (sbytes v)) as [raw|]; [|done].
  go_inv HV. exists raw. apply negb_false_iff in G1, G2. apply Z.eqb_eq in G1. by apply identityEqual_true in G2.
Qed.

Lemma hashIdentity_ascii field v : validateHashIdentity field v = Ok tt -> asciiText (sbytes v).
Proof. intros (raw & -> & _)%hashIdentity_ok. apply encode_ascii. Qed.

Section identity.
Context `{Encoding}.

Lemma contextIdentity_ok ctx : ValidateContextIdentity ctx = Ok tt ->
  Forall (fun s => asciiText (sbytes s)) [sx_ProfileID ctx; sx_ProfileHash ctx; sx_TranscriptHash ctx;
    sx_CapabilityHash ctx; sx_CarrierBinding ctx; sx_StreamBinding ctx; sx_ProxyBinding ctx] /\
  validateHashIdentity "transcript_hash" (sx_TranscriptHash ctx) = Ok tt /\
  validateHashIdentity "capability_hash" (sx_CapabilityHash ctx) = Ok tt /\
  sx_Suite ctx = DefaultSuite /\ sx_SessionID ctx = contextSessionID ctx.
Proof using Type.
  unfold ValidateContextIdentity. intros HV. go_inv HV. destruct x, x0, x1.
  apply negb_false_iff, bool_decide_eq_true in G. apply negb_false_iff, identityEqual_true in HV.
  apply forRange_ok in E0, E1. rewrite !Forall_cons in E0. rewrite !Forall_cons in E1.
  destruct E0 as (A1 & A2 & A3 & A4 & _), E1 as (B1 & B2 & B3 & _). cbv beta iota in *.
  split; [|done]. repeat apply Forall_cons_2; try apply Forall_nil_2;
    first [by eapply identityText_ascii | by eapply hashIdentity_ascii].
Qed.

(** A session identifier names one context: two contexts that pass the
    identity checks and have the same session id are equal in every field, or
    SHA-256 has a collision. *)
Theorem session_id_binds ctx ctx' : ValidateContextIdentity ctx = Ok tt -> ValidateContextIdentity ctx' = Ok tt ->
  sx_SessionID ctx = sx_SessionID ctx' -> ctx = ctx' \/ exists x y, x <> y /\ sum256 x = sum256 y.
Proof using Type.
  intros (A1 & _ & _ & A2 & A3)%contextIdentity_ok (B1 & _ & _ & B2 & B3)%contextIdentity_ok HE.
  pose proof HE as HS. rewrite A3, B3 in HE. unfold contextSessionID, hashStrings in HE. apply encode_inj in HE.
  rewrite A2, B2 in HE.
  set (tail := [KDF DefaultSuite; AEAD DefaultSuite; MAC DefaultSuite; Transcript DefaultSuite]) in HE.
  match type of HE with sum256 (jsonStrings ?x) = sum256 (jsonStrings ?y) =>
    destruct (decide (jsonStrings x = jsonStrings y)) as [HJ|HJ]; [|right; by exists (jsonStrings x), (jsonStrings y)] end.
  left. assert (HT : Forall (fun s => asciiText (sbytes s)) ("kurdistan-session-v1" :: tail))
    by (repeat constructor).
  apply Forall_cons_1 in HT as [HL HT].
  assert (HF : forall l, Forall (fun s => asciiText (sbytes s)) l ->
    Forall (fun s => asciiText (sbytes s)) ("kurdistan-session-v1" :: l ++ tail)).
  { intros l Hl. constructor; [done|]. by apply Forall_app. }
  apply HF in A1. apply HF in B1.
  destruct (jsonStrings_inj _ _ [] [] A1 B1) as [E _]; [by rewrite !app_nil_r|].
  cbn [app] in E. injection E as E1 E2 E3 E4 E5 E6 E7. destruct ctx, ctx'. cbn in *. congruence.
Qed.
End identity.

(** ** Secret scanning *)


Lemma containsBytes_iff raw needle : containsBytes raw needle = true <->
  needle <> [] /\ exists a b, raw = a ++ needle ++ b.
Proof.
  unfold containsBytes, containsAt. destruct (Z.eqb_spec (zlen needle) 0) as [E|E]; cbn [orb].
  { split; [done|]. intros [Hn _]. by destruct needle. }
  assert (Hn : needle <> []) by (by intros ->). destruct (Z.ltb_spec (zlen raw) (zlen needle)) as [HL|HL].
  { split; [done|]. intros (_ & a & b & ->). rewrite !zlen_app in HL. pose proof (zlen_nonneg a). pose proof (zlen_nonneg b). lia. }
  rewrite existsb_exists. split.
  - intros (i & Hi & HB%bool_decide_eq_true). split; [done|]. exists (take i raw), (drop (length needle) (drop i raw)).
    rewrite <- (take_drop i raw) at 1. f_equal. rewrite <- (take_drop (length needle) (drop i raw)) at 1. by rewrite HB.
  - intros (_ & a & b & ->). exists (length a). split.
    + apply in_seq. rewrite !length_app. lia.
    + apply bool_decide_eq_true. by rewrite drop_app_length, take_app_length.
Qed.

(** The secret scan is exact: it reports a trace exactly when some non-empty
    forbidden value occurs in it as a contiguous run of bytes. *)
Theorem secret_scan_exact raw forbidden : TraceHasSecretCandidate raw forbidden = true <->
  exists item a b, item ∈ forbidden /\ item <> [] /\ raw = a ++ item ++ b.
Proof.
  unfold TraceHasSecretCandidate. rewrite existsb_exists. split.
  - intros (item & Hi%list_elem_of_In & [_ (Hn & a & b & ->)%containsBytes_iff]%andb_true_iff). by exists item, a, b.
  - intros (item & a & b & Hi%list_elem_of_In & Hn & ->). exists item. split; [done|]. apply andb_true_iff. split.
    + apply negb_true_iff, Z.eqb_neq. by destruct item.
    + apply containsBytes_iff. split; [done|]. by exists a, b.
Qed.

(** ** Delivery over the legacy codec *)

Section delivery.
Context `{Encoding} `{Primitives} `{Cipher} (CL : CipherLaws _).

(** One codec seals, the other opens at once. *)
Fixpoint legacyExchange (c d : EnvelopeCodec) (msgs : list (EnvelopeMetadata * bytes))
    : list (result context_error bytes) :=
  match msgs with
  | [] => []
  | (meta, plaintext) :: rest =>
      let '(c', r) := Seal c meta plaintext in
      match r with
      | Err e => Err e :: legacyExchange c' d rest
      | Ok env => let '(d', o) := Open d env in o :: legacyExchange c' d' rest
      end
  end.

Definition validMeta (m : EnvelopeMetadata * bytes) : Prop :=
  validateIdentityText "semantic" (em_Semantic (fst m)) = Ok tt /\
  validateIdentityText "carrier_binding" (em_CarrierFamily (fst m)) = Ok tt.

(** The receiver's window after the first [n] records arrived in order. *)
Record caughtUp (r : Replay.Legacy.ReplayWindow) (n : Z) : Prop := {
  cu_policy : Replay.Legacy.Policy r = "windowed_replay";
  cu_window : Replay.Legacy.WindowSize r = 64;
  cu_highest : Replay.Legacy.highest r = n;
  cu_seen : forall s, s ∈ Replay.Legacy.seen r -> s <= n;
}.

Lemma caughtUp_commit r n : caughtUp r n -> 0 <= n -> n + 65 < 2 ^ 64 ->
  exists r', Replay.Legacy.commit r (n + 1) = (r', Ok tt) /\ caughtUp r' (n + 1) /\
    Replay.Legacy.precheck r (n + 1) = Ok tt.
Proof using Type.
  intros [C1 C2 C3 C4] Hn Hlt.
  assert (HC : Replay.Legacy.checkLocked r (n + 1) = Ok tt).
  { unfold Replay.Legacy.checkLocked. rewrite C1, C2, C3.
    destruct (Z.eqb_spec (n + 1) 0); [lia|]. rewrite bool_decide_eq_false_2 by (intros Hs%C4; lia).
    cbn [reject rbind]. change (mem "windowed_replay" ["ordered_only"; "strict_no_reorder"]) with false.
    change (mem "windowed_replay" ["bounded_reorder"; "windowed_replay"]) with true. cbv iota.
    rewrite !wrap64_small by (unfold_widths; lia).
    destruct (Z.eqb_spec n 0) as [E|E]; [by rewrite E|]. destruct (Z.ltb_spec (n + 64) (n + 1)); [lia|].
    destruct (Z.leb_spec (n + 1 + 64) n); [lia|done]. }
  unfold Replay.Legacy.commit, Replay.Legacy.precheck. rewrite HC, C2, C3.
  destruct (Z.ltb_spec n (n + 1)); [|lia]. eexists. split; [reflexivity|]. split; [|done].
  constructor; cbn; try done. intros s [_ [->%elem_of_singleton|Hs%C4]%elem_of_union]%elem_of_filter; lia.
Qed.

Lemma legacy_nonce n seq : Nonce.Legacy.Mode n = "directional_counter" -> zlen (Nonce.Legacy.Base n) = 12 ->
  exists nonce, Nonce.Legacy.nonceForLocked n seq = Ok nonce /\ zlen nonce = 12.
Proof using Type.
  intros Hm Hb. unfold Nonce.Legacy.nonceForLocked. rewrite Hm. cbn [mem].
  change (mem "directional_counter" ["counter_xor_base"; "directional_counter"; "stream_partitioned_counter"]) with true.
  cbv iota. eexists. split; [reflexivity|]. rewrite Hb.
  assert (HL : zlen (ztake (12 - 8) (Nonce.Legacy.Base n) ++
    xorBytes (zdrop (12 - 8) (Nonce.Legacy.Base n)) (PutUint64 seq)) = 12).
  { unfold zlen, ztake, zdrop, xorBytes, PutUint64 in *.
    rewrite length_app, length_take, length_zip_with, length_drop, length_put_be. lia. }
  case_bool_decide; [|done]. destruct (_ ++ _) as [|b rest]; [done|]. by rewrite zlen_cons in *.
Qed.

Lemma seal_legacy c n meta p : Nonce.Legacy.Mode (lc_nonces c) = "directional_counter" ->
  zlen (Nonce.Legacy.Base (lc_nonces c)) = 12 -> Nonce.Legacy.Counter (lc_nonces c) = n -> 0 <= n < MaxUint64 ->
  validMeta (meta, p) -> exists nonce c',
  let aad := envelopeAAD (mkSecureEnvelope (n + 1) (em_StreamID meta) (em_Semantic meta) (em_CarrierFamily meta)
     (sx_TranscriptHash (lc_ctx c)) (sx_CapabilityHash (lc_ctx c)) nonce [] 0 Overhead (em_MetadataClass meta)) in
  let ct := aeadSeal (lc_key c) nonce p aad in
  Seal c meta p = (c', Ok (mkSecureEnvelope (n + 1) (em_StreamID meta) (em_Semantic meta) (em_CarrierFamily meta)
     (sx_TranscriptHash (lc_ctx c)) (sx_CapabilityHash (lc_ctx c)) nonce ct (zlen ct) Overhead (em_MetadataClass meta))) /\
  zlen nonce = 12 /\ lc_ctx c' = lc_ctx c /\ lc_key c' = lc_key c /\
  Nonce.Legacy.Mode (lc_nonces c') = "directional_counter" /\ zlen (Nonce.Legacy.Base (lc_nonces c')) = 12 /\
  Nonce.Legacy.Counter (lc_nonces c') = n + 1.
Proof using Type.
  intros Hm Hb Hc Hn [V1 V2]. cbn [fst] in V1, V2. unfold Seal. rewrite V1. cbn [rbind]. rewrite V2.
  unfold Nonce.Legacy.Next. rewrite Hc. destruct (Z.eqb_spec n MaxUint64); [lia|]. cbn [Nonce.Legacy.Counter].
  rewrite wrap64_small by (unfold_widths; lia).
  destruct (legacy_nonce (Nonce.Legacy.mkManager (Nonce.Legacy.Direction (lc_nonces c)) (Nonce.Legacy.Base (lc_nonces c))
    (n + 1) (Nonce.Legacy.Mode (lc_nonces c))) (n + 1) Hm Hb) as (nonce & HN & HL).
  rewrite HN. cbn [rbind map_err]. eexists nonce, _. split; [reflexivity|]. done.
Qed.

(** A record that passes the window and the cipher is opened. *)
Lemma open_legacy d n env p : caughtUp (lc_replay d) n -> 0 <= n -> n + 65 < 2 ^ 64 -> se_Sequence env = n + 1 ->
  ValidateContextIdentity (lc_ctx d) = Ok tt -> se_TranscriptHash env = sx_TranscriptHash (lc_ctx d) ->
  se_CapabilityHash env = sx_CapabilityHash (lc_ctx d) ->
  validateIdentityText "semantic" (se_Semantic env) = Ok tt ->
  validateIdentityText "carrier_binding" (se_CarrierFamily env) = Ok tt -> zlen (se_Nonce env) = 12 ->
  zlen (se_Ciphertext env) <> 0 ->
  aeadOpen (lc_key d) (se_Nonce env) (se_Ciphertext env) (envelopeAAD env) = Some p ->
  exists r', Open d env = (setReplayWindow d r', Ok p) /\ caughtUp r' (n + 1).
Proof using Type.
  intros HU Hn Hlt Es (_ & V1 & V2 & _)%contextIdentity_ok Et Ec V3 V4 Hl Hct HO.
  destruct (caughtUp_commit _ n HU Hn Hlt) as (r' & HC & HU' & HP).
  exists r'. split; [|done]. unfold Open. rewrite Et, Ec, V1, V2, V3, V4, Es, HP, HO, Hl, HC. cbn [rbind map_err].
  unfold identityEqual. rewrite !Z.eqb_refl, !bool_decide_eq_true_2 by done.
  rewrite (proj2 (Z.eqb_neq _ _) Hct). done.
Qed.

Lemma legacy_exchange_delivers msgs : forall c d n,
  Nonce.Legacy.Mode (lc_nonces c) = "directional_counter" -> zlen (Nonce.Legacy.Base (lc_nonces c)) = 12 ->
  Nonce.Legacy.Counter (lc_nonces c) = n -> 0 <= n -> caughtUp (lc_replay d) n -> lc_ctx d = lc_ctx c ->
  lc_key d = lc_key c -> ValidateContextIdentity (lc_ctx c) = Ok tt -> Forall validMeta msgs ->
  n + zlen msgs + 64 < 2 ^ 64 -> legacyExchange c d msgs = (Ok ∘ snd) <$> msgs.
Proof using CL.
  induction msgs as [|[meta p] msgs IH]; intros c d n Hm Hb Hc Hn HU Ex Ek HV HM Hlt; [done|].
  apply Forall_cons_1 in HM as [[V1 V2] HM]. rewrite zlen_cons in Hlt. pose proof (zlen_nonneg msgs).
  destruct (seal_legacy c n meta p Hm Hb Hc ltac:(unfold_widths; lia) (conj V1 V2))
    as (nonce & c' & HS & HL & S1 & S2 & S3 & S4 & S5). cbn [legacyExchange fmap list_fmap]. rewrite HS.
  set (env := mkSecureEnvelope _ _ _ _ _ _ nonce (aeadSeal _ _ _ _) _ _ _).
  destruct (open_legacy d n env p HU Hn ltac:(lia)) as (r' & HO & HU'); try done; try (by rewrite Ex).
  { cbn. rewrite seal_length. unfold Overhead. pose proof (zlen_nonneg p). lia. }
  { cbn [env se_Nonce se_Ciphertext]. rewrite Ek. apply open_seal. }
  rewrite HO. f_equal. apply (IH c' (setReplayWindow d r') (n + 1)); cbn [setReplayWindow lc_replay lc_ctx lc_key];
    try done; try lia; congruence.
Qed.

(** Delivery over the legacy envelope: two codecs made from one validated
    context, schedule and direction deliver every message of an in-order
    exchange of fewer than [2^64 - 64] messages with well-formed metadata; in
    the last 64 sequence numbers the window arithmetic of the receiver wraps. *)
Theorem legacy_delivery ctx keys direction c msgs :
  NewEnvelopeCodec ctx keys direction = Ok c ->
  zlen (ClientNonceBase keys) = 12 -> zlen (ServerNonceBase keys) = 12 ->
  Forall validMeta msgs -> zlen msgs + 64 < 2 ^ 64 ->
  legacyExchange c c msgs = (Ok ∘ snd) <$> msgs.
Proof using CL.
  intros HN HB1 HB2 HM Hlt. unfold NewEnvelopeCodec in HN. apply rbind_ok in HN as ([] & HV & HN).
  apply reject_bind_ok in HN as [_ HN]. apply rbind_ok in HN as ([key base] & HK & HN).
  apply reject_bind_ok in HN as [_ HN]. apply Ok_inj in HN as <-.
  assert (HB : zlen base = 12) by (repeat case_bool_decide; by simplify_eq).
  eapply legacy_exchange_delivers with (n := 0); cbn [lc_nonces lc_replay lc_ctx lc_key]; try done.
  - unfold Nonce.Legacy.NewNonceManager. by rewrite HB.
Qed.
End delivery.

Section replay.
Context `{Encoding} `{Primitives} `{Cipher}.

Lemma open_replay c env : let '(c', r) := Open c env in
  match r with
  | Ok _ => Replay.Legacy.commit (lc_replay c) (se_Sequence env) = (lc_replay c', Ok tt)
  | Err _ => c' = c \/ exists e, Replay.Legacy.commit (lc_replay c) (se_Sequence env) = (lc_replay c', Err e)
  end.
Proof using Type.
  unfold Open. cbv zeta. match goal with |- context [match ?x with Ok _ => _ | Err _ => _ end] => destruct x as [p|e] end; [|by left].
  destruct (Replay.Legacy.commit _ _) as [r' [[]|e]] eqn:EC; cbn; [done|]. right. by exists e.
Qed.

Lemma open_accepts_once c acc envs : LegacyFacts.remembers (lc_replay c) acc -> NoDup acc ->
  Forall (fun e => u64 (se_Sequence e)) envs ->
  NoDup (accepted (se_Sequence <$> envs) (outputs Open c envs) ++ acc).
Proof using Type.
  revert c acc. induction envs as [|env envs IH]; intros c acc HR HN HU; [done|].
  apply Forall_cons_1 in HU as [Hu HU]. rewrite outputs_cons. cbn [fmap list_fmap accepted].
  pose proof (open_replay c env) as HO. destruct (Open c env) as [c' r]. cbn [fst snd] in *.
  assert (HC : Replay.Legacy.commit (lc_replay c) (se_Sequence env) = (lc_replay c', Ok tt) ->
    isOk (Replay.Legacy.checkLocked (lc_replay c) (se_Sequence env)) = true).
  { unfold Replay.Legacy.commit. by destruct (Replay.Legacy.checkLocked _ _). }
  destruct r as [p|e]; cbn [isOk].
  - pose proof (LegacyFacts.commit_remembers _ acc _ HR Hu (HC HO)) as HR'. rewrite HO in HR'. cbn [fst] in HR'.
    specialize (IH c' (se_Sequence env :: acc) HR'). rewrite <- Permutation_middle in IH. apply IH; [|done].
    apply NoDup_cons_2; [|done]. intros Hin. specialize (HC HO).
    by rewrite (LegacyFacts.remembered_rejected _ acc _ HR Hin) in HC.
  - apply IH; [|done..]. destruct HO as [->|[e' HO]]; [done|]. unfold Replay.Legacy.commit in HO.
    destruct (Replay.Legacy.checkLocked _ _); [done|]. by injection HO as <- _.
Qed.

(** Each sequence number is opened at most once by a legacy codec, whatever
    envelopes it is given. *)
Theorem legacy_open_once ctx keys direction c envs : NewEnvelopeCodec ctx keys direction = Ok c ->
  Forall (fun e => u64 (se_Sequence e)) envs ->
  NoDup (accepted (se_Sequence <$> envs) (outputs Open c envs)).
Proof using Type.
  intros HN HU. rewrite <- (app_nil_r (accepted _ _)). apply open_accepts_once; [|constructor|done].
  unfold NewEnvelopeCodec in HN. go_inv HN. destruct x0 as [key base]. go_inv HN. apply Ok_inj in HN as <-.
  constructor; cbn; [unfold_widths; lia|by intros s ?%elem_of_nil..].
Qed.
End replay.

(** The legacy window refuses the last sequence numbers: with the highest one
    64 below the top, the next in order counts as too far in the future. *)
Example legacy_window_wraps :
  Replay.Legacy.checkLocked (Replay.Legacy.mkReplayWindow 64 "windowed_replay" (MaxUint64 - 1) ∅) MaxUint64
  = Err (ErrReplay "future sequence outside window").
Proof. reflexivity. Qed.

(** ** Concrete contexts *)

Definition sampleSession : SecurityContext :=
  mkContext "profile" toyHash toyHash toyHash toyHash "carrier" "stream" "proxy" DefaultSuite.

Lemma session_id_binds_witness :
  sampleSession = sampleSession \/ exists x y, x <> y /\ @sum256 toyEncoding x = @sum256 toyEncoding y.
Proof.
  apply (@session_id_binds toyEncoding sampleSession sampleSession); vm_compute; reflexivity.
Defined.

Definition sampleLegacy : EnvelopeCodec :=
  match @NewEnvelopeCodec toyEncoding toyPrimitives sampleSession toySchedule "client" with
  | Ok c => c
  | Err _ => mkLegacyCodec sampleSession [] (Nonce.Legacy.mkManager "" [] 0 "") (Replay.Legacy.NewReplayWindow "" 0)
  end.

Lemma legacy_delivery_witness :
  @legacyExchange toyPrimitives toyCipher sampleLegacy sampleLegacy
    [(mkEnvelopeMetadata 1 "data" "stream_carrier" "", [Byte.x41]); (mkEnvelopeMetadata 2 "close" "stream_carrier" "m", [])]
  = [Ok [Byte.x41]; Ok []].
Proof.
  apply (@legacy_delivery toyEncoding toyPrimitives toyCipher toyCipher_laws sampleSession toySchedule "client" sampleLegacy);
    [vm_compute; reflexivity..|repeat constructor|vm_compute; reflexivity].
Defined.
