(* ===== verification/IpPacket.v ===== *)
(** * IP packets of the tunnel

    [src/internal/runtime/ip_packet_v1.go] and [effectivePacketInfoV1] of
    [production_packet_admission_v1.go]: which packets may enter and leave the
    tunnel. An index expression is read with a default; the length checks before
    it keep it in range, as they do in the source. [netip.Addr] is the zero
    value or an address of four or sixteen bytes. *)

From S2P Require Import Prelude GoBytes.
From Stdlib Require Import ZArith Lia Strings.Byte.
From stdpp Require Import base list strings.
Local Open Scope Z_scope.

Inductive packet_error :=
  | ErrPacketInvalid | ErrPacketFamily | ErrPacketProtocol | ErrPacketSource | ErrPacketDestination
  | ErrPacketFragmented.

Definition DirectionClientV1 : Z := 1.
Definition DirectionRelayV1 : Z := 2.

(** ** Addresses: [net/netip] *)

Inductive Addr := AddrZero | Addr4 (b : bytes) | Addr6 (b : bytes).

#[export] Instance Addr_eq_dec : EqDecision Addr.
Proof. solve_decision. Defined.

Definition byteAt (l : bytes) (i : Z) : Z := match l !! Z.to_nat i with Some b => bz b | None => 0 end.
Definition u16At (l : bytes) (i : Z) : Z := get_be (slice i (i + 2) l).

Definition zeros (n : nat) : bytes := replicate n Byte.x00.

Definition isValid (a : Addr) : bool := match a with AddrZero => false | _ => true end.
Definition is4 (a : Addr) : bool := match a with Addr4 _ => true | _ => false end.
Definition is6 (a : Addr) : bool := match a with Addr6 _ => true | _ => false end.

(** The prefix of IPv4-mapped addresses. *)
Definition mappedPrefix : bytes := zeros 10 ++ [Byte.xff; Byte.xff].
Definition is4In6 (b : bytes) : bool := bool_decide (ztake 12 b = mappedPrefix).
Definition unmap (a : Addr) : Addr :=
  match a with Addr6 b => if is4In6 b then Addr4 (zdrop 12 b) else a | _ => a end.

Definition isUnspecified (a : Addr) : bool :=
  bool_decide (a = Addr4 (zeros 4)) || bool_decide (a = Addr6 (zeros 16)).

Definition isLoopback (a : Addr) : bool :=
  match unmap a with
  | Addr4 b => byteAt b 0 =? 127
  | Addr6 b => bool_decide (b = zeros 15 ++ [Byte.x01])
  | AddrZero => false
  end.

Definition isMulticast (a : Addr) : bool :=
  match unmap a with
  | Addr4 b => Z.land (byteAt b 0) 240 =? 224
  | Addr6 b => byteAt b 0 =? 255
  | AddrZero => false
  end.

Definition isLinkLocalUnicast (a : Addr) : bool :=
  match unmap a with
  | Addr4 b => (byteAt b 0 =? 169) && (byteAt b 1 =? 254)
  | Addr6 b => Z.land (u16At b 0) 65472 =? 65152
  | AddrZero => false
  end.

Definition isLinkLocalMulticast (a : Addr) : bool :=
  match unmap a with
  | Addr4 b => (byteAt b 0 =? 224) && (byteAt b 1 =? 0) && (byteAt b 2 =? 0)
  | Addr6 b => Z.land (u16At b 0) 65295 =? 65282
  | AddrZero => false
  end.

Definition isPrivate (a : Addr) : bool :=
  match unmap a with
  | Addr4 b => (byteAt b 0 =? 10) || ((byteAt b 0 =? 172) && (Z.land (byteAt b 1) 240 =? 16))
               || ((byteAt b 0 =? 192) && (byteAt b 1 =? 168))
  | Addr6 b => Z.land (byteAt b 0) 254 =? 252
  | AddrZero => false
  end.

Definition blockedPacketAddressV1 (address : Addr) : bool :=
  if negb (isValid address) || isUnspecified address || isLoopback address || isMulticast address
     || isLinkLocalUnicast address || isLinkLocalMulticast address || isPrivate address then true
  else match address with
       | Addr4 value => bool_decide (value = replicate 4 Byte.xff) || (byteAt value 0 =? 0)
                        || ((byteAt value 0 =? 100) && (Z.land (byteAt value 1) 192 =? 64))
       | _ => false
       end.

(** ** Checksums *)

(** Sixteen-bit words, and an odd byte as the upper half of the last one. *)
Fixpoint checksumAddBytesV1 (sum : Z) (input : bytes) : Z :=
  match input with
  | a :: b :: rest => checksumAddBytesV1 (wrap32 (sum + get_be [a; b])) rest
  | [a] => wrap32 (sum + Z.shiftl (bz a) 8)
  | [] => sum
  end.

(** [for sum>>16 != 0 { sum = sum&0xffff + sum>>16 }]. *)
Fixpoint foldCarry (fuel : nat) (sum : Z) : Z :=
  match fuel with
  | O => sum
  | S fuel => if Z.shiftr sum 16 =? 0 then sum
              else foldCarry fuel (wrap32 (Z.land sum 65535 + Z.shiftr sum 16))
  end.

Definition carryFuel : nat := 4.

Definition ipv4ChecksumV1 (header : bytes) : Z :=
  65535 - wrap16 (foldCarry carryFuel (checksumAddBytesV1 0 header)).

Definition validIPv4TransportChecksumV1 (source destination : bytes) (protocol : Z) (transport : bytes) : bool :=
  if negb (zlen source =? 4) || negb (zlen destination =? 4) || (zlen transport =? 0) || (65535 <? zlen transport)
  then false
  else
    let sum := checksumAddBytesV1 0 source in
    let sum := checksumAddBytesV1 sum destination in
    let sum := wrap32 (sum + protocol) in
    let sum := wrap32 (sum + wrap32 (zlen transport)) in
    let sum := checksumAddBytesV1 sum transport in
    wrap16 (foldCarry carryFuel sum) =? 65535.

Definition validIPv4UDPChecksumV1 (source destination udp : bytes) : bool :=
  if negb (zlen source =? 4) || negb (zlen destination =? 4) || (zlen udp <? 8) || (65535 <? zlen udp) then false
  else validIPv4TransportChecksumV1 source destination 17 udp.

(** ** Transport classification at the relay *)

Record relayTransportClassificationV1 := mkTransport {
  rt_Version : Z; rt_Protocol : Z; rt_GatewayDNS : bool; rt_ChecksumValid : bool; rt_Malformed : bool }.

Definition equalIPv4BytesV1 (value expected : bytes) : bool :=
  (zlen value =? zlen expected) && (byteAt value 0 =? byteAt expected 0) && (byteAt value 1 =? byteAt expected 1)
  && (byteAt value 2 =? byteAt expected 2) && (byteAt value 3 =? byteAt expected 3).

(** A header whose length fields do not describe the packet. *)
Definition badIPv4Shape (packet : bytes) (headerLength : Z) : bool :=
  (headerLength <? 20) || (60 <? headerLength) || (zlen packet <? headerLength)
  || negb (u16At packet 2 =? zlen packet).

Definition headerLengthOf (packet : bytes) : Z := Z.land (byteAt packet 0) 15 * 4.

Definition classifyRelayTransportV1 (packet dnsIPv4 : bytes) : relayTransportClassificationV1 :=
  if (zlen packet <? 20) || negb (Z.shiftr (byteAt packet 0) 4 =? 4) then mkTransport 0 0 false false true
  else
    let headerLength := headerLengthOf packet in
    let protocol := byteAt packet 9 in
    if badIPv4Shape packet headerLength then mkTransport 4 protocol false false true
    else if negb (protocol =? 17) then mkTransport 4 protocol false false false
    else if zlen packet - headerLength <? 8 then mkTransport 4 protocol false false true
    else
      let udp := zdrop headerLength packet in
      if negb (u16At udp 4 =? zlen udp) then mkTransport 4 protocol false false true
      else
        let gateway := negb (bool_decide (dnsIPv4 = zeros 4)) && equalIPv4BytesV1 (slice 16 20 packet) dnsIPv4
                       && (u16At udp 2 =? 53) in
        let valid := (u16At udp 6 =? 0) || validIPv4UDPChecksumV1 (slice 12 16 packet) (slice 16 20 packet) udp in
        mkTransport 4 protocol gateway valid false.

Record relayReturnTransportClassificationV1 := mkReturnTransport {
  rr_Version : Z; rr_Protocol : Z; rr_PacketBytes : Z; rr_TCP : bool; rr_SYN : bool; rr_ACK : bool; rr_RST : bool;
  rr_FIN : bool; rr_ChecksumValid : bool; rr_Malformed : bool }.

Definition classifyRelayReturnTransportV1 (packet : bytes) : relayReturnTransportClassificationV1 :=
  let n := zlen packet in
  if (n <? 20) || negb (Z.shiftr (byteAt packet 0) 4 =? 4)
  then mkReturnTransport 0 0 n false false false false false false true
  else
    let headerLength := headerLengthOf packet in
    let protocol := byteAt packet 9 in
    if badIPv4Shape packet headerLength then mkReturnTransport 4 protocol n false false false false false false true
    else if negb (protocol =? 6) then mkReturnTransport 4 protocol n false false false false false false false
    else
      let tcp := zdrop headerLength packet in
      if zlen tcp <? 20 then mkReturnTransport 4 protocol n true false false false false false true
      else
        let tcpHeaderLength := Z.shiftr (byteAt tcp 12) 4 * 4 in
        if (tcpHeaderLength <? 20) || (60 <? tcpHeaderLength) || (zlen tcp <? tcpHeaderLength)
        then mkReturnTransport 4 protocol n true false false false false false true
        else
          let flag m := negb (Z.land (byteAt tcp 13) m =? 0) in
          mkReturnTransport 4 protocol n true (flag 2) (flag 16) (flag 4) (flag 1)
            (validIPv4TransportChecksumV1 (slice 12 16 packet) (slice 16 20 packet) 6 tcp) false.

(** ** Validation *)

Record IPPacketInfoV1 := mkPacketInfo {
  pi_Version : Z;
  pi_Protocol : Z;
  pi_Length : Z;
  pi_transportOffset : Z;
  pi_source : Addr;
  pi_dest : Addr;
}.

Definition validateIPv4PacketV1 (packet : bytes) (direction : Z) (assigned : bytes) (allowedDestination : Addr)
    : result packet_error IPPacketInfoV1 :=
  fail? zlen packet <? 20 with ErrPacketInvalid in
  let headerBytes := headerLengthOf packet in
  fail? badIPv4Shape packet headerBytes || negb (ipv4ChecksumV1 (ztake headerBytes packet) =? 0)
    with ErrPacketInvalid in
  fail? negb (Z.land (u16At packet 6) 16383 =? 0) with ErrPacketFragmented in
  let protocol := byteAt packet 9 in
  fail? negb (protocol =? 6) && negb (protocol =? 17) && negb (protocol =? 1) with ErrPacketProtocol in
  let sourceBytes := slice 12 16 packet in
  let destination := Addr4 (slice 16 20 packet) in
  fail? (direction =? DirectionRelayV1)
      && (bool_decide (assigned = zeros 4) || negb (bool_decide (sourceBytes = assigned)))
    with ErrPacketSource in
  fail? negb (bool_decide (destination = allowedDestination)) && blockedPacketAddressV1 destination
    with ErrPacketDestination in
  Ok (mkPacketInfo 4 protocol (zlen packet) headerBytes (Addr4 sourceBytes) destination).

Definition isExtension (next : Z) : bool := (next =? 0) || (next =? 43) || (next =? 60).

(** The extension headers; [extensions >= 8] is the end of the fuel. *)
Fixpoint skipExtensions (fuel : nat) (packet : bytes) (next offset : Z) : result packet_error (Z * Z) :=
  if isExtension next then
    match fuel with
    | O => Err ErrPacketInvalid
    | S fuel =>
        fail? zlen packet <? offset + 2 with ErrPacketInvalid in
        let headerLength := (byteAt packet (offset + 1) + 1) * 8 in
        fail? (headerLength <? 8) || (zlen packet <? offset + headerLength) || (296 <? offset + headerLength)
          with ErrPacketInvalid in
        skipExtensions fuel packet (byteAt packet offset) (offset + headerLength)
    end
  else Ok (next, offset).

Definition maxExtensions : nat := 8.

Definition validateIPv6PacketV1 (packet : bytes) (direction : Z) (assigned : bytes) (allowedDestination : Addr)
    : result packet_error IPPacketInfoV1 :=
  fail? (zlen packet <? 40) || negb (u16At packet 4 + 40 =? zlen packet) with ErrPacketInvalid in
  let sourceBytes := slice 8 24 packet in
  let destination := Addr6 (slice 24 40 packet) in
  fail? (direction =? DirectionRelayV1)
      && (bool_decide (assigned = zeros 16) || negb (bool_decide (sourceBytes = assigned)))
    with ErrPacketSource in
  fail? negb (bool_decide (destination = allowedDestination)) && blockedPacketAddressV1 destination
    with ErrPacketDestination in
  let? (next, offset) := skipExtensions maxExtensions packet (byteAt packet 6) 40 in
  fail? next =? 44 with ErrPacketFragmented in
  fail? negb (next =? 6) && negb (next =? 17) && negb (next =? 58) with ErrPacketProtocol in
  Ok (mkPacketInfo 6 next (zlen packet) offset (Addr6 sourceBytes) destination).

Definition ValidateIPPacketV1 (packet : bytes) (direction : Z) (assignedIPv4 assignedIPv6 : bytes)
    (allowIPv4 allowIPv6 : bool) : result packet_error IPPacketInfoV1 :=
  fail? negb (direction =? DirectionClientV1) && negb (direction =? DirectionRelayV1) || (zlen packet <? 1)
    with ErrPacketInvalid in
  let version := Z.shiftr (byteAt packet 0) 4 in
  if version =? 4 then
    fail? negb allowIPv4 with ErrPacketFamily in
    validateIPv4PacketV1 packet direction assignedIPv4 AddrZero
  else if version =? 6 then
    fail? negb allowIPv6 with ErrPacketFamily in
    validateIPv6PacketV1 packet direction assignedIPv6 AddrZero
  else Err ErrPacketInvalid.

Definition validateReturnIPPacketV1 (packet assignedIPv4 assignedIPv6 : bytes) : result packet_error IPPacketInfoV1 :=
  fail? zlen packet =? 0 with ErrPacketInvalid in
  let version := Z.shiftr (byteAt packet 0) 4 in
  if version =? 4 then
    fail? bool_decide (assignedIPv4 = zeros 4) with ErrPacketFamily in
    validateIPv4PacketV1 packet DirectionClientV1 (zeros 4) (Addr4 assignedIPv4)
  else if version =? 6 then
    fail? bool_decide (assignedIPv6 = zeros 16) with ErrPacketFamily in
    validateIPv6PacketV1 packet DirectionClientV1 (zeros 16) (Addr6 assignedIPv6)
  else Err ErrPacketInvalid.

Definition validateClientOutboundIPPacketV1 (packet assignedIPv4 dnsIPv4 assignedIPv6 dnsIPv6 : bytes)
    : result packet_error IPPacketInfoV1 :=
  fail? zlen packet =? 0 with ErrPacketInvalid in
  let version := Z.shiftr (byteAt packet 0) 4 in
  if version =? 4 then
    fail? bool_decide (assignedIPv4 = zeros 4) with ErrPacketFamily in
    fail? bool_decide (dnsIPv4 = zeros 4) with ErrPacketDestination in
    validateIPv4PacketV1 packet DirectionRelayV1 assignedIPv4 (Addr4 dnsIPv4)
  else if version =? 6 then
    fail? bool_decide (assignedIPv6 = zeros 16) with ErrPacketFamily in
    fail? bool_decide (dnsIPv6 = zeros 16) with ErrPacketDestination in
    validateIPv6PacketV1 packet DirectionRelayV1 assignedIPv6 (Addr6 dnsIPv6)
  else Err ErrPacketInvalid.

Definition ValidateRelayOutboundIPPacketV1 (packet assignedIPv4 dnsIPv4 assignedIPv6 dnsIPv6 : bytes)
    : result packet_error IPPacketInfoV1 :=
  validateClientOutboundIPPacketV1 packet assignedIPv4 dnsIPv4 assignedIPv6 dnsIPv6.

(** ** The effective policy of a tunnel *)

Definition PayloadProtocolTCP : string := "tcp".
Definition PayloadProtocolUDP : string := "udp".
Definition PayloadProtocolICMP : string := "icmp".
Definition PayloadProtocolICMPv6 : string := "icmpv6".

Definition payloadProtocol (number : Z) : result packet_error string :=
  if number =? 6 then Ok PayloadProtocolTCP
  else if number =? 17 then Ok PayloadProtocolUDP
  else if number =? 1 then Ok PayloadProtocolICMP
  else if number =? 58 then Ok PayloadProtocolICMPv6
  else Err ErrPacketProtocol.

Definition effectivePacketInfoV1 (packet : bytes) (clientOrigin : bool) (mtu : Z) (client4 dns4 client6 dns6 : bytes)
    (protocols : list string) : result packet_error IPPacketInfoV1 :=
  fail? (zlen packet =? 0) || (mtu <? zlen packet) with ErrPacketInvalid in
  let? info :=
    (if clientOrigin then validateClientOutboundIPPacketV1 packet client4 dns4 client6 dns6
     else
       let? info := validateReturnIPPacketV1 packet client4 client6 in
       fail? ((pi_Version info =? 4)
              && (bool_decide (client4 = zeros 4) || negb (bool_decide (pi_dest info = Addr4 client4))))
          || ((pi_Version info =? 6)
              && (bool_decide (client6 = zeros 16) || negb (bool_decide (pi_dest info = Addr6 client6))))
         with ErrPacketDestination in
       Ok info) in
  let? protocol := payloadProtocol (pi_Protocol info) in
  if mem protocol protocols then Ok info else Err ErrPacketProtocol.

(** ** Flow tuples *)

Record productionFlowKeyV1 := mkFlowKey {
  fk_source : bytes;
  fk_destination : bytes;
  fk_sourcePort : Z;
  fk_destinationPort : Z;
  fk_family : Z;
  fk_protocol : Z;
}.

(** An address in the sixteen bytes of a key, padded at the end. *)
Definition keyBytes (b : bytes) : bytes := b ++ zeros (16 - length b).

Definition transportShape (protocol : Z) (transport : bytes) : result packet_error unit :=
  if protocol =? 6 then
    fail? zlen transport <? 20 with ErrPacketInvalid in
    let n := Z.shiftr (byteAt transport 12) 4 * 4 in
    reject ((n <? 20) || (60 <? n) || (zlen transport <? n)) ErrPacketInvalid
  else if protocol =? 17 then
    reject ((zlen transport <? 8) || negb (u16At transport 4 =? zlen transport)) ErrPacketInvalid
  else Err ErrPacketProtocol.

(** [None] is the source's false: a protocol without a flow. *)
Definition productionFlowTupleV1 (packet : bytes) (info : IPPacketInfoV1) (reverse : bool)
    : result packet_error (option productionFlowKeyV1) :=
  fail? negb (pi_Length info =? zlen packet) || (pi_transportOffset info <? 20)
      || (zlen packet <? pi_transportOffset info) with ErrPacketInvalid in
  if (pi_Protocol info =? 1) || (pi_Protocol info =? 58) then Ok None
  else
    let transport := zdrop (pi_transportOffset info) packet in
    let? _ := transportShape (pi_Protocol info) transport in
    let? (s, d) :=
      match pi_Version info =? 4, pi_source info, pi_dest info, pi_Version info =? 6 with
      | true, Addr4 s, Addr4 d, _ => Ok (keyBytes s, keyBytes d)
      | _, Addr6 s, Addr6 d, true => Ok (s, d)
      | _, _, _, _ => Err ErrPacketInvalid
      end in
    let sp := u16At transport 0 in
    let dp := u16At transport 2 in
    Ok (Some (if reverse then mkFlowKey d s dp sp (pi_Version info) (pi_Protocol info)
              else mkFlowKey s d sp dp (pi_Version info) (pi_Protocol info))).
