(* ===== verification/IpPacketFacts.v ===== *)
(** * What the packet checks admit

    The checksum routines compute the Internet checksum, stated on the packet as
    one big-endian number ([checksum_exact], [checksum_detects]); the extension
    walk follows the header chain ([skipExtensions_chain]); the address filter
    is a table of prefixes ([blocked4_prefixes]); and the effective policy admits
    exactly the packets the tunnel's addresses allow ([tunnel_admits_exactly]). *)

From S2P Require Import Prelude GoBytes IpPacket.
From Stdlib Require Import ZArith Lia Strings.Byte.
From stdpp Require Import base list strings.
Local Open Scope Z_scope.

(** ** The checksum as a number *)

Definition padded (l : bytes) : bytes := if Z.even (zlen l) then l else l ++ [Byte.x00].

Fixpoint wordSum (l : bytes) : Z :=
  match l with
  | a :: b :: rest => get_be [a; b] + wordSum rest
  | [a] => Z.shiftl (bz a) 8
  | [] => 0
  end.

(** Induction two bytes at a time. *)
Lemma pairs_ind (P : bytes -> Prop) : P [] -> (forall a, P [a]) -> (forall a b l, P l -> P (a :: b :: l)) -> forall l, P l.
Proof.
  intros H0 H1 H2 l. assert (P l /\ forall a, P (a :: l)) as [? _]; [|done].
  induction l as [|b l [IH1 IH2]]; [done|]. split; [done|]. intros a. by apply H2.
Qed.

Lemma get_le_app a b : get_le (a ++ b) = get_le a + 256 ^ zlen a * get_le b.
Proof.
  induction a as [|x a IH]; [change (get_le b = 0 + 1 * get_le b); lia|]. unfold get_le in *. cbn [app foldr]. rewrite IH, zlen_cons.
  rewrite Z.pow_add_r by (pose proof (zlen_nonneg a); lia). lia.
Qed.

Lemma get_be_app a b : get_be (a ++ b) = get_be a * 256 ^ zlen b + get_be b.
Proof. unfold get_be. rewrite reverse_app, get_le_app. unfold zlen. rewrite length_reverse. lia. Qed.

Lemma get_be_pair a b : get_be [a; b] = 256 * bz a + bz b.
Proof. unfold get_be, get_le. cbn. lia. Qed.

Lemma pow256_even n : 0 <= n -> Z.even n = true -> exists q, 256 ^ n = 65535 * q + 1.
Proof.
  intros Hn He. apply Z.even_spec in He as [k ->]. assert (0 <= k) as Hk by lia. clear Hn.
  revert k Hk. apply natlike_ind; [by exists 0|]. intros k Hk [q Hq].
  replace (2 * Z.succ k) with (2 * k + 2) by lia. rewrite Z.pow_add_r, Hq by lia.
  exists (65536 * q + 1). lia.
Qed.

Lemma padded_cons a b l : padded (a :: b :: l) = a :: b :: padded l.
Proof.
  unfold padded. rewrite !zlen_cons. replace (1 + (1 + zlen l)) with (zlen l + 2 * 1) by lia.
  rewrite Z.even_add_mul_2. by destruct (Z.even (zlen l)).
Qed.

Lemma padded_even l : Z.even (zlen (padded l)) = true.
Proof.
  unfold padded. destruct (Z.even (zlen l)) eqn:E; [done|]. rewrite zlen_app. change (zlen [Byte.x00]) with 1.
  rewrite Z.even_add, E. done.
Qed.

(** The sum of the words and the number agree modulo 65535, and vanish together. *)
Lemma wordSum_number l : exists q, get_be (padded l) = wordSum l + 65535 * q /\ 0 <= q /\ (wordSum l = 0 -> q = 0).
Proof.
  induction l as [|a|a b l (q & Hq & Hq0 & Hz)] using pairs_ind.
  - exists 0. done.
  - exists 0. change (padded [a]) with [a; Byte.x00]. rewrite get_be_pair. cbn [wordSum].
    rewrite Z.shiftl_mul_pow2 by lia. change (bz Byte.x00) with 0. lia.
  - rewrite padded_cons. change (a :: b :: padded l) with ([a; b] ++ padded l). rewrite get_be_app.
    destruct (pow256_even (zlen (padded l)) (zlen_nonneg _) (padded_even l)) as [r Hr].
    assert (0 <= r) as Hr0. { pose proof (Z.pow_pos_nonneg 256 (zlen (padded l)) ltac:(lia) (zlen_nonneg _)). lia. }
    pose proof (get_be_range [a; b]) as Hab. cbn [wordSum]. exists (get_be [a; b] * r + q).
    rewrite Hr, Hq. split; [lia|]. split; [nia|]. intros H0.
    assert (0 <= wordSum l) as Hw.
    { clear. induction l as [|x|x y l IH] using pairs_ind; cbn [wordSum]; [done| |].
      - pose proof (bz_range x). rewrite Z.shiftl_mul_pow2 by lia. lia.
      - pose proof (get_be_range [x; y]). lia. }
    assert (get_be [a; b] = 0) as -> by lia. rewrite Hz by lia. lia.
Qed.

Lemma wordSum_range l : 0 <= wordSum l <= 65535 * ((zlen l + 1) / 2).
Proof.
  induction l as [|a|a b l IH] using pairs_ind; [done| |].
  - cbn [wordSum]. rewrite Z.shiftl_mul_pow2 by lia. pose proof (bz_range a). change (zlen [a]) with 1.
    change ((1 + 1) / 2) with 1. lia.
  - cbn [wordSum]. pose proof (get_be_range [a; b]) as Hab. change (256 ^ zlen [a; b]) with 65536 in Hab.
    rewrite !zlen_cons. replace (1 + (1 + zlen l) + 1) with (zlen l + 1 + 1 * 2) by lia.
    rewrite Z.div_add by lia. lia.
Qed.

Lemma checksumAdd_sum sum l : u32 sum -> checksumAddBytesV1 sum l = wrap32 (sum + wordSum l).
Proof.
  revert sum. induction l as [|a|a b l IH] using pairs_ind; intros sum Hs; cbn [checksumAddBytesV1 wordSum].
  - by rewrite Z.add_0_r, wrap32_small.
  - done.
  - rewrite IH by (apply wrap_range; lia). unfold wrap32, wrap. rewrite Zplus_mod_idemp_l. f_equal. lia.
Qed.

(** One round of the fold keeps the residue and zero, and two rounds reach
    sixteen bits. *)
Definition carry (sum : Z) : Z := Z.land sum 65535 + Z.shiftr sum 16.

Lemma carry_spec s : 0 <= s -> carry s = s - 65535 * (s / 65536).
Proof.
  intros Hs. unfold carry. change 65535 with (Z.ones 16) at 1. rewrite Z.land_ones, Z.shiftr_div_pow2 by lia.
  change (2 ^ 16) with 65536. pose proof (Z.div_mod s 65536). lia.
Qed.

Lemma foldCarry_spec s : u32 s -> exists k, foldCarry carryFuel s = s - 65535 * k /\ 0 <= k /\
  0 <= foldCarry carryFuel s < 65536 /\ (foldCarry carryFuel s = 0 <-> s = 0).
Proof.
  intros [Hs Hs']. unfold carryFuel.
  assert (forall x fuel, 0 <= x < 65536 -> foldCarry fuel x = x) as Hsmall.
  { intros x [|fuel] Hx; [done|]. cbn [foldCarry]. rewrite Z.shiftr_div_pow2, Z.div_small by (cbn; lia). done. }
  assert (forall x fuel, 65536 <= x < 2 ^ 32 -> foldCarry (S fuel) x = foldCarry fuel (carry x)) as Hstep.
  { intros x fuel Hx. cbn [foldCarry]. rewrite Z.shiftr_div_pow2 by lia. change (2 ^ 16) with 65536.
    assert (1 <= x / 65536) by (apply Z.div_le_lower_bound; lia).
    destruct (Z.eqb_spec (x / 65536) 0); [lia|]. rewrite wrap32_small; [unfold carry; by rewrite Z.shiftr_div_pow2 by lia|].
    pose proof (carry_spec x ltac:(lia)) as E. unfold carry in E. rewrite Z.shiftr_div_pow2 in E by lia.
    change (2 ^ 16) with 65536 in E. pose proof (Z.div_mod x 65536). pose proof (Z.mod_pos_bound x 65536).
    unfold u32, uint. lia. }
  destruct (Z.lt_ge_cases s 65536) as [Hlo|Hlo]; [exists 0; rewrite Hsmall by lia; lia|].
  rewrite Hstep by (cbn in *; lia). rewrite (carry_spec s) by lia.
  pose proof (Z.div_mod s 65536 ltac:(lia)). pose proof (Z.mod_pos_bound s 65536 ltac:(lia)).
  assert (1 <= s / 65536 < 65536) by (split; [apply Z.div_le_lower_bound; lia|apply Z.div_lt_upper_bound; cbn in *; lia]).
  set (t := s - 65535 * (s / 65536)) in *. assert (1 <= t < 131071) by lia.
  destruct (Z.lt_ge_cases t 65536) as [Ht|Ht].
  - exists (s / 65536). rewrite Hsmall by lia. lia.
  - rewrite Hstep by (cbn; lia). rewrite (carry_spec t) by lia.
    assert (t / 65536 = 1) as Et by (symmetry; apply (Z.div_unique t 65536 1 (t - 65536)); lia).
    rewrite Et, Hsmall by lia. exists (s / 65536 + 1). lia.
Qed.

(** A sum folds to all ones exactly when it is a positive multiple of 65535. *)
Lemma foldCarry_ones s : u32 s -> foldCarry carryFuel s = 65535 <-> s mod 65535 = 0 /\ s <> 0.
Proof.
  intros Hs. destruct (foldCarry_spec s Hs) as (k & E & Hk & Hr & Hz). split.
  - intros H. split; [|lia]. replace s with ((k + 1) * 65535) by lia. apply Z.mod_mul. lia.
  - intros [Hm Hn]. rewrite E in *. apply Z.mod_divide in Hm as [m ->]; [|lia]. lia.
Qed.

Lemma number_ones l : wordSum l mod 65535 = 0 /\ wordSum l <> 0 <->
  get_be (padded l) mod 65535 = 0 /\ get_be (padded l) <> 0.
Proof.
  destruct (wordSum_number l) as (q & Hq & Hq0 & Hz). pose proof (wordSum_range l) as Hw.
  rewrite Hq. rewrite (Z.mul_comm 65535 q), Z.mod_add by lia. split; intros [? ?]; (split; [done|]); [lia|].
  intros Hzero. rewrite Hz in * by done. lia.
Qed.

Lemma ipv4Checksum_exact header : zlen header <= 65535 ->
  ipv4ChecksumV1 header = 0 <-> get_be (padded header) mod 65535 = 0 /\ get_be (padded header) <> 0.
Proof.
  intros Hl. rewrite <- number_ones. pose proof (wordSum_range header) as [Hw0 Hw].
  assert (wordSum header < 2 ^ 32) as Hlt.
  { assert ((zlen header + 1) / 2 <= 32768) by (apply Z.div_le_upper_bound; lia). change (2 ^ 32) with 4294967296. lia. }
  unfold ipv4ChecksumV1. rewrite checksumAdd_sum, Z.add_0_l, wrap32_small by done.
  destruct (foldCarry_spec (wordSum header)) as (_ & _ & _ & Hr & _); [done|].
  rewrite wrap16_small by (unfold u16, uint; change (2 ^ 16) with 65536; lia).
  rewrite <- foldCarry_ones by done. lia.
Qed.

(** The one's complement sum of a pseudo header and a transport segment. *)
Definition pseudoNumber (source destination : bytes) (protocol : Z) (transport : bytes) : bytes :=
  source ++ destination ++ put_be 2 protocol ++ put_be 2 (zlen transport) ++ transport.

Lemma wordSum_app a b : Z.even (zlen a) = true -> wordSum (a ++ b) = wordSum a + wordSum b.
Proof.
  induction a as [|x|x y a IH] using pairs_ind; [done|done|]. rewrite !zlen_cons.
  replace (1 + (1 + zlen a)) with (zlen a + 2 * 1) by lia. rewrite Z.even_add_mul_2. intros He.
  cbn [wordSum app]. rewrite IH by done. lia.
Qed.

Lemma wordSum_word z : u16 z -> wordSum (put_be 2 z) = z.
Proof.
  intros Hz. pose proof (get_put_be 2 z) as HG. pose proof (length_put_be 2 z) as HL.
  destruct (put_be 2 z) as [|a [|b [|]]]; try done. cbn [wordSum]. rewrite HG, Z.mod_small by done. lia.
Qed.

Lemma transportChecksum_exact source destination protocol transport :
  zlen source = 4 -> zlen destination = 4 -> u8 protocol -> 1 <= zlen transport <= 65535 ->
  validIPv4TransportChecksumV1 source destination protocol transport = true <->
  let n := get_be (padded (pseudoNumber source destination protocol transport)) in n mod 65535 = 0 /\ n <> 0.
Proof.
  intros Hs Hd Hp Ht. cbv zeta. rewrite <- number_ones. unfold validIPv4TransportChecksumV1.
  rewrite Hs, Hd. destruct (Z.eqb_spec (zlen transport) 0); [lia|]. destruct (Z.ltb_spec 65535 (zlen transport)); [lia|].
  cbn [Z.eqb Pos.eqb negb orb]. cbv zeta. unfold pseudoNumber.
  assert (u16 (zlen transport)) as Hl by (unfold u16, uint; change (2 ^ 16) with 65536; lia).
  assert (u16 protocol) as Hp16 by (destruct Hp; unfold u16, uint; cbn in *; lia).
  rewrite !wordSum_app by (rewrite ?Hs, ?Hd, ?zlen_put_be; done). rewrite !wordSum_word by done.
  pose proof (wordSum_range source) as Rs. rewrite Hs in Rs. change ((4 + 1) / 2) with 2 in Rs.
  pose proof (wordSum_range destination) as Rd. rewrite Hd in Rd. change ((4 + 1) / 2) with 2 in Rd.
  pose proof (wordSum_range transport) as Rt.
  assert ((zlen transport + 1) / 2 <= 32768) as Hh by (apply Z.div_le_upper_bound; lia).
  destruct Hp as [Hp0 Hp1]. change (2 ^ 8) with 256 in Hp1.
  assert (forall z, 0 <= z < 4294967296 -> u32 z) as U by (intros z Hz; unfold u32, uint; change (2 ^ 32) with 4294967296; lia).
  rewrite (checksumAdd_sum 0), Z.add_0_l by (apply U; lia). rewrite (wrap32_small (wordSum source)) by (apply U; lia).
  rewrite (checksumAdd_sum (wordSum source) destination) by (apply U; lia). rewrite (wrap32_small (_ + wordSum destination)) by (apply U; lia).
  rewrite (wrap32_small (zlen transport)) by (apply U; lia). rewrite (wrap32_small (_ + protocol)) by (apply U; lia).
  rewrite (wrap32_small (_ + zlen transport)) by (apply U; lia). rewrite checksumAdd_sum by (apply U; lia).
  rewrite wrap32_small by (apply U; lia).
  replace (wordSum source + (wordSum destination + (protocol + (zlen transport + wordSum transport))))
    with (wordSum source + wordSum destination + protocol + zlen transport + wordSum transport) by lia.
  set (s := _ + wordSum transport). assert (u32 s) as Hu by (apply U; unfold s; lia).
  destruct (foldCarry_spec s Hu) as (_ & _ & _ & Hr & _).
  rewrite wrap16_small by (unfold u16, uint; change (2 ^ 16) with 65536; lia).
  rewrite Z.eqb_eq. by apply foldCarry_ones.
Qed.

(** Two numbers that differ in one byte are not congruent modulo 65535. *)
Lemma byte_change a x y b : x <> y -> Z.even (zlen (a ++ [x] ++ b)) = true ->
  get_be (a ++ [x] ++ b) mod 65535 <> get_be (a ++ [y] ++ b) mod 65535.
Proof.
  intros Hxy He Hm. rewrite !get_be_app in Hm. change (zlen ([x] ++ b)) with (zlen ([y] ++ b)) in Hm.
  assert (forall z : Byte.byte, get_be [z] = bz z) as Hb by (intros z; change (bz z + 256 * 0 = bz z); lia).
  rewrite !Hb in Hm.
  assert (bz x <> bz y) as Hne by (intros E; by apply Hxy, bz_inj).
  pose proof (bz_range x). pose proof (bz_range y).
  assert (exists p, 256 ^ zlen b mod 65535 = p /\ (p = 1 \/ p = 256)) as (p & Ep & Hp).
  { destruct (Z.even (zlen b)) eqn:E.
    - destruct (pow256_even (zlen b) (zlen_nonneg _) E) as [q ->]. exists 1. split; [|by left].
      rewrite Z.add_comm, Z.mul_comm, Z.mod_add by lia. done.
    - pose proof (zlen_nonneg b) as Hb0. destruct (Z.eq_dec (zlen b) 0) as [E0|E0]; [by rewrite E0 in E|].
      destruct (pow256_even (zlen b - 1)) as [q Hq]; [lia|by rewrite Z.even_sub, E|].
      exists 256. split; [|by right]. replace (zlen b) with (zlen b - 1 + 1) by lia. rewrite Z.pow_add_r, Hq by lia.
      replace ((65535 * q + 1) * 256 ^ 1) with (256 + 256 * q * 65535) by lia. by rewrite Z.mod_add by lia. }
  assert (((bz x - bz y) * 256 ^ zlen b) mod 65535 = 0) as H1.
  { apply Z.mod_divide; [lia|]. set (G := get_be a * 256 ^ zlen ([y] ++ b)) in *. set (P := 256 ^ zlen b) in *.
    exists ((G + (bz x * P + get_be b)) / 65535 - (G + (bz y * P + get_be b)) / 65535).
    pose proof (Z.div_mod (G + (bz x * P + get_be b)) 65535 ltac:(lia)).
    pose proof (Z.div_mod (G + (bz y * P + get_be b)) 65535 ltac:(lia)). lia. }
  rewrite <- Z.mul_mod_idemp_r, Ep in H1 by lia. apply Z.mod_divide in H1 as [q Hq]; [|lia]. destruct Hp as [-> | ->]; lia.
Qed.

Lemma padded_byte a x y b : exists b', Z.even (zlen (a ++ [x] ++ b')) = true /\
  padded (a ++ [x] ++ b) = a ++ [x] ++ b' /\ padded (a ++ [y] ++ b) = a ++ [y] ++ b'.
Proof.
  pose proof (padded_even (a ++ [x] ++ b)) as He. unfold padded in *.
  replace (zlen (a ++ [y] ++ b)) with (zlen (a ++ [x] ++ b)) by (rewrite !zlen_app; done).
  destruct (Z.even (zlen (a ++ [x] ++ b))) eqn:E; [by exists b|]. exists (b ++ [Byte.x00]).
  rewrite <- !app_assoc in *. done.
Qed.

(** the header checksum is the Internet checksum. A header verifies exactly
    when, read as one big-endian number (padded to sixteen-bit words), it is a
    positive multiple of 65535; the 32-bit accumulator never overflows and the
    folding loop ends. Hence a verified header stops verifying when any single
    byte of it changes. *)
Theorem header_checksum_exact header : zlen header <= 65535 ->
  (ipv4ChecksumV1 header = 0 <-> get_be (padded header) mod 65535 = 0 /\ get_be (padded header) <> 0) /\
  forall a x y b, header = a ++ [x] ++ b -> x <> y -> ipv4ChecksumV1 header = 0 -> ipv4ChecksumV1 (a ++ [y] ++ b) <> 0.
Proof.
  intros Hl. split; [by apply ipv4Checksum_exact|]. intros a x y b -> Hxy H1 H2.
  assert (zlen (a ++ [y] ++ b) <= 65535) as Hl2 by (rewrite !zlen_app in *; done).
  apply ipv4Checksum_exact in H1 as [H1 _], H2 as [H2 _]; [|done|done].
  destruct (padded_byte a x y b) as (b' & He & E1 & E2). rewrite E1 in H1. rewrite E2 in H2.
  by apply (byte_change a x y b' Hxy He); rewrite H1, H2.
Qed.

(** ** Extension headers *)

Inductive extChain (packet : bytes) : Z -> Z -> nat -> Z -> Z -> Prop :=
  | ext_done next offset : isExtension next = false -> extChain packet next offset 0 next offset
  | ext_step next offset n next' offset' : isExtension next = true ->
      let size := (byteAt packet (offset + 1) + 1) * 8 in
      offset + 2 <= zlen packet -> offset + size <= zlen packet -> offset + size <= 296 ->
      extChain packet (byteAt packet offset) (offset + size) n next' offset' ->
      extChain packet next offset (S n) next' offset'.

Lemma byteAt_range l i : 0 <= byteAt l i < 256.
Proof. unfold byteAt. destruct (l !! _); [apply bz_range|lia]. Qed.

Lemma skipExtensions_chain fuel packet next offset next' offset' :
  skipExtensions fuel packet next offset = Ok (next', offset') <->
  exists n, (n <= fuel)%nat /\ extChain packet next offset n next' offset'.
Proof.
  revert next offset. induction fuel as [|fuel IH]; intros next offset; cbn [skipExtensions];
    destruct (isExtension next) eqn:E.
  - split; [done|]. intros (n & Hn & HC). inversion HC; subst; [congruence|lia].
  - split; [intros [= <- <-]; exists 0%nat; split; [lia|by constructor]|].
    intros (n & Hn & HC). inversion HC; subst; [done|congruence].
  - pose proof (byteAt_range packet (offset + 1)) as Hb. split.
    + intros H. apply reject_bind_ok in H as [H1%Z.ltb_ge H]. apply reject_bind_ok in H as [H2 H].
      rewrite !orb_false_iff, !Z.ltb_ge in H2. apply IH in H as (n & Hn & HC). exists (S n). split; [lia|].
      econstructor; try done; lia.
    + intros (n & Hn & HC). inversion HC; subst; [congruence|].
      apply reject_bind_ok. split; [apply Z.ltb_ge; lia|]. apply reject_bind_ok.
      split; [rewrite !orb_false_iff, !Z.ltb_ge; lia|]. apply IH. eexists. split; [|done]. lia.
  - split; [intros [= <- <-]; exists 0%nat; split; [lia|by constructor]|].
    intros (n & Hn & HC). inversion HC; subst; [done|congruence].
Qed.

(** ** The address filter as a table *)

(** A prefix: its lowest address as a number and its length. *)
Definition inPrefix (width : Z) (n : Z) (prefix : Z * Z) : bool :=
  (fst prefix <=? n) && (n <? fst prefix + 2 ^ (width - snd prefix)).

Definition ip4 (a b c d : Z) : Z := ((a * 256 + b) * 256 + c) * 256 + d.

(** Private, loopback, link-local and multicast: what [net/netip] knows. *)
Definition netipPrefixes4 : list (Z * Z) :=
  [(ip4 10 0 0 0, 8); (ip4 127 0 0 0, 8); (ip4 169 254 0 0, 16); (ip4 172 16 0 0, 12); (ip4 192 168 0 0, 16);
   (ip4 224 0 0 0, 4)].

Definition blockedPrefixes4 : list (Z * Z) :=
  netipPrefixes4 ++ [(ip4 0 0 0 0, 8); (ip4 100 64 0 0, 10); (ip4 255 255 255 255, 32)].

(** Unspecified, loopback, unique local, link-local and multicast. *)
Definition nativePrefixes6 : list (Z * Z) :=
  [(0, 128); (1, 128); (252 * 256 ^ 15, 7); (254 * 256 ^ 15 + 128 * 256 ^ 14, 10); (255 * 256 ^ 15, 8)].

(** The first table inside the IPv4-mapped range. *)
Definition mappedPrefixes6 : list (Z * Z) := (fun p => (65535 * 2 ^ 32 + fst p, 96 + snd p)) <$> netipPrefixes4.

Definition blockedPrefixes6 : list (Z * Z) := nativePrefixes6 ++ mappedPrefixes6.

Lemma on_bytes (P : Z -> bool) : forallb P (seqZ 0 256) = true -> forall z, 0 <= z < 256 -> P z = true.
Proof. intros H z Hz. rewrite forallb_forall in H. apply H, list_elem_of_In, elem_of_seqZ. lia. Qed.

Lemma mask_240 k z : 0 <= z < 256 -> 0 <= k < 16 -> (Z.land z 240 =? 16 * k) = (16 * k <=? z) && (z <? 16 * k + 16).
Proof.
  intros Hz Hk. assert (Z.land z 240 = 16 * (z / 16)) as ->.
  { apply Z.eqb_eq. revert z Hz. apply on_bytes. by vm_compute. }
  pose proof (Z.div_mod z 16). pose proof (Z.mod_pos_bound z 16).
  apply eq_true_iff_eq. rewrite andb_true_iff, Z.eqb_eq, Z.leb_le, Z.ltb_lt. lia.
Qed.

Lemma mask_192 z : 0 <= z < 256 -> (Z.land z 192 =? 64) = (64 <=? z) && (z <? 128).
Proof. intros Hz. apply eqb_prop. revert z Hz. apply (on_bytes (fun z => Bool.eqb _ _)). by vm_compute. Qed.

Lemma mask_254 z : 0 <= z < 256 -> (Z.land z 254 =? 252) = (252 <=? z) && (z <? 254).
Proof. intros Hz. apply eqb_prop. revert z Hz. apply (on_bytes (fun z => Bool.eqb _ _)). by vm_compute. Qed.

Lemma get_be_4 a b c d : get_be [a; b; c; d] = ip4 (bz a) (bz b) (bz c) (bz d).
Proof. change (bz d + 256 * (bz c + 256 * (bz b + 256 * (bz a + 256 * 0))) = ip4 (bz a) (bz b) (bz c) (bz d)). unfold ip4. lia. Qed.

Lemma get_be_inj a b : length a = length b -> get_be a = get_be b -> a = b.
Proof. intros Hl Hg. by rewrite <- (put_get_be a), <- (put_get_be b), Hl, Hg. Qed.

Ltac bools :=
  rewrite ?orb_true_iff, ?andb_true_iff, ?negb_true_iff, ?Z.eqb_eq, ?Z.leb_le, ?Z.ltb_lt, ?bool_decide_eq_true.

Ltac powers := repeat match goal with
  | |- context [2 ^ ?e] => let v := eval vm_compute in (2 ^ e) in change (2 ^ e) with v
  | |- context [256 ^ Zpos ?e] => let v := eval vm_compute in (256 ^ Zpos e) in change (256 ^ Zpos e) with v
  end.

(** The four bytes of an address. *)
Ltac four_bytes b Hl :=
  destruct b as [|b0 [|b1 [|b2 [|b3 [|]]]]]; try (exfalso; unfold zlen in Hl; cbn [length] in Hl; lia).

(** Membership in a prefix by the leading bytes of an address. *)
Ltac by_bytes := unfold inPrefix, ip4; cbn [fst snd]; powers; apply eq_true_iff_eq; bools; lia.

Section prefixes.
Context (a b c d : Z) (Ha : 0 <= a < 256) (Hb : 0 <= b < 256) (Hc : 0 <= c < 256) (Hd : 0 <= d < 256).
Let n := ip4 a b c d.

Lemma prefix_8 x : inPrefix 32 n (ip4 x 0 0 0, 8) = (a =? x).
Proof using Ha Hb Hc Hd. unfold n. by_bytes. Qed.

Lemma prefix_16 x y : 0 <= y < 256 -> inPrefix 32 n (ip4 x y 0 0, 16) = (a =? x) && (b =? y).
Proof using Ha Hb Hc Hd. intros Hy. unfold n. by_bytes. Qed.

Lemma prefix_12 : inPrefix 32 n (ip4 172 16 0 0, 12) = (a =? 172) && ((16 <=? b) && (b <? 32)).
Proof using Ha Hb Hc Hd. unfold n. by_bytes. Qed.

Lemma prefix_10 : inPrefix 32 n (ip4 100 64 0 0, 10) = (a =? 100) && ((64 <=? b) && (b <? 128)).
Proof using Ha Hb Hc Hd. unfold n. by_bytes. Qed.

Lemma prefix_4 : inPrefix 32 n (ip4 224 0 0 0, 4) = (224 <=? a) && (a <? 240).
Proof using Ha Hb Hc Hd. unfold n. by_bytes. Qed.

Lemma prefix_32 : inPrefix 32 n (ip4 255 255 255 255, 32) = (n =? 4294967295).
Proof using Ha Hb Hc Hd. unfold n. by_bytes. Qed.
End prefixes.

(** What [net/netip] says of an IPv4 address, as the table says it. *)
Lemma netip4_prefixes b : zlen b = 4 ->
  isLoopback (Addr4 b) || isMulticast (Addr4 b) || isLinkLocalUnicast (Addr4 b) || isLinkLocalMulticast (Addr4 b)
    || isPrivate (Addr4 b) = existsb (inPrefix 32 (get_be b)) netipPrefixes4.
Proof.
  intros Hl. four_bytes b Hl. rewrite get_be_4.
  unfold isLoopback, isMulticast, isLinkLocalUnicast, isLinkLocalMulticast, isPrivate, unmap.
  change (byteAt [b0; b1; b2; b3] 0) with (bz b0). change (byteAt [b0; b1; b2; b3] 1) with (bz b1).
  change (byteAt [b0; b1; b2; b3] 2) with (bz b2).
  pose proof (bz_range b0). pose proof (bz_range b1). pose proof (bz_range b2). pose proof (bz_range b3).
  pose proof (mask_240 14 (bz b0) ltac:(done) ltac:(lia)) as M1. pose proof (mask_240 1 (bz b1) ltac:(done) ltac:(lia)) as M2.
  change (16 * 14) with 224 in M1. change (16 * 1) with 16 in M2. rewrite M1, M2. change (224 + 16) with 240.
  change (16 + 16) with 32. unfold netipPrefixes4. cbn [existsb]. rewrite !prefix_8, !prefix_16, prefix_12, prefix_4 by lia.
  assert (((bz b0 =? 224) && (bz b1 =? 0) && (bz b2 =? 0)) = true -> ((224 <=? bz b0) && (bz b0 <? 240)) = true) as HM
    by (bools; lia).
  revert HM. generalize ((bz b0 =? 224) && (bz b1 =? 0) && (bz b2 =? 0)), ((224 <=? bz b0) && (bz b0 <? 240)),
    ((bz b0 =? 169) && (bz b1 =? 254)), (bz b0 =? 127), (bz b0 =? 10), ((bz b0 =? 192) && (bz b1 =? 168)),
    ((bz b0 =? 172) && ((16 <=? bz b1) && (bz b1 <? 32))).
  intros [] [] [] [] [] [] [] HM; try done; by specialize (HM eq_refl).
Qed.

Lemma blocked4_prefixes b : zlen b = 4 ->
  blockedPacketAddressV1 (Addr4 b) = existsb (inPrefix 32 (get_be b)) blockedPrefixes4.
Proof.
  intros Hl. unfold blockedPrefixes4. rewrite existsb_app, <- netip4_prefixes by done.
  unfold blockedPacketAddressV1, isUnspecified. cbn [isValid negb orb].
  rewrite (bool_decide_eq_false_2 (Addr4 b = Addr6 (zeros 16))) by done.
  assert (bool_decide (Addr4 b = Addr4 (zeros 4)) = (get_be b =? 0)) as ->.
  { apply eq_true_iff_eq. rewrite bool_decide_eq_true, Z.eqb_eq. split; [by intros [= ->]|]. intros E. f_equal.
    apply get_be_inj; [unfold zlen in Hl; cbn; lia|done]. }
  assert (bool_decide (b = replicate 4 Byte.xff) = (get_be b =? 4294967295)) as ->.
  { apply eq_true_iff_eq. rewrite bool_decide_eq_true, Z.eqb_eq. split; [by intros ->|]. intros E.
    apply get_be_inj; [unfold zlen in Hl; cbn; lia|done]. }
  rewrite !orb_false_r. generalize (isLoopback (Addr4 b)), (isMulticast (Addr4 b)), (isLinkLocalUnicast (Addr4 b)),
    (isLinkLocalMulticast (Addr4 b)), (isPrivate (Addr4 b)). intros l m u v p.
  four_bytes b Hl. change (byteAt [b0; b1; b2; b3] 0) with (bz b0). change (byteAt [b0; b1; b2; b3] 1) with (bz b1).
  rewrite get_be_4. pose proof (bz_range b0). pose proof (bz_range b1). pose proof (bz_range b2). pose proof (bz_range b3).
  rewrite mask_192 by done. cbn [existsb]. rewrite prefix_8, prefix_10, prefix_32 by done.
  assert ((ip4 (bz b0) (bz b1) (bz b2) (bz b3) =? 0) = true -> (bz b0 =? 0) = true) as HZ by (unfold ip4; bools; lia).
  revert HZ. generalize (ip4 (bz b0) (bz b1) (bz b2) (bz b3) =? 0), (bz b0 =? 0),
    (ip4 (bz b0) (bz b1) (bz b2) (bz b3) =? 4294967295), ((bz b0 =? 100) && ((64 <=? bz b1) && (bz b1 <? 128))).
  intros [] [] [] [] HZ; destruct l, m, u, v, p; try done; by specialize (HZ eq_refl).
Qed.

(** ** IPv6 addresses *)

Lemma mapped_number b : zlen b = 16 -> is4In6 b = ((65535 * 2 ^ 32 <=? get_be b) && (get_be b <? 65536 * 2 ^ 32)) /\
  get_be b = get_be (ztake 12 b) * 2 ^ 32 + get_be (zdrop 12 b) /\ zlen (zdrop 12 b) = 4.
Proof.
  intros Hl. assert (zlen (zdrop 12 b) = 4) as Hd by (rewrite zlen_zdrop; lia).
  assert (get_be b = get_be (ztake 12 b) * 2 ^ 32 + get_be (zdrop 12 b)) as E.
  { rewrite <- (ztake_zdrop 12 b) at 1. rewrite get_be_app, Hd. done. }
  split; [|done]. pose proof (get_be_range (zdrop 12 b)) as Hr. rewrite Hd in Hr. change (256 ^ 4) with (2 ^ 32) in Hr.
  unfold is4In6. apply eq_true_iff_eq. rewrite bool_decide_eq_true, andb_true_iff, Z.leb_le, Z.ltb_lt. split.
  - intros Et. rewrite Et in E. change (get_be mappedPrefix) with 65535 in E. change (2 ^ 32) with 4294967296 in *. lia.
  - intros Hn. apply get_be_inj; [assert (zlen (ztake 12 b) = 12) as H12 by (rewrite zlen_ztake; lia); unfold zlen in H12; cbn; lia|].
    change (get_be mappedPrefix) with 65535. change (2 ^ 32) with 4294967296 in *. lia.
Qed.

Lemma mapped_prefix n x len : 0 <= len <= 32 -> inPrefix 128 (65535 * 2 ^ 32 + n) (65535 * 2 ^ 32 + x, 96 + len) = inPrefix 32 n (x, len).
Proof.
  intros Hl. unfold inPrefix. cbn [fst snd]. replace (128 - (96 + len)) with (32 - len) by lia.
  apply eq_true_iff_eq. bools. lia.
Qed.

Lemma on_words (P : Z -> bool) :
  forallb (fun h => forallb (fun l => P (256 * h + l)) (seqZ 0 256)) (seqZ 0 256) = true -> forall z, 0 <= z < 65536 -> P z = true.
Proof.
  intros H z Hz. pose proof (Z.div_mod z 256 ltac:(lia)) as E. pose proof (Z.mod_pos_bound z 256 ltac:(lia)).
  rewrite E. apply (on_bytes (fun l => P (256 * (z / 256) + l))); [|done].
  apply (on_bytes (fun h => forallb (fun l => P (256 * h + l)) (seqZ 0 256))); [done|lia].
Qed.

Lemma mask_local w : 0 <= w < 65536 -> (Z.land w 65472 =? 65152) = (65152 <=? w) && (w <? 65216).
Proof. intros Hw. apply eqb_prop. revert w Hw. apply (on_words (fun w => Bool.eqb _ _)). by vm_compute. Qed.

Lemma mask_multicast w : 0 <= w < 65536 -> (Z.land w 65295 =? 65282) = true -> 65280 <= w.
Proof.
  intros Hw H. apply Z.leb_le. revert w Hw H.
  assert (forall w, 0 <= w < 65536 -> implb (Z.land w 65295 =? 65282) (65280 <=? w) = true) as HI.
  { apply (on_words (fun w => implb _ _)). by vm_compute. }
  intros w Hw H. specialize (HI w Hw). by rewrite H in HI.
Qed.

(** The number of an address by its leading word. *)
Lemma leading_word b : zlen b = 16 -> exists r, get_be b = u16At b 0 * 256 ^ 14 + r /\ 0 <= r < 256 ^ 14 /\
  0 <= u16At b 0 < 65536 /\ byteAt b 0 = u16At b 0 / 256.
Proof.
  intros Hl. destruct b as [|b0 [|b1 b]]; try (unfold zlen in Hl; cbn [length] in Hl; lia).
  change (u16At (b0 :: b1 :: b) 0) with (get_be [b0; b1]). change (byteAt (b0 :: b1 :: b) 0) with (bz b0).
  change (b0 :: b1 :: b) with ([b0; b1] ++ b) in *. rewrite get_be_app. rewrite zlen_app in Hl.
  change (zlen [b0; b1]) with 2 in Hl. assert (zlen b = 14) as Hb by lia. exists (get_be b).
  pose proof (get_be_range b) as Hr. rewrite Hb in *. split; [done|]. split; [done|].
  rewrite get_be_pair. pose proof (bz_range b0). pose proof (bz_range b1). split; [lia|].
  apply (Z.div_unique _ _ _ (bz b1)); lia.
Qed.

Lemma prefix_above width n x len : x + 2 ^ (width - len) <= n -> inPrefix width n (x, len) = false.
Proof. intros H. unfold inPrefix. cbn [fst snd]. apply andb_false_iff. right. by apply Z.ltb_ge. Qed.

Lemma prefix_below width n x len : n < x -> inPrefix width n (x, len) = false.
Proof. intros H. unfold inPrefix. cbn [fst snd]. apply andb_false_iff. left. by apply Z.leb_gt. Qed.

Lemma mapped_not_native n : 281470681743360 <= n < 281474976710656 -> existsb (inPrefix 128 n) nativePrefixes6 = false.
Proof.
  intros Hn. unfold nativePrefixes6. cbn [existsb].
  rewrite !prefix_above by (powers; lia). rewrite !prefix_below by (powers; lia). done.
Qed.

Lemma native_not_mapped n : n < 281470681743360 \/ 281474976710656 <= n -> existsb (inPrefix 128 n) mappedPrefixes6 = false.
Proof.
  intros Hn. unfold mappedPrefixes6, netipPrefixes4, ip4. cbn [fmap list_fmap existsb fst snd].
  destruct Hn; [rewrite !prefix_below by (powers; lia)|rewrite !prefix_above by (powers; lia)]; done.
Qed.

Lemma isUnspecified6 b : zlen b = 16 -> isUnspecified (Addr6 b) = (get_be b =? 0).
Proof.
  intros Hl. unfold isUnspecified. rewrite (bool_decide_eq_false_2 (Addr6 b = Addr4 _)) by done. cbn [orb].
  apply eq_true_iff_eq. rewrite bool_decide_eq_true, Z.eqb_eq. split; [by intros [= ->]|]. intros E. f_equal.
  apply get_be_inj; [unfold zlen in Hl; cbn; lia|done].
Qed.

Lemma blocked_mapped b : zlen b = 16 -> is4In6 b = true ->
  blockedPacketAddressV1 (Addr6 b) = existsb (inPrefix 128 (get_be b)) (nativePrefixes6 ++ mappedPrefixes6).
Proof.
  intros Hl E6. destruct (mapped_number b Hl) as (HM & HN & Hd). rewrite E6 in HM. symmetry in HM.
  apply andb_true_iff in HM as [H1%Z.leb_le H2%Z.ltb_lt].
  change (65535 * 2 ^ 32) with 281470681743360 in *. change (65536 * 2 ^ 32) with 281474976710656 in *.
  rewrite existsb_app, mapped_not_native by lia. cbn [orb].
  assert (get_be (ztake 12 b) = 65535) as Ht.
  { pose proof (get_be_range (zdrop 12 b)) as Hr. rewrite Hd in Hr. change (256 ^ 4) with 4294967296 in Hr.
    change (2 ^ 32) with 4294967296 in *. lia. }
  rewrite Ht in HN. assert (unmap (Addr6 b) = Addr4 (zdrop 12 b)) as Eu by (unfold unmap; by rewrite E6).
  assert (existsb (inPrefix 128 (get_be b)) mappedPrefixes6 = existsb (inPrefix 32 (get_be (zdrop 12 b))) netipPrefixes4) as ->.
  { unfold mappedPrefixes6, netipPrefixes4. cbn [fmap list_fmap existsb fst snd]. rewrite HN, !mapped_prefix by lia. done. }
  rewrite <- netip4_prefixes by done. unfold blockedPacketAddressV1. cbn [isValid negb orb]. rewrite isUnspecified6 by done.
  unfold isLoopback, isMulticast, isLinkLocalUnicast, isLinkLocalMulticast, isPrivate. rewrite Eu. cbn [unmap].
  destruct (Z.eqb_spec (get_be b) 0) as [E0|_]; [lia|]. cbn [orb]. by destruct (_ || _).
Qed.

(** The five native prefixes by the leading word [w] of the number. *)
Lemma native_words w r : 0 <= w < 65536 -> 0 <= r < 256 ^ 14 ->
  existsb (inPrefix 128 (w * 256 ^ 14 + r)) nativePrefixes6 =
  (w * 256 ^ 14 + r =? 0) || (w * 256 ^ 14 + r =? 1) || ((252 <=? w / 256) && (w / 256 <? 254))
    || ((65152 <=? w) && (w <? 65216)) || (w / 256 =? 255).
Proof.
  intros Hw Hr. pose proof (Z.div_mod w 256 ltac:(lia)). pose proof (Z.mod_pos_bound w 256 ltac:(lia)).
  unfold nativePrefixes6. cbn [existsb]. rewrite orb_false_r, !orb_assoc. change (256 ^ 14) with 5192296858534827628530496329220096 in *.
  repeat f_equal; unfold inPrefix; cbn [fst snd]; powers; apply eq_true_iff_eq; bools; lia.
Qed.

Lemma blocked_native b : zlen b = 16 -> is4In6 b = false ->
  blockedPacketAddressV1 (Addr6 b) = existsb (inPrefix 128 (get_be b)) (nativePrefixes6 ++ mappedPrefixes6).
Proof.
  intros Hl E6. destruct (mapped_number b Hl) as (HM & _ & _). rewrite E6 in HM. symmetry in HM.
  apply andb_false_iff in HM. rewrite Z.leb_gt, Z.ltb_ge in HM.
  change (65535 * 2 ^ 32) with 281470681743360 in HM. change (65536 * 2 ^ 32) with 281474976710656 in HM.
  rewrite existsb_app, native_not_mapped, orb_false_r by done.
  assert (unmap (Addr6 b) = Addr6 b) as Eu by (unfold unmap; by rewrite E6).
  unfold blockedPacketAddressV1. cbn [isValid negb orb]. rewrite isUnspecified6 by done.
  unfold isLoopback, isMulticast, isLinkLocalUnicast, isLinkLocalMulticast, isPrivate. rewrite Eu.
  assert (bool_decide (b = zeros 15 ++ [Byte.x01]) = (get_be b =? 1)) as ->.
  { apply eq_true_iff_eq. rewrite bool_decide_eq_true, Z.eqb_eq. split; [by intros ->|]. intros E.
    apply get_be_inj; [unfold zlen in Hl; cbn; lia|done]. }
  destruct (leading_word b Hl) as (r & HG & Hr & Hw & Hb). rewrite mask_local by done.
  rewrite mask_254 by apply byteAt_range.
  pose proof (mask_multicast _ Hw) as HLM. rewrite Hb, HG, native_words by done. clear - HLM Hw.
  set (w := u16At b 0) in *. clearbody w. pose proof (Z.div_mod w 256 ltac:(lia)). pose proof (Z.mod_pos_bound w 256 ltac:(lia)).
  assert ((Z.land w 65295 =? 65282) = true -> (w / 256 =? 255) = true) as HL2 by (intros HX%HLM; apply Z.eqb_eq; lia).
  revert HL2. generalize (w * 256 ^ 14 + r =? 0), (w * 256 ^ 14 + r =? 1), (w / 256 =? 255), (Z.land w 65295 =? 65282),
    ((65152 <=? w) && (w <? 65216)), ((252 <=? w / 256) && (w / 256 <? 254)).
  intros [] [] [] [] [] [] HL2; try done; by specialize (HL2 eq_refl).
Qed.

Lemma blocked6_prefixes b : zlen b = 16 ->
  blockedPacketAddressV1 (Addr6 b) = existsb (inPrefix 128 (get_be b)) blockedPrefixes6.
Proof. intros Hl. destruct (is4In6 b) eqn:E; [by apply blocked_mapped|by apply blocked_native]. Qed.

(** ** The admission theorem *)

(** The four-byte and the sixteen-byte addresses outside the tables. *)
Definition public4 (b : bytes) : Prop := existsb (inPrefix 32 (get_be b)) blockedPrefixes4 = false.
Definition public6 (b : bytes) : Prop := existsb (inPrefix 128 (get_be b)) blockedPrefixes6 = false.

(** From the client: its own source, and the tunnel's resolver or a public
    destination. To the client: its own destination. *)
Definition addressed (origin : bool) (client dns zero : bytes) (public : bytes -> Prop) (source destination : bytes) : Prop :=
  client <> zero /\
  (if origin then source = client /\ dns <> zero /\ (destination = dns \/ public destination)
   else destination = client).

Record ipv4Shape (packet : bytes) (header : Z) : Prop := {
  v4_header : 20 <= header <= 60 /\ header <= zlen packet;
  v4_first : byteAt packet 0 = 64 + header / 4 /\ header mod 4 = 0;
  v4_total : u16At packet 2 = zlen packet;
  v4_checksum : get_be (ztake header packet) mod 65535 = 0 /\ get_be (ztake header packet) <> 0;
  v4_whole : u16At packet 6 mod 16384 = 0;
}.

Inductive admitted (packet : bytes) (origin : bool) (c4 d4 c6 d6 : bytes) : IPPacketInfoV1 -> Prop :=
  | admitted4 header : ipv4Shape packet header -> byteAt packet 9 ∈ [6; 17; 1] ->
      addressed origin c4 d4 (zeros 4) public4 (slice 12 16 packet) (slice 16 20 packet) ->
      admitted packet origin c4 d4 c6 d6
        (mkPacketInfo 4 (byteAt packet 9) (zlen packet) header (Addr4 (slice 12 16 packet)) (Addr4 (slice 16 20 packet)))
  | admitted6 n next offset : byteAt packet 0 / 16 = 6 -> 40 <= zlen packet -> u16At packet 4 + 40 = zlen packet ->
      (n <= 8)%nat -> extChain packet (byteAt packet 6) 40 n next offset -> next ∈ [6; 17; 58] ->
      addressed origin c6 d6 (zeros 16) public6 (slice 8 24 packet) (slice 24 40 packet) ->
      admitted packet origin c4 d4 c6 d6
        (mkPacketInfo 6 next (zlen packet) offset (Addr6 (slice 8 24 packet)) (Addr6 (slice 24 40 packet))).

Lemma headerLength_first packet : Z.shiftr (byteAt packet 0) 4 = 4 <->
  byteAt packet 0 = 64 + headerLengthOf packet / 4 /\ headerLengthOf packet mod 4 = 0.
Proof.
  unfold headerLengthOf. pose proof (byteAt_range packet 0). rewrite Z.shiftr_div_pow2 by lia. change (2 ^ 4) with 16.
  change 15 with (Z.ones 4). rewrite Z.land_ones by lia. change (2 ^ 4) with 16. rewrite Z.div_mul, Z.mod_mul by lia.
  pose proof (Z.div_mod (byteAt packet 0) 16 ltac:(lia)). pose proof (Z.mod_pos_bound (byteAt packet 0) 16 ltac:(lia)). lia.
Qed.

Lemma header_unique packet header : byteAt packet 0 = 64 + header / 4 -> header mod 4 = 0 -> 20 <= header <= 60 ->
  header = headerLengthOf packet.
Proof.
  intros Hf Hm Hr. unfold headerLengthOf. change 15 with (Z.ones 4). rewrite Z.land_ones by lia. change (2 ^ 4) with 16.
  rewrite Hf. pose proof (Z.div_mod header 4 ltac:(lia)) as E.
  replace (64 + header / 4) with (header / 4 + 4 * 16) by lia. rewrite Z.mod_add by lia.
  rewrite Z.mod_small by lia. lia.
Qed.

Lemma ipv4Shape_checks packet : Z.shiftr (byteAt packet 0) 4 = 4 ->
  (zlen packet <? 20 = false /\
   badIPv4Shape packet (headerLengthOf packet) || negb (ipv4ChecksumV1 (ztake (headerLengthOf packet) packet) =? 0) = false /\
   negb (Z.land (u16At packet 6) 16383 =? 0) = false) <-> ipv4Shape packet (headerLengthOf packet).
Proof.
  intros Hv. apply headerLength_first in Hv as [Hf Hm]. unfold badIPv4Shape.
  change 16383 with (Z.ones 14). rewrite Z.land_ones by lia. change (2 ^ 14) with 16384.
  rewrite !orb_false_iff, !negb_false_iff, !Z.ltb_ge, !Z.eqb_eq.
  set (h := headerLengthOf packet) in *.
  assert (20 <= h <= 60 -> h <= zlen packet -> ipv4ChecksumV1 (ztake h packet) = 0 <->
    get_be (ztake h packet) mod 65535 = 0 /\ get_be (ztake h packet) <> 0) as HC.
  { intros Hh Hp. assert (zlen (ztake h packet) = h) as Hl by (rewrite zlen_ztake; lia).
    assert (padded (ztake h packet) = ztake h packet) as Ep.
    { unfold padded. rewrite Hl. replace h with (2 * (2 * (h / 4))) by (pose proof (Z.div_mod h 4); lia).
      by rewrite Z.even_mul. }
    rewrite ipv4Checksum_exact, Ep by lia. done. }
  split.
  - intros (H1 & ((((? & ?) & ?) & ?) & ?) & ?). constructor; try done; try lia; apply HC; lia.
  - intros [[? ?] _ ? ? ?]. split; [lia|]. split; [|done]. split; [lia|]. apply HC; lia.
Qed.

Lemma protocol_in p a b c : negb (p =? a) && negb (p =? b) && negb (p =? c) = false <-> p ∈ [a; b; c].
Proof.
  rewrite !andb_false_iff, !negb_false_iff, !Z.eqb_eq, !elem_of_cons, elem_of_nil. tauto.
Qed.

(** The direction and destination checks, for either family. *)
Lemma validateIPv4_ok packet direction assigned dns info : Z.shiftr (byteAt packet 0) 4 = 4 ->
  validateIPv4PacketV1 packet direction assigned (Addr4 dns) = Ok info <->
  ipv4Shape packet (headerLengthOf packet) /\ byteAt packet 9 ∈ [6; 17; 1] /\
  (direction = DirectionRelayV1 -> assigned <> zeros 4 /\ slice 12 16 packet = assigned) /\
  (slice 16 20 packet = dns \/ public4 (slice 16 20 packet)) /\
  info = mkPacketInfo 4 (byteAt packet 9) (zlen packet) (headerLengthOf packet) (Addr4 (slice 12 16 packet))
           (Addr4 (slice 16 20 packet)).
Proof.
  intros Hv. unfold validateIPv4PacketV1. cbv zeta.
  rewrite !reject_bind_ok, <- (ipv4Shape_checks packet Hv), protocol_in.
  assert (forall x y : bytes, bool_decide (Addr4 x = Addr4 y) = bool_decide (x = y)) as EA.
  { intros x y. apply bool_decide_ext. split; [by intros [=]|by intros ->]. }
  rewrite EA. split.
  - intros (H1 & H2 & H3 & H4 & H5 & H6 & <-%Ok_inj). split; [done|]. split; [done|]. split.
    + intros ->. rewrite Z.eqb_refl in H5. cbn [andb] in H5. apply orb_false_iff in H5 as [H5 H5'].
      apply bool_decide_eq_false in H5. by apply negb_false_iff, bool_decide_eq_true in H5'.
    + split; [|done]. apply andb_false_iff in H6 as [H6|H6].
      * left. by apply negb_false_iff, bool_decide_eq_true in H6.
      * right. unfold public4. rewrite <- blocked4_prefixes; [done|]. apply zlen_slice; [lia|]. apply Z.ltb_ge in H1. lia.
  - intros ((H1 & H2 & H3) & H4 & H5 & H6 & ->). split_and!; try done.
    + apply andb_false_iff. destruct (Z.eqb_spec direction DirectionRelayV1) as [E|]; [right|by left].
      destruct (H5 E) as [Hz He]. rewrite bool_decide_eq_false_2, bool_decide_eq_true_2 by done. done.
    + apply andb_false_iff. destruct H6 as [H6|H6]; [left; by rewrite bool_decide_eq_true_2|right].
      rewrite blocked4_prefixes; [done|]. apply zlen_slice; [lia|]. apply Z.ltb_ge in H1. lia.
Qed.

Lemma validateIPv6_ok packet direction assigned dns info :
  validateIPv6PacketV1 packet direction assigned (Addr6 dns) = Ok info <->
  40 <= zlen packet /\ u16At packet 4 + 40 = zlen packet /\
  (direction = DirectionRelayV1 -> assigned <> zeros 16 /\ slice 8 24 packet = assigned) /\
  (slice 24 40 packet = dns \/ public6 (slice 24 40 packet)) /\
  exists n next offset, (n <= 8)%nat /\ extChain packet (byteAt packet 6) 40 n next offset /\ next ∈ [6; 17; 58] /\
    info = mkPacketInfo 6 next (zlen packet) offset (Addr6 (slice 8 24 packet)) (Addr6 (slice 24 40 packet)).
Proof.
  unfold validateIPv6PacketV1. cbv zeta.
  assert (forall x y : bytes, bool_decide (Addr6 x = Addr6 y) = bool_decide (x = y)) as EA.
  { intros x y. apply bool_decide_ext. split; [by intros [=]|by intros ->]. }
  rewrite EA, !reject_bind_ok, orb_false_iff, negb_false_iff, Z.ltb_ge, Z.eqb_eq. split.
  - intros ([H1 H2] & H3 & H4 & H5). split; [done|]. split; [done|]. split.
    + intros ->. rewrite Z.eqb_refl in H3. cbn [andb] in H3. apply orb_false_iff in H3 as [H3 H3'].
      apply bool_decide_eq_false in H3. by apply negb_false_iff, bool_decide_eq_true in H3'.
    + split.
      * apply andb_false_iff in H4 as [H4|H4]; [left; by apply negb_false_iff, bool_decide_eq_true in H4|right].
        unfold public6. rewrite <- blocked6_prefixes; [done|]. apply zlen_slice; lia.
      * apply rbind_ok in H5 as ([next offset] & HS & H5). apply skipExtensions_chain in HS as (n & Hn & HC).
        apply reject_bind_ok in H5 as [_ H5]. apply reject_bind_ok in H5 as [Hp%protocol_in <-%Ok_inj]. by exists n, next, offset.
  - intros (H1 & H2 & H3 & H4 & n & next & offset & Hn & HC & Hp & ->). split_and!; try done.
    + apply andb_false_iff. destruct (Z.eqb_spec direction DirectionRelayV1) as [E|]; [right|by left].
      destruct (H3 E) as [Hz He]. rewrite bool_decide_eq_false_2, bool_decide_eq_true_2 by done. done.
    + apply andb_false_iff. destruct H4 as [H4|H4]; [left; by rewrite bool_decide_eq_true_2|right].
      rewrite blocked6_prefixes; [done|]. apply zlen_slice; lia.
    + apply rbind_ok. exists (next, offset). split; [apply skipExtensions_chain; eauto|].
      apply reject_bind_ok. split.
      * apply Z.eqb_neq. intros ->. rewrite !elem_of_cons, elem_of_nil in Hp. lia.
      * apply reject_bind_ok. split; [by apply protocol_in|done].
Qed.

Lemma admitted_version packet origin c4 d4 c6 d6 info : admitted packet origin c4 d4 c6 d6 info ->
  zlen packet <> 0 /\ (pi_Version info = 4 /\ Z.shiftr (byteAt packet 0) 4 = 4 \/ pi_Version info = 6 /\ Z.shiftr (byteAt packet 0) 4 = 6).
Proof.
  intros [header HS _ _|n next offset Hv Hl _ _ _ _ _]; cbn [pi_Version].
  - destruct HS as [[? ?] [Hf Hm] _ _ _]. split; [lia|]. left. split; [done|].
    rewrite Z.shiftr_div_pow2, Hf by lia. change (2 ^ 4) with 16.
    pose proof (Z.div_mod header 4 ltac:(lia)). symmetry. apply (Z.div_unique _ 16 4 (header / 4)); lia.
  - split; [lia|]. right. split; [done|]. by rewrite Z.shiftr_div_pow2 by lia.
Qed.

Lemma outbound_admitted packet c4 d4 c6 d6 info :
  validateClientOutboundIPPacketV1 packet c4 d4 c6 d6 = Ok info <-> admitted packet true c4 d4 c6 d6 info.
Proof.
  unfold validateClientOutboundIPPacketV1. cbv zeta. rewrite reject_bind_ok, Z.eqb_neq. split.
  - intros [Hne H]. destruct (Z.eqb_spec (Z.shiftr (byteAt packet 0) 4) 4) as [Hv|Hv].
    + apply reject_bind_ok in H as [Hc%bool_decide_eq_false H]. apply reject_bind_ok in H as [Hd%bool_decide_eq_false H].
      apply (validateIPv4_ok _ _ _ _ _ Hv) in H as (HS & Hp & Hs & Hdst & ->). destruct (Hs eq_refl) as [_ He].
      by apply admitted4; try done.
    + destruct (Z.eqb_spec (Z.shiftr (byteAt packet 0) 4) 6) as [Hv6|]; [|done].
      apply reject_bind_ok in H as [Hc%bool_decide_eq_false H]. apply reject_bind_ok in H as [Hd%bool_decide_eq_false H].
      apply validateIPv6_ok in H as (HL & HT & Hs & Hdst & n & next & offset & Hn & HC & Hp & ->).
      destruct (Hs eq_refl) as [_ He]. eapply admitted6; try done.
      by rewrite Z.shiftr_div_pow2 in Hv6 by lia.
  - intros HA. pose proof (admitted_version _ _ _ _ _ _ _ HA) as [Hne Hv]. split; [done|].
    destruct HA as [header HS Hp (Hc & Hs & Hd & Hdst)|n next offset Hb HL HT Hn HC Hp (Hc & Hs & Hd & Hdst)];
      cbn [pi_Version] in Hv; destruct Hv as [[? Hv]|[? Hv]]; try lia; rewrite Hv; cbn [Z.eqb Pos.eqb];
      rewrite !reject_bind_ok, !bool_decide_eq_false; (split; [done|]); (split; [done|]).
    + destruct (v4_first _ _ HS) as [Hf Hm]. rewrite (header_unique packet header Hf Hm (proj1 (v4_header _ _ HS))) in HS |- *.
      by apply validateIPv4_ok.
    + apply validateIPv6_ok. split_and!; try done. by exists n, next, offset.
Qed.

Lemma return_admitted packet c4 d4 c6 d6 info :
  (let? info := validateReturnIPPacketV1 packet c4 c6 in
   fail? ((pi_Version info =? 4) && (bool_decide (c4 = zeros 4) || negb (bool_decide (pi_dest info = Addr4 c4))))
      || ((pi_Version info =? 6) && (bool_decide (c6 = zeros 16) || negb (bool_decide (pi_dest info = Addr6 c6))))
     with ErrPacketDestination in Ok info) = Ok info <-> admitted packet false c4 d4 c6 d6 info.
Proof.
  rewrite rbind_ok. setoid_rewrite reject_bind_ok. unfold validateReturnIPPacketV1. cbv zeta. split.
  - intros (i & [_ H] & Hd & <-%Ok_inj).
    destruct (Z.eqb_spec (Z.shiftr (byteAt packet 0) 4) 4) as [Hv|Hv].
    + apply reject_bind_ok in H as [Hc%bool_decide_eq_false H].
      apply (validateIPv4_ok _ _ _ _ _ Hv) in H as (HS & Hp & _ & _ & ->). cbn in Hd.
      rewrite bool_decide_eq_false_2 in Hd by done. cbn in Hd. rewrite orb_false_r in Hd.
      apply negb_false_iff, bool_decide_eq_true in Hd. injection Hd as Hd. by apply admitted4.
    + destruct (Z.eqb_spec (Z.shiftr (byteAt packet 0) 4) 6) as [Hv6|]; [|done].
      apply reject_bind_ok in H as [Hc%bool_decide_eq_false H].
      apply validateIPv6_ok in H as (HL & HT & _ & _ & n & next & offset & Hn & HC & Hp & ->). cbn in Hd.
      rewrite bool_decide_eq_false_2 in Hd by done. cbn in Hd.
      apply negb_false_iff, bool_decide_eq_true in Hd. injection Hd as Hd. eapply admitted6; try done.
      by rewrite Z.shiftr_div_pow2 in Hv6 by lia.
  - intros HA. pose proof (admitted_version _ _ _ _ _ _ _ HA) as [Hne Hv]. exists info.
    destruct HA as [header HS Hp (Hc & Hdst)|n next offset Hb HL HT Hn HC Hp (Hc & Hdst)];
      cbn [pi_Version pi_dest] in *; destruct Hv as [[? Hv]|[? Hv]]; try lia; rewrite Hv; cbn [Z.eqb Pos.eqb];
      rewrite !reject_bind_ok, !bool_decide_eq_false, Z.eqb_neq, Hdst; (split; [split; [done|]; split; [done|]|]).
    + destruct (v4_first _ _ HS) as [Hf Hm]. rewrite (header_unique packet header Hf Hm (proj1 (v4_header _ _ HS))) in HS |- *.
      apply validateIPv4_ok; [done|]. rewrite Hdst. split_and!; try done. by left.
    + rewrite (bool_decide_eq_false_2 (c4 = _)), (bool_decide_eq_true_2 (Addr4 c4 = Addr4 c4)) by done. done.
    + apply validateIPv6_ok. rewrite Hdst. split_and!; try done; [by left|]. by exists n, next, offset.
    + rewrite (bool_decide_eq_false_2 (c6 = _)), (bool_decide_eq_true_2 (Addr6 c6 = Addr6 c6)) by done. done.
Qed.

(** The header checks of either direction. *)
Lemma origin_admitted packet (origin : bool) c4 d4 c6 d6 i :
  (if origin then validateClientOutboundIPPacketV1 packet c4 d4 c6 d6 else
    let? info := validateReturnIPPacketV1 packet c4 c6 in
    fail? ((pi_Version info =? 4) && (bool_decide (c4 = zeros 4) || negb (bool_decide (pi_dest info = Addr4 c4))))
      || ((pi_Version info =? 6) && (bool_decide (c6 = zeros 16) || negb (bool_decide (pi_dest info = Addr6 c6))))
     with ErrPacketDestination in Ok info) = Ok i <-> admitted packet origin c4 d4 c6 d6 i.
Proof. destruct origin; [apply outbound_admitted|apply return_admitted]. Qed.

(** C23: the tunnel admits exactly the packets its addresses allow. A packet is
    taken from the client when it is a whole, unfragmented IPv4 or IPv6 packet
    within the MTU whose lengths and header checksum are right, whose header chain
    keeps the limits on the number and the size of extension headers and ends in an
    allowed protocol, whose source is the client's own address and whose destination
    is the tunnel's resolver or lies outside every blocked prefix; and it is
    delivered to the client when its destination is the client's own address. The
    client's address of that version, and for outbound packets the resolver's, must
    not be zero. Everything else is refused. *)
Theorem tunnel_admits_exactly packet origin mtu c4 d4 c6 d6 protocols info :
  effectivePacketInfoV1 packet origin mtu c4 d4 c6 d6 protocols = Ok info <->
  zlen packet <= mtu /\ admitted packet origin c4 d4 c6 d6 info /\
  exists name, payloadProtocol (pi_Protocol info) = Ok name /\ name ∈ protocols.
Proof.
  unfold effectivePacketInfoV1. rewrite reject_bind_ok, orb_false_iff, Z.eqb_neq, Z.ltb_ge, rbind_ok.
  split.
  - intros ([_ Hm] & i & HA%origin_admitted & HP). apply rbind_ok in HP as (name & Hn & HP).
    destruct (mem name protocols) eqn:E; [|done]. apply Ok_inj in HP as ->. apply mem_true in E. eauto.
  - intros (Hm & HA & name & Hn & Hin). split; [split; [by apply (admitted_version _ _ _ _ _ _ _ HA)|done]|].
    exists info. split; [by apply origin_admitted|]. rewrite Hn. cbn [rbind]. apply mem_true in Hin. by rewrite Hin.
Qed.

(** ** The IPv4-mapped forms *)

(** Of the blocked IPv4 prefixes, shared address space, network zero and the
    broadcast address are blocked only in their IPv4 form: their IPv4-mapped IPv6
    forms are admitted. *)
Lemma mapped_shared_admitted :
  let v4 b := blockedPacketAddressV1 (Addr4 (zb <$> b)) in
  let v6 b := blockedPacketAddressV1 (Addr6 (mappedPrefix ++ (zb <$> b))) in
  (v4 [100; 64; 0; 1] = true /\ v6 [100; 64; 0; 1] = false) /\
  (v4 [0; 0; 0; 1] = true /\ v6 [0; 0; 0; 1] = false) /\
  (v4 [255; 255; 255; 255] = true /\ v6 [255; 255; 255; 255] = false) /\
  (v4 [10; 0; 0; 1] = true /\ v6 [10; 0; 0; 1] = true).
Proof. vm_compute. repeat split. Qed.

(** ** Witnesses *)

(** A datagram from 10.8.0.2 to port 53 of 8.8.8.8. *)
Definition sampleDatagram : bytes :=
  zb <$> [69; 0; 0; 28; 0; 1; 64; 0; 64; 17; 32; 183; 10; 8; 0; 2; 8; 8; 8; 8; 48; 57; 0; 53; 0; 8; 0; 0].

Definition sampleHeader : bytes := ztake 20 sampleDatagram.

Lemma header_checksum_exact_witness :
  ipv4ChecksumV1 sampleHeader = 0 /\ ipv4ChecksumV1 (zb 70 :: drop 1 sampleHeader) <> 0.
Proof.
  assert (H0 : ipv4ChecksumV1 sampleHeader = 0) by (vm_compute; reflexivity).
  split; [exact H0|].
  apply (proj2 (header_checksum_exact sampleHeader ltac:(vm_compute; discriminate)) [] (zb 69) (zb 70) (drop 1 sampleHeader));
    [vm_compute; reflexivity | vm_compute; discriminate | exact H0].
Defined.

Lemma sampleDatagram_admitted :
  effectivePacketInfoV1 sampleDatagram true 1280 (zb <$> [10; 8; 0; 2]) (zb <$> [10; 8; 0; 1]) (zeros 16) (zeros 16) ["udp"]
  = Ok (mkPacketInfo 4 17 28 20 (Addr4 (zb <$> [10; 8; 0; 2])) (Addr4 (zb <$> [8; 8; 8; 8]))).
Proof. vm_compute. reflexivity. Qed.
