(* ===== verification/FlowTable.v ===== *)
(** * The flow table of a tunnel

    [src/internal/runtime/production_flow_v1.go]: a fixed table of TCP and UDP
    flows, found through an open-addressing index with tombstones and handed out
    as generation-checked references. A position in a slice is a [nat], an absent
    one [None]; a cell of the index is the [uint16] of the source. A time is the
    nanoseconds since the zero [time.Time]. Every method holds the table's mutex
    from entry to exit, so a call is one step; a method that changes the table
    returns the new one. Sizes of Go types are parameters. *)

From S2P Require Import Prelude GoBytes IpPacket.
From Stdlib Require Import ZArith Lia Strings.Byte.
From stdpp Require Import base list.
Local Open Scope Z_scope.

#[export] Instance productionFlowKeyV1_eq_dec : EqDecision productionFlowKeyV1.
Proof. solve_decision. Defined.

Inductive flow_error := ServiceInvalidRequestV1 | ServiceResourceLimitV1 | FlowPacketInvalid.

Record productionFlowRefV1 := mkFlowRef { ref_generation : Z; ref_index : Z }.

Definition noRef : productionFlowRefV1 := mkFlowRef 0 0.

Record productionFlowEntryV1 := mkFlowEntry {
  fe_key : productionFlowKeyV1;
  fe_activity : Z;
  fe_generation : Z;
  fe_references : Z;
  fe_accepted : bool;
}.

Definition zeroKey : productionFlowKeyV1 := mkFlowKey (zeros 16) (zeros 16) 0 0 0 0.
Definition zeroEntry : productionFlowEntryV1 := mkFlowEntry zeroKey 0 0 0 false.

Record productionFlowTableV1 := mkFlowTable {
  ft_entries : list productionFlowEntryV1;
  ft_index : list Z;
  ft_free : list Z;
  ft_idle : Z;
  ft_nextGeneration : Z;
  ft_tcpCapacity : Z;
  ft_tcpFree : Z;
  ft_udpFree : Z;
  ft_destroyed : bool;
}.

Definition tombstone : Z := 65535.
Definition hour : Z := 3600000000000.

(** [for index < 2*n { index *= 2 }]. *)
Fixpoint indexSize (fuel : nat) (index n : Z) : Z :=
  match fuel with
  | O => index
  | S fuel => if index <? 2 * n then indexSize fuel (index * 2) n else index
  end.

Definition indexFuel : nat := 16.

Definition productionFlowStorageV1 (sizeofTable sizeofEntry : Z) (tcp udp : Z) : result flow_error (Z * Z) :=
  fail? (4096 <? tcp) || (2048 <? udp) || (tcp + udp =? 0) with ServiceInvalidRequestV1 in
  let n := tcp + udp in
  let index := indexSize indexFuel 1 n in
  let owned := wrap64 (sizeofTable + n * sizeofEntry + (index + n) * 2) in
  fail? (16384 <? index) || (1048576 <? owned) with ServiceResourceLimitV1 in
  Ok (owned, index).

Definition newProductionFlowTableV1 (sizeofTable sizeofEntry : Z) (tcp udp idle : Z)
    : result flow_error productionFlowTableV1 :=
  let? (_, index) := productionFlowStorageV1 sizeofTable sizeofEntry tcp udp in
  fail? (idle <=? 0) || (hour <? idle) with ServiceInvalidRequestV1 in
  let n := Z.to_nat (tcp + udp) in
  Ok (mkFlowTable (replicate n zeroEntry) (replicate (Z.to_nat index) 0) (seqZ 0 (tcp + udp)) idle 0 tcp tcp udp false).

(** FNV-1a over the key. *)
Definition flowHashV1 (k : productionFlowKeyV1) : Z :=
  let step h b := wrap64 (Z.lxor h (bz b) * 1099511628211) in
  let h := foldl step 14695981039346656037 (fk_source k ++ fk_destination k) in
  foldl step h [zb (Z.shiftr (fk_sourcePort k) 8); zb (fk_sourcePort k); zb (Z.shiftr (fk_destinationPort k) 8);
                zb (fk_destinationPort k); zb (fk_family k); zb (fk_protocol k)].

Definition entryAt (entries : list productionFlowEntryV1) (i : nat) : productionFlowEntryV1 := nth i entries zeroEntry.

(** The cell of probe [n]. *)
Definition probeCell (index : list Z) (k : productionFlowKeyV1) (n : Z) : nat :=
  let mask := zlen index - 1 in
  Z.to_nat (Z.land (Z.land (flowHashV1 k) mask + n) mask).

Fixpoint findLoop (entries : list productionFlowEntryV1) (index : list Z) (k : productionFlowKeyV1) (fuel : nat) (n : Z)
    (first : option nat) : option nat * option nat :=
  match fuel with
  | O => (None, first)
  | S fuel =>
      let cell := probeCell index k n in
      let v := nth cell index 0 in
      if v =? 0 then (None, Some (default cell first))
      else if v =? tombstone then
        findLoop entries index k fuel (n + 1) (Some (default cell first))
      else if bool_decide (fe_key (entryAt entries (Z.to_nat (v - 1))) = k) then (Some (Z.to_nat (v - 1)), Some cell)
      else findLoop entries index k fuel (n + 1) first
  end.

Definition findLockedV1 (f : productionFlowTableV1) (k : productionFlowKeyV1) : option nat * option nat :=
  findLoop (ft_entries f) (ft_index f) k (length (ft_index f)) 0 None.

Definition setEntry (f : productionFlowTableV1) (i : nat) (e : productionFlowEntryV1) : productionFlowTableV1 :=
  mkFlowTable (<[i := e]> (ft_entries f)) (ft_index f) (ft_free f) (ft_idle f) (ft_nextGeneration f) (ft_tcpCapacity f)
    (ft_tcpFree f) (ft_udpFree f) (ft_destroyed f).

Definition removeLockedV1 (f : productionFlowTableV1) (i : nat) : productionFlowTableV1 :=
  let e := entryAt (ft_entries f) i in
  let index := match snd (findLockedV1 f (fe_key e)) with
               | Some cell => <[cell := tombstone]> (ft_index f)
               | None => ft_index f
               end in
  let tcp := Z.of_nat i <? ft_tcpCapacity f in
  let slot := Z.to_nat (if tcp then ft_tcpFree f else ft_tcpCapacity f + ft_udpFree f) in
  mkFlowTable (<[i := zeroEntry]> (ft_entries f)) index (<[slot := wrap16 (Z.of_nat i)]> (ft_free f)) (ft_idle f)
    (ft_nextGeneration f) (ft_tcpCapacity f)
    (if tcp then wrap16 (ft_tcpFree f + 1) else ft_tcpFree f)
    (if tcp then ft_udpFree f else wrap16 (ft_udpFree f + 1)) (ft_destroyed f).

(** An entry nobody holds that was never accepted or has been idle. *)
Definition expired (idle now : Z) (e : productionFlowEntryV1) : bool :=
  negb (fe_generation e =? 0) && (fe_references e =? 0)
  && (negb (fe_accepted e) || negb (now <? fe_activity e + idle)).

Definition expireLockedV1 (f : productionFlowTableV1) (now : Z) : productionFlowTableV1 :=
  foldl (fun f i => if expired (ft_idle f) now (entryAt (ft_entries f) i) then removeLockedV1 f i else f) f
    (seq 0 (length (ft_entries f))).

Definition maxUint32 : Z := 4294967295.

(** [e.references++] and the reference of the entry. *)
Definition lease (f : productionFlowTableV1) (i : nat) : productionFlowTableV1 * result flow_error productionFlowRefV1 :=
  let e := entryAt (ft_entries f) i in
  if fe_references e =? maxUint32 then (f, Err ServiceResourceLimitV1)
  else (setEntry f i (mkFlowEntry (fe_key e) (fe_activity e) (fe_generation e) (fe_references e + 1) (fe_accepted e)),
        Ok (mkFlowRef (fe_generation e) (wrap16 (Z.of_nat i + 1)))).

(** A free entry of the key's class takes the cell the search returned. *)
Definition install (f : productionFlowTableV1) (k : productionFlowKeyV1) (cell : nat) (tcp : bool)
    : productionFlowTableV1 * nat :=
  let tcpFree := if tcp then ft_tcpFree f - 1 else ft_tcpFree f in
  let udpFree := if tcp then ft_udpFree f else ft_udpFree f - 1 in
  let slot := if tcp then tcpFree else ft_tcpCapacity f + udpFree in
  let i := Z.to_nat (nth (Z.to_nat slot) (ft_free f) 0) in
  let generation := ft_nextGeneration f + 1 in
  (mkFlowTable (<[i := mkFlowEntry k 0 generation 0 false]> (ft_entries f))
     (<[cell := wrap16 (Z.of_nat i + 1)]> (ft_index f)) (ft_free f) (ft_idle f) generation (ft_tcpCapacity f)
     tcpFree udpFree (ft_destroyed f), i).

Definition reserveV1 (f : productionFlowTableV1) (k : productionFlowKeyV1) (now : Z)
    : productionFlowTableV1 * result flow_error productionFlowRefV1 :=
  if ft_destroyed f then (f, Err ServiceInvalidRequestV1)
  else if (now =? 0) || (negb (fk_family k =? 4) && negb (fk_family k =? 6))
          || (negb (fk_protocol k =? 6) && negb (fk_protocol k =? 17)) then (f, Err FlowPacketInvalid)
  else
    let f := expireLockedV1 f now in
    match findLockedV1 f k with
    | (Some i, _) => lease f i
    | (None, None) => (f, Err ServiceResourceLimitV1)
    | (None, Some cell) =>
        if ft_nextGeneration f =? MaxUint64 then (f, Err ServiceResourceLimitV1)
        else
          let tcp := fk_protocol k =? 6 in
          if (if tcp then ft_tcpFree f else ft_udpFree f) =? 0 then (f, Err ServiceResourceLimitV1)
          else let '(f, i) := install f k cell tcp in lease f i
    end.

(** The entry of a reference that is still current. *)
Definition entryLockedV1 (f : productionFlowTableV1) (r : productionFlowRefV1) : option (nat * productionFlowEntryV1) :=
  if ft_destroyed f || (ref_index r =? 0) || (zlen (ft_entries f) <? ref_index r) || (ref_generation r =? 0) then None
  else
    let i := Z.to_nat (ref_index r - 1) in
    let e := entryAt (ft_entries f) i in
    if fe_generation e =? ref_generation r then Some (i, e) else None.

Definition acceptV1 (f : productionFlowTableV1) (r : productionFlowRefV1) (now : Z) : productionFlowTableV1 :=
  match entryLockedV1 f r with
  | Some (i, e) =>
      if (0 <? fe_references e) && negb (now =? 0) then
        setEntry f i (mkFlowEntry (fe_key e) (if fe_activity e <? now then now else fe_activity e) (fe_generation e)
                        (fe_references e) true)
      else f
  | None => f
  end.

Definition releaseV1 (f : productionFlowTableV1) (r : productionFlowRefV1) : productionFlowTableV1 :=
  match entryLockedV1 f r with
  | Some (i, e) =>
      if 0 <? fe_references e then
        let f := setEntry f i (mkFlowEntry (fe_key e) (fe_activity e) (fe_generation e) (fe_references e - 1) (fe_accepted e)) in
        if (fe_references e - 1 =? 0) && negb (fe_accepted e) then removeLockedV1 f i else f
      else f
  | None => f
  end.

Definition lookupV1 (f : productionFlowTableV1) (k : productionFlowKeyV1) (now : Z)
    : productionFlowTableV1 * productionFlowRefV1 :=
  if ft_destroyed f then (f, noRef)
  else
    let f := expireLockedV1 f now in
    match findLockedV1 f k with
    | (Some i, _) =>
        let e := entryAt (ft_entries f) i in
        (f, if fe_accepted e then mkFlowRef (fe_generation e) (wrap16 (Z.of_nat i + 1)) else noRef)
    | (None, _) => (f, noRef)
    end.

Definition refreshV1 (f : productionFlowTableV1) (r : productionFlowRefV1) (now : Z) : productionFlowTableV1 :=
  match entryLockedV1 f r with
  | Some (i, e) =>
      if fe_accepted e && ((0 <? fe_references e) || (now <? fe_activity e + ft_idle f)) && (fe_activity e <? now) then
        setEntry f i (mkFlowEntry (fe_key e) now (fe_generation e) (fe_references e) (fe_accepted e))
      else f
  | None => f
  end.

Definition ownedBytesV1 (sizeofTable sizeofEntry : Z) (f : productionFlowTableV1) : Z :=
  if ft_destroyed f then 0
  else wrap64 (sizeofTable + zlen (ft_entries f) * sizeofEntry + (zlen (ft_index f) + zlen (ft_free f)) * 2).

Definition destroyV1 (f : productionFlowTableV1) : productionFlowTableV1 :=
  if ft_destroyed f then f
  else mkFlowTable [] [] [] (ft_idle f) (ft_nextGeneration f) (ft_tcpCapacity f) 0 0 true.
