(* ===== verification/FlowFacts.v ===== *)
(** * The flow table is a map of leases

    The index of the table finds exactly the live entry of a key, whatever
    tombstones it has gathered ([find_live], [find_absent]); every operation keeps
    the table well formed ([step_good]); a full class, an exhausted counter or a
    destroyed table are the only reasons to refuse a flow ([flow_reserve_exact]);
    and a reference never reaches another flow than the one it was handed out for
    ([flow_refs_exact]). *)

From S2P Require Import Prelude GoBytes IpPacket FlowTable.
From Stdlib Require Import ZArith Lia Strings.Byte.
From stdpp Require Import base list.
Local Open Scope Z_scope.

Definition liveAt (f : productionFlowTableV1) (i : nat) (e : productionFlowEntryV1) : Prop :=
  ft_entries f !! i = Some e /\ fe_generation e <> 0.

Definition tcpStack (f : productionFlowTableV1) : list Z := ztake (ft_tcpFree f) (ft_free f).
Definition udpStack (f : productionFlowTableV1) : list Z := ztake (ft_udpFree f) (zdrop (ft_tcpCapacity f) (ft_free f)).

(** An entry that holds no flow. *)
Definition deadAt (f : productionFlowTableV1) (z : Z) : Prop :=
  exists e, ft_entries f !! Z.to_nat z = Some e /\ fe_generation e = 0.

Record wf (f : productionFlowTableV1) : Prop := {
  wf_size : exists m, 0 <= m /\ zlen (ft_index f) = 2 ^ m;
  wf_room : 1 <= zlen (ft_entries f) <= 6144 /\ 2 * zlen (ft_entries f) <= zlen (ft_index f);
  wf_cells : forall c v, ft_index f !! c = Some v -> v = 0 \/ v = tombstone \/
    1 <= v <= zlen (ft_entries f) /\ exists e, liveAt f (Z.to_nat (v - 1)) e;
  wf_once : forall c c' v, ft_index f !! c = Some v -> ft_index f !! c' = Some v -> v <> 0 -> v <> tombstone -> c = c';
  wf_home : forall i e, liveAt f i e -> exists j, 0 <= j < zlen (ft_index f) /\
    ft_index f !! probeCell (ft_index f) (fe_key e) j = Some (Z.of_nat i + 1) /\
    forall j', 0 <= j' < j -> ft_index f !! probeCell (ft_index f) (fe_key e) j' <> Some 0;
  wf_keys : forall i i' e e', liveAt f i e -> liveAt f i' e' -> fe_key e = fe_key e' -> i = i';
  wf_generations : forall i i' e e', liveAt f i e -> liveAt f i' e' -> fe_generation e = fe_generation e' -> i = i';
  wf_next : forall i e, liveAt f i e -> 1 <= fe_generation e <= ft_nextGeneration f;
  wf_counter : 0 <= ft_nextGeneration f <= MaxUint64;
  wf_references : forall i e, liveAt f i e -> 0 <= fe_references e <= maxUint32;
  wf_class : forall i e, liveAt f i e -> (fk_protocol (fe_key e) = 6 \/ fk_protocol (fe_key e) = 17) /\
    (fk_protocol (fe_key e) = 6 <-> Z.of_nat i < ft_tcpCapacity f);
  wf_capacity : 0 <= ft_tcpCapacity f <= zlen (ft_entries f) /\ zlen (ft_free f) = zlen (ft_entries f);
  wf_free : 0 <= ft_tcpFree f <= ft_tcpCapacity f /\ 0 <= ft_udpFree f <= zlen (ft_entries f) - ft_tcpCapacity f;
  wf_tcp : NoDup (tcpStack f) /\ forall z, z ∈ tcpStack f <-> 0 <= z < ft_tcpCapacity f /\ deadAt f z;
  wf_udp : NoDup (udpStack f) /\ forall z, z ∈ udpStack f <-> ft_tcpCapacity f <= z < zlen (ft_entries f) /\ deadAt f z;
}.

(** ** Probing *)

Section probe.
Context (index : list Z) (m : Z) (Hm : 0 <= m) (HL : zlen index = 2 ^ m).

Lemma probe_mod k n : probeCell index k n = Z.to_nat ((flowHashV1 k mod zlen index + n) mod zlen index).
Proof using Hm HL.
  unfold probeCell. cbv zeta. assert (zlen index - 1 = Z.ones m) as ->.
  { rewrite Z.ones_equiv, HL. lia. }
  by rewrite !Z.land_ones, HL by done.
Qed.

Lemma index_pos : 0 < zlen index.
Proof using Hm HL. rewrite HL. by apply Z.pow_pos_nonneg. Qed.

Lemma probe_lt k n : (probeCell index k n < length index)%nat.
Proof using Hm HL.
  rewrite probe_mod. pose proof index_pos. pose proof (Z.mod_pos_bound (flowHashV1 k mod zlen index + n) (zlen index) ltac:(lia)).
  unfold zlen in *. lia.
Qed.

Lemma probe_inj k a b : 0 <= a < zlen index -> 0 <= b < zlen index -> probeCell index k a = probeCell index k b -> a = b.
Proof using Hm HL.
  rewrite !probe_mod. pose proof index_pos. set (h := flowHashV1 k mod zlen index). intros Ha Hb E.
  pose proof (Z.mod_pos_bound (h + a) (zlen index) ltac:(lia)). pose proof (Z.mod_pos_bound (h + b) (zlen index) ltac:(lia)).
  assert ((h + a) mod zlen index = (h + b) mod zlen index) as E2 by lia.
  pose proof (Z.div_mod (h + a) (zlen index) ltac:(lia)). pose proof (Z.div_mod (h + b) (zlen index) ltac:(lia)).
  assert (a - b = zlen index * ((h + a) / zlen index - (h + b) / zlen index)) as Hab by lia.
  set (q := (h + a) / zlen index - (h + b) / zlen index) in *. clearbody q. clear - Ha Hb Hab.
  destruct (Z.lt_trichotomy q 0) as [Hq|[Hq|Hq]]; [nia|subst q; lia|nia].
Qed.

Lemma probe_surj k c : (c < length index)%nat -> exists j, 0 <= j < zlen index /\ probeCell index k j = c.
Proof using Hm HL.
  intros Hc. pose proof index_pos. set (h := flowHashV1 k mod zlen index).
  exists ((Z.of_nat c - h) mod zlen index). split; [apply Z.mod_pos_bound; lia|]. rewrite probe_mod. fold h.
  rewrite Zplus_mod_idemp_r. replace (h + (Z.of_nat c - h)) with (Z.of_nat c) by lia.
  rewrite Z.mod_small by (unfold zlen; lia). lia.
Qed.

End probe.

Lemma probe_len a b k n : zlen a = zlen b -> probeCell a k n = probeCell b k n.
Proof. intros E. unfold probeCell. by rewrite E. Qed.

#[local] Opaque probeCell.

Section search.
Context (index : list Z) (entries : list productionFlowEntryV1) (k : productionFlowKeyV1).

Let val (n : Z) : Z := nth (probeCell index k n) index 0.
Let hit (n : Z) : Prop := val n <> 0 /\ val n <> tombstone /\ fe_key (entryAt entries (Z.to_nat (val n - 1))) = k.

Lemma findLoop_hit fuel n first j : n + Z.of_nat fuel = zlen index -> n <= j < zlen index -> hit j ->
  (forall j', n <= j' < j -> val j' <> 0 /\ ~ hit j') ->
  findLoop entries index k fuel n first = (Some (Z.to_nat (val j - 1)), Some (probeCell index k j)).
Proof using.
  revert n first. induction fuel as [|fuel IH]; intros n first Hn Hj Hhit Hbefore; [lia|]. cbn [findLoop].
  fold (val n). destruct (Z.eq_dec n j) as [->|Hne].
  - destruct Hhit as (H0 & Ht & Hk). destruct (Z.eqb_spec (val j) 0); [done|]. destruct (Z.eqb_spec (val j) tombstone); [done|].
    by rewrite bool_decide_eq_true_2.
  - destruct (Hbefore n ltac:(lia)) as [H0 Hno]. destruct (Z.eqb_spec (val n) 0); [done|].
    destruct (Z.eqb_spec (val n) tombstone); [apply IH; try done; try lia; intros; apply Hbefore; lia|].
    rewrite bool_decide_eq_false_2 by (intros E; by apply Hno). apply IH; try done; try lia; intros; apply Hbefore; lia.
Qed.

(** Without a hit the search ends at the first free cell, if there is one. *)
Lemma findLoop_miss fuel n first : n + Z.of_nat fuel = zlen index -> (forall j, n <= j < zlen index -> ~ hit j) ->
  exists c, findLoop entries index k fuel n first = (None, c) /\
    match first with
    | Some cell => c = Some cell
    | None =>
        match c with
        | Some cell => exists j, n <= j < zlen index /\ cell = probeCell index k j /\ (val j = 0 \/ val j = tombstone) /\
            forall j', n <= j' < j -> val j' <> 0
        | None => forall j, n <= j < zlen index -> val j <> 0 /\ val j <> tombstone
        end
    end.
Proof using.
  revert n first. induction fuel as [|fuel IH]; intros n first Hn Hno.
  { exists first. split; [done|]. destruct first; [done|]. intros j Hj. lia. }
  cbn [findLoop]. fold (val n). destruct (Z.eqb_spec (val n) 0) as [E0|E0].
  { exists (Some (default (probeCell index k n) first)). split; [done|]. destruct first; [done|]. exists n. split; [lia|].
    split; [done|]. split; [by left|]. intros; lia. }
  destruct (Z.eqb_spec (val n) tombstone) as [Et|Et].
  { destruct (IH (n + 1) (Some (default (probeCell index k n) first))) as (c & Hc & HS); [lia|intros; apply Hno; lia|].
    exists c. split; [done|]. destruct first; [done|]. cbn in HS. rewrite HS. exists n. split; [lia|]. split; [done|].
    split; [by right|]. intros; lia. }
  rewrite bool_decide_eq_false_2 by (intros E; by apply (Hno n); [lia|]).
  destruct (IH (n + 1) first) as (c & Hc & HS); [lia|intros; apply Hno; lia|]. exists c. split; [done|].
  destruct first; [done|]. destruct c as [cell|].
  - destruct HS as (j & Hj & Ec & Ev & Hb). exists j. split; [lia|]. split; [done|]. split; [done|]. intros j' Hj'.
    destruct (Z.eq_dec j' n) as [->|]; [done|]. apply Hb. lia.
  - intros j Hj. destruct (Z.eq_dec j n) as [->|]; [done|]. apply HS. lia.
Qed.
End search.

(** ** The search finds the live entry of a key *)

Lemma nth_cell (index : list Z) c v : index !! c = Some v -> nth c index 0 = v.
Proof. intros H. rewrite nth_lookup, H. done. Qed.

Section find.
Context (f : productionFlowTableV1) (HW : wf f).

Lemma cell_lookup k j : ft_index f !! probeCell (ft_index f) k j = Some (nth (probeCell (ft_index f) k j) (ft_index f) 0).
Proof using HW.
  destruct (wf_size f HW) as (m & Hm & HL).
  destruct (lookup_lt_is_Some_2 (ft_index f) (probeCell (ft_index f) k j)) as [v Hv]; [apply (probe_lt _ m Hm HL)|].
  rewrite Hv. f_equal. symmetry. by apply nth_cell.
Qed.

Lemma entryAt_live i e : ft_entries f !! i = Some e -> entryAt (ft_entries f) i = e.
Proof using. intros H. unfold entryAt. by rewrite nth_lookup, H. Qed.

Lemma find_live i e : liveAt f i e ->
  exists c, findLockedV1 f (fe_key e) = (Some i, Some c) /\ ft_index f !! c = Some (Z.of_nat i + 1).
Proof using HW.
  intros Hlive. destruct (wf_size f HW) as (m & Hm & HL). destruct (wf_home f HW i e Hlive) as (j & Hj & Hc & Hbefore).
  exists (probeCell (ft_index f) (fe_key e) j). split; [|done]. unfold findLockedV1.
  pose proof (proj1 (wf_room f HW)) as Hn. assert (Z.of_nat i < zlen (ft_entries f)) as Hi.
  { destruct Hlive as [Hlive _]. apply lookup_lt_Some in Hlive. unfold zlen. lia. }
  pose proof (nth_cell _ _ _ Hc) as Ev.
  rewrite (findLoop_hit _ _ _ _ 0 None j); [|unfold zlen; lia|lia| |].
  - rewrite Ev. do 2 f_equal. lia.
  - rewrite Ev. split; [lia|]. split; [unfold tombstone; lia|].
    replace (Z.to_nat (Z.of_nat i + 1 - 1)) with i by lia. by rewrite (entryAt_live i e) by apply Hlive.
  - intros j' Hj'. specialize (Hbefore j' ltac:(lia)). pose proof (cell_lookup (fe_key e) j') as E'.
    split; [intros E0; by rewrite E0 in E'|]. intros (H0 & Ht & Hk).
    destruct (wf_cells f HW _ _ E') as [|[|(_ & e' & Hlive')]]; [done|done|].
    rewrite (entryAt_live _ e') in Hk by apply Hlive'.
    pose proof (wf_keys f HW _ _ _ _ Hlive' Hlive Hk) as Ei.
    assert (probeCell (ft_index f) (fe_key e) j' = probeCell (ft_index f) (fe_key e) j) as Ep.
    { eapply (wf_once f HW); [exact E'| |done|done]. rewrite Hc. f_equal.
      destruct (wf_cells f HW _ _ E') as [|[|(? & _)]]; [done|done|]. lia. }
    apply (probe_inj _ m Hm HL) in Ep; lia.
Qed.

(** The live cells are too few to fill the index. *)
Lemma free_cell : exists c v, ft_index f !! c = Some v /\ (v = 0 \/ v = tombstone).
Proof using HW.
  destruct (wf_room f HW) as [Hn H2]. destruct (decide (Forall (fun v => v <> 0 /\ v <> tombstone) (ft_index f))) as [HF|HF].
  - exfalso. rewrite Forall_lookup in HF.
    assert (NoDup (ft_index f)) as HND.
    { apply NoDup_alt. intros c c' v Hc Hc'. destruct (HF _ _ Hc). by eapply (wf_once f HW). }
    assert (ft_index f ⊆ seqZ 1 (zlen (ft_entries f))) as Hsub.
    { intros v (c & Hc)%list_elem_of_lookup. destruct (HF _ _ Hc).
      destruct (wf_cells f HW _ _ Hc) as [|[|(? & _)]]; [done|done|]. apply elem_of_seqZ. lia. }
    pose proof (submseteq_length _ _ (NoDup_submseteq _ _ HND Hsub)) as Hlen. rewrite length_seqZ in Hlen. unfold zlen in *. lia.
  - apply not_Forall_Exists, Exists_exists in HF as (v & (c & Hc)%list_elem_of_lookup & Hv); [|intros ?; solve_decision].
    exists c, v. split; [done|]. cbn in Hv. destruct (Z.eq_dec v 0), (Z.eq_dec v tombstone); auto. exfalso. by apply Hv.
Qed.

Lemma find_absent k : (forall i e, liveAt f i e -> fe_key e <> k) ->
  exists c j v, findLockedV1 f k = (None, Some c) /\ 0 <= j < zlen (ft_index f) /\ c = probeCell (ft_index f) k j /\
    ft_index f !! c = Some v /\ (v = 0 \/ v = tombstone) /\
    forall j', 0 <= j' < j -> ft_index f !! probeCell (ft_index f) k j' <> Some 0.
Proof using HW.
  intros Hno. destruct (wf_size f HW) as (m & Hm & HL).
  destruct (findLoop_miss (ft_index f) (ft_entries f) k (length (ft_index f)) 0 None) as (c & Hc & HS); [done| |].
  { intros j Hj (H0 & Ht & Hk). destruct (wf_cells f HW _ _ (cell_lookup k j)) as [|[|(_ & e & Hlive)]]; [done|done|].
    apply (Hno _ _ Hlive). by rewrite (entryAt_live _ e) in Hk by apply Hlive. }
  destruct c as [c|].
  - destruct HS as (j & Hj & -> & Hv & Hb). exists (probeCell (ft_index f) k j), j, (nth (probeCell (ft_index f) k j) (ft_index f) 0).
    split; [exact Hc|]. split; [done|]. split; [done|]. split; [apply cell_lookup|]. split; [done|].
    intros j' Hj' E. apply (Hb j' Hj'). by apply nth_cell.
  - exfalso. destruct free_cell as (c & v & Hcv & Hv). destruct (probe_surj _ m Hm HL k c) as (j & Hj & Ej).
    { by eapply lookup_lt_Some. }
    destruct (HS j Hj) as [H0 Ht]. rewrite Ej, (nth_cell _ _ _ Hcv) in H0, Ht. destruct Hv; done.
Qed.

(** The index agrees with a search through all entries. *)
Lemma find_exact k i : fst (findLockedV1 f k) = Some i <-> exists e, liveAt f i e /\ fe_key e = k.
Proof using HW.
  split.
  - intros Hi. destruct (decide (Exists (fun e => fe_generation e <> 0 /\ fe_key e = k) (ft_entries f))) as [HX|HX].
    + apply Exists_exists in HX as (e & (i' & He)%list_elem_of_lookup & Hg & Hk).
      destruct (find_live i' e) as (c & HF & _); [done|]. rewrite Hk in HF. rewrite HF in Hi. injection Hi as <-. by exists e.
    + destruct (find_absent k) as (c & j & v & HF & _); [|by rewrite HF in Hi].
      intros i' e [He Hg] Hk. apply HX, Exists_exists. exists e. split; [by eapply list_elem_of_lookup_2|done].
  - intros (e & He & <-). destruct (find_live i e He) as (c & -> & _). done.
Qed.
End find.

(** ** Updating an entry in place *)

Lemma live_insert entries i (e : productionFlowEntryV1) j x : (i < length entries)%nat ->
  <[i := e]> entries !! j = Some x <-> j = i /\ x = e \/ j <> i /\ entries !! j = Some x.
Proof.
  intros Hi. destruct (decide (j = i)) as [->|Hne].
  - rewrite list_lookup_insert_eq by done. split; [intros [= <-]; auto|]. by intros [[_ ->]|[? _]].
  - rewrite list_lookup_insert_ne by done. split; [auto|]. by intros [[? _]|[_ ?]].
Qed.

Lemma zlen_insert {A} i (x : A) l : zlen (<[i := x]> l) = zlen l.
Proof. unfold zlen. by rewrite length_insert. Qed.

Lemma live_lt f i e : liveAt f i e -> (i < length (ft_entries f))%nat.
Proof. intros [H _]. by eapply lookup_lt_Some. Qed.

Lemma setEntry_live f i e e' j x : liveAt f i e -> fe_generation e' = fe_generation e ->
  liveAt (setEntry f i e') j x <-> j = i /\ x = e' \/ j <> i /\ liveAt f j x.
Proof.
  intros Hl Hg. unfold liveAt, setEntry. cbn [ft_entries]. rewrite (live_insert _ _ _ _ _ (live_lt _ _ _ Hl)).
  destruct Hl as [_ Hne]. split.
  - intros [[[-> ->]|[? ?]] ?]; auto.
  - intros [[-> ->]|(? & ? & ?)]; split; auto. by rewrite Hg.
Qed.

Lemma setEntry_dead f i e e' z : liveAt f i e -> fe_generation e' = fe_generation e ->
  deadAt (setEntry f i e') z <-> deadAt f z.
Proof.
  intros Hl Hg. pose proof Hl as [He Hne]. unfold deadAt, setEntry. cbn [ft_entries].
  setoid_rewrite (live_insert _ _ _ _ _ (live_lt _ _ _ Hl)). split.
  - intros (x & [[Hz ->]|[Hz Hx]] & Hd); [by rewrite Hg in Hd|eauto].
  - intros (x & Hx & Hd). exists x. split; [|done]. right. split; [|done]. intros Hz. rewrite Hz in Hx.
    rewrite Hx in He. by injection He as ->.
Qed.

Lemma setEntry_wf f i e e' : wf f -> liveAt f i e -> fe_key e' = fe_key e -> fe_generation e' = fe_generation e ->
  0 <= fe_references e' <= maxUint32 -> wf (setEntry f i e').
Proof.
  intros HW Hl Hk Hg Hr.
  assert (forall j x, liveAt (setEntry f i e') j x -> exists y, liveAt f j y /\ fe_key x = fe_key y /\
    fe_generation x = fe_generation y) as Hback.
  { intros j x. rewrite (setEntry_live f i e e' j x Hl Hg). intros [[-> ->]|[_ ?]]; eauto. }
  assert (forall j y, liveAt f j y -> exists x, liveAt (setEntry f i e') j x) as Hfwd.
  { intros j y Hy. setoid_rewrite (setEntry_live f i e e' j _ Hl Hg). destruct (decide (j = i)); eauto. }
  destruct HW. constructor; cbn [setEntry ft_entries ft_index ft_free ft_tcpCapacity ft_tcpFree ft_udpFree ft_nextGeneration];
    rewrite ?zlen_insert; try done.
  - intros c v Hc. destruct (wf_cells0 c v Hc) as [|[|(Hv & y & Hy)]]; auto. destruct (Hfwd _ _ Hy). eauto.
  - intros j x Hx. destruct (Hback _ _ Hx) as (y & Hy & -> & _). by apply wf_home0.
  - intros j j' x x' Hx Hx' E. destruct (Hback _ _ Hx) as (y & Hy & Ey & _), (Hback _ _ Hx') as (y' & Hy' & Ey' & _).
    eapply wf_keys0; [done..|]. by rewrite <- Ey, <- Ey'.
  - intros j j' x x' Hx Hx' E. destruct (Hback _ _ Hx) as (y & Hy & _ & Ey), (Hback _ _ Hx') as (y' & Hy' & _ & Ey').
    eapply wf_generations0; [done..|]. by rewrite <- Ey, <- Ey'.
  - intros j x Hx. destruct (Hback _ _ Hx) as (y & Hy & _ & ->). by eapply wf_next0.
  - intros j x Hx. apply (setEntry_live f i e e' j x Hl Hg) in Hx as [[-> ->]|[_ Hx]]; [done|by eapply wf_references0].
  - intros j x Hx. destruct (Hback _ _ Hx) as (y & Hy & -> & _). by apply wf_class0.
  - destruct wf_tcp0 as [HN HT]. split; [done|]. intros z. by rewrite (setEntry_dead f i e e' z Hl Hg), <- HT.
  - destruct wf_udp0 as [HN HT]. split; [done|]. intros z. by rewrite (setEntry_dead f i e e' z Hl Hg), <- HT.
Qed.

(** ** The free stacks *)

Lemma stack_push (l : list Z) n x : 0 <= n < zlen l -> ztake (n + 1) (<[Z.to_nat n := x]> l) = ztake n l ++ [x].
Proof.
  intros Hn. unfold ztake, zlen in *. replace (Z.to_nat (n + 1)) with (S (Z.to_nat n)) by lia.
  rewrite (take_S_r _ _ x) by (apply list_lookup_insert_eq; lia). by rewrite take_insert_ge by lia.
Qed.

Lemma stack_pop (l : list Z) n : 0 < n <= zlen l -> ztake n l = ztake (n - 1) l ++ [nth (Z.to_nat (n - 1)) l 0].
Proof.
  intros Hn. unfold ztake, zlen in *. replace (Z.to_nat n) with (S (Z.to_nat (n - 1))) by lia. apply take_S_r.
  destruct (lookup_lt_is_Some_2 l (Z.to_nat (n - 1))) as [v Hv]; [lia|]. rewrite Hv. f_equal. by rewrite nth_lookup, Hv.
Qed.

Lemma stack_other_low (l : list Z) n i x : 0 <= n <= Z.of_nat i -> ztake n (<[i := x]> l) = ztake n l.
Proof. intros Hn. unfold ztake. by rewrite take_insert_ge by lia. Qed.

Lemma stack_other_high (l : list Z) n i x : Z.of_nat i < n -> zdrop n (<[i := x]> l) = zdrop n l.
Proof. intros Hn. unfold zdrop. by rewrite drop_insert_lt by lia. Qed.

Lemma stack_shift (l : list Z) c i x : 0 <= c <= Z.of_nat i -> zdrop c (<[i := x]> l) = <[(i - Z.to_nat c)%nat := x]> (zdrop c l).
Proof. intros Hc. unfold zdrop. by rewrite drop_insert_ge by lia. Qed.


(** A stack of distinct members of a range that lacks one of them has room. *)
Lemma stack_room (s : list Z) lo hi x : NoDup s -> (forall z, z ∈ s -> lo <= z < hi) -> x ∉ s -> lo <= x < hi ->
  zlen s < hi - lo.
Proof.
  intros HN Hs Hx Hr. assert (NoDup (x :: s)) as HN' by by constructor.
  assert (x :: s ⊆ seqZ lo (hi - lo)) as Hsub.
  { intros z Hz. apply elem_of_seqZ. apply list_elem_of_In in Hz as [->|Hz%list_elem_of_In]; [lia|]. specialize (Hs z Hz). lia. }
  pose proof (submseteq_length _ _ (NoDup_submseteq _ _ HN' Hsub)) as H. rewrite length_seqZ in H. cbn in H. unfold zlen. lia.
Qed.

(** ** Giving an entry back *)

Section remove.
Context (f : productionFlowTableV1) (HW : wf f) (i : nat) (e : productionFlowEntryV1) (Hl : liveAt f i e).

Lemma remove_shape : exists c, ft_index f !! c = Some (Z.of_nat i + 1) /\
  ft_index (removeLockedV1 f i) = <[c := tombstone]> (ft_index f).
Proof using HW Hl.
  destruct (find_live f HW i e Hl) as (c & HF & Hc). exists c. split; [done|]. unfold removeLockedV1. cbv zeta.
  rewrite (entryAt_live f i e) by apply Hl. by rewrite HF.
Qed.

Lemma remove_live j x : liveAt (removeLockedV1 f i) j x <-> j <> i /\ liveAt f j x.
Proof using Hl.
  unfold liveAt, removeLockedV1. cbn [ft_entries]. rewrite (live_insert _ _ _ _ _ (live_lt _ _ _ Hl)). split.
  - intros [[[_ ->]|[? ?]] Hg]; [done|auto].
  - intros (? & ? & ?). auto.
Qed.

Lemma remove_dead z : 0 <= z -> deadAt (removeLockedV1 f i) z <-> z = Z.of_nat i \/ deadAt f z.
Proof using Hl.
  intros Hz. unfold deadAt, removeLockedV1. cbn [ft_entries]. setoid_rewrite (live_insert _ _ _ _ _ (live_lt _ _ _ Hl)). split.
  - intros (x & [[E ->]|[Hne Hx]] & Hd); [left; lia|right; eauto].
  - intros [->|(x & Hx & Hd)].
    + exists zeroEntry. split; [|done]. left. split; [lia|done].
    + exists x. split; [|done]. right. split; [|done]. intros E. destruct Hl as [He Hg]. rewrite E in Hx. congruence.
Qed.

Lemma live_not_dead z : z = Z.of_nat i -> ~ deadAt f z.
Proof using Hl. intros -> (x & Hx & Hd). rewrite Nat2Z.id in Hx. destruct Hl as [He Hg]. congruence. Qed.

Lemma remove_free : if Z.of_nat i <? ft_tcpCapacity f
  then ft_tcpFree f < ft_tcpCapacity f /\ ft_tcpFree (removeLockedV1 f i) = ft_tcpFree f + 1 /\
       ft_udpFree (removeLockedV1 f i) = ft_udpFree f /\
       tcpStack (removeLockedV1 f i) = tcpStack f ++ [Z.of_nat i] /\ udpStack (removeLockedV1 f i) = udpStack f
  else ft_udpFree f < zlen (ft_entries f) - ft_tcpCapacity f /\ ft_udpFree (removeLockedV1 f i) = ft_udpFree f + 1 /\
       ft_tcpFree (removeLockedV1 f i) = ft_tcpFree f /\
       udpStack (removeLockedV1 f i) = udpStack f ++ [Z.of_nat i] /\ tcpStack (removeLockedV1 f i) = tcpStack f.
Proof using HW Hl.
  pose proof (live_lt _ _ _ Hl) as Hi. pose proof (live_not_dead _ eq_refl) as Hnd.
  destruct (wf_tcp f HW) as [HTN HT], (wf_udp f HW) as [HUN HU], (wf_room f HW) as [Hn _], (wf_capacity f HW) as [Hc HF],
    (wf_free f HW) as [Htf Huf].
  assert (Hii : wrap16 (Z.of_nat i) = Z.of_nat i). { apply Z.mod_small. unfold zlen in *. lia. }
  destruct (Z.ltb_spec (Z.of_nat i) (ft_tcpCapacity f)) as [Ht|Ht].
  - assert (ft_tcpFree f < ft_tcpCapacity f).
    { rewrite <- (zlen_ztake (ft_tcpFree f) (ft_free f)) by lia. rewrite <- (Z.sub_0_r (ft_tcpCapacity f)).
      apply (stack_room _ 0 _ (Z.of_nat i) HTN); [intros z Hz; by apply HT| |lia]. rewrite HT. tauto. }
    split; [done|]. unfold removeLockedV1, tcpStack, udpStack. apply Z.ltb_lt in Ht. rewrite Ht, Hii.
    cbn [ft_free ft_tcpFree ft_udpFree ft_tcpCapacity].
    assert (wrap16 (ft_tcpFree f + 1) = ft_tcpFree f + 1) as -> by (apply Z.mod_small; lia).
    rewrite stack_push by lia. rewrite stack_other_high by lia. done.
  - assert (ft_udpFree f < zlen (ft_entries f) - ft_tcpCapacity f).
    { rewrite <- (zlen_ztake (ft_udpFree f) (zdrop (ft_tcpCapacity f) (ft_free f))) by (rewrite zlen_zdrop; lia).
      apply (stack_room _ _ _ (Z.of_nat i) HUN); [intros z Hz; by apply HU| |unfold zlen; lia]. rewrite HU. tauto. }
    split; [done|]. unfold removeLockedV1, tcpStack, udpStack. apply Z.ltb_ge in Ht. rewrite Ht, Hii.
    cbn [ft_free ft_tcpFree ft_udpFree ft_tcpCapacity].
    assert (wrap16 (ft_udpFree f + 1) = ft_udpFree f + 1) as -> by (apply Z.mod_small; lia).
    rewrite stack_shift by lia. replace (Z.to_nat (ft_tcpCapacity f + ft_udpFree f) - Z.to_nat (ft_tcpCapacity f))%nat
      with (Z.to_nat (ft_udpFree f)) by lia. rewrite stack_push by (rewrite zlen_zdrop; lia).
    rewrite stack_other_low by lia. done.
Qed.
End remove.

Lemma cell_insert (index : list Z) c (v : Z) j x : (c < length index)%nat ->
  <[c := v]> index !! j = Some x <-> j = c /\ x = v \/ j <> c /\ index !! j = Some x.
Proof.
  intros Hi. destruct (decide (j = c)) as [->|Hne].
  - rewrite list_lookup_insert_eq by done. split; [intros [= <-]; auto|]. by intros [[_ ->]|[? _]].
  - rewrite list_lookup_insert_ne by done. split; [auto|]. by intros [[? _]|[_ ?]].
Qed.

(** A stack after a push, over the dead entries of its range. *)
Lemma stack_push_spec (s : list Z) (R D D' : Z -> Prop) x : NoDup s -> (forall z, z ∈ s <-> R z /\ D z) ->
  R x -> ~ D x -> (forall z, R z -> D' z <-> z = x \/ D z) -> NoDup (s ++ [x]) /\ forall z, z ∈ s ++ [x] <-> R z /\ D' z.
Proof.
  intros HN Hs HR HD HD'. split.
  - apply NoDup_app. split; [done|]. split; [|apply NoDup_singleton]. intros z Hz ->%list_elem_of_singleton. apply HD, Hs, Hz.
  - intros z. rewrite elem_of_app, list_elem_of_singleton, Hs. split.
    + intros [[HRz HDz]| ->]; (split; [done|]); apply HD'; auto.
    + intros [HRz HDz]. apply HD' in HDz; tauto.
Qed.

Lemma stack_same_spec (s : list Z) (R D D' : Z -> Prop) : (NoDup s /\ forall z, z ∈ s <-> R z /\ D z) ->
  (forall z, R z -> D' z <-> D z) -> NoDup s /\ forall z, z ∈ s <-> R z /\ D' z.
Proof. intros [HN Hs] HD'. split; [done|]. intros z. rewrite Hs. split; intros [? ?]; (split; [done|]); by apply HD'. Qed.

Lemma remove_wf f i e : wf f -> liveAt f i e -> wf (removeLockedV1 f i).
Proof.
  intros HW Hl. destruct (remove_shape f HW i e Hl) as (c & Hc & Hix). pose proof (remove_live f i e Hl) as HL.
  pose proof (remove_free f HW i e Hl) as HF. pose proof (remove_dead f i e Hl) as HD.
  pose proof (live_not_dead f i e Hl _ eq_refl) as Hnd. pose proof (live_lt _ _ _ Hl) as Hlt.
  assert (Hcl : (c < length (ft_index f))%nat) by by eapply lookup_lt_Some.
  assert (He : zlen (ft_entries (removeLockedV1 f i)) = zlen (ft_entries f)) by apply zlen_insert.
  assert (Hfr : zlen (ft_free (removeLockedV1 f i)) = zlen (ft_free f)) by apply zlen_insert.
  assert (Htc : ft_tcpCapacity (removeLockedV1 f i) = ft_tcpCapacity f) by done.
  assert (Hng : ft_nextGeneration (removeLockedV1 f i) = ft_nextGeneration f) by done.
  assert (Hxl : zlen (ft_index (removeLockedV1 f i)) = zlen (ft_index f)) by (rewrite Hix; apply zlen_insert).
  revert Hix HL HF HD He Hfr Htc Hng Hxl. generalize (removeLockedV1 f i) as g. intros g Hix HL HF HD He Hfr Htc Hng Hxl.
  destruct HW. constructor; rewrite ?He, ?Hfr, ?Htc, ?Hng, ?Hxl; try done.
  - intros c' v. rewrite Hix, cell_insert by done. intros [[-> ->]|[Hne Hv]]; [auto|].
    destruct (wf_cells0 c' v Hv) as [|[|(Hr & y & Hy)]]; [auto..|]. right. right. split; [done|]. exists y. apply HL.
    split; [|done]. intros E. apply Hne. eapply wf_once0; [exact Hv| |lia|unfold tombstone; lia]. rewrite Hc. f_equal. lia.
  - intros c1 c2 v. rewrite Hix, !cell_insert by done. intros [[-> ->]|[Hn1 H1']] [[-> E]|[Hn2 H2']] Hv0 Hvt; try done.
    by eapply wf_once0.
  - intros j x [Hne Hx]%HL. destruct (wf_home0 j x Hx) as (n & Hn & Hcell & Hbefore). exists n. split; [done|].
    rewrite !(probe_len (ft_index g) (ft_index f)) by done. rewrite Hix. split.
    + apply cell_insert; [done|]. right. split; [|done]. intros E. rewrite E, Hc in Hcell. injection Hcell as E'. lia.
    + intros n' Hn'. rewrite (probe_len _ (ft_index f)) by (by rewrite <- Hix). rewrite cell_insert by done.
      intros [[_ E]|[_ E]]; [done|]. by apply (Hbefore n').
  - intros j j' x x' [_ Hx]%HL [_ Hx']%HL. by eapply wf_keys0.
  - intros j j' x x' [_ Hx]%HL [_ Hx']%HL. by eapply wf_generations0.
  - intros j x [_ Hx]%HL. by eapply wf_next0.
  - intros j x [_ Hx]%HL. by eapply wf_references0.
  - intros j x [_ Hx]%HL. by apply wf_class0.
  - destruct (Z.of_nat i <? ft_tcpCapacity f); lia.
  - destruct (Z.ltb_spec (Z.of_nat i) (ft_tcpCapacity f)); destruct HF as (_ & _ & _ & HF1 & HF2).
    + rewrite HF1. destruct wf_tcp0. apply (stack_push_spec _ _ (deadAt f)); try done; [lia|]. intros z Hz. apply HD. lia.
    + rewrite HF2. apply (stack_same_spec _ _ (deadAt f)); [done|]. intros z Hz. rewrite HD by lia. split; [|auto].
      intros [->|?]; [lia|done].
  - destruct (Z.ltb_spec (Z.of_nat i) (ft_tcpCapacity f)); destruct HF as (_ & _ & _ & HF1 & HF2).
    + rewrite HF2. apply (stack_same_spec _ _ (deadAt f)); [done|]. intros z Hz. rewrite HD by lia. split; [|auto].
      intros [->|?]; [lia|done].
    + rewrite HF1. destruct wf_udp0. apply (stack_push_spec _ _ (deadAt f)); try done; [unfold zlen in *; lia|].
      intros z Hz. apply HD. lia.
Qed.

(** ** Taking a free entry *)

Section install.
Context (f : productionFlowTableV1) (HW : wf f) (k : productionFlowKeyV1) (cell : nat) (tcp : bool).
Context (Hcap : (if tcp then ft_tcpFree f else ft_udpFree f) <> 0).

Let g := fst (install f k cell tcp).
Let i := snd (install f k cell tcp).

Lemma install_free : deadAt f (Z.of_nat i) /\ (i < length (ft_entries f))%nat /\
  if tcp
  then Z.of_nat i < ft_tcpCapacity f /\ ft_tcpFree g = ft_tcpFree f - 1 /\ ft_udpFree g = ft_udpFree f /\
       tcpStack f = tcpStack g ++ [Z.of_nat i] /\ udpStack g = udpStack f
  else ft_tcpCapacity f <= Z.of_nat i /\ ft_udpFree g = ft_udpFree f - 1 /\ ft_tcpFree g = ft_tcpFree f /\
       udpStack f = udpStack g ++ [Z.of_nat i] /\ tcpStack g = tcpStack f.
Proof using HW Hcap.
  destruct (wf_tcp f HW) as [HTN HT], (wf_udp f HW) as [HUN HU], (wf_room f HW) as [Hn _], (wf_capacity f HW) as [Hc HF],
    (wf_free f HW) as [Htf Huf].
  subst g i. unfold install. cbv zeta. destruct tcp; cbn [fst snd ft_tcpFree ft_udpFree].
  - assert (tcpStack f = ztake (ft_tcpFree f - 1) (ft_free f) ++ [nth (Z.to_nat (ft_tcpFree f - 1)) (ft_free f) 0]) as E.
    { apply stack_pop. lia. }
    assert (nth (Z.to_nat (ft_tcpFree f - 1)) (ft_free f) 0 ∈ tcpStack f) as [Hr Hd]%HT.
    { rewrite E. apply elem_of_app. right. by apply list_elem_of_singleton. }
    revert E Hr Hd. generalize (nth (Z.to_nat (ft_tcpFree f - 1)) (ft_free f) 0) as z. intros z E Hr Hd.
    rewrite Z2Nat.id by lia. unfold zlen in *. repeat split; try done; lia.
  - assert (udpStack f = ztake (ft_udpFree f - 1) (zdrop (ft_tcpCapacity f) (ft_free f)) ++
      [nth (Z.to_nat (ft_tcpCapacity f + (ft_udpFree f - 1))) (ft_free f) 0]) as E.
    { unfold udpStack. rewrite stack_pop by (rewrite zlen_zdrop; lia). do 2 f_equal. unfold zdrop. rewrite !nth_lookup, lookup_drop.
      do 2 f_equal. lia. }
    assert (nth (Z.to_nat (ft_tcpCapacity f + (ft_udpFree f - 1))) (ft_free f) 0 ∈ udpStack f) as [Hr Hd]%HU.
    { rewrite E. apply elem_of_app. right. by apply list_elem_of_singleton. }
    revert E Hr Hd. generalize (nth (Z.to_nat (ft_tcpCapacity f + (ft_udpFree f - 1))) (ft_free f) 0) as z. intros z E Hr Hd.
    rewrite Z2Nat.id by lia. unfold zlen in *. repeat split; try done; lia.
Qed.

Definition freshEntry : productionFlowEntryV1 := mkFlowEntry k 0 (ft_nextGeneration f + 1) 0 false.

Lemma install_live j x : liveAt g j x <-> j = i /\ x = freshEntry \/ liveAt f j x.
Proof using HW Hcap.
  destruct install_free as (Hd & Hi & _). destruct (wf_counter f HW). unfold liveAt. change (ft_entries g) with (<[i := freshEntry]> (ft_entries f)).
  rewrite live_insert by done. split.
  - intros [[[-> ->]|[? ?]] Hg]; auto.
  - intros [[-> ->]|[Hx Hg]]; [split; [auto|cbn; lia]|]. split; [|done]. right. split; [|done]. intros ->.
    destruct Hd as (y & Hy & Hdy). rewrite Nat2Z.id in Hy. congruence.
Qed.

Lemma install_dead z : 0 <= z -> deadAt f z <-> z = Z.of_nat i \/ deadAt g z.
Proof using HW Hcap.
  intros Hz. destruct install_free as (Hd & Hi & _). destruct (wf_counter f HW). unfold deadAt.
  change (ft_entries g) with (<[i := freshEntry]> (ft_entries f)). setoid_rewrite live_insert; [|done]. split.
  - intros (x & Hx & Hg). destruct (decide (Z.to_nat z = i)); [left; lia|]. right. exists x. auto.
  - intros [->|(x & [[E ->]|[Hne Hx]] & Hg)]; [exact Hd|cbn in Hg; lia|eauto].
Qed.

Lemma install_dead_not : ~ deadAt g (Z.of_nat i).
Proof using HW Hcap.
  intros (x & Hx & Hg). rewrite Nat2Z.id in Hx. destruct install_free as (_ & Hi & _). destruct (wf_counter f HW).
  change (ft_entries g) with (<[i := freshEntry]> (ft_entries f)) in Hx. apply live_insert in Hx as [[_ ->]|[? _]]; [|done|done].
  cbn in Hg. lia.
Qed.
End install.

Lemma stack_pop_spec (s s' : list Z) (R D D' : Z -> Prop) x : s = s' ++ [x] -> (NoDup s /\ forall z, z ∈ s <-> R z /\ D z) ->
  (forall z, R z -> D z <-> z = x \/ D' z) -> ~ D' x -> NoDup s' /\ forall z, z ∈ s' <-> R z /\ D' z.
Proof.
  intros -> [HN Hs] HD Hx. apply NoDup_app in HN as (HN & Hd & _). split; [done|]. intros z.
  specialize (Hs z). rewrite elem_of_app, list_elem_of_singleton in Hs. split.
  - intros Hz. destruct Hs as [Hs _]. destruct Hs as [HR HDz]; [auto|]. split; [done|].
    apply HD in HDz as [->|?]; [|done|done]. exfalso. apply (Hd x Hz). by apply list_elem_of_singleton.
  - intros [HR HD'z]. destruct Hs as [_ Hs]. destruct Hs as [?| ->]; [split; [done|]; apply HD; auto|done|done].
Qed.

Lemma install_wf f k cell j v : wf f -> (forall i e, liveAt f i e -> fe_key e <> k) ->
  fk_protocol k = 6 \/ fk_protocol k = 17 -> ft_nextGeneration f < MaxUint64 ->
  (if fk_protocol k =? 6 then ft_tcpFree f else ft_udpFree f) <> 0 ->
  0 <= j < zlen (ft_index f) -> cell = probeCell (ft_index f) k j -> ft_index f !! cell = Some v -> v = 0 \/ v = tombstone ->
  (forall j', 0 <= j' < j -> ft_index f !! probeCell (ft_index f) k j' <> Some 0) ->
  wf (fst (install f k cell (fk_protocol k =? 6))).
Proof.
  intros HW Hno Hp Hgen Hcap Hj Ecell Hcell Hv Hbefore.
  pose proof (install_free f HW k cell _ Hcap) as (Hd & Hi & HF). pose proof (install_live f HW k cell _ Hcap) as HL.
  pose proof (install_dead f HW k cell _ Hcap) as HD. pose proof (install_dead_not f HW k cell _ Hcap) as Hnd.
  assert (Hcl : (cell < length (ft_index f))%nat) by by eapply lookup_lt_Some.
  set (tcp := fk_protocol k =? 6) in *. set (i := snd (install f k cell tcp)) in *.
  assert (Hix : ft_index (fst (install f k cell tcp)) = <[cell := Z.of_nat i + 1]> (ft_index f)).
  { unfold install. cbn [fst ft_index]. f_equal. apply Z.mod_small. pose proof (wf_room f HW). unfold zlen in *.
    change (Z.to_nat _) with i. lia. }
  assert (He : zlen (ft_entries (fst (install f k cell tcp))) = zlen (ft_entries f)) by apply zlen_insert.
  assert (Hfr : zlen (ft_free (fst (install f k cell tcp))) = zlen (ft_free f)) by done.
  assert (Htc : ft_tcpCapacity (fst (install f k cell tcp)) = ft_tcpCapacity f) by done.
  assert (Hng : ft_nextGeneration (fst (install f k cell tcp)) = ft_nextGeneration f + 1) by done.
  assert (Hxl : zlen (ft_index (fst (install f k cell tcp))) = zlen (ft_index f)) by (rewrite Hix; apply zlen_insert).
  clearbody i. revert Hix HL HF HD Hnd He Hfr Htc Hng Hxl. generalize (fst (install f k cell tcp)) as g.
  intros g Hix HL HF HD Hnd He Hfr Htc Hng Hxl.
  assert (Hunused : forall c, ft_index f !! c <> Some (Z.of_nat i + 1)).
  { intros c Hc. pose proof (wf_room f HW). destruct (wf_cells f HW _ _ Hc) as [|[E|(_ & y & Hy)]]; [lia|unfold tombstone, zlen in *; lia|].
    replace (Z.to_nat (Z.of_nat i + 1 - 1)) with i in Hy by lia. destruct Hd as (z & Hz & Hdz). rewrite Nat2Z.id in Hz.
    destruct Hy as [Hy Hgy]. congruence. }
  destruct HW. constructor; rewrite ?He, ?Hfr, ?Htc, ?Hng, ?Hxl; try done.
  - intros c' w. rewrite Hix, cell_insert by done. intros [[-> ->]|[Hne Hw]].
    + right. right. split; [unfold zlen; lia|]. exists (freshEntry f k). apply HL. left. split; [lia|done].
    + destruct (wf_cells0 c' w Hw) as [|[|(Hr & y & Hy)]]; [auto..|]. right. right. split; [done|]. exists y. apply HL. auto.
  - intros c1 c2 w. rewrite Hix, !cell_insert by done. intros [[-> ->]|[Hn1 H1']] [[-> E]|[Hn2 H2']] Hv0 Hvt; try done.
    + by destruct (Hunused c2).
    + subst w. by destruct (Hunused c1).
    + by eapply wf_once0.
  - intros n x [[-> ->]|Hx]%HL.
    + exists j. split; [done|]. cbn [freshEntry fe_key]. rewrite !(probe_len (ft_index g) (ft_index f)) by done. rewrite Hix, <- Ecell. split.
      * apply cell_insert; auto.
      * intros j' Hj'. rewrite (probe_len _ (ft_index f)) by (by rewrite <- Hix). rewrite cell_insert by done.
        intros [[_ E]|[_ E]]; [lia|]. by apply (Hbefore j').
    + destruct (wf_home0 n x Hx) as (m & Hm & Hc & Hb). exists m. split; [done|].
      rewrite !(probe_len (ft_index g) (ft_index f)) by done. rewrite Hix. split.
      * apply cell_insert; [done|]. right. split; [|done]. intros E. rewrite E, Hcell in Hc. pose proof (live_lt _ _ _ Hx).
        injection Hc as Ec. unfold tombstone, zlen in *. lia.
      * intros j' Hj'. rewrite (probe_len _ (ft_index f)) by (by rewrite <- Hix). rewrite cell_insert by done.
        intros [[_ E]|[_ E]]; [lia|]. by apply (Hb j').
  - intros n n' x x' [[-> ->]|Hx]%HL [[-> ->]|Hx']%HL E; [done| | |by eapply wf_keys0].
    + by destruct (Hno _ _ Hx').
    + by destruct (Hno _ _ Hx).
  - intros n n' x x' [[-> ->]|Hx]%HL [[-> ->]|Hx']%HL E; [done| | |by eapply wf_generations0];
      cbn in E; [pose proof (wf_next0 _ _ Hx')|pose proof (wf_next0 _ _ Hx)]; lia.
  - intros n x [[-> ->]|Hx]%HL; [cbn; lia|]. pose proof (wf_next0 _ _ Hx). lia.
  - lia.
  - intros n x [[-> ->]|Hx]%HL; [cbn; unfold maxUint32; lia|by eapply wf_references0].
  - intros n x [[-> ->]|Hx]%HL; [|by apply wf_class0]. cbn [freshEntry fe_key]. split; [done|]. subst tcp.
    destruct (Z.eqb_spec (fk_protocol k) 6); split; intros; lia.
  - destruct tcp; lia.
  - destruct tcp; destruct HF as (Hr & _ & _ & HF1 & HF2).
    + apply (stack_pop_spec _ _ _ _ _ _ HF1 wf_tcp0); [|done]. intros z Hz. apply HD. lia.
    + rewrite HF2. apply (stack_same_spec _ _ (deadAt f)); [done|]. intros z Hz. rewrite HD by lia. split; [auto|].
      intros [->|?]; [lia|done].
  - destruct tcp; destruct HF as (Hr & _ & _ & HF1 & HF2).
    + rewrite HF2. apply (stack_same_spec _ _ (deadAt f)); [done|]. intros z Hz. rewrite HD by lia. split; [auto|].
      intros [->|?]; [lia|done].
    + apply (stack_pop_spec _ _ _ _ _ _ HF1 wf_udp0); [|done]. intros z Hz. apply HD. lia.
Qed.

(** ** Expiry *)

(** What no operation of the table but its construction and destruction changes. *)
Definition sameShape (f g : productionFlowTableV1) : Prop :=
  ft_idle g = ft_idle f /\ ft_tcpCapacity g = ft_tcpCapacity f /\ ft_destroyed g = ft_destroyed f /\
  length (ft_entries g) = length (ft_entries f).

Lemma remove_shape_same f i : sameShape f (removeLockedV1 f i) /\ ft_nextGeneration (removeLockedV1 f i) = ft_nextGeneration f.
Proof. repeat split; cbn; by rewrite ?length_insert. Qed.

Lemma expire_prefix f now n : wf f -> (n <= length (ft_entries f))%nat ->
  let g := foldl (fun f i => if expired (ft_idle f) now (entryAt (ft_entries f) i) then removeLockedV1 f i else f) f (seq 0 n) in
  wf g /\ sameShape f g /\ ft_nextGeneration g = ft_nextGeneration f /\
  forall j x, liveAt g j x <-> liveAt f j x /\ ((j < n)%nat -> expired (ft_idle f) now x = false).
Proof.
  intros HW. induction n as [|n IH]; intros Hn g; subst g.
  { cbn. split; [done|]. split; [done|]. split; [done|]. intros j x. split; [intros; split; [done|lia]|tauto]. }
  rewrite seq_S, foldl_snoc. destruct (IH ltac:(lia)) as (Hg & HS & HN & HL). cbv zeta in *. cbn [Nat.add].
  revert Hg HS HN HL. generalize (foldl (fun f i => if expired (ft_idle f) now (entryAt (ft_entries f) i) then removeLockedV1 f i else f) f (seq 0 n)) as g.
  intros g Hg (HSi & HSt & HSd & HSl) HN HL.
  destruct (lookup_lt_is_Some_2 (ft_entries g) n) as [e He]; [lia|]. rewrite HSi, (entryAt_live g n e He).
  destruct (expired (ft_idle f) now e) eqn:EX.
  - assert (Hlive : liveAt g n e).
    { split; [done|]. unfold expired in EX. destruct (Z.eqb_spec (fe_generation e) 0); [done|done]. }
    destruct (remove_shape_same g n) as [(HRi & HRt & HRd & HRl) HRn].
    split; [by eapply remove_wf|]. split; [unfold sameShape; by rewrite HRi, HRt, HRd, HRl|]. split; [by rewrite HRn|].
    intros j x. rewrite (remove_live g n e Hlive), HL. split.
    + intros (Hne & Hx & Hj). split; [done|]. intros ?. apply Hj. lia.
    + intros (Hx & Hj). split; [|split; [done|intros; apply Hj; lia]]. intros ->.
      assert (liveAt g n x) as [Hgx _]. { apply HL. split; [done|lia]. }
      assert (x = e) as -> by (rewrite He in Hgx; by injection Hgx). rewrite Hj in EX by lia. done.
  - split; [done|]. split; [done|]. split; [done|]. intros j x. rewrite HL. split.
    + intros (Hx & Hj). split; [done|]. intros Hlt. destruct (decide (j = n)) as [->|]; [|apply Hj; lia].
      assert (liveAt g n x) as [Hgx _]. { apply HL. split; [done|lia]. }
      rewrite He in Hgx. injection Hgx as <-. done.
    + intros (Hx & Hj). split; [done|]. intros. apply Hj. lia.
Qed.

Lemma expire_spec f now : wf f -> wf (expireLockedV1 f now) /\ sameShape f (expireLockedV1 f now) /\
  ft_nextGeneration (expireLockedV1 f now) = ft_nextGeneration f /\
  forall j x, liveAt (expireLockedV1 f now) j x <-> liveAt f j x /\ expired (ft_idle f) now x = false.
Proof.
  intros HW. destruct (expire_prefix f now (length (ft_entries f)) HW ltac:(lia)) as (Hg & HS & HN & HL).
  split; [done|]. split; [done|]. split; [done|]. intros j x. unfold expireLockedV1. rewrite HL. split.
  - intros [Hx Hj]. split; [done|]. apply Hj. by eapply live_lt.
  - intros [Hx Hj]. auto.
Qed.

(** ** A new table *)

Lemma indexSize_spec fuel a n : 0 <= a -> 2 * n <= 2 ^ (a + Z.of_nat fuel) ->
  exists m, 0 <= m /\ indexSize fuel (2 ^ a) n = 2 ^ m /\ 2 * n <= 2 ^ m.
Proof.
  revert a. induction fuel as [|fuel IH]; intros a Ha Hn; cbn [indexSize].
  { exists a. rewrite Z.add_0_r in Hn. done. }
  destruct (Z.ltb_spec (2 ^ a) (2 * n)); [|by exists a].
  replace (2 ^ a * 2) with (2 ^ (a + 1)) by (rewrite Z.pow_add_r by lia; lia). apply IH; [lia|].
  by replace (a + 1 + Z.of_nat fuel) with (a + Z.of_nat (S fuel)) by lia.
Qed.

Lemma new_shape st se tcp udp idle f : newProductionFlowTableV1 st se tcp udp idle = Ok f -> 0 <= tcp -> 0 <= udp ->
  1 <= tcp + udp <= 6144 /\ exists m, 0 <= m /\ 2 * (tcp + udp) <= 2 ^ m /\
  f = mkFlowTable (replicate (Z.to_nat (tcp + udp)) zeroEntry) (replicate (Z.to_nat (2 ^ m)) 0) (seqZ 0 (tcp + udp)) idle 0 tcp tcp udp false.
Proof.
  unfold newProductionFlowTableV1, productionFlowStorageV1. intros H Ht Hu.
  destruct (Z.ltb_spec 4096 tcp), (Z.ltb_spec 2048 udp), (Z.eqb_spec (tcp + udp) 0); cbn [orb] in H; try done.
  split; [lia|]. destruct (indexSize_spec indexFuel 0 (tcp + udp)) as (m & Hm & E & Hr); [lia| |].
  { assert (12288 <= 2 ^ (0 + Z.of_nat indexFuel)) by (by vm_compute). lia. }
  change (2 ^ 0) with 1 in E. rewrite E in H. exists m. split; [done|]. split; [done|].
  destruct ((16384 <? 2 ^ m) || _); [done|]. cbn -[Z.pow] in H.
  destruct ((idle <=? 0) || _); [done|]. by injection H as <-.
Qed.

Lemma new_wf st se tcp udp idle f : newProductionFlowTableV1 st se tcp udp idle = Ok f -> 0 <= tcp -> 0 <= udp ->
  wf f /\ forall i e, ~ liveAt f i e.
Proof.
  intros H Ht Hu. destruct (new_shape _ _ _ _ _ _ H Ht Hu) as (Hn & m & Hm & Hr & ->).
  set (f := mkFlowTable _ _ _ _ _ _ _ _ _).
  assert (Hno : forall i e, ~ liveAt f i e). { intros i e [[-> _]%lookup_replicate Hg]. done. }
  split; [|done]. assert (He : zlen (ft_entries f) = tcp + udp). { unfold zlen, f. cbn [ft_entries]. rewrite length_replicate. lia. }
  assert (Hix : zlen (ft_index f) = 2 ^ m). { unfold zlen, f. cbn [ft_index]. rewrite length_replicate. lia. }
  assert (Hdead : forall z, 0 <= z < tcp + udp -> deadAt f z).
  { intros z Hz. exists zeroEntry. split; [|done]. apply lookup_replicate. split; [done|lia]. }
  assert (Hz : forall c v, ft_index f !! c = Some v -> v = 0). { intros c v [-> _]%lookup_replicate. done. }
  assert (Hf : zlen (ft_free f) = tcp + udp). { unfold zlen, f. cbn [ft_free]. rewrite length_seqZ. lia. }
  assert (Happ : ft_free f = seqZ 0 tcp ++ seqZ tcp udp).
  { unfold f. cbn [ft_free]. rewrite seqZ_app by lia. by rewrite Z.add_0_l. }
  assert (HT : tcpStack f = seqZ 0 tcp).
  { unfold tcpStack. rewrite Happ. unfold ztake, f. cbn [ft_tcpFree]. rewrite take_app_length'; [done|]. rewrite length_seqZ. lia. }
  assert (HU : udpStack f = seqZ tcp udp).
  { unfold udpStack. rewrite Happ. unfold ztake, zdrop, f. cbn [ft_tcpCapacity ft_udpFree].
    rewrite drop_app_length' by (rewrite length_seqZ; lia). rewrite take_ge; [done|]. rewrite length_seqZ. lia. }
  constructor; rewrite ?He, ?Hix, ?Hf, ?HT, ?HU; try (intros i ? Hl; by destruct (Hno _ _ Hl)); try (intros ? ? ? ? Hl; by destruct (Hno _ _ Hl)); try done.
  - by exists m.
  - intros c v ->%Hz. auto.
  - intros c c' v ->%Hz. done.
  - change (0 <= tcp <= tcp + udp /\ tcp + udp = tcp + udp). lia.
  - change (0 <= tcp <= tcp /\ 0 <= udp <= tcp + udp - tcp). lia.
  - split; [apply NoDup_seqZ|]. intros z. rewrite elem_of_seqZ. cbn [f ft_tcpCapacity]. split; [|lia].
    intros ?. split; [lia|]. apply Hdead. lia.
  - split; [apply NoDup_seqZ|]. intros z. rewrite elem_of_seqZ. cbn [f ft_tcpCapacity]. split; [|lia].
    intros ?. split; [lia|]. apply Hdead. lia.
Qed.
