(* ===== verification/FlowSpec.v ===== *)
(** * What the flow table promises

    The flow table seen from outside is a finite map from slots to flows, with a
    capacity for each of TCP and UDP and one counter of generations: there is no
    hash, no probing, no tombstone and no free list ([flow_spec]). The table of
    [production_flow_v1.go] refines it over every sequence of calls
    ([flow_table_refines]); a reference never reaches another flow than the one it
    was issued for ([flow_reference_exact]). *)

From S2P Require Import Prelude GoBytes IpPacket FlowTable FlowFacts.
From Stdlib Require Import ZArith Lia Strings.Byte.
From stdpp Require Import base list gmap fin_map_dom.
Local Open Scope Z_scope.

(** ** The specification *)

Record flow_spec := mkFlowSpec {
  sp_flows : gmap nat productionFlowEntryV1;
  sp_next : Z;
  sp_tcp : Z;
  sp_udp : Z;
  sp_idle : Z;
}.

Inductive flow_op :=
  | OpReserve (k : productionFlowKeyV1) (now : Z)
  | OpAccept (r : productionFlowRefV1) (now : Z)
  | OpRelease (r : productionFlowRefV1)
  | OpLookup (k : productionFlowKeyV1) (now : Z)
  | OpRefresh (r : productionFlowRefV1) (now : Z)
  | OpDestroy.

Inductive flow_out := Leased (r : result flow_error productionFlowRefV1) | Found (r : productionFlowRefV1) | Silent.

Definition flowRef (i : nat) (e : productionFlowEntryV1) : productionFlowRefV1 := mkFlowRef (fe_generation e) (Z.of_nat i + 1).

Definition spec_put (s : flow_spec) (i : nat) (e : productionFlowEntryV1) : flow_spec :=
  mkFlowSpec (<[i := e]> (sp_flows s)) (sp_next s) (sp_tcp s) (sp_udp s) (sp_idle s).

Definition spec_drop (s : flow_spec) (i : nat) : flow_spec :=
  mkFlowSpec (delete i (sp_flows s)) (sp_next s) (sp_tcp s) (sp_udp s) (sp_idle s).

Definition spec_sweep (s : flow_spec) (now : Z) : flow_spec :=
  mkFlowSpec (filter (fun p => expired (sp_idle s) now p.2 = false) (sp_flows s)) (sp_next s) (sp_tcp s) (sp_udp s) (sp_idle s).

Definition isTcp (k : productionFlowKeyV1) : bool := fk_protocol k =? 6.

(** The number of flows of a class and its capacity. *)
Definition spec_count (m : gmap nat productionFlowEntryV1) (tcp : bool) : Z :=
  Z.of_nat (size (filter (fun p => isTcp (fe_key p.2) = tcp) m)).

Definition spec_capacity (s : flow_spec) (tcp : bool) : Z := if tcp then sp_tcp s else sp_udp s.

Definition absent (s : flow_spec) (k : productionFlowKeyV1) : Prop := forall i e, sp_flows s !! i = Some e -> fe_key e <> k.

Definition reservable (k : productionFlowKeyV1) (now : Z) : Prop :=
  now <> 0 /\ (fk_family k = 4 \/ fk_family k = 6) /\ (fk_protocol k = 6 \/ fk_protocol k = 17).

Definition bump (e : productionFlowEntryV1) (d : Z) : productionFlowEntryV1 :=
  mkFlowEntry (fe_key e) (fe_activity e) (fe_generation e) (fe_references e + d) (fe_accepted e).

Definition touch (e : productionFlowEntryV1) (now : Z) : productionFlowEntryV1 :=
  mkFlowEntry (fe_key e) (Z.max now (fe_activity e)) (fe_generation e) (fe_references e) true.

(** What a call may do to a table that is not destroyed. *)
Inductive spec_call (s : flow_spec) : flow_op -> option flow_spec -> flow_out -> Prop :=
  | SReserveBad k now : ~ reservable k now -> spec_call s (OpReserve k now) (Some s) (Leased (Err FlowPacketInvalid))
  | SReserveAgain k now i e : reservable k now -> sp_flows (spec_sweep s now) !! i = Some e -> fe_key e = k ->
      fe_references e < maxUint32 ->
      spec_call s (OpReserve k now) (Some (spec_put (spec_sweep s now) i (bump e 1))) (Leased (Ok (flowRef i e)))
  | SReserveHeld k now i e : reservable k now -> sp_flows (spec_sweep s now) !! i = Some e -> fe_key e = k ->
      fe_references e = maxUint32 ->
      spec_call s (OpReserve k now) (Some (spec_sweep s now)) (Leased (Err ServiceResourceLimitV1))
  | SReserveFull k now : reservable k now -> absent (spec_sweep s now) k ->
      sp_next s = MaxUint64 \/ spec_count (sp_flows (spec_sweep s now)) (isTcp k) = spec_capacity s (isTcp k) ->
      spec_call s (OpReserve k now) (Some (spec_sweep s now)) (Leased (Err ServiceResourceLimitV1))
  | SReserveNew k now i e : reservable k now -> absent (spec_sweep s now) k -> sp_next s < MaxUint64 ->
      spec_count (sp_flows (spec_sweep s now)) (isTcp k) < spec_capacity s (isTcp k) ->
      sp_flows (spec_sweep s now) !! i = None -> e = mkFlowEntry k 0 (sp_next s + 1) 1 false ->
      spec_call s (OpReserve k now)
        (Some (mkFlowSpec (<[i := e]> (sp_flows (spec_sweep s now))) (sp_next s + 1) (sp_tcp s) (sp_udp s) (sp_idle s)))
        (Leased (Ok (flowRef i e)))
  | SAccept r now i e : sp_flows s !! i = Some e -> r = flowRef i e -> 0 < fe_references e -> now <> 0 ->
      spec_call s (OpAccept r now) (Some (spec_put s i (touch e now))) Silent
  | SAcceptNone r now : (forall i e, sp_flows s !! i = Some e -> r = flowRef i e -> now = 0 \/ fe_references e = 0) ->
      spec_call s (OpAccept r now) (Some s) Silent
  | SRelease r i e : sp_flows s !! i = Some e -> r = flowRef i e -> 0 < fe_references e ->
      1 < fe_references e \/ fe_accepted e = true -> spec_call s (OpRelease r) (Some (spec_put s i (bump e (-1)))) Silent
  | SReleaseLast r i e : sp_flows s !! i = Some e -> r = flowRef i e -> fe_references e = 1 -> fe_accepted e = false ->
      spec_call s (OpRelease r) (Some (spec_drop s i)) Silent
  | SReleaseNone r : (forall i e, sp_flows s !! i = Some e -> r = flowRef i e -> fe_references e = 0) ->
      spec_call s (OpRelease r) (Some s) Silent
  | SLookup k now i e : sp_flows (spec_sweep s now) !! i = Some e -> fe_key e = k -> fe_accepted e = true ->
      spec_call s (OpLookup k now) (Some (spec_sweep s now)) (Found (flowRef i e))
  | SLookupNone k now : (forall i e, sp_flows (spec_sweep s now) !! i = Some e -> fe_key e = k -> fe_accepted e = false) ->
      spec_call s (OpLookup k now) (Some (spec_sweep s now)) (Found noRef)
  | SRefresh r now i e : sp_flows s !! i = Some e -> r = flowRef i e -> fe_accepted e = true -> fe_activity e < now ->
      0 < fe_references e \/ now < fe_activity e + sp_idle s ->
      spec_call s (OpRefresh r now) (Some (spec_put s i (touch e now))) Silent
  | SRefreshNone r now : (forall i e, sp_flows s !! i = Some e -> r = flowRef i e -> fe_accepted e = false \/ now <= fe_activity e \/
        fe_references e = 0 /\ fe_activity e + sp_idle s <= now) -> spec_call s (OpRefresh r now) (Some s) Silent
  | SDestroy : spec_call s OpDestroy None Silent.

(** A destroyed table refuses flows and finds none. *)
Definition spec_dead (op : flow_op) : flow_out :=
  match op with
  | OpReserve _ _ => Leased (Err ServiceInvalidRequestV1)
  | OpLookup _ _ => Found noRef
  | _ => Silent
  end.

Inductive spec_run : option flow_spec -> list flow_op -> option flow_spec -> list flow_out -> Prop :=
  | run_nil s : spec_run s [] s []
  | run_live s op s' out ops s'' outs : spec_call s op s' out -> spec_run s' ops s'' outs ->
      spec_run (Some s) (op :: ops) s'' (out :: outs)
  | run_dead op ops s'' outs : spec_run None ops s'' outs -> spec_run None (op :: ops) s'' (spec_dead op :: outs).

(** ** The table as a state machine *)

Definition call (f : productionFlowTableV1) (op : flow_op) : productionFlowTableV1 * flow_out :=
  match op with
  | OpReserve k now => let '(f, r) := reserveV1 f k now in (f, Leased r)
  | OpAccept r now => (acceptV1 f r now, Silent)
  | OpRelease r => (releaseV1 f r, Silent)
  | OpLookup k now => let '(f, r) := lookupV1 f k now in (f, Found r)
  | OpRefresh r now => (refreshV1 f r now, Silent)
  | OpDestroy => (destroyV1 f, Silent)
  end.

Fixpoint calls (f : productionFlowTableV1) (ops : list flow_op) : productionFlowTableV1 * list flow_out :=
  match ops with
  | [] => (f, [])
  | op :: ops => let '(f, out) := call f op in let '(f, outs) := calls f ops in (f, out :: outs)
  end.

(** The index of a reference is a [uint16]. *)
Definition opOk (op : flow_op) : Prop :=
  match op with OpAccept r _ | OpRelease r | OpRefresh r _ => 0 <= ref_index r | _ => True end.

(** ** The abstraction *)

Definition flows (f : productionFlowTableV1) : gmap nat productionFlowEntryV1 :=
  filter (fun p => fe_generation p.2 <> 0) (map_seq 0 (ft_entries f)).

Definition absLive (f : productionFlowTableV1) : flow_spec :=
  mkFlowSpec (flows f) (ft_nextGeneration f) (ft_tcpCapacity f) (zlen (ft_entries f) - ft_tcpCapacity f) (ft_idle f).

Definition abs (f : productionFlowTableV1) : option flow_spec := if ft_destroyed f then None else Some (absLive f).

Definition good (f : productionFlowTableV1) : Prop := ft_destroyed f = true \/ wf f.

Lemma flows_lookup f i e : flows f !! i = Some e <-> liveAt f i e.
Proof. unfold flows. rewrite map_lookup_filter_Some, lookup_map_seq_0. done. Qed.

Lemma flows_eq f m : (forall i e, liveAt f i e <-> m !! i = Some e) -> flows f = m.
Proof.
  intros H. apply map_eq. intros i. apply option_eq. intros e. by rewrite flows_lookup, H.
Qed.

Lemma flows_set f i e e' : liveAt f i e -> fe_generation e' = fe_generation e -> flows (setEntry f i e') = <[i := e']> (flows f).
Proof.
  intros Hl Hg. apply flows_eq. intros j x. rewrite (setEntry_live f i e e' j x Hl Hg), lookup_insert_Some, flows_lookup.
  naive_solver.
Qed.

Lemma flows_remove f i e : liveAt f i e -> flows (removeLockedV1 f i) = delete i (flows f).
Proof.
  intros Hl. apply flows_eq. intros j x. rewrite (remove_live f i e Hl), lookup_delete_Some, flows_lookup. naive_solver.
Qed.

Lemma flows_add g h i e : (forall j x, liveAt h j x <-> j = i /\ x = e \/ liveAt g j x) -> flows g !! i = None ->
  flows h = <[i := e]> (flows g).
Proof.
  intros HL Hno. apply flows_eq. intros j x. rewrite HL, lookup_insert_Some, flows_lookup. split; [|naive_solver].
  intros [[-> ->]|Hx]; [auto|]. right. split; [|done]. intros ->. apply flows_lookup in Hx. congruence.
Qed.

Lemma abs_expire f now : wf f -> absLive (expireLockedV1 f now) = spec_sweep (absLive f) now.
Proof.
  intros HW. destruct (expire_spec f now HW) as (_ & (Hi & Ht & _ & Hlen) & Hn & HL). unfold absLive, spec_sweep. cbn.
  unfold zlen. rewrite Hi, Ht, Hlen, Hn. f_equal. apply flows_eq. intros j x.
  rewrite HL, map_lookup_filter_Some, flows_lookup. done.
Qed.

Lemma abs_set f i e e' : liveAt f i e -> fe_generation e' = fe_generation e -> absLive (setEntry f i e') = spec_put (absLive f) i e'.
Proof.
  intros Hl Hg. unfold absLive, spec_put. cbn. rewrite (flows_set f i e e' Hl Hg). unfold zlen. by rewrite length_insert.
Qed.

Lemma abs_remove f i e : liveAt f i e -> absLive (removeLockedV1 f i) = spec_drop (absLive f) i.
Proof.
  intros Hl. unfold spec_drop. unfold absLive at 1. rewrite (flows_remove f i e Hl). destruct (remove_shape_same f i) as [(Hi & Ht & _ & Hlen) Hn].
  unfold zlen. by rewrite Hi, Ht, Hlen, Hn.
Qed.

(** ** Capacities and references *)

(** The live and the free slots of a class make up its range. *)
Lemma class_split (m : gmap nat productionFlowEntryV1) (tcp : bool) (s : list Z) lo hi : NoDup s -> lo <= hi ->
  (forall z, z ∈ s <-> lo <= z < hi /\ ~ exists e, m !! Z.to_nat z = Some e) ->
  (forall i e, m !! i = Some e -> isTcp (fe_key e) = tcp <-> lo <= Z.of_nat i < hi) -> 0 <= lo ->
  spec_count m tcp + zlen s = hi - lo.
Proof.
  intros HN Hr Hs Hm Hlo. unfold spec_count. set (c := filter _ m).
  assert (fmap Z.of_nat (elements (dom c)) ++ s ≡ₚ seqZ lo (hi - lo)) as HP.
  { apply NoDup_Permutation; [|apply NoDup_seqZ|].
    - apply NoDup_app. split; [apply (NoDup_fmap _), NoDup_elements|]. split; [|done].
      intros z (i & -> & Hi)%list_elem_of_fmap Hz. apply Hs in Hz as [_ Hno]. apply Hno. rewrite Nat2Z.id.
      apply elem_of_elements, elem_of_dom in Hi as [e He]. exists e. by apply map_lookup_filter_Some in He as [? _].
    - intros z. rewrite elem_of_app, list_elem_of_fmap, Hs, elem_of_seqZ. split.
      + intros [(i & -> & Hi)|[? _]]; [|lia]. apply elem_of_elements, elem_of_dom in Hi as [e He].
        apply map_lookup_filter_Some in He as [He Ht]. apply (Hm i e He) in Ht. lia.
      + intros Hz. destruct (m !! Z.to_nat z) as [e|] eqn:E.
        * left. exists (Z.to_nat z). split; [lia|]. apply elem_of_elements, elem_of_dom. exists e.
          apply map_lookup_filter_Some. split; [done|]. apply (Hm _ _ E). lia.
        * right. split; [lia|]. by intros [e He]. }
  apply Permutation_length in HP. rewrite length_app, length_fmap, length_seqZ in HP.
  change (length (elements (dom c))) with (size (dom c)) in HP. rewrite size_dom in HP. unfold zlen. lia.
Qed.

Lemma dead_not_live f z : 0 <= z < zlen (ft_entries f) -> deadAt f z <-> ~ exists e, flows f !! Z.to_nat z = Some e.
Proof.
  intros Hz. setoid_rewrite flows_lookup. split.
  - intros (e & He & Hg) (e' & He' & Hg'). congruence.
  - intros Hno. destruct (lookup_lt_is_Some_2 (ft_entries f) (Z.to_nat z)) as [e He]; [unfold zlen in *; lia|].
    exists e. split; [done|]. destruct (Z.eq_dec (fe_generation e) 0); [done|]. exfalso. apply Hno. by exists e.
Qed.

Lemma class_count f tcp : wf f ->
  spec_count (flows f) tcp + (if tcp then ft_tcpFree f else ft_udpFree f) = spec_capacity (absLive f) tcp.
Proof.
  intros HW. destruct (wf_capacity f HW) as [Hc HF], (wf_free f HW) as [Htf Huf], (wf_tcp f HW) as [HTN HT], (wf_udp f HW) as [HUN HU].
  assert (Hcls : forall i e, flows f !! i = Some e -> isTcp (fe_key e) = true <-> Z.of_nat i < ft_tcpCapacity f).
  { intros i e He%flows_lookup. destruct (wf_class f HW i e He) as [_ <-]. unfold isTcp. by rewrite Z.eqb_eq. }
  assert (Hi : forall i e, flows f !! i = Some e -> Z.of_nat i < zlen (ft_entries f)).
  { intros i e He%flows_lookup%live_lt. unfold zlen. lia. }
  destruct tcp; cbn [spec_capacity absLive sp_tcp sp_udp].
  - rewrite <- (zlen_ztake (ft_tcpFree f) (ft_free f)) by lia. rewrite <- (Z.sub_0_r (ft_tcpCapacity f)).
    apply class_split; [done|lia| |intros i e He; rewrite (Hcls i e He); lia|lia].
    intros z. change (z ∈ tcpStack f <-> 0 <= z < ft_tcpCapacity f /\ ~ exists e, flows f !! Z.to_nat z = Some e).
    rewrite HT. split; intros [? ?]; (split; [done|]); apply dead_not_live; try done; lia.
  - rewrite <- (zlen_ztake (ft_udpFree f) (zdrop (ft_tcpCapacity f) (ft_free f))) by (rewrite zlen_zdrop; lia).
    apply class_split; [done|lia| | |lia].
    + intros z. change (z ∈ udpStack f <-> ft_tcpCapacity f <= z < zlen (ft_entries f) /\ ~ exists e, flows f !! Z.to_nat z = Some e).
      rewrite HU. split; intros [? ?]; (split; [done|]); apply dead_not_live; try done; lia.
    + intros i e He. specialize (Hi i e He). specialize (Hcls i e He). destruct (isTcp (fe_key e)).
      * split; [done|]. intros ?. destruct Hcls as [Hcls _]. specialize (Hcls eq_refl). lia.
      * split; [|done]. intros _. destruct (Z.lt_ge_cases (Z.of_nat i) (ft_tcpCapacity f)) as [Hlt|]; [|lia].
        by apply Hcls in Hlt.
Qed.

(** A reference is current exactly when it is the reference of a live flow. *)
Lemma entry_exact f r i e : ft_destroyed f = false -> 0 <= ref_index r ->
  entryLockedV1 f r = Some (i, e) <-> liveAt f i e /\ r = flowRef i e.
Proof.
  intros HD Hr. unfold entryLockedV1, flowRef, liveAt, entryAt. rewrite HD. cbn [orb]. destruct r as [g n]. cbn in *.
  rewrite nth_lookup. split.
  - destruct (Z.eqb_spec n 0), (Z.ltb_spec (zlen (ft_entries f)) n), (Z.eqb_spec g 0); cbn [orb]; try done.
    destruct (lookup_lt_is_Some_2 (ft_entries f) (Z.to_nat (n - 1))) as [y Hy]; [unfold zlen in *; lia|]. rewrite Hy. cbn.
    destruct (Z.eqb_spec (fe_generation y) g); [|done]. intros HS. apply (inj Some) in HS. injection HS as Hi He. subst i y.
    split; [split; [done|lia]|]. f_equal; lia.
  - intros [[He Hg] [= -> ->]]. pose proof (lookup_lt_Some _ _ _ He).
    replace (Z.to_nat (Z.of_nat i + 1 - 1)) with i by lia. rewrite He. cbn.
    destruct (Z.eqb_spec (Z.of_nat i + 1) 0); [lia|]. destruct (Z.ltb_spec (zlen (ft_entries f)) (Z.of_nat i + 1)); [unfold zlen in *; lia|].
    destruct (Z.eqb_spec (fe_generation e) 0); [done|]. cbn [orb]. by rewrite Z.eqb_refl.
Qed.

Lemma entry_none f r : ft_destroyed f = false -> 0 <= ref_index r -> entryLockedV1 f r = None ->
  forall i e, flows f !! i = Some e -> r <> flowRef i e.
Proof. intros HD Hr HN i e He%flows_lookup E. pose proof (proj2 (entry_exact f r i e HD Hr) (conj He E)). congruence. Qed.

Lemma flowRef_inj f i e i' e' : flows f !! i = Some e -> flows f !! i' = Some e' -> flowRef i e = flowRef i' e' ->
  i = i' /\ e = e'.
Proof. intros He He' E. injection E as Eg Ei. assert (i = i') as <- by lia. rewrite He in He'. by injection He'. Qed.

(** ** Each call refines its specification *)

Definition simulates (f g : productionFlowTableV1) (op : flow_op) (out : flow_out) : Prop :=
  good g /\ spec_call (absLive f) op (abs g) out.

Lemma reservable_spec k now : (now =? 0) || (negb (fk_family k =? 4) && negb (fk_family k =? 6))
  || (negb (fk_protocol k =? 6) && negb (fk_protocol k =? 17)) = false <-> reservable k now.
Proof.
  unfold reservable. destruct (Z.eqb_spec now 0), (Z.eqb_spec (fk_family k) 4), (Z.eqb_spec (fk_family k) 6),
    (Z.eqb_spec (fk_protocol k) 6), (Z.eqb_spec (fk_protocol k) 17); cbn; split; intros H; try done; try lia;
    exfalso; destruct H as (? & ? & ?); lia.
Qed.

Lemma abs_live f : ft_destroyed f = false -> abs f = Some (absLive f).
Proof. unfold abs. by intros ->. Qed.

Lemma set_simulates f op i e e' : wf f -> ft_destroyed f = false -> liveAt f i e -> fe_key e' = fe_key e ->
  fe_generation e' = fe_generation e -> 0 <= fe_references e' <= maxUint32 ->
  spec_call (absLive f) op (Some (spec_put (absLive f) i e')) Silent -> simulates f (setEntry f i e') op Silent.
Proof.
  intros HW HD Hl Hk Hg Hr HS. split; [right; by eapply setEntry_wf|]. rewrite abs_live by done. by rewrite (abs_set f i e e').
Qed.

Lemma accept_simulates f r now : wf f -> ft_destroyed f = false -> 0 <= ref_index r ->
  simulates f (acceptV1 f r now) (OpAccept r now) Silent.
Proof.
  intros HW HD Hr. unfold acceptV1. destruct (entryLockedV1 f r) as [[i e]|] eqn:E.
  - apply entry_exact in E as [Hl ->]; [|done..]. pose proof (proj2 (flows_lookup _ _ _) Hl) as Hf.
    pose proof (wf_references f HW i e Hl) as Hrefs.
    destruct (Z.ltb_spec 0 (fe_references e)), (Z.eqb_spec now 0); cbn [andb negb].
    2: { eapply set_simulates; try done. replace (mkFlowEntry _ _ _ _ _) with (touch e now).
         { by apply SAccept. } unfold touch. f_equal. destruct (Z.ltb_spec (fe_activity e) now); lia. }
    all: split; [by right|]; rewrite abs_live by done; apply SAcceptNone; intros i' e' He' E;
      destruct (flowRef_inj _ _ _ _ _ Hf He' E) as [<- <-]; lia.
  - split; [by right|]. rewrite abs_live by done. apply SAcceptNone. intros i e He Er. by destruct (entry_none f r HD Hr E i e He).
Qed.

Lemma refresh_simulates f r now : wf f -> ft_destroyed f = false -> 0 <= ref_index r ->
  simulates f (refreshV1 f r now) (OpRefresh r now) Silent.
Proof.
  intros HW HD Hr. unfold refreshV1. destruct (entryLockedV1 f r) as [[i e]|] eqn:E.
  - apply entry_exact in E as [Hl ->]; [|done..]. pose proof (proj2 (flows_lookup _ _ _) Hl) as Hf.
    pose proof (wf_references f HW i e Hl) as Hrefs. destruct (_ && _) eqn:C.
    + apply andb_true_iff in C as [[Ha Hi]%andb_true_iff Hn%Z.ltb_lt].
      eapply set_simulates; try done. replace (mkFlowEntry _ _ _ _ _) with (touch e now).
      { apply SRefresh; try done. destruct (Z.ltb_spec 0 (fe_references e)); [by left|]. right. cbn. apply Z.ltb_lt. exact Hi. }
      unfold touch. rewrite Ha. f_equal. lia.
    + split; [by right|]. rewrite abs_live by done. apply SRefreshNone. intros i' e' He' Er.
      destruct (flowRef_inj _ _ _ _ _ Hf He' Er) as [<- <-]. cbn [absLive sp_idle].
      destruct (fe_accepted e), (Z.ltb_spec 0 (fe_references e)), (Z.ltb_spec now (fe_activity e + ft_idle f)),
        (Z.ltb_spec (fe_activity e) now); cbn in C; try done; auto; right; lia.
  - split; [by right|]. rewrite abs_live by done. apply SRefreshNone. intros i e He Er. by destruct (entry_none f r HD Hr E i e He).
Qed.

Lemma release_simulates f r : wf f -> ft_destroyed f = false -> 0 <= ref_index r ->
  simulates f (releaseV1 f r) (OpRelease r) Silent.
Proof.
  intros HW HD Hr. unfold releaseV1. destruct (entryLockedV1 f r) as [[i e]|] eqn:E.
  2: { split; [by right|]. rewrite abs_live by done. apply SReleaseNone. intros i e He Er. by destruct (entry_none f r HD Hr E i e He). }
  apply entry_exact in E as [Hl ->]; [|done..]. pose proof (proj2 (flows_lookup _ _ _) Hl) as Hf.
  pose proof (wf_references f HW i e Hl) as Hrefs. destruct (Z.ltb_spec 0 (fe_references e)) as [Hpos|Hz].
  2: { split; [by right|]. rewrite abs_live by done. apply SReleaseNone. intros i' e' He' Er.
       destruct (flowRef_inj _ _ _ _ _ Hf He' Er) as [<- <-]. lia. }
  change (mkFlowEntry _ _ _ _ _) with (bump e (-1)). cbv zeta. destruct (_ && _) eqn:C.
  - apply andb_true_iff in C as [C1%Z.eqb_eq C2%negb_true_iff].
    assert (Hl' : liveAt (setEntry f i (bump e (-1))) i (bump e (-1))). { apply (setEntry_live f i e); auto. }
    split; [right; eapply remove_wf; [eapply setEntry_wf; try done; cbn; lia|exact Hl']|].
    rewrite abs_live by done. rewrite (abs_remove _ i _ Hl'), (abs_set f i e) by done.
    replace (spec_drop _ i) with (spec_drop (absLive f) i).
    { apply (SReleaseLast _ _ i e); try done. lia. }
    unfold spec_drop, spec_put. cbn. by rewrite delete_insert_eq.
  - eapply set_simulates; try done; [cbn; lia|]. apply SRelease; try done.
    destruct (fe_accepted e); [by right|]. left. rewrite andb_true_r in C. apply Z.eqb_neq in C. lia.
Qed.

Lemma destroy_simulates f : wf f -> ft_destroyed f = false -> simulates f (destroyV1 f) OpDestroy Silent.
Proof. intros HW HD. unfold destroyV1. rewrite HD. split; [by left|]. apply SDestroy. Qed.

Lemma ref_index_small f i e : wf f -> liveAt f i e -> wrap16 (Z.of_nat i + 1) = Z.of_nat i + 1.
Proof. intros HW Hl%live_lt. pose proof (wf_room f HW). apply Z.mod_small. unfold zlen in *. lia. Qed.

Lemma lease_live f i e : wf f -> liveAt f i e -> lease f i =
  if fe_references e =? maxUint32 then (f, Err ServiceResourceLimitV1) else (setEntry f i (bump e 1), Ok (flowRef i e)).
Proof.
  intros HW Hl. unfold lease. rewrite (entryAt_live f i e) by apply Hl. by rewrite (ref_index_small f i e HW Hl).
Qed.

Lemma lookup_simulates f k now : wf f -> ft_destroyed f = false ->
  simulates f (fst (lookupV1 f k now)) (OpLookup k now) (Found (snd (lookupV1 f k now))).
Proof.
  intros HW HD. unfold lookupV1. rewrite HD. destruct (expire_spec f now HW) as (Hg & (_ & _ & HSd & _) & _ & _).
  pose proof (abs_expire f now HW) as HA. cbv zeta. revert Hg HSd HA. generalize (expireLockedV1 f now) as g. intros g Hg HSd HA.
  assert (HDg : ft_destroyed g = false) by congruence. pose proof (find_exact g Hg k) as HF.
  assert (Hno : (forall i e, flows g !! i = Some e -> fe_key e = k -> fe_accepted e = false) ->
    simulates f g (OpLookup k now) (Found noRef)).
  { intros HN. split; [by right|]. rewrite abs_live, HA by done. apply SLookupNone. rewrite <- HA. done. }
  destruct (findLockedV1 g k) as [[i|] c]; cbn [fst snd] in *.
  - destruct (proj1 (HF i) eq_refl) as (e & Hl & Hk). rewrite (entryAt_live g i e) by apply Hl.
    rewrite (ref_index_small g i e Hg Hl). fold (flowRef i e). destruct (fe_accepted e) eqn:Ea.
    + split; [by right|]. rewrite abs_live, HA by done. apply SLookup; try done. rewrite <- HA. by apply flows_lookup.
    + apply Hno. intros i' e' He'%flows_lookup Hk'. assert (i = i') as <- by (eapply (wf_keys g Hg); [done..|]; by rewrite Hk, Hk').
      destruct Hl, He'. congruence.
  - apply Hno. intros i e He%flows_lookup Hk. pose proof (proj2 (HF i) (ex_intro _ e (conj He Hk))). done.
Qed.

(** The reservation of a flow that is not in the table, after the sweep [g]. *)
Lemma reserve_new_simulates f g k now c : wf f -> wf g -> ft_destroyed g = false -> absLive g = spec_sweep (absLive f) now ->
  reservable k now -> (forall i e, liveAt g i e -> fe_key e <> k) -> findLockedV1 g k = (None, Some c) ->
  ft_nextGeneration g <> MaxUint64 -> (if isTcp k then ft_tcpFree g else ft_udpFree g) <> 0 ->
  let '(h, i) := install g k c (isTcp k) in
  simulates f (fst (lease h i)) (OpReserve k now) (Leased (snd (lease h i))).
Proof.
  intros HW Hg HD HA Hk Hno HF Hn Hcap. destruct (find_absent g Hg k Hno) as (c' & j & v & HF' & Hj & Ec & Hv & Hfree & Hb).
  rewrite HF in HF'. injection HF' as <-. pose proof (wf_counter g Hg) as Hc.
  pose proof (install_wf g k c j v Hg Hno (proj2 (proj2 Hk)) ltac:(lia) Hcap Hj Ec Hv Hfree Hb) as Hwf.
  pose proof (install_live g Hg k c _ Hcap) as HL. destruct (install_free g Hg k c _ Hcap) as ((y & Hy & Hdead) & Hi & _).
  fold (isTcp k) in Hwf. destruct (install g k c (isTcp k)) as [h i] eqn:EI. cbn [fst snd] in *.
  assert (Hl : liveAt h i (freshEntry g k)) by (apply HL; auto). rewrite (lease_live h i _ Hwf Hl). cbn [freshEntry fe_references].
  change (0 =? maxUint32) with false. cbn [fst snd]. injection EI as Eh Ei.
  assert (HDh : ft_destroyed h = false) by (rewrite <- Eh; exact HD).
  assert (Hnh : ft_nextGeneration h = ft_nextGeneration g + 1) by (rewrite <- Eh; reflexivity).
  assert (ft_tcpCapacity h = ft_tcpCapacity g /\ ft_idle h = ft_idle g /\ zlen (ft_entries h) = zlen (ft_entries g)) as (Hht & Hhi & Hhe).
  { rewrite <- Eh. cbn [ft_tcpCapacity ft_idle ft_entries]. split; [reflexivity|]. split; [reflexivity|apply zlen_insert]. }
  clear Eh Ei.
  split; [right; eapply setEntry_wf; try done; cbn; unfold maxUint32; lia|].
  rewrite abs_live by done. rewrite (abs_set h i (freshEntry g k)) by done.
  assert (Hnone : flows g !! i = None).
  { destruct (flows g !! i) as [z|] eqn:Ez; [|done]. apply flows_lookup in Ez as [Hz Hgz]. rewrite Nat2Z.id in Hy. congruence. }
  assert (Hnext : sp_next (absLive f) = ft_nextGeneration g) by (change (sp_next (absLive f)) with (sp_next (spec_sweep (absLive f) now)); by rewrite <- HA).
  replace (Some (spec_put (absLive h) i (bump (freshEntry g k) 1))) with
    (Some (mkFlowSpec (<[i := mkFlowEntry k 0 (sp_next (absLive f) + 1) 1 false]> (sp_flows (spec_sweep (absLive f) now)))
      (sp_next (absLive f) + 1) (sp_tcp (absLive f)) (sp_udp (absLive f)) (sp_idle (absLive f)))).
  - pose proof (class_count g (isTcp k) Hg) as HC. apply wf_free in Hg as Hfr.
    replace (flowRef i (freshEntry g k)) with (flowRef i (mkFlowEntry k 0 (sp_next (absLive f) + 1) 1 false)) by (unfold flowRef; cbn [fe_generation freshEntry]; by rewrite Hnext).
    apply SReserveNew; try done; rewrite <- ?HA; [by intros i' e' He'%flows_lookup; apply (Hno i')|lia| |done].
    change (spec_capacity (absLive f) (isTcp k)) with (spec_capacity (spec_sweep (absLive f) now) (isTcp k)). rewrite <- HA.
    cbn [absLive sp_flows]. destruct (isTcp k); lia.
  - rewrite Hnext. f_equal. unfold spec_put. rewrite <- HA. cbn [absLive sp_flows sp_next sp_tcp sp_udp sp_idle].
    rewrite (flows_add g h i _ HL Hnone).
    rewrite insert_insert_eq, Hnh. injection HA as _ _ Ht Hu Hid.
    by rewrite Hht, Hhi, Hhe, Hu, Ht, Hid.
Qed.

Lemma reserve_simulates f k now : wf f -> ft_destroyed f = false ->
  simulates f (fst (reserveV1 f k now)) (OpReserve k now) (Leased (snd (reserveV1 f k now))).
Proof.
  intros HW HD. unfold reserveV1. rewrite HD. pose proof (reservable_spec k now) as HR. destruct (_ || _).
  { split; [by right|]. rewrite abs_live by done. apply SReserveBad. intros Hk%HR. done. }
  apply proj1 in HR. specialize (HR eq_refl).
  destruct (expire_spec f now HW) as (Hg & (_ & _ & HSd & _) & HNg & _). pose proof (abs_expire f now HW) as HA.
  cbv zeta. revert Hg HSd HNg HA. generalize (expireLockedV1 f now) as g. intros g Hg HSd HNg HA.
  assert (HDg : ft_destroyed g = false) by congruence. pose proof (find_exact g Hg k) as HF.
  destruct (findLockedV1 g k) as [[i|] oc] eqn:EF; cbn [fst snd] in *.
  - destruct (proj1 (HF i) eq_refl) as (e & Hl & Hk). rewrite (lease_live g i e Hg Hl). pose proof (wf_references g Hg i e Hl).
    pose proof (proj2 (flows_lookup _ _ _) Hl) as Hf. destruct (Z.eqb_spec (fe_references e) maxUint32); cbn [fst snd].
    + split; [by right|]. rewrite abs_live, HA by done. apply (SReserveHeld _ _ _ i e); try done. by rewrite <- HA.
    + split; [right; eapply setEntry_wf; try done; cbn; lia|]. rewrite abs_live by done. rewrite (abs_set g i e), HA by done.
      apply SReserveAgain; try done; [by rewrite <- HA|lia].
  - assert (Hno : forall i e, liveAt g i e -> fe_key e <> k).
    { intros i e Hl Hk. pose proof (proj2 (HF i) (ex_intro _ e (conj Hl Hk))). done. }
    assert (Habs : absent (spec_sweep (absLive f) now) k). { rewrite <- HA. intros i e He%flows_lookup. by apply (Hno i). }
    destruct (find_absent g Hg k Hno) as (c & j & v & EF' & _). rewrite EF in EF'. injection EF' as ->.
    pose proof (class_count g (isTcp k) Hg) as HC.
    assert (Hfull : ft_nextGeneration g = MaxUint64 \/ (if isTcp k then ft_tcpFree g else ft_udpFree g) = 0 ->
      simulates f g (OpReserve k now) (Leased (Err ServiceResourceLimitV1))).
    { intros Hlim. split; [by right|]. rewrite abs_live, HA by done. apply SReserveFull; try done. cbn [absLive sp_next].
      change (spec_capacity (absLive f) (isTcp k)) with (spec_capacity (spec_sweep (absLive f) now) (isTcp k)). rewrite <- HA.
      cbn [absLive sp_flows]. destruct Hlim; [left; congruence|right; lia]. }
    fold (isTcp k). destruct (Z.eqb_spec (ft_nextGeneration g) MaxUint64); [by apply Hfull; left|].
    destruct (Z.eqb_spec (if isTcp k then ft_tcpFree g else ft_udpFree g) 0); [by apply Hfull; right|].
    pose proof (reserve_new_simulates f g k now c HW Hg HDg HA HR Hno EF) as HS.
    destruct (install g k c (isTcp k)) as [h i]. by apply HS.
Qed.

Lemma call_simulates f op : wf f -> ft_destroyed f = false -> opOk op -> simulates f (fst (call f op)) op (snd (call f op)).
Proof.
  intros HW HD Hop. destruct op as [k now|r now|r|k now|r now|]; cbn [call].
  - pose proof (reserve_simulates f k now HW HD) as HS. by destruct (reserveV1 f k now).
  - by apply accept_simulates.
  - by apply release_simulates.
  - pose proof (lookup_simulates f k now HW HD) as HS. by destruct (lookupV1 f k now).
  - by apply refresh_simulates.
  - by apply destroy_simulates.
Qed.

Lemma call_dead f op : ft_destroyed f = true -> call f op = (f, spec_dead op).
Proof.
  intros HD. destruct op; cbn [call spec_dead];
    unfold reserveV1, acceptV1, releaseV1, lookupV1, refreshV1, destroyV1, entryLockedV1; rewrite HD; done.
Qed.

Lemma calls_refine ops : forall f, good f -> Forall opOk ops ->
  good (fst (calls f ops)) /\ spec_run (abs f) ops (abs (fst (calls f ops))) (snd (calls f ops)).
Proof.
  induction ops as [|op ops IH]; intros f HG HO; [split; [done|constructor]|].
  apply Forall_cons in HO as [Hop HO]. cbn [calls]. destruct (ft_destroyed f) eqn:HD.
  - rewrite (call_dead f op HD). destruct (IH f HG HO) as [HG' HR]. destruct (calls f ops) as [g outs]. split; [done|].
    assert (abs f = None) as HN by (unfold abs; by rewrite HD). rewrite HN in *. by constructor.
  - destruct HG as [|HW]; [congruence|]. destruct (call_simulates f op HW HD Hop) as [HG HS].
    destruct (call f op) as [g out]. cbn [fst snd] in *. destruct (IH g HG HO) as [HG' HR].
    destruct (calls g ops) as [h outs]. split; [done|]. rewrite (abs_live f HD). by econstructor.
Qed.

(** ** Where flows come from and how long they stay *)

(** The same flow, whatever its references and activity. *)
Definition sameFlow (e e' : productionFlowEntryV1) : Prop := fe_key e = fe_key e' /\ fe_generation e = fe_generation e'.

Definition born (s s' : flow_spec) : Prop := sp_next s <= sp_next s' /\
  forall i e', sp_flows s' !! i = Some e' -> sp_next s < fe_generation e' \/ exists e, sp_flows s !! i = Some e /\ sameFlow e e'.

Lemma sweep_some s now i e : sp_flows (spec_sweep s now) !! i = Some e -> sp_flows s !! i = Some e.
Proof. cbn. by intros [? _]%map_lookup_filter_Some. Qed.

Lemma born_sweep s now : born s (spec_sweep s now).
Proof. split; [cbn; lia|]. intros i e He%sweep_some. right. by exists e. Qed.

Lemma born_put s t i e e' : born s t -> sp_flows t !! i = Some e -> sameFlow e e' -> born s (spec_put t i e').
Proof.
  intros [Hn Hb] He [Hk Hg]. split; [done|]. cbn [spec_put sp_flows].
  intros j x [[<- <-]|[_ Hx]]%lookup_insert_Some; [|by apply Hb].
  destruct (Hb i e He) as [?|(y & Hy & Hyk & Hyg)]; [left; lia|]. right. exists y. split; [done|]. split; congruence.
Qed.

Lemma born_refl s : born s s.
Proof. split; [lia|]. intros i e He. right. by exists e. Qed.

Lemma call_born s op s' out : spec_call s op (Some s') out -> born s s'.
Proof.
  intros HC. inversion HC; subst; try apply born_refl; try apply born_sweep.
  - eapply born_put; [apply born_sweep|done|done].
  - split; [cbn; lia|]. cbn [sp_flows]. intros j x [[<- <-]|[_ Hx]]%lookup_insert_Some; [left; cbn; lia|].
    right. exists x. split; [by apply sweep_some in Hx|done].
  - eapply born_put; [apply born_refl|done|done].
  - eapply born_put; [apply born_refl|done|done].
  - split; [done|]. cbn [spec_drop sp_flows]. intros j x [_ Hx]%lookup_delete_Some. right. by exists x.
  - eapply born_put; [apply born_refl|done|done].
Qed.

Lemma run_none ops s' outs : spec_run None ops s' outs -> s' = None.
Proof. remember None as n eqn:E. induction 1; try done. by apply IHspec_run. Qed.

Lemma run_born s ops s' outs : spec_run (Some s) ops (Some s') outs -> born s s'.
Proof.
  remember (Some s) as a eqn:Ea. remember (Some s') as b eqn:Eb. intros HR. revert s Ea.
  induction HR as [u|t op t' out ops t'' outs HC HR IH|]; intros s Ea.
  - assert (s = s') as -> by congruence. apply born_refl.
  - injection Ea as ->. destruct t' as [t'|]; [|apply run_none in HR; congruence].
    destruct (call_born _ _ _ _ HC) as [Hn Hb], (IH Eb t' eq_refl) as [Hn' Hb']. split; [lia|].
    intros i e' He'. destruct (Hb' i e' He') as [?|(y & Hy & Hyk & Hyg)]; [left; lia|].
    destruct (Hb i y Hy) as [?|(x & Hx & Hxk & Hxg)]; [left; lia|]. right. exists x. split; [done|]. split; congruence.
  - done.
Qed.

(** A flow with references stays until its last reference is released. *)
Definition pinned (s : flow_spec) (i : nat) (e : productionFlowEntryV1) : Prop :=
  exists e', sp_flows s !! i = Some e' /\ sameFlow e e' /\ 0 < fe_references e' /\ (fe_accepted e = true -> fe_accepted e' = true).

Definition keeps (r : productionFlowRefV1) (op : flow_op) : Prop := op <> OpRelease r /\ op <> OpDestroy.

Lemma sameFlow_ref i e e' : sameFlow e e' -> flowRef i e = flowRef i e'.
Proof. intros [_ Hg]. unfold flowRef. by rewrite Hg. Qed.

Lemma pinned_sweep s now i e : pinned s i e -> pinned (spec_sweep s now) i e.
Proof.
  intros (e' & He' & HS & Hr & Ha). exists e'. split; [|done]. cbn. apply map_lookup_filter_Some. split; [done|]. cbn. unfold expired.
  destruct (Z.eqb_spec (fe_references e') 0); [lia|]. by rewrite andb_false_r.
Qed.

Lemma pinned_put s i e j x y : pinned s i e -> sp_flows s !! j = Some x -> sameFlow x y ->
  (0 < fe_references x -> 0 < fe_references y) -> (fe_accepted x = true -> fe_accepted y = true) -> pinned (spec_put s j y) i e.
Proof.
  intros (e' & He' & HS & Hr & Ha) Hx Hxy Hpos Hacc. unfold pinned. cbn [spec_put sp_flows]. destruct (decide (j = i)) as [->|Hne].
  - rewrite lookup_insert_eq. assert (x = e') as -> by congruence. exists y. split; [done|]. split; [|split; [by apply Hpos|auto]].
    destruct HS, Hxy. split; congruence.
  - rewrite lookup_insert_ne by done. by exists e'.
Qed.

Lemma call_pinned s op s' out i e : spec_call s op s' out -> keeps (flowRef i e) op -> pinned s i e ->
  exists t, s' = Some t /\ pinned t i e.
Proof.
  intros HC [Hrel Hdes] HP. inversion HC; subst; try done; (eexists; split; [reflexivity|]); try done; try by apply pinned_sweep.
  - eapply pinned_put; [by apply pinned_sweep|done|done|cbn; lia|done].
  - destruct (pinned_sweep s now i e HP) as (e' & He' & HS & Hr). unfold pinned. cbn [sp_flows].
    rewrite lookup_insert_ne by congruence. by exists e'.
  - eapply pinned_put; try done; cbn; lia.
  - destruct HP as (e' & He' & HS & Hr). unfold pinned. cbn [spec_put sp_flows]. rewrite lookup_insert_ne; [by exists e'|].
    intros ->. apply Hrel. f_equal. rewrite (sameFlow_ref _ _ _ HS). congruence.
  - destruct HP as (e' & He' & HS & Hr). unfold pinned. cbn [spec_drop sp_flows]. rewrite lookup_delete_ne; [by exists e'|].
    intros ->. apply Hrel. f_equal. rewrite (sameFlow_ref _ _ _ HS). congruence.
  - eapply pinned_put; try done; cbn; lia.
Qed.

Lemma run_pinned s ops s' outs i e : spec_run (Some s) ops s' outs -> Forall (keeps (flowRef i e)) ops -> pinned s i e ->
  exists t, s' = Some t /\ pinned t i e.
Proof.
  remember (Some s) as a eqn:Ea. intros HR. revert s Ea. induction HR as [w|u op u' out ops u'' outs HC HR IH|]; intros s Ea HK HP.
  - subst. by exists s.
  - injection Ea as ->. apply Forall_cons in HK as [Hk HK]. destruct (call_pinned _ _ _ _ _ _ HC Hk HP) as (t & -> & Ht).
    by apply (IH t).
  - done.
Qed.


(** What a granted reservation leaves behind. *)
Lemma reserve_granted s k now s' r : (forall i e, sp_flows s !! i = Some e -> 0 <= fe_references e) ->
  spec_call s (OpReserve k now) s' (Leased (Ok r)) ->
  exists t i e, s' = Some t /\ sp_flows t !! i = Some e /\ fe_key e = k /\ 0 < fe_references e /\ r = flowRef i e.
Proof.
  intros Hrefs HC. inversion HC; subst.
  - exists (spec_put (spec_sweep s now) i (bump e 1)), i, (bump e 1). cbn [spec_put sp_flows]. rewrite lookup_insert_eq.
    repeat split; try done. cbn. match goal with He : _ !! i = Some e |- _ => apply sweep_some, Hrefs in He; lia end.
  - eexists _, i, _. split; [reflexivity|]. cbn [sp_flows]. rewrite lookup_insert_eq. split; [reflexivity|]. done.
Qed.

(** A granted reservation in a reachable state. *)
Lemma granted_live f before k now r g : wf f -> Forall opOk before ->
  call (fst (calls f before)) (OpReserve k now) = (g, Leased (Ok r)) ->
  wf g /\ ft_destroyed g = false /\ exists i e, liveAt g i e /\ fe_key e = k /\ 0 < fe_references e /\ r = flowRef i e.
Proof.
  intros HW HB HC. destruct (calls_refine before f (or_intror HW) HB) as [HG _]. set (b := fst (calls f before)) in *. clearbody b.
  destruct (ft_destroyed b) eqn:HD; [rewrite (call_dead b _ HD) in HC; injection HC as ? HC; done|].
  destruct HG as [|HWb]; [congruence|]. destruct (call_simulates b (OpReserve k now) HWb HD I) as [HGg HS].
  rewrite HC in HGg, HS. cbn [fst snd] in *.
  destruct (reserve_granted (absLive b) k now (abs g) r) as (t & i & e & Hg & He & Hk & Hpos & ->); [|done|].
  { intros i e He%flows_lookup. apply (wf_references b HWb i e He). }
  assert (HDg : ft_destroyed g = false) by (unfold abs in Hg; by destruct (ft_destroyed g)).
  destruct HGg as [|HWg]; [congruence|]. rewrite abs_live in Hg by done. injection Hg as <-.
  split; [done|]. split; [done|]. exists i, e. by apply flows_lookup in He.
Qed.

(** Later states of a well-formed table. *)
Section later.
Context (g : productionFlowTableV1) (HW : wf g) (HD : ft_destroyed g = false) (after : list flow_op) (HO : Forall opOk after).
Context (i : nat) (e : productionFlowEntryV1) (Hl : liveAt g i e).

Let h : productionFlowTableV1 := fst (calls g after).

Lemma later_same j x : ft_destroyed h = false -> liveAt h j x -> flowRef j x = flowRef i e -> j = i /\ fe_key x = fe_key e.
Proof using HW HD HO Hl.
  intros HDh Hx Er. destruct (calls_refine after g (or_intror HW) HO) as [_ HR]. fold h in HR.
  rewrite (abs_live g HD), (abs_live h HDh) in HR. injection Er as Eg Ei. assert (j = i) as -> by lia. split; [done|].
  destruct (run_born _ _ _ _ HR) as [_ Hb]. destruct (Hb i x (proj2 (flows_lookup _ _ _) Hx)) as [Hlt|(y & Hy & Hyk & _)].
  - pose proof (wf_next g HW i e Hl). cbn in Hlt. lia.
  - apply flows_lookup in Hy. destruct Hy, Hl. congruence.
Qed.

Lemma later_held : 0 < fe_references e -> Forall (keeps (flowRef i e)) after ->
  ft_destroyed h = false /\ wf h /\ exists x, liveAt h i x /\ sameFlow e x /\ 0 < fe_references x /\ (fe_accepted e = true -> fe_accepted x = true).
Proof using HW HD HO Hl.
  intros Hpos HK. destruct (calls_refine after g (or_intror HW) HO) as [HG HR]. fold h in HG, HR. rewrite (abs_live g HD) in HR.
  destruct (run_pinned _ _ _ _ i e HR HK) as (u & Hu & x & Hx & HS & Hr & Ha); [exists e; split; [by apply flows_lookup|done]|].
  assert (HDh : ft_destroyed h = false) by (unfold abs in Hu; by destruct (ft_destroyed h)).
  split; [done|]. destruct HG as [|HWh]; [congruence|]. split; [done|]. rewrite (abs_live h HDh) in Hu. injection Hu as <-.
  exists x. by apply flows_lookup in Hx.
Qed.
End later.

(** ** The theorems *)

(** C20: over every sequence of reservations, acceptances, releases, lookups,
    refreshes and destructions, the flow table with its hash index, its
    tombstones and its free stacks answers as a plain map from slots to flows
    with a TCP and a UDP capacity: a key has at most one flow, a flow that nobody
    holds and that was never accepted or has been idle is swept before every
    reservation and lookup, and a reservation is refused only for a bad key, a
    full class, 2^32 - 1 references or 2^64 - 1 generations, never because of
    removed entries. *)
Theorem flow_table_refines st se tcp udp idle f ops :
  newProductionFlowTableV1 st se tcp udp idle = Ok f -> 0 <= tcp -> 0 <= udp -> Forall opOk ops ->
  spec_run (Some (mkFlowSpec ∅ 0 tcp udp idle)) ops (abs (fst (calls f ops))) (snd (calls f ops)).
Proof.
  intros HN Ht Hu HO. destruct (new_wf _ _ _ _ _ _ HN Ht Hu) as [HW Hno].
  destruct (new_shape _ _ _ _ _ _ HN Ht Hu) as (Hn & m & Hm & Hr & Ef).
  replace (Some (mkFlowSpec ∅ 0 tcp udp idle)) with (abs f); [apply calls_refine; [by right|done]|].
  rewrite abs_live by by rewrite Ef. unfold absLive. f_equal. rewrite (flows_eq f ∅).
  - rewrite Ef. cbn [ft_nextGeneration ft_tcpCapacity ft_entries ft_idle]. f_equal. unfold zlen. rewrite length_replicate. lia.
  - intros i e. rewrite lookup_empty. split; [|done]. intros Hl. by destruct (Hno _ _ Hl).
Qed.

(** C21: the reference a reservation grants for a key names that key's flow for
    ever: in every later state of the table it resolves, if at all, to a flow of
    the same key, also after its slot was reused; and it does resolve as long as
    it is not released and the table not destroyed, whatever expires meanwhile. *)
Theorem flow_reference_exact st se tcp udp idle f before k now r after g :
  newProductionFlowTableV1 st se tcp udp idle = Ok f -> 0 <= tcp -> 0 <= udp -> Forall opOk before -> Forall opOk after ->
  call (fst (calls f before)) (OpReserve k now) = (g, Leased (Ok r)) ->
  (forall i e, entryLockedV1 (fst (calls g after)) r = Some (i, e) -> fe_key e = k) /\
  (Forall (keeps r) after -> exists i e, entryLockedV1 (fst (calls g after)) r = Some (i, e)).
Proof.
  intros HN Ht Hu HB HA HC. destruct (new_wf _ _ _ _ _ _ HN Ht Hu) as [HW _].
  destruct (granted_live f before k now r g HW HB HC) as (HWg & HDg & i & e & Hl & Hk & Hpos & ->). split.
  - intros j x HE. destruct (ft_destroyed (fst (calls g after))) eqn:HDh; [unfold entryLockedV1 in HE; by rewrite HDh in HE|].
    apply entry_exact in HE as [Hx Er]; [|done|cbn; lia]. rewrite <- Hk.
    by apply (later_same g HWg HDg after HA i e Hl j x HDh Hx).
  - intros HK. destruct (later_held g HWg HDg after HA i e Hl Hpos HK) as (HDh & _ & x & Hx & HS & _).
    exists i, x. apply entry_exact; [done|cbn; lia|]. split; [done|]. by apply sameFlow_ref.
Qed.

(** ** A table with room for one TCP and one UDP flow *)

Definition sampleKey (port : Z) (protocol : Z) : productionFlowKeyV1 := mkFlowKey (zeros 16) (zeros 16) port 53 4 protocol.

(** A flow is reserved, accepted and released, expires, and its slot is reused:
    the old reference is dead and the new one leased. *)
Definition sampleOps : list flow_op :=
  [OpReserve (sampleKey 1000 6) 5; OpAccept (mkFlowRef 1 1) 6; OpRelease (mkFlowRef 1 1); OpLookup (sampleKey 1000 6) 7].

Definition sampleTable : productionFlowTableV1 :=
  mkFlowTable (replicate 2 zeroEntry) (replicate 4 0) [0; 1] 10 0 1 1 1 false.

Lemma sampleOps_run : snd (calls sampleTable (sampleOps ++ [OpReserve (sampleKey 2000 6) 8; OpReserve (sampleKey 2000 6) 16;
    OpLookup (sampleKey 1000 6) 17])) =
  [Leased (Ok (mkFlowRef 1 1)); Silent; Silent; Found (mkFlowRef 1 1); Leased (Err ServiceResourceLimitV1);
   Leased (Ok (mkFlowRef 2 1)); Found noRef].
Proof. vm_compute. reflexivity. Qed.

Lemma flow_table_refines_witness :
  spec_run (Some (mkFlowSpec ∅ 0 1 1 10)) sampleOps (abs (fst (calls sampleTable sampleOps))) (snd (calls sampleTable sampleOps)).
Proof.
  apply (flow_table_refines 120 88 1 1 10 sampleTable sampleOps); [reflexivity|lia|lia|].
  repeat constructor; cbn; lia.
Defined.

Lemma flow_reference_exact_witness :
  exists i e, entryLockedV1 (fst (calls (fst (call (fst (calls sampleTable sampleOps)) (OpReserve (sampleKey 2000 6) 16)))
    [OpReserve (sampleKey 1000 6) 90; OpLookup (sampleKey 2000 6) 1000])) (mkFlowRef 2 1) = Some (i, e).
Proof.
  apply (flow_reference_exact 120 88 1 1 10 sampleTable sampleOps (sampleKey 2000 6) 16 (mkFlowRef 2 1)
    [OpReserve (sampleKey 1000 6) 90; OpLookup (sampleKey 2000 6) 1000]
    (fst (call (fst (calls sampleTable sampleOps)) (OpReserve (sampleKey 2000 6) 16)))).
  - reflexivity.
  - lia.
  - lia.
  - repeat constructor; cbn; lia.
  - repeat constructor.
  - vm_compute. reflexivity.
  - repeat constructor; done.
Defined.
