(* ===== verification/Admission.v ===== *)
(** * Packet admission

    [productionPacketAdmissionV1] of
    [src/internal/runtime/production_packet_admission_v1.go] and the step of
    [consumeFrameV1] in [service_pump_receive_v1.go] that matches a packet from
    the relay with a flow of the client: the packet checks of [IpPacket] composed
    with the flow table. [return_traffic_matched] says which answers belong to
    which flow. *)

From S2P Require Import Prelude GoBytes IpPacket IpPacketFacts FlowTable FlowFacts FlowSpec.
From Stdlib Require Import ZArith Lia Strings.Byte.
From stdpp Require Import base list strings.
Local Open Scope Z_scope.

Inductive admission_error := AdmPacket (e : packet_error) | AdmFlow (e : flow_error) | ServiceNotAdmittedV1.

Record productionPacketAdmissionV1 := mkAdmission {
  ad_generation : Z;
  ad_raw : bool;
  ad_active : bool;
  ad_closed : bool;
  ad_now : Z;
  ad_flow : option productionFlowTableV1;
  ad_mtu : Z;
  ad_client4 : bytes;
  ad_dns4 : bytes;
  ad_client6 : bytes;
  ad_dns6 : bytes;
  ad_protocols : list string;
}.

Definition setFlow (a : productionPacketAdmissionV1) (f : productionFlowTableV1) : productionPacketAdmissionV1 :=
  mkAdmission (ad_generation a) (ad_raw a) (ad_active a) (ad_closed a) (ad_now a) (Some f) (ad_mtu a) (ad_client4 a) (ad_dns4 a)
    (ad_client6 a) (ad_dns6 a) (ad_protocols a).

Definition admissionInfo (a : productionPacketAdmissionV1) (packet : bytes) (clientOrigin : bool) : result packet_error IPPacketInfoV1 :=
  effectivePacketInfoV1 packet clientOrigin (ad_mtu a) (ad_client4 a) (ad_dns4 a) (ad_client6 a) (ad_dns6 a) (ad_protocols a).

Definition reservePacketV1 (a : productionPacketAdmissionV1) (packet : bytes)
    : productionPacketAdmissionV1 * result admission_error productionFlowRefV1 :=
  if ad_closed a || negb (ad_active a) || (ad_generation a =? 0) then (a, Err (AdmFlow ServiceInvalidRequestV1))
  else if negb (ad_raw a) then (a, Err ServiceNotAdmittedV1)
  else
    match admissionInfo a packet true with
    | Err e => (a, Err (AdmPacket e))
    | Ok info =>
        match productionFlowTupleV1 packet info false with
        | Err e => (a, Err (AdmPacket e))
        | Ok None => (a, Ok noRef)
        | Ok (Some key) =>
            match ad_flow a with
            | None => (a, Err (AdmFlow ServiceInvalidRequestV1))
            | Some f =>
                let '(f, r) := reserveV1 f key (ad_now a) in
                (setFlow a f, match r with Ok r => Ok r | Err e => Err (AdmFlow e) end)
            end
        end
    end.

Definition releasePacketV1 (a : productionPacketAdmissionV1) (r : productionFlowRefV1) : productionPacketAdmissionV1 :=
  match ad_flow a with
  | Some f => if negb (ref_index r =? 0) then setFlow a (releaseV1 f r) else a
  | None => a
  end.

(** The flow of a packet from the relay whose headers have been checked. *)
Definition matchReturn (a : productionPacketAdmissionV1) (raw : bytes) (info : IPPacketInfoV1)
    : productionPacketAdmissionV1 * result admission_error productionFlowRefV1 :=
  if ad_closed a || negb (ad_raw a) then (a, Err ServiceNotAdmittedV1)
  else
    match productionFlowTupleV1 raw info true with
    | Err e => (a, Err (AdmPacket e))
    | Ok (Some key) =>
        match ad_flow a with
        | Some f => let '(f, r) := lookupV1 f key (ad_now a) in (setFlow a f, Ok r)
        | None => (a, Ok noRef)
        end
    | Ok None => (a, Ok noRef)
    end.

(** ** Mirrored tuples *)

Definition transportOf (packet : bytes) (info : IPPacketInfoV1) : bytes := zdrop (pi_transportOffset info) packet.

(** [back] answers [out]: same family and protocol, with addresses and ports swapped. *)
Definition answers (out : bytes) (io : IPPacketInfoV1) (back : bytes) (ib : IPPacketInfoV1) : Prop :=
  pi_Version io = pi_Version ib /\ pi_Protocol io = pi_Protocol ib /\
  pi_source io = pi_dest ib /\ pi_dest io = pi_source ib /\
  u16At (transportOf out io) 0 = u16At (transportOf back ib) 2 /\ u16At (transportOf out io) 2 = u16At (transportOf back ib) 0.

Definition addrBytes (a : Addr) : bytes := match a with AddrZero => zeros 16 | Addr4 b => keyBytes b | Addr6 b => b end.

(** The family of an admitted packet is that of its addresses. *)
Definition familyOk (info : IPPacketInfoV1) : Prop :=
  (exists s d, pi_Version info = 4 /\ pi_source info = Addr4 s /\ pi_dest info = Addr4 d /\ length s = 4%nat /\ length d = 4%nat) \/
  (exists s d, pi_Version info = 6 /\ pi_source info = Addr6 s /\ pi_dest info = Addr6 d).

Lemma admitted_family packet origin mtu c4 d4 c6 d6 protocols info :
  effectivePacketInfoV1 packet origin mtu c4 d4 c6 d6 protocols = Ok info -> familyOk info.
Proof.
  unfold effectivePacketInfoV1. rewrite reject_bind_ok, rbind_ok. intros (_ & i & HA%origin_admitted & HP).
  apply rbind_ok in HP as (name & _ & HP). destruct (mem name protocols); [|done]. apply Ok_inj in HP as ->. destruct HA as [h HS _ _|]; [left|right]; eexists _, _; repeat split; try reflexivity;
    destruct HS as [[[? _] ?] _ _ _ _]; apply Nat2Z.inj; change (Z.of_nat (length ?x)) with (zlen x); rewrite zlen_slice; lia.
Qed.

Lemma tuple_spec packet info reverse k : familyOk info -> productionFlowTupleV1 packet info reverse = Ok (Some k) ->
  k = (let s := addrBytes (pi_source info) in let d := addrBytes (pi_dest info) in
       let sp := u16At (transportOf packet info) 0 in let dp := u16At (transportOf packet info) 2 in
       if reverse then mkFlowKey d s dp sp (pi_Version info) (pi_Protocol info)
       else mkFlowKey s d sp dp (pi_Version info) (pi_Protocol info)).
Proof.
  intros HF. unfold productionFlowTupleV1. destruct (_ || _); [done|]. cbn [rbind]. destruct (_ || _); [done|].
  destruct (transportShape _ _); [|done]. cbn [rbind].
  destruct HF as [(s & d & Ev & Es & Ed & _)|(s & d & Ev & Es & Ed)]; rewrite Ev, Es, Ed; cbn; intros HK;
    apply Ok_inj, (inj Some) in HK as <-; by destruct reverse.
Qed.

Lemma keyBytes_inj a b : length a = 4%nat -> length b = 4%nat -> keyBytes a = keyBytes b -> a = b.
Proof. intros Ha Hb E. unfold keyBytes in E. rewrite Ha, Hb in E. by apply app_inj_1 in E as [? _]; [|congruence]. Qed.

(** An answer has the tuple of its flow, and nothing else has. *)
Lemma tuple_mirror out io back ib k k' : familyOk io -> familyOk ib ->
  productionFlowTupleV1 out io false = Ok (Some k) -> productionFlowTupleV1 back ib true = Ok (Some k') ->
  k = k' <-> answers out io back ib.
Proof.
  intros HFo HFb Ho%tuple_spec Hb%tuple_spec; [|done..]. subst k k'. cbv zeta. unfold answers. split.
  - intros E. injection E as E1 E2 E3 E4 E5 E6. repeat (split; [done|]).
    destruct HFo as [(s & d & Ev & Es & Ed & Hs & Hd)|(s & d & Ev & Es & Ed)],
      HFb as [(s' & d' & Ev' & Es' & Ed' & Hs' & Hd')|(s' & d' & Ev' & Es' & Ed')]; try congruence;
      rewrite Es, Ed, Es', Ed' in *; cbn [addrBytes] in *.
    + by rewrite (keyBytes_inj _ _ Hs Hd' E1), (keyBytes_inj _ _ Hd Hs' E2).
    + by subst.
  - intros (-> & -> & -> & -> & -> & ->). done.
Qed.

(** ** Answers and their flows *)

(** The admission at a later time, after more calls on its flow table. *)
Definition later (a : productionPacketAdmissionV1) (ops : list flow_op) (now : Z) : productionPacketAdmissionV1 :=
  mkAdmission (ad_generation a) (ad_raw a) (ad_active a) (ad_closed a) now ((fun f => fst (calls f ops)) <$> ad_flow a) (ad_mtu a)
    (ad_client4 a) (ad_dns4 a) (ad_client6 a) (ad_dns6 a) (ad_protocols a).

(** A granted lease comes from the reservation of the packet's tuple. *)
Lemma reservePacket_granted a packet a' r : reservePacketV1 a packet = (a', Ok r) -> r <> noRef ->
  ad_closed a' = false /\ ad_raw a' = true /\ exists info k f f', admissionInfo a packet true = Ok info /\
    productionFlowTupleV1 packet info false = Ok (Some k) /\ ad_flow a = Some f /\ ad_flow a' = Some f' /\
    call f (OpReserve k (ad_now a)) = (f', Leased (Ok r)).
Proof.
  intros HR Hr. unfold reservePacketV1 in HR. destruct (ad_closed a) eqn:Ec; [done|]. cbn [orb] in HR. destruct (_ || _); [done|].
  destruct (ad_raw a) eqn:Er; [|done]. cbn [negb] in HR. destruct (admissionInfo a packet true) as [info|]; [|done].
  destruct (productionFlowTupleV1 packet info false) as [[k|]|] eqn:Et; [|by injection HR as _ <-|done].
  destruct (ad_flow a) as [f|]; [|done]. destruct (reserveV1 f k (ad_now a)) as [f' [r'|e]] eqn:EF; [|done]. injection HR as <- ->.
  split; [done|]. split; [done|]. exists info, k, f, f'. repeat split; try done. cbn [call]. by rewrite EF.
Qed.

Lemma lookup_live f k now i e : wf f -> ft_destroyed f = false -> liveAt f i e -> fe_key e = k -> fe_accepted e = true ->
  0 < fe_references e -> snd (lookupV1 f k now) = flowRef i e.
Proof.
  intros HW HD Hl Hk Ha Hr. unfold lookupV1. rewrite HD. cbv zeta. destruct (expire_spec f now HW) as (Hg & _ & _ & HL).
  assert (He : liveAt (expireLockedV1 f now) i e).
  { apply HL. split; [done|]. unfold expired. destruct (Z.eqb_spec (fe_references e) 0); [lia|]. by rewrite andb_false_r. }
  revert He Hg. generalize (expireLockedV1 f now) as g. intros g He Hg. destruct (find_live g Hg i e He) as (c & HF & _).
  rewrite Hk in HF. rewrite HF. cbn [snd]. rewrite (entryAt_live g i e) by apply He. rewrite Ha. unfold flowRef. f_equal.
  by apply (ref_index_small g i e).
Qed.

Lemma lookup_found f k now i e : wf f -> ft_destroyed f = false -> snd (lookupV1 f k now) = flowRef i e ->
  exists x, liveAt f i x /\ fe_key x = k /\ flowRef i x = flowRef i e.
Proof.
  intros HW HD. unfold lookupV1. rewrite HD. cbv zeta. destruct (expire_spec f now HW) as (Hg & _ & _ & HL).
  revert Hg HL. generalize (expireLockedV1 f now) as g. intros g Hg HL. pose proof (find_exact g Hg k) as HF.
  assert (noRef <> flowRef i e) as Hno by (unfold noRef, flowRef; intros [= _ E]; lia).
  destruct (findLockedV1 g k) as [[j|] c]; [|done]. destruct (proj1 (HF j) eq_refl) as (x & Hx & Hk). cbn [snd].
  rewrite (entryAt_live g j x) by apply Hx. rewrite (ref_index_small g j x Hg Hx). destruct (fe_accepted x); [|done].
  intros E. assert (j = i) as -> by (injection E as _ E; lia). exists x. split; [by apply HL|]. done.
Qed.

(** The flow of a lease while it is held. *)
Lemma lease_held g r now after i e : wf g -> ft_destroyed g = false -> liveAt g i e -> 0 < fe_references e -> r = flowRef i e ->
  now <> 0 -> Forall opOk after -> Forall (keeps r) after ->
  let h := fst (calls g (OpAccept r now :: after)) in
  wf h /\ ft_destroyed h = false /\ (exists x, liveAt h i x /\ sameFlow e x /\ fe_accepted x = true /\ 0 < fe_references x).
Proof.
  intros HW HD Hl Hpos -> Hnow HO HK. cbn [calls call]. set (t := touch e now).
  assert (acceptV1 g (flowRef i e) now = setEntry g i t) as ->.
  { unfold acceptV1. rewrite (proj2 (entry_exact g (flowRef i e) i e HD ltac:(cbn; lia)) (conj Hl eq_refl)).
    destruct (Z.ltb_spec 0 (fe_references e)); [|lia]. destruct (Z.eqb_spec now 0); [done|]. cbn [andb negb]. f_equal. unfold t, touch. f_equal.
    destruct (Z.ltb_spec (fe_activity e) now); lia. }
  assert (HWt : wf (setEntry g i t)). { eapply setEntry_wf; try done. apply (wf_references g HW i e Hl). }
  assert (Hlt : liveAt (setEntry g i t) i t). { apply (setEntry_live g i e t); auto. }
  destruct (later_held (setEntry g i t) HWt HD after HO i t Hlt Hpos HK) as (HDh & HWh & x & Hx & HS & Hrx & Ha).
  destruct (calls (setEntry g i t) after) as [h outs]. cbn [fst] in *. split; [done|]. split; [done|]. exists x. auto.
Qed.

(** C22: a packet from the relay is credited to a flow exactly when it answers it.
    A client packet takes a lease on its flow; the flow is accepted; however many
    reservations, lookups, refreshes and other releases follow, and however long
    they take, a checked packet from the relay yields that same reference if and
    only if it has the same family and protocol and the addresses and ports of the
    client packet swapped. *)
Theorem return_traffic_matched st se tcp udp idle f before a out r a1 accepted after now back mtu protocols ib kb :
  newProductionFlowTableV1 st se tcp udp idle = Ok f -> 0 <= tcp -> 0 <= udp -> Forall opOk before ->
  ad_flow a = Some (fst (calls f before)) -> reservePacketV1 a out = (a1, Ok r) -> r <> noRef ->
  accepted <> 0 -> Forall opOk after -> Forall (keeps r) after ->
  effectivePacketInfoV1 back false mtu (ad_client4 a) (ad_dns4 a) (ad_client6 a) (ad_dns6 a) protocols = Ok ib ->
  productionFlowTupleV1 back ib true = Ok (Some kb) ->
  exists io, admissionInfo a out true = Ok io /\
    (snd (matchReturn (later a1 (OpAccept r accepted :: after) now) back ib) = Ok r <-> answers out io back ib).
Proof.
  intros HN Ht Hu HB Hfl HR Hr Hacc HO HK Hib Hkb. destruct (new_wf _ _ _ _ _ _ HN Ht Hu) as [HW _].
  destruct (reservePacket_granted a out a1 r HR Hr) as (Hc & Hraw & io & k & f0 & g & Hio & Hk & Ef & Eg & HC).
  exists io. split; [done|]. rewrite Hfl in Ef. injection Ef as <-.
  destruct (granted_live f before k _ r g HW HB HC) as (HWg & HDg & i & e & Hl & Hek & Hpos & Er).
  pose proof (lease_held g r accepted after i e HWg HDg Hl Hpos Er Hacc HO HK) as HH. cbv zeta in HH.
  unfold matchReturn, later. cbn [ad_closed ad_raw ad_flow ad_now]. rewrite Hc, Hraw, Hkb, Eg. cbn [orb negb fmap option_fmap option_map].
  destruct HH as (HWh & HDh & x & Hx & [HSk HSg] & Hax & Hpx). revert HWh HDh Hx.
  generalize (fst (calls g (OpAccept r accepted :: after))) as h. intros h HWh HDh Hx.
  rewrite <- (tuple_mirror out io back ib k kb) by (try done; by eapply admitted_family).
  pose proof (lookup_found h kb now i e HWh HDh) as HF. pose proof (lookup_live h k now i x HWh HDh Hx) as HLk.
  assert (flowRef i x = r) as Erx by (rewrite Er; unfold flowRef; by rewrite HSg). rewrite Erx in HLk. rewrite <- Er in HF.
  destruct (lookupV1 h kb now) as [h' r'] eqn:EL. cbn [snd] in *. split.
  - intros E. apply Ok_inj in E. destruct (HF E) as (y & Hy & Hky & _). destruct Hx as [Hx _], Hy as [Hy _]. congruence.
  - intros <-. rewrite EL in HLk. cbn [snd] in HLk. rewrite HLk; try done. congruence.
Qed.

(** ** A query and its answer *)

Definition sampleAdmission (f : productionFlowTableV1) : productionPacketAdmissionV1 :=
  mkAdmission 1 true true false 5 (Some f) 1280 (zb <$> [10; 8; 0; 2]) (zb <$> [10; 8; 0; 1]) (zeros 16) (zeros 16) ["udp"].

Definition sampleFlowTable : productionFlowTableV1 := mkFlowTable (replicate 2 zeroEntry) (replicate 4 0) [0; 1] 10 0 1 1 1 false.

(** From port 53 of 8.8.8.8 to 10.8.0.2. *)
Definition sampleAnswer : bytes :=
  zb <$> [69; 0; 0; 28; 0; 1; 64; 0; 64; 17; 32; 183; 8; 8; 8; 8; 10; 8; 0; 2; 0; 53; 48; 57; 0; 8; 0; 0].

Definition sampleAnswerInfo : IPPacketInfoV1 := mkPacketInfo 4 17 28 20 (Addr4 (zb <$> [8; 8; 8; 8])) (Addr4 (zb <$> [10; 8; 0; 2])).

Lemma return_traffic_matched_witness :
  snd (matchReturn (later (fst (reservePacketV1 (sampleAdmission sampleFlowTable) sampleDatagram))
    [OpAccept (mkFlowRef 1 2) 6; OpLookup (mkFlowKey (zeros 16) (zeros 16) 0 0 4 17) 900] 1000) sampleAnswer sampleAnswerInfo)
  = Ok (mkFlowRef 1 2).
Proof.
  edestruct (return_traffic_matched 120 88 1 1 10 sampleFlowTable [] (sampleAdmission sampleFlowTable) sampleDatagram (mkFlowRef 1 2)
    (fst (reservePacketV1 (sampleAdmission sampleFlowTable) sampleDatagram)) 6
    [OpLookup (mkFlowKey (zeros 16) (zeros 16) 0 0 4 17) 900] 1000 sampleAnswer 1280 ["udp"] sampleAnswerInfo) as (io & Hio & HM).
  - reflexivity.
  - lia.
  - lia.
  - constructor.
  - reflexivity.
  - vm_compute. reflexivity.
  - discriminate.
  - lia.
  - repeat constructor.
  - repeat constructor; discriminate.
  - vm_compute. reflexivity.
  - vm_compute. reflexivity.
  - apply HM. vm_compute in Hio. injection Hio as <-. vm_compute. repeat split.
Defined.
