(* ===== verification/Records.v ===== *)
(** * Protected records

    [src/internal/runtime/application_record_v1.go] and
    [control_record_v1.go]: the clear header, the encrypted body and the checks
    around the sealing and opening callbacks. A callback may change its owner's
    state: it takes the state and returns the new one. Clearing buffers has no
    counterpart; a callback is never nil. *)

From S2P Require Import Prelude GoBytes SecurityErrors Ir Envelope.
From Stdlib Require Import ZArith Lia Strings.Byte.
From stdpp Require Import base list strings.
Local Open Scope Z_scope.

Inductive record_error := ErrRecordInvalid | ErrOperationAckInvalid | RecordSecurity (e : error) | RecordPanic.

(** [binary.BigEndian.UintN(l[a:b])]. *)
Definition beAt (a b : Z) (l : bytes) : Z := get_be (slice a b l).

(** ** Application records *)

Definition ApplicationRecordVersionV1 : Z := 1.
Definition RecordTypeApplicationFragmentV1 : Z := 1.
Definition applicationDirectionClientV1 : Z := 1.
Definition applicationDirectionRelayV1 : Z := 2.
Definition applicationHeaderBytesV1 : Z := 28.
Definition applicationBodyFixedBytesV1 : Z := 54.
Definition applicationAEADOverheadV1 : Z := 16.
Definition applicationMinimumSealedBytesV1 : Z := 70.

Record ApplicationHeaderV1 := mkAppHeader {
  ah_Version : Z;
  ah_Type : Z;
  ah_Epoch : Z;
  ah_Direction : Z;
  ah_StreamSlot : Z;
  ah_Sequence : Z;
  ah_SealedLength : Z;
}.

Record ApplicationFragmentV1 := mkFragment {
  fr_OperationID : bytes;
  fr_FragmentIndex : Z;
  fr_FragmentCount : Z;
  fr_OperationLength : Z;
  fr_FragmentOffset : Z;
  fr_Fragment : bytes;
}.

Definition applicationExpectedClassV1 (context : EnvelopeContextV1) : result record_error Z :=
  fail? (cx_MaxEnvelopeBytes context <? applicationMinimumSealedBytesV1) || zeroHashV1 (cx_EffectivePolicyHash context)
      || zeroHashV1 (cx_TranscriptHash context) with RecordSecurity ErrEnvelopeContextInvalid in
  let m := eff_SecureEnvelopeMode (cx_EffectivePolicy context) in
  if bool_decide (m = "metadata_authenticated") then Ok RecordClassApplicationV1
  else if bool_decide (m = "synthetic_aead_test") then Ok RecordClassSyntheticV1
  else if bool_decide (m = "full_context_bound_envelope") then
    fail? zeroHashV1 (cx_CapabilityHash context) || zeroHashV1 (cx_ProfileHash context) || zeroHashV1 (cx_FramingHash context)
        || zeroHashV1 (cx_CarrierContextHash context) with RecordSecurity ErrEnvelopeContextInvalid in
    Ok RecordClassApplicationV1
  else Err (RecordSecurity ErrPolicyInvalid).

Definition encodeApplicationHeaderV1 (header : ApplicationHeaderV1) : bytes :=
  PutUint16 (ah_Version header) ++ PutUint16 (ah_Type header) ++ PutUint64 (ah_Epoch header) ++ PutUint16 (ah_Direction header)
  ++ PutUint16 (ah_StreamSlot header) ++ PutUint64 (ah_Sequence header) ++ PutUint32 (ah_SealedLength header).

Definition parseApplicationHeaderV1 (encoded : bytes) : result record_error ApplicationHeaderV1 :=
  fail? negb (zlen encoded =? applicationHeaderBytesV1) with ErrRecordInvalid in
  Ok (mkAppHeader (beAt 0 2 encoded) (beAt 2 4 encoded) (beAt 4 12 encoded) (beAt 12 14 encoded) (beAt 14 16 encoded)
        (beAt 16 24 encoded) (beAt 24 28 encoded)).

Definition parseApplicationRecordV1 (record : bytes) (expectedDirection maxEnvelopeBytes : Z)
    : result record_error (ApplicationHeaderV1 * bytes) :=
  fail? zlen record <? applicationHeaderBytesV1 with ErrRecordInvalid in
  let? header := parseApplicationHeaderV1 (ztake applicationHeaderBytesV1 record) in
  fail? negb (ah_Version header =? ApplicationRecordVersionV1) || negb (ah_Type header =? RecordTypeApplicationFragmentV1)
      || negb (ah_Direction header =? expectedDirection)
      || (negb (ah_Direction header =? applicationDirectionClientV1) && negb (ah_Direction header =? applicationDirectionRelayV1))
      || (ah_StreamSlot header =? 0) || (ah_SealedLength header <? applicationMinimumSealedBytesV1) with ErrRecordInvalid in
  fail? negb (maxEnvelopeBytes =? 0) && (maxEnvelopeBytes <? ah_SealedLength header) with ErrRecordInvalid in
  let total := applicationHeaderBytesV1 + ah_SealedLength header in
  fail? (MaxInt64 <? total) || negb (total =? zlen record) with ErrRecordInvalid in
  Ok (header, zdrop applicationHeaderBytesV1 record).

Definition validApplicationFragmentV1 (fragment : ApplicationFragmentV1) : bool :=
  if zeroHashV1 (fr_OperationID fragment) || (fr_FragmentCount fragment =? 0) || (fr_OperationLength fragment =? 0)
     || (zlen (fr_Fragment fragment) =? 0) || (4294967295 <? zlen (fr_Fragment fragment))
     || (fr_FragmentCount fragment <=? fr_FragmentIndex fragment) then false
  else
    let fragmentLength := wrap32 (zlen (fr_Fragment fragment)) in
    let end_ := wrap64 (fr_FragmentOffset fragment + fragmentLength) in
    if fr_OperationLength fragment <? end_ then false
    else if (fr_FragmentCount fragment =? 1)
            && (negb (fr_FragmentIndex fragment =? 0) || negb (fr_FragmentOffset fragment =? 0)
                || negb (fragmentLength =? fr_OperationLength fragment)) then false
    else true.

Definition encodeApplicationBodyV1 (class : Z) (fragment : ApplicationFragmentV1) : bytes :=
  PutUint16 ApplicationRecordVersionV1 ++ PutUint16 RecordTypeApplicationFragmentV1 ++ PutUint16 class
  ++ fr_OperationID fragment ++ PutUint16 (fr_FragmentIndex fragment) ++ PutUint16 (fr_FragmentCount fragment)
  ++ PutUint32 (fr_OperationLength fragment) ++ PutUint32 (fr_FragmentOffset fragment)
  ++ PutUint32 (zlen (fr_Fragment fragment)) ++ fr_Fragment fragment.

Definition parseApplicationBodyV1 (encoded : bytes) : result record_error (ApplicationFragmentV1 * Z) :=
  fail? (zlen encoded <? applicationBodyFixedBytesV1) || negb (beAt 0 2 encoded =? ApplicationRecordVersionV1)
      || negb (beAt 2 4 encoded =? RecordTypeApplicationFragmentV1) with ErrRecordInvalid in
  let class := beAt 4 6 encoded in
  let fragmentLength := beAt 50 54 encoded in
  fail? negb (applicationBodyFixedBytesV1 + fragmentLength =? zlen encoded) with ErrRecordInvalid in
  let fragment := mkFragment (slice 6 38 encoded) (beAt 38 40 encoded) (beAt 40 42 encoded) (beAt 42 46 encoded)
                    (beAt 46 50 encoded) (zdrop applicationBodyFixedBytesV1 encoded) in
  fail? negb (wrap32 (zlen (fr_Fragment fragment)) =? fragmentLength) || negb (validApplicationFragmentV1 fragment)
    with ErrRecordInvalid in
  Ok (fragment, class).

(** [errors.Is] on a strict sentinel is equality. *)
Definition normalizeApplicationSealErrorV1 (err : error) : error :=
  if mem err [ErrNonceExhausted; ErrNonceMismatch; ErrAEADInvalid; ErrPolicyInvalid; ErrEnvelopeContextInvalid] then err
  else ErrAEADInvalid.

Definition normalizeApplicationOpenErrorV1 (err : error) : error :=
  if mem err [ErrNonceExhausted; ErrNonceMismatch; ErrAEADInvalid; ErrAuthenticationFailed; ErrPolicyInvalid; ErrEnvelopeContextInvalid]
  then err else ErrAuthenticationFailed.

Definition callbackError (normalize : error -> error) (e : env_error) : record_error :=
  match e with Sentinel e => RecordSecurity (normalize e) | Panic => RecordPanic end.

Section callbacks.
Context {S : Type}.

Definition ApplicationSealV1 : Type := S -> Z -> bytes -> S * result env_error EnvelopeRecordV1.
Definition ApplicationOpenV1 : Type := S -> EnvelopeRecordV1 -> S * result env_error bytes.

Definition sealApplicationFragmentV1 (direction : Z) (context : EnvelopeContextV1) (slot : Z) (fragment : ApplicationFragmentV1)
    (seal : ApplicationSealV1) (s : S) : S * result record_error bytes :=
  match applicationExpectedClassV1 context with
  | Err e => (s, Err e)
  | Ok expectedClass =>
      if (slot =? 0) || negb (validApplicationFragmentV1 fragment) then (s, Err ErrRecordInvalid)
      else
        let bodyLength := applicationBodyFixedBytesV1 + zlen (fr_Fragment fragment) in
        let sealedLength := bodyLength + applicationAEADOverheadV1 in
        if (MaxInt64 <? bodyLength) || (cx_MaxEnvelopeBytes context <? sealedLength) || (4294967295 <? sealedLength)
           || (MaxInt64 <? applicationHeaderBytesV1 + sealedLength) then (s, Err ErrRecordInvalid)
        else
          let '(s, r) := seal s slot (encodeApplicationBodyV1 expectedClass fragment) in
          match r with
          | Err e => (s, Err (callbackError normalizeApplicationSealErrorV1 e))
          | Ok envelope =>
              if negb (er_RecordType envelope =? RecordTypeApplicationFragmentV1) || negb (er_Direction envelope =? direction)
                 || negb (er_Slot envelope =? slot) || negb (er_SealedLength envelope =? wrap32 sealedLength)
                 || negb (zlen (er_Ciphertext envelope) =? er_SealedLength envelope)
                 || (cx_MaxEnvelopeBytes context <? er_SealedLength envelope) then (s, Err ErrRecordInvalid)
              else
                let header := mkAppHeader ApplicationRecordVersionV1 RecordTypeApplicationFragmentV1 (er_Epoch envelope)
                                (er_Direction envelope) (er_Slot envelope) (er_Sequence envelope) (er_SealedLength envelope) in
                (s, Ok (encodeApplicationHeaderV1 header ++ er_Ciphertext envelope))
          end
  end.

Definition openApplicationFragmentV1 (expectedDirection : Z) (context : EnvelopeContextV1) (record : bytes)
    (open : ApplicationOpenV1) (s : S) : S * result record_error ApplicationFragmentV1 :=
  match parseApplicationRecordV1 record expectedDirection (cx_MaxEnvelopeBytes context) with
  | Err _ => (s, Err ErrRecordInvalid)
  | Ok (header, sealed) =>
      match applicationExpectedClassV1 context with
      | Err e => (s, Err e)
      | Ok expectedClass =>
          let '(s, r) := open s (mkRecord (ah_Type header) (ah_Epoch header) (ah_Direction header) (ah_StreamSlot header)
                                   (ah_Sequence header) (ah_SealedLength header) sealed) in
          match r with
          | Err e => (s, Err (callbackError normalizeApplicationOpenErrorV1 e))
          | Ok body =>
              if negb (ah_SealedLength header =? zlen body + applicationAEADOverheadV1) then (s, Err ErrRecordInvalid)
              else
                match parseApplicationBodyV1 body with
                | Err _ => (s, Err ErrRecordInvalid)
                | Ok (fragment, class) =>
                    (s, if class =? expectedClass then Ok fragment else Err (RecordSecurity ErrEnvelopeModeRejected))
                end
          end
      end
  end.

(** The role codecs: each seals in its own direction and opens the other's. *)
Definition ClientSealApplicationFragmentV1 := sealApplicationFragmentV1 applicationDirectionClientV1.
Definition ClientOpenApplicationFragmentV1 := openApplicationFragmentV1 applicationDirectionRelayV1.
Definition RelaySealApplicationFragmentV1 := sealApplicationFragmentV1 applicationDirectionRelayV1.
Definition RelayOpenApplicationFragmentV1 := openApplicationFragmentV1 applicationDirectionClientV1.

End callbacks.

(** ** Control records *)

Definition ControlRecordVersionV1 : Z := 1.
Definition RecordTypeOperationAckV1 : Z := 2.
Definition RecordTypeCloseV1 : Z := 3.
Definition CloseCodeTerminalV1 : Z := 1.
Definition controlDirectionClientV1 : Z := 1.
Definition controlDirectionRelayV1 : Z := 2.
Definition controlHeaderBytesV1 : Z := 26.
Definition operationAckBodyBytesV1 : Z := 44.
Definition operationAckSealedBytesV1 : Z := 60.
Definition closeBodyBytesV1 : Z := 6.
Definition closeSealedBytesV1 : Z := 22.

Record ControlHeaderV1 := mkControlHeader {
  ch_Version : Z;
  ch_Type : Z;
  ch_Epoch : Z;
  ch_Direction : Z;
  ch_Sequence : Z;
  ch_SealedLength : Z;
}.

Record ControlContextV1 := mkControlContext { cc_EffectivePolicyHash : bytes; cc_TH4 : bytes }.
Record OperationAckV1 := mkAck { ack_OperationID : bytes; ack_CompletedCount : Z }.
Record CloseV1 := mkClose { cl_Code : Z }.

Definition controlSealedLengthV1 (recordType : Z) : option Z :=
  if recordType =? RecordTypeOperationAckV1 then Some operationAckSealedBytesV1
  else if recordType =? RecordTypeCloseV1 then Some closeSealedBytesV1
  else None.

Definition encodeControlHeaderV1 (header : ControlHeaderV1) : bytes :=
  PutUint16 (ch_Version header) ++ PutUint16 (ch_Type header) ++ PutUint64 (ch_Epoch header) ++ PutUint16 (ch_Direction header)
  ++ PutUint64 (ch_Sequence header) ++ PutUint32 (ch_SealedLength header).

Definition parseControlHeaderV1 (encoded : bytes) : result record_error ControlHeaderV1 :=
  fail? negb (zlen encoded =? controlHeaderBytesV1) with ErrRecordInvalid in
  Ok (mkControlHeader (beAt 0 2 encoded) (beAt 2 4 encoded) (beAt 4 12 encoded) (beAt 12 14 encoded) (beAt 14 22 encoded)
        (beAt 22 26 encoded)).

Definition encodeControlAADV1 (header : ControlHeaderV1) (context : ControlContextV1) : bytes :=
  PutUint16 (ch_Version header) ++ PutUint16 (ch_Type header) ++ cc_EffectivePolicyHash context ++ cc_TH4 context
  ++ PutUint64 (ch_Epoch header) ++ PutUint16 (ch_Direction header) ++ PutUint64 (ch_Sequence header)
  ++ PutUint32 (ch_SealedLength header).

Definition parseControlRecordV1 (record : bytes) (expectedDirection expectedType : Z)
    : result record_error (ControlHeaderV1 * bytes) :=
  fail? zlen record <? controlHeaderBytesV1 with ErrRecordInvalid in
  let? header := parseControlHeaderV1 (ztake controlHeaderBytesV1 record) in
  fail? negb (ch_Version header =? ControlRecordVersionV1) with ErrRecordInvalid in
  fail? negb (ch_Type header =? RecordTypeOperationAckV1) && negb (ch_Type header =? RecordTypeCloseV1) with ErrRecordInvalid in
  fail? negb (ch_Type header =? expectedType) || negb (ch_Direction header =? expectedDirection) with ErrRecordInvalid in
  match controlSealedLengthV1 (ch_Type header) with
  | None => Err ErrRecordInvalid
  | Some expectedSealedLength =>
      fail? negb (ch_SealedLength header =? expectedSealedLength) with ErrRecordInvalid in
      let total := controlHeaderBytesV1 + ch_SealedLength header in
      fail? (MaxInt64 <? total) || negb (total =? zlen record) with ErrRecordInvalid in
      Ok (header, zdrop controlHeaderBytesV1 record)
  end.

Definition validOperationAckV1 (ack : OperationAckV1) : bool :=
  negb (zeroHashV1 (ack_OperationID ack)) && negb (ack_CompletedCount ack =? 0).

Definition encodeOperationAckBodyV1 (ack : OperationAckV1) : result record_error bytes :=
  fail? negb (validOperationAckV1 ack) with ErrOperationAckInvalid in
  Ok (PutUint16 ControlRecordVersionV1 ++ PutUint16 RecordTypeOperationAckV1 ++ ack_OperationID ack
      ++ PutUint64 (ack_CompletedCount ack)).

Definition parseOperationAckBodyV1 (encoded : bytes) : result record_error OperationAckV1 :=
  fail? negb (zlen encoded =? operationAckBodyBytesV1) || negb (beAt 0 2 encoded =? ControlRecordVersionV1)
      || negb (beAt 2 4 encoded =? RecordTypeOperationAckV1) with ErrOperationAckInvalid in
  let ack := mkAck (slice 4 36 encoded) (beAt 36 44 encoded) in
  fail? negb (validOperationAckV1 ack) with ErrOperationAckInvalid in
  Ok ack.

Definition encodeCloseBodyV1 (close : CloseV1) : result record_error bytes :=
  fail? negb (cl_Code close =? CloseCodeTerminalV1) with ErrRecordInvalid in
  Ok (PutUint16 ControlRecordVersionV1 ++ PutUint16 RecordTypeCloseV1 ++ PutUint16 (cl_Code close)).

Definition parseCloseBodyV1 (encoded : bytes) : result record_error CloseV1 :=
  fail? negb (zlen encoded =? closeBodyBytesV1) || negb (beAt 0 2 encoded =? ControlRecordVersionV1)
      || negb (beAt 2 4 encoded =? RecordTypeCloseV1) || negb (beAt 4 6 encoded =? CloseCodeTerminalV1) with ErrRecordInvalid in
  Ok (mkClose CloseCodeTerminalV1).

Section control.
Context {S : Type}.

(** Epoch, sequence, input and associated data. *)
Definition ControlSealV1 : Type := S -> Z -> Z -> bytes -> bytes -> S * result env_error bytes.
Definition ControlOpenV1 : Type := S -> Z -> Z -> bytes -> bytes -> S * result env_error bytes.

(** A panicking callback is not turned into a refusal. *)
Definition controlRefused (e : env_error) : record_error := match e with Sentinel _ => ErrRecordInvalid | Panic => RecordPanic end.

Definition sealControlRecordV1 (context : ControlContextV1) (epoch direction sequence recordType sealedLength : Z) (body : bytes)
    (seal : ControlSealV1) (s : S) : S * result record_error bytes :=
  let header := mkControlHeader ControlRecordVersionV1 recordType epoch direction sequence sealedLength in
  let '(s, r) := seal s epoch sequence body (encodeControlAADV1 header context) in
  match r with
  | Err e => (s, Err (controlRefused e))
  | Ok sealed =>
      if negb (zlen sealed =? sealedLength) then (s, Err ErrRecordInvalid)
      else (s, Ok (encodeControlHeaderV1 header ++ sealed))
  end.

(** Parse, open, and read the body with [parse]; [refused] is the error of a bad body. *)
Definition openControlRecordV1 {A} (direction recordType : Z) (parse : bytes -> result record_error A) (refused : record_error)
    (context : ControlContextV1) (record : bytes) (open : ControlOpenV1) (s : S) : S * result record_error A :=
  match parseControlRecordV1 record direction recordType with
  | Err _ => (s, Err ErrRecordInvalid)
  | Ok (header, sealed) =>
      let '(s, r) := open s (ch_Epoch header) (ch_Sequence header) sealed (encodeControlAADV1 header context) in
      match r with
      | Err e => (s, Err (controlRefused e))
      | Ok body => (s, match parse body with Ok value => Ok value | Err _ => Err refused end)
      end
  end.

Definition sealOperationAckV1 (direction : Z) (context : ControlContextV1) (epoch sequence : Z) (ack : OperationAckV1)
    (seal : ControlSealV1) (s : S) : S * result record_error bytes :=
  match encodeOperationAckBodyV1 ack with
  | Err e => (s, Err e)
  | Ok body => sealControlRecordV1 context epoch direction sequence RecordTypeOperationAckV1 operationAckSealedBytesV1 body seal s
  end.

Definition openOperationAckV1 (direction : Z) :=
  openControlRecordV1 direction RecordTypeOperationAckV1 parseOperationAckBodyV1 ErrOperationAckInvalid.

Definition sealCloseV1 (direction : Z) (context : ControlContextV1) (epoch sequence : Z) (close : CloseV1)
    (seal : ControlSealV1) (s : S) : S * result record_error bytes :=
  match encodeCloseBodyV1 close with
  | Err e => (s, Err e)
  | Ok body => sealControlRecordV1 context epoch direction sequence RecordTypeCloseV1 closeSealedBytesV1 body seal s
  end.

Definition openCloseV1 (direction : Z) := openControlRecordV1 direction RecordTypeCloseV1 parseCloseBodyV1 ErrRecordInvalid.

End control.
