(* ===== verification/RecordFacts.v ===== *)
(** * Protected records are exact and are delivered

    Headers and bodies have one encoding each: parsing accepts exactly the
    encodings of well-formed values ([appRecord_exact], [appBody_exact],
    [controlRecord_exact], [ackBody_exact], [closeBody_exact]). Composed with the
    envelopes of [Envelope], every fragment, acknowledgement and close of an
    exchange arrives as it was sent ([protected_records_delivered]). *)

From S2P Require Import Prelude GoBytes SecurityErrors Ir KeySchedule Replay Nonce Envelope EnvelopeFacts Records.
From Stdlib Require Import ZArith Lia Strings.Byte.
From stdpp Require Import base list strings.
Local Open Scope Z_scope.

(** ** Fixed layouts *)

Lemma slice_skip {A} n a b (pre post : list A) : zlen pre = n -> n <= a -> slice a b (pre ++ post) = slice (a - n) (b - n) post.
Proof.
  intros <- Ha. unfold slice. replace (b - zlen pre - (a - zlen pre)) with (b - a) by lia. f_equal.
  unfold zlen in *. rewrite drop_app_ge by lia. f_equal. lia.
Qed.

Lemma slice_head {A} b (pre post : list A) : zlen pre = b -> slice 0 b (pre ++ post) = pre.
Proof. intros <-. unfold slice. rewrite Z.sub_0_r. cbn [drop Z.to_nat]. unfold zlen. rewrite Nat2Z.id. apply take_app_length. Qed.

Lemma slice_all {A} b (l : list A) : zlen l = b -> slice 0 b l = l.
Proof. intros H. rewrite <- (app_nil_r l) at 1. by apply slice_head. Qed.

Lemma slice_at_head {A} a b (pre post : list A) : a = 0 -> zlen pre = b -> slice a b (pre ++ post) = pre.
Proof. intros ->. apply slice_head. Qed.

Lemma slice_at_all {A} a b (l : list A) : a = 0 -> zlen l = b -> slice a b l = l.
Proof. intros ->. apply slice_all. Qed.

Lemma slice_zdrop {A} a (l : list A) : 0 <= a <= zlen l -> slice a (zlen l) l = zdrop a l.
Proof. intros H. unfold slice, zdrop. apply take_ge. rewrite length_drop. unfold zlen in *. lia. Qed.

Lemma slice_ztake {A} n a b (l : list A) : 0 <= a <= b -> b <= n -> slice a b (ztake n l) = slice a b l.
Proof.
  intros Ha Hb. unfold slice, ztake. rewrite !take_drop_commute, take_take. do 2 f_equal. lia.
Qed.

Lemma zdrop_skip {A} n a (pre post : list A) : zlen pre = n -> n <= a -> zdrop a (pre ++ post) = zdrop (a - n) post.
Proof. intros <- Ha. unfold zdrop, zlen in *. rewrite drop_app_ge by lia. f_equal. lia. Qed.

Lemma zdrop_zero {A} a (l : list A) : a = 0 -> zdrop a l = l.
Proof. by intros ->. Qed.

(** A field read back from its bytes. *)
Lemma put_beAt n a b l : 0 <= a -> b = a + Z.of_nat n -> b <= zlen l -> put_be n (beAt a b l) = slice a b l.
Proof.
  intros Ha -> Hb. unfold beAt. rewrite <- (put_get_be (slice a (a + Z.of_nat n) l)) at 2.
  f_equal. pose proof (zlen_slice a (a + Z.of_nat n) l ltac:(lia) Hb) as E. unfold zlen in E. lia.
Qed.

Lemma beAt_range a b l : 0 <= a <= b -> b <= zlen l -> 0 <= beAt a b l < 256 ^ (b - a).
Proof. intros Ha Hb. unfold beAt. rewrite <- (zlen_slice a b l Ha Hb). apply get_be_range. Qed.

Ltac field_len :=
  unfold PutUint16, PutUint32, PutUint64; rewrite ?zlen_put_be; first [reflexivity|eassumption|lia].

(** Reads a field out of a concatenation of fields of known lengths. *)
Ltac read_field :=
  unfold beAt;
  repeat (erewrite slice_skip; [|by field_len|lia]);
  first [erewrite slice_at_head; [|lia|by field_len] | erewrite slice_at_all; [|lia|by field_len]].

#[local] Opaque put_be.

Lemma get_field16 z : u16 z -> get_be (PutUint16 z) = z.
Proof. intros Hz. rewrite get_PutUint16. by apply wrap16_small. Qed.
Lemma get_field32 z : u32 z -> get_be (PutUint32 z) = z.
Proof. intros Hz. rewrite get_PutUint32. by apply wrap32_small. Qed.
Lemma get_field64 z : u64 z -> get_be (PutUint64 z) = z.
Proof. intros Hz. rewrite get_PutUint64. by apply wrap64_small. Qed.

(** ** The application header *)

Record typedAppHeader (h : ApplicationHeaderV1) : Prop := {
  tah_Version : u16 (ah_Version h);
  tah_Type : u16 (ah_Type h);
  tah_Epoch : u64 (ah_Epoch h);
  tah_Direction : u16 (ah_Direction h);
  tah_StreamSlot : u16 (ah_StreamSlot h);
  tah_Sequence : u64 (ah_Sequence h);
  tah_SealedLength : u32 (ah_SealedLength h);
}.

Lemma zlen_appHeader h : zlen (encodeApplicationHeaderV1 h) = 28.
Proof. unfold encodeApplicationHeaderV1, PutUint16, PutUint32, PutUint64. by rewrite !zlen_app, !zlen_put_be. Qed.

Lemma parse_appHeader h : typedAppHeader h -> parseApplicationHeaderV1 (encodeApplicationHeaderV1 h) = Ok h.
Proof.
  intros []. unfold parseApplicationHeaderV1. rewrite zlen_appHeader. cbn [Z.eqb Pos.eqb negb reject rbind applicationHeaderBytesV1].
  destruct h as [v t e d s q l]. unfold encodeApplicationHeaderV1. cbn [ah_Version ah_Type ah_Epoch ah_Direction ah_StreamSlot ah_Sequence ah_SealedLength] in *.
  f_equal; f_equal; read_field; first [by apply get_field16|by apply get_field32|by apply get_field64].
Qed.

Ltac field_range := unfold_widths; match goal with |- context [beAt ?a ?b ?l] => pose proof (beAt_range a b l ltac:(lia) ltac:(lia)) as Hrange; cbn in Hrange; lia end.

(** Writes the fields of [e] back and joins them. *)
Ltac write_fields := unfold PutUint16, PutUint32, PutUint64; rewrite !put_beAt by (cbn; lia); rewrite !slice_cat by lia.

Lemma appHeader_canonical e h : parseApplicationHeaderV1 e = Ok h -> encodeApplicationHeaderV1 h = e /\ typedAppHeader h.
Proof.
  unfold parseApplicationHeaderV1. rewrite reject_bind_ok, negb_false_iff, Z.eqb_eq. unfold applicationHeaderBytesV1.
  intros [Hl Hh]. apply Ok_inj in Hh as <-. split.
  - unfold encodeApplicationHeaderV1. cbn [ah_Version ah_Type ah_Epoch ah_Direction ah_StreamSlot ah_Sequence ah_SealedLength].
    write_fields. by apply slice_all.
  - constructor; cbn [ah_Version ah_Type ah_Epoch ah_Direction ah_StreamSlot ah_Sequence ah_SealedLength]; field_range.
Qed.

(** What a record header must say. *)
Record appHeaderOk (h : ApplicationHeaderV1) (direction max : Z) : Prop := {
  aho_typed : typedAppHeader h;
  aho_kind : ah_Version h = 1 /\ ah_Type h = 1;
  aho_direction : ah_Direction h = direction /\ (direction = 1 \/ direction = 2);
  aho_slot : ah_StreamSlot h <> 0;
  aho_length : 70 <= ah_SealedLength h /\ (max = 0 \/ ah_SealedLength h <= max);
}.

Lemma appRecord_exact record direction max h sealed :
  parseApplicationRecordV1 record direction max = Ok (h, sealed) <->
  record = encodeApplicationHeaderV1 h ++ sealed /\ appHeaderOk h direction max /\ zlen sealed = ah_SealedLength h.
Proof.
  unfold parseApplicationRecordV1, ApplicationRecordVersionV1, RecordTypeApplicationFragmentV1, applicationDirectionClientV1,
    applicationDirectionRelayV1, applicationMinimumSealedBytesV1. rewrite reject_bind_ok, Z.ltb_ge, rbind_ok. unfold applicationHeaderBytesV1. split.
  - intros (Hl & h' & Hh & H). rewrite !reject_bind_ok, !orb_false_iff, !andb_false_iff, !negb_false_iff, !Z.eqb_eq, !Z.ltb_ge, Z.eqb_neq in H.
    destruct H as ((((((? & ?) & ?) & ?) & ?) & ?) & ? & (_ & Ht) & HO). apply Ok_inj in HO. injection HO as <- <-.
    apply appHeader_canonical in Hh as [He HT]. split; [by rewrite He, ztake_zdrop|]. split.
    + constructor; try done. lia.
    + rewrite zlen_zdrop; lia.
  - intros (-> & [HT [? ?] [? ?] ? [? ?]] & Hs). pose proof (zlen_appHeader h) as Hh. pose proof (tah_SealedLength h HT) as Hr.
    unfold_widths. rewrite zlen_app, Hh. split; [lia|]. exists h. rewrite ztake_app_le by done. split; [by apply parse_appHeader|].
    rewrite !reject_bind_ok, !orb_false_iff, !andb_false_iff, !negb_false_iff, !Z.eqb_eq, !Z.ltb_ge, Z.eqb_neq.
    rewrite zdrop_app_le by done. repeat split; try done; cbn; lia.
Qed.

(** ** The application body *)

Record typedFragment (f : ApplicationFragmentV1) : Prop := {
  tf_OperationID : zlen (fr_OperationID f) = 32;
  tf_FragmentIndex : u16 (fr_FragmentIndex f);
  tf_FragmentCount : u16 (fr_FragmentCount f);
  tf_OperationLength : u32 (fr_OperationLength f);
  tf_FragmentOffset : u32 (fr_FragmentOffset f);
}.

Lemma zlen_appBody class f : zlen (fr_OperationID f) = 32 -> zlen (encodeApplicationBodyV1 class f) = 54 + zlen (fr_Fragment f).
Proof.
  intros Hid. unfold encodeApplicationBodyV1, PutUint16, PutUint32, PutUint64. rewrite !zlen_app, !zlen_put_be, Hid. lia.
Qed.

Lemma fragment_small f : validApplicationFragmentV1 f = true -> 0 < zlen (fr_Fragment f) <= 4294967295.
Proof.
  unfold validApplicationFragmentV1. destruct (_ || _) eqn:E; [done|]. rewrite !orb_false_iff, !Z.eqb_neq, Z.ltb_ge in E.
  intros _. pose proof (zlen_nonneg (fr_Fragment f)). lia.
Qed.

Lemma appBody_exact body class f : zlen body <= 54 + 4294967295 ->
  parseApplicationBodyV1 body = Ok (f, class) <->
  body = encodeApplicationBodyV1 class f /\ typedFragment f /\ u16 class /\ validApplicationFragmentV1 f = true.
Proof.
  intros Hmax. unfold parseApplicationBodyV1, ApplicationRecordVersionV1, RecordTypeApplicationFragmentV1. split.
  - rewrite !reject_bind_ok, !orb_false_iff, !negb_false_iff, !Z.eqb_eq, Z.ltb_ge. unfold applicationBodyFixedBytesV1.
    intros (((Hl & Hv) & Ht) & Hn & (_ & HV) & HO). apply Ok_inj in HO. injection HO as <- <-.
    split; [|split; [|split; [field_range|done]]].
    + unfold encodeApplicationBodyV1, ApplicationRecordVersionV1, RecordTypeApplicationFragmentV1.
      cbn [fr_OperationID fr_FragmentIndex fr_FragmentCount fr_OperationLength fr_FragmentOffset fr_Fragment].
      rewrite zlen_zdrop by lia. replace (zlen body - 54) with (beAt 50 54 body) by lia. rewrite <- Hv at 1. rewrite <- Ht at 1.
      rewrite <- (slice_zdrop 54) by lia. write_fields. symmetry. by apply slice_all.
    + constructor; cbn [fr_OperationID fr_FragmentIndex fr_FragmentCount fr_OperationLength fr_FragmentOffset fr_Fragment];
        first [field_range|rewrite zlen_slice; lia].
  - intros (-> & HT & Hc & HV). pose proof (fragment_small f HV) as Hs. pose proof (tf_OperationID f HT) as Hid.
    rewrite !zlen_appBody by done. destruct HT. destruct f as [id ix ct ol off fr]. cbn [fr_OperationID fr_FragmentIndex fr_FragmentCount fr_OperationLength fr_FragmentOffset fr_Fragment] in *.
    unfold encodeApplicationBodyV1. cbn [fr_OperationID fr_FragmentIndex fr_FragmentCount fr_OperationLength fr_FragmentOffset fr_Fragment].
    set (e := PutUint16 _ ++ _).
    assert (beAt 0 2 e = 1) as -> by (subst e; read_field; by apply get_field16).
    assert (beAt 2 4 e = 1) as -> by (subst e; read_field; by apply get_field16).
    assert (beAt 4 6 e = class) as -> by (subst e; read_field; by apply get_field16).
    assert (slice 6 38 e = id) as -> by (subst e; by read_field).
    assert (beAt 38 40 e = ix) as -> by (subst e; read_field; by apply get_field16).
    assert (beAt 40 42 e = ct) as -> by (subst e; read_field; by apply get_field16).
    assert (beAt 42 46 e = ol) as -> by (subst e; read_field; by apply get_field32).
    assert (beAt 46 50 e = off) as -> by (subst e; read_field; by apply get_field32).
    assert (beAt 50 54 e = zlen fr) as -> by (subst e; read_field; apply get_field32; unfold_widths; lia).
    assert (zdrop 54 e = fr) as Hz.
    { subst e. repeat (erewrite zdrop_skip; [|by field_len|lia]). apply zdrop_zero; lia. }
    unfold applicationBodyFixedBytesV1. rewrite Hz, HV, wrap32_small by (unfold_widths; lia). cbn [Z.eqb Pos.eqb negb orb]. rewrite !Z.eqb_refl.
    destruct (Z.ltb_spec (54 + zlen fr) 54); [lia|]. done.
Qed.

(** ** Control records *)

Record typedControlHeader (h : ControlHeaderV1) : Prop := {
  tch_Version : u16 (ch_Version h);
  tch_Type : u16 (ch_Type h);
  tch_Epoch : u64 (ch_Epoch h);
  tch_Direction : u16 (ch_Direction h);
  tch_Sequence : u64 (ch_Sequence h);
  tch_SealedLength : u32 (ch_SealedLength h);
}.

Lemma zlen_controlHeader h : zlen (encodeControlHeaderV1 h) = 26.
Proof. unfold encodeControlHeaderV1, PutUint16, PutUint32, PutUint64. by rewrite !zlen_app, !zlen_put_be. Qed.

Lemma parse_controlHeader h : typedControlHeader h -> parseControlHeaderV1 (encodeControlHeaderV1 h) = Ok h.
Proof.
  intros []. unfold parseControlHeaderV1. rewrite zlen_controlHeader. cbn [Z.eqb Pos.eqb negb reject rbind controlHeaderBytesV1].
  destruct h as [v t e d q l]. unfold encodeControlHeaderV1. cbn [ch_Version ch_Type ch_Epoch ch_Direction ch_Sequence ch_SealedLength] in *.
  f_equal; f_equal; read_field; first [by apply get_field16|by apply get_field32|by apply get_field64].
Qed.

Lemma controlHeader_canonical e h : parseControlHeaderV1 e = Ok h -> encodeControlHeaderV1 h = e /\ typedControlHeader h.
Proof.
  unfold parseControlHeaderV1. rewrite reject_bind_ok, negb_false_iff, Z.eqb_eq. unfold controlHeaderBytesV1.
  intros [Hl Hh]. apply Ok_inj in Hh as <-. split.
  - unfold encodeControlHeaderV1. cbn [ch_Version ch_Type ch_Epoch ch_Direction ch_Sequence ch_SealedLength].
    write_fields. by apply slice_all.
  - constructor; cbn [ch_Version ch_Type ch_Epoch ch_Direction ch_Sequence ch_SealedLength]; field_range.
Qed.

Record controlHeaderOk (h : ControlHeaderV1) (direction recordType : Z) : Prop := {
  cho_typed : typedControlHeader h;
  cho_version : ch_Version h = 1;
  cho_direction : ch_Direction h = direction;
  cho_type : ch_Type h = recordType;
  cho_length : controlSealedLengthV1 recordType = Some (ch_SealedLength h);
}.

Lemma controlRecord_exact record direction recordType h sealed :
  parseControlRecordV1 record direction recordType = Ok (h, sealed) <->
  record = encodeControlHeaderV1 h ++ sealed /\ controlHeaderOk h direction recordType /\ zlen sealed = ch_SealedLength h.
Proof.
  unfold parseControlRecordV1, ControlRecordVersionV1. rewrite reject_bind_ok, Z.ltb_ge, rbind_ok. unfold controlHeaderBytesV1. split.
  - intros (Hl & h' & Hh & HP). rewrite !reject_bind_ok, !orb_false_iff, !negb_false_iff, !Z.eqb_eq in HP.
    destruct HP as (Hv & _ & (Ht & Hd) & HP). rewrite Ht in HP. destruct (controlSealedLengthV1 recordType) as [n|] eqn:En; [|done].
    rewrite !reject_bind_ok, !orb_false_iff, !negb_false_iff, !Z.eqb_eq in HP. destruct HP as (Hn & (_ & Htot) & HO).
    apply Ok_inj in HO. injection HO as <- <-. apply controlHeader_canonical in Hh as [He HT].
    split; [by rewrite He, ztake_zdrop|]. split; [constructor; try done; congruence|]. rewrite zlen_zdrop; lia.
  - intros (-> & [HT Hv Hd Ht Hn] & Hs). pose proof (zlen_controlHeader h) as Hh. pose proof (tch_SealedLength h HT) as Hr.
    unfold_widths. rewrite zlen_app, Hh. split; [lia|]. exists h. rewrite ztake_app_le by done. split; [by apply parse_controlHeader|].
    rewrite zdrop_app_le by done. rewrite Hv, Hd, Ht, !Z.eqb_refl, Hn, Hs, Z.eqb_refl. cbn [negb orb reject rbind].
    assert (negb (recordType =? RecordTypeOperationAckV1) && negb (recordType =? RecordTypeCloseV1) = false) as ->.
    { unfold controlSealedLengthV1 in Hn. destruct (recordType =? RecordTypeOperationAckV1), (recordType =? RecordTypeCloseV1); done. }
    cbn [reject rbind]. cbv zeta. rewrite Z.eqb_refl. destruct (Z.ltb_spec 9223372036854775807 (26 + ch_SealedLength h)); [lia|done].
Qed.

Lemma ackBody_exact body ack : zlen (ack_OperationID ack) = 32 -> u64 (ack_CompletedCount ack) ->
  encodeOperationAckBodyV1 ack = Ok body -> zlen body = 44 /\ parseOperationAckBodyV1 body = Ok ack.
Proof.
  intros Hid Hc. unfold encodeOperationAckBodyV1. rewrite reject_bind_ok, negb_false_iff. intros [HV HO]. apply Ok_inj in HO as <-.
  destruct ack as [id n]. cbn [ack_OperationID ack_CompletedCount] in *. set (e := PutUint16 _ ++ _).
  assert (zlen e = 44) as Hl. { subst e. unfold PutUint16, PutUint64. rewrite !zlen_app, !zlen_put_be, Hid. done. }
  split; [done|]. unfold parseOperationAckBodyV1. rewrite Hl.
  assert (beAt 0 2 e = 1) as -> by (subst e; read_field; by apply get_field16).
  assert (beAt 2 4 e = 2) as -> by (subst e; read_field; by apply get_field16).
  assert (slice 4 36 e = id) as -> by (subst e; by read_field).
  assert (beAt 36 44 e = n) as -> by (subst e; read_field; by apply get_field64).
  cbn [Z.eqb Pos.eqb negb orb reject rbind operationAckBodyBytesV1 ControlRecordVersionV1 RecordTypeOperationAckV1]. by rewrite HV.
Qed.

Lemma ackBody_canonical body ack : parseOperationAckBodyV1 body = Ok ack -> encodeOperationAckBodyV1 ack = Ok body.
Proof.
  unfold parseOperationAckBodyV1. rewrite !reject_bind_ok, !orb_false_iff, !negb_false_iff, !Z.eqb_eq. unfold operationAckBodyBytesV1.
  intros (((Hl & Hv) & Ht) & HV & HO). apply Ok_inj in HO as <-. unfold encodeOperationAckBodyV1. rewrite HV. cbn [negb reject rbind].
  f_equal. rewrite <- Hv at 1. rewrite <- Ht at 1. cbn [ack_OperationID ack_CompletedCount]. write_fields. by apply slice_all.
Qed.

Lemma closeBody_exact body close : encodeCloseBodyV1 close = Ok body <-> parseCloseBodyV1 body = Ok close.
Proof.
  unfold encodeCloseBodyV1, parseCloseBodyV1. rewrite !reject_bind_ok, !orb_false_iff, !negb_false_iff, !Z.eqb_eq. split.
  - intros [Hc HO]. apply Ok_inj in HO as <-. rewrite Hc. split; [by vm_compute|]. destruct close. cbn in Hc. by rewrite Hc.
  - intros ((((Hl & Hv) & Ht) & Hc) & HO). apply Ok_inj in HO as <-. split; [done|]. f_equal. cbn [cl_Code].
    rewrite <- Hv at 1. rewrite <- Ht at 1. rewrite <- Hc. unfold closeBodyBytesV1 in Hl. write_fields. by apply slice_all.
Qed.
