(* ===== verification/Channel.v ===== *)
(** * The protected channel: sealing closures and fragment reassembly

    Parts of [src/internal/runtime/protected_channel.go]: the closures that bind
    the record codecs of [Records] to the envelopes of [Envelope], the cutting of
    an operation into fragments, and the reassembly buffer of the receiver. The
    test seams ([afterSeal], [beforeFragmentCommit], the lab faults) are nil, as
    they are outside tests. Accepting the last fragment spans two critical
    sections with the commit between them: [acceptFragment] and [finishFragment].
    Whether the commit of the replay capability and of the operation succeeded is
    an input here; [Lifecycle] models what decides it. *)

From S2P Require Import Prelude GoBytes GoSort SecurityErrors Ir Nonce Envelope Records.
From Stdlib Require Import ZArith Lia Strings.Byte.
From stdpp Require Import base list gmap.
Local Open Scope Z_scope.

#[export] Instance byte_countable : Countable Byte.byte.
Proof. apply (inj_countable Byte.to_N Byte.of_N). intros b. apply Byte.of_to_N. Defined.

(** ** Closures over the envelopes *)

Section closures.
Context `{Cipher}.

(** The record must use the coordinates reserved for the transmission. *)
Definition applicationSeal (c : EnvelopeCodecV1) (recordEpoch recordSequence : Z) (st : strictEnvelopeStateV1) (slot : Z) (body : bytes)
    : strictEnvelopeStateV1 * result env_error EnvelopeRecordV1 :=
  let '(st, _, r) := SealApplicationV1 c st slot (mkSlice 0 body) in
  (st, let? envelope := r in
       fail? negb (er_Epoch envelope =? recordEpoch) || negb (er_Sequence envelope =? recordSequence)
         with Sentinel ErrNonceMismatch in
       Ok envelope).

(** The capability of the last authenticated record is kept beside the state. *)
Definition capture (rt : strictEnvelopeStateV1) (kept : option nat) (r : result env_error (bytes * nat))
    : (strictEnvelopeStateV1 * option nat) * result env_error bytes :=
  match r with
  | Ok (body, capability) => ((rt, Some capability), Ok body)
  | Err e => ((rt, kept), Err e)
  end.

Definition applicationOpen (c : EnvelopeCodecV1) (s : strictEnvelopeStateV1 * option nat) (envelope : EnvelopeRecordV1)
    : (strictEnvelopeStateV1 * option nat) * result env_error bytes :=
  let '(rt, _, r) := AuthenticateApplicationV1 c (fst s) envelope in capture rt (snd s) r.

Definition controlSeal (c : EnvelopeCodecV1) (recordType direction : Z) (st : strictEnvelopeStateV1)
    (wantEpoch wantSequence : Z) (body aad : bytes) : strictEnvelopeStateV1 * result env_error bytes :=
  let '(st, _, r) := SealControlV1 c st recordType (mkSlice 0 body) aad in
  (st, let? sealed := r in
       fail? negb (er_Epoch sealed =? wantEpoch) || negb (er_Sequence sealed =? wantSequence)
           || negb (er_Direction sealed =? direction) with Sentinel ErrNonceMismatch in
       Ok (er_Ciphertext sealed)).

Definition controlOpen (c : EnvelopeCodecV1) (recordType direction : Z) (s : strictEnvelopeStateV1 * option nat)
    (epoch sequence : Z) (sealed aad : bytes) : (strictEnvelopeStateV1 * option nat) * result env_error bytes :=
  let envelope := mkRecord recordType epoch direction 0 sequence (wrap32 (zlen sealed)) sealed in
  let '(rt, _, r) := AuthenticateControlV1 c (fst s) envelope aad in capture rt (snd s) r.

End closures.

(** ** Cutting an operation *)

Definition strictFragmentMaxOperationsV1 : Z := 8.
Definition strictFragmentMaxCountV1 : Z := 16.
Definition strictFragmentLifetimeTicksV1 : Z := 32.

Fixpoint cutFragments (id plaintext : bytes) (count index offset : Z) (lengths : list Z) : list ApplicationFragmentV1 :=
  match lengths with
  | [] => []
  | n :: lengths =>
      mkFragment id (wrap16 index) (wrap16 count) (wrap32 (zlen plaintext)) offset (slice offset (offset + n) plaintext)
      :: cutFragments id plaintext count (index + 1) (wrap32 (offset + n)) lengths
  end.

Definition sumLengths (lengths : list Z) : Z := foldl (fun total n => wrap64 (total + n)) 0 lengths.

Definition fragmentSet (maxOperation : Z) (id plaintext : bytes) (lengths : list Z) : result record_error (list ApplicationFragmentV1) :=
  fail? (zlen lengths <? 2) || (strictFragmentMaxCountV1 <? zlen lengths) || (zlen plaintext =? 0) || (maxOperation <? zlen plaintext)
    with ErrRecordInvalid in
  fail? existsb (fun n => n =? 0) lengths with ErrRecordInvalid in
  fail? negb (sumLengths lengths =? zlen plaintext) with ErrRecordInvalid in
  Ok (cutFragments id plaintext (zlen lengths) 0 0 lengths).

(** ** Reassembly *)

Record strictStoredFragmentV1 := mkStored { sf_offset : Z; sf_data : bytes }.

Record strictFragmentEntryV1 := mkFragEntry {
  en_streamSlot : Z;
  en_direction : Z;
  en_epoch : Z;
  en_count : Z;
  en_length : Z;
  en_createdTick : Z;
  en_fragments : gmap Z strictStoredFragmentV1;
  en_finalizing : bool;
}.

Record strictFragmentReassemblyV1 := mkReassembly {
  rs_entries : gmap bytes strictFragmentEntryV1;
  rs_pendingBytes : Z;
  rs_tick : Z;
  rs_tickStep : Z;
  rs_maxBytes : Z;
  rs_maxOperation : Z;
  rs_destroyed : bool;
}.

Definition newReassembly (maxFrameBytes : Z) : strictFragmentReassemblyV1 :=
  mkReassembly ∅ 0 0 1 (wrap64 (maxFrameBytes * strictFragmentMaxOperationsV1)) maxFrameBytes false.

Definition setEntries (st : strictFragmentReassemblyV1) (m : gmap bytes strictFragmentEntryV1) (pending : Z) : strictFragmentReassemblyV1 :=
  mkReassembly m pending (rs_tick st) (rs_tickStep st) (rs_maxBytes st) (rs_maxOperation st) (rs_destroyed st).

Definition destroyReassembly (st : strictFragmentReassemblyV1) : strictFragmentReassemblyV1 :=
  mkReassembly ∅ 0 (rs_tick st) (rs_tickStep st) (rs_maxBytes st) (rs_maxOperation st) true.

Definition advanceTickLockedV1 (st : strictFragmentReassemblyV1) : strictFragmentReassemblyV1 :=
  let step := if rs_tickStep st =? 0 then 1 else rs_tickStep st in
  mkReassembly (rs_entries st) (rs_pendingBytes st) (wrap64 (rs_tick st + step)) (rs_tickStep st) (rs_maxBytes st)
    (rs_maxOperation st) (rs_destroyed st).

Definition outlived (tick : Z) (e : strictFragmentEntryV1) : bool :=
  negb (en_finalizing e) && (strictFragmentLifetimeTicksV1 <=? wrap64 (tick - en_createdTick e)).

Definition totalLength (m : gmap bytes strictFragmentEntryV1) : Z := map_fold (fun _ e acc => acc + en_length e) 0 m.

Definition expireReassembly (st : strictFragmentReassemblyV1) : strictFragmentReassemblyV1 :=
  let old := filter (fun p => outlived (rs_tick st) p.2 = true) (rs_entries st) in
  setEntries st (filter (fun p => outlived (rs_tick st) p.2 = false) (rs_entries st)) (wrap64 (rs_pendingBytes st - totalLength old)).

(** One turn of the loop over the sorted intervals: the next offset, the indices
    seen and the bytes written so far. *)
Definition placePart (length_ : Z) (acc : option (Z * list Z * bytes)) (part : Z * strictStoredFragmentV1) : option (Z * list Z * bytes) :=
  match acc with
  | None => None
  | Some (next, seen, assembled) =>
      let '(index, f) := part in
      if mem index seen || negb (sf_offset f =? next) then None
      else
        let end_ := sf_offset f + zlen (sf_data f) in
        if length_ <? end_ then None
        else Some (end_, index :: seen, writeAt assembled (sf_offset f) (sf_data f))
  end.

Definition offsetLess (a b : Z * strictStoredFragmentV1) : bool := sf_offset (snd a) <? sf_offset (snd b).

(** The stored intervals do not overlap, so their offsets differ and every sort
    gives the same order. *)
Definition assembleStrictFragmentsV1 (e : strictFragmentEntryV1) (finalIndex : Z) (final : strictStoredFragmentV1) : option bytes :=
  if negb (Z.of_nat (size (en_fragments e)) + 1 =? en_count e) then None
  else
    let intervals := SliceStable offsetLess (map_to_list (en_fragments e) ++ [(finalIndex, final)]) in
    match foldl (placePart (en_length e)) (Some (0, [], replicate (Z.to_nat (en_length e)) Byte.x00)) intervals with
    | None => None
    | Some (next, seen, assembled) =>
        if negb (next =? en_length e) || negb (zlen seen =? en_count e) then None else Some assembled
    end.

Inductive fragment_out := FragRefused | FragStored | FragCommitFailed | FragAssembled (assembled : bytes).

Definition overlaps (start end_ : Z) (f : strictStoredFragmentV1) : bool :=
  (start <? sf_offset f + zlen (sf_data f)) && (sf_offset f <? end_).

Definition withFragment (e : strictFragmentEntryV1) (index : Z) (f : strictStoredFragmentV1) : strictFragmentEntryV1 :=
  mkFragEntry (en_streamSlot e) (en_direction e) (en_epoch e) (en_count e) (en_length e) (en_createdTick e)
    (<[index := f]> (en_fragments e)) (en_finalizing e).

Definition withFinalizing (e : strictFragmentEntryV1) (b : bool) : strictFragmentEntryV1 :=
  mkFragEntry (en_streamSlot e) (en_direction e) (en_epoch e) (en_count e) (en_length e) (en_createdTick e) (en_fragments e) b.

(** The entry the fragment belongs to: [true] marks a new one. *)
Definition entryFor (st : strictFragmentReassemblyV1) (header : ApplicationHeaderV1) (fragment : ApplicationFragmentV1)
    : option (strictFragmentEntryV1 * bool) :=
  match rs_entries st !! fr_OperationID fragment with
  | None =>
      if (strictFragmentMaxOperationsV1 <=? Z.of_nat (size (rs_entries st)))
         || (rs_maxBytes st <? wrap64 (rs_pendingBytes st + fr_OperationLength fragment)) then None
      else Some (mkFragEntry (ah_StreamSlot header) (ah_Direction header) (ah_Epoch header) (fr_FragmentCount fragment)
                   (fr_OperationLength fragment) (rs_tick st) ∅ false, true)
  | Some e =>
      if negb (en_streamSlot e =? ah_StreamSlot header) || negb (en_direction e =? ah_Direction header)
         || negb (en_epoch e =? ah_Epoch header) || negb (en_count e =? fr_FragmentCount fragment)
         || negb (en_length e =? fr_OperationLength fragment) then None
      else Some (e, false)
  end.

(** The first critical section of [acceptMultiFragmentV1]. [committed] is the
    outcome of the capability's commit, which is asked for only when a fragment
    that does not complete its operation is to be stored. *)
Definition acceptFragment (st : strictFragmentReassemblyV1) (header : ApplicationHeaderV1) (fragment : ApplicationFragmentV1)
    (committed : bool) : strictFragmentReassemblyV1 * fragment_out :=
  let st := expireReassembly st in
  if rs_destroyed st || (fr_FragmentCount fragment <? 2) || (strictFragmentMaxCountV1 <? fr_FragmentCount fragment)
     || (fr_FragmentCount fragment <=? fr_FragmentIndex fragment) || (fr_OperationLength fragment =? 0)
     || (rs_maxOperation st <? fr_OperationLength fragment) || (zlen (fr_Fragment fragment) =? 0) then (st, FragRefused)
  else
    match entryFor st header fragment with
    | None => (st, FragRefused)
    | Some (e, newEntry) =>
        let currentStart := fr_FragmentOffset fragment in
        let currentEnd := currentStart + zlen (fr_Fragment fragment) in
        if en_finalizing e || bool_decide (is_Some (en_fragments e !! fr_FragmentIndex fragment))
           || (fr_OperationLength fragment <? currentEnd)
           || existsb (fun p => overlaps currentStart currentEnd (snd p)) (map_to_list (en_fragments e)) then (st, FragRefused)
        else
          let prepared := mkStored (fr_FragmentOffset fragment) (fr_Fragment fragment) in
          let n := Z.of_nat (size (en_fragments e)) + 1 in
          if en_count e <? n then (st, FragRefused)
          else if negb (n =? en_count e) then
            if committed then
              (advanceTickLockedV1 (setEntries st (<[fr_OperationID fragment := withFragment e (fr_FragmentIndex fragment) prepared]> (rs_entries st))
                 (if newEntry then wrap64 (rs_pendingBytes st + en_length e) else rs_pendingBytes st)), FragStored)
            else (st, FragCommitFailed)
          else
            match assembleStrictFragmentsV1 e (fr_FragmentIndex fragment) prepared with
            | None => (st, FragRefused)
            | Some assembled =>
                (setEntries st (<[fr_OperationID fragment := withFinalizing e true]> (rs_entries st)) (rs_pendingBytes st),
                 FragAssembled assembled)
            end
    end.

(** What follows the commit of a completed operation: [commitFinal] when it
    succeeds, the restored entry when it does not. *)
Definition finishFragment (st : strictFragmentReassemblyV1) (id : bytes) (length_ : Z) (committed : bool) : strictFragmentReassemblyV1 :=
  if committed then
    advanceTickLockedV1 (setEntries st (delete id (rs_entries st)) (wrap64 (rs_pendingBytes st - length_)))
  else
    match rs_entries st !! id with
    | Some e => setEntries st (<[id := withFinalizing e false]> (rs_entries st)) (rs_pendingBytes st)
    | None => st
    end.

(** The whole of [acceptMultiFragmentV1]. The channel's mutex keeps other records
    out, but the session may be torn down between the two critical sections
    ([interrupted]). *)
Definition acceptMultiFragmentV1 (st : strictFragmentReassemblyV1) (header : ApplicationHeaderV1) (fragment : ApplicationFragmentV1)
    (committed interrupted : bool) : strictFragmentReassemblyV1 * fragment_out :=
  let '(st, out) := acceptFragment st header fragment committed in
  match out with
  | FragAssembled _ =>
      let st := if interrupted then destroyReassembly st else st in
      (finishFragment st (fr_OperationID fragment) (fr_OperationLength fragment) committed,
       if committed then out else FragCommitFailed)
  | _ => (st, out)
  end.
