(* ===== verification/ChannelFacts.v ===== *)
(** * Reassembly is exact

    The buffer holds at most eight operations and no more bytes than its budget
    ([reassembly_bounded]); what it hands out is the concatenation, in offset
    order, of fragments that were accepted for one operation on one stream, in
    one direction and epoch ([reassembly_sound]); and the fragments of an
    operation, in whatever order they arrive, give the operation back
    ([fragments_reassemble]). *)

From S2P Require Import Prelude GoBytes GoSort SecurityErrors Ir Nonce Envelope Records RecordFacts Channel.
From Stdlib Require Import ZArith Lia Strings.Byte.
From stdpp Require Import base list gmap sorting.
Local Open Scope Z_scope.

(** ** Laying out consecutive parts *)

Notation part := (Z * strictStoredFragmentV1)%type.

(** Each part starts where the one before it ends. *)
Fixpoint consecutive (start : Z) (parts : list part) : Prop :=
  match parts with
  | [] => True
  | p :: parts => sf_offset (snd p) = start /\ consecutive (start + zlen (sf_data (snd p))) parts
  end.

Definition dataOf (parts : list part) : bytes := concat ((fun p => sf_data (snd p)) <$> parts).

Lemma dataOf_cons p parts : dataOf (p :: parts) = sf_data (snd p) ++ dataOf parts.
Proof. done. Qed.

Lemma place_none L parts : foldl (placePart L) None parts = None.
Proof. by induction parts. Qed.

Lemma place_spec L parts : forall next seen out r, 0 <= next -> zlen out = L -> next <= L ->
  foldl (placePart L) (Some (next, seen, out)) parts = Some r <->
  consecutive next parts /\ NoDup (fst <$> parts) /\ (forall i, i ∈ fst <$> parts -> i ∉ seen) /\
  next + zlen (dataOf parts) <= L /\
  r = (next + zlen (dataOf parts), reverse (fst <$> parts) ++ seen, writeAt out next (dataOf parts)).
Proof.
  induction parts as [|[i f] parts IH]; intros next seen out r Hn Hl HL; cbn [foldl].
  { cbn. rewrite writeAt_nil by lia. split.
    - intros Hr. apply (inj Some) in Hr as <-. rewrite Z.add_0_r. repeat split; try done; [constructor|by intros i ?%elem_of_nil].
    - intros (_ & _ & _ & _ & ->). by rewrite Z.add_0_r. }
  cbn [placePart]. rewrite dataOf_cons, zlen_app. cbn [snd consecutive fmap list_fmap fst]. pose proof (zlen_nonneg (sf_data f)). pose proof (zlen_nonneg (dataOf parts)).
  destruct (mem i seen) eqn:Em.
  { cbn [orb]. rewrite place_none. split; [done|]. intros (_ & _ & Hs & _). apply mem_true in Em. exfalso. by apply (Hs i); [left|]. }
  apply mem_false in Em. cbn [orb]. destruct (Z.eqb_spec (sf_offset f) next) as [E|E]; cbn [negb].
  2: { rewrite place_none. split; [done|]. by intros ([? _] & _). }
  destruct (Z.ltb_spec L (sf_offset f + zlen (sf_data f))).
  { rewrite place_none. split; [done|]. intros (_ & _ & _ & ? & _). lia. }
  rewrite IH; [|lia|rewrite zlen_writeAt; lia|lia]. rewrite E in *. rewrite NoDup_cons, reverse_cons, <- app_assoc. cbn [app].
  rewrite <- Z.add_assoc. split.
  - intros (HC & HN & Hs & Hb & ->). rewrite writeAt_app by lia. split; [done|]. split; [|split; [|done]].
    + split; [|done]. intros Hi. apply (Hs i Hi). by left.
    + intros j [->|Hj]%elem_of_cons; [done|]. intros Hj'. apply (Hs j Hj). by right.
  - intros ((_ & HC) & [Hi HN] & Hs & Hb & ->). rewrite writeAt_app by lia. split; [done|]. split; [done|]. split; [|done].
    intros j Hj [->|Hj']%elem_of_cons; [done|]. by apply (Hs j); [right|].
Qed.

(** ** Assembly *)

Lemma writeAt_whole dst b : zlen b = zlen dst -> writeAt dst 0 b = b.
Proof.
  intros E. unfold writeAt, ztake, zdrop. rewrite Z.add_0_l, E. cbn. rewrite drop_ge by (unfold zlen; lia). by rewrite app_nil_r.
Qed.

Lemma zlen_replicate n (x : Byte.byte) : 0 <= n -> zlen (replicate (Z.to_nat n) x) = n.
Proof. intros Hn. unfold zlen. rewrite length_replicate. lia. Qed.

(** The parts of an entry with its last fragment. *)
Definition allParts (e : strictFragmentEntryV1) (index : Z) (final : strictStoredFragmentV1) : list part :=
  map_to_list (en_fragments e) ++ [(index, final)].

Lemma assemble_spec e index final out : 0 <= en_length e -> en_fragments e !! index = None ->
  assembleStrictFragmentsV1 e index final = Some out <->
  exists parts, parts ≡ₚ allParts e index final /\ parts = SliceStable offsetLess (allParts e index final) /\
    consecutive 0 parts /\ out = dataOf parts /\ zlen out = en_length e /\ Z.of_nat (size (en_fragments e)) + 1 = en_count e.
Proof.
  intros HL Hi. unfold assembleStrictFragmentsV1. fold (allParts e index final).
  pose proof (SliceStable_perm offsetLess (allParts e index final)) as HP.
  assert (HN : NoDup (fst <$> SliceStable offsetLess (allParts e index final))).
  { rewrite HP. unfold allParts. rewrite fmap_app. apply NoDup_app. split; [apply NoDup_fst_map_to_list|].
    split; [|apply NoDup_singleton]. intros j (p & -> & Hp)%list_elem_of_fmap Hj. cbn in Hj. apply list_elem_of_singleton in Hj.
    destruct p as [j' f]. cbn in Hj. subst j'. apply elem_of_map_to_list in Hp. congruence. }
  assert (Hlen : zlen (SliceStable offsetLess (allParts e index final)) = Z.of_nat (size (en_fragments e)) + 1).
  { unfold zlen. rewrite (Permutation_length HP). unfold allParts. rewrite length_app, length_map_to_list. cbn. lia. }
  revert HP HN Hlen. generalize (SliceStable offsetLess (allParts e index final)) as parts. intros parts HP HN Hlen.
  destruct (Z.eqb_spec (Z.of_nat (size (en_fragments e)) + 1) (en_count e)) as [Ec|Ec]; cbn [negb].
  2: { split; [done|]. intros (? & ? & _ & _ & _ & _ & Ec'). lia. }
  pose proof (place_spec (en_length e) parts 0 [] (replicate (Z.to_nat (en_length e)) Byte.x00)) as HS.
  destruct (foldl _ _ parts) as [r|] eqn:EF.
  - destruct (proj1 (HS r ltac:(lia) (zlen_replicate _ _ HL) HL) eq_refl) as (HC & _ & _ & Hb & ->). rewrite Z.add_0_l in *.
    destruct (Z.eqb_spec (zlen (dataOf parts)) (en_length e)) as [El|El]; cbn [negb orb].
    + rewrite app_nil_r. unfold zlen at 1. rewrite length_reverse, length_fmap. change (Z.of_nat (length parts)) with (zlen parts). rewrite Hlen, Ec, Z.eqb_refl. cbn [negb].
      rewrite writeAt_whole by (rewrite zlen_replicate; lia). split.
      * intros Ho. apply (inj Some) in Ho as <-. exists parts. done.
      * intros (parts' & _ & -> & _ & -> & _). done.
    + split; [done|]. intros (parts' & _ & -> & _ & -> & ? & _). lia.
  - split; [done|]. intros (parts' & _ & -> & HC & -> & El & _). exfalso.
    assert (exists r, @None (Z * list Z * bytes) = Some r) as [r Hr]; [|done]. eexists. apply HS; [lia|by apply zlen_replicate|done|].
    repeat split; try done; [intros j _; by intros ?%elem_of_nil|lia].
Qed.

(** ** The invariant *)

Record entryOk (maxOperation : Z) (e : strictFragmentEntryV1) : Prop := {
  eo_count : 2 <= en_count e <= 16;
  eo_length : 1 <= en_length e <= maxOperation;
  eo_size : Z.of_nat (size (en_fragments e)) < en_count e;
  eo_open : en_finalizing e = false;
  eo_part : forall i f, en_fragments e !! i = Some f -> 0 <= i < en_count e /\ 0 <= sf_offset f /\ 0 < zlen (sf_data f) /\
    sf_offset f + zlen (sf_data f) <= en_length e;
  eo_disjoint : forall i j f g, i <> j -> en_fragments e !! i = Some f -> en_fragments e !! j = Some g ->
    overlaps (sf_offset f) (sf_offset f + zlen (sf_data f)) g = false;
}.

Record wfr (st : strictFragmentReassemblyV1) : Prop := {
  wr_entries : map_Forall (fun _ e => entryOk (rs_maxOperation st) e) (rs_entries st);
  wr_size : Z.of_nat (size (rs_entries st)) <= strictFragmentMaxOperationsV1;
  wr_pending : rs_pendingBytes st = totalLength (rs_entries st);
  wr_budget : rs_pendingBytes st <= rs_maxBytes st;
  wr_max : u32 (rs_maxOperation st) /\ rs_maxBytes st = 8 * rs_maxOperation st;
}.

Definition goodr (st : strictFragmentReassemblyV1) : Prop :=
  rs_destroyed st = true /\ rs_entries st = ∅ \/ rs_destroyed st = false /\ wfr st.

Lemma total_insert m id e : m !! id = None -> totalLength (<[id := e]> m) = totalLength m + en_length e.
Proof. intros Hm. unfold totalLength. rewrite map_fold_insert_L; [done| |done]. intros; lia. Qed.

Lemma total_delete m id e : m !! id = Some e -> totalLength m = totalLength (delete id m) + en_length e.
Proof. intros Hm. rewrite <- (insert_delete_id m id e Hm) at 1. apply total_insert. apply lookup_delete_eq. Qed.

Lemma total_update m id e e' : m !! id = Some e -> en_length e' = en_length e -> totalLength (<[id := e']> m) = totalLength m.
Proof.
  intros Hm Hl. rewrite <- insert_delete_eq. rewrite total_insert by apply lookup_delete_eq. rewrite (total_delete m id e Hm). lia.
Qed.

Lemma total_nonneg m : map_Forall (fun _ e => 0 <= en_length e) m -> 0 <= totalLength m.
Proof.
  induction m as [|id e m Hm IH] using map_ind; [done|]. intros HF. apply map_Forall_insert in HF as [He HF]; [|done].
  rewrite total_insert by done. specialize (IH HF). lia.
Qed.

Lemma total_filter m (P : strictFragmentEntryV1 -> bool) :
  totalLength (filter (fun p => P p.2 = true) m) + totalLength (filter (fun p => P p.2 = false) m) = totalLength m.
Proof.
  induction m as [|id e m Hm IH] using map_ind; [done|]. rewrite total_insert by done.
  assert (forall b, filter (fun p => P p.2 = b) m !! id = None) as Hnone.
  { intros b. apply map_lookup_filter_None_2. by left. }
  destruct (P e) eqn:E.
  - rewrite (map_filter_insert_True _ _ id e) by done. rewrite (map_filter_insert_False _ m id e) by (cbn; congruence).
    rewrite (delete_id m), total_insert by done. lia.
  - rewrite (map_filter_insert_False _ _ id e) by (cbn; congruence). rewrite (map_filter_insert_True _ m id e) by done.
    rewrite (delete_id m), total_insert by done. lia.
Qed.

Lemma entries_nonneg (maxOperation : Z) (m : gmap bytes strictFragmentEntryV1) : map_Forall (fun _ e => entryOk maxOperation e) m -> map_Forall (fun _ e => 0 <= en_length e) m.
Proof. intros HF. eapply map_Forall_impl; [exact HF|]. intros _ e []. lia. Qed.

Lemma pending_range st : wfr st -> 0 <= rs_pendingBytes st <= 8 * 2 ^ 32.
Proof.
  intros []. rewrite wr_pending0 at 1. split; [|unfold_widths; lia]. eapply total_nonneg, entries_nonneg. exact wr_entries0.
Qed.

Lemma expireReassembly_spec st : wfr st -> wfr (expireReassembly st) /\
  forall id e, rs_entries (expireReassembly st) !! id = Some e <-> rs_entries st !! id = Some e /\ outlived (rs_tick st) e = false.
Proof.
  intros HW. assert (HL : forall id e, rs_entries (expireReassembly st) !! id = Some e <-> rs_entries st !! id = Some e /\ outlived (rs_tick st) e = false).
  { intros id e. cbn. by rewrite map_lookup_filter_Some. }
  split; [|done]. pose proof (pending_range st HW) as HR. pose proof (total_filter (rs_entries st) (outlived (rs_tick st))) as HT.
  destruct HW. pose proof (entries_nonneg _ _ wr_entries0) as HN.
  assert (map_Forall (fun _ e => entryOk (rs_maxOperation st) e) (rs_entries (expireReassembly st))) as HE.
  { intros id e [He _]%HL. by apply (wr_entries0 id e). }
  assert (0 <= totalLength (filter (fun p => outlived (rs_tick st) p.2 = true) (rs_entries st))) as H1.
  { apply total_nonneg. intros id e [He _]%map_lookup_filter_Some. by apply (HN id e). }
  assert (0 <= totalLength (rs_entries (expireReassembly st))) as H2 by (eapply total_nonneg, entries_nonneg, HE).
  cbn [expireReassembly setEntries rs_entries] in H2.
  assert (wrap64 (rs_pendingBytes st - totalLength (filter (fun p => outlived (rs_tick st) p.2 = true) (rs_entries st))) =
    totalLength (filter (fun p => outlived (rs_tick st) p.2 = false) (rs_entries st))) as HP.
  { rewrite wrap64_small; [lia|]. unfold_widths. lia. }
  constructor; try done.
  - cbn. etrans; [|exact wr_size0]. apply inj_le, map_subseteq_size, map_filter_subseteq.
  - cbn [expireReassembly setEntries rs_pendingBytes rs_maxBytes]. rewrite HP. lia.
Qed.

(** ** What accepting a fragment does *)

(** The fragment fits its entry. *)
Record fits (e : strictFragmentEntryV1) (f : ApplicationFragmentV1) (maxOperation : Z) : Prop := {
  ft_count : en_count e = fr_FragmentCount f /\ 2 <= fr_FragmentCount f <= 16 /\ fr_FragmentIndex f < fr_FragmentCount f;
  ft_length : en_length e = fr_OperationLength f /\ fr_OperationLength f <> 0 /\ fr_OperationLength f <= maxOperation;
  ft_data : 0 < zlen (fr_Fragment f) /\ fr_FragmentOffset f + zlen (fr_Fragment f) <= en_length e;
  ft_new : en_fragments e !! fr_FragmentIndex f = None;
  ft_apart : forall i g, en_fragments e !! i = Some g ->
    overlaps (fr_FragmentOffset f) (fr_FragmentOffset f + zlen (fr_Fragment f)) g = false;
}.

Definition storedOf (f : ApplicationFragmentV1) : strictStoredFragmentV1 := mkStored (fr_FragmentOffset f) (fr_Fragment f).

Definition matches (e : strictFragmentEntryV1) (h : ApplicationHeaderV1) : Prop :=
  en_streamSlot e = ah_StreamSlot h /\ en_direction e = ah_Direction h /\ en_epoch e = ah_Epoch h.

(** The entry a fragment joins: the one of its operation, or an empty one within
    the budget. *)
Definition joins (st : strictFragmentReassemblyV1) (f : ApplicationFragmentV1) (e : strictFragmentEntryV1) (new : bool) : Prop :=
  if new then rs_entries st !! fr_OperationID f = None /\ en_fragments e = ∅ /\ en_createdTick e = rs_tick st /\
    Z.of_nat (size (rs_entries st)) < 8 /\ wrap64 (rs_pendingBytes st + fr_OperationLength f) <= rs_maxBytes st
  else rs_entries st !! fr_OperationID f = Some e.

Lemma entryFor_spec st h f e new : entryFor st h f = Some (e, new) ->
  joins st f e new /\ matches e h /\ en_count e = fr_FragmentCount f /\ en_length e = fr_OperationLength f /\
  (new = true -> en_finalizing e = false).
Proof.
  unfold entryFor, joins, matches. destruct (rs_entries st !! fr_OperationID f) as [e'|] eqn:E.
  - destruct (_ || _) eqn:C; [done|]. rewrite !orb_false_iff, !negb_false_iff, !Z.eqb_eq in C. intros [= <- <-]. naive_solver.
  - destruct (_ || _) eqn:C; [done|]. rewrite orb_false_iff, Z.leb_gt, Z.ltb_ge in C. unfold strictFragmentMaxOperationsV1 in C.
    intros [= <- <-]. cbn. naive_solver.
Qed.

Lemma accept_cases st h f committed st' out : acceptFragment st h f committed = (st', out) ->
  let x := expireReassembly st in
  (st' = x /\ (out = FragRefused \/ out = FragCommitFailed)) \/
  exists e new, joins x f e new /\ matches e h /\ fits e f (rs_maxOperation x) /\ en_finalizing e = false /\ rs_destroyed x = false /\
    (out = FragStored /\ Z.of_nat (size (en_fragments e)) + 1 < en_count e /\
     st' = advanceTickLockedV1 (setEntries x (<[fr_OperationID f := withFragment e (fr_FragmentIndex f) (storedOf f)]> (rs_entries x))
             (if new then wrap64 (rs_pendingBytes x + en_length e) else rs_pendingBytes x)) \/
     exists a, out = FragAssembled a /\ Z.of_nat (size (en_fragments e)) + 1 = en_count e /\
       assembleStrictFragmentsV1 e (fr_FragmentIndex f) (storedOf f) = Some a /\
       st' = setEntries x (<[fr_OperationID f := withFinalizing e true]> (rs_entries x)) (rs_pendingBytes x)).
Proof.
  intros HA x. unfold acceptFragment in HA. cbv zeta in HA. fold x in HA. clearbody x. destruct (_ || _) eqn:C1 in HA.
  { injection HA as <- <-. auto. }
  rewrite !orb_false_iff, !Z.ltb_ge, Z.leb_gt, !Z.eqb_neq in C1. unfold strictFragmentMaxCountV1 in C1.
  destruct (entryFor x h f) as [[e new]|] eqn:EF; [|injection HA as <- <-; auto].
  apply entryFor_spec in EF as (HJ & HM & Hc & Hl & Hnf). destruct (_ || _) eqn:C2 in HA; [injection HA as <- <-; auto|].
  rewrite !orb_false_iff in C2. destruct C2 as (((C2 & C3) & C4) & C5). apply bool_decide_eq_false in C3. apply Z.ltb_ge in C4.
  assert (HF : fits e f (rs_maxOperation x)).
  { pose proof (zlen_nonneg (fr_Fragment f)). constructor; try (repeat split; lia).
    - by apply eq_None_not_Some.
    - intros i g Hg. destruct (overlaps _ _ g) eqn:EO; [|done]. exfalso. rewrite <- not_true_iff_false in C5. apply C5, existsb_exists.
      exists (i, g). split; [|done]. by apply list_elem_of_In, elem_of_map_to_list. }
  fold (storedOf f) in HA. destruct (Z.ltb_spec (en_count e) (Z.of_nat (size (en_fragments e)) + 1)); [injection HA as <- <-; auto|].
  destruct (Z.eqb_spec (Z.of_nat (size (en_fragments e)) + 1) (en_count e)) as [En|En]; cbn [negb] in HA.
  - destruct (assembleStrictFragmentsV1 e _ _) as [a|] eqn:Ea; [|injection HA as <- <-; auto]. injection HA as <- <-. right.
    exists e, new. repeat (split; [done|]). split; [apply C1|]. right. by exists a.
  - destruct committed; injection HA as <- <-; [|auto]. right. exists e, new. repeat (split; [done|]). split; [apply C1|]. left.
    split; [done|]. split; [lia|done].
Qed.

(** ** Every step keeps the invariant *)

Lemma overlaps_sym f g : overlaps (sf_offset f) (sf_offset f + zlen (sf_data f)) g = overlaps (sf_offset g) (sf_offset g + zlen (sf_data g)) f.
Proof. unfold overlaps. apply andb_comm. Qed.

Lemma join_ok st f e new : wfr st -> typedFragment f -> joins st f e new -> fits e f (rs_maxOperation st) -> en_finalizing e = false ->
  entryOk (rs_maxOperation st) e.
Proof.
  intros HW HT HJ HF Hf. pose proof (tf_OperationLength f HT). unfold_widths. destruct new; cbn in HJ; [|by apply (wr_entries st HW (fr_OperationID f) e)].
  destruct HJ as (_ & He & _), HF as [? Hl _ _ _]. constructor; rewrite ?He, ?map_size_empty; try done; lia.
Qed.

Lemma withFragment_ok maxOperation e f : entryOk maxOperation e -> fits e f maxOperation -> typedFragment f ->
  Z.of_nat (size (en_fragments e)) + 1 < en_count e -> entryOk maxOperation (withFragment e (fr_FragmentIndex f) (storedOf f)).
Proof.
  intros HE HF HT Hs. pose proof (tf_FragmentIndex f HT). pose proof (tf_FragmentOffset f HT). unfold_widths. destruct HE, HF.
  constructor; cbn [withFragment en_count en_length en_fragments en_finalizing]; try done.
  - rewrite map_size_insert_None by done. lia.
  - intros i g [[<- <-]|[_ Hg]]%lookup_insert_Some; [cbn; lia|by apply eo_part0].
  - intros i j g g' Hne [[<- <-]|[_ Hg]]%lookup_insert_Some [[<- <-]|[_ Hg']]%lookup_insert_Some; try done.
    + by apply (ft_apart0 j).
    + rewrite overlaps_sym. by apply (ft_apart0 i).
    + by eapply eo_disjoint0.
Qed.

Lemma wfr_tick st : wfr st -> wfr (advanceTickLockedV1 st).
Proof. by intros []. Qed.

Lemma store_wfr x f e new : wfr x -> typedFragment f -> joins x f e new -> fits e f (rs_maxOperation x) -> en_finalizing e = false ->
  Z.of_nat (size (en_fragments e)) + 1 < en_count e ->
  wfr (advanceTickLockedV1 (setEntries x (<[fr_OperationID f := withFragment e (fr_FragmentIndex f) (storedOf f)]> (rs_entries x))
         (if new then wrap64 (rs_pendingBytes x + en_length e) else rs_pendingBytes x))).
Proof.
  intros HW HT HJ HF Hf Hs. apply wfr_tick. pose proof (pending_range x HW) as HP. pose proof (join_ok _ _ _ _ HW HT HJ HF Hf) as HE.
  pose proof (withFragment_ok _ _ _ HE HF HT Hs) as HE'. destruct (ft_length _ _ _ HF) as [Hl _]. pose proof (eo_length _ _ HE) as Hr.
  destruct HW. assert (new = true -> wrap64 (rs_pendingBytes x + en_length e) = rs_pendingBytes x + en_length e /\
    rs_pendingBytes x + en_length e <= rs_maxBytes x) as Hnew.
  { intros ->. cbn in HJ. destruct HJ as (_ & _ & _ & _ & Hb). rewrite <- Hl in Hb.
    assert (wrap64 (rs_pendingBytes x + en_length e) = rs_pendingBytes x + en_length e) as E; [|lia].
    apply wrap64_small. unfold_widths. lia. }
  constructor; cbn [setEntries rs_entries rs_maxOperation rs_pendingBytes rs_maxBytes]; try done.
  - by apply map_Forall_insert_2.
  - unfold strictFragmentMaxOperationsV1 in *. destruct new; cbn in HJ.
    + rewrite map_size_insert_None by apply HJ. lia.
    + by rewrite map_size_insert, HJ.
  - destruct new; cbn in HJ.
    + rewrite total_insert by apply HJ. destruct (Hnew eq_refl) as [-> _]. cbn. lia.
    + by rewrite (total_update _ _ e) by done.
  - destruct new; [|done]. destruct (Hnew eq_refl) as [-> ?]. done.
Qed.

(** Finishing an operation returns its budget or reopens it. *)
Lemma finish_wfr x f e (committed : bool) : wfr x -> rs_entries x !! fr_OperationID f = Some e -> en_length e = fr_OperationLength f ->
  wfr (finishFragment (setEntries x (<[fr_OperationID f := withFinalizing e true]> (rs_entries x)) (rs_pendingBytes x))
         (fr_OperationID f) (fr_OperationLength f) committed).
Proof.
  intros HW He Hl. pose proof (pending_range x HW) as HP. destruct HW. pose proof (wr_entries0 _ _ He) as HE. cbv beta in HE.
  assert (Hopen : withFinalizing (withFinalizing e true) false = e). { destruct e, HE. cbn in eo_open0. by subst. }
  destruct committed; cbn [finishFragment setEntries rs_entries rs_pendingBytes].
  - apply wfr_tick. rewrite delete_insert_eq. pose proof (total_delete _ _ _ He) as HT.
    assert (0 <= totalLength (delete (fr_OperationID f) (rs_entries x))) as H0.
    { eapply total_nonneg, entries_nonneg. by apply map_Forall_delete. }
    assert (wrap64 (rs_pendingBytes x - fr_OperationLength f) = totalLength (delete (fr_OperationID f) (rs_entries x))) as Hw.
    { rewrite wrap64_small; [lia|]. pose proof (eo_length _ _ HE). unfold_widths. lia. }
    constructor; cbn [setEntries rs_entries rs_maxOperation rs_pendingBytes rs_maxBytes]; try done.
    + by apply map_Forall_delete.
    + etrans; [|exact wr_size0]. apply inj_le, map_subseteq_size, delete_subseteq.
    + rewrite Hw. pose proof (eo_length _ _ HE). lia.
  - rewrite lookup_insert_eq, Hopen, insert_insert_eq, (insert_id _ _ e He).
    constructor; cbn [setEntries rs_entries rs_maxOperation rs_pendingBytes rs_maxBytes]; done.
Qed.

Lemma complete_not_new x f e new : joins x f e new -> 2 <= en_count e -> Z.of_nat (size (en_fragments e)) + 1 = en_count e ->
  rs_entries x !! fr_OperationID f = Some e.
Proof. intros HJ Hc Hs. destruct new; [|done]. destruct HJ as (_ & He & _). rewrite He, map_size_empty in Hs. lia. Qed.

Lemma multi_good st h f committed interrupted : goodr st -> typedFragment f ->
  goodr (fst (acceptMultiFragmentV1 st h f committed interrupted)).
Proof.
  intros HG HT. unfold acceptMultiFragmentV1. destruct (acceptFragment st h f committed) as [st' out] eqn:EA.
  destruct (accept_cases _ _ _ _ _ _ EA) as [[-> Ho]|(e & new & HJ & HM & HF & Hf & HD & Hcase)].
  - assert (goodr (expireReassembly st)). { destruct HG as [[HD He]|[HD HW]]; [left|right].
      - split; [done|]. cbn. by rewrite He, map_filter_empty.
      - split; [done|]. by apply expireReassembly_spec. }
    by destruct Ho as [-> | ->].
  - destruct HG as [[HD' _]|[HD' HW]]; [cbn in HD; congruence|]. apply expireReassembly_spec in HW as [HW _].
    destruct Hcase as [(-> & Hs & ->)|(a & -> & Hs & Ha & ->)].
    + right. split; [done|]. by apply store_wfr.
    + assert (He : rs_entries (expireReassembly st) !! fr_OperationID f = Some e).
      { eapply complete_not_new; [done| |done]. pose proof (ft_count _ _ _ HF). lia. }
      cbn [fst]. destruct interrupted.
      * left. destruct committed; cbn; [by rewrite delete_empty|]. by rewrite lookup_empty.
      * right. destruct (ft_length _ _ _ HF) as [Hl _]. split; [|by eapply finish_wfr].
        destruct committed; cbn [finishFragment setEntries rs_entries]; [done|]. rewrite lookup_insert_eq. done.
Qed.

(** ** Runs of the buffer *)

Inductive frag_op :=
  | OpFragment (h : ApplicationHeaderV1) (f : ApplicationFragmentV1) (committed interrupted : bool)
  | OpTeardown.

Definition fragStep (st : strictFragmentReassemblyV1) (op : frag_op) : strictFragmentReassemblyV1 * fragment_out :=
  match op with
  | OpFragment h f committed interrupted => acceptMultiFragmentV1 st h f committed interrupted
  | OpTeardown => (destroyReassembly st, FragRefused)
  end.

(** Fragments come out of [parseApplicationBodyV1]. *)
Definition typedFragOp (op : frag_op) : Prop := match op with OpFragment _ f _ _ => typedFragment f | OpTeardown => True end.

(** The fragments a run stored. *)
Fixpoint storedBy (ops : list frag_op) (outs : list fragment_out) : list (ApplicationHeaderV1 * ApplicationFragmentV1) :=
  match ops, outs with
  | OpFragment h f _ _ :: ops, FragStored :: outs => (h, f) :: storedBy ops outs
  | _ :: ops, _ :: outs => storedBy ops outs
  | _, _ => []
  end.

Definition asPart (f : ApplicationFragmentV1) : part := (fr_FragmentIndex f, storedOf f).

(** Two fragments of the same operation on the same stream. *)
Definition sameOperation (p q : ApplicationHeaderV1 * ApplicationFragmentV1) : Prop :=
  fr_OperationID (snd p) = fr_OperationID (snd q) /\ ah_StreamSlot (fst p) = ah_StreamSlot (fst q) /\
  ah_Direction (fst p) = ah_Direction (fst q) /\ ah_Epoch (fst p) = ah_Epoch (fst q) /\
  fr_FragmentCount (snd p) = fr_FragmentCount (snd q) /\ fr_OperationLength (snd p) = fr_OperationLength (snd q).

Definition belongs (id : bytes) (e : strictFragmentEntryV1) (p : ApplicationHeaderV1 * ApplicationFragmentV1) : Prop :=
  fr_OperationID (snd p) = id /\ matches e (fst p) /\ en_count e = fr_FragmentCount (snd p) /\ en_length e = fr_OperationLength (snd p).

(** Every stored part is a fragment of its operation that was stored. *)
Definition traced (H : list (ApplicationHeaderV1 * ApplicationFragmentV1)) (st : strictFragmentReassemblyV1) : Prop :=
  forall id e i g, rs_entries st !! id = Some e -> en_fragments e !! i = Some g ->
    exists p, p ∈ H /\ belongs id e p /\ (i, g) = asPart (snd p).

Lemma traced_sub H H' st st' : traced H st -> H ⊆ H' -> rs_entries st' ⊆ rs_entries st -> traced H' st'.
Proof.
  intros HT HH HS id e i g He Hg. destruct (HT id e i g) as (p & Hp & Hb); [by eapply lookup_weaken|done|]. exists p. auto.
Qed.

Lemma expire_sub st : rs_entries (expireReassembly st) ⊆ rs_entries st.
Proof. apply map_filter_subseteq. Qed.

Lemma joins_traced H x f e new h : traced H x -> joins x f e new -> matches e h -> fits e f (rs_maxOperation x) ->
  forall i g, en_fragments e !! i = Some g -> exists p, p ∈ H /\ belongs (fr_OperationID f) e p /\ (i, g) = asPart (snd p).
Proof.
  intros HT HJ HM HF i g Hg. destruct new; cbn in HJ; [|by eapply HT]. destruct HJ as (_ & He & _). by rewrite He in Hg.
Qed.

Lemma multi_traced H st h f committed interrupted : traced H st ->
  let '(st', out) := acceptMultiFragmentV1 st h f committed interrupted in
  traced (match out with FragStored => (h, f) :: H | _ => H end) st'.
Proof.
  intros HT. unfold acceptMultiFragmentV1. destruct (acceptFragment st h f committed) as [st' out] eqn:EA.
  assert (HX : traced H (expireReassembly st)) by (eapply traced_sub; [exact HT|done|apply expire_sub]).
  destruct (accept_cases _ _ _ _ _ _ EA) as [[-> [-> | ->]]|(e & new & HJ & HM & HF & Hf & HD & Hcase)]; [done|done|].
  destruct Hcase as [(-> & Hs & ->)|(a & -> & Hs & Ha & ->)].
  - intros id e' i g. cbn [advanceTickLockedV1 setEntries rs_entries].
    intros [[<- <-]|[_ He]]%lookup_insert_Some Hg.
    + destruct (ft_count _ _ _ HF) as [Hc _], (ft_length _ _ _ HF) as [Hl _].
      cbn [withFragment en_fragments] in Hg. apply lookup_insert_Some in Hg as [[<- <-]|[_ Hg]]; [exists (h, f); split; [by left|done]|].
      destruct (joins_traced H _ f e new h HX HJ HM HF i g Hg) as (p & Hp & Hb). exists p. split; [by right|done].
    + destruct (HX id e' i g He Hg) as (p & Hp & Hb). exists p. split; [by right|done].
  - assert (He : rs_entries (expireReassembly st) !! fr_OperationID f = Some e).
    { eapply complete_not_new; [done| |done]. pose proof (ft_count _ _ _ HF). lia. }
    assert (Hopen : withFinalizing (withFinalizing e true) false = e) by (destruct e; cbn in Hf; by subst).
    destruct interrupted, committed; cbn [finishFragment destroyReassembly setEntries advanceTickLockedV1 rs_entries].
    + intros id e' i g. cbn. by rewrite delete_empty, lookup_empty.
    + rewrite lookup_empty. intros id e' i g. cbn. by rewrite lookup_empty.
    + eapply traced_sub; [exact HX|done|]. cbn. rewrite delete_insert_eq. apply delete_subseteq.
    + rewrite lookup_insert_eq, Hopen, insert_insert_eq, (insert_id _ _ e He). exact HX.
Qed.

Lemma run_traced ops : forall H st, goodr st -> traced H st -> Forall typedFragOp ops ->
  goodr (fst (run fragStep st ops)) /\ traced (storedBy ops (outputs fragStep st ops) ++ H) (fst (run fragStep st ops)).
Proof.
  induction ops as [|op ops IH]; intros H st HG HT HO; [done|]. apply Forall_cons in HO as [Hop HO]. rewrite outputs_cons. cbn [run].
  destruct op as [h f committed interrupted|]; cbn [fragStep].
  - pose proof (multi_good st h f committed interrupted HG Hop) as HG'. pose proof (multi_traced H st h f committed interrupted HT) as HT'.
    destruct (acceptMultiFragmentV1 st h f committed interrupted) as [st' out]. cbn [fst snd] in *.
    destruct (IH _ st' HG' HT' HO) as [HG2 HT2]. destruct (run fragStep st' ops) as [st2 outs] eqn:ER. cbn [fst] in *.
    split; [done|]. eapply traced_sub; [exact HT2| |done]. destruct out; cbn [storedBy]; intros p Hp; [done| |done|done].
    rewrite elem_of_app, elem_of_cons in *. destruct Hp as [?|[?|?]]; [left; by right|left; by left|by right].
  - cbn [fst snd storedBy]. destruct (IH H (destroyReassembly st)) as [HG2 HT2]; [by left| |done|].
    { intros id e i g. cbn. by rewrite lookup_empty. }
    destruct (run fragStep (destroyReassembly st) ops) as [st2 outs] eqn:ER. cbn [fst] in *. done.
Qed.

Lemma new_good max : u32 max -> goodr (newReassembly max) /\ traced [] (newReassembly max).
Proof.
  intros Hm. split; [|intros id e i g; cbn; by rewrite lookup_empty]. right. split; [done|].
  assert (wrap64 (max * strictFragmentMaxOperationsV1) = 8 * max) as E.
  { unfold strictFragmentMaxOperationsV1. rewrite wrap64_small; [lia|]. unfold_widths. lia. }
  constructor; cbn [newReassembly rs_entries rs_pendingBytes rs_maxBytes rs_maxOperation]; rewrite ?E.
  - by intros id e He%lookup_empty_Some.
  - rewrite map_size_empty. done.
  - done.
  - unfold_widths. lia.
  - done.
Qed.

(** ** Memory *)

Definition storedBytes (m : gmap Z strictStoredFragmentV1) : Z := map_fold (fun _ f acc => acc + zlen (sf_data f)) 0 m.
Definition heldBytes (m : gmap bytes strictFragmentEntryV1) : Z := map_fold (fun _ e acc => acc + storedBytes (en_fragments e)) 0 m.

Definition spanOf (f : strictStoredFragmentV1) : list Z := seqZ (sf_offset f) (zlen (sf_data f)).

Lemma stored_insert m i f : m !! i = None -> storedBytes (<[i := f]> m) = storedBytes m + zlen (sf_data f).
Proof. intros Hm. unfold storedBytes. rewrite map_fold_insert_L; [done| |done]. intros; lia. Qed.

Lemma held_insert m id e : m !! id = None -> heldBytes (<[id := e]> m) = heldBytes m + storedBytes (en_fragments e).
Proof. intros Hm. unfold heldBytes. rewrite map_fold_insert_L; [done| |done]. intros; lia. Qed.

(** Parts that do not overlap cover as many positions as they have bytes. *)
Lemma parts_cover (m : gmap Z strictStoredFragmentV1) :
  (forall i j f g, i <> j -> m !! i = Some f -> m !! j = Some g -> overlaps (sf_offset f) (sf_offset f + zlen (sf_data f)) g = false) ->
  exists ps, NoDup ps /\ zlen ps = storedBytes m /\ forall z, z ∈ ps <-> exists i f, m !! i = Some f /\ z ∈ spanOf f.
Proof.
  induction m as [|i f m Hi IH] using map_ind; intros HD.
  { exists []. split; [constructor|]. split; [done|]. intros z. rewrite elem_of_nil. split; [done|]. intros (? & ? & ? & _). done. }
  destruct IH as (ps & HN & Hl & Hps).
  { intros j k g g' Hne Hg Hg'. apply (HD j k g g' Hne); rewrite lookup_insert_ne; try done; congruence. }
  exists (ps ++ spanOf f). split; [|split].
  - apply NoDup_app. split; [done|]. split; [|apply NoDup_seqZ]. intros z (j & g & Hg & Hz)%Hps Hz'.
    assert (i <> j) by congruence. specialize (HD i j f g H).
    rewrite lookup_insert_eq, lookup_insert_ne in HD by done. specialize (HD eq_refl Hg). unfold overlaps in HD.
    unfold spanOf in *. rewrite elem_of_seqZ in *. apply andb_false_iff in HD as [HD|HD]; apply Z.ltb_ge in HD; lia.
  - rewrite zlen_app, Hl, stored_insert by done. f_equal. unfold spanOf, zlen. rewrite length_seqZ. lia.
  - intros z. rewrite elem_of_app, Hps. split.
    + intros [(j & g & Hg & Hz)|Hz]; [|exists i, f; by rewrite lookup_insert_eq]. exists j, g.
      rewrite lookup_insert_ne by congruence. done.
    + intros (j & g & [[<- <-]|[_ Hg]]%lookup_insert_Some & Hz); [by right|]. left. eauto.
Qed.

Lemma stored_le max e : entryOk max e -> storedBytes (en_fragments e) <= en_length e.
Proof.
  intros HE. destruct (parts_cover _ (eo_disjoint _ _ HE)) as (ps & HN & <- & Hps).
  assert (ps ⊆ seqZ 0 (en_length e)) as HS.
  { intros z (i & f & Hf & Hz)%Hps. pose proof (eo_part _ _ HE i f Hf) as HP. unfold spanOf in Hz. rewrite elem_of_seqZ in *. lia. }
  pose proof (submseteq_length _ _ (NoDup_submseteq _ _ HN HS)) as Hlen. rewrite length_seqZ in Hlen.
  pose proof (eo_length _ _ HE). unfold zlen. lia.
Qed.

Lemma held_le max m : map_Forall (fun _ e => entryOk max e) m -> heldBytes m <= totalLength m.
Proof.
  induction m as [|id e m Hm IH] using map_ind; [done|]. intros [He HF]%map_Forall_insert; [|done].
  rewrite held_insert, total_insert by done. pose proof (stored_le _ _ He). specialize (IH HF). lia.
Qed.

(** The limits of a buffer never change. *)
Lemma run_limits max ops : Forall typedFragOp ops ->
  let st := fst (run fragStep (newReassembly max) ops) in
  rs_maxOperation st = max /\ rs_maxBytes st = rs_maxBytes (newReassembly max) /\ rs_tickStep st = 1.
Proof.
  intros HO. apply (run_invariant (fun st => rs_maxOperation st = max /\ rs_maxBytes st = rs_maxBytes (newReassembly max) /\ rs_tickStep st = 1) typedFragOp); [|done|done].
  intros s op Hs Hop. destruct op as [h f c i|]; [|done]. cbn [fragStep]. unfold acceptMultiFragmentV1.
  destruct (acceptFragment s h f c) as [s' out] eqn:EA.
  assert (rs_maxOperation s' = max /\ rs_maxBytes s' = rs_maxBytes (newReassembly max) /\ rs_tickStep s' = 1) as Hs'.
  { destruct (accept_cases _ _ _ _ _ _ EA) as [[-> _]|(e & new & _ & _ & _ & _ & _ & [(_ & _ & ->)|(a & _ & _ & _ & ->)])]; done. }
  destruct out; try done. cbn [fst]. destruct i, c; unfold finishFragment; try done; by case_match.
Qed.

(** ** The theorems *)

(** C33: whatever fragments arrive, in whatever order, with commits that succeed or
    fail and a teardown at any moment, the reassembly buffer never tracks more
    than eight operations, and the bytes it holds never exceed the bytes it has
    reserved, which never exceed eight times the largest operation. *)
Theorem reassembly_bounded max ops : u32 max -> Forall typedFragOp ops ->
  let st := fst (run fragStep (newReassembly max) ops) in
  Z.of_nat (size (rs_entries st)) <= 8 /\ heldBytes (rs_entries st) <= 8 * max /\
  (rs_destroyed st = true -> rs_entries st = ∅) /\
  (rs_destroyed st = false -> heldBytes (rs_entries st) <= rs_pendingBytes st <= 8 * max).
Proof.
  intros Hm HO st. destruct (new_good max Hm) as [HG HT]. destruct (run_traced ops [] _ HG HT HO) as [HGs _]. fold st in HGs.
  destruct (run_limits max ops HO) as (HBo & HBm & _). fold st in HBo, HBm.
  destruct HGs as [[HD He]|[HD HW]].
  - rewrite He, HD. unfold heldBytes. rewrite map_fold_empty, map_size_empty. unfold_widths. repeat split; try done; lia.
  - pose proof (held_le _ _ (wr_entries _ HW)) as Hh. rewrite <- (wr_pending _ HW) in Hh. pose proof (wr_budget _ HW) as Hb.
    destruct (wr_max _ HW) as [_ Hx]. rewrite HBo in Hx. pose proof (wr_size _ HW) as Hs. unfold strictFragmentMaxOperationsV1 in Hs.
    rewrite HD. repeat split; try done; lia.
Qed.

Lemma Forall_pick {A B} (P : A -> B -> Prop) l : Forall (fun a => exists b, P a b) l -> exists k, Forall2 P l k.
Proof.
  induction 1 as [|a l [b Hb] _ (k & Hk)]; [by exists []|]. exists (b :: k). by constructor.
Qed.

Lemma indices_full (l : list Z) n : NoDup l -> (forall i, i ∈ l -> 0 <= i < n) -> zlen l = n -> l ≡ₚ seqZ 0 n.
Proof.
  intros HN HR Hl. apply submseteq_length_Permutation; [|rewrite length_seqZ; unfold zlen in Hl; lia].
  apply NoDup_submseteq; [done|]. intros i Hi. apply elem_of_seqZ. specialize (HR i Hi). lia.
Qed.

(** C32: an operation the buffer hands out is made of fragments that all belong to
    it: each was authenticated and stored before, or is the one that completes
    it; all carry the same operation id, stream slot, direction, epoch, count and
    length; every index from 0 to the count occurs exactly once; and the bytes are
    the fragments' bytes one after the other, without gap or overlap. *)
Theorem reassembly_sound max ops h f committed interrupted out :
  u32 max -> Forall typedFragOp ops -> typedFragment f ->
  snd (fragStep (fst (run fragStep (newReassembly max) ops)) (OpFragment h f committed interrupted)) = FragAssembled out ->
  exists parts : list (ApplicationHeaderV1 * ApplicationFragmentV1),
    Forall (fun p => (p = (h, f) \/ p ∈ storedBy ops (outputs fragStep (newReassembly max) ops)) /\ sameOperation p (h, f)) parts /\
    (fr_FragmentIndex ∘ snd <$> parts) ≡ₚ seqZ 0 (fr_FragmentCount f) /\
    consecutive 0 (asPart ∘ snd <$> parts) /\ out = concat (fr_Fragment ∘ snd <$> parts) /\ zlen out = fr_OperationLength f.
Proof.
  intros Hm HO HT Hout. destruct (new_good max Hm) as [HG HTr]. destruct (run_traced ops [] _ HG HTr HO) as [HGs HTs].
  rewrite app_nil_r in HTs. set (st := fst (run fragStep (newReassembly max) ops)) in *. set (H := storedBy _ _) in *. clearbody st H.
  cbn [fragStep] in Hout. unfold acceptMultiFragmentV1 in Hout. destruct (acceptFragment st h f committed) as [st' o] eqn:EA.
  assert (HX : traced H (expireReassembly st)) by (eapply traced_sub; [exact HTs|done|apply expire_sub]).
  destruct (accept_cases _ _ _ _ _ _ EA) as [[-> [-> | ->]]|(e & new & HJ & HM & HF & Hf & HD & Hcase)]; [done|done|].
  destruct Hcase as [(-> & _)|(a & -> & Hs & Ha & ->)]; [done|]. cbn [snd] in Hout.
  assert (a = out) as -> by (destruct committed; congruence).
  destruct HGs as [[HD' _]|[_ HW]]; [cbn in HD; congruence|]. apply expireReassembly_spec in HW as [HW _].
  pose proof (join_ok _ _ _ _ HW HT HJ HF Hf) as HE. destruct (ft_count _ _ _ HF) as [Hc Hc'], (ft_length _ _ _ HF) as [Hl _].
  apply assemble_spec in Ha as (parts & HP & _ & HC & -> & Hz & _); [|pose proof (eo_length _ _ HE); lia|apply HF].
  destruct (Forall_pick (fun (q : part) p => q = asPart (snd p) /\ (p = (h, f) \/ p ∈ H) /\ sameOperation p (h, f)) parts) as (ps & Hps).
  { apply Forall_forall. intros [i g] Hq. rewrite HP in Hq. unfold allParts in Hq. apply elem_of_app in Hq as [Hq|Hq].
    - apply elem_of_map_to_list in Hq. destruct (joins_traced H _ f e new h HX HJ HM HF i g Hq) as (p & Hp & (Hid & Hpm & Hpc & Hpl) & Hpa).
      exists p. split; [done|]. split; [by right|]. unfold sameOperation, matches in *. cbn. repeat split; try done; intuition congruence.
    - apply list_elem_of_singleton in Hq. exists (h, f). split; [done|]. split; [by left|done]. }
  assert (Ep : parts = asPart ∘ snd <$> ps). { clear -Hps. induction Hps as [|q p l k [-> _] _ IH]; [done|]. cbn. by f_equal. }
  exists ps. split; [|split; [|split; [|split]]].
  - clear -Hps. induction Hps as [|q p l k (_ & ? & ?) _ IH]; constructor; auto.
  - assert (fr_FragmentIndex ∘ snd <$> ps = fst <$> parts) as ->. { rewrite Ep, <- list_fmap_compose. done. }
    apply indices_full.
    + rewrite HP. unfold allParts. rewrite fmap_app. apply NoDup_app. split; [apply NoDup_fst_map_to_list|]. split; [|apply NoDup_singleton].
      intros j ([j' g] & -> & Hg%elem_of_map_to_list)%list_elem_of_fmap Hj%list_elem_of_singleton. cbn in Hj. subst. rewrite (ft_new _ _ _ HF) in Hg. done.
    + intros j. rewrite HP. unfold allParts. rewrite fmap_app, elem_of_app, list_elem_of_fmap.
      intros [([j' g] & -> & Hg%elem_of_map_to_list)|Hj%list_elem_of_singleton].
      * rewrite <- Hc. apply (eo_part _ _ HE j' g Hg).
      * cbn in Hj. subst j. pose proof (tf_FragmentIndex f HT). unfold_widths. lia.
    + unfold zlen. rewrite length_fmap, (Permutation_length HP). unfold allParts. rewrite length_app, length_map_to_list. cbn. lia.
  - by rewrite <- Ep.
  - rewrite Ep. unfold dataOf. by rewrite <- list_fmap_compose.
  - lia.
Qed.

(** ** The fragments of an operation *)

Definition positive (parts : list part) : Prop := Forall (fun p => 0 < zlen (sf_data (snd p))) parts.

Lemma consecutive_after start parts : consecutive start parts -> positive parts ->
  forall p, p ∈ parts -> start <= sf_offset (snd p).
Proof.
  revert start. induction parts as [|q parts IH]; intros start HC HP p; [by intros ?%elem_of_nil|].
  destruct HC as [E HC]. apply Forall_cons in HP as [Hq HP]. intros [->|Hp]%elem_of_cons; [lia|].
  specialize (IH _ HC HP p Hp). lia.
Qed.

Lemma consecutive_sorted start parts : consecutive start parts -> positive parts ->
  StronglySorted (fun p q => sf_offset (snd p) + zlen (sf_data (snd p)) <= sf_offset (snd q)) parts.
Proof.
  revert start. induction parts as [|q parts IH]; intros start HC HP; [constructor|].
  destruct HC as [E HC]. apply Forall_cons in HP as [Hq HP]. constructor; [by eapply IH|].
  apply Forall_forall. intros p Hp. pose proof (consecutive_after _ _ HC HP p Hp). lia.
Qed.

Lemma sorted_pairs {A} (R : A -> A -> Prop) l x y : StronglySorted R l -> x ∈ l -> y ∈ l -> x = y \/ R x y \/ R y x.
Proof.
  induction 1 as [|a l _ IH HF]; intros Hx Hy; [by apply elem_of_nil in Hx|]. rewrite Forall_forall in HF.
  apply elem_of_cons in Hx as [->|Hx], Hy as [->|Hy]; auto.
Qed.

(** Different parts of a consecutive list do not overlap. *)
Lemma consecutive_apart start parts p q : consecutive start parts -> positive parts -> p ∈ parts -> q ∈ parts -> p <> q ->
  overlaps (sf_offset (snd p)) (sf_offset (snd p) + zlen (sf_data (snd p))) (snd q) = false /\ sf_offset (snd p) <> sf_offset (snd q).
Proof.
  intros HC HP Hp Hq Hne. pose proof (consecutive_sorted _ _ HC HP) as HS. unfold positive in HP. rewrite Forall_forall in HP.
  pose proof (HP p Hp). pose proof (HP q Hq). cbv beta in *. unfold overlaps. rewrite andb_false_iff, !Z.ltb_ge.
  destruct (sorted_pairs _ _ p q HS Hp Hq) as [?|[?|?]]; [done|lia|lia].
Qed.

(** Sorting any permutation of consecutive parts puts them in order. *)
Lemma sort_consecutive start parts l : consecutive start parts -> positive parts -> l ≡ₚ parts -> SliceStable offsetLess l = parts.
Proof.
  intros HC HP HPm. apply (StronglySorted_unique_strong (fun p q => sf_offset (snd p) <= sf_offset (snd q))).
  - intros p q Hp Hq H1 H2. rewrite SliceStable_perm, HPm in Hp. destruct (decide (sf_offset (snd p) = sf_offset (snd q))) as [E|]; [|lia].
    destruct (Z.eq_dec (fst p) (fst q)) as [Ef|Ef].
    + pose proof (consecutive_sorted _ _ HC HP) as HS. unfold positive in HP. rewrite Forall_forall in HP. pose proof (HP p Hp). pose proof (HP q Hq).
      cbv beta in *. destruct (sorted_pairs _ _ p q HS Hp Hq) as [?|[?|?]]; [done|lia|lia].
    + destruct (consecutive_apart _ _ p q HC HP Hp Hq) as [_ ?]; [congruence|done].
  - apply SliceStable_sorted; [intros a b c; lia| |]; unfold offsetLess; intros a b; [rewrite Z.ltb_lt|rewrite Z.ltb_ge]; lia.
  - pose proof (consecutive_sorted _ _ HC HP) as HS. unfold positive in HP. clear -HS HP. induction HS as [|p l _ IH HF]; constructor.
    + apply IH. by apply Forall_cons in HP as [_ ?].
    + apply Forall_cons in HP as [Hp _]. eapply Forall_impl; [exact HF|]. cbv beta. intros q Hq. lia.
  - by rewrite SliceStable_perm.
Qed.

Definition sumZ' (l : list Z) : Z := foldr Z.add 0 l.

Lemma sumLengths_exact lengths : forall acc, 0 <= acc -> Forall (fun n => 0 < n < 2 ^ 32) lengths -> zlen lengths <= 16 -> acc <= 2 ^ 40 ->
  foldl (fun total n => wrap64 (total + n)) acc lengths = acc + sumZ' lengths.
Proof.
  assert (HG : forall lengths acc k, 0 <= acc -> Forall (fun n => 0 < n < 2 ^ 32) lengths -> zlen lengths <= k -> acc + k * 2 ^ 32 <= 2 ^ 60 ->
    foldl (fun total n => wrap64 (total + n)) acc lengths = acc + sumZ' lengths).
  { clear. induction lengths as [|n lengths IH]; intros acc k Ha HF Hk Hb; [cbn; lia|]. apply Forall_cons in HF as [Hn HF].
    rewrite zlen_cons in Hk. pose proof (zlen_nonneg lengths). cbn [foldl sumZ' foldr]. fold (sumZ' lengths).
    rewrite wrap64_small by (unfold_widths; lia). rewrite (IH _ (k - 1)); try done; lia. }
  intros acc Ha HF Hl Hb. apply (HG lengths acc 16); try done. lia.
Qed.

(** What [cutFragments] produces. *)
Lemma cut_spec id p count h lengths : zlen p < 2 ^ 32 -> zlen id = 32 -> 0 <= count < 2 ^ 16 ->
  forall index offset, 0 <= index -> index + zlen lengths <= count -> 0 <= offset -> Forall (fun n => 0 < n) lengths ->
  offset + sumZ' lengths <= zlen p ->
  let l := cutFragments id p count index offset lengths in
  consecutive offset (asPart <$> l) /\ positive (asPart <$> l) /\ dataOf (asPart <$> l) = slice offset (offset + sumZ' lengths) p /\
  fst <$> (asPart <$> l) = seqZ index (zlen lengths) /\
  Forall (fun f => typedFragment f /\ sameOperation (h, f) (h, mkFragment id 0 count (zlen p) 0 []) /\
    fr_FragmentOffset f + zlen (fr_Fragment f) <= offset + sumZ' lengths) l.
Proof.
  intros Hp Hid Hc. induction lengths as [|n lengths IH]; intros index offset Hi Hic Ho HF Hs.
  { cbn. rewrite Z.add_0_r. repeat split; try constructor. unfold slice, dataOf. by rewrite Z.sub_diag. }
  apply Forall_cons in HF as [Hn HF]. rewrite zlen_cons in Hic. cbn [sumZ' foldr] in Hs. fold (sumZ' lengths) in Hs.
  pose proof (zlen_nonneg lengths). assert (Hsum : 0 <= sumZ' lengths).
  { clear -HF. induction HF as [|? ? ? ? IH]; cbn; [lia|]. fold (sumZ' l) in *. lia. }
  assert (wrap16 index = index) as Ei by (apply wrap16_small; unfold_widths; lia).
  assert (wrap16 count = count) as Ec by (apply wrap16_small; unfold_widths; lia).
  assert (wrap32 (zlen p) = zlen p) as Ep by (apply wrap32_small; unfold_widths; pose proof (zlen_nonneg p); lia).
  assert (Hl : zlen (slice offset (offset + n) p) = n) by (rewrite zlen_slice; lia).
  assert (wrap32 (offset + n) = offset + n) as Eoff by (apply wrap32_small; unfold_widths; lia).
  destruct (IH (index + 1) (offset + n)) as (HC & HP & HD & HI & HO); [lia|lia|lia|done|lia|].
  cbn [cutFragments]. rewrite Ei, Ec, Ep, Eoff. cbn [fmap list_fmap]. fold (list_fmap _ _ asPart). cbv zeta.
  cbn [sumZ' foldr]. fold (sumZ' lengths). repeat split.
  - cbn. by rewrite Hl.
  - constructor; [cbn; lia|exact HP].
  - rewrite dataOf_cons. cbn [asPart snd storedOf sf_data fr_Fragment]. change (list_fmap _ _ asPart ?l) with (asPart <$> l).
    rewrite HD, slice_cat by lia. f_equal. lia.
  - rewrite zlen_cons. rewrite seqZ_cons by lia. cbn [asPart fst fr_FragmentIndex]. f_equal. etrans; [exact HI|]. f_equal; lia.
  - constructor.
    + split; [|split].
      * constructor; cbn; try done; unfold_widths; pose proof (zlen_nonneg p); lia.
      * done.
      * cbn. rewrite Hl. lia.
    + eapply Forall_impl; [exact HO|]. intros f (? & ? & ?). split; [done|]. split; [done|]. lia.
Qed.

(** A fragment that fits is stored, or completes its operation. *)
Lemma accept_forward st h f e new : let x := expireReassembly st in
  rs_destroyed x = false -> entryFor x h f = Some (e, new) -> fits e f (rs_maxOperation x) -> en_finalizing e = false ->
  Z.of_nat (size (en_fragments e)) + 1 <= en_count e ->
  acceptFragment st h f true =
    if Z.of_nat (size (en_fragments e)) + 1 =? en_count e then
      match assembleStrictFragmentsV1 e (fr_FragmentIndex f) (storedOf f) with
      | None => (x, FragRefused)
      | Some a => (setEntries x (<[fr_OperationID f := withFinalizing e true]> (rs_entries x)) (rs_pendingBytes x), FragAssembled a)
      end
    else (advanceTickLockedV1 (setEntries x (<[fr_OperationID f := withFragment e (fr_FragmentIndex f) (storedOf f)]> (rs_entries x))
            (if new then wrap64 (rs_pendingBytes x + en_length e) else rs_pendingBytes x)), FragStored).
Proof.
  intros x HD HE HF Hf Hs. unfold acceptFragment. cbv zeta. fold x. clearbody x. destruct HF as [[Hc [Hc2 Hci]] [Hl [Hl0 Hlm]] [Hd Hde] Hnew Hap].
  rewrite HD, HE, Hf, Hnew. fold (storedOf f). unfold strictFragmentMaxCountV1.
  destruct (Z.ltb_spec (fr_FragmentCount f) 2); [lia|]. destruct (Z.ltb_spec 16 (fr_FragmentCount f)); [lia|].
  destruct (Z.leb_spec (fr_FragmentCount f) (fr_FragmentIndex f)); [lia|]. destruct (Z.eqb_spec (fr_OperationLength f) 0); [done|].
  destruct (Z.ltb_spec (rs_maxOperation x) (fr_OperationLength f)); [lia|]. destruct (Z.eqb_spec (zlen (fr_Fragment f)) 0); [lia|].
  cbn [orb]. rewrite bool_decide_eq_false_2 by (by intros [? ?]).
  destruct (Z.ltb_spec (fr_OperationLength f) (fr_FragmentOffset f + zlen (fr_Fragment f))); [lia|].
  destruct (existsb _ _) eqn:EX.
  { apply existsb_exists in EX as ([i g] & Hg%list_elem_of_In%elem_of_map_to_list & HO). cbn in HO. rewrite (Hap i g Hg) in HO. done. }
  destruct (Z.ltb_spec (en_count e) (Z.of_nat (size (en_fragments e)) + 1)); [lia|]. cbn [orb negb].
  by destruct (_ =? en_count e).
Qed.

(** There is room for an operation of [n] bytes. *)
Record roomFor (st : strictFragmentReassemblyV1) (id : bytes) (n : Z) : Prop := {
  rf_live : rs_destroyed st = false;
  rf_absent : rs_entries st !! id = None;
  rf_slots : Z.of_nat (size (rs_entries st)) < 8;
  rf_bytes : rs_pendingBytes st + n <= rs_maxBytes st;
}.

Section delivery.
Context (h : ApplicationHeaderV1) (id p : bytes) (frags : list ApplicationFragmentV1) (count tick max : Z).
Context (frags_consecutive : consecutive 0 (asPart <$> frags)) (frags_positive : positive (asPart <$> frags)).
Context (frags_indices : fst <$> (asPart <$> frags) = seqZ 0 count) (frags_data : dataOf (asPart <$> frags) = p).
Context (frags_fields : Forall (fun f => typedFragment f /\ fr_OperationID f = id /\ fr_FragmentCount f = count /\
  fr_OperationLength f = zlen p /\ fr_FragmentOffset f + zlen (fr_Fragment f) <= zlen p) frags).
Context (count_range : 2 <= count <= 16) (length_range : 1 <= zlen p <= max).

(** The buffer when the fragments [acc] of the operation have been stored. *)
Record holding (st : strictFragmentReassemblyV1) (acc : list ApplicationFragmentV1) (e : strictFragmentEntryV1) : Prop := {
  hd_live : rs_destroyed st = false;
  hd_entry : rs_entries st !! id = Some e;
  hd_fields : matches e h /\ en_count e = count /\ en_length e = zlen p /\ en_createdTick e = tick /\ en_finalizing e = false;
  hd_parts : en_fragments e = list_to_map (asPart <$> acc);
  hd_tick : rs_tick st = wrap64 (tick + zlen acc) /\ rs_tickStep st = 1;
  hd_max : rs_maxOperation st = max;
}.

Lemma frags_NoDup : NoDup (asPart <$> frags).
Proof using frags_indices. apply (NoDup_fmap_1 fst). rewrite frags_indices. apply NoDup_seqZ. Qed.

Lemma part_in f : f ∈ frags -> asPart f ∈ asPart <$> frags.
Proof using Type. intros Hf. apply list_elem_of_fmap. eauto. Qed.

(** An arrival order: some fragments are stored, one arrives, the rest follow. *)
Context (acc rest : list ApplicationFragmentV1) (f : ApplicationFragmentV1) (arrival : acc ++ f :: rest ≡ₚ frags).

Lemma arrival_in g : g ∈ acc ++ f :: rest -> g ∈ frags.
Proof using arrival. by rewrite arrival. Qed.

Lemma arrival_indices : NoDup (fst <$> (asPart <$> (acc ++ f :: rest))).
Proof using arrival frags_indices. rewrite arrival, frags_indices. apply NoDup_seqZ. Qed.

Lemma arrival_length : zlen acc + 1 + zlen rest = count.
Proof using arrival frags_indices count_range.
  pose proof (f_equal length frags_indices) as HL. rewrite length_seqZ, !length_fmap in HL. apply Permutation_length in arrival.
  rewrite length_app in arrival. cbn in arrival. unfold zlen. lia.
Qed.

Lemma stored_NoDup : NoDup (fst <$> (asPart <$> acc)).
Proof using arrival frags_indices. pose proof arrival_indices as HN. rewrite !fmap_app in HN. by apply NoDup_app in HN as [? _]. Qed.

Lemma stored_size : Z.of_nat (size (list_to_map (asPart <$> acc) : gmap Z strictStoredFragmentV1)) = zlen acc.
Proof using arrival frags_indices.
  rewrite <- length_map_to_list, (Permutation_length (map_to_list_to_map _ stored_NoDup)). by rewrite length_fmap.
Qed.

(** A fragment that has not been stored fits. *)
Lemma next_fits e : en_fragments e = list_to_map (asPart <$> acc) -> en_count e = count -> en_length e = zlen p -> fits e f max.
Proof using frags_consecutive frags_positive frags_indices frags_fields count_range length_range arrival.
  intros Hp Hc Hl. assert (Hf : f ∈ frags) by (apply arrival_in, elem_of_app; right; by left).
  pose proof arrival_indices as HN. rewrite !fmap_app in HN. apply NoDup_app in HN as (HNa & HNd & _). cbn [fmap list_fmap] in HNd.
  rewrite Forall_forall in frags_fields. destruct (frags_fields f Hf) as (HT & Hid & Hfc & Hfl & Hfe).
  pose proof (part_in f Hf) as Hpf. unfold positive in frags_positive. pose proof frags_positive as Hpos. rewrite Forall_forall in Hpos. specialize (Hpos _ Hpf). cbn in Hpos.
  assert (Hi : 0 <= fr_FragmentIndex f < count).
  { assert (fr_FragmentIndex f ∈ fst <$> (asPart <$> frags)) as Hin by (apply list_elem_of_fmap; exists (asPart f); done).
    rewrite frags_indices in Hin. apply elem_of_seqZ in Hin. lia. }
  assert (Hnew : forall i g, en_fragments e !! i = Some g -> (i, g) ∈ asPart <$> acc /\ i <> fr_FragmentIndex f).
  { intros i g Hg. rewrite Hp in Hg. apply elem_of_list_to_map in Hg; [|done]. split; [done|]. intros ->.
    apply (HNd (fr_FragmentIndex f)); [|by left]. apply list_elem_of_fmap. by exists (fr_FragmentIndex f, g). }
  constructor; try lia.
  - destruct (en_fragments e !! fr_FragmentIndex f) as [g|] eqn:Eg; [|done]. by destruct (Hnew _ _ Eg).
  - intros i g Hg. destruct (Hnew i g Hg) as [(f' & Ef' & Hf')%list_elem_of_fmap Hne].
    assert (f' ∈ frags) as Hfr by (apply arrival_in, elem_of_app; by left).
    destruct (consecutive_apart _ _ (asPart f) (asPart f') frags_consecutive frags_positive Hpf (part_in f' Hfr)) as [HO _].
    { intros E. apply Hne. rewrite <- E in Ef'. by injection Ef'. }
    injection Ef' as _ ->. exact HO.
Qed.

(** The last fragment completes the operation. *)
Lemma last_assembles e : rest = [] -> en_fragments e = list_to_map (asPart <$> acc) -> en_count e = count -> en_length e = zlen p ->
  assembleStrictFragmentsV1 e (fr_FragmentIndex f) (storedOf f) = Some p.
Proof using frags_consecutive frags_positive frags_indices frags_fields count_range length_range arrival frags_data.
  intros Hr Hp Hc Hl. pose proof (next_fits e Hp Hc Hl) as HF. apply assemble_spec; [lia|apply HF|]. exists (asPart <$> frags).
  assert (HPm : allParts e (fr_FragmentIndex f) (storedOf f) ≡ₚ asPart <$> frags).
  { unfold allParts. rewrite Hp, (map_to_list_to_map _ stored_NoDup). rewrite <- arrival, Hr, fmap_app. done. }
  split; [by rewrite HPm|]. split; [symmetry; by eapply sort_consecutive|]. rewrite frags_data.
  pose proof arrival_length as HL. pose proof stored_size as HS. rewrite <- Hp in HS. subst rest. rewrite zlen_nil in HL. repeat split; try done; lia.
Qed.

Lemma tick_distance k : 0 <= k < 32 -> wrap64 (wrap64 (tick + k) - tick) = k.
Proof using Type. intros Hk. unfold wrap64, wrap. rewrite Zminus_mod_idemp_l. replace (tick + k - tick) with k by lia. apply Z.mod_small. lia. Qed.

(** The operation outlives the fragments in flight. *)
Lemma holding_expire st e : holding st acc e -> rs_entries (expireReassembly st) !! id = Some e /\
  entryFor (expireReassembly st) h f = Some (e, false).
Proof using frags_indices frags_fields count_range length_range arrival.
  intros [HD HE (HM & Hc & Hl & Ht & Hf) Hp [Htk _] Hm].
  assert (HE' : rs_entries (expireReassembly st) !! id = Some e).
  { cbn. apply map_lookup_filter_Some. split; [done|]. cbn. unfold outlived. pose proof arrival_length.
    pose proof (zlen_nonneg acc). pose proof (zlen_nonneg rest). rewrite Hf, Htk, Ht, tick_distance by lia. apply Z.leb_gt.
    unfold strictFragmentLifetimeTicksV1. lia. }
  split; [done|]. rewrite Forall_forall in frags_fields.
  destruct (frags_fields f) as (_ & Hid & Hfc & Hfl & _); [apply arrival_in, elem_of_app; right; by left|].
  unfold entryFor. rewrite Hid, HE'. destruct HM as (-> & -> & ->). rewrite Hc, Hl, Hfc, Hfl, !Z.eqb_refl. done.
Qed.

(** Storing one more fragment. *)
Lemma holding_step st e : rest <> [] -> holding st acc e ->
  exists st' e', acceptMultiFragmentV1 st h f true false = (st', FragStored) /\ holding st' (acc ++ [f]) e'.
Proof using frags_consecutive frags_positive frags_indices frags_fields count_range length_range arrival.
  intros Hr HH. destruct (holding_expire st e HH) as [HE HF]. destruct HH as [HD _ (HM & Hc & Hl & Ht & Hf) Hp [Htk Hts] Hm].
  pose proof (next_fits e Hp Hc Hl) as Hfit. pose proof arrival_length as HL. pose proof stored_size as HS. rewrite <- Hp in HS.
  assert (0 < zlen rest). { destruct rest; [done|]. rewrite zlen_cons. pose proof (zlen_nonneg l). lia. }
  pose proof (accept_forward st h f e false) as HA. cbv zeta in HA. unfold acceptMultiFragmentV1. rewrite HA; try done; [|cbn [expireReassembly setEntries rs_maxOperation]; by rewrite Hm|lia]. clear HA.
  destruct (Z.eqb_spec (Z.of_nat (size (en_fragments e)) + 1) (en_count e)); [lia|].
  rewrite Forall_forall in frags_fields. destruct (frags_fields f) as (_ & Hid & _); [apply arrival_in, elem_of_app; right; by left|].
  eexists _, (withFragment e (fr_FragmentIndex f) (storedOf f)). split; [reflexivity|].
  constructor; cbn [advanceTickLockedV1 setEntries rs_entries rs_tick rs_tickStep rs_destroyed rs_maxOperation withFragment en_fragments]; try done.
  - rewrite Hid. apply lookup_insert_eq.
  - rewrite Hp, fmap_app. change (asPart <$> [f]) with [(fr_FragmentIndex f, storedOf f)]. rewrite list_to_map_snoc; [done|]. pose proof arrival_indices as HN. rewrite !fmap_app in HN.
    apply NoDup_app in HN as (_ & HN & _). intros Hin. apply (HN _ Hin). by left.
  - cbn [expireReassembly setEntries rs_tick rs_tickStep]. rewrite Hts, Htk. split; [|done]. rewrite zlen_app. change (zlen [f]) with 1.
    change (1 =? 0) with false. cbv iota. unfold wrap64, wrap. rewrite Zplus_mod_idemp_l. f_equal. lia.
Qed.

Lemma holding_last st e : rest = [] -> holding st acc e -> snd (acceptMultiFragmentV1 st h f true false) = FragAssembled p.
Proof using frags_consecutive frags_positive frags_indices frags_fields count_range length_range arrival frags_data.
  intros Hr HH. destruct (holding_expire st e HH) as [HE HF]. destruct HH as [HD _ (HM & Hc & Hl & Ht & Hf) Hp [Htk Hts] Hm].
  pose proof (next_fits e Hp Hc Hl) as Hfit. pose proof (last_assembles e Hr Hp Hc Hl) as HA'. pose proof arrival_length as HL. pose proof stored_size as HS. rewrite <- Hp in HS.
  subst rest. rewrite zlen_nil in HL.
  pose proof (accept_forward st h f e false) as HA. cbv zeta in HA. unfold acceptMultiFragmentV1. rewrite HA; try done; [|cbn [expireReassembly setEntries rs_maxOperation]; by rewrite Hm|lia].
  destruct (Z.eqb_spec (Z.of_nat (size (en_fragments e)) + 1) (en_count e)); [|lia]. by rewrite HA'.
Qed.

(** The first fragment opens an entry. *)
Lemma holding_first st : acc = [] -> rest <> [] -> wfr st -> roomFor st id (zlen p) -> rs_tickStep st = 1 -> rs_maxOperation st = max -> tick = rs_tick st ->
  exists st' e, acceptMultiFragmentV1 st h f true false = (st', FragStored) /\ holding st' [f] e.
Proof using frags_consecutive frags_positive frags_indices frags_fields count_range length_range arrival.
  intros Ha Hr HW [HD HA HS HB] Hstep Hm Htick. pose proof arrival_length as HL. rewrite Ha, zlen_nil in HL.
  assert (0 < zlen rest). { destruct rest; [done|]. rewrite zlen_cons. pose proof (zlen_nonneg l). lia. }
  pose proof frags_fields as HFF. rewrite Forall_forall in HFF. destruct (HFF f) as (_ & Hid & Hfc & Hfl & _); [apply arrival_in, elem_of_app; right; by left|].
  set (e := mkFragEntry (ah_StreamSlot h) (ah_Direction h) (ah_Epoch h) count (zlen p) tick ∅ false).
  assert (Hfit : fits e f max) by (apply next_fits; [by rewrite Ha|done|done]).
  destruct (expireReassembly_spec st HW) as [HX _]. pose proof (pending_range _ HX) as HP.
  assert (rs_pendingBytes (expireReassembly st) <= rs_pendingBytes st) as Hle.
  { rewrite (wr_pending _ HX), (wr_pending _ HW). pose proof (total_filter (rs_entries st) (outlived (rs_tick st))) as HT.
    assert (0 <= totalLength (filter (fun p => outlived (rs_tick st) p.2 = true) (rs_entries st))); [|cbn; lia].
    apply total_nonneg. intros i x [Hx _]%map_lookup_filter_Some. apply (entries_nonneg _ _ (wr_entries _ HW) i x Hx). }
  assert (HE : entryFor (expireReassembly st) h f = Some (e, true)).
  { unfold entryFor. rewrite Hid, Hfc, Hfl. assert (rs_entries (expireReassembly st) !! id = None) as ->.
    { cbn. apply map_lookup_filter_None_2. by left. }
    assert (Z.of_nat (size (rs_entries (expireReassembly st))) <= Z.of_nat (size (rs_entries st))) as Hsz.
    { apply inj_le, map_subseteq_size, expire_sub. }
    unfold strictFragmentMaxOperationsV1. destruct (Z.leb_spec 8 (Z.of_nat (size (rs_entries (expireReassembly st))))); [lia|].
    destruct (wr_max _ HW) as [Hu _]. rewrite Hm in Hu. unfold_widths. cbn [orb].
    rewrite wrap64_small by (unfold_widths; lia).
    destruct (Z.ltb_spec (rs_maxBytes (expireReassembly st)) (rs_pendingBytes (expireReassembly st) + zlen p)) as [Hlt|_]; [cbn in Hlt; cbn in Hle; lia|].
    unfold e. by rewrite Htick. }
  pose proof (accept_forward st h f e true) as HAf. cbv zeta in HAf. unfold acceptMultiFragmentV1.
  rewrite HAf; try done; [|cbn [expireReassembly setEntries rs_maxOperation]; by rewrite Hm|cbn [e en_fragments en_count]; rewrite map_size_empty; lia].
  cbn [e en_fragments en_count en_length]. rewrite map_size_empty. destruct (Z.eqb_spec (Z.of_nat 0 + 1) count); [lia|].
  eexists _, (withFragment e (fr_FragmentIndex f) (storedOf f)). split; [reflexivity|].
  constructor; cbn [advanceTickLockedV1 setEntries rs_entries rs_tick rs_tickStep rs_destroyed rs_maxOperation withFragment en_fragments]; try done.
  - rewrite Hid. apply lookup_insert_eq.
  - cbn [expireReassembly setEntries rs_tick rs_tickStep]. rewrite Hstep, Htick. split; [|done]. done.
Qed.
End delivery.

(** All fragments of an operation, in an order of arrival. *)
Definition arrivals (h : ApplicationHeaderV1) (l : list ApplicationFragmentV1) : list frag_op := (fun f => OpFragment h f true false) <$> l.

Lemma arrivals_cons h f l : arrivals h (f :: l) = OpFragment h f true false :: arrivals h l.
Proof. done. Qed.

(** C31: an operation cut into fragments comes back: if the receiver has room for
    it, its fragments, each stored as its record is committed, in every order of
    arrival, are all accepted, and the last one yields the operation's bytes. *)
Theorem fragments_reassemble max ops h id p lengths frags order :
  u32 max -> Forall typedFragOp ops -> zlen id = 32 -> Forall u32 lengths ->
  fragmentSet max id p lengths = Ok frags -> order ≡ₚ frags ->
  let st := fst (run fragStep (newReassembly max) ops) in
  roomFor st id (zlen p) ->
  outputs fragStep st (arrivals h order) = replicate (length order - 1) FragStored ++ [FragAssembled p].
Proof.
  intros Hmax HO Hid Hu HS HP st HR. destruct (run_limits max ops HO) as (Hm & _ & Hts). fold st in Hm, Hts. destruct (new_good max Hmax) as [HG HTr]. destruct (run_traced ops [] _ HG HTr HO) as [HGs _]. fold st in HGs.
  destruct HGs as [[HD _]|[_ HW]]; [rewrite (rf_live _ _ _ HR) in HD; done|]. clearbody st.
  unfold fragmentSet in HS. rewrite !reject_bind_ok, !orb_false_iff, !negb_false_iff, !Z.eqb_eq, !Z.ltb_ge, Z.eqb_neq in HS.
  unfold strictFragmentMaxCountV1 in HS. destruct HS as ((((Hn2 & Hn16) & Hp0) & Hpm) & HZ & Hsum & HE). apply Ok_inj in HE as <-.
  pose proof (zlen_nonneg p) as Hp. unfold_widths.
  assert (HF : Forall (fun n => 0 < n) lengths).
  { apply Forall_forall. intros n Hn. rewrite Forall_forall in Hu. specialize (Hu n Hn). assert (n <> 0); [|lia]. intros ->.
    rewrite <- not_true_iff_false in HZ. apply HZ, existsb_exists. exists 0. split; [by apply list_elem_of_In|done]. }
  assert (sumZ' lengths = zlen p) as Hs.
  { unfold sumLengths in Hsum. rewrite sumLengths_exact in Hsum; try lia. rewrite Forall_forall in *. intros n Hn. specialize (HF n Hn). specialize (Hu n Hn). cbv beta in *. lia. }
  destruct (cut_spec id p (zlen lengths) h lengths ltac:(lia) Hid ltac:(lia) 0 0 ltac:(lia) ltac:(lia) ltac:(lia) HF ltac:(lia)) as (HC & HPs & HD & HI & HX).
  set (frags := cutFragments _ _ _ _ _ _) in *. clearbody frags. rewrite Z.add_0_l, Hs in HD.
  rewrite slice_all in HD by done.
  assert (HX' : Forall (fun f => typedFragment f /\ fr_OperationID f = id /\ fr_FragmentCount f = zlen lengths /\
    fr_OperationLength f = zlen p /\ fr_FragmentOffset f + zlen (fr_Fragment f) <= zlen p) frags).
  { eapply Forall_impl; [exact HX|]. intros f (? & HSo & ?). unfold sameOperation in HSo. cbn in HSo. rewrite Z.add_0_l, Hs in *. naive_solver. }
  assert (Hstep : forall rest acc s e, acc ++ rest ≡ₚ frags -> rest <> [] -> holding h id p (zlen lengths) (rs_tick st) max s acc e ->
    outputs fragStep s (arrivals h rest) = replicate (length rest - 1) FragStored ++ [FragAssembled p]).
  { induction rest as [|f rest IH]; intros acc s e HPm Hne HH; [done|]. rewrite arrivals_cons, outputs_cons. cbn [fragStep].
    destruct (decide (rest = [])) as [->|Hne'].
    - rewrite (holding_last h id p frags (zlen lengths) (rs_tick st) max HC HPs HI HD HX' ltac:(lia) ltac:(lia) acc [] f HPm s e eq_refl HH). done.
    - destruct (holding_step h id p frags (zlen lengths) (rs_tick st) max HC HPs HI HX' ltac:(lia) ltac:(lia) acc rest f HPm s e Hne' HH) as (s' & e' & HA & HH').
      rewrite HA. cbn [fst snd]. rewrite (IH (acc ++ [f]) s' e'); [|by rewrite <- app_assoc|done|done]. cbn [length]. destruct rest; [done|]. cbn [length replicate Nat.sub]. by rewrite Nat.sub_0_r. }
  assert (Hlen : zlen order = zlen lengths).
  { unfold zlen. rewrite (Permutation_length HP). apply (f_equal length) in HI. rewrite length_seqZ, !length_fmap in HI. unfold zlen in HI. lia. }
  destruct order as [|f rest]; [rewrite zlen_nil in Hlen; lia|]. rewrite zlen_cons in Hlen.
  assert (rest <> []) as Hne by (intros ->; rewrite zlen_nil in Hlen; lia).
  destruct (holding_first h id p frags (zlen lengths) (rs_tick st) max HC HPs HI HX' ltac:(lia) ltac:(lia) [] rest f HP st eq_refl Hne HW HR Hts Hm eq_refl) as (s' & e' & HA & HH').
  rewrite arrivals_cons, outputs_cons. cbn [fragStep]. rewrite HA. cbn [fst snd].
  rewrite (Hstep rest [f] s' e' HP Hne HH'). cbn [length]. destruct rest; [done|]. cbn [length replicate Nat.sub]. by rewrite Nat.sub_0_r.
Qed.

(** ** An operation of five bytes in three fragments *)

Definition sampleID : bytes := replicate 32 Byte.x01.
Definition sampleOperation5 : bytes := zb <$> [11; 12; 13; 14; 15].
Definition sampleHeader5 : ApplicationHeaderV1 := mkAppHeader 1 1 0 1 5 0 72.
Definition sampleFragments : list ApplicationFragmentV1 := cutFragments sampleID sampleOperation5 3 0 0 [2; 1; 2].

Lemma sampleFragments_typed : Forall typedFragment sampleFragments.
Proof. repeat constructor; vm_compute; intuition congruence. Qed.

Lemma fragments_reassemble_witness :
  outputs fragStep (newReassembly 64) (arrivals sampleHeader5 (reverse sampleFragments)) = [FragStored; FragStored; FragAssembled sampleOperation5].
Proof.
  apply (fragments_reassemble 64 [] sampleHeader5 sampleID sampleOperation5 [2; 1; 2] sampleFragments (reverse sampleFragments)).
  - unfold_widths. lia.
  - constructor.
  - reflexivity.
  - repeat constructor; unfold_widths; lia.
  - vm_compute. reflexivity.
  - apply reverse_Permutation.
  - constructor; vm_compute; try reflexivity; discriminate.
Defined.

Lemma sampleArrivals_typed l : Forall typedFragment l -> Forall typedFragOp (arrivals sampleHeader5 l).
Proof. intros HF. unfold arrivals. apply Forall_fmap. exact HF. Qed.

Lemma reassembly_bounded_witness :
  let st := fst (run fragStep (newReassembly 64) (arrivals sampleHeader5 (take 2 sampleFragments))) in
  heldBytes (rs_entries st) = 3 /\ rs_pendingBytes st = 5 /\ heldBytes (rs_entries st) <= 8 * 64.
Proof.
  intros st. split; [vm_compute; reflexivity|]. split; [vm_compute; reflexivity|].
  destruct (reassembly_bounded 64 (arrivals sampleHeader5 (take 2 sampleFragments))) as (_ & Hheld & _).
  - unfold_widths. lia.
  - apply sampleArrivals_typed, Forall_take, sampleFragments_typed.
  - exact Hheld.
Defined.

Lemma reassembly_sound_witness :
  exists parts : list (ApplicationHeaderV1 * ApplicationFragmentV1),
    consecutive 0 (asPart ∘ snd <$> parts) /\ sampleOperation5 = concat (fr_Fragment ∘ snd <$> parts).
Proof.
  destruct (reassembly_sound 64 (arrivals sampleHeader5 (take 2 sampleFragments)) sampleHeader5
    (mkFragment sampleID 2 3 5 3 (zb <$> [14; 15])) true false sampleOperation5) as (parts & _ & _ & HC & HO & _).
  - unfold_widths. lia.
  - apply sampleArrivals_typed, Forall_take, sampleFragments_typed.
  - constructor; vm_compute; intuition congruence.
  - vm_compute. reflexivity.
  - exists parts. split; assumption.
Defined.
