(* ===== verification/RecordDelivery.v ===== *)
(** * Records over envelopes

    The record codecs of [Records] composed with the envelopes of [Envelope]
    through the closures of [Channel]: one end seals fragments, acknowledgements
    and closes, the other authenticates each record, reads its body and commits its
    sequence. *)

From S2P Require Import Prelude GoBytes SecurityErrors Ir KeySchedule Replay Nonce Envelope EnvelopeFacts Records RecordFacts Channel.
From Stdlib Require Import ZArith Lia Strings.Byte.
From stdpp Require Import base list gmap strings.
Local Open Scope Z_scope.

Inductive payload := PFragment (slot : Z) (f : ApplicationFragmentV1) | PAck (a : OperationAckV1) | PClose.
Inductive received := RFragment (f : ApplicationFragmentV1) | RAck (a : OperationAckV1) | RClose.

Definition slotOf (p : payload) : Z := match p with PFragment slot _ => slot | _ => 0 end.
Definition expected (p : payload) : received :=
  match p with PFragment _ f => RFragment f | PAck a => RAck a | PClose => RClose end.

Definition validPayload (context : EnvelopeContextV1) (p : payload) : Prop :=
  match p with
  | PFragment slot f => 1 <= slot < 65536 /\ typedFragment f /\ validApplicationFragmentV1 f = true /\
      70 + zlen (fr_Fragment f) <= cx_MaxEnvelopeBytes context
  | PAck a => zlen (ack_OperationID a) = 32 /\ u64 (ack_CompletedCount a) /\ validOperationAckV1 a = true
  | PClose => True
  end.

Section exchange.
Context `{Cipher}.

(** The sender knows the coordinates the next record will use. *)
Definition send (direction : Z) (control : ControlContextV1) (c : EnvelopeCodecV1) (epoch sequence : Z) (st : strictEnvelopeStateV1) (p : payload)
    : strictEnvelopeStateV1 * result record_error bytes :=
  match p with
  | PFragment slot f => sealApplicationFragmentV1 direction (ec_context c) slot f (applicationSeal c epoch sequence) st
  | PAck a => sealOperationAckV1 direction control epoch sequence a (controlSeal c RecordTypeOperationAckV1 direction) st
  | PClose => sealCloseV1 direction control epoch sequence (mkClose CloseCodeTerminalV1) (controlSeal c RecordTypeCloseV1 direction) st
  end.

(** Opening leaves a replay capability, which is committed when the body is good. *)
Definition settle {A} (d : EnvelopeCodecV1) (wrap : A -> received) (o : (strictEnvelopeStateV1 * option nat) * result record_error A)
    : strictEnvelopeStateV1 * result record_error received :=
  match o with
  | ((rt, Some g), Ok a) =>
      let '(rt, r) := Commit d rt g in
      (rt, match r with Ok _ => Ok (wrap a) | Err (Sentinel e) => Err (RecordSecurity e) | Err Panic => Err RecordPanic end)
  | ((rt, None), Ok a) => (rt, Err ErrRecordInvalid)
  | ((rt, _), Err e) => (rt, Err e)
  end.

Definition receive (direction : Z) (control : ControlContextV1) (d : EnvelopeCodecV1) (rt : strictEnvelopeStateV1) (p : payload) (record : bytes)
    : strictEnvelopeStateV1 * result record_error received :=
  match p with
  | PFragment _ _ => settle d RFragment (openApplicationFragmentV1 direction (ec_context d) record (applicationOpen d) (rt, None))
  | PAck _ => settle d RAck (openOperationAckV1 direction control record (controlOpen d RecordTypeOperationAckV1 direction) (rt, None))
  | PClose => settle d (fun _ => RClose) (openCloseV1 direction control record (controlOpen d RecordTypeCloseV1 direction) (rt, None))
  end.

(** An exchange; [next] counts the records of each nonce domain. *)
Fixpoint exchangeRecords (direction : Z) (control : ControlContextV1) (c d : EnvelopeCodecV1) (next : Z -> Z) (st rt : strictEnvelopeStateV1) (ps : list payload)
    : list (result record_error received) :=
  match ps with
  | [] => []
  | p :: ps =>
      let k := replayKeyV1 c (slotOf p) in
      let '(st, r) := send direction control c (ec_epoch c) (next k) st p in
      match r with
      | Err e => Err e :: exchangeRecords direction control c d (Nonce.Spec.bump next k) st rt ps
      | Ok record =>
          let '(rt, o) := receive direction control d rt p record in
          o :: exchangeRecords direction control c d (Nonce.Spec.bump next k) st rt ps
      end
  end.

(** An opened record was authenticated and then committed. *)
Lemma open_split d rt class record aad rt' p : openV1 d rt class record aad = (rt', Ok p) ->
  exists rt1 x g, authenticateDestinationV1 d rt None class record 0 aad = (rt1, x, Ok (p, g)) /\ Commit d rt1 g = (rt', Ok tt).
Proof.
  unfold openV1. destruct (authenticateDestinationV1 _ _ _ _ _ _ _) as [[rt1 x] [[q g]|e]]; [|done].
  destruct (Commit d rt1 g) as [rt2 [[]|e]] eqn:EC; [|done]. intros HO. injection HO as <- <-. exists rt1, x, g. done.
Qed.

(** ** One record *)

Section one.
Context (c d : EnvelopeCodecV1) (same_context : ec_context d = ec_context c).
Context (direction epoch sequence : Z) (control : ControlContextV1).
Context (direction_ok : direction = 1 \/ direction = 2) (epoch_ok : u64 epoch) (sequence_ok : u64 sequence).
Context (max_u32 : u32 (cx_MaxEnvelopeBytes (ec_context c))).

Lemma fragment_passes st rt st' rt' record slot f class :
  applicationExpectedClassV1 (ec_context c) = Ok class -> u16 class -> validPayload (ec_context c) (PFragment slot f) ->
  let body := encodeApplicationBodyV1 class f in
  sealV1 c st nonceApplicationRecordV1 1 slot (mkSlice 0 body) [] = (st', None, Ok record) ->
  er_RecordType record = 1 -> er_Epoch record = epoch -> er_Direction record = direction -> er_Slot record = slot ->
  er_Sequence record = sequence -> er_SealedLength record = zlen body + Overhead -> zlen (er_Ciphertext record) = zlen body + Overhead ->
  openV1 d rt nonceApplicationRecordV1 record [] = (rt', Ok body) ->
  exists bytes, send direction control c epoch sequence st (PFragment slot f) = (st', Ok bytes) /\
    receive direction control d rt (PFragment slot f) bytes = (rt', Ok (RFragment f)).
Proof using same_context direction_ok epoch_ok sequence_ok max_u32.
  intros Hcls Hc (Hs & HT & HV & Hmax) body HS Rt Re Rd Rs Rq Rl Rc HO. pose proof (fragment_small f HV) as Hf.
  assert (Hb : zlen body = 54 + zlen (fr_Fragment f)) by (apply zlen_appBody, HT). unfold Overhead in *. unfold_widths.
  set (header := mkAppHeader 1 1 epoch direction slot sequence (70 + zlen (fr_Fragment f))).
  assert (HOk : appHeaderOk header direction (cx_MaxEnvelopeBytes (ec_context c))).
  { constructor; cbn; try done; try lia. constructor; cbn; unfold_widths; lia. }
  exists (encodeApplicationHeaderV1 header ++ er_Ciphertext record). split.
  - cbn [send]. unfold sealApplicationFragmentV1, applicationBodyFixedBytesV1, applicationAEADOverheadV1, applicationHeaderBytesV1.
    rewrite Hcls. destruct (Z.eqb_spec slot 0); [lia|]. rewrite HV. cbn [orb negb]. cbv zeta.
    destruct (Z.ltb_spec MaxInt64 (54 + zlen (fr_Fragment f))) as [Hlt|_]; [unfold MaxInt64 in Hlt; lia|].
    destruct (Z.ltb_spec (cx_MaxEnvelopeBytes (ec_context c)) (54 + zlen (fr_Fragment f) + 16)); [lia|].
    destruct (Z.ltb_spec 4294967295 (54 + zlen (fr_Fragment f) + 16)); [lia|].
    destruct (Z.ltb_spec MaxInt64 (28 + (54 + zlen (fr_Fragment f) + 16))) as [Hlt|_]; [unfold MaxInt64 in Hlt; lia|]. cbn [orb].
    unfold applicationSeal, SealApplicationV1. fold body. rewrite HS. cbn [rbind]. rewrite Re, Rq, !Z.eqb_refl. cbn [negb orb reject rbind].
    unfold RecordTypeApplicationFragmentV1. rewrite Rt, Rd, Rs, Rc, <- Rl, !Z.eqb_refl. cbn [negb orb].
    assert (er_SealedLength record = 70 + zlen (fr_Fragment f)) as El by lia. rewrite El.
    rewrite wrap32_small by (unfold_widths; lia). destruct (Z.eqb_spec (70 + zlen (fr_Fragment f)) (54 + zlen (fr_Fragment f) + 16)); [|lia]. cbn [negb orb].
    destruct (Z.ltb_spec (cx_MaxEnvelopeBytes (ec_context c)) (70 + zlen (fr_Fragment f))); [lia|]. rewrite Re, Rq. done.
  - cbn [receive]. unfold openApplicationFragmentV1. rewrite same_context, Hcls.
    rewrite (proj2 (appRecord_exact (encodeApplicationHeaderV1 header ++ er_Ciphertext record) direction (cx_MaxEnvelopeBytes (ec_context c)) header (er_Ciphertext record)))
      by (split; [done|]; split; [done|cbn; lia]).
    destruct (open_split _ _ _ _ _ _ _ HO) as (rt1 & x & g & HA & HC).
    assert (mkRecord (ah_Type header) (ah_Epoch header) (ah_Direction header) (ah_StreamSlot header) (ah_Sequence header) (ah_SealedLength header)
      (er_Ciphertext record) = record) as ->.
    { destruct record. cbn in *. subst. f_equal. lia. }
    unfold applicationOpen, AuthenticateApplicationV1. cbn [fst snd]. rewrite HA. cbn [capture].
    unfold applicationAEADOverheadV1. cbn [header ah_SealedLength]. destruct (Z.eqb_spec (70 + zlen (fr_Fragment f)) (zlen body + 16)); [|lia]. cbn [negb].
    rewrite (proj2 (appBody_exact body class f ltac:(lia))) by done. rewrite Z.eqb_refl. cbn [settle]. by rewrite HC.
Qed.

(** Either kind of control record: [body] is sealed to [n] bytes. *)
Lemma control_passes {A} st rt st' rt' record recordType n body (parse : bytes -> result record_error A) refused (wrap : A -> received) value :
  controlSealedLengthV1 recordType = Some n -> zlen body + Overhead = n -> parse body = Ok value ->
  let header := mkControlHeader 1 recordType epoch direction sequence n in
  let aad := encodeControlAADV1 header control in
  sealV1 c st nonceControlRecordV1 recordType 0 (mkSlice 0 body) aad = (st', None, Ok record) ->
  er_RecordType record = recordType -> er_Epoch record = epoch -> er_Direction record = direction -> er_Slot record = 0 ->
  er_Sequence record = sequence -> er_SealedLength record = zlen body + Overhead -> zlen (er_Ciphertext record) = zlen body + Overhead ->
  openV1 d rt nonceControlRecordV1 record aad = (rt', Ok body) ->
  exists bytes, sealControlRecordV1 control epoch direction sequence recordType n body (controlSeal c recordType direction) st = (st', Ok bytes) /\
    settle d wrap (openControlRecordV1 direction recordType parse refused control bytes (controlOpen d recordType direction) (rt, None)) = (rt', Ok (wrap value)).
Proof using direction_ok epoch_ok sequence_ok.
  intros Hn Hb Hp header aad HS Rt Re Rd Rs Rq Rl Rc HO. unfold Overhead in *.
  assert (Hnr : (recordType = 2 \/ recordType = 3) /\ (n = 60 \/ n = 22)).
  { unfold controlSealedLengthV1, RecordTypeOperationAckV1, RecordTypeCloseV1, operationAckSealedBytesV1, closeSealedBytesV1 in Hn.
    destruct (Z.eqb_spec recordType 2), (Z.eqb_spec recordType 3); simplify_eq; lia. }
  assert (HOk : controlHeaderOk header direction recordType).
  { constructor; cbn; try done. constructor; cbn; unfold_widths; try lia. }
  exists (encodeControlHeaderV1 header ++ er_Ciphertext record). split.
  - unfold sealControlRecordV1, ControlRecordVersionV1. cbv zeta. fold header. fold aad. unfold controlSeal, SealControlV1. rewrite HS. cbn [rbind].
    rewrite Re, Rq, Rd, !Z.eqb_refl. cbn [negb orb reject rbind]. rewrite Rc, Hb, Z.eqb_refl. done.
  - unfold openControlRecordV1. rewrite (proj2 (controlRecord_exact _ direction recordType header (er_Ciphertext record))) by (split; [done|]; split; [done|cbn; lia]).
    destruct (open_split _ _ _ _ _ _ _ HO) as (rt1 & x & g & HA & HC). fold aad. unfold controlOpen, AuthenticateControlV1. cbn [fst snd header ch_Epoch ch_Sequence].
    assert (mkRecord recordType epoch direction 0 sequence (wrap32 (zlen (er_Ciphertext record))) (er_Ciphertext record) = record) as ->.
    { rewrite wrap32_small by (unfold_widths; lia). destruct record. cbn in *. subst. f_equal. lia. }
    rewrite HA. cbn [capture]. rewrite Hp. cbn [settle]. by rewrite HC.
Qed.
End one.


(** ** An exchange *)

Section delivery.
Context (CL : CipherLaws _).
Context (c d : EnvelopeCodecV1) (oc ic oc' : nonceDirectionConfigV1) (control : ControlContextV1) (class : Z).
Context (same_context : ec_context d = ec_context c) (same_epoch : ec_epoch d = epoch oc) (own_epoch : ec_epoch c = epoch oc).
Context (key : bytes) (out_key : ec_outbound c = Some key) (in_key : ec_inbound d = Some key).
Context (max_u32 : u32 (cx_MaxEnvelopeBytes (ec_context c))).
Context (class_ok : applicationExpectedClassV1 (ec_context c) = Ok class).
Context (direction_ok : direction oc = 1 \/ direction oc = 2) (epoch_ok : u64 (epoch oc)).

Lemma class_facts : u16 class /\ 70 <= cx_MaxEnvelopeBytes (ec_context c).
Proof using class_ok.
  unfold applicationExpectedClassV1, applicationMinimumSealedBytesV1, RecordClassApplicationV1, RecordClassSyntheticV1 in class_ok.
  rewrite reject_bind_ok, !orb_false_iff, Z.ltb_ge in class_ok. destruct class_ok as [((? & _) & _) HC]. split; [|done].
  case_bool_decide; [apply Ok_inj in HC as <-; unfold_widths; lia|]. case_bool_decide; [apply Ok_inj in HC as <-; unfold_widths; lia|].
  case_bool_decide; [|done]. apply reject_bind_ok in HC as [_ HC]. apply Ok_inj in HC as <-. unfold_widths. lia.
Qed.

Lemma payload_one f h st f2 h2 rt p : good c oc ic f h st -> good d oc' oc f2 h2 rt -> es_sealFail st = false -> inStep f h2 ->
  validPayload (ec_context c) p -> f (replayKeyV1 c (slotOf p)) < 2 ^ 64 ->
  let k := replayKeyV1 c (slotOf p) in
  exists st' rt' bytes,
    send (direction oc) control c (epoch oc) (f k) st p = (st', Ok bytes) /\
    receive (direction oc) control d rt p bytes = (rt', Ok (expected p)) /\ es_sealFail st' = false /\
    good c oc ic (Nonce.Spec.bump f k) h st' /\ exists h2', good d oc' oc f2 h2' rt' /\ inStep (Nonce.Spec.bump f k) h2'.
Proof using CL same_context same_epoch own_epoch out_key in_key max_u32 class_ok direction_ok epoch_ok.
  intros Hg Hr Hf Hin Hv Hlt k. destruct class_facts as [Hc Hmax]. pose proof (gd_within _ _ _ _ _ _ Hg k) as Hwk.
  assert (u64 (f k)) as Hq by (unfold_widths; unfold k in *; lia).
  destruct p as [slot fr|a|]; cbn [slotOf validPayload expected] in *.
  - destruct Hv as (Hs & HT & HV & Hm). pose proof (zlen_appBody class fr (tf_OperationID _ HT)) as Hb.
    destruct (deliver_one CL c d oc ic oc' same_context same_epoch key out_key in_key max_u32 f h st f2 h2 rt
      (mkMessage nonceApplicationRecordV1 1 slot (encodeApplicationBodyV1 class fr) [])) as (st' & record & rt' & HS & (R1 & R2 & R3 & R4 & R5 & R6 & R7) & HO & HF & HG & HI); try done.
    { split; [left; done|]. cbn [ms_plaintext]. unfold Overhead. lia. }
    cbn [ms_class ms_type ms_slot ms_plaintext ms_aad] in *.
    destruct (fragment_passes c d same_context (direction oc) (epoch oc) (f k) control direction_ok epoch_ok Hq max_u32 st rt st' rt' record slot fr class) as (bytes & HS' & HR'); try done.
    exists st', rt', bytes. done.
  - destruct Hv as (Hid & Hct & HV). destruct (encodeOperationAckBodyV1 a) as [body|e] eqn:Eb; [|unfold encodeOperationAckBodyV1 in Eb; by rewrite HV in Eb].
    destruct (ackBody_exact body a Hid Hct Eb) as [Hbl Hbp].
    destruct (deliver_one CL c d oc ic oc' same_context same_epoch key out_key in_key max_u32 f h st f2 h2 rt
      (mkMessage nonceControlRecordV1 2 0 body (encodeControlAADV1 (mkControlHeader 1 2 (epoch oc) (direction oc) (f k) 60) control)))
      as (st' & record & rt' & HS & (R1 & R2 & R3 & R4 & R5 & R6 & R7) & HO & HF & HG & HI); try done.
    { split; [right; split; [done|]; split; [cbn; lia|done]|]. cbn [ms_plaintext]. unfold Overhead. lia. }
    cbn [ms_class ms_type ms_slot ms_plaintext ms_aad] in *.
    destruct (control_passes c d (direction oc) (epoch oc) (f k) control direction_ok epoch_ok Hq st rt st' rt' record 2 60 body
      parseOperationAckBodyV1 ErrOperationAckInvalid RAck a) as (bytes & HS' & HR'); try done; [unfold Overhead; lia|].
    exists st', rt', bytes. split; [cbn [send]; unfold sealOperationAckV1; by rewrite Eb|]. done.
  - destruct (encodeCloseBodyV1 (mkClose CloseCodeTerminalV1)) as [body|e] eqn:Eb; [|done].
    assert (Hbl : zlen body = 6) by (unfold encodeCloseBodyV1 in Eb; apply Ok_inj in Eb as <-; done).
    destruct (deliver_one CL c d oc ic oc' same_context same_epoch key out_key in_key max_u32 f h st f2 h2 rt
      (mkMessage nonceControlRecordV1 3 0 body (encodeControlAADV1 (mkControlHeader 1 3 (epoch oc) (direction oc) (f k) 22) control)))
      as (st' & record & rt' & HS & (R1 & R2 & R3 & R4 & R5 & R6 & R7) & HO & HF & HG & HI); try done.
    { split; [right; split; [done|]; split; [cbn; lia|done]|]. cbn [ms_plaintext]. unfold Overhead. lia. }
    cbn [ms_class ms_type ms_slot ms_plaintext ms_aad] in *.
    destruct (control_passes c d (direction oc) (epoch oc) (f k) control direction_ok epoch_ok Hq st rt st' rt' record 3 22 body
      parseCloseBodyV1 ErrRecordInvalid (fun _ => RClose) (mkClose CloseCodeTerminalV1)) as (bytes & HS' & HR'); try done; [unfold Overhead; lia|by apply closeBody_exact|].
    exists st', rt', bytes. split; [cbn [send]; unfold sealCloseV1; by rewrite Eb|]. done.
Qed.

Lemma records_delivered ps : forall f h st f2 h2 rt, good c oc ic f h st -> good d oc' oc f2 h2 rt -> es_sealFail st = false -> inStep f h2 ->
  Forall (validPayload (ec_context c)) ps -> (forall k, f k + zlen ps <= 2 ^ 64) ->
  exchangeRecords (direction oc) control c d f st rt ps = (Ok ∘ expected) <$> ps.
Proof using CL same_context same_epoch own_epoch out_key in_key max_u32 class_ok direction_ok epoch_ok.
  induction ps as [|p ps IH]; intros f h st f2 h2 rt Hg Hr Hf Hin Hv Hle; [done|]. apply Forall_cons in Hv as [Hp Hv].
  rewrite zlen_cons in Hle. pose proof (zlen_nonneg ps) as Hn.
  destruct (payload_one f h st f2 h2 rt p Hg Hr Hf Hin Hp) as (st' & rt' & bytes & HS & HR & HF & HG & h2' & HD & HI).
  { specialize (Hle (replayKeyV1 c (slotOf p))). lia. }
  cbn [exchangeRecords fmap list_fmap]. rewrite own_epoch, HS, HR. f_equal. eapply IH; try done.
  intros k. unfold Nonce.Spec.bump. pose proof (Hle k). pose proof (Hle (replayKeyV1 c (slotOf p))). destruct (k =? _); lia.
Qed.
End delivery.

(** C30: the protected channel delivers: two codecs of opposite roles over one key
    schedule and context exchange any sequence of at most 2^64 fragments,
    acknowledgements and closes on any stream slots; each record is sealed under
    the next sequence number of its domain, authenticated, read and committed at
    the other end, and every one arrives as the value that was sent. *)
Theorem protected_records_delivered (CL : CipherLaws _) sizeof schedule context client b1 b2 c st d rt control class ps :
  newRoleEnvelopeV1 sizeof schedule context client b1 = Ok (c, st) ->
  newRoleEnvelopeV1 sizeof schedule context (negb client) b2 = Ok (d, rt) ->
  u32 (cx_MaxEnvelopeBytes context) -> u64 (Epoch schedule) -> applicationExpectedClassV1 context = Ok class ->
  Forall (validPayload context) ps -> zlen ps <= 2 ^ 64 ->
  exchangeRecords (if client then controlDirectionClientV1 else controlDirectionRelayV1) control c d (fun _ => 0) st rt ps = (Ok ∘ expected) <$> ps.
Proof using Type.
  intros [-> (G1 & _ & F1)]%newRole_good [-> (G2 & _)]%newRole_good Hu He Hc Hv Hl. rewrite negb_involutive in G2 |- *.
  set (m := eff_NonceMode _) in *.
  replace (if client then controlDirectionClientV1 else controlDirectionRelayV1) with (direction (dirConfig schedule m client)) by by destruct client.
  eapply (records_delivered CL _ _ (dirConfig schedule m client)); try done; by destruct client; auto.
Qed.

End exchange.

(** ** Two fragments, an acknowledgement and a close *)

Definition samplePayloads : list payload :=
  let id := replicate 32 Byte.x01 in
  [PFragment 5 (mkFragment id 0 2 3 0 [Byte.x41; Byte.x42]); PFragment 5 (mkFragment id 1 2 3 2 [Byte.x43]); PAck (mkAck id 1); PClose].

Lemma protected_records_delivered_witness :
  @exchangeRecords toyCipher 1 (mkControlContext (replicate 32 Byte.x07) (replicate 32 Byte.x07)) (fst (sampleCodec true true)) (fst (sampleCodec false false)) (fun _ => 0)
    (snd (sampleCodec true true)) (snd (sampleCodec false false)) samplePayloads = (Ok ∘ expected) <$> samplePayloads.
Proof.
  apply (@protected_records_delivered toyCipher toyCipher_laws (fun _ => 8) toySchedule sampleContext true true false
    (fst (sampleCodec true true)) (snd (sampleCodec true true)) (fst (sampleCodec false false)) (snd (sampleCodec false false)) _ 1).
  - rewrite sampleCodec_ok. by destruct (sampleCodec true true).
  - cbn [negb]. rewrite sampleCodec_ok. by destruct (sampleCodec false false).
  - unfold_widths. cbn. lia.
  - unfold_widths. vm_compute. intuition congruence.
  - vm_compute. reflexivity.
  - repeat constructor; vm_compute; intuition congruence.
  - vm_compute. discriminate.
Defined.
