(* ===== verification/ServiceRecord.v ===== *)
(** * Service records

    [src/internal/runtime/service_record_v1.go] and the domain grammar of
    [src/internal/product/runtimepolicy/services_v1.go]: the records of proxied
    streams and probes inside the tunnel. The body of the record being encoded may
    be a slice of the destination buffer, so encoding works on one memory and a
    reference into it ([payloadRef] of [WireV1]). [service_record_exact] is the
    round trip; [payload_kinds_disjoint] says that a record is never mistaken for
    an IP packet nor the reverse. *)

From S2P Require Import Prelude GoBytes SecurityErrors Ir KeySchedule Replay Nonce Envelope EnvelopeFacts Records RecordFacts IpPacket IpPacketFacts.
From S2P Require WireV1.
From Stdlib Require Import ZArith Lia Strings.Byte.
From stdpp Require Import base list.
Local Open Scope Z_scope.

Inductive service_error := ErrServiceRecordV1.

Definition ServiceOpenV1 : Z := 1.
Definition ServiceOpenResultV1 : Z := 2.
Definition ServiceDataV1 : Z := 3.
Definition ServiceFINV1 : Z := 4.
Definition ServiceResetV1 : Z := 5.
Definition ServiceProbeV1 : Z := 6.
Definition ServiceProbeResultV1 : Z := 7.
Definition ServiceClientToRelayV1 : Z := 1.
Definition ServiceRelayToClientV1 : Z := 2.

Inductive ServicePayloadKindV1 := ServicePayloadInvalidV1 | ServicePayloadIPv4V1 | ServicePayloadIPv6V1 | ServicePayloadRecordV1.

Record ServiceRecordViewV1 := mkServiceRecord { sr_Opcode : Z; sr_ID : Z; sr_Body : bytes }.
Record ServiceRecordCodecV1 := mkServiceCodec { sc_maximum : Z }.

Definition NewServiceRecordCodecV1 (minimum maximum : Z) : result service_error ServiceRecordCodecV1 :=
  fail? (minimum <? 0) || (8 <? minimum) || (maximum <? 272) || (Z.shiftl 8 20 <? maximum) with ErrServiceRecordV1 in
  Ok (mkServiceCodec maximum).

(** ** Domains *)

Definition dot : Byte.byte := Byte.x2e.
Definition dash : Byte.byte := Byte.x2d.

(** [strings.Split(value, ".")]. *)
Fixpoint splitDots (value : bytes) : list bytes :=
  match value with
  | [] => [[]]
  | b :: value =>
      if bool_decide (b = dot) then [] :: splitDots value
      else match splitDots value with
           | label :: labels => (b :: label) :: labels
           | [] => [[b]]
           end
  end.

Definition labelByte (c : Byte.byte) : bool :=
  ((97 <=? bz c) && (bz c <=? 122)) || ((48 <=? bz c) && (bz c <=? 57)) || bool_decide (c = dash).

Definition validLabel (label : bytes) : bool :=
  negb ((zlen label <? 1) || (63 <? zlen label) || bool_decide (head label = Some dash) || bool_decide (last label = Some dash))
  && forallb labelByte label.

Definition IsCanonicalProxyDomain (value : bytes) : bool :=
  negb ((zlen value <? 1) || (253 <? zlen value)) && forallb validLabel (splitDots value).

(** [netip.AddrFromSlice] takes four or sixteen bytes. *)
Definition validServiceAddressV1 (kind : Z) (address : bytes) (port : Z) : bool :=
  if port =? 0 then false
  else if kind =? 1 then zlen address =? 4
  else if kind =? 2 then (zlen address <=? 253) && IsCanonicalProxyDomain address
  else if kind =? 3 then (zlen address =? 16) && negb (is4In6 address)
  else false.

(** ** Records *)

Definition validService (c : ServiceRecordCodecV1) (r : ServiceRecordViewV1) (d timeout : Z) : bool :=
  if (sc_maximum c <? 272) || (sr_ID r =? 0) || (16384 <? zlen (sr_Body r)) || (sc_maximum c - 8 <? zlen (sr_Body r))
     || (negb (d =? ServiceClientToRelayV1) && negb (d =? ServiceRelayToClientV1)) then false
  else
    let b := sr_Body r in
    let op := sr_Opcode r in
    if op =? ServiceOpenV1 then
      if negb (d =? ServiceClientToRelayV1) || (zlen b <? 5) || negb (beAt 1 3 b =? zlen b - 5) then false
      else validServiceAddressV1 (byteAt b 0) (slice 3 (zlen b - 2) b) (beAt (zlen b - 2) (zlen b) b)
    else if op =? ServiceOpenResultV1 then (d =? ServiceRelayToClientV1) && (zlen b =? 2) && (beAt 0 2 b <=? 10)
    else if op =? ServiceDataV1 then 0 <? zlen b
    else if op =? ServiceFINV1 then zlen b =? 0
    else if op =? ServiceResetV1 then (zlen b =? 2) && (0 <? beAt 0 2 b) && (beAt 0 2 b <=? 10)
    else if op =? ServiceProbeV1 then
      (d =? ServiceClientToRelayV1) && (zlen b =? 5) && (0 <? beAt 0 2 b) && (byteAt b 2 =? 1)
      && (1000 <=? beAt 3 5 b) && (beAt 3 5 b <=? 30000)
    else if op =? ServiceProbeResultV1 then
      if negb (d =? ServiceRelayToClientV1) || negb (zlen b =? 6) || (10 <? beAt 0 2 b) then false
      else
        let duration := beAt 2 6 b in
        if negb (beAt 0 2 b =? 0) then duration =? 0
        else (1000 <=? timeout) && (timeout <=? 30000) && (duration <=? wrap32 (timeout * 1000))
    else false.

Definition DecodeBorrowed (c : ServiceRecordCodecV1) (raw : bytes) (direction probeTimeoutMillis : Z) : result service_error ServiceRecordViewV1 :=
  fail? (sc_maximum c <? 272) || (zlen raw <? 8) || (sc_maximum c <? zlen raw) || (16392 <? zlen raw) || negb (byteAt raw 0 =? 1)
      || negb (beAt 6 8 raw =? zlen raw - 8) with ErrServiceRecordV1 in
  let r := mkServiceRecord (byteAt raw 1) (beAt 2 6 raw) (zdrop 8 raw) in
  fail? negb (validService c r direction probeTimeoutMillis) with ErrServiceRecordV1 in
  Ok r.

(** The new contents of [dst] and the number of bytes written. The body is copied
    before the header is written. *)
Definition Encode (c : ServiceRecordCodecV1) (dst : bytes) (opcode id : Z) (body : WireV1.payloadRef) (direction probeTimeoutMillis : Z)
    : bytes * result service_error Z :=
  let b := WireV1.deref dst body in
  if negb (validService c (mkServiceRecord opcode id b) direction probeTimeoutMillis) || (zlen dst <? 8 + zlen b) then (dst, Err ErrServiceRecordV1)
  else
    let mem := writeAt dst 8 b in
    let mem := writeAt mem 0 [zb 1] in
    let mem := writeAt mem 1 [zb opcode] in
    let mem := writeAt mem 2 (PutUint32 id) in
    let mem := writeAt mem 6 (PutUint16 (zlen b)) in
    (mem, Ok (8 + zlen b)).

Definition ClassifyServicePayloadV1 (raw : bytes) : ServicePayloadKindV1 :=
  if zlen raw =? 0 then ServicePayloadInvalidV1
  else if Z.shiftr (byteAt raw 0) 4 =? 4 then ServicePayloadIPv4V1
  else if Z.shiftr (byteAt raw 0) 4 =? 6 then ServicePayloadIPv6V1
  else if byteAt raw 0 =? 1 then ServicePayloadRecordV1
  else ServicePayloadInvalidV1.

(** ** The round trip *)

Definition encodingOf (r : ServiceRecordViewV1) : bytes :=
  [zb 1] ++ [zb (sr_Opcode r)] ++ PutUint32 (sr_ID r) ++ PutUint16 (zlen (sr_Body r)) ++ sr_Body r.

Lemma writeAt_over a old new l x : zlen a = x -> zlen old = zlen new -> writeAt (a ++ old ++ l) x new = a ++ new ++ l.
Proof.
  intros Ha Ho. pose proof (zlen_nonneg a); pose proof (zlen_nonneg new). unfold writeAt. rewrite ztake_app_le by done. do 2 f_equal.
  rewrite <- (zdrop_zdrop (zlen new) x) by lia. rewrite zdrop_app_le by done. by apply zdrop_app_le.
Qed.

Lemma writeAt_start old new l : zlen old = zlen new -> writeAt (old ++ l) 0 new = new ++ l.
Proof. exact (fun H => writeAt_over [] old new l 0 eq_refl H). Qed.

Lemma cut_front {A} n (l : list A) : 0 <= n <= zlen l -> exists a t, l = a ++ t /\ zlen a = n /\ zlen t = zlen l - n.
Proof.
  intros Hn. exists (ztake n l), (zdrop n l). rewrite ztake_zdrop, zlen_ztake, zlen_zdrop by lia. done.
Qed.

Lemma validService_sizes c r d t : validService c r d t = true -> 272 <= sc_maximum c /\ sr_ID r <> 0 /\ zlen (sr_Body r) <= 16384 /\ zlen (sr_Body r) <= sc_maximum c - 8 /\ 1 <= sr_Opcode r <= 7.
Proof.
  unfold validService. destruct (_ || _) eqn:C in |- *; [done|]. rewrite !orb_false_iff, !Z.ltb_ge, Z.eqb_neq in C.
  unfold ServiceOpenV1, ServiceOpenResultV1, ServiceDataV1, ServiceFINV1, ServiceResetV1, ServiceProbeV1, ServiceProbeResultV1.
  intros HV. assert (1 <= sr_Opcode r <= 7); [|intuition lia].
  repeat match type of HV with (if ?a =? ?b then _ else _) = _ => destruct (Z.eqb_spec a b) as [->|_]; [lia|] end. done.
Qed.

Lemma zlen_encodingOf r : zlen (encodingOf r) = 8 + zlen (sr_Body r).
Proof. unfold encodingOf, PutUint32, PutUint16. rewrite !zlen_app, !zlen_put_be. change (zlen [zb 1]) with 1. change (zlen [zb (sr_Opcode r)]) with 1. lia. Qed.

(** The five writes lay the record out at the start of the buffer. *)
Lemma writes_encoding dst op id b : 8 + zlen b <= zlen dst ->
  writeAt (writeAt (writeAt (writeAt (writeAt dst 8 b) 0 [zb 1]) 1 [zb op]) 2 (PutUint32 id)) 6 (PutUint16 (zlen b)) =
  encodingOf (mkServiceRecord op id b) ++ zdrop (8 + zlen b) dst.
Proof.
  intros Hl. pose proof (zlen_nonneg b).
  destruct (cut_front 1 dst) as (v & t1 & -> & Hv & L1); [lia|]. rewrite zlen_app in *.
  destruct (cut_front 1 t1) as (o & t2 & -> & Ho & L2); [lia|]. rewrite zlen_app in *.
  destruct (cut_front 4 t2) as (i & t3 & -> & Hi & L3); [lia|]. rewrite zlen_app in *.
  destruct (cut_front 2 t3) as (n & t4 & -> & Hn & L4); [lia|]. rewrite zlen_app in *.
  destruct (cut_front (zlen b) t4) as (h & t5 & -> & Hh & L5); [lia|].
  assert (zlen (PutUint32 id) = 4) as L32 by apply zlen_put_be. assert (zlen (PutUint16 (zlen b)) = 2) as L16 by apply zlen_put_be.
  assert (zdrop (8 + zlen b) (v ++ o ++ i ++ n ++ h ++ t5) = t5) as ->.
  { rewrite !app_assoc. apply zdrop_app_le. rewrite !zlen_app. lia. }
  rewrite (app_assoc i), (app_assoc o), (app_assoc v), (writeAt_over (v ++ o ++ i ++ n) h b t5 8) by (rewrite ?zlen_app; lia).
  rewrite <- !app_assoc, (writeAt_start v [zb 1]) by done.
  rewrite (writeAt_over [zb 1] o [zb op] _ 1) by done.
  rewrite app_assoc, (writeAt_over ([zb 1] ++ [zb op]) i (PutUint32 id) _ 2) by (done || lia).
  rewrite app_assoc, (writeAt_over (([zb 1] ++ [zb op]) ++ PutUint32 id) n (PutUint16 (zlen b)) _ 6); [|rewrite zlen_app, L32; done|lia].
  unfold encodingOf. cbn [sr_Opcode sr_ID sr_Body]. by rewrite <- !app_assoc.
Qed.

(** [encodingOf] is what decoding accepts: the reverse direction makes the record
    canonical. *)
Definition typedService (r : ServiceRecordViewV1) : Prop := 0 <= sr_Opcode r < 256 /\ u32 (sr_ID r).

Lemma skip_head a b (v o : Byte.byte) l : 2 <= a -> beAt a b ([v] ++ [o] ++ l) = beAt (a - 2) (b - 2) l.
Proof. intros Ha. unfold beAt. f_equal. exact (slice_skip 2 a b [v; o] l eq_refl Ha). Qed.

Lemma decode_encoding c r d t : typedService r -> validService c r d t = true -> DecodeBorrowed c (encodingOf r) d t = Ok r.
Proof.
  intros [Ho Hi] HV. pose proof (validService_sizes _ _ _ _ HV) as (Hm & _ & Hb & Hb' & _). pose proof (zlen_nonneg (sr_Body r)).
  unfold DecodeBorrowed. rewrite zlen_encodingOf.
  assert (byteAt (encodingOf r) 0 = 1) as -> by done.
  assert (byteAt (encodingOf r) 1 = sr_Opcode r) as -> by exact (bz_zb_small _ Ho).
  assert (beAt 6 8 (encodingOf r) = zlen (sr_Body r)) as ->.
  { unfold encodingOf. rewrite skip_head by lia. read_field. apply get_field16. unfold_widths. lia. }
  assert (beAt 2 6 (encodingOf r) = sr_ID r) as ->.
  { unfold encodingOf. rewrite skip_head by lia. read_field. by apply get_field32. }
  assert (zdrop 8 (encodingOf r) = sr_Body r) as ->.
  { unfold encodingOf. rewrite !app_assoc. apply zdrop_app_le. unfold PutUint32, PutUint16. rewrite !zlen_app, !zlen_put_be. done. }
  rewrite reject_bind_ok. split; [lia|]. destruct r as [o i b]. cbn [sr_Opcode sr_ID sr_Body] in *. by rewrite HV.
Qed.

Lemma byte_slice l i : 0 <= i < zlen l -> [zb (byteAt l i)] = slice i (i + 1) l.
Proof.
  intros Hi. unfold byteAt, slice, zlen in *. destruct (l !! Z.to_nat i) as [b|] eqn:E; [|apply lookup_ge_None in E; lia].
  rewrite zb_bz. unfold zdrop, ztake. rewrite (drop_S _ _ _ E). by replace (Z.to_nat (i + 1 - i)) with 1%nat by lia.
Qed.

Lemma decode_canonical c raw d t r : DecodeBorrowed c raw d t = Ok r ->
  raw = encodingOf r /\ typedService r /\ validService c r d t = true.
Proof.
  unfold DecodeBorrowed. rewrite reject_bind_ok. rewrite !orb_false_iff, !Z.ltb_ge, !negb_false_iff, !Z.eqb_eq. intros [Hc HD].
  destruct Hc as (((((Hm & Hl) & Hx) & _) & Hv) & Hn). rewrite reject_bind_ok, negb_false_iff in HD. destruct HD as [HV HD].
  apply Ok_inj in HD as <-. split; [|split; [|done]].
  - unfold encodingOf. cbn [sr_Opcode sr_ID sr_Body]. rewrite zlen_zdrop by lia. rewrite <- Hn.
    rewrite <- Hv at 1. rewrite !byte_slice by lia. rewrite <- (slice_zdrop 8 raw) by lia. write_fields. symmetry. by apply slice_all.
  - split; cbn [sr_Opcode sr_ID]; [apply byteAt_range|field_range].
Qed.

(** C34: The service record codec is exact in both directions. Encoding accepts a
    record when it is valid for its direction and fits the buffer, even when its
    body is a part of that buffer: the bytes written decode to the record, the
    rest of the buffer keeps its contents, and a refusal changes nothing. Every
    accepted encoding is the one that encoding its record writes. *)
Theorem service_record_exact c d t :
  (forall dst op id body, 0 <= op < 256 -> u32 id ->
     let r := mkServiceRecord op id (WireV1.deref dst body) in
     let n := 8 + zlen (sr_Body r) in
     if validService c r d t && (n <=? zlen dst)
     then exists mem, Encode c dst op id body d t = (mem, Ok n) /\ DecodeBorrowed c (ztake n mem) d t = Ok r /\
                      zlen mem = zlen dst /\ zdrop n mem = zdrop n dst
     else Encode c dst op id body d t = (dst, Err ErrServiceRecordV1)) /\
  (forall raw r dst, DecodeBorrowed c raw d t = Ok r -> zlen raw <= zlen dst ->
     Encode c dst (sr_Opcode r) (sr_ID r) (WireV1.Owned (sr_Body r)) d t = (raw ++ zdrop (zlen raw) dst, Ok (zlen raw))).
Proof.
  split.
  - intros dst op id body Ho Hi r n. pose proof (zlen_nonneg (sr_Body r)). subst n.
    destruct (validService c r d t) eqn:HV; cbn [andb]; [|unfold Encode; fold r; by rewrite HV].
    unfold Encode. fold r. rewrite HV. cbn [negb orb]. change (zlen (WireV1.deref dst body)) with (zlen (sr_Body r)).
    destruct (Z.leb_spec (8 + zlen (sr_Body r)) (zlen dst)) as [Hl|Hl]; destruct (Z.ltb_spec (zlen dst) (8 + zlen (sr_Body r))); try lia; [|done].
    eexists. split; [reflexivity|]. change (WireV1.deref dst body) with (sr_Body r). rewrite writes_encoding by done.
    change (mkServiceRecord op id (sr_Body r)) with r. pose proof (zlen_encodingOf r).
    rewrite ztake_app_le, zdrop_app_le, zlen_app, zlen_zdrop by lia. split; [by apply decode_encoding|]. split; [lia|done].
  - intros raw r dst HD Hl. apply decode_canonical in HD as (-> & _ & HV). rewrite zlen_encodingOf in *.
    unfold Encode. cbn [WireV1.deref]. destruct r as [o i b]. cbn [sr_Opcode sr_ID sr_Body] in *. rewrite HV.
    destruct (Z.ltb_spec (zlen dst) (8 + zlen b)); [lia|]. cbn [negb orb]. by rewrite writes_encoding.
Qed.

(** A name resolution request whose body already lies in the buffer, three bytes
    off its place. *)
Definition openBody : bytes := zb <$> [2; 0; 4; 97; 46; 98; 99; 1; 187].

Lemma service_record_exact_witness :
  let c := mkServiceCodec 1200 in
  exists mem, Encode c (zb <$> [9; 9; 9; 9; 9]) ServiceFINV1 7 (WireV1.Owned []) 1 0 = (zb <$> [9; 9; 9; 9; 9], Err ErrServiceRecordV1) /\
    Encode c (replicate 5 Byte.x00 ++ openBody ++ replicate 6 Byte.x00) ServiceOpenV1 7 (WireV1.View 5 9) 1 0 = (mem, Ok 17) /\
    DecodeBorrowed c (ztake 17 mem) 1 0 = Ok (mkServiceRecord 1 7 openBody).
Proof.
  cbv zeta. pose proof (proj1 (service_record_exact (mkServiceCodec 1200) 1 0)) as HE.
  destruct (HE (replicate 5 Byte.x00 ++ openBody ++ replicate 6 Byte.x00) 1 7 (WireV1.View 5 9)) as (mem & H1 & H2 & _);
    [lia | unfold_widths; lia |].
  exists mem. split; [|split; [exact H1|exact H2]].
  exact (HE (zb <$> [9; 9; 9; 9; 9]) 4 7 (WireV1.Owned []) ltac:(lia) ltac:(unfold_widths; lia)).
Defined.

(** ** Grammars *)

(** The first byte tells the three payload grammars apart. *)
Lemma payload_kinds_disjoint :
  (forall c raw d t r, DecodeBorrowed c raw d t = Ok r -> ClassifyServicePayloadV1 raw = ServicePayloadRecordV1) /\
  (forall packet origin c4 d4 c6 d6 info, admitted packet origin c4 d4 c6 d6 info ->
     ClassifyServicePayloadV1 packet = if pi_Version info =? 4 then ServicePayloadIPv4V1 else ServicePayloadIPv6V1).
Proof.
  split; unfold ClassifyServicePayloadV1.
  - intros c raw d t r HD. apply decode_canonical in HD as (-> & _ & _). rewrite zlen_encodingOf. pose proof (zlen_nonneg (sr_Body r)).
    destruct (Z.eqb_spec (8 + zlen (sr_Body r)) 0); [lia|]. done.
  - intros packet origin c4 d4 c6 d6 info [Hz HA]%admitted_version. apply Z.eqb_neq in Hz as ->.
    by destruct HA as [[-> ->]|[-> ->]].
Qed.

(** Names are dot-separated labels of lower-case letters, digits and inner dashes. *)
Fixpoint joinDots (labels : list bytes) : bytes :=
  match labels with
  | [] => []
  | [label] => label
  | label :: labels => label ++ [dot] ++ joinDots labels
  end.

Record grammarLabel (label : bytes) : Prop := {
  gl_length : 1 <= zlen label <= 63;
  gl_bytes : Forall (fun c => labelByte c = true) label;
  gl_edges : head label <> Some dash /\ last label <> Some dash;
}.

Lemma validLabel_spec label : validLabel label = true <-> grammarLabel label.
Proof.
  unfold validLabel. rewrite andb_true_iff, negb_true_iff, !orb_false_iff, !Z.ltb_ge, !bool_decide_eq_false, <- Is_true_true, forallb_True.
  assert (Forall (fun c => Is_true (labelByte c)) label <-> Forall (fun c => labelByte c = true) label) as ->.
  { apply Forall_iff. intros c. apply Is_true_true. }
  split; [intros ((((? & ?) & ?) & ?) & ?); constructor; [lia| |]|intros [? ? []]; repeat split]; try done; lia.
Qed.

Lemma join_split value : joinDots (splitDots value) = value /\ splitDots value <> [].
Proof.
  induction value as [|b value [IH Hn]]; [done|]. cbn [splitDots]. case_bool_decide as Hb; subst.
  - split; [|done]. destruct (splitDots value); [done|]. cbn [joinDots]. cbn. f_equal. exact IH.
  - destruct (splitDots value) as [|l [|l' ls]]; [done| |]; (split; [|done]); cbn in *; by rewrite IH.
Qed.

Lemma split_label label rest : Forall (fun c => labelByte c = true) label -> splitDots (label ++ rest) =
  match splitDots rest with l :: ls => (label ++ l) :: ls | [] => [label] end.
Proof.
  induction 1 as [|c label Hc _ IH]; cbn [app splitDots].
  - destruct (splitDots rest) eqn:E; [by destruct (join_split rest)|done].
  - rewrite bool_decide_eq_false_2 by (by intros ->). rewrite IH. by destruct (splitDots rest).
Qed.

Lemma split_join labels : labels <> [] -> Forall grammarLabel labels -> splitDots (joinDots labels) = labels.
Proof.
  intros Hn HF. induction HF as [|l ls Hl HF IH]; [done|]. destruct ls as [|l' ls].
  - cbn [joinDots]. rewrite <- (app_nil_r l) at 1. rewrite split_label by apply Hl. cbn. by rewrite app_nil_r.
  - change (joinDots (l :: l' :: ls)) with (l ++ [dot] ++ joinDots (l' :: ls)). rewrite split_label by apply Hl.
    change ([dot] ++ joinDots (l' :: ls)) with (dot :: joinDots (l' :: ls)). cbn [splitDots]. rewrite bool_decide_eq_true_2 by done.
    rewrite IH by done. by rewrite app_nil_r.
Qed.

(** The domains a stream may be opened to are exactly the canonical names of the
    grammar, of at most 253 bytes. *)
Lemma domain_grammar value : IsCanonicalProxyDomain value = true <->
  zlen value <= 253 /\ exists labels, labels <> [] /\ Forall grammarLabel labels /\ value = joinDots labels.
Proof.
  unfold IsCanonicalProxyDomain. rewrite andb_true_iff, negb_true_iff, orb_false_iff, !Z.ltb_ge, <- (Is_true_true (forallb _ _)), forallb_True.
  split.
  - intros [[_ Hl] HF]. split; [done|]. exists (splitDots value). destruct (join_split value) as [HJ Hn]. split; [done|]. split; [|done].
    eapply Forall_impl; [exact HF|]. intros l. rewrite Is_true_true. apply validLabel_spec.
  - intros (Hl & labels & Hn & HF & ->). rewrite split_join by done. split; [split; [|done]|].
    + destruct HF as [|l ls [? _ _] _]; [done|]. destruct ls; cbn [joinDots]; [lia|]. rewrite zlen_app. 
      match goal with |- context [zlen l + zlen ?x] => pose proof (zlen_nonneg x) end. lia.
    + eapply Forall_impl; [exact HF|]. intros l. rewrite Is_true_true. apply validLabel_spec.
Qed.
