(* ===== verification/StrictConfig.v ===== *)
(** * The strict session configuration

    [StrictSessionConfigV1] of [src/internal/runtime/config.go]: the values agreed
    by the handshake, their canonical encoding and the hash that commits them.
    [config_hash_binds]: two configurations with one hash are the same, unless
    SHA-256 has a collision. *)

From S2P Require Import Prelude GoBytes SecurityErrors Ir KeySchedule Transcript TranscriptFacts.
From Stdlib Require Import ZArith Lia Strings.Byte.
From stdpp Require Import base list strings.
Local Open Scope Z_scope.

Inductive config_error := ErrConfigInvalid.

Record StrictSessionConfigV1 := mkStrictConfig {
  sc_ProfileID : string;
  sc_ProfileHash : bytes;
  sc_SelectedSuite : SelectedSuiteV1;
  sc_EffectivePolicyHash : bytes;
  sc_SelectedCapabilityHash : bytes;
  sc_ReplayWindowSize : Z;
  sc_MaxSessionMessages : Z;
  sc_MaxKeyLifetimeMessages : Z;
  sc_MaxConcurrentStreams : Z;
  sc_MaxFrameBytes : Z;
  sc_MaxEnvelopeBytes : Z;
  sc_ConfigPolicyHash : bytes;
}.

Definition strictConfigHashDomainV1 : string := "kurdistan/runtime/v1/config-policy".

Definition validStrictRuntimeTextV1 (value : string) : bool :=
  negb (bool_decide (value = "") || (4294967295 <? slen value))
  && forallb (fun b => negb ((bz b <? 32) || (126 <? bz b))) (sbytes value).

Definition zeroStrictConfigHashV1 (value : bytes) : bool := forallb (fun b => bz b =? 0) value.

Definition writeStrictConfigLPV1 (value : bytes) : bytes := PutUint32 (wrap32 (zlen value)) ++ value.

Definition canonicalStrictSessionConfigV1 (v : StrictSessionConfigV1) : result config_error bytes :=
  fail? negb (validStrictRuntimeTextV1 (sc_ProfileID v)) || zeroStrictConfigHashV1 (sc_ProfileHash v)
      || zeroStrictConfigHashV1 (sc_EffectivePolicyHash v) || zeroStrictConfigHashV1 (sc_SelectedCapabilityHash v)
      || (sc_ReplayWindowSize v <? 2) || (4096 <? sc_ReplayWindowSize v)
      || (sc_MaxSessionMessages v =? 0) || (Z.shiftl 1 24 <? sc_MaxSessionMessages v)
      || (sc_MaxKeyLifetimeMessages v =? 0) || (sc_MaxSessionMessages v <? sc_MaxKeyLifetimeMessages v)
      || (sc_MaxConcurrentStreams v =? 0) || (65535 <? sc_MaxConcurrentStreams v)
      || (sc_MaxFrameBytes v =? 0) || (Z.shiftl 1 20 <? sc_MaxFrameBytes v)
      || (sc_MaxEnvelopeBytes v =? 0) || (sc_MaxFrameBytes v <? sc_MaxEnvelopeBytes v) with ErrConfigInvalid in
  let? suite := map_err (fun _ => ErrConfigInvalid) (CanonicalSelectedSuiteV1 (sc_SelectedSuite v)) in
  Ok (writeStrictConfigLPV1 (sbytes (sc_ProfileID v)) ++ sc_ProfileHash v ++ writeStrictConfigLPV1 suite
      ++ sc_EffectivePolicyHash v ++ sc_SelectedCapabilityHash v ++ PutUint32 (sc_ReplayWindowSize v)
      ++ PutUint64 (sc_MaxSessionMessages v) ++ PutUint64 (sc_MaxKeyLifetimeMessages v) ++ PutUint32 (sc_MaxConcurrentStreams v)
      ++ PutUint32 (sc_MaxFrameBytes v) ++ PutUint32 (sc_MaxEnvelopeBytes v)).

Definition ConfigPolicyHashV1 `{Primitives} (v : StrictSessionConfigV1) : result config_error bytes :=
  let? raw := canonicalStrictSessionConfigV1 v in
  Ok (sha256 (writeStrictConfigLPV1 (sbytes strictConfigHashDomainV1) ++ writeStrictConfigLPV1 raw)).

Definition validateStrictSessionConfigV1 `{Primitives} (v : StrictSessionConfigV1) : result config_error unit :=
  let? want := ConfigPolicyHashV1 v in
  reject (negb (bool_decide (want = sc_ConfigPolicyHash v))) ErrConfigInvalid.

(** ** What the hash commits *)

(** The Go types of the fields. *)
Record typedStrict (v : StrictSessionConfigV1) : Prop := {
  ts_hashes : zlen (sc_ProfileHash v) = 32 /\ zlen (sc_EffectivePolicyHash v) = 32 /\ zlen (sc_SelectedCapabilityHash v) = 32;
  ts_u32 : u32 (sc_ReplayWindowSize v) /\ u32 (sc_MaxConcurrentStreams v) /\ u32 (sc_MaxFrameBytes v) /\ u32 (sc_MaxEnvelopeBytes v);
  ts_u64 : u64 (sc_MaxSessionMessages v) /\ u64 (sc_MaxKeyLifetimeMessages v);
}.

(** The values the runtime relies on. *)
Lemma canonical_limits v raw : typedStrict v -> canonicalStrictSessionConfigV1 v = Ok raw ->
  1 <= sc_MaxKeyLifetimeMessages v <= sc_MaxSessionMessages v /\ sc_MaxSessionMessages v <= 2 ^ 24 /\
  2 <= sc_ReplayWindowSize v <= 4096 /\ 1 <= sc_MaxEnvelopeBytes v <= sc_MaxFrameBytes v /\ sc_MaxFrameBytes v <= 2 ^ 20.
Proof.
  intros [_ (U1 & _ & U3 & U4) [U5 U6]] HC. unfold canonicalStrictSessionConfigV1 in HC. apply reject_bind_ok in HC as [HC _].
  rewrite !orb_false_iff, !Z.ltb_ge, !Z.eqb_neq in HC. change (Z.shiftl 1 24) with (2 ^ 24) in HC. change (Z.shiftl 1 20) with (2 ^ 20) in HC.
  unfold_widths. intuition lia.
Qed.

Lemma canonical_inj v v' raw : typedStrict v -> typedStrict v' -> small raw ->
  canonicalStrictSessionConfigV1 v = Ok raw -> canonicalStrictSessionConfigV1 v' = Ok raw ->
  sc_ConfigPolicyHash v = sc_ConfigPolicyHash v' -> v = v'.
Proof.
  intros [(A1 & A2 & A3) (U1 & U2 & U3 & U4) [U5 U6]] [(B1 & B2 & B3) (W1 & W2 & W3 & W4) [W5 W6]] HS HV HV' HH.
  unfold canonicalStrictSessionConfigV1 in HV, HV'. go_inv HV. go_inv HV'. apply map_err_ok in E, E0. apply Ok_inj in HV as <-. apply Ok_inj in HV' as HE.
  change writeStrictConfigLPV1 with writeLP in *. symmetry in HE.
  apply lp_inj in HE as [H1 HE]; [|done]. apply small_app in HS as [_ HS]. apply bytes_app_inj in HE as [H2 HE]; [|congruence].
  apply small_app in HS as [_ HS]. apply lp_inj in HE as [H3 HE]; [|done]. apply small_app in HS as [HS _].
  apply bytes_app_inj in HE as [H4 HE]; [|congruence]. apply bytes_app_inj in HE as [H5 HE]; [|congruence].
  apply put_be_app_inj in HE as [H6 HE]; [|done..]. apply put_be_app_inj in HE as [H7 HE]; [|done..].
  apply put_be_app_inj in HE as [H8 HE]; [|done..]. apply put_be_app_inj in HE as [H9 HE]; [|done..].
  apply put_be_app_inj in HE as [H10 H11]; [|done..]. apply put_be_inj in H11; [|done..].
  apply sbytes_inj in H1. rewrite <- H3 in E0. unfold small in HS. rewrite zlen_writeLP in HS.
  assert (HSx : small x) by (unfold small; lia). pose proof (suite_inj _ _ _ HSx E E0) as H12.
  destruct v, v'; cbn in *. by subst.
Qed.

(** C29: The policy hash of a strict session configuration commits every field: two
    configurations that both validate against one policy hash are the same
    configuration, unless two different inputs of SHA-256 have the same digest (for
    configurations of the Go types whose encoding is shorter than 4 GiB, the range
    of the length prefixes). *)
Theorem config_hash_binds `{Primitives} v v' raw : typedStrict v -> typedStrict v' ->
  canonicalStrictSessionConfigV1 v = Ok raw -> small (writeLP (sbytes strictConfigHashDomainV1) ++ writeLP raw) ->
  validateStrictSessionConfigV1 v = Ok tt -> validateStrictSessionConfigV1 v' = Ok tt ->
  sc_ConfigPolicyHash v = sc_ConfigPolicyHash v' ->
  v = v' \/ exists x y, x <> y /\ sha256 x = sha256 y.
Proof.
  intros T T' HC HS HV HV' HH. unfold validateStrictSessionConfigV1, ConfigPolicyHashV1 in HV, HV'.
  rewrite HC in HV. go_inv HV. go_inv HV'. cbn [rbind] in E. apply Ok_inj in E as <-. apply rbind_ok in E0 as (raw' & HC' & E0). apply Ok_inj in E0 as <-.
  apply negb_false_iff, bool_decide_eq_true in HV, HV'. rewrite <- HH, <- HV in HV'.
  destruct (decide (raw' = raw)) as [->|Hne]; [left|right].
  - apply small_app in HS as [_ HS]. unfold small in HS. rewrite zlen_writeLP in HS. eapply canonical_inj; try done. unfold small. lia.
  - eexists _, _. split; [|exact HV']. intros HE. change writeStrictConfigLPV1 with writeLP in HE. symmetry in HE.
    pose proof HS as HS'. apply lp_inj in HE as [_ HE]; [|done]. apply small_app in HS' as [_ HS'].
    rewrite <- (app_nil_r (writeLP raw)) in HE, HS'. rewrite <- (app_nil_r (writeLP raw')) in HE. apply lp_inj in HE as [HE _]; [|done]. by subst.
Qed.

(** ** Witness *)

Definition sampleHash (n : Z) : bytes := put_be 32 n.

Definition unhashedConfig (session lifetime : Z) : StrictSessionConfigV1 :=
  mkStrictConfig "profile-1" (sampleHash 1) (mkSelectedSuite "kdf_hkdf_sha256" "aead_aes_256_gcm" "mac_hmac_sha256")
    (sampleHash 2) (sampleHash 3) 64 session lifetime 8 65536 32768 (sampleHash 0).

Definition hashedConfig (v : StrictSessionConfigV1) : StrictSessionConfigV1 :=
  match @ConfigPolicyHashV1 toyPrimitives v with
  | Ok h => mkStrictConfig (sc_ProfileID v) (sc_ProfileHash v) (sc_SelectedSuite v) (sc_EffectivePolicyHash v) (sc_SelectedCapabilityHash v)
              (sc_ReplayWindowSize v) (sc_MaxSessionMessages v) (sc_MaxKeyLifetimeMessages v) (sc_MaxConcurrentStreams v)
              (sc_MaxFrameBytes v) (sc_MaxEnvelopeBytes v) h
  | Err _ => v
  end.

Definition sampleConfig (session lifetime : Z) : StrictSessionConfigV1 := hashedConfig (unhashedConfig session lifetime).

(** Under a hash without any strength two configurations share a policy hash, and
    the theorem finds the collision. *)
Definition constantPrimitives : Primitives := {|
  sha256 := fun _ => sampleHash 3;
  hkdf_extract := @hkdf_extract toyPrimitives;
  hkdf_expand := @hkdf_expand toyPrimitives;
|}.
Definition constantConfig (session : Z) : StrictSessionConfigV1 :=
  mkStrictConfig "profile-1" (sampleHash 1) (mkSelectedSuite "kdf_hkdf_sha256" "aead_aes_256_gcm" "mac_hmac_sha256")
    (sampleHash 2) (sampleHash 3) 64 session 2 8 65536 32768 (sampleHash 3).

Lemma config_hash_binds_witness :
  @validateStrictSessionConfigV1 constantPrimitives (constantConfig 8) = Ok tt /\
  @validateStrictSessionConfigV1 constantPrimitives (constantConfig 9) = Ok tt /\ constantConfig 8 <> constantConfig 9 /\
  (constantConfig 8 = constantConfig 9 \/ exists x y, x <> y /\ @sha256 constantPrimitives x = @sha256 constantPrimitives y).
Proof.
  split; [vm_compute; reflexivity|]. split; [vm_compute; reflexivity|]. split; [vm_compute; discriminate|].
  eapply (@config_hash_binds constantPrimitives); try (vm_compute; reflexivity);
    constructor; vm_compute; repeat split; (discriminate || reflexivity).
Defined.
