(* ===== verification/Lifecycle.v ===== *)
(** * The lifecycle of an authenticated pair

    [src/internal/runtime/lifecycle.go] (the endpoint lifecycle) with the
    reservations that [protected_channel.go] makes on it and the coordinator of
    [authenticated_pair.go]. Two endpoints share one coordinator: an error on most
    paths closes the pair for both. The fields of [endpointLifecycleV1] are grouped
    by what changes them: [identityV1] (fixed at construction), [keyStateV1] (keys,
    record sequences, replay windows), [sendStateV1] (operations this end
    originates) and [receiveStateV1] (operations of the peer). A destroyed endpoint
    has no owner and no schedule; its maps are then nil in the source and empty
    here, and every check refuses it before reading them.

    Each method holds the coordinator's mutex from entry to exit, so it is one
    step; only [lastCommitDeliver] is written after the release, and its readers
    hold the mutex of the channel that calls. The profile generation belongs to
    the runtime and has its own mutex: another pair may advance it between the
    reads of one method, so a method takes the view of each read ([seen]). The test hooks and the injected lab faults are
    left out, as are the pointer comparisons that hold by construction inside one
    critical section. *)

From S2P Require Import Prelude GoBytes SecurityErrors Ir KeySchedule Replay Nonce Transcript StrictConfig Envelope Records Channel.
From Stdlib Require Import ZArith Lia Strings.Byte.
From stdpp Require Import base list gmap strings.
Local Open Scope Z_scope.

Inductive lifecycle_error :=
  | ErrLifecycle | ErrProfileIncompatible | ErrProfileRotationRequired | ErrSessionMessageLimit | ErrKeyLifetimeExhausted
  | ErrRekeyFailed | ErrOperationAckInvalid_ | ErrSecureChannel | ErrRecordInvalid_ | ErrReplayCommit (e : env_error).

(** [auth.State]. *)
Inductive State := StateNew | StateNegotiating | StateAuthenticating | StateEstablished | StateRekeyPending | StateClosing | StateClosed.

#[export] Instance State_eq_dec : EqDecision State.
Proof. solve_decision. Defined.

Definition lifecycleRoleClientV1 : Z := 1.
Definition lifecycleRoleRelayV1 : Z := 2.
Definition lifecycleTransmissionLimitV1 : Z := 3.

(** The pointers to the two lifecycles of a pair. *)
Inductive side := Client | Relay.

#[export] Instance side_eq_dec : EqDecision side.
Proof. solve_decision. Defined.

Definition peerOf (who : side) : side := match who with Client => Relay | Relay => Client end.

Definition zeroHash : bytes := replicate 32 Byte.x00.
Definition zeroConfig : StrictSessionConfigV1 :=
  mkStrictConfig "" zeroHash (mkSelectedSuite "" "" "") zeroHash zeroHash 0 0 0 0 0 0 zeroHash.

(** ** Records of the bookkeeping *)

Record outboundSequenceStateV1 := mkOutSeq { os_sequence : Z; os_ended : bool }.

Record recordReservationKeyV1 := mkKey { rk_streamSlot : Z; rk_epoch : Z; rk_sequence : Z }.

#[export] Instance recordReservationKey_eq_dec : EqDecision recordReservationKeyV1.
Proof. solve_decision. Defined.
#[export] Instance recordReservationKey_countable : Countable recordReservationKeyV1.
Proof.
  apply (inj_countable' (fun k => (rk_streamSlot k, rk_epoch k, rk_sequence k)) (fun t => mkKey t.1.1 t.1.2 t.2)). by intros [].
Defined.

#[export] Instance OperationAck_eq_dec : EqDecision OperationAckV1.
Proof. solve_decision. Defined.

Record outstandingOperationV1 := mkOutstanding {
  oo_id : bytes;
  oo_originDirection : Z;
  oo_originEpoch : Z;
  oo_streamSlot : Z;
  oo_operationSequence : Z;
  oo_expectedCompleted : Z;
  oo_attempts : Z;
}.

Record completedOperationV1 := mkCompleted {
  co_originDirection : Z;
  co_originEpoch : Z;
  co_streamSlot : Z;
  co_operationSequence : Z;
  co_ack : OperationAckV1;
  co_ackAttempts : Z;
}.

Record operationTransmissionV1 := mkTransmission {
  tx_owner : side;
  tx_coordinator : Z;
  tx_operationID : bytes;
  tx_originDirection : Z;
  tx_originEpoch : Z;
  tx_streamSlot : Z;
  tx_operationSequence : Z;
  tx_recordEpoch : Z;
  tx_recordSequence : Z;
  tx_attempt : Z;
}.

#[export] Instance operationTransmission_eq_dec : EqDecision operationTransmissionV1.
Proof. solve_decision. Defined.

Record acknowledgementTransmissionV1 := mkAckTransmission {
  at_owner : side;
  at_coordinator : Z;
  at_ack : OperationAckV1;
  at_recordEpoch : Z;
  at_recordSequence : Z;
  at_attempt : Z;
}.

#[export] Instance acknowledgementTransmission_eq_dec : EqDecision acknowledgementTransmissionV1.
Proof. solve_decision. Defined.

Definition operationReservationKeyV1 (t : operationTransmissionV1) : recordReservationKeyV1 :=
  mkKey (tx_streamSlot t) (tx_recordEpoch t) (tx_recordSequence t).
Definition ackReservationKeyV1 (t : acknowledgementTransmissionV1) : recordReservationKeyV1 :=
  mkKey 0 (at_recordEpoch t) (at_recordSequence t).

(** ** Endpoints and their coordinator *)

Record identityV1 := mkIdentity {
  id_owner : bool;                 (* the runtime of the pair, or nil *)
  id_runtimeEpoch : bytes;
  id_config : StrictSessionConfigV1;
  id_role : Z;
  id_rotation : string;
  id_nonceMode : string;
  id_replayPolicy : string;
  id_th4 : bytes;
  id_generation : Z;
}.

Record keyStateV1 := mkKeys {
  k_schedule : option KeySchedule;
  k_keyEpoch : Z;
  k_outSequence : Z;
  k_outSequenceEnd : bool;
  k_outStreams : gmap Z outboundSequenceStateV1;
  k_outKeyAttempts : Z;
  k_inKeyAttempts : Z;
  k_replay : option ReplayWindowV1;
  k_replayStreams : gmap Z ReplayWindowV1;
}.

Record sendStateV1 := mkSend {
  sd_operationSequence : Z;
  sd_operationSequenceEnd : bool;
  sd_sendCompleted : Z;
  sd_outstanding : gmap bytes outstandingOperationV1;
  sd_acknowledged : gmap bytes Z;
  sd_issuedOperations : gmap recordReservationKeyV1 operationTransmissionV1;
}.

Record receiveStateV1 := mkReceive {
  rc_inOperationSequence : Z;
  rc_inOperationSequenceEnd : bool;
  rc_receiveCompleted : Z;
  rc_completed : gmap bytes completedOperationV1;
  rc_issuedAcks : gmap recordReservationKeyV1 acknowledgementTransmissionV1;
  rc_lastCommitDeliver : bool;
}.

Record endpointLifecycleV1 := mkLife {
  lf_state : State;
  lf_id : identityV1;
  lf_keys : keyStateV1;
  lf_send : sendStateV1;
  lf_recv : receiveStateV1;
}.

(** [pairTerminalCoordinatorV1] with the lifecycles it destroys; [pr_id] is its
    address, [pr_epoch] the epoch of the runtime that owns it. *)
Record pairV1 := mkPair {
  pr_id : Z;
  pr_epoch : bytes;
  pr_closed : bool;
  pr_client : endpointLifecycleV1;
  pr_relay : endpointLifecycleV1;
}.

Definition lifeOf (p : pairV1) (who : side) : endpointLifecycleV1 := match who with Client => pr_client p | Relay => pr_relay p end.
Definition setLife (p : pairV1) (who : side) (life : endpointLifecycleV1) : pairV1 :=
  match who with
  | Client => mkPair (pr_id p) (pr_epoch p) (pr_closed p) life (pr_relay p)
  | Relay => mkPair (pr_id p) (pr_epoch p) (pr_closed p) (pr_client p) life
  end.

(** What one read of the runtime's profile state returns. *)
Record profileView := mkView { pv_overflow : bool; pv_generation : Z }.

Definition zeroRuntimeEpoch (epoch : bytes) : bool := forallb (fun b => bz b =? 0) epoch.

Definition partitioned (life : endpointLifecycleV1) : bool := bool_decide (id_nonceMode (lf_id life) = NonceModeStreamPartitionedCounterV1).

Definition outboundDirectionV1 (life : endpointLifecycleV1) : Z :=
  if id_role (lf_id life) =? lifecycleRoleClientV1 then controlDirectionClientV1 else controlDirectionRelayV1.

Definition maxSession (life : endpointLifecycleV1) : Z := sc_MaxSessionMessages (id_config (lf_id life)).
Definition maxKeyLifetime (life : endpointLifecycleV1) : Z := sc_MaxKeyLifetimeMessages (id_config (lf_id life)).

Definition validStrictCandidateLockedV1 (p : pairV1) (life : endpointLifecycleV1) : bool :=
  id_owner (lf_id life) && bool_decide (pr_epoch p = id_runtimeEpoch (lf_id life)) && negb (zeroRuntimeEpoch (id_runtimeEpoch (lf_id life)))
  && match k_schedule (lf_keys life) with Some s => Epoch s =? k_keyEpoch (lf_keys life) | None => false end
  && mem (id_nonceMode (lf_id life)) [NonceModeCounterXORBaseV1; NonceModeCounterAppendBaseV1;
                                      NonceModeDirectionalCounterV1; NonceModeStreamPartitionedCounterV1]
  && ((id_role (lf_id life) =? lifecycleRoleClientV1) || (id_role (lf_id life) =? lifecycleRoleRelayV1)).

Definition validLockedV1 (p : pairV1) (life : endpointLifecycleV1) : bool :=
  validStrictCandidateLockedV1 p life
  && (if partitioned life then bool_decide (k_replay (lf_keys life) = None) else bool_decide (is_Some (k_replay (lf_keys life)))).

Definition destroyLockedV1 (life : endpointLifecycleV1) : endpointLifecycleV1 :=
  mkLife StateClosed (mkIdentity false zeroHash zeroConfig 0 "" "" "" zeroHash 0)
    (mkKeys None 0 0 false ∅ 0 0 None ∅) (mkSend 0 false 0 ∅ ∅ ∅) (mkReceive 0 false 0 ∅ ∅ (rc_lastCommitDeliver (lf_recv life))).

Definition closeLockedV1 (p : pairV1) : pairV1 :=
  if pr_closed p then p else mkPair (pr_id p) (pr_epoch p) true (destroyLockedV1 (pr_client p)) (destroyLockedV1 (pr_relay p)).

(** [context] is what the handshake agreed: the effective policy and the
    transcript hash. *)
Definition newEndpointLifecycleV1 (ownerEpoch : bytes) (profile : profileView) (schedule : KeySchedule) (config : StrictSessionConfigV1)
    (policy : EffectiveSecurityPolicy) (transcriptHash : bytes) (role : Z) (state : State) : result lifecycle_error endpointLifecycleV1 :=
  fail? negb (Epoch schedule =? 0) || zeroRuntimeEpoch ownerEpoch
      || (negb (role =? lifecycleRoleClientV1) && negb (role =? lifecycleRoleRelayV1))
      || (negb (bool_decide (state = StateEstablished)) && negb (bool_decide (state = StateAuthenticating))) with ErrProfileIncompatible in
  let? replay := (if bool_decide (eff_NonceMode policy = NonceModeStreamPartitionedCounterV1) then Ok None
                  else map_err (fun _ => ErrProfileIncompatible)
                         (rbind (NewReplayWindowV1 (eff_ReplayPolicy policy) (sc_ReplayWindowSize config)) (fun w => Ok (Some w)))) in
  fail? pv_overflow profile with ErrProfileRotationRequired in
  Ok (mkLife state
        (mkIdentity true ownerEpoch config role (eff_KeyRotationPolicy policy) (eff_NonceMode policy) (eff_ReplayPolicy policy) transcriptHash
           (pv_generation profile))
        (mkKeys (Some schedule) (Epoch schedule) 0 false ∅ 0 0 replay ∅) (mkSend 0 false 0 ∅ ∅ ∅) (mkReceive 0 false 0 ∅ ∅ false)).

(** The lifecycles of [constructAuthenticatedPairV1]: the client is established,
    the relay still authenticating. *)
Definition newPair (id : Z) (ownerEpoch : bytes) (seen : nat -> profileView) (clientSchedule relaySchedule : KeySchedule)
    (clientConfig relayConfig : StrictSessionConfigV1) (policy : EffectiveSecurityPolicy) (transcriptHash : bytes) : result lifecycle_error pairV1 :=
  let? clientLife := map_err (fun _ => ErrProfileIncompatible)
    (newEndpointLifecycleV1 ownerEpoch (seen 0%nat) clientSchedule clientConfig policy transcriptHash lifecycleRoleClientV1 StateEstablished) in
  let? relayLife := map_err (fun _ => ErrProfileIncompatible)
    (newEndpointLifecycleV1 ownerEpoch (seen 1%nat) relaySchedule relayConfig policy transcriptHash lifecycleRoleRelayV1 StateAuthenticating) in
  Ok (mkPair id ownerEpoch false clientLife relayLife).

(** An operation whose every failure closes the pair ([failLockedV1]), and one
    whose failures leave it alone. *)
Definition closing {A} (p : pairV1) (who : side) (r : result lifecycle_error (endpointLifecycleV1 * A)) : pairV1 * result lifecycle_error A :=
  match r with Ok (life, a) => (setLife p who life, Ok a) | Err e => (closeLockedV1 p, Err e) end.

Definition stateLockedV1 (p : pairV1) (who : side) : pairV1 * State :=
  if negb (validLockedV1 p (lifeOf p who)) then (closeLockedV1 p, StateClosed) else (p, lf_state (lifeOf p who)).

(** [State] of an endpoint. *)
Definition StateOf (p : pairV1) (who : side) : pairV1 * State :=
  if pr_closed p then (p, StateClosed) else stateLockedV1 p who.

(** ** The profile generation *)

Definition profileGenerationValueLockedV1 (life : endpointLifecycleV1) (pv : profileView) : result lifecycle_error unit :=
  if negb (bool_decide (id_rotation (lf_id life) = "profile_lifetime_bound")) then Ok tt
  else reject (negb (id_owner (lf_id life)) || pv_overflow pv || negb (pv_generation pv =? id_generation (lf_id life))) ErrProfileRotationRequired.

Definition lockProfileCommitGuardLockedV1 := profileGenerationValueLockedV1.

Definition readyLockedV1 (p : pairV1) (life : endpointLifecycleV1) (pv : profileView) : result lifecycle_error unit :=
  fail? negb (validLockedV1 p life) || pr_closed p || negb (bool_decide (lf_state life = StateEstablished)) with ErrLifecycle in
  profileGenerationValueLockedV1 life pv.

Definition setState (life : endpointLifecycleV1) (s : State) : endpointLifecycleV1 :=
  mkLife s (lf_id life) (lf_keys life) (lf_send life) (lf_recv life).
Definition setKeys (life : endpointLifecycleV1) (k : keyStateV1) : endpointLifecycleV1 :=
  mkLife (lf_state life) (lf_id life) k (lf_send life) (lf_recv life).
Definition setSend (life : endpointLifecycleV1) (s : sendStateV1) : endpointLifecycleV1 :=
  mkLife (lf_state life) (lf_id life) (lf_keys life) s (lf_recv life).
Definition setRecv (life : endpointLifecycleV1) (r : receiveStateV1) : endpointLifecycleV1 :=
  mkLife (lf_state life) (lf_id life) (lf_keys life) (lf_send life) r.

Definition postAuthenticationCommitV1 (p : pairV1) (who : side) (seen : nat -> profileView) : pairV1 * result lifecycle_error unit :=
  let life := lifeOf p who in
  closing p who (
    fail? negb (validLockedV1 p life) || pr_closed p || negb (id_role (lf_id life) =? lifecycleRoleRelayV1)
        || negb (bool_decide (lf_state life = StateAuthenticating)) with ErrLifecycle in
    let? _ := profileGenerationValueLockedV1 life (seen 0%nat) in
    let? _ := lockProfileCommitGuardLockedV1 life (seen 1%nat) in
    Ok (setState life StateEstablished, tt)).

Section operations.
Context `{Primitives}.

(** ** Reserving outbound records *)

Definition writeLifecycleLPV1 (out value : bytes) : bytes := out ++ PutUint32 (zlen value) ++ value.

Definition operationIDV1 (th4 : bytes) (direction epoch streamSlot operationSequence : Z) : bytes :=
  sha256 (foldl writeLifecycleLPV1 []
            [sbytes "kurdistan/operation/v1/id"; th4; PutUint16 direction; PutUint64 epoch; PutUint16 streamSlot; PutUint64 operationSequence]).

Record outboundRecordCandidateV1 := mkOutCandidate {
  oc_ratchet : bool;
  oc_pending : option KeySchedule;
  oc_replay : option ReplayWindowV1;
}.

Definition streamState (life : endpointLifecycleV1) (slot : Z) : outboundSequenceStateV1 :=
  default (mkOutSeq 0 false) (k_outStreams (lf_keys life) !! slot).

(** [make(map...)] and zero counters under a new schedule. *)
Definition installEpoch (life : endpointLifecycleV1) (pending : KeySchedule) (epoch : Z) (replay : option ReplayWindowV1)
    (replayStreams : gmap Z ReplayWindowV1) : endpointLifecycleV1 :=
  setKeys life (mkKeys (Some pending) epoch 0 false ∅ 0 0 replay replayStreams).

Definition requiresRatchet (life : endpointLifecycleV1) (slot : Z) : bool :=
  (maxKeyLifetime life <=? k_outKeyAttempts (lf_keys life)) || k_outSequenceEnd (lf_keys life)
  || (partitioned life && os_ended (streamState life slot)).

(** [RatchetKeyScheduleV1] of the current schedule, which must be at [epoch]. *)
Definition ratchetTo (life : endpointLifecycleV1) (epoch : Z) : result lifecycle_error KeySchedule :=
  match k_schedule (lf_keys life) with
  | None => Err ErrRekeyFailed
  | Some s =>
      match RatchetKeyScheduleV1 s with
      | Err _ => Err ErrRekeyFailed
      | Ok pending => if Epoch pending =? epoch then Ok pending else Err ErrRekeyFailed
      end
  end.

Definition newWindow (life : endpointLifecycleV1) : result lifecycle_error ReplayWindowV1 :=
  map_err (fun _ => ErrRekeyFailed) (NewReplayWindowV1 (id_replayPolicy (lf_id life)) (sc_ReplayWindowSize (id_config (lf_id life)))).

Definition rotates (life : endpointLifecycleV1) : bool :=
  mem (id_rotation (lf_id life)) ["message_lifetime_bound"; "profile_lifetime_bound"].
Definition sessionOnly (life : endpointLifecycleV1) : bool := bool_decide (id_rotation (lf_id life) = "session_only").

Definition prepareOutboundRecordLockedV1 (p : pairV1) (life : endpointLifecycleV1) (streamSlot : Z) (pv : profileView)
    : result lifecycle_error outboundRecordCandidateV1 :=
  let? _ := readyLockedV1 p life pv in
  if negb (requiresRatchet life streamSlot) then Ok (mkOutCandidate false None None)
  else
    fail? sessionOnly life with ErrKeyLifetimeExhausted in
    fail? negb (rotates life) with ErrRekeyFailed in
    let? pending := ratchetTo life (wrap64 (k_keyEpoch (lf_keys life) + 1)) in
    fail? Epoch pending =? 0 with ErrRekeyFailed in
    let? replay := (if partitioned life then Ok None else rbind (newWindow life) (fun w => Ok (Some w))) in
    Ok (mkOutCandidate true (Some pending) replay).

(** The record's epoch and sequence. *)
Definition commitOutboundRecordLockedV1 (life : endpointLifecycleV1) (streamSlot : Z) (candidate : outboundRecordCandidateV1)
    : result lifecycle_error (endpointLifecycleV1 * Z * Z) :=
  fail? negb (Bool.eqb (requiresRatchet life streamSlot) (oc_ratchet candidate)) with ErrRekeyFailed in
  let? life := (
    if negb (oc_ratchet candidate) then Ok life
    else
      match oc_pending candidate with
      | None => Err ErrRekeyFailed
      | Some pending =>
          fail? (k_keyEpoch (lf_keys life) =? MaxUint64) || negb (Epoch pending =? wrap64 (k_keyEpoch (lf_keys life) + 1))
              || (Epoch pending =? 0) || negb (Bool.eqb (partitioned life) (bool_decide (oc_replay candidate = None))) with ErrRekeyFailed in
          Ok (installEpoch life pending (Epoch pending) (oc_replay candidate) ∅)
      end) in
  let k := lf_keys life in
  let st := streamState life streamSlot in
  let attempts := wrap64 (k_outKeyAttempts k + 1) in
  if partitioned life then
    let st' := if os_sequence st =? MaxUint64 then mkOutSeq (os_sequence st) true else mkOutSeq (wrap64 (os_sequence st + 1)) (os_ended st) in
    Ok (setKeys life (mkKeys (k_schedule k) (k_keyEpoch k) (k_outSequence k) (k_outSequenceEnd k) (<[streamSlot := st']> (k_outStreams k))
                        attempts (k_inKeyAttempts k) (k_replay k) (k_replayStreams k)), k_keyEpoch k, os_sequence st)
  else
    let sequence := k_outSequence k in
    let '(next, ended) := if sequence =? MaxUint64 then (sequence, true) else (wrap64 (sequence + 1), k_outSequenceEnd k) in
    Ok (setKeys life (mkKeys (k_schedule k) (k_keyEpoch k) next ended (k_outStreams k)
                        attempts (k_inKeyAttempts k) (k_replay k) (k_replayStreams k)), k_keyEpoch k, sequence).

(** The common path of every reservation: prepare, check the profile again, commit. *)
Definition reserveRecord (p : pairV1) (life : endpointLifecycleV1) (streamSlot : Z) (before after : profileView)
    : result lifecycle_error (endpointLifecycleV1 * Z * Z) :=
  let? candidate := prepareOutboundRecordLockedV1 p life streamSlot before in
  let? _ := lockProfileCommitGuardLockedV1 life after in
  commitOutboundRecordLockedV1 life streamSlot candidate.

(** ** Operations of this end *)

Definition operationTransmissionLockedV1 (p : pairV1) (who : side) (o : outstandingOperationV1) (recordEpoch recordSequence : Z)
    : operationTransmissionV1 :=
  mkTransmission who (pr_id p) (oo_id o) (oo_originDirection o) (oo_originEpoch o) (oo_streamSlot o) (oo_operationSequence o)
    recordEpoch recordSequence (oo_attempts o).

(** [if n == math.MaxUint64 { end = true } else { n++ }]. *)
Definition advance (n : Z) (ended : bool) : Z * bool := if n =? MaxUint64 then (n, true) else (wrap64 (n + 1), ended).

Definition outstandingCount (life : endpointLifecycleV1) : Z := Z.of_nat (size (sd_outstanding (lf_send life))).

Definition issue (s : sendStateV1) (id : bytes) (o : outstandingOperationV1) (t : operationTransmissionV1) : sendStateV1 :=
  mkSend (sd_operationSequence s) (sd_operationSequenceEnd s) (sd_sendCompleted s) (<[id := o]> (sd_outstanding s)) (sd_acknowledged s)
    (<[operationReservationKeyV1 t := t]> (sd_issuedOperations s)).

Definition beginOperationV1 (p : pairV1) (who : side) (streamSlot : Z) (seen : nat -> profileView)
    : pairV1 * result lifecycle_error operationTransmissionV1 :=
  let life := lifeOf p who in
  closing p who (
    let? _ := readyLockedV1 p life (seen 0%nat) in
    fail? (streamSlot =? 0) || sd_operationSequenceEnd (lf_send life) with ErrLifecycle in
    fail? maxSession life <=? wrap64 (sd_sendCompleted (lf_send life) + outstandingCount life) with ErrSessionMessageLimit in
    let? reserved := reserveRecord p life streamSlot (seen 1%nat) (seen 2%nat) in
        let '(life, recordEpoch, recordSequence) := reserved in
    let direction := outboundDirectionV1 life in
    let s := lf_send life in
    let id := operationIDV1 (id_th4 (lf_id life)) direction recordEpoch streamSlot (sd_operationSequence s) in
    let expected := wrap64 (wrap64 (sd_sendCompleted s + outstandingCount life) + 1) in
    let operation := mkOutstanding id direction recordEpoch streamSlot (sd_operationSequence s) expected 1 in
    let '(next, ended) := advance (sd_operationSequence s) (sd_operationSequenceEnd s) in
    let transmission := operationTransmissionLockedV1 p who operation recordEpoch recordSequence in
    Ok (setSend life (issue (mkSend next ended (sd_sendCompleted s) (sd_outstanding s) (sd_acknowledged s) (sd_issuedOperations s))
                        id operation transmission), transmission)).

Definition retryOperationV1 (p : pairV1) (who : side) (operationID : bytes) (seen : nat -> profileView)
    : pairV1 * result lifecycle_error operationTransmissionV1 :=
  let life := lifeOf p who in
  closing p who (
    let? _ := readyLockedV1 p life (seen 0%nat) in
    match sd_outstanding (lf_send life) !! operationID with
    | None => Err ErrLifecycle
    | Some o =>
        fail? lifecycleTransmissionLimitV1 <=? oo_attempts o with ErrLifecycle in
        let? reserved := reserveRecord p life (oo_streamSlot o) (seen 1%nat) (seen 2%nat) in
        let '(life, recordEpoch, recordSequence) := reserved in
        let o := mkOutstanding (oo_id o) (oo_originDirection o) (oo_originEpoch o) (oo_streamSlot o) (oo_operationSequence o)
                   (oo_expectedCompleted o) (wrap8 (oo_attempts o + 1)) in
        let transmission := operationTransmissionLockedV1 p who o recordEpoch recordSequence in
        Ok (setSend life (issue (lf_send life) operationID o transmission), transmission)
    end).

Definition reserveAdditionalFragmentV1 (p : pairV1) (who : side) (operationID : bytes) (seen : nat -> profileView)
    : pairV1 * result lifecycle_error operationTransmissionV1 :=
  let life := lifeOf p who in
  closing p who (
    let? _ := readyLockedV1 p life (seen 0%nat) in
    match sd_outstanding (lf_send life) !! operationID with
    | None => Err ErrLifecycle
    | Some o =>
        fail? negb (bool_decide (oo_id o = operationID)) || (oo_streamSlot o =? 0) with ErrLifecycle in
        let? reserved := reserveRecord p life (oo_streamSlot o) (seen 1%nat) (seen 2%nat) in
        let '(life, epoch, sequence) := reserved in
        let transmission := operationTransmissionLockedV1 p who o epoch sequence in
        let s := lf_send life in
        Ok (setSend life (mkSend (sd_operationSequence s) (sd_operationSequenceEnd s) (sd_sendCompleted s) (sd_outstanding s)
                            (sd_acknowledged s) (<[operationReservationKeyV1 transmission := transmission]> (sd_issuedOperations s))), transmission)
    end).

Definition canReserveFragmentSetV1 (p : pairV1) (who : side) (streamSlot count : Z) (pv : profileView) : pairV1 * result lifecycle_error unit :=
  let life := lifeOf p who in
  if count <? 2 then (p, Err ErrLifecycle)
  else
    match readyLockedV1 p life pv with
    | Err e => (closeLockedV1 p, Err e)
    | Ok _ =>
        let remaining := if requiresRatchet life streamSlot then maxKeyLifetime life
                         else wrap64 (maxKeyLifetime life - k_outKeyAttempts (lf_keys life)) in
        (p, reject (remaining <? count) ErrRecordInvalid_)
    end.

Definition reserveCloseV1 (p : pairV1) (who : side) (seen : nat -> profileView) : pairV1 * result lifecycle_error (Z * Z) :=
  closing p who (
    let? reserved := reserveRecord p (lifeOf p who) 0 (seen 0%nat) (seen 1%nat) in
        let '(life, epoch, sequence) := reserved in
    Ok (life, (epoch, sequence))).

(** ** Receiving *)

Definition validStrictOperationOwnerLockedV1 (p : pairV1) (life : endpointLifecycleV1) (t : operationTransmissionV1) : bool :=
  let owner := lifeOf p (tx_owner t) in
  (tx_coordinator t =? pr_id p) && validStrictCandidateLockedV1 p owner && Bool.eqb (id_owner (lf_id owner)) (id_owner (lf_id life))
  && bool_decide (id_runtimeEpoch (lf_id owner) = id_runtimeEpoch (lf_id life)) && negb (id_role (lf_id owner) =? id_role (lf_id life))
  && (tx_originDirection t =? outboundDirectionV1 owner).

Definition validOperationOwnerLockedV1 (p : pairV1) (life : endpointLifecycleV1) (t : operationTransmissionV1) : bool :=
  let owner := lifeOf p (tx_owner t) in
  (tx_coordinator t =? pr_id p) && validLockedV1 p owner && Bool.eqb (id_owner (lf_id owner)) (id_owner (lf_id life))
  && bool_decide (id_runtimeEpoch (lf_id owner) = id_runtimeEpoch (lf_id life)) && negb (id_role (lf_id owner) =? id_role (lf_id life))
  && (tx_originDirection t =? outboundDirectionV1 owner).

Definition validIssuedOperationLockedV1 (p : pairV1) (t : operationTransmissionV1) : bool :=
  bool_decide (sd_issuedOperations (lf_send (lifeOf p (tx_owner t))) !! operationReservationKeyV1 t = Some t).

(** The identity of the operation is the hash of what it claims. *)
Definition identified (life : endpointLifecycleV1) (t : operationTransmissionV1) : bool :=
  negb (tx_streamSlot t =? 0)
  && bool_decide (operationIDV1 (id_th4 (lf_id life)) (tx_originDirection t) (tx_originEpoch t) (tx_streamSlot t) (tx_operationSequence t)
                  = tx_operationID t).

Definition sameOrigin (c : completedOperationV1) (t : operationTransmissionV1) : bool :=
  (co_originDirection c =? tx_originDirection t) && (co_originEpoch c =? tx_originEpoch t)
  && (co_streamSlot c =? tx_streamSlot t) && (co_operationSequence c =? tx_operationSequence t).

(** Whether the operation is new, and its acknowledgement. *)
Definition classify (life : endpointLifecycleV1) (t : operationTransmissionV1) : result lifecycle_error (bool * OperationAckV1) :=
  let r := lf_recv life in
  match rc_completed r !! tx_operationID t with
  | Some c => fail? negb (sameOrigin c t) with ErrLifecycle in Ok (false, co_ack c)
  | None =>
      fail? rc_inOperationSequenceEnd r || negb (tx_operationSequence t =? rc_inOperationSequence r) with ErrLifecycle in
      fail? maxSession life <=? rc_receiveCompleted r with ErrSessionMessageLimit in
      Ok (true, mkAck (tx_operationID t) (wrap64 (rc_receiveCompleted r + 1)))
  end.

(** The assignments that complete a new operation. *)
Definition complete (r : receiveStateV1) (t : operationTransmissionV1) (ack : OperationAckV1) : receiveStateV1 :=
  let '(next, ended) := advance (rc_inOperationSequence r) (rc_inOperationSequenceEnd r) in
  mkReceive next ended (wrap64 (rc_receiveCompleted r + 1))
    (<[tx_operationID t := mkCompleted (tx_originDirection t) (tx_originEpoch t) (tx_streamSlot t) (tx_operationSequence t) ack 0]> (rc_completed r))
    (rc_issuedAcks r) (rc_lastCommitDeliver r).

(** *** The strict path: the replay authority is the envelope's capability *)

(** The schedule to install, when the record is of the next epoch. *)
Definition prepareStrictReceiveEpochLockedV1 (life : endpointLifecycleV1) (epoch : Z) : result lifecycle_error (option KeySchedule) :=
  let k := lf_keys life in
  fail? (maxKeyLifetime life <=? k_inKeyAttempts k) && (epoch =? k_keyEpoch k)
    with (if sessionOnly life then ErrKeyLifetimeExhausted else ErrRekeyFailed) in
  if epoch =? k_keyEpoch k then Ok None
  else
    fail? (k_keyEpoch k =? MaxUint64) || negb (epoch =? wrap64 (k_keyEpoch k + 1)) || sessionOnly life
      with (if sessionOnly life then ErrKeyLifetimeExhausted else ErrRekeyFailed) in
    fail? negb (rotates life) with ErrRekeyFailed in
    let? pending := ratchetTo life epoch in
    Ok (Some pending).

Definition countReceived (life : endpointLifecycleV1) : endpointLifecycleV1 :=
  let k := lf_keys life in
  setKeys life (mkKeys (k_schedule k) (k_keyEpoch k) (k_outSequence k) (k_outSequenceEnd k) (k_outStreams k) (k_outKeyAttempts k)
                  (wrap64 (k_inKeyAttempts k + 1)) (k_replay k) (k_replayStreams k)).

Definition applyStrictReceiveEpochLockedV1 (life : endpointLifecycleV1) (epoch : Z) (candidate : option KeySchedule) : endpointLifecycleV1 :=
  countReceived (match candidate with
                 | Some pending => installEpoch life pending epoch (k_replay (lf_keys life)) (k_replayStreams (lf_keys life))
                 | None => life
                 end).

Definition prepareFirst (p : pairV1) (who : side) (t : operationTransmissionV1) (seen : nat -> profileView)
    : result lifecycle_error (option KeySchedule * bool * OperationAckV1) :=
  let life := lifeOf p who in
  fail? negb (validStrictCandidateLockedV1 p life) || pr_closed p
      || negb (bool_decide (lf_state life = StateEstablished)
               || bool_decide (lf_state life = StateAuthenticating) && (id_role (lf_id life) =? lifecycleRoleRelayV1)) with ErrLifecycle in
  let? _ := profileGenerationValueLockedV1 life (seen 0%nat) in
  fail? negb (validStrictOperationOwnerLockedV1 p life t) || negb (validIssuedOperationLockedV1 p t) || negb (identified life t)
    with ErrLifecycle in
  let? new := classify life t in
  let? candidate := prepareStrictReceiveEpochLockedV1 life (tx_recordEpoch t) in
  let? _ := lockProfileCommitGuardLockedV1 life (seen 1%nat) in
  Ok (candidate, fst new, snd new).

Definition setDeliver (r : receiveStateV1) (b : bool) : receiveStateV1 :=
  mkReceive (rc_inOperationSequence r) (rc_inOperationSequenceEnd r) (rc_receiveCompleted r) (rc_completed r) (rc_issuedAcks r) b.

Definition applyFirst (life : endpointLifecycleV1) (t : operationTransmissionV1) (candidate : option KeySchedule) (unique : bool)
    (ack : OperationAckV1) : endpointLifecycleV1 :=
  let life := applyStrictReceiveEpochLockedV1 life (tx_recordEpoch t) candidate in
  let life := if unique then setRecv life (complete (lf_recv life) t ack) else life in
  let life := if bool_decide (lf_state life = StateAuthenticating) then setState life StateEstablished else life in
  setRecv life (setDeliver (lf_recv life) unique).

(** [replayCommit] is the one-shot closure over the envelope; no failure closes
    the pair. *)
Definition commitFirstAuthenticatedOperationV1 {S} (p : pairV1) (who : side) (t : operationTransmissionV1) (seen : nat -> profileView)
    (replayCommit : S -> S * result lifecycle_error unit) (s : S) : S * pairV1 * result lifecycle_error OperationAckV1 :=
  match prepareFirst p who t seen with
  | Err e => (s, p, Err e)
  | Ok (candidate, unique, ack) =>
      match replayCommit s with
      | (s, Err e) => (s, p, Err e)
      | (s, Ok _) => (s, setLife p who (applyFirst (lifeOf p who) t candidate unique ack), Ok ack)
      end
  end.

(** *** The path over the endpoint's own replay windows *)

Record receiveEpochCandidateV1 := mkReceiveCandidate {
  rcv_replay : ReplayWindowV1;
  rcv_pending : option KeySchedule;      (* present when the record is of the next epoch *)
  rcv_attachSlot : bool;
  rcv_epoch : Z;
  rcv_streamSlot : Z;
  rcv_sequence : Z;
}.

Definition receiveReplayCandidateLockedV1 (life : endpointLifecycleV1) (streamSlot : Z) : result lifecycle_error (ReplayWindowV1 * bool) :=
  if negb (partitioned life) then
    match k_replay (lf_keys life) with None => Err ErrRekeyFailed | Some w => Ok (w, false) end
  else
    match k_replayStreams (lf_keys life) !! streamSlot with
    | Some w => Ok (w, false)
    | None => let? w := newWindow life in Ok (w, true)
    end.

Definition prepareReceiveEpochLockedV1 (life : endpointLifecycleV1) (streamSlot epoch sequence : Z) (pv : profileView)
    : result lifecycle_error receiveEpochCandidateV1 :=
  let k := lf_keys life in
  let? _ := profileGenerationValueLockedV1 life pv in
  if epoch =? k_keyEpoch k then
    fail? maxKeyLifetime life <=? k_inKeyAttempts k with (if sessionOnly life then ErrKeyLifetimeExhausted else ErrRekeyFailed) in
    match receiveReplayCandidateLockedV1 life streamSlot with
    | Err _ => Err ErrLifecycle
    | Ok (w, attach) =>
        fail? negb (isOk (Plausible (Some w) sequence)) with ErrLifecycle in
        Ok (mkReceiveCandidate w None attach epoch streamSlot sequence)
    end
  else
    fail? (k_keyEpoch k =? MaxUint64) || negb (epoch =? wrap64 (k_keyEpoch k + 1)) || sessionOnly life
      with (if sessionOnly life then ErrKeyLifetimeExhausted else ErrRekeyFailed) in
    fail? negb (rotates life) with ErrRekeyFailed in
    let? pending := ratchetTo life epoch in
    let? w := newWindow life in
    fail? negb (isOk (Plausible (Some w) sequence)) with ErrRekeyFailed in
    Ok (mkReceiveCandidate w (Some pending) (partitioned life) epoch streamSlot sequence).

Definition commitReceiveEpochLockedV1 (life : endpointLifecycleV1) (c : receiveEpochCandidateV1) : result lifecycle_error endpointLifecycleV1 :=
  let k := lf_keys life in
  fail? (match rcv_pending c with
         | Some pending => (k_keyEpoch k =? MaxUint64) || negb (Epoch pending =? wrap64 (k_keyEpoch k + 1)) || negb (rcv_epoch c =? Epoch pending)
                           || negb (Bool.eqb (partitioned life) (rcv_attachSlot c))
         | None => negb (rcv_epoch c =? k_keyEpoch k)
                   || (if partitioned life then Bool.eqb (rcv_attachSlot c) (bool_decide (is_Some (k_replayStreams k !! rcv_streamSlot c)))
                       else rcv_attachSlot c)
         end) with ErrRekeyFailed in
  match CommitAuthenticated (Some (rcv_replay c)) (rcv_sequence c) with
  | (Some w, Ok _) =>
      Ok (countReceived (
        match rcv_pending c with
        | Some pending => if partitioned life then installEpoch life pending (Epoch pending) None {[rcv_streamSlot c := w]}
                          else installEpoch life pending (Epoch pending) (Some w) ∅
        | None =>
            setKeys life (mkKeys (k_schedule k) (k_keyEpoch k) (k_outSequence k) (k_outSequenceEnd k) (k_outStreams k) (k_outKeyAttempts k) (k_inKeyAttempts k)
              (if partitioned life then k_replay k else Some w)
              (if partitioned life then <[rcv_streamSlot c := w]> (k_replayStreams k) else k_replayStreams k))
        end))
  | _ => Err ErrRekeyFailed
  end.

Definition commitAuthenticatedOperationV1 (p : pairV1) (who : side) (t : operationTransmissionV1) (seen : nat -> profileView)
    : pairV1 * result lifecycle_error OperationAckV1 :=
  let life := lifeOf p who in
  closing p who (
    let? _ := readyLockedV1 p life (seen 0%nat) in
    fail? negb (validOperationOwnerLockedV1 p life t) || negb (validIssuedOperationLockedV1 p t) || negb (identified life t)
      with ErrLifecycle in
    let? new := classify life t in
    let? candidate := prepareReceiveEpochLockedV1 life (tx_streamSlot t) (tx_recordEpoch t) (tx_recordSequence t) (seen 1%nat) in
    let? _ := lockProfileCommitGuardLockedV1 life (seen 2%nat) in
    let? life := commitReceiveEpochLockedV1 life candidate in
    Ok (if fst new then setRecv life (complete (lf_recv life) t (snd new)) else life, snd new)).

(** ** Acknowledgements *)

Definition reserveOperationAckV1 (p : pairV1) (who : side) (operationID : bytes) (retry : bool) (seen : nat -> profileView)
    : pairV1 * result lifecycle_error acknowledgementTransmissionV1 :=
  let life := lifeOf p who in
  closing p who (
    fail? negb (validLockedV1 p life) || pr_closed p || negb (bool_decide (lf_state life = StateEstablished)) with ErrOperationAckInvalid_ in
    let? _ := profileGenerationValueLockedV1 life (seen 0%nat) in
    match rc_completed (lf_recv life) !! operationID with
    | None => Err ErrOperationAckInvalid_
    | Some c =>
        fail? (negb retry && negb (co_ackAttempts c =? 0)) || (retry && (co_ackAttempts c =? 0)) || (lifecycleTransmissionLimitV1 <=? co_ackAttempts c)
          with ErrOperationAckInvalid_ in
        let? reserved := reserveRecord p life 0 (seen 1%nat) (seen 2%nat) in
        let '(life, recordEpoch, recordSequence) := reserved in
        let c := mkCompleted (co_originDirection c) (co_originEpoch c) (co_streamSlot c) (co_operationSequence c) (co_ack c)
                   (wrap8 (co_ackAttempts c + 1)) in
        let transmission := mkAckTransmission who (pr_id p) (co_ack c) recordEpoch recordSequence (co_ackAttempts c) in
        let r := lf_recv life in
        Ok (setRecv life (mkReceive (rc_inOperationSequence r) (rc_inOperationSequenceEnd r) (rc_receiveCompleted r)
                            (<[operationID := c]> (rc_completed r))
                            (<[ackReservationKeyV1 transmission := transmission]> (rc_issuedAcks r)) (rc_lastCommitDeliver r)), transmission)
    end).

Definition beginOperationAckV1 (p : pairV1) (who : side) (operationID : bytes) := reserveOperationAckV1 p who operationID false.
Definition retryOperationAckV1 (p : pairV1) (who : side) (operationID : bytes) := reserveOperationAckV1 p who operationID true.

Definition validAckOwnerLockedV1 (p : pairV1) (life : endpointLifecycleV1) (t : acknowledgementTransmissionV1) : bool :=
  let owner := lifeOf p (at_owner t) in
  (at_coordinator t =? pr_id p) && validLockedV1 p owner && Bool.eqb (id_owner (lf_id owner)) (id_owner (lf_id life))
  && bool_decide (id_runtimeEpoch (lf_id owner) = id_runtimeEpoch (lf_id life)) && negb (id_role (lf_id owner) =? id_role (lf_id life)).

Definition validIssuedAckLockedV1 (p : pairV1) (t : acknowledgementTransmissionV1) : bool :=
  let owner := lf_recv (lifeOf p (at_owner t)) in
  bool_decide (rc_issuedAcks owner !! ackReservationKeyV1 t = Some t)
  && match rc_completed owner !! ack_OperationID (at_ack t) with
     | Some c => bool_decide (co_ack c = at_ack t) && (0 <? at_attempt t) && (at_attempt t <=? co_ackAttempts c)
     | None => false
     end.

(** The assignments of an accepted acknowledgement. *)
Definition acknowledge (s : sendStateV1) (ack : OperationAckV1) : sendStateV1 :=
  mkSend (sd_operationSequence s) (sd_operationSequenceEnd s) (wrap64 (sd_sendCompleted s + 1)) (delete (ack_OperationID ack) (sd_outstanding s))
    (<[ack_OperationID ack := ack_CompletedCount ack]> (sd_acknowledged s)) (sd_issuedOperations s).

(** The acknowledgement is for the oldest outstanding operation. *)
Definition acknowledges (s : sendStateV1) (o : outstandingOperationV1) (ack : OperationAckV1) : bool :=
  (ack_CompletedCount ack =? oo_expectedCompleted o) && (ack_CompletedCount ack =? wrap64 (sd_sendCompleted s + 1)).

Definition commitAuthenticatedOperationAckV1 (p : pairV1) (who : side) (t : acknowledgementTransmissionV1) (seen : nat -> profileView)
    : pairV1 * result lifecycle_error unit :=
  let life := lifeOf p who in
  closing p who (
    fail? negb (validLockedV1 p life) || pr_closed p || negb (bool_decide (lf_state life = StateEstablished)) with ErrOperationAckInvalid_ in
    let? _ := profileGenerationValueLockedV1 life (seen 0%nat) in
    fail? negb (validAckOwnerLockedV1 p life t) || negb (validIssuedAckLockedV1 p t) with ErrOperationAckInvalid_ in
    let ack := at_ack t in
    let? known := (match sd_outstanding (lf_send life) !! ack_OperationID ack with
                   | Some o => fail? negb (acknowledges (lf_send life) o ack) with ErrOperationAckInvalid_ in Ok true
                   | None => if bool_decide (sd_acknowledged (lf_send life) !! ack_OperationID ack = Some (ack_CompletedCount ack)) then Ok false
                             else Err ErrOperationAckInvalid_
                   end) in
    let? candidate := map_err (fun e => match e with ErrProfileRotationRequired => e | _ => ErrOperationAckInvalid_ end)
                        (prepareReceiveEpochLockedV1 life 0 (at_recordEpoch t) (at_recordSequence t) (seen 1%nat)) in
    let? _ := lockProfileCommitGuardLockedV1 life (seen 2%nat) in
    let? life := map_err (fun _ => ErrOperationAckInvalid_) (commitReceiveEpochLockedV1 life candidate) in
    Ok (if known : bool then setSend life (acknowledge (lf_send life) ack) else life, tt)).

Definition prepareStrictAck (p : pairV1) (who : side) (direction epoch sequence : Z) (ack : OperationAckV1) (seen : nat -> profileView)
    : result lifecycle_error (option KeySchedule) :=
  let life := lifeOf p who in
  let sender := lifeOf p (peerOf who) in
  fail? negb (validStrictCandidateLockedV1 p life) || pr_closed p || negb (bool_decide (lf_state life = StateEstablished))
      || negb (validStrictCandidateLockedV1 p sender) || negb (bool_decide (lf_state sender = StateEstablished))
      || negb (Bool.eqb (id_owner (lf_id sender)) (id_owner (lf_id life)))
      || negb (bool_decide (id_runtimeEpoch (lf_id sender) = id_runtimeEpoch (lf_id life))) || (id_role (lf_id sender) =? id_role (lf_id life))
      || negb (direction =? outboundDirectionV1 sender) with ErrOperationAckInvalid_ in
  let? _ := profileGenerationValueLockedV1 life (seen 0%nat) in
  let? _ := profileGenerationValueLockedV1 sender (seen 1%nat) in
  match rc_issuedAcks (lf_recv sender) !! mkKey 0 epoch sequence, rc_completed (lf_recv sender) !! ack_OperationID ack,
        sd_outstanding (lf_send life) !! ack_OperationID ack with
  | Some t, Some c, Some o =>
      fail? negb (bool_decide (at_owner t = peerOf who)) || negb (at_coordinator t =? pr_id p) || negb (at_recordEpoch t =? epoch)
          || negb (at_recordSequence t =? sequence) || negb (bool_decide (at_ack t = ack)) || (at_attempt t =? 0)
          || negb (bool_decide (co_ack c = ack)) || (co_ackAttempts c <? at_attempt t) || negb (acknowledges (lf_send life) o ack)
        with ErrOperationAckInvalid_ in
      let? candidate := map_err (fun _ => ErrOperationAckInvalid_) (prepareStrictReceiveEpochLockedV1 life epoch) in
      let? _ := lockProfileCommitGuardLockedV1 life (seen 2%nat) in
      Ok candidate
  | _, _, _ => Err ErrOperationAckInvalid_
  end.

(** Called for the other end of the same pair: [sender] is the peer. *)
Definition commitStrictAuthenticatedOperationAckV1 {S} (p : pairV1) (who : side) (direction epoch sequence : Z) (ack : OperationAckV1)
    (seen : nat -> profileView) (replayCommit : S -> S * result lifecycle_error unit) (s : S) : S * pairV1 * result lifecycle_error unit :=
  match prepareStrictAck p who direction epoch sequence ack seen with
  | Err e => (s, p, Err e)
  | Ok candidate =>
      match replayCommit s with
      | (s, Err e) => (s, p, Err e)
      | (s, Ok _) =>
          let life := applyStrictReceiveEpochLockedV1 (lifeOf p who) epoch candidate in
          (s, setLife p who (setSend life (acknowledge (lf_send life) ack)), Ok tt)
      end
  end.

End operations.
