(* ===== verification/LifecycleFacts.v ===== *)
(** * What the lifecycle of a pair guarantees

    Runs of [Lifecycle] operations by both ends, in any order and with any views of
    the profile state, produce a trace of events. [record_positions_unique]: an end
    never reserves the same record position twice and never uses a key longer than
    its lifetime. [operations_in_order]: what is acknowledged is a prefix of what
    was delivered, which is a prefix of what was begun. *)

From S2P Require Import Prelude GoBytes SecurityErrors Ir KeySchedule Replay Nonce Transcript StrictConfig Envelope Records Channel Lifecycle.
From Stdlib Require Import ZArith Lia Strings.Byte.
From stdpp Require Import base list gmap strings.
Local Open Scope Z_scope.

(** ** Traces *)

Inductive event :=
  | Reserved (who : side) (epoch slot sequence : Z)
  | Begun (who : side) (sequence : Z) (id : bytes)
  | Delivered (who : side) (sequence : Z) (id : bytes)
  | Acked (who : side) (sequence : Z) (id : bytes).

Inductive lifeOp :=
  | DoBegin (who : side) (slot : Z) (seen : nat -> profileView)
  | DoRetry (who : side) (id : bytes) (seen : nat -> profileView)
  | DoFragment (who : side) (id : bytes) (seen : nat -> profileView)
  | DoFragmentSet (who : side) (slot count : Z) (pv : profileView)
  | DoClose (who : side) (seen : nat -> profileView)
  | DoCommit (who : side) (t : operationTransmissionV1) (seen : nat -> profileView) (replay : result lifecycle_error unit)
  | DoCommitOwn (who : side) (t : operationTransmissionV1) (seen : nat -> profileView)
  | DoAck (who : side) (id : bytes) (retry : bool) (seen : nat -> profileView)
  | DoCommitAck (who : side) (direction epoch sequence : Z) (ack : OperationAckV1) (seen : nat -> profileView) (replay : result lifecycle_error unit)
  | DoCommitAckOwn (who : side) (t : acknowledgementTransmissionV1) (seen : nat -> profileView)
  | DoPostAuth (who : side) (seen : nat -> profileView)
  | DoState (who : side)
  | DoShut.

Section runs.
Context `{Primitives}.

Definition events {E A} (r : result E A) (f : A -> list event) : list event := match r with Ok a => f a | Err _ => [] end.

Definition reservedBy (who : side) (t : operationTransmissionV1) : event := Reserved who (tx_recordEpoch t) (tx_streamSlot t) (tx_recordSequence t).

Definition isNew (p : pairV1) (who : side) (id : bytes) : bool := bool_decide (rc_completed (lf_recv (lifeOf p who)) !! id = None).
Definition isOutstanding (p : pairV1) (who : side) (id : bytes) : bool := bool_decide (is_Some (sd_outstanding (lf_send (lifeOf p who)) !! id)).

Definition deliveredEvent (who : side) (t : operationTransmissionV1) : event := Delivered who (tx_operationSequence t) (tx_operationID t).
Definition ackedEvent (who : side) (ack : OperationAckV1) : event := Acked who (ack_CompletedCount ack - 1) (ack_OperationID ack).

(** One operation. A delivery is reported where the caller hands the operation on:
    when [lastCommitDeliver] is set, and when an own-window commit is of a new
    operation. *)
Definition exec (op : lifeOp) (p : pairV1) : pairV1 * list event :=
  match op with
  | DoBegin who slot seen =>
      let '(p, r) := beginOperationV1 p who slot seen in
      (p, events r (fun t => [reservedBy who t; Begun who (tx_operationSequence t) (tx_operationID t)]))
  | DoRetry who id seen => let '(p, r) := retryOperationV1 p who id seen in (p, events r (fun t => [reservedBy who t]))
  | DoFragment who id seen => let '(p, r) := reserveAdditionalFragmentV1 p who id seen in (p, events r (fun t => [reservedBy who t]))
  | DoFragmentSet who slot count pv => (fst (canReserveFragmentSetV1 p who slot count pv), [])
  | DoClose who seen => let '(p, r) := reserveCloseV1 p who seen in (p, events r (fun c => [Reserved who (fst c) 0 (snd c)]))
  | DoCommit who t seen replay =>
      let '(_, p', r) := commitFirstAuthenticatedOperationV1 p who t seen (fun s => (s, replay)) tt in
      (p', events r (fun _ => if rc_lastCommitDeliver (lf_recv (lifeOf p' who)) then [deliveredEvent who t] else []))
  | DoCommitOwn who t seen =>
      let '(p', r) := commitAuthenticatedOperationV1 p who t seen in
      (p', events r (fun _ => if isNew p who (tx_operationID t) then [deliveredEvent who t] else []))
  | DoAck who id retry seen =>
      let '(p, r) := reserveOperationAckV1 p who id retry seen in (p, events r (fun t => [Reserved who (at_recordEpoch t) 0 (at_recordSequence t)]))
  | DoCommitAck who direction epoch sequence ack seen replay =>
      let '(_, p, r) := commitStrictAuthenticatedOperationAckV1 p who direction epoch sequence ack seen (fun s => (s, replay)) tt in
      (p, events r (fun _ => [ackedEvent who ack]))
  | DoCommitAckOwn who t seen =>
      let '(p', r) := commitAuthenticatedOperationAckV1 p who t seen in
      (p', events r (fun _ => if isOutstanding p who (ack_OperationID (at_ack t)) then [ackedEvent who (at_ack t)] else []))
  | DoPostAuth who seen => (fst (postAuthenticationCommitV1 p who seen), [])
  | DoState who => (fst (StateOf p who), [])
  | DoShut => (closeLockedV1 p, [])
  end.

Fixpoint runOps (ops : list lifeOp) (p : pairV1) : pairV1 * list event :=
  match ops with
  | [] => (p, [])
  | op :: ops => let '(p, now) := exec op p in let '(p, later) := runOps ops p in (p, now ++ later)
  end.
End runs.

(** Projections of a trace. *)
Definition positionsOf (partition : bool) (who : side) : list event -> list (Z * Z * Z) :=
  omap (fun e => match e with
                 | Reserved w epoch slot sequence =>
                     if bool_decide (w = who) then Some (epoch, if partition then slot else 0, sequence) else None
                 | _ => None
                 end).
Definition begun (who : side) : list event -> list (Z * bytes) :=
  omap (fun e => match e with Begun w sequence id => if bool_decide (w = who) then Some (sequence, id) else None | _ => None end).
Definition delivered (who : side) : list event -> list (Z * bytes) :=
  omap (fun e => match e with Delivered w sequence id => if bool_decide (w = who) then Some (sequence, id) else None | _ => None end).
Definition acked (who : side) : list event -> list (Z * bytes) :=
  omap (fun e => match e with Acked w sequence id => if bool_decide (w = who) then Some (sequence, id) else None | _ => None end).

(** ** Keys and record positions *)

Definition inEpoch (epoch : Z) (u : Z * Z * Z) : Prop := fst (fst u) = epoch.
#[export] Instance inEpoch_dec epoch u : Decision (inEpoch epoch u).
Proof. apply Z.eq_dec. Defined.

Definition usesOf (epoch : Z) (used : list (Z * Z * Z)) : Z := zlen (filter (inEpoch epoch) used).

Record usedOk (limit : Z) (used : list (Z * Z * Z)) : Prop := {
  uo_unique : NoDup used;
  uo_lifetime : forall epoch, usesOf epoch used <= limit;
}.

(** The counter that numbers the records of a slot. *)
Definition counterOf (life : endpointLifecycleV1) (slot : Z) : Z * bool :=
  if partitioned life then (os_sequence (streamState life slot), os_ended (streamState life slot))
  else (k_outSequence (lf_keys life), k_outSequenceEnd (lf_keys life)).

(** Position [(slot, sequence)] of the current epoch is behind its counter. *)
Definition behind (life : endpointLifecycleV1) (slot sequence : Z) : Prop :=
  sequence < fst (counterOf life slot) \/ (sequence = fst (counterOf life slot) /\ snd (counterOf life slot) = true).

Record keysOk (life : endpointLifecycleV1) (used : list (Z * Z * Z)) : Prop := {
  ko_limit : 1 <= maxKeyLifetime life <= MaxUint64;
  ko_epoch : u64 (k_keyEpoch (lf_keys life));
  ko_schedule : exists s, k_schedule (lf_keys life) = Some s /\ Epoch s = k_keyEpoch (lf_keys life);
  ko_replay : if partitioned life then k_replay (lf_keys life) = None else is_Some (k_replay (lf_keys life));
  ko_counters : forall slot, u64 (fst (counterOf life slot));
  ko_attempts : k_outKeyAttempts (lf_keys life) = usesOf (k_keyEpoch (lf_keys life)) used;
  ko_past : forall u, u ∈ used -> fst (fst u) <= k_keyEpoch (lf_keys life);
  ko_behind : forall slot sequence, (k_keyEpoch (lf_keys life), slot, sequence) ∈ used -> behind life slot sequence;
  ko_used : usedOk (maxKeyLifetime life) used;
}.

Lemma usesOf_app epoch a b : usesOf epoch (a ++ b) = usesOf epoch a + usesOf epoch b.
Proof. unfold usesOf. by rewrite filter_app, zlen_app. Qed.

Lemma usesOf_one epoch u : usesOf epoch [u] = if bool_decide (fst (fst u) = epoch) then 1 else 0.
Proof. unfold usesOf. case_bool_decide; [rewrite filter_cons_True by done|rewrite filter_cons_False by done]; done. Qed.

Lemma usesOf_future epoch used : (forall u, u ∈ used -> fst (fst u) < epoch) -> usesOf epoch used = 0.
Proof.
  intros HF. unfold usesOf. induction used as [|u used IH]; [done|].
  rewrite filter_cons_False; [apply IH; intros; apply HF; by right|]. unfold inEpoch. pose proof (HF u ltac:(by left)). lia.
Qed.

(** The key state of an endpoint is all that its reservations depend on. *)
Lemma keysOk_same life life' used : lf_keys life' = lf_keys life -> lf_id life' = lf_id life -> keysOk life used -> keysOk life' used.
Proof.
  destruct life as [st i k s r], life' as [st' i' k' s' r']. cbn. intros -> -> HK. destruct HK. by constructor.
Qed.

(** A new epoch starts with all counters at zero. *)
Lemma keysOk_install life used pending replay streams :
  keysOk life used -> Epoch pending = k_keyEpoch (lf_keys life) + 1 -> Epoch pending <= MaxUint64 ->
  (if partitioned life then replay = None else is_Some replay) ->
  keysOk (installEpoch life pending (Epoch pending) replay streams) used.
Proof.
  intros HK He Hm HR. destruct HK as [Hl Hu _ _ Hs Ha Hp Hb Ho]. pose proof Hu as Hu'. unfold_widths.
  assert (HF : forall u, u ∈ used -> fst (fst u) < Epoch pending) by (intros u Hin; specialize (Hp u Hin); lia).
  constructor; cbn [installEpoch setKeys lf_keys k_keyEpoch k_outSequence k_outKeyAttempts k_replay k_schedule]; try done; try (unfold_widths; lia).
  - eauto.
  - intros slot. unfold counterOf, streamState. cbn [installEpoch setKeys lf_keys k_outStreams k_outSequence k_outSequenceEnd].
    rewrite lookup_empty. destruct (partitioned _); (split; [done|reflexivity]).
  - symmetry. by apply usesOf_future.
  - intros u Hin. specialize (HF u Hin). lia.
  - intros slot sequence Hin. specialize (HF _ Hin). cbn in HF. lia.
Qed.

Lemma keysOk_received life used : keysOk life used -> keysOk (countReceived life) used.
Proof. intros HK. destruct HK. by constructor. Qed.

(** Positions of an epoch stay behind its counters, so the next one is new. *)
Lemma next_is_new life used slot next :
  keysOk life used -> (forall sequence, behind life slot sequence -> sequence < next) -> (k_keyEpoch (lf_keys life), slot, next) ∉ used.
Proof. intros HK Hb Hin. apply (ko_behind _ _ HK) in Hin. apply Hb in Hin. lia. Qed.

Lemma usedOk_snoc limit used u : usedOk limit used -> u ∉ used -> usesOf (fst (fst u)) used < limit -> usedOk limit (used ++ [u]).
Proof.
  intros [HN HL] Hu Hc. constructor.
  - apply NoDup_app. split; [done|]. split; [|apply NoDup_singleton]. intros x Hx ->%list_elem_of_singleton. done.
  - intros epoch. rewrite usesOf_app, usesOf_one. case_bool_decide as E; [subst epoch; lia|]. specialize (HL epoch). lia.
Qed.

(** What every reservation leaves alone. *)
Record sameButKeys (life life' : endpointLifecycleV1) : Prop := {
  sk_state : lf_state life' = lf_state life;
  sk_id : lf_id life' = lf_id life;
  sk_send : lf_send life' = lf_send life;
  sk_recv : lf_recv life' = lf_recv life;
}.

Lemma sameButKeys_set life k : sameButKeys life (setKeys life k).
Proof. by constructor. Qed.

Lemma sameButKeys_trans a b c : sameButKeys a b -> sameButKeys b c -> sameButKeys a c.
Proof. intros [] []. constructor; congruence. Qed.

Definition domainOf (life : endpointLifecycleV1) (slot : Z) : Z := if partitioned life then slot else 0.

Lemma wrap64_epoch e : u64 e -> e <> MaxUint64 -> wrap64 (e + 1) = e + 1 /\ e + 1 <= MaxUint64.
Proof. intros He Hm. rewrite wrap64_small; unfold_widths; lia. Qed.

(** The sequence that a counter hands out, and the counter afterwards. *)
Lemma advance_spec n ended n' ended' : u64 n -> ended = false -> advance n ended = (n', ended') ->
  u64 n' /\ (forall x, x < n -> x < n') /\ (n < n' \/ n = n' /\ ended' = true).
Proof.
  unfold advance. intros Hn ->. destruct (Z.eqb_spec n MaxUint64); intros [= <- <-].
  - split; [done|]. split; [done|]. by right.
  - rewrite wrap64_small by (unfold_widths; lia). split; [unfold_widths; lia|]. split; [lia|]. left. lia.
Qed.

(** Taking the next position of a domain whose counter has not ended. *)
Lemma keysOk_take life used slot k' next next' ended' :
  let life' := setKeys life k' in
  keysOk life used -> k_outKeyAttempts (lf_keys life) < maxKeyLifetime life ->
  counterOf life slot = (next, false) -> advance next false = (next', ended') ->
  k_schedule k' = k_schedule (lf_keys life) -> k_keyEpoch k' = k_keyEpoch (lf_keys life) -> k_replay k' = k_replay (lf_keys life) ->
  k_outKeyAttempts k' = wrap64 (k_outKeyAttempts (lf_keys life) + 1) ->
  counterOf life' slot = (next', ended') ->
  (forall slot', domainOf life slot' <> domainOf life slot -> counterOf life' slot' = counterOf life slot') ->
  (forall slot', domainOf life slot' = domainOf life slot -> counterOf life' slot' = counterOf life' slot /\ counterOf life slot' = counterOf life slot) ->
  keysOk life' (used ++ [(k_keyEpoch (lf_keys life), domainOf life slot, next)]).
Proof.
  intros life' HK Hlim Hnext Hadv Hs He Hr Ha Hown Hother Hsame. pose proof HK as [Hl Hu Hsch Hrep Hc Hat Hp Hb Ho].
  assert (Hn : u64 next) by (specialize (Hc slot); by rewrite Hnext in Hc).
  destruct (advance_spec _ _ _ _ Hn eq_refl Hadv) as (Hn' & Hlt & Hstep).
  assert (Hnew : (k_keyEpoch (lf_keys life), domainOf life slot, next) ∉ used).
  { apply next_is_new; [done|]. intros x. unfold behind.
    destruct (Hsame (domainOf life slot)) as [_ ->]; [by unfold domainOf; destruct (partitioned life)|]. rewrite Hnext. cbn. intros [?|[? [=]]]. lia. }
  assert (Hcount : 0 <= usesOf (k_keyEpoch (lf_keys life)) used) by apply zlen_nonneg.
  assert (Hall : forall slot', u64 (fst (counterOf life' slot')) /\ (forall q, behind life slot' q -> behind life' slot' q)).
  { intros slot'. unfold behind. destruct (decide (domainOf life slot' = domainOf life slot)) as [E|E].
    - destruct (Hsame slot' E) as [-> ->]. rewrite Hown, Hnext. cbn. split; [done|]. intros q [Hq|[_ [=]]]. left. by apply Hlt.
    - rewrite (Hother slot' E). split; [apply Hc|done]. }
  constructor; subst life'; cbn [setKeys lf_keys]; rewrite ?He, ?Hs, ?Hr; try done.
  - intros slot'. apply Hall.
  - rewrite Ha, usesOf_app, usesOf_one, Hat. cbn [fst]. rewrite bool_decide_eq_true_2 by done. rewrite Hat in Hlim.
    apply wrap64_small. unfold_widths. lia.
  - intros u [Hin| ->%list_elem_of_singleton]%elem_of_app; [by apply Hp|cbn; lia].
  - intros slot' q [Hin|Hin]%elem_of_app; cbv beta; [by apply Hall, Hb|].
    apply list_elem_of_singleton in Hin. injection Hin as -> ->. unfold behind.
    destruct (Hsame (domainOf life slot)) as [-> _]; [by unfold domainOf; destruct (partitioned life)|]. rewrite Hown. cbn. tauto.
  - apply usedOk_snoc; [done..|]. cbn. change (maxKeyLifetime (setKeys life k')) with (maxKeyLifetime life). lia.
Qed.

Lemma requiresRatchet_false life slot : requiresRatchet life slot = false ->
  k_outKeyAttempts (lf_keys life) < maxKeyLifetime life /\ snd (counterOf life slot) = false.
Proof.
  unfold requiresRatchet, counterOf. rewrite !orb_false_iff, Z.leb_gt. intros [[? ?] Hs]. split; [done|].
  destruct (partitioned life); done.
Qed.

(** The optional ratchet of a reservation: afterwards the position is free. *)
Lemma outbound_ready life used slot candidate life1 :
  keysOk life used -> Bool.eqb (requiresRatchet life slot) (oc_ratchet candidate) = true ->
  (if negb (oc_ratchet candidate) then Ok life
   else match oc_pending candidate with
        | None => Err ErrRekeyFailed
        | Some pending =>
            fail? (k_keyEpoch (lf_keys life) =? MaxUint64) || negb (Epoch pending =? wrap64 (k_keyEpoch (lf_keys life) + 1))
                || (Epoch pending =? 0) || negb (Bool.eqb (partitioned life) (bool_decide (oc_replay candidate = None))) with ErrRekeyFailed in
            Ok (installEpoch life pending (Epoch pending) (oc_replay candidate) ∅)
        end) = Ok life1 ->
  keysOk life1 used /\ sameButKeys life life1 /\ k_outKeyAttempts (lf_keys life1) < maxKeyLifetime life1 /\ snd (counterOf life1 slot) = false.
Proof.
  intros HK Hreq%eqb_prop Hl. destruct (oc_ratchet candidate); cbn [negb] in Hl.
  - destruct (oc_pending candidate) as [pending|]; [|done]. apply reject_bind_ok in Hl as [Hc Hl]. apply Ok_inj in Hl as <-.
    rewrite !orb_false_iff, !negb_false_iff, !Z.eqb_neq, Z.eqb_eq in Hc. destruct Hc as [[[Hm He] _] Hr%eqb_prop].
    destruct (wrap64_epoch _ (ko_epoch _ _ HK) Hm) as [Hw Hle]. rewrite Hw in He.
    split; [|split; [apply sameButKeys_set|]].
    + apply keysOk_install; [done..|lia|]. rewrite Hr. case_bool_decide; [done|]. by apply not_eq_None_Some.
    + pose proof (ko_limit _ _ HK). split; [change (0 < maxKeyLifetime life); lia|].
      unfold counterOf, streamState. cbn [installEpoch setKeys lf_keys k_outStreams k_outSequence k_outSequenceEnd].
      rewrite lookup_empty. by destruct (partitioned _).
  - apply Ok_inj in Hl as <-. split; [done|]. split; [by constructor|]. by apply requiresRatchet_false.
Qed.

Lemma streamState_insert life a b c d m e f g h slot st slot' :
  streamState (setKeys life (mkKeys a b c d (<[slot := st]> m) e f g h)) slot' =
  if decide (slot' = slot) then st else default (mkOutSeq 0 false) (m !! slot').
Proof.
  unfold streamState. cbn [setKeys lf_keys k_outStreams]. destruct (decide (slot' = slot)) as [->|]; [by rewrite lookup_insert_eq|by rewrite lookup_insert_ne].
Qed.

Lemma commitOutbound_keys life slot candidate life' e q used :
  keysOk life used -> commitOutboundRecordLockedV1 life slot candidate = Ok (life', e, q) ->
  sameButKeys life life' /\ keysOk life' (used ++ [(e, domainOf life slot, q)]) /\ e = k_keyEpoch (lf_keys life').
Proof.
  intros HK HC. unfold commitOutboundRecordLockedV1 in HC. apply reject_bind_ok in HC as [Hreq HC]. apply negb_false_iff in Hreq.
  apply rbind_ok in HC as (life1 & Hl & HC). destruct (outbound_ready _ _ _ _ _ HK Hreq Hl) as (HK1 & HS & Hlim & Hend).
  assert (Hdom : domainOf life slot = domainOf life1 slot) by (unfold domainOf, partitioned; by rewrite (sk_id _ _ HS)).
  clear Hreq Hl HK. rewrite Hdom. clear Hdom.
  destruct (partitioned life1) eqn:HP.
  - apply Ok_inj in HC. injection HC as <- <- <-.
    split; [eapply sameButKeys_trans; [done|apply sameButKeys_set]|]. split; [|done].
    assert (Hc : counterOf life1 slot = (os_sequence (streamState life1 slot), false)).
    { unfold counterOf in *. rewrite HP in *. cbn in Hend. by rewrite Hend. }
    destruct (advance (os_sequence (streamState life1 slot)) false) as [next' ended'] eqn:HA.
    eapply keysOk_take; try done.
    + unfold counterOf. change (partitioned (setKeys _ _)) with (partitioned life1). rewrite HP, streamState_insert, decide_True by done.
      unfold advance in HA. unfold counterOf in Hc. rewrite HP in Hc. injection Hc as Hend'. case_match; injection HA as <- <-; cbn; rewrite ?Hend'; done.
    + intros slot'. unfold domainOf, counterOf. change (partitioned (setKeys _ _)) with (partitioned life1). rewrite HP. intros Hne.
      by rewrite streamState_insert, decide_False.
    + intros slot'. unfold domainOf. rewrite HP. by intros ->.
  - assert (Hc : counterOf life1 slot = (k_outSequence (lf_keys life1), false)).
    { unfold counterOf in *. rewrite HP in *. cbn in Hend. by rewrite Hend. }
    destruct (if _ =? MaxUint64 then _ else _) as [next' ended'] eqn:HA. apply Ok_inj in HC. injection HC as <- <- <-.
    split; [eapply sameButKeys_trans; [done|apply sameButKeys_set]|]. split; [|done].
    eapply keysOk_take; try done.
    + unfold advance. unfold counterOf in Hc. rewrite HP in Hc. injection Hc as Hend'. by rewrite Hend' in HA.
    + unfold counterOf. change (partitioned (setKeys _ _)) with (partitioned life1). by rewrite HP.
    + intros slot'. unfold domainOf. by rewrite HP.
    + intros slot' _. unfold counterOf. change (partitioned (setKeys _ _)) with (partitioned life1). by rewrite HP.
Qed.

(** ** Receiving under the keys *)

Section invariant.
Context `{Primitives}.

Lemma ratchetTo_ok life epoch pending : ratchetTo life epoch = Ok pending -> Epoch pending = epoch.
Proof.
  unfold ratchetTo. destruct (k_schedule _); [|done]. destruct (RatchetKeyScheduleV1 _); [|done].
  destruct (Z.eqb_spec (Epoch a) epoch) as [He|]; [|done]. intros HR. by apply Ok_inj in HR as <-.
Qed.

Lemma reserve_keys p life slot before after life' e q used :
  keysOk life used -> reserveRecord p life slot before after = Ok (life', e, q) ->
  sameButKeys life life' /\ keysOk life' (used ++ [(e, domainOf life slot, q)]) /\ e = k_keyEpoch (lf_keys life').
Proof. intros HK HR. unfold reserveRecord in HR. go_inv HR. by eapply commitOutbound_keys. Qed.

Lemma strictReceive_keys life epoch candidate used :
  keysOk life used -> prepareStrictReceiveEpochLockedV1 life epoch = Ok candidate ->
  sameButKeys life (applyStrictReceiveEpochLockedV1 life epoch candidate) /\ keysOk (applyStrictReceiveEpochLockedV1 life epoch candidate) used.
Proof.
  intros HK HP. unfold prepareStrictReceiveEpochLockedV1 in HP. apply reject_bind_ok in HP as [_ HP].
  destruct (epoch =? k_keyEpoch (lf_keys life)).
  - apply Ok_inj in HP as <-. split; [apply sameButKeys_set|by apply keysOk_received].
  - go_inv HP. apply Ok_inj in HP as <-. rewrite !orb_false_iff, negb_false_iff, Z.eqb_neq, Z.eqb_eq in G. destruct G as [[Hm He] _].
    apply ratchetTo_ok in E. destruct (wrap64_epoch _ (ko_epoch _ _ HK) Hm) as [Hw Hle]. rewrite Hw in He.
    split; [constructor; done|]. apply keysOk_received. cbn [applyStrictReceiveEpochLockedV1]. rewrite <- E. apply keysOk_install; [done|lia..|]. apply HK.
Qed.

Lemma ownReceive_keys life candidate life' used :
  keysOk life used -> commitReceiveEpochLockedV1 life candidate = Ok life' -> sameButKeys life life' /\ keysOk life' used.
Proof.
  intros HK HC. unfold commitReceiveEpochLockedV1 in HC. apply reject_bind_ok in HC as [Hc HC].
  destruct (CommitAuthenticated _ _) as [[w|] [u|]]; try done. apply Ok_inj in HC as <-.
  destruct (rcv_pending candidate) as [pending|].
  - rewrite !orb_false_iff, !negb_false_iff, Z.eqb_neq, !Z.eqb_eq in Hc. destruct Hc as [[[Hm He] _] _].
    destruct (wrap64_epoch _ (ko_epoch _ _ HK) Hm) as [Hw Hle]. rewrite Hw in He.
    destruct (partitioned life) eqn:HP; (split; [by constructor|]); apply keysOk_received, keysOk_install; try done; try lia; by rewrite HP.
  - split; [by constructor|]. apply keysOk_received. destruct HK as [Hl Hu Hs Hr Hq Ha Hp Hb Ho]. constructor; try done.
    cbn [setKeys lf_keys k_replay]. change (partitioned (setKeys _ _)) with (partitioned life). by destruct (partitioned life).
Qed.

(** ** Operations *)

Definition numbered (l : list (Z * bytes)) : Prop := forall i x, l !! i = Some x -> fst x = Z.of_nat i.

Record sendOk (s : sendStateV1) (B : list (Z * bytes)) (acks : Z) : Prop := {
  so_numbered : numbered B;
  so_sequence : if sd_operationSequenceEnd s then zlen B = 2 ^ 64 else sd_operationSequence s = zlen B /\ zlen B <= MaxUint64;
  so_completed : sd_sendCompleted s = acks;
  so_outstanding : forall id o, sd_outstanding s !! id = Some o -> exists i, oo_operationSequence o = Z.of_nat i /\ B !! i = Some (Z.of_nat i, oo_id o);
  so_issued : forall key t, sd_issuedOperations s !! key = Some t -> exists i, tx_operationSequence t = Z.of_nat i /\ B !! i = Some (Z.of_nat i, tx_operationID t);
}.

Record recvOk (limit : Z) (r : receiveStateV1) (D : list (Z * bytes)) : Prop := {
  ro_limit : limit <= MaxUint64;
  ro_numbered : numbered D;
  ro_counts : rc_inOperationSequence r = zlen D /\ rc_receiveCompleted r = zlen D /\ rc_inOperationSequenceEnd r = false;
  ro_bound : zlen D <= Z.max 0 limit;
  ro_completed : forall id c, rc_completed r !! id = Some c -> exists i, D !! i = Some (Z.of_nat i, id) /\ co_ack c = mkAck id (Z.of_nat i + 1);
}.

Lemma numbered_snoc l id : numbered l -> numbered (l ++ [(zlen l, id)]).
Proof.
  intros HN i x [Hi|[Hge Hi]]%lookup_app_Some; [by apply HN|]. apply list_lookup_singleton_Some in Hi as [Hz <-]. cbn. unfold zlen. lia.
Qed.

Lemma snoc_lookup {A} (l : list A) x : (l ++ [x]) !! length l = Some x.
Proof. by rewrite lookup_app_r, Nat.sub_diag. Qed.

Lemma lookup_grow {A} (l k : list A) i x : l !! i = Some x -> (l ++ k) !! i = Some x.
Proof. intros Hi. rewrite lookup_app_l; [done|]. by eapply lookup_lt_Some. Qed.

(** A prefix is extended by the next element of the longer list. *)
Lemma prefix_snoc (a b : list (Z * bytes)) x : a `prefix_of` b -> b !! length a = Some x -> (a ++ [x]) `prefix_of` b.
Proof.
  intros [k ->] Hx. rewrite lookup_app_r, Nat.sub_diag in Hx by done. destruct k as [|y k]; [done|]. cbn in Hx. injection Hx as ->.
  exists k. by rewrite <- app_assoc.
Qed.

Lemma sendOk_issue s B acks id o t : sendOk s B acks ->
  (exists i, oo_operationSequence o = Z.of_nat i /\ B !! i = Some (Z.of_nat i, oo_id o)) ->
  (exists i, tx_operationSequence t = Z.of_nat i /\ B !! i = Some (Z.of_nat i, tx_operationID t)) ->
  sendOk (issue s id o t) B acks.
Proof.
  intros [HN HQ HC HO HI] Ho Ht. constructor; cbn; try done.
  - intros id' o' [[_ <-]|[_ Hx]]%lookup_insert_Some; [done|by eapply HO].
  - intros key t' [[_ <-]|[_ Hx]]%lookup_insert_Some; [done|by eapply HI].
Qed.

Lemma sendOk_begin s B acks next ended id : sendOk s B acks -> sd_operationSequenceEnd s = false ->
  advance (sd_operationSequence s) (sd_operationSequenceEnd s) = (next, ended) ->
  sendOk (mkSend next ended (sd_sendCompleted s) (sd_outstanding s) (sd_acknowledged s) (sd_issuedOperations s))
    (B ++ [(sd_operationSequence s, id)]) acks.
Proof.
  intros [HN HQ HC HO HI] He HA. rewrite He in HQ, HA. destruct HQ as [HQ HM]. rewrite HQ in HA |- *. constructor; cbn.
  - by apply numbered_snoc.
  - pose proof (zlen_nonneg B). unfold advance in HA. rewrite zlen_app, zlen_cons, zlen_nil.
    destruct (Z.eqb_spec (zlen B) MaxUint64) as [E|E]; injection HA as <- <-; [rewrite E; reflexivity|].
    rewrite wrap64_small by (unfold_widths; lia). lia.
  - done.
  - intros id' o' Hx. destruct (HO _ _ Hx) as (i & Hi & Hl). exists i. split; [done|by apply lookup_grow].
  - intros key t' Hx. destruct (HI _ _ Hx) as (i & Hi & Hl). exists i. split; [done|by apply lookup_grow].
Qed.

Lemma sendOk_ack s B acks ack : sendOk s B acks -> wrap64 (acks + 1) = acks + 1 -> sendOk (acknowledge s ack) B (acks + 1).
Proof.
  intros [HN HQ HC HO HI] Hw. constructor; cbn; try done.
  - by rewrite HC.
  - intros id' o' [_ Hx]%lookup_delete_Some. by eapply HO.
Qed.

Lemma recvOk_complete limit r D t : recvOk limit r D -> tx_operationSequence t = rc_inOperationSequence r -> rc_receiveCompleted r < limit ->
  recvOk limit (complete r t (mkAck (tx_operationID t) (wrap64 (rc_receiveCompleted r + 1)))) (D ++ [(tx_operationSequence t, tx_operationID t)]).
Proof.
  intros [HL HN (HI & HR & HE) HB HC] Hs Hlim. rewrite HR in *. rewrite Hs, HI. pose proof (zlen_nonneg D).
  assert (Hw : wrap64 (zlen D + 1) = zlen D + 1) by (apply wrap64_small; unfold_widths; lia).
  unfold complete, advance. rewrite HI, HR, Hw. destruct (Z.eqb_spec (zlen D) MaxUint64) as [|_]; [unfold_widths; lia|].
  constructor; cbn; try done.
  - by apply numbered_snoc.
  - rewrite zlen_app, zlen_cons, zlen_nil. split_and!; [lia|lia|done].
  - rewrite zlen_app, zlen_cons, zlen_nil. lia.
  - intros id c [[<- <-]|[_ Hx]]%lookup_insert_Some.
    + exists (length D). split; [apply snoc_lookup|done].
    + destruct (HC _ _ Hx) as (i & Hi & Ha). exists i. split; [by apply lookup_grow|done].
Qed.

(** ** The invariant of a pair *)

Variable ident : side -> identityV1.

Definition partitionOf (who : side) : bool := bool_decide (id_nonceMode (ident who) = NonceModeStreamPartitionedCounterV1).
Definition keyLimit (who : side) : Z := sc_MaxKeyLifetimeMessages (id_config (ident who)).
Definition sessionLimit (who : side) : Z := sc_MaxSessionMessages (id_config (ident who)).

Record lifeOk (who : side) (life : endpointLifecycleV1) (tr : list event) : Prop := {
  lo_id : lf_id life = ident who;
  lo_keys : keysOk life (positionsOf (partitionOf who) who tr);
  lo_send : sendOk (lf_send life) (begun who tr) (zlen (acked who tr));
  lo_recv : recvOk (sessionLimit who) (lf_recv life) (delivered who tr);
}.

Record traceOk (tr : list event) : Prop := {
  to_used : forall who, usedOk (keyLimit who) (positionsOf (partitionOf who) who tr);
  to_delivered : forall who, delivered (peerOf who) tr `prefix_of` begun who tr;
  to_acked : forall who, acked who tr `prefix_of` delivered (peerOf who) tr;
  to_numbered : forall who, numbered (begun who tr);
  to_bound : forall who, zlen (delivered who tr) <= Z.max 0 (sessionLimit who);
}.

Definition pairOk (p : pairV1) (tr : list event) : Prop :=
  traceOk tr /\ (pr_closed p = true \/ pr_closed p = false /\ forall who, lifeOk who (lifeOf p who) tr).

Lemma pairOk_close p tr : pairOk p tr -> pairOk (closeLockedV1 p) tr.
Proof.
  intros [HT HP]. split; [done|]. left. unfold closeLockedV1. by destruct (pr_closed p) eqn:?.
Qed.

Definition eventSide (e : event) : side :=
  match e with Reserved w _ _ _ | Begun w _ _ | Delivered w _ _ | Acked w _ _ => w end.

Lemma peer_ne who : peerOf who <> who.
Proof. by destruct who. Qed.

Lemma peer_peer who : peerOf (peerOf who) = who.
Proof. by destruct who. Qed.

Lemma side_cases (who w : side) : w = who \/ w = peerOf who.
Proof. destruct who, w; auto. Qed.

Lemma other_side who w evs : w <> who -> Forall (fun e => eventSide e = who) evs ->
  positionsOf (partitionOf w) w evs = [] /\ begun w evs = [] /\ delivered w evs = [] /\ acked w evs = [].
Proof.
  intros Hne. induction 1 as [|e evs He HF IH]; [done|]. destruct IH as (IH1 & IH2 & IH3 & IH4).
  destruct e; cbn in He; subst; cbn; rewrite ?bool_decide_eq_false_2 by done; done.
Qed.

Lemma positionsOf_app b who a c : positionsOf b who (a ++ c) = positionsOf b who a ++ positionsOf b who c.
Proof. apply omap_app. Qed.
Lemma begun_app who a c : begun who (a ++ c) = begun who a ++ begun who c.
Proof. apply omap_app. Qed.
Lemma delivered_app who a c : delivered who (a ++ c) = delivered who a ++ delivered who c.
Proof. apply omap_app. Qed.
Lemma acked_app who a c : acked who (a ++ c) = acked who a ++ acked who c.
Proof. apply omap_app. Qed.

Lemma lifeOf_set p who life : lifeOf (setLife p who life) who = life.
Proof. by destruct who. Qed.
Lemma lifeOf_set_peer p who life : lifeOf (setLife p who life) (peerOf who) = lifeOf p (peerOf who).
Proof. by destruct who. Qed.
Lemma closed_set p who life : pr_closed (setLife p who life) = pr_closed p.
Proof. by destruct who. Qed.

(** An end that acts changes its own state and its own part of the trace. *)
Lemma pairOk_step p tr who life evs :
  pairOk p tr -> pr_closed p = false -> Forall (fun e => eventSide e = who) evs -> lifeOk who life (tr ++ evs) ->
  delivered who (tr ++ evs) `prefix_of` begun (peerOf who) tr ->
  acked who (tr ++ evs) `prefix_of` delivered (peerOf who) tr ->
  pairOk (setLife p who life) (tr ++ evs).
Proof.
  intros [HT [HP|[_ HP]]] Hc HF HL HD HA; [congruence|].
  destruct (other_side who (peerOf who) evs (peer_ne who) HF) as (E1 & E2 & E3 & E4).
  assert (HO : lifeOk (peerOf who) (lifeOf p (peerOf who)) (tr ++ evs)).
  { destruct (HP (peerOf who)) as [Hi Hk Hs Hr]. constructor; try done; rewrite ?positionsOf_app, ?begun_app, ?delivered_app, ?acked_app, ?E1, ?E2, ?E3, ?E4, ?app_nil_r; done. }
  assert (HE : forall w, lifeOk w (lifeOf (setLife p who life) w) (tr ++ evs)).
  { intros w. destruct (side_cases who w) as [->| ->]; rewrite ?lifeOf_set, ?lifeOf_set_peer; done. }
  split; [|right; rewrite closed_set; done]. constructor.
  - intros w. destruct (HE w) as [Hi Hk _ _]. unfold keyLimit. rewrite <- Hi. apply (ko_used _ _ Hk).
  - intros w. destruct (side_cases who w) as [->| ->]; rewrite ?peer_peer.
    + rewrite delivered_app, begun_app, E3, app_nil_r. apply prefix_app_r. apply HT.
    + by rewrite (begun_app (peerOf who)), E2, app_nil_r.
  - intros w. destruct (side_cases who w) as [->| ->]; rewrite ?peer_peer.
    + by rewrite (delivered_app (peerOf who)), E3, app_nil_r.
    + rewrite acked_app, delivered_app, E4, app_nil_r. apply prefix_app_r. pose proof (to_acked _ HT (peerOf who)) as HA'. by rewrite peer_peer in HA'.
  - intros w. apply (so_numbered _ _ _ (lo_send _ _ _ (HE w))).
  - intros w. apply (ro_bound _ _ _ (lo_recv _ _ _ (HE w))).
Qed.

(** ** Every operation keeps the invariant *)

Lemma closing_ok {A} p who (r : result lifecycle_error (endpointLifecycleV1 * A)) tr (f : A -> list event) :
  pairOk p tr -> (forall life a, r = Ok (life, a) -> pairOk (setLife p who life) (tr ++ f a)) ->
  pairOk (fst (closing p who r)) (tr ++ events (snd (closing p who r)) f).
Proof.
  intros HP Hok. destruct r as [[life a]|e]; cbn; [by apply Hok|]. rewrite app_nil_r. by apply pairOk_close.
Qed.

Lemma ready_ok p life pv : readyLockedV1 p life pv = Ok tt -> pr_closed p = false /\ lf_state life = StateEstablished.
Proof.
  unfold readyLockedV1. intros [Hc _]%reject_bind_ok. rewrite !orb_false_iff, !negb_false_iff, bool_decide_eq_true in Hc. naive_solver.
Qed.

Lemma pairOk_life p tr who : pairOk p tr -> pr_closed p = false -> lifeOk who (lifeOf p who) tr.
Proof. intros [_ [HP|[_ HP]]] Hc; [congruence|]. apply HP. Qed.

Lemma lifeOk_domain who life tr slot : lifeOk who life tr -> domainOf life slot = if partitionOf who then slot else 0.
Proof. intros [Hi _ _ _]. unfold domainOf, partitionOf, partitioned. by rewrite Hi. Qed.

Lemma lifeOk_reserved who life life' tr e slot q :
  lifeOk who life tr -> sameButKeys life life' -> keysOk life' (positionsOf (partitionOf who) who tr ++ [(e, domainOf life slot, q)]) ->
  lifeOk who life' (tr ++ [Reserved who e slot q]).
Proof.
  intros HL HS HK. pose proof (lifeOk_domain _ _ _ slot HL) as Hd. destruct HL as [Hi _ Hs Hr], HS as [_ Hid Hsd Hrc].
  constructor.
  - congruence.
  - rewrite positionsOf_app. cbn. rewrite bool_decide_eq_true_2 by done. by rewrite <- Hd.
  - rewrite begun_app, acked_app. cbn. by rewrite !app_nil_r, Hsd.
  - rewrite delivered_app. cbn. by rewrite app_nil_r, Hrc.
Qed.

Lemma lifeOk_setSend who life tr s :
  lifeOk who life tr -> sendOk s (begun who tr) (zlen (acked who tr)) -> lifeOk who (setSend life s) tr.
Proof. intros [Hi Hk _ Hr] Hs. constructor; try done. by eapply keysOk_same, Hk. Qed.

Lemma lifeOk_setRecv who life tr r :
  lifeOk who life tr -> recvOk (sessionLimit who) r (delivered who tr) -> lifeOk who (setRecv life r) tr.
Proof. intros [Hi Hk Hs _] Hr. constructor; try done. by eapply keysOk_same, Hk. Qed.

Lemma lifeOk_setState who life tr st : lifeOk who life tr -> lifeOk who (setState life st) tr.
Proof. intros [Hi Hk Hs Hr]. constructor; try done. by eapply keysOk_same, Hk. Qed.

(** Reservations leave the operations of the trace as they are. *)
Lemma reserved_only p tr who life evs :
  pairOk p tr -> pr_closed p = false -> Forall (fun e => eventSide e = who) evs -> lifeOk who life (tr ++ evs) ->
  delivered who evs = [] -> acked who evs = [] -> pairOk (setLife p who life) (tr ++ evs).
Proof.
  intros HP Hc HF HL HD HA. apply pairOk_step; try done.
  - rewrite delivered_app, HD, app_nil_r. pose proof (to_delivered _ (proj1 HP) (peerOf who)) as HX. by rewrite peer_peer in HX.
  - rewrite acked_app, HA, app_nil_r. apply HP.
Qed.

Lemma reserve_life p who life slot before after life' e q tr :
  lifeOk who life tr -> reserveRecord p life slot before after = Ok (life', e, q) ->
  sameButKeys life life' /\ lifeOk who life' (tr ++ [Reserved who e slot q]).
Proof.
  intros HL HR. destruct (reserve_keys _ _ _ _ _ _ _ _ _ (lo_keys _ _ _ HL) HR) as (HS & HK & _). split; [done|]. by eapply lifeOk_reserved.
Qed.

Lemma begin_ok p who slot seen tr : pairOk p tr ->
  let r := beginOperationV1 p who slot seen in
  pairOk (fst r) (tr ++ events (snd r) (fun t => [reservedBy who t; Begun who (tx_operationSequence t) (tx_operationID t)])).
Proof.
  intros HP r. subst r. unfold beginOperationV1. apply closing_ok; [done|]. intros life t HB.
  apply rbind_ok in HB as ([] & HR & HB). apply ready_ok in HR as [Hc _]. go_inv HB. destruct x as [[life1 e] q].
  apply orb_false_iff in G as [_ HE]. pose proof (pairOk_life _ _ who HP Hc) as HL.
  destruct (reserve_life _ _ _ _ _ _ _ _ _ _ HL E) as [HS HL1]. rewrite <- (sk_send _ _ HS) in HE.
  destruct (advance _ _) as [next ended] eqn:HA. apply Ok_inj in HB. injection HB as <- <-.
  apply reserved_only; try done; [by repeat constructor|].
  change [?a; ?b] with ([a] ++ [b]). rewrite app_assoc. unfold reservedBy. cbn [operationTransmissionLockedV1 tx_recordEpoch tx_streamSlot tx_recordSequence tx_operationSequence tx_operationID oo_streamSlot oo_operationSequence oo_id].
  set (id := operationIDV1 _ _ _ _ _). set (tr1 := tr ++ [_]) in *.
  assert (HL2 : lifeOk who life1 (tr1 ++ []) ) by (by rewrite app_nil_r). destruct HL1 as [Hi Hk Hs Hr].
  assert (Hb : begun who (tr1 ++ [Begun who (sd_operationSequence (lf_send life1)) id]) = begun who tr1 ++ [(sd_operationSequence (lf_send life1), id)]).
  { rewrite begun_app. cbn. by rewrite bool_decide_eq_true_2. }
  constructor; try done.
  - rewrite positionsOf_app. cbn. rewrite app_nil_r. by eapply keysOk_same, Hk.
  - rewrite Hb, acked_app. cbn [acked omap list_omap]. rewrite app_nil_r. cbn [setSend lf_send].
    pose proof (so_sequence _ _ _ Hs) as HQ. rewrite HE in HQ. destruct HQ as [HQ _].
    apply sendOk_issue; [by apply sendOk_begin|..]; exists (length (begun who tr1)); cbn; rewrite snoc_lookup, HQ; done.
  - rewrite delivered_app. cbn [delivered omap list_omap]. by rewrite app_nil_r.
Qed.

Lemma resend_ok p who id seen tr : pairOk p tr ->
  let r := retryOperationV1 p who id seen in pairOk (fst r) (tr ++ events (snd r) (fun t => [reservedBy who t])).
Proof.
  intros HP r. subst r. unfold retryOperationV1. apply closing_ok; [done|]. intros life t HB.
  apply rbind_ok in HB as ([] & HR & HB). apply ready_ok in HR as [Hc _]. pose proof (pairOk_life _ _ who HP Hc) as HL.
  destruct (sd_outstanding _ !! id) as [o|] eqn:Ho; [|done]. go_inv HB. destruct x as [[life1 e] q].
  destruct (reserve_life _ _ _ _ _ _ _ _ _ _ HL E) as [HS HL1]. apply Ok_inj in HB. injection HB as <- <-.
  apply reserved_only; try done; [by repeat constructor|]. unfold reservedBy. cbn. apply lifeOk_setSend; [done|].
  rewrite <- (sk_send _ _ HS) in Ho. pose proof (lo_send _ _ _ HL1) as Hs. apply sendOk_issue; [done|..]; by apply (so_outstanding _ _ _ Hs) in Ho.
Qed.

Lemma fragment_ok p who id seen tr : pairOk p tr ->
  let r := reserveAdditionalFragmentV1 p who id seen in pairOk (fst r) (tr ++ events (snd r) (fun t => [reservedBy who t])).
Proof.
  intros HP r. subst r. unfold reserveAdditionalFragmentV1. apply closing_ok; [done|]. intros life t HB.
  apply rbind_ok in HB as ([] & HR & HB). apply ready_ok in HR as [Hc _]. pose proof (pairOk_life _ _ who HP Hc) as HL.
  destruct (sd_outstanding _ !! id) as [o|] eqn:Ho; [|done]. go_inv HB. destruct x as [[life1 e] q].
  destruct (reserve_life _ _ _ _ _ _ _ _ _ _ HL E) as [HS HL1]. apply Ok_inj in HB. injection HB as <- <-.
  apply reserved_only; try done; [by repeat constructor|]. unfold reservedBy. cbn. apply lifeOk_setSend; [done|].
  rewrite <- (sk_send _ _ HS) in Ho. pose proof (lo_send _ _ _ HL1) as Hs. destruct Hs as [HN HQ HC HO HI]. constructor; cbn; try done.
  intros key t' [[_ <-]|[_ Hx]]%lookup_insert_Some; [by apply HO in Ho|by eapply HI].
Qed.

Lemma close_ok p who seen tr : pairOk p tr ->
  let r := reserveCloseV1 p who seen in pairOk (fst r) (tr ++ events (snd r) (fun c => [Reserved who (fst c) 0 (snd c)])).
Proof.
  intros HP r. subst r. unfold reserveCloseV1. apply closing_ok; [done|]. intros life c HB.
  go_inv HB. destruct x as [[life1 e] q]. apply Ok_inj in HB. injection HB as <- <-.
  assert (Hc : pr_closed p = false).
  { unfold reserveRecord in E. apply rbind_ok in E as (c & E & _). apply rbind_ok in E as ([] & E & _). by apply ready_ok in E as [? _]. }
  destruct (reserve_life _ _ _ _ _ _ _ _ _ _ (pairOk_life _ _ who HP Hc) E) as [HS HL1].
  apply reserved_only; try done. by repeat constructor.
Qed.

(** The receiver's check of a transmission points at the peer's own books. *)
Lemma owner_is_peer p who w : negb (id_role (lf_id (lifeOf p w)) =? id_role (lf_id (lifeOf p who))) = true -> w = peerOf who.
Proof. destruct (side_cases who w) as [->| ->]; [|done]. by rewrite Z.eqb_refl. Qed.

Lemma issued_begun p who t tr : pairOk p tr -> pr_closed p = false -> validIssuedOperationLockedV1 p t = true -> tx_owner t = peerOf who ->
  exists i, tx_operationSequence t = Z.of_nat i /\ begun (peerOf who) tr !! i = Some (Z.of_nat i, tx_operationID t).
Proof.
  intros HP Hc HI Ho. unfold validIssuedOperationLockedV1 in HI. apply bool_decide_eq_true in HI. rewrite Ho in HI.
  by apply (so_issued _ _ _ (lo_send _ _ _ (pairOk_life _ _ (peerOf who) HP Hc))) in HI.
Qed.

(** Accepting a transmission: a new operation is the next one of the peer. *)
Lemma delivery_step p who t tr life1 unique ack deliver :
  pairOk p tr -> pr_closed p = false -> tx_owner t = peerOf who -> validIssuedOperationLockedV1 p t = true ->
  classify (lifeOf p who) t = Ok (unique, ack) -> lifeOk who life1 tr -> lf_recv life1 = lf_recv (lifeOf p who) -> lf_id life1 = lf_id (lifeOf p who) ->
  (forall r D, recvOk (sessionLimit who) r D -> recvOk (sessionLimit who) (deliver r) D) ->
  pairOk (setLife p who (setRecv life1 (deliver (if unique then complete (lf_recv life1) t ack else lf_recv life1))))
    (tr ++ if unique then [deliveredEvent who t] else []).
Proof.
  intros HP Hc Ho HI HC HL HR Hid Hdel. destruct (issued_begun p who t tr HP Hc HI Ho) as (i & Hseq & Hi).
  unfold classify in HC. destruct (rc_completed _ !! _) as [c|] eqn:Hcomp.
  - go_inv HC. apply Ok_inj in HC. injection HC as <- <-. apply reserved_only; try done. rewrite app_nil_r.
    apply lifeOk_setRecv; [done|]. apply Hdel. apply HL.
  - go_inv HC. apply Ok_inj in HC. injection HC as <- <-.
    rewrite orb_false_iff, negb_false_iff, Z.eqb_eq in G. destruct G as [_ Hnext]. apply Z.leb_gt in G0.
    assert (Hd : delivered who (tr ++ [deliveredEvent who t]) = delivered who tr ++ [(tx_operationSequence t, tx_operationID t)]).
    { rewrite delivered_app. cbn. by rewrite bool_decide_eq_true_2. }
    pose proof (lo_recv _ _ _ HL) as HRv. rewrite HR in HRv. pose proof (ro_counts _ _ _ HRv) as (Hin & Hcount & _).
    apply pairOk_step; try done; [by repeat constructor| | |].
    + destruct HL as [Hi1 Hk Hs Hr]. constructor; try done.
      * rewrite positionsOf_app. cbn. rewrite app_nil_r. by eapply keysOk_same, Hk.
      * rewrite begun_app, acked_app. cbn [begun acked omap list_omap deliveredEvent]. by rewrite !app_nil_r.
      * rewrite Hd. cbn [setRecv lf_recv]. apply Hdel. rewrite HR. apply recvOk_complete; [done|congruence|].
        unfold maxSession in G0. by rewrite <- Hid, Hi1 in G0.
    + rewrite Hd. apply prefix_snoc.
      * pose proof (to_delivered _ (proj1 HP) (peerOf who)) as HX. by rewrite peer_peer in HX.
      * assert (length (delivered who tr) = i) as -> by (unfold zlen in Hin; lia). by rewrite Hseq.
    + rewrite acked_app. cbn [acked omap list_omap deliveredEvent]. rewrite app_nil_r. apply HP.
Qed.

Lemma commitFirst_ok p who t seen replay tr : pairOk p tr ->
  let r := commitFirstAuthenticatedOperationV1 p who t seen (fun s => (s, replay)) tt in
  let p' := snd (fst r) in
  pairOk p' (tr ++ events (snd r) (fun _ => if rc_lastCommitDeliver (lf_recv (lifeOf p' who)) then [deliveredEvent who t] else [])).
Proof.
  intros HP r p'. subst r p'. unfold commitFirstAuthenticatedOperationV1.
  destruct (prepareFirst p who t seen) as [[[candidate unique] ack]|e] eqn:HF; cbn; [|by rewrite app_nil_r].
  destruct replay as [[]|e]; cbn; [|by rewrite app_nil_r]. rewrite lifeOf_set.
  unfold prepareFirst in HF. go_inv HF. apply Ok_inj in HF. injection HF as <- <- <-.
  rewrite !orb_false_iff in G. destruct G as [[_ Hc] _]. rewrite !orb_false_iff, !negb_false_iff in G0. destruct G0 as [[HO HI] _].
  unfold validStrictOperationOwnerLockedV1 in HO. rewrite !andb_true_iff in HO. destruct HO as [[_ HO%owner_is_peer] _].
  pose proof (pairOk_life _ _ who HP Hc) as HL. destruct (strictReceive_keys _ _ _ _ (lo_keys _ _ _ HL) E1) as [HS HK].
  set (life1 := applyStrictReceiveEpochLockedV1 _ _ _) in *. destruct HS as [Hst Hid Hsd Hrc].
  assert (HL1 : lifeOk who life1 tr).
  { destruct HL as [Hi _ Hs Hr]. constructor; [congruence|done|by rewrite Hsd|by rewrite Hrc]. }
  unfold applyFirst. fold life1. destruct x0 as [unique ack]. cbn [fst snd].
  set (life2 := if bool_decide (lf_state life1 = StateAuthenticating) then setState life1 StateEstablished else life1).
  assert (HL2 : lifeOk who life2 tr) by (subst life2; case_bool_decide; [by apply lifeOk_setState|done]).
  pose proof (delivery_step p who t tr life2 unique ack (fun r => setDeliver r unique) HP Hc HO HI E0 HL2) as HX.
  assert (lf_recv life2 = lf_recv life1 /\ lf_id life2 = lf_id life1) as [Hr2 Hi2] by (subst life2; by case_bool_decide).
  rewrite Hr2, Hi2 in HX. specialize (HX Hrc Hid).
  assert (HD : forall r D, recvOk (sessionLimit who) r D -> recvOk (sessionLimit who) (setDeliver r unique) D) by (intros r D []; by constructor).
  specialize (HX HD). clear -HX. destruct life1 as [st i k s r]. cbn in *. subst life2.
  destruct unique; cbn in *; case_bool_decide; exact HX.
Qed.

Lemma commitOwn_ok p who t seen tr : pairOk p tr ->
  let r := commitAuthenticatedOperationV1 p who t seen in
  pairOk (fst r) (tr ++ events (snd r) (fun _ => if isNew p who (tx_operationID t) then [deliveredEvent who t] else [])).
Proof.
  intros HP r. subst r. unfold commitAuthenticatedOperationV1. apply closing_ok; [done|]. intros life ack HB.
  apply rbind_ok in HB as ([] & HR & HB). apply ready_ok in HR as [Hc _]. go_inv HB. apply Ok_inj in HB. injection HB as <- <-.
  rewrite !orb_false_iff, !negb_false_iff in G. destruct G as [[HO HI] _].
  unfold validOperationOwnerLockedV1 in HO. rewrite !andb_true_iff in HO. destruct HO as [[_ HO%owner_is_peer] _].
  pose proof (pairOk_life _ _ who HP Hc) as HL. destruct (ownReceive_keys _ _ _ _ (lo_keys _ _ _ HL) E2) as [[Hst Hid Hsd Hrc] HK].
  assert (HL1 : lifeOk who x2 tr).
  { destruct HL as [Hi _ Hs Hr]. constructor; [congruence|done|by rewrite Hsd|by rewrite Hrc]. }
  destruct x as [unique ack]. cbn [fst snd].
  assert (isNew p who (tx_operationID t) = unique) as ->.
  { clear -E. unfold classify in E. unfold isNew. destruct (rc_completed _ !! _); go_inv E; apply Ok_inj in E; injection E as <- _; reflexivity. }
  pose proof (delivery_step p who t tr x2 unique ack (fun r => r) HP Hc HO HI E HL1 Hrc Hid (fun r D HX => HX)) as HX.
  destruct unique; [exact HX|]. clear -HX. by destruct x2.
Qed.

Lemma ack_ok p who id retry seen tr : pairOk p tr ->
  let r := reserveOperationAckV1 p who id retry seen in
  pairOk (fst r) (tr ++ events (snd r) (fun t => [Reserved who (at_recordEpoch t) 0 (at_recordSequence t)])).
Proof.
  intros HP r. subst r. unfold reserveOperationAckV1. apply closing_ok; [done|]. intros life t HB.
  apply reject_bind_ok in HB as [Hv HB]. rewrite !orb_false_iff in Hv. destruct Hv as [[_ Hc] _]. apply rbind_ok in HB as (_ & _ & HB).
  pose proof (pairOk_life _ _ who HP Hc) as HL. destruct (rc_completed _ !! id) as [c|] eqn:Hcomp; [|done].
  go_inv HB. destruct x as [[life1 e] q]. destruct (reserve_life _ _ _ _ _ _ _ _ _ _ HL E) as [HS HL1].
  apply Ok_inj in HB. injection HB as <- <-. apply reserved_only; try done; [by repeat constructor|]. cbn.
  apply lifeOk_setRecv; [done|]. rewrite <- (sk_recv _ _ HS) in Hcomp. destruct (lo_recv _ _ _ HL1) as [Hl HN HC HB HCo].
  constructor; cbn; try done. intros id' c' [[<- <-]|[_ Hx]]%lookup_insert_Some; [|by apply HCo].
  destruct (HCo _ _ Hcomp) as (i & Hi & Ha). by exists i.
Qed.

(** Accepting an acknowledgement: it is for the next delivered operation. *)
Lemma acknowledge_step p who tr life1 o c ack :
  pairOk p tr -> pr_closed p = false -> lifeOk who life1 tr -> lf_send life1 = lf_send (lifeOf p who) ->
  rc_completed (lf_recv (lifeOf p (peerOf who))) !! ack_OperationID ack = Some c -> co_ack c = ack ->
  acknowledges (lf_send (lifeOf p who)) o ack = true ->
  pairOk (setLife p who (setSend life1 (acknowledge (lf_send life1) ack))) (tr ++ [ackedEvent who ack]).
Proof.
  intros HP Hc HL HS Hcomp Hack Ha. unfold acknowledges in Ha. rewrite andb_true_iff, !Z.eqb_eq in Ha. destruct Ha as [_ Hcount].
  pose proof (pairOk_life _ _ (peerOf who) HP Hc) as HLp. destruct (lo_recv _ _ _ HLp) as [Hlim HN _ Hb HCo].
  destruct (HCo _ _ Hcomp) as (i & Hi & Hca). rewrite Hack in Hca. pose proof (lookup_lt_Some _ _ _ Hi) as Hlt.
  pose proof (lo_send _ _ _ HL) as HSd. pose proof (so_completed _ _ _ HSd) as Hdone. rewrite <- HS, Hdone in Hcount.
  assert (Hcc : ack_CompletedCount ack = Z.of_nat i + 1) by (by rewrite Hca).
  assert (HA : acked who tr `prefix_of` delivered (peerOf who) tr) by apply HP.
  pose proof (prefix_length _ _ HA) as Hlen.
  assert (Hw : wrap64 (zlen (acked who tr) + 1) = zlen (acked who tr) + 1).
  { destruct (Z.eq_dec (zlen (acked who tr)) MaxUint64) as [E|E]; [rewrite E in Hcount; change (wrap64 (MaxUint64 + 1)) with 0 in Hcount; lia|].
    apply wrap64_small. unfold zlen in *. unfold_widths. lia. }
  rewrite Hw in Hcount.
  assert (Ht : acked who (tr ++ [ackedEvent who ack]) = acked who tr ++ [(ack_CompletedCount ack - 1, ack_OperationID ack)]).
  { rewrite acked_app. cbn. by rewrite bool_decide_eq_true_2. }
  apply pairOk_step; try done; [by repeat constructor| | |].
  - destruct HL as [Hi1 Hk _ Hr]. constructor; try done.
    + rewrite positionsOf_app. cbn. rewrite app_nil_r. by eapply keysOk_same, Hk.
    + rewrite Ht, begun_app, zlen_app. cbn [begun omap list_omap ackedEvent]. rewrite app_nil_r. cbn [setSend lf_send].
      by apply sendOk_ack.
    + rewrite delivered_app. cbn [delivered omap list_omap ackedEvent]. by rewrite app_nil_r.
  - rewrite delivered_app. cbn [delivered omap list_omap ackedEvent]. rewrite app_nil_r.
    pose proof (to_delivered _ (proj1 HP) (peerOf who)) as HX. by rewrite peer_peer in HX.
  - rewrite Ht. apply prefix_snoc; [done|]. assert (length (acked who tr) = i) as -> by (unfold zlen in *; lia).
    rewrite Hi. do 2 f_equal. lia.
Qed.

Lemma commitAck_ok p who direction epoch sequence ack seen replay tr : pairOk p tr ->
  let r := commitStrictAuthenticatedOperationAckV1 p who direction epoch sequence ack seen (fun s => (s, replay)) tt in
  pairOk (snd (fst r)) (tr ++ events (snd r) (fun _ => [ackedEvent who ack])).
Proof.
  intros HP r. subst r. unfold commitStrictAuthenticatedOperationAckV1.
  destruct (prepareStrictAck p who direction epoch sequence ack seen) as [candidate|e] eqn:HF; cbn [fst snd events]; [|by rewrite app_nil_r].
  destruct replay as [[]|e]; cbn [fst snd events]; [|by rewrite app_nil_r].
  unfold prepareStrictAck in HF. apply reject_bind_ok in HF as [Hv HF]. rewrite !orb_false_iff in Hv.
  assert (Hc : pr_closed p = false) by tauto. clear Hv. apply rbind_ok in HF as (_ & _ & HF). apply rbind_ok in HF as (_ & _ & HF).
  destruct (rc_issuedAcks _ !! _) as [t|]; [|done]. destruct (rc_completed _ !! _) as [c|] eqn:Hcomp; [|done].
  destruct (sd_outstanding _ !! _) as [o|]; [|done]. go_inv HF. apply Ok_inj in HF as <-. apply map_err_ok in E.
  rewrite !orb_false_iff, !negb_false_iff, !bool_decide_eq_true in G. destruct G as [[[_ Hack] _] Ha].
  pose proof (pairOk_life _ _ who HP Hc) as HL. destruct (strictReceive_keys _ _ _ _ (lo_keys _ _ _ HL) E) as [[Hst Hid Hsd Hrc] HK].
  eapply acknowledge_step; try done. destruct HL as [Hi _ Hs Hr]. constructor; [congruence|done|by rewrite Hsd|by rewrite Hrc].
Qed.

Lemma commitAckOwn_ok p who t seen tr : pairOk p tr ->
  let r := commitAuthenticatedOperationAckV1 p who t seen in
  pairOk (fst r) (tr ++ events (snd r) (fun _ => if isOutstanding p who (ack_OperationID (at_ack t)) then [ackedEvent who (at_ack t)] else [])).
Proof.
  intros HP r. subst r. unfold commitAuthenticatedOperationAckV1. apply closing_ok; [done|]. intros life u HB.
  apply reject_bind_ok in HB as [Hv HB]. rewrite !orb_false_iff in Hv. destruct Hv as [[_ Hc] _]. apply rbind_ok in HB as (_ & _ & HB).
  apply reject_bind_ok in HB as [G HB]. apply rbind_ok in HB as (known & EK & HB). go_inv HB. apply map_err_ok in E1.
  apply Ok_inj in HB. injection HB as <- <-. rewrite !orb_false_iff, !negb_false_iff in G. destruct G as [HO HI].
  unfold validAckOwnerLockedV1 in HO. rewrite !andb_true_iff in HO. destruct HO as [_ HO%owner_is_peer].
  unfold validIssuedAckLockedV1 in HI. rewrite HO, andb_true_iff in HI. destruct HI as [_ HI].
  destruct (rc_completed _ !! _) as [c|] eqn:Hcomp; [|done]. rewrite !andb_true_iff, bool_decide_eq_true in HI. destruct HI as [[Hack _] _].
  pose proof (pairOk_life _ _ who HP Hc) as HL. destruct (ownReceive_keys _ _ _ _ (lo_keys _ _ _ HL) E1) as [[Hst Hid Hsd Hrc] HK].
  assert (HL1 : lifeOk who x1 tr).
  { destruct HL as [Hi _ Hs Hr]. constructor; [congruence|done|by rewrite Hsd|by rewrite Hrc]. }
  unfold isOutstanding. destruct (sd_outstanding _ !! _) as [o|] eqn:Ho.
  - go_inv EK. apply Ok_inj in EK as <-. apply negb_false_iff in G. cbn. eapply acknowledge_step; done.
  - case_bool_decide; [|done]. apply Ok_inj in EK as <-. apply reserved_only; try done. by rewrite app_nil_r.
Qed.

Lemma postAuth_ok p who seen tr : pairOk p tr -> pairOk (fst (postAuthenticationCommitV1 p who seen)) tr.
Proof.
  intros HP. unfold postAuthenticationCommitV1, closing. destruct (rbind _ _) as [[life u]|e] eqn:HB; [|by apply pairOk_close].
  apply reject_bind_ok in HB as [Hv HB]. rewrite !orb_false_iff in Hv. destruct Hv as [[[_ Hc] _] _].
  go_inv HB. apply Ok_inj in HB. injection HB as <- <-. cbn [fst]. rewrite <- (app_nil_r tr). apply reserved_only; try done.
  rewrite app_nil_r. by apply lifeOk_setState, pairOk_life.
Qed.

Lemma exec_ok op p tr : pairOk p tr -> pairOk (fst (exec op p)) (tr ++ snd (exec op p)).
Proof.
  intros HP. destruct op as [who slot seen|who id seen|who id seen|who slot count pv|who seen|who t seen replay|who t seen|who id retry seen
    |who direction epoch sequence ack seen replay|who t seen|who seen|who|]; cbn [exec].
  - pose proof (begin_ok p who slot seen tr HP) as HX. by destruct (beginOperationV1 p who slot seen).
  - pose proof (resend_ok p who id seen tr HP) as HX. by destruct (retryOperationV1 p who id seen).
  - pose proof (fragment_ok p who id seen tr HP) as HX. by destruct (reserveAdditionalFragmentV1 p who id seen).
  - cbn. rewrite app_nil_r. unfold canReserveFragmentSetV1. destruct (count <? 2); [done|]. destruct (readyLockedV1 _ _ _); [done|]. by apply pairOk_close.
  - pose proof (close_ok p who seen tr HP) as HX. by destruct (reserveCloseV1 p who seen).
  - pose proof (commitFirst_ok p who t seen replay tr HP) as HX. by destruct (commitFirstAuthenticatedOperationV1 p who t seen _ tt) as [[? ?] ?].
  - pose proof (commitOwn_ok p who t seen tr HP) as HX. by destruct (commitAuthenticatedOperationV1 p who t seen).
  - pose proof (ack_ok p who id retry seen tr HP) as HX. by destruct (reserveOperationAckV1 p who id retry seen).
  - pose proof (commitAck_ok p who direction epoch sequence ack seen replay tr HP) as HX.
    by destruct (commitStrictAuthenticatedOperationAckV1 p who direction epoch sequence ack seen _ tt) as [[? ?] ?].
  - pose proof (commitAckOwn_ok p who t seen tr HP) as HX. by destruct (commitAuthenticatedOperationAckV1 p who t seen).
  - cbn. rewrite app_nil_r. by apply postAuth_ok.
  - cbn. rewrite app_nil_r. unfold StateOf, stateLockedV1. destruct (pr_closed p); [done|]. case_match; [by apply pairOk_close|done].
  - cbn. rewrite app_nil_r. by apply pairOk_close.
Qed.

Lemma run_ok ops p tr : pairOk p tr -> pairOk (fst (runOps ops p)) (tr ++ snd (runOps ops p)).
Proof.
  revert p tr. induction ops as [|op ops IH]; intros p tr HP; cbn [runOps]; [by rewrite app_nil_r|].
  pose proof (exec_ok op p tr HP) as HX. destruct (exec op p) as [p1 now]. cbn [fst snd] in HX.
  specialize (IH p1 _ HX). destruct (runOps ops p1) as [p2 later]. cbn [fst snd] in *. by rewrite app_assoc.
Qed.
End invariant.

(** ** Fresh pairs *)

Section fresh.
Context `{Primitives}.
Context (pid : Z) (epoch : bytes) (seen0 : nat -> profileView) (clientSchedule relaySchedule : KeySchedule).
Context (clientConfig relayConfig : StrictSessionConfigV1) (policy : EffectiveSecurityPolicy) (th : bytes) (p0 : pairV1).
Context (Hnew : newPair pid epoch seen0 clientSchedule relaySchedule clientConfig relayConfig policy th = Ok p0).
Context (Tc : typedStrict clientConfig) (Vc : validateStrictSessionConfigV1 clientConfig = Ok tt).
Context (Tr : typedStrict relayConfig) (Vr : validateStrictSessionConfigV1 relayConfig = Ok tt).

Definition configOf (who : side) : StrictSessionConfigV1 := match who with Client => clientConfig | Relay => relayConfig end.

Lemma validated_limits v : typedStrict v -> validateStrictSessionConfigV1 v = Ok tt ->
  1 <= sc_MaxKeyLifetimeMessages v <= sc_MaxSessionMessages v /\ sc_MaxSessionMessages v <= 2 ^ 24.
Proof using Type.
  intros HT HV. unfold validateStrictSessionConfigV1, ConfigPolicyHashV1 in HV. apply rbind_ok in HV as (want & HV & _).
  apply rbind_ok in HV as (raw & HV & _). pose proof (canonical_limits _ _ HT HV). tauto.
Qed.

Lemma configOf_limits who : 1 <= sc_MaxKeyLifetimeMessages (configOf who) <= sc_MaxSessionMessages (configOf who) /\ sc_MaxSessionMessages (configOf who) <= 2 ^ 24.
Proof using Tc Tr Vc Vr. destruct who; by apply validated_limits. Qed.

Lemma newEndpoint_ok profile schedule config role state life : typedStrict config -> validateStrictSessionConfigV1 config = Ok tt ->
  newEndpointLifecycleV1 epoch profile schedule config policy th role state = Ok life ->
  id_config (lf_id life) = config /\ id_role (lf_id life) = role /\ id_nonceMode (lf_id life) = eff_NonceMode policy /\ keysOk life [] /\
  sendOk (lf_send life) [] 0 /\ recvOk (sc_MaxSessionMessages config) (lf_recv life) [].
Proof using Type.
  intros HT HV HN. destruct (validated_limits _ HT HV) as [HL HM]. unfold newEndpointLifecycleV1 in HN. go_inv HN. apply Ok_inj in HN as <-.
  rewrite !orb_false_iff, negb_false_iff, Z.eqb_eq in G. destruct G as [[[He _] _] _].
  cbn [lf_id lf_send lf_recv id_config id_nonceMode id_role]. split_and!; try done.
  - constructor; cbn [lf_id lf_keys k_keyEpoch k_schedule k_replay k_outKeyAttempts]; rewrite ?He.
    + unfold maxKeyLifetime. cbn. unfold_widths. lia.
    + unfold_widths. lia.
    + eauto.
    + unfold partitioned. cbn [lf_id id_nonceMode]. case_bool_decide; [by apply Ok_inj in E as <-|].
      apply map_err_ok, rbind_ok in E as (w & _ & <-%Ok_inj). eauto.
    + intros slot. unfold counterOf, streamState. cbn [lf_keys k_outStreams k_outSequence k_outSequenceEnd]. rewrite lookup_empty.
      destruct (partitioned _); (split; [done|reflexivity]).
    + done.
    + intros u Hu. by apply elem_of_nil in Hu.
    + intros slot q Hu. by apply elem_of_nil in Hu.
    + constructor; [by apply NoDup_nil|]. intros e. change (usesOf e []) with 0. unfold maxKeyLifetime. cbn [lf_id id_config]. lia.
  - constructor; cbn; try done; [unfold_widths; lia|change (zlen (@nil (Z * bytes))) with 0; lia].
Qed.

Lemma fresh_ok : pairOk (fun who => lf_id (lifeOf p0 who)) p0 [].
Proof using Hnew Tc Tr Vc Vr.
  unfold newPair in Hnew. apply rbind_ok in Hnew as (clientLife & HC & HN). apply rbind_ok in HN as (relayLife & HR & HN).
  apply map_err_ok in HC, HR. destruct (newEndpoint_ok _ _ _ _ _ _ Tc Vc HC) as (C1 & _ & C2 & C3 & C4 & C5).
  destruct (newEndpoint_ok _ _ _ _ _ _ Tr Vr HR) as (R1 & _ & R2 & R3 & R4 & R5). apply Ok_inj in HN as Hp. clear HC HR.
  assert (HP : forall who, lifeOk (fun w => lf_id (lifeOf p0 w)) who (lifeOf p0 who) []).
  { rewrite <- Hp. intros []; constructor; cbn; try done; unfold sessionLimit; cbn; rewrite ?C1, ?R1; done. }
  split; [|right; split; [by rewrite <- Hp|done]]. constructor; try (intros who; apply prefix_nil).
  - intros who. apply (ko_used _ _ (lo_keys _ _ _ _ (HP who))).
  - intros who i x Hx. done.
  - intros who. unfold sessionLimit. change (zlen (delivered who [])) with 0. lia.
Qed.

Lemma fresh_config who : id_config (lf_id (lifeOf p0 who)) = configOf who /\ id_nonceMode (lf_id (lifeOf p0 who)) = eff_NonceMode policy.
Proof using Hnew Tc Tr Vc Vr.
  unfold newPair in Hnew. apply rbind_ok in Hnew as (clientLife & HC & HN). apply rbind_ok in HN as (relayLife & HR & HN).
  apply map_err_ok in HC, HR. destruct (newEndpoint_ok _ _ _ _ _ _ Tc Vc HC) as (C1 & _ & C2 & _).
  destruct (newEndpoint_ok _ _ _ _ _ _ Tr Vr HR) as (R1 & _ & R2 & _). apply Ok_inj in HN as Hp. clear HC HR. rewrite <- Hp. by destruct who.
Qed.

(** C25: Whatever the two ends of a pair do, and however the profile generation moves
    under them, an end never reserves one record position twice (the position is
    the epoch and the sequence, and the stream slot where sequences are counted
    per stream), and it reserves at most as many records under one key as the
    configured key lifetime. *)
Theorem record_positions_unique ops who :
  let positions := positionsOf (bool_decide (eff_NonceMode policy = NonceModeStreamPartitionedCounterV1)) who (snd (runOps ops p0)) in
  NoDup positions /\ forall e, usesOf e positions <= sc_MaxKeyLifetimeMessages (configOf who).
Proof using Hnew Tc Tr Vc Vr.
  cbv zeta. destruct (run_ok _ ops _ _ fresh_ok) as [HT _]. cbn [app] in HT. pose proof (to_used _ _ HT who) as HU.
  unfold keyLimit, partitionOf in HU. destruct (fresh_config who) as [E1 E2]. rewrite E1, E2 in HU. by destruct HU.
Qed.

(** C26: The operations that an end has acknowledged are a prefix of those delivered
    to its peer, and these are a prefix of the operations it has begun: every
    operation is delivered at most once, in order, only after it was begun, and
    acknowledged only after it was delivered. An end delivers at most as many
    operations as the session limit. *)
Theorem operations_in_order ops who :
  let tr := snd (runOps ops p0) in
  acked who tr `prefix_of` delivered (peerOf who) tr /\ delivered (peerOf who) tr `prefix_of` begun who tr /\
  (begun who tr).*1 = seqZ 0 (zlen (begun who tr)) /\ zlen (delivered who tr) <= sc_MaxSessionMessages (configOf who).
Proof using Hnew Tc Tr Vc Vr.
  cbv zeta. destruct (run_ok _ ops _ _ fresh_ok) as [HT _]. cbn [app] in HT. split_and!; [by apply HT..| |].
  - apply list_eq. intros i. rewrite list_lookup_fmap. pose proof (to_numbered _ _ HT who) as HN.
    destruct (begun who (snd (runOps ops p0)) !! i) as [x|] eqn:E; cbn.
    + rewrite (HN _ _ E). symmetry. apply lookup_seqZ. split; [lia|]. apply lookup_lt_Some in E. unfold zlen. lia.
    + symmetry. apply lookup_seqZ_ge. apply lookup_ge_None in E. unfold zlen. lia.
  - pose proof (to_bound _ _ HT who) as HB. unfold sessionLimit in HB. destruct (fresh_config who) as [E1 _]. rewrite E1 in HB.
    pose proof (configOf_limits who). lia.
Qed.
End fresh.
