(* ===== verification/LifecycleState.v ===== *)
(** * The state of a pair over its life

    [closed_pair_final]: a closed pair holds nothing any more and stays as it is.
    [lifecycle_well_typed]: the books of an open pair are well formed, whatever was
    done with it. *)

From S2P Require Import Prelude GoBytes SecurityErrors Ir KeySchedule Replay Nonce Transcript StrictConfig Envelope Records Channel Lifecycle LifecycleFacts.
From Stdlib Require Import ZArith Lia Strings.Byte.
From stdpp Require Import base list gmap strings.
Local Open Scope Z_scope.

Section closed.
Context `{Primitives}.

Lemma close_closed p : pr_closed p = true -> closeLockedV1 p = p.
Proof. intros Hc. unfold closeLockedV1. by rewrite Hc. Qed.

Lemma not_ready p life pv : pr_closed p = true -> readyLockedV1 p life pv = Err ErrLifecycle.
Proof. intros Hc. unfold readyLockedV1. by rewrite Hc, orb_true_r. Qed.

Lemma closed_inert op p : pr_closed p = true -> exec op p = (p, []).
Proof.
  intros Hc. destruct op; cbn [exec].
  - unfold beginOperationV1. rewrite not_ready by done. cbn. by rewrite close_closed.
  - unfold retryOperationV1. rewrite not_ready by done. cbn. by rewrite close_closed.
  - unfold reserveAdditionalFragmentV1. rewrite not_ready by done. cbn. by rewrite close_closed.
  - unfold canReserveFragmentSetV1. destruct (count <? 2); [done|]. rewrite not_ready by done. cbn. by rewrite close_closed.
  - unfold reserveCloseV1, reserveRecord, prepareOutboundRecordLockedV1. rewrite not_ready by done. cbn. by rewrite close_closed.
  - unfold commitFirstAuthenticatedOperationV1, prepareFirst. by rewrite Hc, orb_true_r.
  - unfold commitAuthenticatedOperationV1. rewrite not_ready by done. cbn. by rewrite close_closed.
  - unfold reserveOperationAckV1. rewrite Hc, orb_true_r. cbn. by rewrite close_closed.
  - unfold commitStrictAuthenticatedOperationAckV1, prepareStrictAck. by rewrite Hc, orb_true_r.
  - unfold commitAuthenticatedOperationAckV1. rewrite Hc, orb_true_r. cbn. by rewrite close_closed.
  - unfold postAuthenticationCommitV1. rewrite Hc, orb_true_r. cbn. by rewrite close_closed.
  - unfold StateOf. by rewrite Hc.
  - by rewrite close_closed.
Qed.

Lemma closing_pair {A} p who (r : result lifecycle_error (endpointLifecycleV1 * A)) :
  (exists life, fst (closing p who r) = setLife p who life) \/ fst (closing p who r) = closeLockedV1 p.
Proof. destruct r as [[life a]|e]; cbn; eauto. Qed.

(** Every operation changes one end or closes the pair. *)
Lemma exec_shape op p : fst (exec op p) = p \/ (exists who life, fst (exec op p) = setLife p who life) \/ fst (exec op p) = closeLockedV1 p.
Proof.
  destruct op; cbn [exec].
  all: try match goal with
       | |- context [beginOperationV1 ?p ?w ?s ?v] => unfold beginOperationV1
       | |- context [retryOperationV1 ?p ?w ?s ?v] => unfold retryOperationV1
       | |- context [reserveAdditionalFragmentV1 ?p ?w ?s ?v] => unfold reserveAdditionalFragmentV1
       | |- context [reserveCloseV1 ?p ?w ?v] => unfold reserveCloseV1
       | |- context [commitAuthenticatedOperationV1 ?p ?w ?t ?v] => unfold commitAuthenticatedOperationV1
       | |- context [reserveOperationAckV1 ?p ?w ?t ?r ?v] => unfold reserveOperationAckV1
       | |- context [commitAuthenticatedOperationAckV1 ?p ?w ?t ?v] => unfold commitAuthenticatedOperationAckV1
       | |- context [postAuthenticationCommitV1 ?p ?w ?v] => unfold postAuthenticationCommitV1
       end.
  all: try match goal with
       | |- context [closing ?q ?w ?r] => right; pose proof (closing_pair q w r) as HX; destruct (closing q w r); cbn [fst] in *; destruct HX as [[life HX]|HX]; eauto
       end.
  - unfold canReserveFragmentSetV1. destruct (count <? 2); [by left|]. destruct (readyLockedV1 _ _ _); cbn; auto.
  - unfold commitFirstAuthenticatedOperationV1. destruct (prepareFirst _ _ _ _) as [[[? ?] ?]|]; cbn; [|by left].
    destruct replay; cbn; [right; left; eauto|by left].
  - unfold commitStrictAuthenticatedOperationAckV1. destruct (prepareStrictAck _ _ _ _ _ _ _); cbn; [|by left].
    destruct replay; cbn; [right; left; eauto|by left].
  - unfold StateOf, stateLockedV1. destruct (pr_closed p); [by left|]. case_match; cbn; auto.
  - auto.
Qed.

(** An end that holds nothing: no owner, epoch, configuration, role or policy, no
    key schedule, no counter and no entry in any book. Only the outcome of the last
    commit, a flag, may be either. *)
Record destroyed (life : endpointLifecycleV1) : Prop := {
  ds_state : lf_state life = StateClosed;
  ds_identity : lf_id life = mkIdentity false (replicate 32 Byte.x00) zeroConfig 0 "" "" "" (replicate 32 Byte.x00) 0;
  ds_schedule : k_schedule (lf_keys life) = None;
  ds_counters : k_keyEpoch (lf_keys life) = 0 /\ k_outSequence (lf_keys life) = 0 /\ k_outSequenceEnd (lf_keys life) = false /\
    k_outKeyAttempts (lf_keys life) = 0 /\ k_inKeyAttempts (lf_keys life) = 0;
  ds_streams : k_outStreams (lf_keys life) = ∅ /\ k_replay (lf_keys life) = None /\ k_replayStreams (lf_keys life) = ∅;
  ds_send : lf_send life = mkSend 0 false 0 ∅ ∅ ∅;
  ds_received : rc_inOperationSequence (lf_recv life) = 0 /\ rc_inOperationSequenceEnd (lf_recv life) = false /\ rc_receiveCompleted (lf_recv life) = 0;
  ds_receive : rc_completed (lf_recv life) = ∅ /\ rc_issuedAcks (lf_recv life) = ∅;
}.

Lemma run_destroyed ops p : (pr_closed p = true -> forall who, destroyed (lifeOf p who)) ->
  pr_closed (fst (runOps ops p)) = true -> forall who, destroyed (lifeOf (fst (runOps ops p)) who).
Proof.
  revert p. induction ops as [|op ops IH]; intros p HP; cbn [runOps]; [done|].
  assert (HP1 : pr_closed (fst (exec op p)) = true -> forall who, destroyed (lifeOf (fst (exec op p)) who)).
  { destruct (exec_shape op p) as [->|[(who & life & E)| ->]]; [done|..].
    - rewrite E, closed_set. intros Hc. rewrite (closed_inert op p Hc) in E. cbn in E. rewrite <- E. by apply HP.
    - unfold closeLockedV1. destruct (pr_closed p) eqn:Hc; [auto|]. by intros _ []. }
  destruct (exec op p) as [p1 now]. cbn [fst] in HP1. specialize (IH p1 HP1). destruct (runOps ops p1) as [p2 later]. exact IH.
Qed.

Lemma closed_run ops p : pr_closed p = true -> runOps ops p = (p, []).
Proof. intros Hc. induction ops as [|op ops IH]; [done|]. cbn [runOps]. by rewrite closed_inert, IH. Qed.
End closed.

(** ** The books *)

Section books.
Context `{Primitives}.

Definition attemptRange (n : Z) : Prop := 1 <= n <= lifecycleTransmissionLimitV1.

(** Slots are 16-bit values; only the begin of an operation takes one from outside. *)
Definition slotOk (P : Z -> Prop) (op : lifeOp) : Prop := match op with DoBegin _ slot _ => P slot | _ => True end.

(** The directions of the operations an end begins and of those it receives. *)
Definition homeDirection (i : identityV1) : Z :=
  if id_role i =? lifecycleRoleClientV1 then controlDirectionClientV1 else controlDirectionRelayV1.
Definition awayDirection (i : identityV1) : Z :=
  if id_role i =? lifecycleRoleClientV1 then controlDirectionRelayV1 else controlDirectionClientV1.

(** [id] names an operation of this session that came from [from]. *)
Record names (i : identityV1) (from direction epoch slot sequence : Z) (id : bytes) : Prop := {
  nm_direction : direction = from;
  nm_slot : 1 <= slot < 65536;
  nm_id : operationIDV1 (id_th4 i) direction epoch slot sequence = id;
}.

Definition outstandingEntry (i : identityV1) (id : bytes) (o : outstandingOperationV1) : Prop :=
  oo_id o = id /\ attemptRange (oo_attempts o) /\
  names i (homeDirection i) (oo_originDirection o) (oo_originEpoch o) (oo_streamSlot o) (oo_operationSequence o) id.

Definition issuedEntry (pid : Z) (who : side) (i : identityV1) (key : recordReservationKeyV1) (t : operationTransmissionV1) : Prop :=
  operationReservationKeyV1 t = key /\ tx_owner t = who /\ tx_coordinator t = pid /\ attemptRange (tx_attempt t) /\
  names i (homeDirection i) (tx_originDirection t) (tx_originEpoch t) (tx_streamSlot t) (tx_operationSequence t) (tx_operationID t).

Definition completedEntry (i : identityV1) (count : Z) (id : bytes) (c : completedOperationV1) : Prop :=
  ack_OperationID (co_ack c) = id /\ 1 <= ack_CompletedCount (co_ack c) <= count /\ 0 <= co_ackAttempts c <= lifecycleTransmissionLimitV1 /\
  names i (awayDirection i) (co_originDirection c) (co_originEpoch c) (co_streamSlot c) (co_operationSequence c) id.

(** An acknowledgement on its way is that of a completed operation. *)
Definition ackEntry (pid : Z) (who : side) (completed : gmap bytes completedOperationV1) (key : recordReservationKeyV1)
    (t : acknowledgementTransmissionV1) : Prop :=
  ackReservationKeyV1 t = key /\ at_owner t = who /\ at_coordinator t = pid /\ attemptRange (at_attempt t) /\
  exists c, completed !! ack_OperationID (at_ack t) = Some c /\ co_ack c = at_ack t /\ at_attempt t <= co_ackAttempts c.

Record sendBooks (pid : Z) (who : side) (i : identityV1) (s : sendStateV1) : Prop := {
  sb_sequence : u64 (sd_operationSequence s);
  sb_completed : u64 (sd_sendCompleted s);
  sb_outstanding : forall id o, sd_outstanding s !! id = Some o -> outstandingEntry i id o;
  sb_issued : forall key t, sd_issuedOperations s !! key = Some t -> issuedEntry pid who i key t;
  sb_acknowledged : forall id count, sd_acknowledged s !! id = Some count -> 1 <= count <= sd_sendCompleted s;
}.

Record recvBooks (pid : Z) (who : side) (i : identityV1) (r : receiveStateV1) : Prop := {
  rb_sequence : u64 (rc_inOperationSequence r);
  rb_received : u64 (rc_receiveCompleted r);
  rb_completed : forall id c, rc_completed r !! id = Some c -> completedEntry i (rc_receiveCompleted r) id c;
  rb_acks : forall key t, rc_issuedAcks r !! key = Some t -> ackEntry pid who (rc_completed r) key t;
}.

Record booksOk (pid : Z) (who : side) (life : endpointLifecycleV1) : Prop := {
  bk_limit : 1 <= maxKeyLifetime life <= MaxUint64;
  bk_session : maxSession life <= MaxUint64;
  bk_in : 0 <= k_inKeyAttempts (lf_keys life) <= maxKeyLifetime life;
  bk_send : sendBooks pid who (lf_id life) (lf_send life);
  bk_recv : recvBooks pid who (lf_id life) (lf_recv life);
}.

Definition pairBooks (p : pairV1) : Prop := pr_closed p = true \/ forall who, booksOk (pr_id p) who (lifeOf p who).

Lemma pairBooks_close p : pairBooks (closeLockedV1 p).
Proof. left. unfold closeLockedV1. by destruct (pr_closed p) eqn:?. Qed.

Lemma pairBooks_set p who life : pairBooks p -> (pr_closed p = false -> booksOk (pr_id p) who (lifeOf p who) -> booksOk (pr_id p) who life) ->
  pairBooks (setLife p who life).
Proof.
  intros HP Hl. destruct (pr_closed p) eqn:Hc; [left; by rewrite closed_set|]. destruct HP as [HP|HP]; [congruence|]. right.
  assert (pr_id (setLife p who life) = pr_id p) as -> by (by destruct who). intros w.
  destruct (side_cases who w) as [->| ->]; rewrite ?lifeOf_set, ?lifeOf_set_peer; [by apply Hl|apply HP].
Qed.

Lemma pairBooks_closing {A} p who (r : result lifecycle_error (endpointLifecycleV1 * A)) : pairBooks p ->
  (forall life a, r = Ok (life, a) -> pr_closed p = false -> booksOk (pr_id p) who (lifeOf p who) -> booksOk (pr_id p) who life) ->
  pairBooks (fst (closing p who r)).
Proof.
  intros HP Hok. destruct r as [[life a]|e]; cbn; [|apply pairBooks_close]. apply pairBooks_set; [done|]. by eapply Hok.
Qed.

Lemma books_keys pid who life life' : booksOk pid who life -> sameButKeys life life' -> 0 <= k_inKeyAttempts (lf_keys life') <= maxKeyLifetime life ->
  booksOk pid who life'.
Proof.
  intros [B1 B2 B3 B4 B5] [_ Hi Hs Hr] Hin. unfold maxKeyLifetime, maxSession in *. constructor; unfold maxKeyLifetime, maxSession; rewrite ?Hi, ?Hs, ?Hr; done.
Qed.

(** What a reservation does with the counters. *)
Lemma commitOutbound_counts life slot candidate life' e q : commitOutboundRecordLockedV1 life slot candidate = Ok (life', e, q) ->
  sameButKeys life life' /\ (k_inKeyAttempts (lf_keys life') = k_inKeyAttempts (lf_keys life) \/ k_inKeyAttempts (lf_keys life') = 0).
Proof.
  unfold commitOutboundRecordLockedV1. intros [_ HC]%reject_bind_ok. apply rbind_ok in HC as (life1 & Hl & HC).
  assert (sameButKeys life life1 /\ (k_inKeyAttempts (lf_keys life1) = k_inKeyAttempts (lf_keys life) \/ k_inKeyAttempts (lf_keys life1) = 0)) as [HS HI].
  { destruct (negb _); [apply Ok_inj in Hl as <-; split; [by constructor|by left]|]. destruct (oc_pending candidate); [|done]. go_inv Hl.
    apply Ok_inj in Hl as <-. split; [apply sameButKeys_set|by right]. }
  clear Hl. destruct (partitioned life1).
  - apply Ok_inj in HC. injection HC as <- _ _. split; [|done]. eapply sameButKeys_trans; [done|apply sameButKeys_set].
  - destruct (if _ =? MaxUint64 then _ else _). apply Ok_inj in HC. injection HC as <- _ _. split; [|done]. eapply sameButKeys_trans; [done|apply sameButKeys_set].
Qed.

Lemma reserve_books p pid who life slot before after life' e q :
  booksOk pid who life -> reserveRecord p life slot before after = Ok (life', e, q) -> sameButKeys life life' /\ booksOk pid who life'.
Proof.
  intros HB HR. unfold reserveRecord in HR. go_inv HR. apply commitOutbound_counts in HR as [HS HI]. split; [done|].
  apply (books_keys _ _ life); [done..|]. pose proof (bk_in _ _ _ HB). pose proof (bk_limit _ _ _ HB). destruct HI; lia.
Qed.

Lemma strictReceive_books pid who life epoch candidate : booksOk pid who life -> prepareStrictReceiveEpochLockedV1 life epoch = Ok candidate ->
  booksOk pid who (applyStrictReceiveEpochLockedV1 life epoch candidate) /\ sameButKeys life (applyStrictReceiveEpochLockedV1 life epoch candidate).
Proof.
  intros HB HP. pose proof (bk_in _ _ _ HB) as Hin. pose proof (bk_limit _ _ _ HB) as Hlim.
  assert (HS : sameButKeys life (applyStrictReceiveEpochLockedV1 life epoch candidate)) by (destruct candidate; by constructor).
  split; [|done]. apply (books_keys _ _ life); [done..|]. unfold prepareStrictReceiveEpochLockedV1 in HP. apply reject_bind_ok in HP as [Hc HP].
  destruct (Z.eqb_spec epoch (k_keyEpoch (lf_keys life))) as [E|E].
  - apply Ok_inj in HP as <-. rewrite andb_true_r, Z.leb_gt in Hc. cbn. rewrite wrap64_small; unfold_widths; lia.
  - go_inv HP. apply Ok_inj in HP as <-. cbn. rewrite wrap64_small; unfold_widths; lia.
Qed.

Lemma ownReceive_books pid who life slot epoch sequence pv candidate life' : booksOk pid who life ->
  prepareReceiveEpochLockedV1 life slot epoch sequence pv = Ok candidate -> commitReceiveEpochLockedV1 life candidate = Ok life' ->
  booksOk pid who life' /\ sameButKeys life life'.
Proof.
  intros HB HP HC. pose proof (bk_in _ _ _ HB) as Hin. pose proof (bk_limit _ _ _ HB) as Hlim.
  unfold commitReceiveEpochLockedV1 in HC. apply reject_bind_ok in HC as [_ HC].
  destruct (CommitAuthenticated _ _) as [[w|] [u|]]; try done. apply Ok_inj in HC as <-.
  match goal with |- booksOk _ _ ?l /\ _ => assert (HS : sameButKeys life l) by (destruct (rcv_pending candidate), (partitioned life); by constructor) end.
  split; [|done]. apply (books_keys _ _ life); [done..|]. unfold prepareReceiveEpochLockedV1 in HP. apply rbind_ok in HP as (_ & _ & HP).
  destruct (epoch =? k_keyEpoch (lf_keys life)).
  - apply reject_bind_ok in HP as [Hl%Z.leb_gt HP]. destruct (receiveReplayCandidateLockedV1 _ _) as [[w' b]|]; [|done]. go_inv HP.
    apply Ok_inj in HP as <-. cbn. rewrite wrap64_small; unfold_widths; lia.
  - go_inv HP. apply Ok_inj in HP as <-. cbn [rcv_pending]. destruct (partitioned life); cbn; rewrite wrap64_small; unfold_widths; lia.
Qed.

Lemma books_send pid who life s : booksOk pid who life -> sendBooks pid who (lf_id life) s -> booksOk pid who (setSend life s).
Proof. intros [B1 B2 B3 B4 B5] Hs. by constructor. Qed.

Lemma books_recv pid who life r : booksOk pid who life -> recvBooks pid who (lf_id life) r -> booksOk pid who (setRecv life r).
Proof. intros [B1 B2 B3 B4 B5] Hr. by constructor. Qed.

Lemma advance_range n ended : u64 n -> u64 (fst (advance n ended)).
Proof. unfold advance. intros Hn. destruct (n =? MaxUint64); [done|apply wrap64_range]. Qed.

Lemma books_issue pid who life id o t next ended : booksOk pid who life -> u64 next ->
  outstandingEntry (lf_id life) id o -> issuedEntry pid who (lf_id life) (operationReservationKeyV1 t) t ->
  booksOk pid who (setSend life (issue (mkSend next ended (sd_sendCompleted (lf_send life)) (sd_outstanding (lf_send life))
    (sd_acknowledged (lf_send life)) (sd_issuedOperations (lf_send life))) id o t)).
Proof.
  intros HB Hn Ho Ht. pose proof (bk_send _ _ _ HB) as [S1 S2 S3 S4 S5]. apply books_send; [done|]. constructor; cbn; [done..| | |done].
  - intros id' o' [[<- <-]|[_ Hx]]%lookup_insert_Some; [done|by apply S3].
  - intros key t' [[<- <-]|[_ Hx]]%lookup_insert_Some; [done|by apply S4].
Qed.

(** An acknowledgement that a completed operation earned, taken in order. *)
Lemma books_ack pid who life ack o : booksOk pid who life -> 1 <= ack_CompletedCount ack -> acknowledges (lf_send life) o ack = true ->
  booksOk pid who (setSend life (acknowledge (lf_send life) ack)).
Proof.
  intros HB H1 HA. pose proof (bk_send _ _ _ HB) as [S1 S2 S3 S4 S5]. unfold acknowledges in HA. rewrite andb_true_iff, !Z.eqb_eq in HA. destruct HA as [_ HA].
  assert (HC : ack_CompletedCount ack = sd_sendCompleted (lf_send life) + 1).
  { rewrite HA in H1 |- *. unfold_widths. unfold wrap in *. destruct (decide (sd_sendCompleted (lf_send life) + 1 = 2 ^ 64)) as [E|E].
    - rewrite E, Z.mod_same in H1 by done. lia.
    - rewrite Z.mod_small; lia. }
  apply books_send; [done|]. constructor; cbn; [done|apply wrap64_range| |done|]; rewrite <- ?HA, ?HC.
  - intros id' o' [_ Hx]%lookup_delete_Some. by apply S3.
  - pose proof S2 as [? _]. intros id' n [[_ <-]|[_ Hx]]%lookup_insert_Some; [lia|]. specialize (S5 _ _ Hx). lia.
Qed.

Lemma classify_new life t ack : classify life t = Ok (true, ack) -> u64 (rc_receiveCompleted (lf_recv life)) -> maxSession life <= MaxUint64 ->
  rc_completed (lf_recv life) !! tx_operationID t = None /\ ack = mkAck (tx_operationID t) (rc_receiveCompleted (lf_recv life) + 1) /\
  wrap64 (rc_receiveCompleted (lf_recv life) + 1) = rc_receiveCompleted (lf_recv life) + 1.
Proof.
  unfold classify. intros HC Hu HM. destruct (rc_completed _ !! _); go_inv HC; [done|]. apply Ok_inj in HC. injection HC as <-. apply Z.leb_gt in G0.
  rewrite wrap64_small; [done|]. unfold_widths. lia.
Qed.

(** Completing a new operation of the peer. *)
Lemma books_complete pid who life t ack : booksOk pid who life -> classify life t = Ok (true, ack) ->
  tx_originDirection t = awayDirection (lf_id life) -> identified life t = true -> u16 (tx_streamSlot t) -> booksOk pid who (setRecv life (complete (lf_recv life) t ack)).
Proof.
  intros HB HC Hd HI Hu. pose proof (bk_recv _ _ _ HB) as [R1 R2 R3 R4]. destruct (classify_new _ _ _ HC R2 (bk_session _ _ _ HB)) as (Hn & -> & Hw).
  unfold identified in HI. rewrite andb_true_iff, negb_true_iff, Z.eqb_neq, bool_decide_eq_true in HI. destruct HI as [Hs Hid].
  apply books_recv; [done|]. unfold complete. pose proof (advance_range _ (rc_inOperationSequenceEnd (lf_recv life)) R1) as HA.
  destruct (advance _ _) as [next ended]. pose proof R2 as [HR _]. constructor; cbn; [done|apply wrap64_range|..]; rewrite ?Hw.
  - intros id c [[<- <-]|[_ Hx]]%lookup_insert_Some; unfold completedEntry; cbn; [|destruct (R3 _ _ Hx) as (? & ? & ? & ?); split_and!; (done || lia)].
    unfold lifecycleTransmissionLimitV1. split_and!; [(done || lia)..|]. constructor; [done| |done]. unfold_widths. lia.
  - intros key a Hk. destruct (R4 _ _ Hk) as (? & ? & ? & ? & c & Hc & ?). split_and!; [done..|]. exists c. rewrite lookup_insert_ne by congruence. done.
Qed.

Lemma books_deliver pid who life b : booksOk pid who life -> booksOk pid who (setRecv life (setDeliver (lf_recv life) b)).
Proof. intros HB. apply books_recv; [done|]. by destruct (bk_recv _ _ _ HB). Qed.

Lemma books_state pid who life st : booksOk pid who life -> booksOk pid who (setState life st).
Proof. intros [B1 B2 B3 B4 B5]. by constructor. Qed.

(** Reserving an acknowledgement of a completed operation once more. *)
Lemma books_ackReserve pid who life id c t : booksOk pid who life -> rc_completed (lf_recv life) !! id = Some c ->
  at_owner t = who -> at_coordinator t = pid -> at_ack t = co_ack c -> at_attempt t = co_ackAttempts c + 1 -> attemptRange (at_attempt t) ->
  let r := lf_recv life in
  booksOk pid who (setRecv life (mkReceive (rc_inOperationSequence r) (rc_inOperationSequenceEnd r) (rc_receiveCompleted r)
    (<[id := mkCompleted (co_originDirection c) (co_originEpoch c) (co_streamSlot c) (co_operationSequence c) (co_ack c) (at_attempt t)]> (rc_completed r))
    (<[ackReservationKeyV1 t := t]> (rc_issuedAcks r)) (rc_lastCommitDeliver r))).
Proof.
  intros HB Hc Ho Hp Ha Hn Hr r. subst r. pose proof (bk_recv _ _ _ HB) as [R1 R2 R3 R4]. destruct (R3 _ _ Hc) as (C1 & C2 & C3 & C4).
  apply books_recv; [done|]. constructor; cbn; [done..| |].
  - intros id' c' [[<- <-]|[_ Hx]]%lookup_insert_Some; [|by apply R3]. unfold attemptRange in Hr. split_and!; cbn; (done || lia).
  - intros key t' [[<- <-]|[_ Hx]]%lookup_insert_Some.
    + split_and!; [done..|]. eexists. rewrite Ha, C1, lookup_insert_eq. split_and!; [done..|]. cbn. lia.
    + destruct (R4 _ _ Hx) as (? & ? & ? & ? & c' & Hc' & Ea & Hle). split_and!; [done..|].
      destruct (decide (id = ack_OperationID (at_ack t'))) as [->|Hne]; [|exists c'; by rewrite lookup_insert_ne].
      eexists. rewrite lookup_insert_eq. assert (c' = c) as -> by congruence. split_and!; [done..|]. cbn. lia.
Qed.

(** The peer's operations come from the other direction. *)
Lemma origin_away p life t : validStrictOperationOwnerLockedV1 p life t = true -> validStrictCandidateLockedV1 p life = true ->
  tx_originDirection t = awayDirection (lf_id life).
Proof.
  unfold validStrictOperationOwnerLockedV1, validStrictCandidateLockedV1, outboundDirectionV1, awayDirection, lifecycleRoleClientV1, lifecycleRoleRelayV1.
  rewrite !andb_true_iff, !orb_true_iff, !negb_true_iff, !Z.eqb_eq, !Z.eqb_neq. intros (((((_ & (_ & Hr)) & _) & _) & Hne) & ->) (_ & Hl).
  destruct Hr as [Hr|Hr], Hl as [Hl|Hl]; rewrite Hr, Hl in *; done.
Qed.

Lemma valid_strict p life : validLockedV1 p life = true -> validStrictCandidateLockedV1 p life = true.
Proof. unfold validLockedV1. by rewrite andb_true_iff; intros [? _]. Qed.

Lemma owner_strict p life t : validOperationOwnerLockedV1 p life t = true -> validStrictOperationOwnerLockedV1 p life t = true.
Proof.
  unfold validOperationOwnerLockedV1, validStrictOperationOwnerLockedV1. rewrite !andb_true_iff. intros (((((? & ?%valid_strict) & ?) & ?) & ?) & ?). by split_and!.
Qed.

Lemma classify_same life life' t : sameButKeys life life' -> classify life' t = classify life t /\ identified life' t = identified life t.
Proof. intros [_ Hi _ Hr]. unfold classify, identified, maxSession. by rewrite Hi, Hr. Qed.

Lemma attempt_next n : 0 <= n -> (lifecycleTransmissionLimitV1 <=? n) = false -> wrap8 (n + 1) = n + 1 /\ attemptRange (n + 1).
Proof.
  unfold attemptRange, lifecycleTransmissionLimitV1. rewrite Z.leb_gt. intros H1 H2. unfold_widths. unfold wrap. change (2 ^ 8) with 256. rewrite Z.mod_small by lia. lia.
Qed.

#[local] Hint Resolve books_deliver books_state : books.

Lemma issued_slot p t : (forall who, booksOk (pr_id p) who (lifeOf p who)) -> validIssuedOperationLockedV1 p t = true -> u16 (tx_streamSlot t).
Proof.
  intros HP HI%bool_decide_eq_true. destruct (sb_issued _ _ _ _ (bk_send _ _ _ (HP _)) _ _ HI) as (_ & _ & _ & _ & [_ HS _]). unfold_widths. lia.
Qed.

(** The strict path. *)
Lemma first_books p who t seen candidate unique ack : (forall w, booksOk (pr_id p) w (lifeOf p w)) -> prepareFirst p who t seen = Ok (candidate, unique, ack) ->
  booksOk (pr_id p) who (applyFirst (lifeOf p who) t candidate unique ack).
Proof.
  intros HP HF. pose proof (HP who) as HK. unfold prepareFirst in HF. go_inv HF. apply Ok_inj in HF. injection HF as <- <- <-. destruct (strictReceive_books _ _ _ _ _ HK E1) as [HK1 HS].
  rewrite !orb_false_iff in G, G0. destruct G as [[Hv%negb_false_iff _] _], G0 as [[Ho%negb_false_iff Hi%negb_false_iff] HI%negb_false_iff]. destruct (classify_same _ _ t HS) as [S1 S2].
  unfold applyFirst. cbv zeta. apply books_deliver. destruct x0 as [[|] a]; cbn [fst snd] in *; match goal with |- context [bool_decide ?P] => destruct (bool_decide P) end; auto with books.
  all: try apply books_state; apply books_complete; rewrite ?S1, ?S2, ?(sk_id _ _ HS); try done; [by apply (origin_away p)|by apply (issued_slot p)].
Qed.

Lemma strictAck_books p who direction epoch sequence ack seen candidate : booksOk (pr_id p) (peerOf who) (lifeOf p (peerOf who)) -> booksOk (pr_id p) who (lifeOf p who) ->
  prepareStrictAck p who direction epoch sequence ack seen = Ok candidate ->
  let life := applyStrictReceiveEpochLockedV1 (lifeOf p who) epoch candidate in booksOk (pr_id p) who (setSend life (acknowledge (lf_send life) ack)).
Proof.
  intros HP HK HF. unfold prepareStrictAck in HF. apply reject_bind_ok in HF as [_ HF]. apply rbind_ok in HF as (_ & _ & HF). apply rbind_ok in HF as (_ & _ & HF).
  destruct (rc_issuedAcks _ !! _); [|done]. destruct (rc_completed _ !! _) as [c|] eqn:Hc; [|done]. destruct (sd_outstanding _ !! _) as [o|]; [|done].
  go_inv HF. apply Ok_inj in HF as <-. apply map_err_ok in E. destruct (strictReceive_books _ _ _ _ _ HK E) as [HK1 HS]. cbv zeta.
  rewrite !orb_false_iff in G. destruct G as [[[_ HA%negb_false_iff%bool_decide_eq_true] _] HO%negb_false_iff].
  destruct (rb_completed _ _ _ _ (bk_recv _ _ _ HP) _ _ Hc) as (_ & HN & _). rewrite HA in HN.
  apply (books_ack _ _ _ _ o); [done|lia|]. unfold acknowledges in *. by rewrite (sk_send _ _ HS).
Qed.

Lemma ready_valid p life pv u : readyLockedV1 p life pv = Ok u -> validLockedV1 p life = true.
Proof. unfold readyLockedV1. intros [HG _]%reject_bind_ok. rewrite !orb_false_iff, negb_false_iff in HG. by destruct HG as [[? _] _]. Qed.

Lemma issued_count p t : (forall who, booksOk (pr_id p) who (lifeOf p who)) -> validIssuedAckLockedV1 p t = true -> 1 <= ack_CompletedCount (at_ack t).
Proof.
  intros HP HV. unfold validIssuedAckLockedV1 in HV. apply andb_true_iff in HV as [_ HV]. destruct (rc_completed _ !! _) as [c|] eqn:Hc; [|done].
  rewrite !andb_true_iff, bool_decide_eq_true in HV. destruct HV as [[HA _] _].
  destruct (rb_completed _ _ _ _ (bk_recv _ _ _ (HP _)) _ _ Hc) as (_ & HN & _). rewrite HA in HN. lia.
Qed.

(** An operation whose failures close the pair. *)
Ltac through_closing :=
  match goal with HP : pairBooks ?p |- context [closing ?p ?who ?r] =>
    let HX := fresh in pose proof (pairBooks_closing p who r HP) as HX; destruct (closing p who r); apply HX; clear HX end.

Lemma begin_books p who slot seen : u16 slot -> pairBooks p -> pairBooks (fst (exec (DoBegin who slot seen) p)).
Proof.
  intros Hu HP. cbn [exec]. unfold beginOperationV1. through_closing.
  intros life t HB _ HK. apply rbind_ok in HB as (_ & _ & HB). go_inv HB. destruct x as [[life1 e] q].
  destruct (reserve_books _ _ _ _ _ _ _ _ _ _ HK E) as [_ HK1]. pose proof (advance_range _ (sd_operationSequenceEnd (lf_send life1)) (sb_sequence _ _ _ _ (bk_send _ _ _ HK1))) as HA.
  destruct (advance _ _). apply Ok_inj in HB. injection HB as <- _. apply orb_false_iff in G as [G%Z.eqb_neq _]. assert (1 <= slot < 65536) by (unfold_widths; lia).
  by apply books_issue.
Qed.

Lemma retry_books p who id seen : pairBooks p -> pairBooks (fst (exec (DoRetry who id seen) p)).
Proof.
  intros HP. cbn [exec]. unfold retryOperationV1. through_closing.
  intros life t HB _ HK. apply rbind_ok in HB as (_ & _ & HB). destruct (sd_outstanding _ !! id) as [o|] eqn:Ho; [|done]. go_inv HB. destruct x as [[life1 e] q].
  destruct (reserve_books _ _ _ _ _ _ _ _ _ _ HK E) as [HS HK1]. apply Ok_inj in HB. injection HB as <- _.
  destruct (sb_outstanding _ _ _ _ (bk_send _ _ _ HK) _ _ Ho) as (O1 & O2 & O3). rewrite <- (sk_id _ _ HS) in O3.
  destruct (attempt_next (oo_attempts o)) as [-> HA]; [unfold attemptRange in O2; lia|done|].
  apply (books_issue _ _ life1 id); [done|apply (bk_send _ _ _ HK1)|done|]. rewrite <- O1 in O3. done.
Qed.

Lemma fragment_books p who id seen : pairBooks p -> pairBooks (fst (exec (DoFragment who id seen) p)).
Proof.
  intros HP. cbn [exec]. unfold reserveAdditionalFragmentV1. through_closing.
  intros life t HB _ HK. apply rbind_ok in HB as (_ & _ & HB). destruct (sd_outstanding _ !! id) as [o|] eqn:Ho; [|done]. go_inv HB. destruct x as [[life1 e] q].
  destruct (reserve_books _ _ _ _ _ _ _ _ _ _ HK E) as [HS HK1]. apply Ok_inj in HB. injection HB as <- _.
  destruct (sb_outstanding _ _ _ _ (bk_send _ _ _ HK) _ _ Ho) as (O1 & O2 & O3). rewrite <- (sk_id _ _ HS), <- O1 in O3.
  pose proof (bk_send _ _ _ HK1) as [S1 S2 S3 S4 S5]. apply books_send; [done|]. constructor; cbn; [done..| |done].
  intros key t' [[<- <-]|[_ Hx]]%lookup_insert_Some; [done|by apply S4].
Qed.

Lemma commit_books p who t seen : pairBooks p -> pairBooks (fst (exec (DoCommitOwn who t seen) p)).
Proof.
  intros HP. cbn [exec]. unfold commitAuthenticatedOperationV1. through_closing.
  intros life ack HB Hc HK. apply rbind_ok in HB as (u0 & HR & HB). go_inv HB. apply Ok_inj in HB. injection HB as <- _.
  destruct (ownReceive_books _ _ _ _ _ _ _ _ _ HK E0 E2) as [HK1 HS]. destruct x as [[|] a]; cbn [fst snd]; [|done].
  rewrite !orb_false_iff in G. destruct G as [[G1%negb_false_iff%owner_strict G3%negb_false_iff] G2%negb_false_iff]. apply ready_valid, valid_strict in HR.
  destruct (classify_same _ _ t HS) as [S1 S2]. apply books_complete; rewrite ?S1, ?S2, ?(sk_id _ _ HS); [done..|by apply (origin_away p)|done|]. apply (issued_slot p); [|done]. destruct HP as [HP|HP]; [congruence|done].
Qed.

Lemma ackReserve_books p who id retry seen : pairBooks p -> pairBooks (fst (exec (DoAck who id retry seen) p)).
Proof.
  intros HP. cbn [exec]. unfold reserveOperationAckV1. through_closing.
  intros life t HB _ HK. apply reject_bind_ok in HB as [_ HB]. apply rbind_ok in HB as (_ & _ & HB).
  destruct (rc_completed _ !! id) as [c|] eqn:Hc; [|done]. go_inv HB. destruct x as [[life1 e] q].
  destruct (reserve_books _ _ _ _ _ _ _ _ _ _ HK E) as [HS HK1]. apply Ok_inj in HB. injection HB as <- _. rewrite <- (sk_recv _ _ HS) in Hc.
  destruct (rb_completed _ _ _ _ (bk_recv _ _ _ HK1) _ _ Hc) as (_ & _ & HC & _). rewrite !orb_false_iff in G. destruct G as [_ G].
  cbn [co_ackAttempts co_ack]. destruct (attempt_next (co_ackAttempts c)) as [Ew HA]; [lia|done|]. rewrite Ew.
  by apply (books_ackReserve _ _ life1 id c (mkAckTransmission who (pr_id p) (co_ack c) e q (co_ackAttempts c + 1))).
Qed.

Lemma commitAck_books p who t seen : pairBooks p -> pairBooks (fst (exec (DoCommitAckOwn who t seen) p)).
Proof.
  intros HP. cbn [exec]. unfold commitAuthenticatedOperationAckV1. through_closing.
  intros life u HB Hc HK. apply reject_bind_ok in HB as [_ HB]. apply rbind_ok in HB as (_ & _ & HB). go_inv HB. apply map_err_ok in E0, E2.
  apply Ok_inj in HB. injection HB as <- _. destruct (ownReceive_books _ _ _ _ _ _ _ _ _ HK E0 E2) as [HK1 HS]. destruct x; [|done].
  destruct HP as [HP|HP]; [congruence|]. apply orb_false_iff in G as [_ HI%negb_false_iff].
  destruct (sd_outstanding _ !! _) as [o|]; [|by case_match]. apply reject_bind_ok in E as [E%negb_false_iff _].
  apply (books_ack _ _ _ _ o); [done|by eapply issued_count|]. unfold acknowledges in *. by rewrite (sk_send _ _ HS).
Qed.

Lemma exec_books op p : slotOk u16 op -> pairBooks p -> pairBooks (fst (exec op p)).
Proof.
  intros Hu HP. destruct op as [who slot seen|who id seen|who id seen|who slot count pv|who seen|who t seen replay|who t seen|who id retry seen
    |who direction epoch sequence ack seen replay|who t seen|who seen|who|]; cbn [exec].
  - by apply (begin_books p).
  - by apply (retry_books p).
  - by apply (fragment_books p).
  - unfold canReserveFragmentSetV1. destruct (count <? 2); [done|]. destruct (readyLockedV1 _ _ _); [done|]. apply pairBooks_close.
  - unfold reserveCloseV1. through_closing.
    intros life c HB _ HK. go_inv HB. destruct x as [[life1 e] q]. apply Ok_inj in HB. injection HB as <- _. by eapply reserve_books.
  - unfold commitFirstAuthenticatedOperationV1. destruct (prepareFirst p who t seen) as [[[candidate unique] ack]|e] eqn:HF; [|done].
    destruct replay as [[]|e]; [|done]. cbn [fst]. apply pairBooks_set; [done|]. intros Hc _. eapply first_books; [|done]. destruct HP as [HP|HP]; [congruence|done].
  - by apply (commit_books p).
  - by apply (ackReserve_books p).
  - unfold commitStrictAuthenticatedOperationAckV1. destruct (prepareStrictAck p who direction epoch sequence ack seen) as [candidate|e] eqn:HF; [|done].
    destruct replay as [[]|e]; [|done]. cbn [fst]. apply pairBooks_set; [done|]. intros Hc HK. eapply strictAck_books; [|done..]. destruct HP as [HP|HP]; [congruence|apply HP].
  - by apply (commitAck_books p).
  - unfold postAuthenticationCommitV1. apply pairBooks_closing; [done|]. intros life u HB _ HK. go_inv HB. apply Ok_inj in HB. injection HB as <- _. auto with books.
  - unfold StateOf, stateLockedV1. destruct (pr_closed p); [done|]. case_match; [apply pairBooks_close|done].
  - apply pairBooks_close.
Qed.

Lemma run_books ops p : Forall (slotOk u16) ops -> pairBooks p -> pairBooks (fst (runOps ops p)).
Proof.
  revert p. induction ops as [|op ops IH]; intros p HU HP; cbn [runOps]; [done|]. apply Forall_cons in HU as [Hu HU].
  pose proof (exec_books op p Hu HP) as HX. destruct (exec op p) as [p1 now]. specialize (IH p1 HU HX). by destruct (runOps ops p1).
Qed.
(** What is reserved is of the Go types. *)
Definition eventTyped (e : event) : Prop := match e with Reserved _ epoch slot sequence => u64 epoch /\ u16 slot /\ u64 sequence | _ => True end.

Lemma commitOutbound_range life slot candidate life' e q used : keysOk life used -> commitOutboundRecordLockedV1 life slot candidate = Ok (life', e, q) ->
  u64 e /\ u64 q.
Proof.
  intros HK. unfold commitOutboundRecordLockedV1. intros [_ HC]%reject_bind_ok. apply rbind_ok in HC as (life1 & Hl & HC).
  assert (u64 (k_keyEpoch (lf_keys life1)) /\ u64 (fst (counterOf life1 slot))) as [He Hq].
  { destruct (negb _); [apply Ok_inj in Hl as <-; split; apply HK|]. destruct (oc_pending candidate); [|done]. go_inv Hl. apply Ok_inj in Hl as <-.
    rewrite !orb_false_iff, !negb_false_iff, Z.eqb_eq in G. destruct G as [[[_ G] _] _]. cbn. rewrite G. split; [apply wrap64_range|].
    unfold counterOf, streamState. destruct (partitioned _); cbn; rewrite ?lookup_empty; by compute. }
  unfold counterOf in Hq. destruct (partitioned life1); cbn [fst] in Hq; [|destruct (if _ =? MaxUint64 then _ else _)]; apply Ok_inj in HC; injection HC as _ <- <-; done.
Qed.

Lemma reserve_range ident p who slot before after life' e q tr : pairOk ident p tr -> reserveRecord p (lifeOf p who) slot before after = Ok (life', e, q) ->
  u64 e /\ u64 q.
Proof.
  intros HP HR. unfold reserveRecord in HR. go_inv HR. assert (pr_closed p = false) as Hc.
  { unfold prepareOutboundRecordLockedV1 in E. apply rbind_ok in E as ([] & E & _). by apply ready_ok in E as [? _]. }
  exact (commitOutbound_range _ _ _ _ _ _ _ (lo_keys _ _ _ _ (pairOk_life _ _ _ who HP Hc)) HR).
Qed.

Lemma closing_typed {A} p who (r : result lifecycle_error (endpointLifecycleV1 * A)) f :
  (forall life a, r = Ok (life, a) -> Forall eventTyped (f a)) -> Forall eventTyped (events (snd (closing p who r)) f).
Proof. intros HR. destruct r as [[life a]|e]; cbn; [by eapply HR|constructor]. Qed.

Lemma outstanding_slot p who id o : pairBooks p -> pr_closed p = false -> sd_outstanding (lf_send (lifeOf p who)) !! id = Some o -> u16 (oo_streamSlot o).
Proof.
  intros [HB|HB] Hc Ho; [congruence|]. destruct (sb_outstanding _ _ _ _ (bk_send _ _ _ (HB who)) _ _ Ho) as (_ & _ & [_ HS _]). unfold_widths. lia.
Qed.

Lemma let_snd {A B} (r : pairV1 * result lifecycle_error A) (f : result lifecycle_error A -> B) : snd (let '(p, x) := r in (p, f x)) = f (snd r).
Proof. by destruct r. Qed.

Ltac typed_events := cbn; repeat (apply Forall_cons_2; [first [exact I | split_and!; (done || (unfold_widths; lia))]|]); apply Forall_nil_2.

Lemma exec_typed ident op p tr : slotOk u16 op -> pairOk ident p tr -> pairBooks p -> Forall eventTyped (snd (exec op p)).
Proof.
  intros Hu HP HB. destruct op as [who slot seen|who id seen|who id seen|who slot count pv|who seen|who t seen replay|who t seen|who id retry seen
    |who direction epoch sequence ack seen replay|who t seen|who seen|who|]; cbn [exec]; rewrite ?let_snd.
  - unfold beginOperationV1. apply closing_typed. intros life t HX.
    apply rbind_ok in HX as (_ & _ & HX). go_inv HX. destruct x as [[life1 e] q]. destruct (reserve_range _ _ _ _ _ _ _ _ _ _ HP E). destruct (advance _ _).
    apply Ok_inj in HX. injection HX as _ <-. typed_events.
  - unfold retryOperationV1. apply closing_typed. intros life t HX. apply rbind_ok in HX as ([] & [Hc _]%ready_ok & HX).
    destruct (sd_outstanding _ !! id) as [o|] eqn:Ho; [|done]. pose proof (outstanding_slot _ _ _ _ HB Hc Ho).
    go_inv HX. destruct x as [[life1 e] q]. destruct (reserve_range _ _ _ _ _ _ _ _ _ _ HP E). apply Ok_inj in HX. injection HX as _ <-. typed_events.
  - unfold reserveAdditionalFragmentV1. apply closing_typed. intros life t HX. apply rbind_ok in HX as ([] & [Hc _]%ready_ok & HX).
    destruct (sd_outstanding _ !! id) as [o|] eqn:Ho; [|done]. pose proof (outstanding_slot _ _ _ _ HB Hc Ho).
    go_inv HX. destruct x as [[life1 e] q]. destruct (reserve_range _ _ _ _ _ _ _ _ _ _ HP E). apply Ok_inj in HX. injection HX as _ <-. typed_events.
  - constructor.
  - unfold reserveCloseV1. apply closing_typed. intros life t HX. go_inv HX. destruct x as [[life1 e] q].
    destruct (reserve_range _ _ _ _ _ _ _ _ _ _ HP E). apply Ok_inj in HX. injection HX as _ <-. typed_events.
  - destruct (commitFirstAuthenticatedOperationV1 _ _ _ _ _ _) as [[_ p'] [ack|e]]; cbn; [case_match|]; typed_events.
  - destruct (commitAuthenticatedOperationV1 _ _ _ _) as [p' [ack|e]]; cbn; [case_match|]; typed_events.
  - unfold reserveOperationAckV1. apply closing_typed. intros life t HX. apply reject_bind_ok in HX as [_ HX]. apply rbind_ok in HX as (_ & _ & HX).
    destruct (rc_completed _ !! id) as [c|]; [|done]. go_inv HX. destruct x as [[life1 e] q].
    destruct (reserve_range _ _ _ _ _ _ _ _ _ _ HP E). apply Ok_inj in HX. injection HX as _ <-. typed_events.
  - destruct (commitStrictAuthenticatedOperationAckV1 _ _ _ _ _ _ _ _ _) as [[_ p'] [u|e]]; typed_events.
  - destruct (commitAuthenticatedOperationAckV1 _ _ _ _) as [p' [u|e]]; cbn; [case_match|]; typed_events.
  - constructor.
  - constructor.
  - constructor.
Qed.

Lemma run_typed ident ops p tr : Forall (slotOk u16) ops -> pairOk ident p tr -> pairBooks p -> Forall eventTyped (snd (runOps ops p)).
Proof.
  revert p tr. induction ops as [|op ops IH]; intros p tr HU HP HB; cbn [runOps]; [constructor|]. apply Forall_cons in HU as [Hu HU].
  pose proof (exec_ok _ op p tr HP) as HP1. pose proof (exec_books op p Hu HB) as HB1. pose proof (exec_typed _ op p tr Hu HP HB) as HE.
  destruct (exec op p) as [p1 now]. specialize (IH p1 _ HU HP1 HB1). destruct (runOps ops p1) as [p2 later]. by apply Forall_app.
Qed.
End books.

(** ** Pairs since their construction *)

Lemma run_address `{Primitives} ops p : pr_id (fst (runOps ops p)) = pr_id p /\ pr_epoch (fst (runOps ops p)) = pr_epoch p.
Proof.
  revert p. induction ops as [|op ops IH]; intros p; cbn [runOps]; [done|].
  assert (pr_id (fst (exec op p)) = pr_id p /\ pr_epoch (fst (exec op p)) = pr_epoch p) as [E1 E2].
  { destruct (exec_shape op p) as [->|[(who & life & ->)| ->]]; [done|by destruct who|]. unfold closeLockedV1. by destruct (pr_closed p). }
  destruct (exec op p) as [p1 now]. cbn [fst] in *. specialize (IH p1). destruct (runOps ops p1) as [p2 later]. cbn [fst] in *. by rewrite <- E1, <- E2.
Qed.

(** What the Go types and the bookkeeping promise of one end of an open pair. *)
Record wellTyped `{Primitives} (p : pairV1) (who : side) : Prop := {
  wt_valid : validLockedV1 p (lifeOf p who) = true;
  wt_books : booksOk (pr_id p) who (lifeOf p who);
  wt_epoch : u64 (k_keyEpoch (lf_keys (lifeOf p who)));
  wt_counters : forall slot, u64 (fst (counterOf (lifeOf p who) slot));
  wt_out : 0 <= k_outKeyAttempts (lf_keys (lifeOf p who)) <= maxKeyLifetime (lifeOf p who);
  wt_completed : 0 <= sd_sendCompleted (lf_send (lifeOf p who)) <= rc_receiveCompleted (lf_recv (lifeOf p (peerOf who))) /\
                 rc_receiveCompleted (lf_recv (lifeOf p who)) <= maxSession (lifeOf p who);
}.

Section since.
Context `{Primitives}.
Context (pid : Z) (epoch : bytes) (seen0 : nat -> profileView) (clientSchedule relaySchedule : KeySchedule).
Context (clientConfig relayConfig : StrictSessionConfigV1) (policy : EffectiveSecurityPolicy) (th : bytes) (p0 : pairV1).
Context (Hnew : newPair pid epoch seen0 clientSchedule relaySchedule clientConfig relayConfig policy th = Ok p0).

(** C28: Closing is final and total: once a pair is closed, by either end or by a
    failure, every later run of operations of either end leaves it exactly as it is
    and reserves, begins, delivers and acknowledges nothing. Both ends are in the
    closed state and hold nothing: the key schedule is gone, the identity (owner,
    runtime epoch, configuration, role, policies, transcript hash, generation) is
    zeroed, every counter is zero, and the stream, replay, outstanding, acknowledged,
    issued and completed books are empty. *)
Theorem closed_pair_final ops later :
  let p := fst (runOps ops p0) in pr_closed p = true ->
  runOps later p = (p, []) /\ forall who, destroyed (lifeOf p who).
Proof using Hnew.
  cbv zeta. intros Hc. split; [by apply closed_run|]. apply run_destroyed; [|done].
  unfold newPair in Hnew. apply rbind_ok in Hnew as (a & _ & HN). apply rbind_ok in HN as (b & _ & HN).
  apply Ok_inj in HN as Hp. rewrite <- Hp. done.
Qed.

Context (Tc : typedStrict clientConfig) (Vc : validateStrictSessionConfigV1 clientConfig = Ok tt).
Context (Tr : typedStrict relayConfig) (Vr : validateStrictSessionConfigV1 relayConfig = Ok tt).
Context (Hmode : mem (eff_NonceMode policy) [NonceModeCounterXORBaseV1; NonceModeCounterAppendBaseV1;
                                             NonceModeDirectionalCounterV1; NonceModeStreamPartitionedCounterV1] = true).

Lemma newPair_identity who : id_owner (lf_id (lifeOf p0 who)) = true /\ id_runtimeEpoch (lf_id (lifeOf p0 who)) = epoch /\ pr_epoch p0 = epoch /\
  pr_id p0 = pid /\ zeroRuntimeEpoch epoch = false /\ id_role (lf_id (lifeOf p0 who)) = match who with Client => 1 | Relay => 2 end.
Proof using Hnew.
  unfold newPair in Hnew. apply rbind_ok in Hnew as (a & HA & HN). apply rbind_ok in HN as (b & HB & HN). apply Ok_inj in HN as Hp.
  apply map_err_ok in HA, HB. unfold newEndpointLifecycleV1 in HA, HB. go_inv HA. go_inv HB. apply Ok_inj in HA as Ea. apply Ok_inj in HB as Eb.
  rewrite !orb_false_iff in G. destruct G as [[[_ G] _] _]. rewrite <- Hp, <- Ea, <- Eb. by destruct who.
Qed.

Lemma newEndpoint_books profile schedule config role state life who : typedStrict config -> validateStrictSessionConfigV1 config = Ok tt ->
  newEndpointLifecycleV1 epoch profile schedule config policy th role state = Ok life -> booksOk pid who life.
Proof using Type.
  intros HT HV HN. destruct (validated_limits _ HT HV) as [HL HM]. unfold newEndpointLifecycleV1 in HN. go_inv HN. apply Ok_inj in HN as <-.
  constructor; cbn; unfold maxKeyLifetime, maxSession; cbn; [unfold_widths; lia..| |].
  all: constructor; cbn; try (intros ? ? Hx; by rewrite lookup_empty in Hx); unfold_widths; lia.
Qed.

Lemma fresh_books : pairBooks p0.
Proof using Hnew Tc Tr Vc Vr.
  pose proof (newPair_identity Client) as (_ & _ & _ & Hpid & _). right. rewrite Hpid.
  unfold newPair in Hnew. apply rbind_ok in Hnew as (a & HA & HN). apply rbind_ok in HN as (b & HB & HN). apply Ok_inj in HN as Hp.
  apply map_err_ok in HA, HB. rewrite <- Hp. intros []; cbn; [exact (newEndpoint_books _ _ _ _ _ _ Client Tc Vc HA)|exact (newEndpoint_books _ _ _ _ _ _ Relay Tr Vr HB)].
Qed.

(** C27: Of a pair built from two configurations that validation accepts, under one
    of the four nonce modes: as long as it is open, whatever was done with it (with
    16-bit slots), both ends are well formed. The checks every operation starts with succeed; the key
    schedule is of the current epoch; the epoch, the record counters, the two
    operation sequences and the completion counts are 64-bit values; the current key has sent
    and received no more records than its lifetime, no more operations are received than
    the session allows, and no end counts more acknowledged than its peer received.
    An outstanding, issued or completed operation has a slot between 1 and 65535 and an id that
    is the hash of its own origin, with this end's direction for the first two and
    the peer's for the last; outstanding and completed operations are filed under
    that id, issued transmissions and acknowledgements under the record position
    they reserved, for this end and this pair. A completed operation's
    acknowledgement carries its id and a count between one and the operations
    received, and an issued acknowledgement is that of a completed operation. A count
    kept for an acknowledged id is between one and the operations acknowledged. No
    transmission or acknowledgement was attempted more than three times. *)
Theorem lifecycle_well_typed ops : Forall (slotOk u16) ops ->
  let p := fst (runOps ops p0) in pr_closed p = false -> forall who, wellTyped p who.
Proof using Hmode Hnew Tc Tr Vc Vr.
  cbv zeta. intros HU Hc who. set (p := fst (runOps ops p0)) in *.
  pose proof (run_ok _ ops _ _ (fresh_ok _ _ _ _ _ _ _ _ _ _ Hnew Tc Vc Tr Vr)) as HP. cbn [app] in HP. fold p in HP.
  destruct (run_address ops p0) as [Hid Hep]. fold p in Hid, Hep.
  pose proof (run_books ops p0 HU fresh_books) as HB. fold p in HB. destruct HB as [HB|HB]; [congruence|].
  pose proof (pairOk_life _ _ _ who HP Hc) as [Li Lk Ls Lr]. pose proof (pairOk_life _ _ _ (peerOf who) HP Hc) as [_ _ _ Lr'].
  destruct (newPair_identity who) as (I1 & I2 & I3 & _ & I5 & I6).
  destruct (fresh_config _ _ _ _ _ _ _ _ _ _ Hnew Tc Vc Tr Vr who) as [C1 C2]. cbv beta in Li.
  assert (HC : pr_epoch p = epoch) by congruence.
  constructor.
  - unfold validLockedV1, validStrictCandidateLockedV1. destruct (ko_schedule _ _ Lk) as (s & -> & ->). rewrite Li, I1, I2, HC, C2, Hmode, I6, I5, Z.eqb_refl.
    rewrite bool_decide_eq_true_2 by done. pose proof (ko_replay _ _ Lk) as HR.
    destruct (partitioned (lifeOf p who)); rewrite bool_decide_eq_true_2 by done; by destruct who.
  - apply HB.
  - apply Lk.
  - apply Lk.
  - rewrite (ko_attempts _ _ Lk). split; [apply zlen_nonneg|]. apply (uo_lifetime _ _ (ko_used _ _ Lk)).
  - rewrite (so_completed _ _ _ Ls). destruct (ro_counts _ _ _ Lr) as (_ & -> & _). destruct (ro_counts _ _ _ Lr') as (_ & -> & _).
    split; [split; [apply zlen_nonneg|]|].
    + pose proof (prefix_length _ _ (to_acked _ _ (proj1 HP) who)). unfold zlen. lia.
    + pose proof (ro_bound _ _ _ Lr) as Hb. unfold sessionLimit in Hb. unfold maxSession. rewrite Li. cbv beta in Hb. rewrite C1 in *.
      pose proof (configOf_limits _ _ Tc Vc Tr Vr who). lia.
Qed.
End since.
