(* ===== verification/LifecycleProgress.v ===== *)
(** * Operations complete

    [round_trips_complete]: on an open pair, operation after operation is begun,
    received, acknowledged and settled, through every change of keys, up to the
    session limit. The file also evaluates a concrete pair. *)

From S2P Require Import Prelude GoBytes SecurityErrors Ir KeySchedule Replay Nonce Transcript StrictConfig Envelope Records Channel Lifecycle LifecycleFacts LifecycleState.
From Stdlib Require Import ZArith Lia Strings.Byte.
From stdpp Require Import base list gmap strings.
Local Open Scope Z_scope.

Section progress.
Context `{Primitives}.

(** One operation of the client, from its reservation to its acknowledgement; every
    replay check passes. *)
Definition roundTrip (slot : Z) (v : nat -> profileView) (p : pairV1) : option pairV1 :=
  match beginOperationV1 p Client slot v with
  | (p, Ok t) =>
      match commitFirstAuthenticatedOperationV1 p Relay t v (fun s => (s, Ok tt)) tt with
      | (_, p, Ok _) =>
          match beginOperationAckV1 p Relay (tx_operationID t) v with
          | (p, Ok a) =>
              match commitStrictAuthenticatedOperationAckV1 p Client controlDirectionRelayV1 (at_recordEpoch a) (at_recordSequence a) (at_ack a) v
                      (fun s => (s, Ok tt)) tt with
              | (_, p, Ok _) => Some p
              | _ => None
              end
          | _ => None
          end
      | _ => None
      end
  | _ => None
  end.

Fixpoint roundTrips (n : nat) (slot : Z) (v : nat -> profileView) (p : pairV1) : option pairV1 :=
  match n with
  | O => Some p
  | S m => match roundTrips m slot v p with Some p => roundTrip slot v p | None => None end
  end.

(** ** One end *)

(** The next sequence of a slot's records. *)
Definition seqOf (part : bool) (k : keyStateV1) (slot : Z) : Z :=
  if part then os_sequence (default (mkOutSeq 0 false) (k_outStreams k !! slot)) else k_outSequence k.

(** What a reservation and a receipt do to the sequences: a new epoch starts at
    zero. *)
Definition seqIn (part : bool) (k : keyStateV1) (e slot : Z) : Z := if e =? k_keyEpoch k then seqOf part k slot else 0.
Definition advanced (part : bool) (slot : Z) (k k' : keyStateV1) (e q : Z) : Prop :=
  q = seqIn part k e slot /\ forall s, seqOf part k' s = seqIn part k e s + (if negb part || (s =? slot) then 1 else 0).
Definition followed (part : bool) (k k' : keyStateV1) (e : Z) : Prop := forall s, seqOf part k' s = seqIn part k e s.
Definition lowSeq (part : bool) (k : keyStateV1) : Prop := forall s, 0 <= seqOf part k s <= k_outKeyAttempts k.

(** An end that may send: established, with keys that can be ratcheted. *)
Record canSend (p : pairV1) (life : endpointLifecycleV1) (v : nat -> profileView) (s s' : KeySchedule) : Prop := {
  cs_open : pr_closed p = false;
  cs_valid : validLockedV1 p life = true;
  cs_state : lf_state life = StateEstablished;
  cs_profile : forall n, profileGenerationValueLockedV1 life (v n) = Ok tt;
  cs_rotates : rotates life = true;
  cs_schedule : k_schedule (lf_keys life) = Some s;
  cs_next : RatchetKeyScheduleV1 s = Ok s' /\ Epoch s' = k_keyEpoch (lf_keys life) + 1;
  cs_epoch : 0 <= k_keyEpoch (lf_keys life) < MaxUint64;
  cs_window : exists w, newWindow life = Ok w;
  cs_out : 0 <= k_outKeyAttempts (lf_keys life);
  cs_limit : 1 <= maxKeyLifetime life < MaxUint64;
  cs_low : lowSeq (partitioned life) (lf_keys life);
}.

Lemma canSend_ready p life v s s' n : canSend p life v s s' -> readyLockedV1 p life (v n) = Ok tt.
Proof.
  intros []. unfold readyLockedV1. rewrite cs_valid0, cs_open0, bool_decide_eq_true_2 by done. cbn. apply cs_profile0.
Qed.

Lemma rotates_notSessionOnly life : rotates life = true -> sessionOnly life = false.
Proof. unfold rotates, sessionOnly. intros HR. apply bool_decide_eq_false_2. intros E. by rewrite E in HR. Qed.

Lemma ratchetTo_succeeds life s s' e : k_schedule (lf_keys life) = Some s -> RatchetKeyScheduleV1 s = Ok s' -> Epoch s' = e -> ratchetTo life e = Ok s'.
Proof. intros Hs HR He. unfold ratchetTo. by rewrite Hs, HR, He, Z.eqb_refl. Qed.

Inductive sent (s s' : KeySchedule) (k k' : keyStateV1) (e : Z) : Prop :=
  | sent_same : e = k_keyEpoch k -> k_schedule k' = Some s -> k_keyEpoch k' = e -> k_outKeyAttempts k' = k_outKeyAttempts k + 1 ->
      k_inKeyAttempts k' = k_inKeyAttempts k -> k_replay k' = k_replay k -> sent s s' k k' e
  | sent_next : e = k_keyEpoch k + 1 -> k_schedule k' = Some s' -> k_keyEpoch k' = e -> k_outKeyAttempts k' = 1 -> k_inKeyAttempts k' = 0 ->
      (k_replay k = None <-> k_replay k' = None) -> sent s s' k k' e.

Lemma reserve_succeeds p life slot v s s' a b : canSend p life v s s' ->
  exists life' e q, reserveRecord p life slot (v a) (v b) = Ok (life', e, q) /\ sameButKeys life life' /\
    sent s s' (lf_keys life) (lf_keys life') e /\
    (e = k_keyEpoch (lf_keys life) -> k_outKeyAttempts (lf_keys life) < maxKeyLifetime life).
Proof.
  intros HC. pose proof (canSend_ready _ _ _ _ _ a HC) as HR. destruct HC as [_ Hv _ Hp Hrot Hs [Hnext He] Hep [w Hw] Hout Hlim _].
  unfold reserveRecord, prepareOutboundRecordLockedV1. rewrite HR. cbn [rbind].
  destruct (requiresRatchet life slot) eqn:HQ; cbn [negb rbind].
  - rewrite (rotates_notSessionOnly _ Hrot), Hrot. cbn [negb reject rbind].
    rewrite (proj1 (wrap64_epoch (k_keyEpoch (lf_keys life)) ltac:(unfold_widths; lia) ltac:(lia))).
    rewrite (ratchetTo_succeeds _ _ _ _ Hs Hnext He). cbn [rbind].
    destruct (Z.eqb_spec (Epoch s') 0); [lia|]. cbn [reject rbind].
    assert (exists rep, (if partitioned life then Ok None else let? w0 := newWindow life in Ok (Some w0)) = @Ok lifecycle_error _ rep /\
              Bool.eqb (partitioned life) (bool_decide (rep = None)) = true) as (rep & Hrep & Hb).
    { destruct (partitioned life); [exists None; by rewrite bool_decide_eq_true_2|exists (Some w)]. by rewrite Hw, bool_decide_eq_false_2. }
    rewrite Hrep. cbn [rbind]. unfold lockProfileCommitGuardLockedV1. rewrite Hp. cbn [rbind].
    unfold commitOutboundRecordLockedV1. rewrite HQ. cbn [oc_ratchet Bool.eqb negb reject rbind oc_pending].
    destruct (Z.eqb_spec (k_keyEpoch (lf_keys life)) MaxUint64); [lia|].
    rewrite (proj1 (wrap64_epoch (k_keyEpoch (lf_keys life)) ltac:(unfold_widths; lia) ltac:(lia))), He, Z.eqb_refl.
    destruct (Z.eqb_spec (k_keyEpoch (lf_keys life) + 1) 0); [lia|]. cbn [oc_replay]. rewrite Hb. cbn [negb orb reject rbind].
    change (partitioned (installEpoch _ _ _ _ _)) with (partitioned life).
    assert (HRP : k_replay (lf_keys life) = None <-> rep = None).
    { unfold validLockedV1 in Hv. apply andb_true_iff in Hv as [_ Hv]. apply eqb_prop in Hb.
      destruct (partitioned life); apply bool_decide_eq_true in Hv; symmetry in Hb; [apply bool_decide_eq_true in Hb; by subst|].
      apply bool_decide_eq_false in Hb. destruct Hv as [? ->]. done. }
    assert (forall m l', l' = setKeys life m -> k_schedule m = Some s' -> k_keyEpoch m = k_keyEpoch (lf_keys life) + 1 -> k_outKeyAttempts m = 1 ->
              k_inKeyAttempts m = 0 -> k_replay m = rep -> sameButKeys life l' /\ sent s s' (lf_keys life) (lf_keys l') (k_keyEpoch (lf_keys life) + 1)) as Hdone.
    { intros m l' -> M1 M2 M3 M4 M5. split; [apply sameButKeys_set|]. apply sent_next; try done. cbn [setKeys lf_keys]. by rewrite M5. }
    destruct (partitioned life).
    + eexists _, _, _. split; [reflexivity|]. edestruct Hdone as [D1 D2]; [reflexivity|..|split; [exact D1|split; [exact D2|cbn; lia]]]; reflexivity.
    + destruct (if _ =? MaxUint64 then _ else _) as [next ended]. eexists _, _, _. split; [reflexivity|].
      edestruct Hdone as [D1 D2]; [reflexivity|..|split; [exact D1|split; [exact D2|cbn; lia]]]; reflexivity.
  - apply requiresRatchet_false in HQ as HQ'. destruct HQ' as [Hlt _]. unfold lockProfileCommitGuardLockedV1. rewrite Hp. cbn [rbind].
    unfold commitOutboundRecordLockedV1. rewrite HQ. cbn [oc_ratchet Bool.eqb negb reject rbind].
    assert (Hw64 : wrap64 (k_outKeyAttempts (lf_keys life) + 1) = k_outKeyAttempts (lf_keys life) + 1) by (apply wrap64_small; unfold_widths; lia).
    rewrite Hw64. destruct (partitioned life).
    + eexists _, _, _. split; [reflexivity|]. split; [apply sameButKeys_set|]. split; [by apply sent_same|done].
    + destruct (if _ =? MaxUint64 then _ else _) as [next ended]. eexists _, _, _. split; [reflexivity|].
      split; [apply sameButKeys_set|]. split; [by apply sent_same|done].
Qed.

(** The sequences after a reservation. *)
Lemma commit_advances life slot c life' e q : commitOutboundRecordLockedV1 life slot c = Ok (life', e, q) -> lowSeq (partitioned life) (lf_keys life) ->
  0 <= k_keyEpoch (lf_keys life) <= MaxUint64 -> maxKeyLifetime life <= MaxUint64 -> advanced (partitioned life) slot (lf_keys life) (lf_keys life') e q.
Proof.
  intros HC Hlow He Hmax. unfold commitOutboundRecordLockedV1 in HC. apply reject_bind_ok in HC as [HR HC]. apply rbind_ok in HC as (life1 & H1 & HC).
  apply negb_false_iff, eqb_prop in HR.
  assert (partitioned life1 = partitioned life /\ forall s, seqOf (partitioned life) (lf_keys life1) s = seqIn (partitioned life) (lf_keys life) (k_keyEpoch (lf_keys life1)) s /\
            0 <= seqOf (partitioned life) (lf_keys life1) s < MaxUint64) as [HP HS].
  { destruct (oc_ratchet c) eqn:Hc; cbn [negb] in H1.
    - destruct (oc_pending c) as [pending|]; [|done]. apply reject_bind_ok in H1 as [G H1]. apply Ok_inj in H1 as <-. split; [done|]. intros s.
      rewrite !orb_false_iff, !negb_false_iff, Z.eqb_neq, Z.eqb_eq in G. destruct G as [[[G1 G2] _] _]. rewrite wrap64_small in G2 by (unfold_widths; lia).
      unfold seqIn. cbn [installEpoch setKeys lf_keys k_keyEpoch]. rewrite G2. destruct (Z.eqb_spec (k_keyEpoch (lf_keys life) + 1) (k_keyEpoch (lf_keys life))); [lia|].
      unfold seqOf. cbn [k_outStreams k_outSequence]. rewrite lookup_empty. destruct (partitioned life); cbn; unfold MaxUint64; lia.
    - apply Ok_inj in H1 as <-. split; [done|]. intros s. unfold seqIn. rewrite Z.eqb_refl. split; [done|]. specialize (Hlow s).
      apply requiresRatchet_false in HR as [HR _]. lia. }
  rewrite HP in HC. destruct (HS slot) as [HS1 HS2]. unfold streamState in HC. destruct (partitioned life) eqn:EP.
  - injection HC as <- <- <-. split; [exact HS1|]. intros s. rewrite <- (proj1 (HS s)). cbn [setKeys lf_keys negb orb]. unfold seqOf. cbn [k_outStreams].
    destruct (Z.eqb_spec s slot) as [->|Hne]; [rewrite lookup_insert_eq|rewrite lookup_insert_ne by done; lia].
    unfold seqOf in HS2. destruct (Z.eqb_spec (os_sequence (default (mkOutSeq 0 false) (k_outStreams (lf_keys life1) !! slot))) MaxUint64); [lia|].
    cbn. apply wrap64_small. unfold_widths. lia.
  - unfold seqOf in HS2. destruct (Z.eqb_spec (k_outSequence (lf_keys life1)) MaxUint64); [lia|]. injection HC as <- <- <-. split; [exact HS1|].
    intros s. rewrite <- (proj1 (HS s)). cbn. apply wrap64_small. unfold_widths. lia.
Qed.

Lemma reserve_advances p life slot a b life' e q v s s' : reserveRecord p life slot a b = Ok (life', e, q) -> canSend p life v s s' ->
  advanced (partitioned life) slot (lf_keys life) (lf_keys life') e q.
Proof.
  intros HR []. unfold reserveRecord in HR. apply rbind_ok in HR as (c & _ & HR). apply rbind_ok in HR as (x & _ & HR).
  apply commit_advances in HR; [done..| |]; lia.
Qed.

Lemma receive_follows life e c s : prepareStrictReceiveEpochLockedV1 life e = Ok c -> 0 <= k_keyEpoch (lf_keys life) <= MaxUint64 -> k_schedule (lf_keys life) = Some s ->
  followed (partitioned life) (lf_keys life) (lf_keys (applyStrictReceiveEpochLockedV1 life e c)) e.
Proof.
  intros HP He Hs slot. unfold prepareStrictReceiveEpochLockedV1 in HP. apply reject_bind_ok in HP as [_ HP]. unfold seqIn.
  destruct (Z.eqb_spec e (k_keyEpoch (lf_keys life))); [apply Ok_inj in HP as <-; reflexivity|]. go_inv HP. apply Ok_inj in HP as <-.
  unfold seqOf. cbn. rewrite lookup_empty. by destruct (partitioned life).
Qed.

Inductive received (s s' : KeySchedule) (k k' : keyStateV1) (e : Z) : Prop :=
  | received_same : e = k_keyEpoch k -> k_schedule k' = Some s -> k_keyEpoch k' = e -> k_inKeyAttempts k' = k_inKeyAttempts k + 1 ->
      k_outKeyAttempts k' = k_outKeyAttempts k -> k_replay k' = k_replay k -> received s s' k k' e
  | received_next : e = k_keyEpoch k + 1 -> k_schedule k' = Some s' -> k_keyEpoch k' = e -> k_inKeyAttempts k' = 1 -> k_outKeyAttempts k' = 0 ->
      k_replay k' = k_replay k -> received s s' k k' e.

Lemma receive_succeeds life s s' e :
  rotates life = true -> k_schedule (lf_keys life) = Some s -> RatchetKeyScheduleV1 s = Ok s' -> Epoch s' = k_keyEpoch (lf_keys life) + 1 ->
  0 <= k_keyEpoch (lf_keys life) < MaxUint64 -> 0 <= k_inKeyAttempts (lf_keys life) -> maxKeyLifetime life <= MaxUint64 ->
  (e = k_keyEpoch (lf_keys life) /\ k_inKeyAttempts (lf_keys life) < maxKeyLifetime life \/ e = k_keyEpoch (lf_keys life) + 1) ->
  exists c, prepareStrictReceiveEpochLockedV1 life e = Ok c /\
    received s s' (lf_keys life) (lf_keys (applyStrictReceiveEpochLockedV1 life e c)) e.
Proof.
  intros Hrot Hs Hnext He Hep Hin Hlim Hcase. unfold prepareStrictReceiveEpochLockedV1. rewrite (rotates_notSessionOnly _ Hrot), Hrot.
  destruct Hcase as [[-> Hlt]| ->].
  - rewrite Z.eqb_refl. destruct (Z.leb_spec (maxKeyLifetime life) (k_inKeyAttempts (lf_keys life))); [lia|]. cbn [andb reject rbind].
    exists None. split; [done|]. apply received_same; try done. cbn. apply wrap64_small. unfold_widths. lia.
  - destruct (Z.eqb_spec (k_keyEpoch (lf_keys life) + 1) (k_keyEpoch (lf_keys life))); [lia|]. rewrite andb_false_r. cbn [reject rbind].
    destruct (Z.eqb_spec (k_keyEpoch (lf_keys life)) MaxUint64); [lia|].
    rewrite (proj1 (wrap64_epoch (k_keyEpoch (lf_keys life)) ltac:(unfold_widths; lia) ltac:(lia))), Z.eqb_refl. cbn [negb orb reject rbind].
    rewrite (ratchetTo_succeeds _ _ _ _ Hs Hnext He). cbn [rbind]. exists (Some s'). split; [done|]. by apply received_next.
Qed.
End progress.

(** ** The pair *)

Section pair.
Context `{Primitives}.
Context (pid : Z) (epoch : bytes) (seen0 : nat -> profileView) (schedC schedR : KeySchedule).
Context (config : StrictSessionConfigV1) (policy : EffectiveSecurityPolicy) (th : bytes) (p0 : pairV1).
Context (Hnew : newPair pid epoch seen0 schedC schedR config config policy th = Ok p0).
Context (HT : typedStrict config) (HV : validateStrictSessionConfigV1 config = Ok tt).
Context (Hmode : mem (eff_NonceMode policy) [NonceModeCounterXORBaseV1; NonceModeCounterAppendBaseV1;
                                             NonceModeDirectionalCounterV1; NonceModeStreamPartitionedCounterV1] = true).
Context (Hrot : mem (eff_KeyRotationPolicy policy) ["message_lifetime_bound"; "profile_lifetime_bound"] = true).
Context (Hpolicy : isOk (NewReplayWindowV1 (eff_ReplayPolicy policy) (sc_ReplayWindowSize config)) = true).
Context (slot : Z) (Hslot : slot <> 0) (v : nat -> profileView).
Context (count : nat).
Context (Hview : forall who n, profileGenerationValueLockedV1 (lifeOf p0 who) (v n) = Ok tt).

Definition L : Z := sc_MaxKeyLifetimeMessages config.

(** The largest key epoch that [count] round trips can reach. *)
Definition bound : Z := 2 * Z.of_nat count.

(** The identity of an end never changes. *)
Record sameIdentity (who : side) (life : endpointLifecycleV1) : Prop := { si_id : lf_id life = lf_id (lifeOf p0 who) }.

Lemma newPair_rest who : id_rotation (lf_id (lifeOf p0 who)) = eff_KeyRotationPolicy policy /\ id_replayPolicy (lf_id (lifeOf p0 who)) = eff_ReplayPolicy policy /\
  id_th4 (lf_id (lifeOf p0 who)) = th /\ id_config (lf_id (lifeOf p0 who)) = config /\ id_nonceMode (lf_id (lifeOf p0 who)) = eff_NonceMode policy.
Proof using Hnew.
  unfold newPair in Hnew. apply rbind_ok in Hnew as (a & HA & HN). apply rbind_ok in HN as (b & HB & HN). apply Ok_inj in HN as Hp.
  apply map_err_ok in HA, HB. unfold newEndpointLifecycleV1 in HA, HB. go_inv HA. go_inv HB. apply Ok_inj in HA as Ea. apply Ok_inj in HB as Eb.
  rewrite <- Hp, <- Ea, <- Eb. by destruct who.
Qed.

Lemma newEndpoint_life who : exists profile, newEndpointLifecycleV1 epoch profile (match who with Client => schedC | Relay => schedR end) config policy th
    (match who with Client => lifecycleRoleClientV1 | Relay => lifecycleRoleRelayV1 end)
    (match who with Client => StateEstablished | Relay => StateAuthenticating end) = Ok (lifeOf p0 who).
Proof using Hnew.
  unfold newPair in Hnew. apply rbind_ok in Hnew as (a & HA & HN). apply rbind_ok in HN as (b & HB & HN). apply Ok_inj in HN as Hp.
  apply map_err_ok in HA, HB. rewrite <- Hp. destruct who; eauto.
Qed.

(** The part of an end's keys that the progress argument follows. *)
Record keyed (life : endpointLifecycleV1) (s : KeySchedule) (e : Z) : Prop := {
  kd_schedule : k_schedule (lf_keys life) = Some s;
  kd_epoch : k_keyEpoch (lf_keys life) = e;
  kd_same : Epoch s = e;
  kd_replay : if partitioned life then k_replay (lf_keys life) = None else is_Some (k_replay (lf_keys life));
  kd_out : 0 <= k_outKeyAttempts (lf_keys life) <= L;
  kd_in : 0 <= k_inKeyAttempts (lf_keys life) <= L;
  kd_low : lowSeq (partitioned life) (lf_keys life);
}.

Definition settled (p : pairV1) : Prop := pr_closed p = false /\ pr_id p = pid /\ pr_epoch p = epoch.

Lemma settled_set p who life : settled p -> settled (setLife p who life).
Proof using Type. by destruct who. Qed.

Lemma partitioned_id who life : sameIdentity who life -> partitioned life = bool_decide (eff_NonceMode policy = NonceModeStreamPartitionedCounterV1).
Proof using Hnew. intros [E]. unfold partitioned. rewrite E. by destruct (newPair_rest who) as (_ & _ & _ & _ & ->). Qed.

Lemma keyed_valid p who life s e : settled p -> sameIdentity who life -> keyed life s e -> validLockedV1 p life = true.
Proof using Hmode Hnew.
  intros (_ & _ & Hep) [Hi] [K1 K2 K3 K4 _ _ _]. destruct (newPair_identity _ _ _ _ _ _ _ _ _ _ Hnew who) as (I1 & I2 & _ & _ & I5 & I6).
  destruct (newPair_rest who) as (_ & _ & _ & _ & I7). unfold validLockedV1, validStrictCandidateLockedV1.
  rewrite K1, K2, K3, Z.eqb_refl, Hi, I1, I2, Hep, I7, Hmode, I5, I6. rewrite bool_decide_eq_true_2 by done.
  destruct (partitioned life); rewrite bool_decide_eq_true_2 by done; by destruct who.
Qed.

Lemma keyed_strict p who life s e : settled p -> sameIdentity who life -> keyed life s e -> validStrictCandidateLockedV1 p life = true.
Proof using Hmode Hnew. intros HS HI HK. pose proof (keyed_valid _ _ _ _ _ HS HI HK) as HX. unfold validLockedV1 in HX. by apply andb_true_iff in HX as [HX _]. Qed.

Lemma profile_id who life n : sameIdentity who life -> profileGenerationValueLockedV1 life (v n) = Ok tt.
Proof using Hview. intros [E]. pose proof (Hview who n) as HX. unfold profileGenerationValueLockedV1 in *. by rewrite E. Qed.

Lemma rotates_id who life : sameIdentity who life -> rotates life = true.
Proof using Hnew Hrot. intros [E]. unfold rotates. rewrite E. by destruct (newPair_rest who) as (-> & _). Qed.

Lemma limits_id who life : sameIdentity who life -> maxKeyLifetime life = L /\ maxSession life = sc_MaxSessionMessages config.
Proof using Hnew. intros [E]. unfold maxKeyLifetime, maxSession. rewrite E. by destruct (newPair_rest who) as (_ & _ & _ & -> & _). Qed.

Lemma L_range : 1 <= L <= sc_MaxSessionMessages config /\ sc_MaxSessionMessages config <= 2 ^ 24.
Proof using HT HV. by apply validated_limits. Qed.

(** Key epochs that the ratchet reaches. *)
Definition reaches (s0 s : KeySchedule) (e : nat) : Prop := ratchetN e s0 = Ok s.

Lemma ratchetN_epoch s0 s e : Epoch s0 = 0 -> reaches s0 s e -> Epoch s = Z.of_nat e /\ u64 (Epoch s).
Proof using Type.
  intros H0. revert s. induction e as [|e IH]; intros s HR; unfold reaches in HR; cbn in HR.
  - apply Ok_inj in HR as <-. rewrite H0. split; [done|]. unfold_widths. lia.
  - apply rbind_ok in HR as (s1 & H1 & HR). destruct (IH s1 H1) as [E1 U1]. destruct (ratchet_ok _ _ _ U1 HR) as (E2 & B2 & _).
    unfold_widths. lia.
Qed.

Lemma next_schedule s0 s e : Epoch s0 = 0 -> reaches s0 s e -> (exists s', reaches s0 s' (S e)) ->
  exists s', RatchetKeyScheduleV1 s = Ok s' /\ reaches s0 s' (S e) /\ Epoch s' = Z.of_nat e + 1 /\ Z.of_nat e < MaxUint64.
Proof using Type.
  intros H0 HR [s' HR']. exists s'. pose proof (ratchetN_epoch _ _ _ H0 HR) as [E1 U1]. unfold reaches in *. cbn in HR'. rewrite HR in HR'. cbn in HR'.
  destruct (ratchet_ok _ _ _ U1 HR') as (E2 & B2 & _). split; [done|]. split; [cbn; by rewrite HR|]. unfold_widths. lia.
Qed.

Lemma schedule_zero : Epoch schedC = 0 /\ Epoch schedR = 0.
Proof using Hnew.
  unfold newPair in Hnew. apply rbind_ok in Hnew as (a & HA & HN). apply rbind_ok in HN as (b & HB & HN).
  apply map_err_ok in HA, HB. unfold newEndpointLifecycleV1 in HA, HB. go_inv HA. go_inv HB.
  rewrite !orb_false_iff, negb_false_iff, Z.eqb_eq in G, G1. tauto.
Qed.

Lemma can_send p who life s s0 (e : nat) s' : settled p -> sameIdentity who life -> lf_state life = StateEstablished -> keyed life s (Z.of_nat e) ->
  Epoch s0 = 0 -> reaches s0 s e -> RatchetKeyScheduleV1 s = Ok s' -> Epoch s' = Z.of_nat e + 1 -> Z.of_nat e < MaxUint64 ->
  canSend p life v s s'.
Proof using All.
  intros HS HI Hst HK H0 HR HN HE HM. pose proof L_range. destruct (limits_id _ _ HI) as [HL _]. constructor; try done.
  - apply HS.
  - by eapply keyed_valid.
  - intros n. by eapply profile_id.
  - by eapply rotates_id.
  - apply HK.
  - by rewrite (kd_epoch _ _ _ HK).
  - rewrite (kd_epoch _ _ _ HK). lia.
  - unfold newWindow. destruct HI as [HI]. rewrite HI. destruct (newPair_rest who) as (_ & -> & _ & -> & _).
    destruct (NewReplayWindowV1 _ _) as [w|]; [by exists w|done].
  - apply HK.
  - rewrite HL. unfold_widths. lia.
  - apply HK.
Qed.

(** ** The four steps of a round trip *)

Definition opId (e k : Z) : bytes := operationIDV1 th 1 e slot k.

(** The identity of an operation of a past number and a key epoch in range. *)
Definition earlier (k : Z) (id : bytes) : Prop := exists i e, 0 <= i < k /\ 0 <= e <= bound /\ id = opId e i.

Record idleSender (s : sendStateV1) (k : Z) : Prop := {
  is_sequence : sd_operationSequence s = k /\ sd_operationSequenceEnd s = false;
  is_completed : sd_sendCompleted s = k;
  is_outstanding : sd_outstanding s = ∅;
}.

Record idleReceiver (r : receiveStateV1) (k : Z) : Prop := {
  ir_sequence : rc_inOperationSequence r = k /\ rc_inOperationSequenceEnd r = false;
  ir_completed : rc_receiveCompleted r = k;
  ir_ids : forall id c, rc_completed r !! id = Some c -> earlier k id;
}.

(** The client between its reservation and the acknowledgement. *)
Record waiting (s : sendStateV1) (k e q : Z) : Prop := {
  wa_sequence : sd_operationSequence s = k + 1 /\ sd_operationSequenceEnd s = false;
  wa_completed : sd_sendCompleted s = k;
  wa_outstanding : sd_outstanding s = {[opId e k := mkOutstanding (opId e k) 1 e slot k (k + 1) 1]};
  wa_issued : sd_issuedOperations s !! mkKey slot e q = Some (mkTransmission Client pid (opId e k) 1 e slot k e q 1);
}.

Lemma role_id who life : sameIdentity who life -> outboundDirectionV1 life = match who with Client => 1 | Relay => 2 end.
Proof using Hnew.
  intros [E]. unfold outboundDirectionV1. rewrite E. destruct (newPair_identity _ _ _ _ _ _ _ _ _ _ Hnew who) as (_ & _ & _ & _ & _ & ->). by destruct who.
Qed.

Lemma begin_succeeds p s s' k : settled p -> sameIdentity Client (pr_client p) -> canSend p (pr_client p) v s s' ->
  idleSender (lf_send (pr_client p)) k -> 0 <= k < sc_MaxSessionMessages config ->
  exists life e q, beginOperationV1 p Client slot v = (setLife p Client life, Ok (mkTransmission Client pid (opId e k) 1 e slot k e q 1)) /\
    sameIdentity Client life /\ lf_state life = StateEstablished /\ lf_recv life = lf_recv (pr_client p) /\
    sent s s' (lf_keys (pr_client p)) (lf_keys life) e /\ (e = k_keyEpoch (lf_keys (pr_client p)) -> k_outKeyAttempts (lf_keys (pr_client p)) < L) /\
    waiting (lf_send life) k e q /\ advanced (partitioned (pr_client p)) slot (lf_keys (pr_client p)) (lf_keys life) e q.
Proof using All.
  intros (_ & Hpid & _) HI HC [[Q1 Q2] Q3 Q4] Hk. pose proof L_range as [_ HM]. change (2 ^ 24) with 16777216 in HM.
  destruct (limits_id _ _ HI) as [HL HMS]. pose proof (canSend_ready _ _ _ _ _ 0%nat HC) as HR.
  destruct (reserve_succeeds p (pr_client p) slot v s s' 1%nat 2%nat HC) as (life1 & e & q & HRes & [S1 S2 S3 S4] & Hsent & Hlt).
  unfold beginOperationV1. cbn [lifeOf]. rewrite HR. cbn [rbind]. destruct (Z.eqb_spec slot 0) as [?|_]; [done|]. rewrite Q2. cbn [orb reject rbind].
  unfold outstandingCount. rewrite Q3, Q4, map_size_empty, HMS. change (k + Z.of_nat 0) with (k + 0). rewrite Z.add_0_r, (wrap64_small k) by (unfold_widths; lia).
  destruct (Z.leb_spec (sc_MaxSessionMessages config) k); [lia|]. cbn [reject rbind]. rewrite HRes. cbn [rbind].
  assert (HI1 : sameIdentity Client life1) by (constructor; rewrite S2; apply HI).
  rewrite (role_id _ _ HI1), S3, Q1, Q2, Q3, Q4, map_size_empty, Z.add_0_r, (wrap64_small k), (wrap64_small (k + 1)) by (unfold_widths; lia).
  assert (id_th4 (lf_id life1) = th) as ->.
  { destruct HI1 as [->]. by destruct (newPair_rest Client) as (_ & _ & -> & _). }
  unfold advance. destruct (Z.eqb_spec k MaxUint64); [unfold_widths; lia|]. rewrite (wrap64_small (k + 1)) by (unfold_widths; lia). fold (opId e k).
  eexists _, e, q. cbn [closing]. unfold operationTransmissionLockedV1. cbn [oo_id oo_originDirection oo_originEpoch oo_streamSlot oo_operationSequence oo_attempts]. rewrite Hpid.
  split; [reflexivity|]. split; [by destruct HI1; constructor|]. split; [cbn; rewrite S1; apply HC|]. split; [done|]. split; [done|].
  split; [intros E; rewrite <- HL; by apply Hlt|]. split; [|exact (reserve_advances _ _ _ _ _ _ _ _ _ _ _ HRes HC)]. constructor; cbn; try done.
  unfold operationReservationKeyV1. cbn. by rewrite lookup_insert_eq.
Qed.

(** The relay after it accepted the operation. *)
Record accepted (r : receiveStateV1) (k e : Z) : Prop := {
  ac_sequence : rc_inOperationSequence r = k + 1 /\ rc_inOperationSequenceEnd r = false;
  ac_completed : rc_receiveCompleted r = k + 1;
  ac_entry : exists d ep sl sq, rc_completed r !! opId e k = Some (mkCompleted d ep sl sq (mkAck (opId e k) (k + 1)) 0);
  ac_ids : forall id c, rc_completed r !! id = Some c -> earlier (k + 1) id;
}.

Lemma commit_succeeds p s s' sC eC k e q : settled p -> sameIdentity Client (pr_client p) -> keyed (pr_client p) sC eC -> waiting (lf_send (pr_client p)) k e q ->
  sameIdentity Relay (pr_relay p) -> lf_state (pr_relay p) = StateEstablished \/ lf_state (pr_relay p) = StateAuthenticating ->
  keyed (pr_relay p) s (k_keyEpoch (lf_keys (pr_relay p))) -> idleReceiver (lf_recv (pr_relay p)) k -> 0 <= k < sc_MaxSessionMessages config ->
  RatchetKeyScheduleV1 s = Ok s' -> Epoch s' = k_keyEpoch (lf_keys (pr_relay p)) + 1 -> 0 <= k_keyEpoch (lf_keys (pr_relay p)) < MaxUint64 ->
  (e = k_keyEpoch (lf_keys (pr_relay p)) /\ k_inKeyAttempts (lf_keys (pr_relay p)) < L \/ e = k_keyEpoch (lf_keys (pr_relay p)) + 1) ->
  0 <= e <= bound -> (forall id, earlier k id -> id <> opId e k) ->
  exists life, (forall S (f : S -> S * result lifecycle_error unit) s s', f s = (s', Ok tt) ->
      commitFirstAuthenticatedOperationV1 p Relay (mkTransmission Client pid (opId e k) 1 e slot k e q 1) v f s
        = (s', setLife p Relay life, Ok (mkAck (opId e k) (k + 1)))) /\
    sameIdentity Relay life /\ lf_state life = StateEstablished /\ lf_send life = lf_send (pr_relay p) /\
    received s s' (lf_keys (pr_relay p)) (lf_keys life) e /\ accepted (lf_recv life) k e /\
    followed (partitioned (pr_relay p)) (lf_keys (pr_relay p)) (lf_keys life) e /\ rc_lastCommitDeliver (lf_recv life) = true.
Proof using All.
  intros HS HIC HKC HW HIR Hst HKR [[R1 R2] R3 R4] Hk HN HE He Hcase Hbound Hdistinct. pose proof L_range as [_ HM]. change (2 ^ 24) with 16777216 in HM.
  destruct (limits_id _ _ HIR) as [HL HMS]. pose proof HS as (Hc & Hpid & Hep).
  set (t := mkTransmission _ _ _ _ _ _ _ _ _ _). set (life := pr_relay p) in *.
  destruct (receive_succeeds life s s' e (rotates_id _ _ HIR) (kd_schedule _ _ _ HKR) HN HE He) as (c & HP & Hrec).
  { apply HKR. } { rewrite HL. unfold_widths. pose proof L_range. lia. } { by rewrite HL. }
  assert (HRo : id_role (lf_id life) = 2 /\ id_owner (lf_id life) = true /\ id_runtimeEpoch (lf_id life) = epoch).
  { destruct HIR as [->]. destruct (newPair_identity _ _ _ _ _ _ _ _ _ _ Hnew Relay) as (? & ? & _ & _ & _ & ?). done. }
  assert (HCo : id_role (lf_id (pr_client p)) = 1 /\ id_owner (lf_id (pr_client p)) = true /\ id_runtimeEpoch (lf_id (pr_client p)) = epoch).
  { destruct HIC as [->]. destruct (newPair_identity _ _ _ _ _ _ _ _ _ _ Hnew Client) as (? & ? & _ & _ & _ & ?). done. }
  destruct HRo as (HR1 & HR2 & HR3), HCo as (HC1 & HC2 & HC3).
  assert (Hprep : prepareFirst p Relay t v = Ok (c, true, mkAck (opId e k) (k + 1))).
  { unfold prepareFirst. cbn [lifeOf]. fold life. rewrite (keyed_strict _ _ _ _ _ HS HIR HKR), Hc. cbn [negb orb].
    assert (bool_decide (lf_state life = StateEstablished) || bool_decide (lf_state life = StateAuthenticating) && (id_role (lf_id life) =? lifecycleRoleRelayV1) = true) as ->.
    { rewrite HR1. destruct Hst as [-> | ->]; reflexivity. }
    cbn [negb reject rbind]. rewrite (profile_id _ _ _ HIR). cbn [rbind].
    assert (validStrictOperationOwnerLockedV1 p life t = true) as ->.
    { unfold validStrictOperationOwnerLockedV1. cbn [t tx_owner tx_coordinator tx_originDirection lifeOf].
      rewrite Hpid, Z.eqb_refl, (keyed_strict _ _ _ _ _ HS HIC HKC), HC2, HR2, HC3, HR3, HC1, HR1, (role_id _ _ HIC). by rewrite bool_decide_eq_true_2. }
    assert (validIssuedOperationLockedV1 p t = true) as ->.
    { apply bool_decide_eq_true_2. exact (wa_issued _ _ _ _ HW). }
    assert (identified life t = true) as ->.
    { unfold identified. cbn [t tx_streamSlot tx_originDirection tx_originEpoch tx_operationSequence tx_operationID]. destruct (Z.eqb_spec slot 0); [done|]. cbn.
      apply bool_decide_eq_true_2. destruct HIR as [->]. destruct (newPair_rest Relay) as (_ & _ & -> & _). done. }
    cbn [negb orb reject rbind]. unfold classify. cbn [t tx_operationID tx_operationSequence].
    destruct (rc_completed (lf_recv life) !! opId e k) as [c'|] eqn:Hx.
    { by destruct (Hdistinct _ (R4 _ _ Hx)). }
    rewrite R2, R1, Z.eqb_refl, R3, HMS. cbn [negb orb reject rbind]. destruct (Z.leb_spec (sc_MaxSessionMessages config) k); [lia|]. cbn [reject rbind].
    rewrite (wrap64_small (k + 1)) by (unfold_widths; lia). change (tx_recordEpoch t) with e. rewrite HP. cbn [rbind].
    unfold lockProfileCommitGuardLockedV1. by rewrite (profile_id _ _ _ HIR). }
  exists (applyFirst life t c true (mkAck (opId e k) (k + 1))). split.
  { intros S f0 x x' Hf. unfold commitFirstAuthenticatedOperationV1. by rewrite Hprep, Hf. }
  pose proof (receive_follows _ _ _ _ HP ltac:(lia) (kd_schedule _ _ _ HKR)) as HFo.
  unfold applyFirst. change (tx_recordEpoch t) with e. set (life1 := applyStrictReceiveEpochLockedV1 life e c) in *.
  assert (HS1 : sameButKeys life life1) by (subst life1; destruct c; by constructor). destruct HS1 as [S1 S2 S3 S4].
  assert (HA : accepted (complete (lf_recv life) t (mkAck (opId e k) (k + 1))) k e).
  { unfold complete, advance. rewrite R1, R2, R3. destruct (Z.eqb_spec k MaxUint64); [unfold_widths; lia|]. rewrite (wrap64_small (k + 1)) by (unfold_widths; lia).
    constructor; cbn; try done.
    - eexists _, _, _, _. by rewrite lookup_insert_eq.
    - intros id c' [[<- <-]|[_ Hx]]%lookup_insert_Some; [exists k, e; split; [lia|done]|].
      destruct (R4 _ _ Hx) as (i & e' & Hi & E). exists i, e'. split; [lia|done]. }
  cbv zeta. change (lf_state (setRecv life1 _)) with (lf_state life1). rewrite S1, S4.
  assert (HG : forall l, lf_keys l = lf_keys life1 -> lf_id l = lf_id life1 -> lf_send l = lf_send life1 -> lf_state l = StateEstablished ->
             lf_recv l = setDeliver (complete (lf_recv life) t (mkAck (opId e k) (k + 1))) true ->
             sameIdentity Relay l /\ lf_state l = StateEstablished /\ lf_send l = lf_send life /\ received s s' (lf_keys life) (lf_keys l) e /\ accepted (lf_recv l) k e /\
             followed (partitioned life) (lf_keys life) (lf_keys l) e /\ rc_lastCommitDeliver (lf_recv l) = true).
  { intros l G1 G2 G3 G4 G5. split; [constructor; rewrite G2, S2; apply HIR|]. split; [done|]. split; [congruence|]. split; [by rewrite G1|].
    rewrite G5. split; [destruct HA; by constructor|]. split; [by rewrite G1|done]. }
  destruct Hst as [Hst|Hst]; rewrite Hst; [rewrite bool_decide_eq_false_2 by done|rewrite bool_decide_eq_true_2 by done]; apply HG; try done.
  exact (eq_trans S1 Hst).
Qed.

(** The relay after it reserved the acknowledgement. *)
Record answered (r : receiveStateV1) (k e eA qA : Z) : Prop := {
  an_sequence : rc_inOperationSequence r = k + 1 /\ rc_inOperationSequenceEnd r = false;
  an_completed : rc_receiveCompleted r = k + 1;
  an_entry : exists c, rc_completed r !! opId e k = Some c /\ co_ack c = mkAck (opId e k) (k + 1) /\ co_ackAttempts c = 1;
  an_issued : rc_issuedAcks r !! mkKey 0 eA qA = Some (mkAckTransmission Relay pid (mkAck (opId e k) (k + 1)) eA qA 1);
  an_ids : forall id c, rc_completed r !! id = Some c -> earlier (k + 1) id;
}.

Lemma ack_succeeds p s s' k e : settled p -> sameIdentity Relay (pr_relay p) -> canSend p (pr_relay p) v s s' -> accepted (lf_recv (pr_relay p)) k e ->
  exists life eA qA, beginOperationAckV1 p Relay (opId e k) v
      = (setLife p Relay life, Ok (mkAckTransmission Relay pid (mkAck (opId e k) (k + 1)) eA qA 1)) /\
    sameIdentity Relay life /\ lf_state life = StateEstablished /\ lf_send life = lf_send (pr_relay p) /\
    sent s s' (lf_keys (pr_relay p)) (lf_keys life) eA /\ (eA = k_keyEpoch (lf_keys (pr_relay p)) -> k_outKeyAttempts (lf_keys (pr_relay p)) < L) /\
    answered (lf_recv life) k e eA qA /\ advanced (partitioned (pr_relay p)) 0 (lf_keys (pr_relay p)) (lf_keys life) eA qA.
Proof using All.
  intros (Hc & Hpid & _) HI HC [[A1 A2] A3 (d & ep & sl & sq & A4) A5]. destruct (limits_id _ _ HI) as [HL _].
  destruct (reserve_succeeds p (pr_relay p) 0 v s s' 1%nat 2%nat HC) as (life1 & eA & qA & HRes & [S1 S2 S3 S4] & Hsent & Hlt).
  unfold beginOperationAckV1, reserveOperationAckV1. cbn [lifeOf]. rewrite (cs_valid _ _ _ _ _ HC), Hc, (cs_state _ _ _ _ _ HC).
  rewrite bool_decide_eq_true_2 by done. cbn [negb orb reject rbind]. rewrite (profile_id _ _ _ HI). cbn [rbind]. rewrite A4.
  cbn [co_ackAttempts negb andb orb Z.eqb Z.leb lifecycleTransmissionLimitV1 Z.compare reject rbind]. rewrite HRes. cbn [rbind].
  eexists _, eA, qA. cbn [closing co_ack co_ackAttempts]. rewrite Hpid. split; [reflexivity|].
  split; [constructor; cbn; rewrite S2; apply HI|]. split; [cbn; rewrite S1; apply HC|]. split; [done|]. split; [done|].
  split; [intros E; rewrite <- HL; by apply Hlt|]. split; [|exact (reserve_advances _ _ _ _ _ _ _ _ _ _ _ HRes HC)]. rewrite S4. constructor; cbn; try done.
  - eexists. by rewrite lookup_insert_eq.
  - unfold ackReservationKeyV1. cbn. by rewrite lookup_insert_eq.
  - intros id c [[<- <-]|[_ Hx]]%lookup_insert_Some; [by eapply A5|by eapply A5].
Qed.

Lemma settle_succeeds p s s' sR eR k e q eA qA : settled p -> sameIdentity Relay (pr_relay p) -> lf_state (pr_relay p) = StateEstablished ->
  keyed (pr_relay p) sR eR -> answered (lf_recv (pr_relay p)) k e eA qA ->
  sameIdentity Client (pr_client p) -> lf_state (pr_client p) = StateEstablished ->
  keyed (pr_client p) s (k_keyEpoch (lf_keys (pr_client p))) -> waiting (lf_send (pr_client p)) k e q -> 0 <= k < sc_MaxSessionMessages config ->
  RatchetKeyScheduleV1 s = Ok s' -> Epoch s' = k_keyEpoch (lf_keys (pr_client p)) + 1 -> 0 <= k_keyEpoch (lf_keys (pr_client p)) < MaxUint64 ->
  (eA = k_keyEpoch (lf_keys (pr_client p)) /\ k_inKeyAttempts (lf_keys (pr_client p)) < L \/ eA = k_keyEpoch (lf_keys (pr_client p)) + 1) ->
  exists life, (forall S (f : S -> S * result lifecycle_error unit) s s', f s = (s', Ok tt) ->
      commitStrictAuthenticatedOperationAckV1 p Client controlDirectionRelayV1 eA qA (mkAck (opId e k) (k + 1)) v f s = (s', setLife p Client life, Ok tt)) /\
    sameIdentity Client life /\ lf_state life = StateEstablished /\ received s s' (lf_keys (pr_client p)) (lf_keys life) eA /\
    idleSender (lf_send life) (k + 1) /\ followed (partitioned (pr_client p)) (lf_keys (pr_client p)) (lf_keys life) eA.
Proof using All.
  intros HS HIR HstR HKR [_ _ (cc & N1 & N2 & N3) N4 _] HIC HstC HKC [[W1 W2] W3 W4 _] Hk HN HE He Hcase.
  pose proof L_range as [_ HM]. change (2 ^ 24) with 16777216 in HM. destruct (limits_id _ _ HIC) as [HL HMS]. pose proof HS as (Hc & Hpid & Hep).
  set (life := pr_client p) in *.
  destruct (receive_succeeds life s s' eA (rotates_id _ _ HIC) (kd_schedule _ _ _ HKC) HN HE He) as (c & HP & Hrec).
  { apply HKC. } { rewrite HL. unfold_widths. pose proof L_range. lia. } { by rewrite HL. }
  assert (HRo : id_role (lf_id (pr_relay p)) = 2 /\ id_owner (lf_id (pr_relay p)) = true /\ id_runtimeEpoch (lf_id (pr_relay p)) = epoch).
  { destruct HIR as [->]. destruct (newPair_identity _ _ _ _ _ _ _ _ _ _ Hnew Relay) as (? & ? & _ & _ & _ & ?). done. }
  assert (HCo : id_role (lf_id life) = 1 /\ id_owner (lf_id life) = true /\ id_runtimeEpoch (lf_id life) = epoch).
  { destruct HIC as [->]. destruct (newPair_identity _ _ _ _ _ _ _ _ _ _ Hnew Client) as (? & ? & _ & _ & _ & ?). done. }
  destruct HRo as (HR1 & HR2 & HR3), HCo as (HC1 & HC2 & HC3).
  assert (Hprep : prepareStrictAck p Client controlDirectionRelayV1 eA qA (mkAck (opId e k) (k + 1)) v = Ok c).
  { unfold prepareStrictAck. cbn [lifeOf peerOf]. fold life.
    rewrite (keyed_strict _ _ _ _ _ HS HIC HKC), (keyed_strict _ _ _ _ _ HS HIR HKR), Hc, HstC, HstR, HC1, HC2, HC3, HR1, HR2, HR3, (role_id _ _ HIR).
    rewrite (bool_decide_eq_true_2 (StateEstablished = StateEstablished)), (bool_decide_eq_true_2 (epoch = epoch)) by done.
    cbn [negb orb Bool.eqb Z.eqb Pos.eqb controlDirectionRelayV1 reject rbind]. rewrite (profile_id _ _ _ HIC), (profile_id _ _ _ HIR). cbn [rbind ack_OperationID].
    rewrite N4, N1, W4, lookup_singleton_eq. cbn [at_owner at_coordinator at_recordEpoch at_recordSequence at_ack at_attempt]. rewrite N2, N3, Hpid, !Z.eqb_refl.
    rewrite (bool_decide_eq_true_2 (Relay = Relay)), (bool_decide_eq_true_2 (mkAck _ _ = mkAck _ _)) by done.
    unfold acknowledges. cbn [ack_CompletedCount oo_expectedCompleted]. rewrite W3, (wrap64_small (k + 1)), !Z.eqb_refl by (unfold_widths; lia).
    cbn [negb orb andb Z.eqb Z.ltb Z.compare Pos.compare Pos.compare_cont reject rbind]. rewrite HP. cbn [map_err rbind].
    unfold lockProfileCommitGuardLockedV1. by rewrite (profile_id _ _ _ HIC). }
  eexists. split.
  { intros S f0 x x' Hf. unfold commitStrictAuthenticatedOperationAckV1. rewrite Hprep, Hf. reflexivity. }
  cbn [lifeOf]. fold life. pose proof (receive_follows _ _ _ _ HP ltac:(lia) (kd_schedule _ _ _ HKC)) as HFo.
  set (life1 := applyStrictReceiveEpochLockedV1 life eA c) in *.
  assert (HS1 : sameButKeys life life1) by (subst life1; destruct c; by constructor). destruct HS1 as [S1 S2 S3 S4].
  split; [constructor; exact (eq_trans S2 (si_id _ _ HIC))|]. split; [exact (eq_trans S1 HstC)|]. split; [done|]. split; [|exact HFo].
  cbn [setSend lf_send]. rewrite S3. constructor; cbn; [by rewrite W1, W2| |].
  - rewrite W3. apply wrap64_small. unfold_widths. lia.
  - rewrite W4. apply delete_singleton_eq.
Qed.

(** ** Composition *)

Record synced (k e : nat) (sC sR : KeySchedule) (p : pairV1) : Prop := {
  sy_settled : settled p;
  sy_ids : sameIdentity Client (pr_client p) /\ sameIdentity Relay (pr_relay p);
  sy_client : lf_state (pr_client p) = StateEstablished;
  sy_relay : lf_state (pr_relay p) = StateEstablished \/ lf_state (pr_relay p) = StateAuthenticating;
  sy_reach : reaches schedC sC e /\ reaches schedR sR e;
  sy_keyed : keyed (pr_client p) sC (Z.of_nat e) /\ keyed (pr_relay p) sR (Z.of_nat e);
  sy_counts : k_outKeyAttempts (lf_keys (pr_client p)) = k_inKeyAttempts (lf_keys (pr_relay p)) /\
              k_outKeyAttempts (lf_keys (pr_relay p)) = k_inKeyAttempts (lf_keys (pr_client p));
  sy_send : idleSender (lf_send (pr_client p)) (Z.of_nat k);
  sy_recv : idleReceiver (lf_recv (pr_relay p)) (Z.of_nat k);
}.

Lemma low_advanced life life' slot' e q : partitioned life' = partitioned life -> lowSeq (partitioned life) (lf_keys life) ->
  advanced (partitioned life) slot' (lf_keys life) (lf_keys life') e q ->
  (e = k_keyEpoch (lf_keys life) /\ k_outKeyAttempts (lf_keys life') = k_outKeyAttempts (lf_keys life) + 1 \/
   e <> k_keyEpoch (lf_keys life) /\ k_outKeyAttempts (lf_keys life') = 1) -> lowSeq (partitioned life') (lf_keys life').
Proof using Type.
  intros EP Hlow [_ HA] Hcase s. rewrite EP, HA. unfold seqIn. specialize (Hlow s).
  destruct Hcase as [[-> ->]|[Hne ->]]; [rewrite Z.eqb_refl|destruct (Z.eqb_spec e (k_keyEpoch (lf_keys life))); [done|]]; destruct (negb _ || _); lia.
Qed.

Lemma low_followed life life' e : partitioned life' = partitioned life -> lowSeq (partitioned life) (lf_keys life) ->
  followed (partitioned life) (lf_keys life) (lf_keys life') e ->
  (e = k_keyEpoch (lf_keys life) /\ k_outKeyAttempts (lf_keys life') = k_outKeyAttempts (lf_keys life) \/
   e <> k_keyEpoch (lf_keys life) /\ k_outKeyAttempts (lf_keys life') = 0) -> lowSeq (partitioned life') (lf_keys life').
Proof using Type.
  intros EP Hlow HA Hcase s. rewrite EP, HA. unfold seqIn. specialize (Hlow s).
  destruct Hcase as [[-> ->]|[Hne ->]]; [rewrite Z.eqb_refl|destruct (Z.eqb_spec e (k_keyEpoch (lf_keys life))); [done|]]; lia.
Qed.

Lemma keyed_sent who life life' s s' e0 e slot' q : sameIdentity who life -> sameIdentity who life' -> keyed life s e0 -> Epoch s' = e0 + 1 ->
  sent s s' (lf_keys life) (lf_keys life') e -> (e = k_keyEpoch (lf_keys life) -> k_outKeyAttempts (lf_keys life) < L) ->
  advanced (partitioned life) slot' (lf_keys life) (lf_keys life') e q ->
  (e = e0 /\ keyed life' s e /\ k_outKeyAttempts (lf_keys life') = k_outKeyAttempts (lf_keys life) + 1 /\ k_inKeyAttempts (lf_keys life') = k_inKeyAttempts (lf_keys life) /\
     k_outKeyAttempts (lf_keys life) < L)
  \/ (e = e0 + 1 /\ keyed life' s' e /\ k_outKeyAttempts (lf_keys life') = 1 /\ k_inKeyAttempts (lf_keys life') = 0).
Proof using All.
  intros HI HI' [K1 K2 K3 K4 K5 K6 K7] HE Hsent Hlt HA. pose proof L_range. pose proof (partitioned_id _ _ HI') as HP.
  assert (EP : partitioned life' = partitioned life) by (rewrite (partitioned_id _ _ HI); done). rewrite (partitioned_id _ _ HI) in K4.
  destruct Hsent as [E1 E2 E3 E4 E5 E6|E1 E2 E3 E4 E5 E6]; rewrite K2 in *.
  - specialize (Hlt E1). left. split; [done|]. split; [|done].
    assert (lowSeq (partitioned life') (lf_keys life')) by (eapply low_advanced; try done; left; lia).
    constructor; rewrite ?HP, ?E2, ?E3, ?E4, ?E5, ?E6; try done; try lia. by rewrite <- HP.
  - right. split; [done|]. split; [|done].
    assert (lowSeq (partitioned life') (lf_keys life')) by (eapply low_advanced; try done; right; lia).
    constructor; rewrite ?HP, ?E2, ?E3, ?E4, ?E5; try done; try lia; [|by rewrite <- HP].
    destruct (bool_decide _); [by apply E6|]. apply not_eq_None_Some. intros E. destruct K4 as [? K4]. rewrite K4 in E6. by apply E6 in E.
Qed.

Lemma keyed_received who life life' s s' e0 e : sameIdentity who life -> sameIdentity who life' -> keyed life s e0 -> Epoch s' = e0 + 1 ->
  received s s' (lf_keys life) (lf_keys life') e -> (e = e0 -> k_inKeyAttempts (lf_keys life) < L) ->
  followed (partitioned life) (lf_keys life) (lf_keys life') e ->
  (e = e0 /\ keyed life' s e /\ k_inKeyAttempts (lf_keys life') = k_inKeyAttempts (lf_keys life) + 1 /\ k_outKeyAttempts (lf_keys life') = k_outKeyAttempts (lf_keys life))
  \/ (e = e0 + 1 /\ keyed life' s' e /\ k_inKeyAttempts (lf_keys life') = 1 /\ k_outKeyAttempts (lf_keys life') = 0).
Proof using All.
  intros HI HI' [K1 K2 K3 K4 K5 K6 K7] HE Hrec Hlt HA. pose proof L_range. pose proof (partitioned_id _ _ HI') as HP.
  assert (EP : partitioned life' = partitioned life) by (rewrite (partitioned_id _ _ HI); done). rewrite (partitioned_id _ _ HI) in K4.
  destruct Hrec as [E1 E2 E3 E4 E5 E6|E1 E2 E3 E4 E5 E6]; rewrite K2 in *.
  - specialize (Hlt E1). left. split; [done|]. split; [|done].
    assert (lowSeq (partitioned life') (lf_keys life')) by (eapply low_followed; try done; left; lia).
    constructor; rewrite ?HP, ?E2, ?E3, ?E4, ?E5, ?E6; try done; try lia. by rewrite <- HP.
  - right. split; [done|]. split; [|done].
    assert (lowSeq (partitioned life') (lf_keys life')) by (eapply low_followed; try done; right; lia).
    constructor; rewrite ?HP, ?E2, ?E3, ?E4, ?E5, ?E6; try done; try lia. by rewrite <- HP.
Qed.

(** Half a round trip: one end sends, the other follows its epoch. *)
Inductive moved (sA sB : KeySchedule) (e : nat) (a b a' b' : endpointLifecycleV1) (sA' sB' : KeySchedule) (e' : nat) : Prop :=
  Moved : keyed a' sA' (Z.of_nat e') -> keyed b' sB' (Z.of_nat e') ->
    k_outKeyAttempts (lf_keys a') = k_inKeyAttempts (lf_keys b') -> k_outKeyAttempts (lf_keys b') = k_inKeyAttempts (lf_keys a') ->
    (e' = e /\ sA' = sA /\ sB' = sB \/ e' = S e /\ RatchetKeyScheduleV1 sA = Ok sA' /\ RatchetKeyScheduleV1 sB = Ok sB') ->
    moved sA sB e a b a' b' sA' sB' e'.

Lemma half_trip w w' (e : nat) x a b a' b' sA sB nA nB slot' q : sameIdentity w a -> sameIdentity w a' -> sameIdentity w' b -> sameIdentity w' b' ->
  keyed a sA (Z.of_nat e) -> keyed b sB (Z.of_nat e) -> RatchetKeyScheduleV1 sA = Ok nA -> RatchetKeyScheduleV1 sB = Ok nB ->
  Epoch nA = Z.of_nat e + 1 -> Epoch nB = Z.of_nat e + 1 ->
  k_outKeyAttempts (lf_keys a) = k_inKeyAttempts (lf_keys b) -> k_outKeyAttempts (lf_keys b) = k_inKeyAttempts (lf_keys a) ->
  sent sA nA (lf_keys a) (lf_keys a') x -> (x = k_keyEpoch (lf_keys a) -> k_outKeyAttempts (lf_keys a) < L) ->
  received sB nB (lf_keys b) (lf_keys b') x ->
  advanced (partitioned a) slot' (lf_keys a) (lf_keys a') x q -> followed (partitioned b) (lf_keys b) (lf_keys b') x ->
  exists sA' sB' e', x = Z.of_nat e' /\ moved sA sB e a b a' b' sA' sB' e'.
Proof using All.
  intros Ia Ia' Ib Ib' Ka Kb Ra Rb Ea Eb C1 C2 HSent Hlt HRec HAd HFo.
  destruct (keyed_sent _ _ _ _ _ _ _ _ _ Ia Ia' Ka Ea HSent Hlt HAd) as [(X1 & X2 & X3 & X4 & X5)|(X1 & X2 & X3 & X4)].
  - destruct (keyed_received _ _ _ _ _ _ _ Ib Ib' Kb Eb HRec ltac:(lia) HFo) as [(Y1 & Y2 & Y3 & Y4)|(Y1 & _)]; [|lia].
    exists sA, sB, e. split; [done|]. subst x. constructor; [done|done|lia|lia|]. by left.
  - destruct (keyed_received _ _ _ _ _ _ _ Ib Ib' Kb Eb HRec ltac:(lia) HFo) as [(Y1 & _)|(Y1 & Y2 & Y3 & Y4)]; [lia|].
    exists nA, nB, (S e). assert (x = Z.of_nat (S e)) as E by lia. split; [done|]. constructor; rewrite <- ?E; [done|done|lia|lia|]. by right.
Qed.

Lemma moved_reach s0 s0' sA sB (e : nat) a b a' b' sA' sB' e' : moved sA sB e a b a' b' sA' sB' e' -> reaches s0 sA e -> reaches s0' sB e ->
  reaches s0 sA' e' /\ reaches s0' sB' e' /\ (e <= e' <= S e)%nat.
Proof using Type.
  intros [_ _ _ _ [(-> & -> & ->)|(-> & R1 & R2)]] HA HB; [repeat split; try done; lia|]. unfold reaches in *. cbn [ratchetN].
  rewrite HA, HB. cbn [rbind]. repeat split; try done; lia.
Qed.

(** The epoch of a record that the other end is able to follow. *)
Lemma sent_followed who who' a a' b sA nA sB (e : nat) x slot' q : sameIdentity who a -> sameIdentity who a' -> sameIdentity who' b ->
  keyed a sA (Z.of_nat e) -> keyed b sB (Z.of_nat e) -> Epoch nA = Z.of_nat e + 1 ->
  k_outKeyAttempts (lf_keys a) = k_inKeyAttempts (lf_keys b) ->
  sent sA nA (lf_keys a) (lf_keys a') x -> (x = k_keyEpoch (lf_keys a) -> k_outKeyAttempts (lf_keys a) < L) ->
  advanced (partitioned a) slot' (lf_keys a) (lf_keys a') x q ->
  (exists s, keyed a' s x) /\ (x = k_keyEpoch (lf_keys b) /\ k_inKeyAttempts (lf_keys b) < L \/ x = k_keyEpoch (lf_keys b) + 1).
Proof using All.
  intros Ia Ia' Ib Ka Kb Ea HC HSent Hlt HAd. rewrite (kd_epoch _ _ _ Kb), <- HC.
  destruct (keyed_sent _ _ _ _ _ _ _ _ _ Ia Ia' Ka Ea HSent Hlt HAd) as [(X1 & X2 & _ & _ & X5)|(X1 & X2 & _)]; eauto.
Qed.

Context (HreachC : forall m, (m <= 2 * count)%nat -> exists s, reaches schedC s m).
Context (HreachR : forall m, (m <= 2 * count)%nat -> exists s, reaches schedR s m).
Context (Hids : forall i j e e', 0 <= i < j -> j < Z.of_nat count -> 0 <= e <= bound -> 0 <= e' <= bound -> opId e i <> opId e' j).

(** The four steps of a round trip: the states of the two ends in between, the
    positions of the two records, and what happened to the sequences. *)
Record tripSteps (k e : nat) (p : pairV1) (c1 r2 r3 c4 : endpointLifecycleV1) (e3 e6 : nat) (q qA : Z) : Prop := {
  ts_begin : beginOperationV1 p Client slot v
    = (setLife p Client c1, Ok (mkTransmission Client pid (opId (Z.of_nat e3) (Z.of_nat k)) 1 (Z.of_nat e3) slot (Z.of_nat k) (Z.of_nat e3) q 1));
  ts_commit : forall S (f : S -> S * result lifecycle_error unit) s s', f s = (s', Ok tt) ->
    commitFirstAuthenticatedOperationV1 (setLife p Client c1) Relay
      (mkTransmission Client pid (opId (Z.of_nat e3) (Z.of_nat k)) 1 (Z.of_nat e3) slot (Z.of_nat k) (Z.of_nat e3) q 1) v f s
    = (s', setLife (setLife p Client c1) Relay r2, Ok (mkAck (opId (Z.of_nat e3) (Z.of_nat k)) (Z.of_nat k + 1)));
  ts_deliver : rc_lastCommitDeliver (lf_recv r2) = true;
  ts_ack : beginOperationAckV1 (setLife (setLife p Client c1) Relay r2) Relay (opId (Z.of_nat e3) (Z.of_nat k)) v
    = (setLife (setLife (setLife p Client c1) Relay r2) Relay r3,
       Ok (mkAckTransmission Relay pid (mkAck (opId (Z.of_nat e3) (Z.of_nat k)) (Z.of_nat k + 1)) (Z.of_nat e6) qA 1));
  ts_settle : forall S (f : S -> S * result lifecycle_error unit) s s', f s = (s', Ok tt) ->
    commitStrictAuthenticatedOperationAckV1 (setLife (setLife (setLife p Client c1) Relay r2) Relay r3) Client controlDirectionRelayV1 (Z.of_nat e6) qA
      (mkAck (opId (Z.of_nat e3) (Z.of_nat k)) (Z.of_nat k + 1)) v f s
    = (s', setLife (setLife (setLife (setLife p Client c1) Relay r2) Relay r3) Client c4, Ok tt);
  ts_epochs : (e <= e3 <= S e)%nat /\ (e3 <= e6 <= S e3)%nat;
  ts_ids : sameIdentity Client c1 /\ sameIdentity Relay r2 /\ sameIdentity Relay r3 /\ sameIdentity Client c4;
  ts_states : lf_state c1 = StateEstablished /\ lf_state r2 = StateEstablished /\ lf_state r3 = StateEstablished /\ lf_state c4 = StateEstablished;
  ts_issued : sd_issuedOperations (lf_send c1) !! mkKey slot (Z.of_nat e3) q
    = Some (mkTransmission Client pid (opId (Z.of_nat e3) (Z.of_nat k)) 1 (Z.of_nat e3) slot (Z.of_nat k) (Z.of_nat e3) q 1);
  ts_seq1 : advanced (partitioned (pr_client p)) slot (lf_keys (pr_client p)) (lf_keys c1) (Z.of_nat e3) q;
  ts_seq2 : followed (partitioned (pr_relay p)) (lf_keys (pr_relay p)) (lf_keys r2) (Z.of_nat e3);
  ts_seq3 : advanced (partitioned r2) 0 (lf_keys r2) (lf_keys r3) (Z.of_nat e6) qA;
  ts_seq4 : followed (partitioned c1) (lf_keys c1) (lf_keys c4) (Z.of_nat e6);
  ts_keyed : exists s3 s4 s6 s7, keyed c1 s3 (Z.of_nat e3) /\ keyed r2 s4 (Z.of_nat e3) /\ keyed r3 s6 (Z.of_nat e6) /\ keyed c4 s7 (Z.of_nat e6) /\
    reaches schedC s3 e3 /\ reaches schedR s4 e3 /\ reaches schedR s6 e6 /\ reaches schedC s7 e6 /\
    synced (S k) e6 s7 s6 (setLife (setLife (setLife (setLife p Client c1) Relay r2) Relay r3) Client c4);
}.

Lemma trip_steps k e sC sR p : synced k e sC sR p -> (k < count)%nat -> Z.of_nat count <= sc_MaxSessionMessages config -> (e <= 2 * k)%nat ->
  exists c1 r2 r3 c4 e3 e6 q qA, tripSteps k e p c1 r2 r3 c4 e3 e6 q qA.
Proof using All.
  intros [HS [HIC HIR] HstC HstR [HrC HrR] [HKC HKR] [HC1 HC2] HSend HRecv] Hk Hn He. destruct schedule_zero as [H0C H0R].
  destruct (next_schedule _ _ _ H0C HrC (HreachC (S e) ltac:(lia))) as (nC & N1 & N2 & N3 & N4).
  destruct (next_schedule _ _ _ H0R HrR (HreachR (S e) ltac:(lia))) as (nR & M1 & M2 & M3 & M4).
  pose proof (can_send p Client _ _ _ _ _ HS HIC HstC HKC H0C HrC N1 N3 N4) as HCS.
  destruct (begin_succeeds p sC nC (Z.of_nat k) HS HIC HCS HSend ltac:(lia)) as (c1 & x & q & B1 & B2 & B3 & B4 & B5 & B6 & B7 & B8).
  destruct (sent_followed _ _ _ _ _ _ _ _ _ _ _ _ HIC B2 HIR HKC HKR N3 HC1 B5 B6 B8) as [[s1 F1] F2].
  pose proof (settled_set p Client c1 HS) as HS1. pose proof (kd_epoch _ _ _ HKR) as HER.
  destruct (commit_succeeds (setLife p Client c1) sR nR s1 x (Z.of_nat k) x q HS1 B2 F1 B7 HIR HstR) as (r2 & D1 & D2 & D3 & D4 & D5 & D6 & D7 & D8);
    cbn [setLife pr_relay]; rewrite ?HER in *; try done; try lia.
  { unfold bound. lia. }
  { intros id (i & e1 & Hi & He1 & ->). apply Hids; try done; [lia|]. unfold bound. lia. }
  destruct (half_trip Client Relay e x _ _ c1 r2 _ _ _ _ _ _ HIC B2 HIR D2 HKC HKR N1 M1 N3 M3 HC1 HC2 B5 B6 D5 B8 D7) as (s3 & s4 & e3 & -> & HM).
  destruct (moved_reach _ _ _ _ _ _ _ _ _ _ _ _ HM HrC HrR) as (R3 & R4 & R5). destruct HM as [K3 K4 U1 U2 _].
  destruct (next_schedule _ _ _ H0C R3 (HreachC (S e3) ltac:(lia))) as (nC' & N5 & _ & N6 & N7).
  destruct (next_schedule _ _ _ H0R R4 (HreachR (S e3) ltac:(lia))) as (nR' & M5 & _ & M6 & M7).
  set (p2 := setLife (setLife p Client c1) Relay r2). assert (HS2 : settled p2) by exact (settled_set _ Relay r2 HS1).
  pose proof (can_send p2 Relay r2 _ _ _ _ HS2 D2 D3 K4 H0R R4 M5 M6 M7) as HRS.
  destruct (ack_succeeds p2 s4 nR' _ _ HS2 D2 HRS D6) as (r3 & eA & qA & A1 & A2 & A3 & A4 & A5 & A6 & A7 & A8).
  destruct (sent_followed _ _ _ _ _ _ _ _ _ _ _ _ D2 A2 B2 K4 K3 M6 U2 A5 A6 A8) as [[s5 F3] F4].
  set (p3 := setLife p2 Relay r3). assert (HS3 : settled p3) by exact (settled_set _ Relay r3 HS2). pose proof (kd_epoch _ _ _ K3) as HEC.
  destruct (settle_succeeds p3 s3 nC' s5 eA (Z.of_nat k) (Z.of_nat e3) q eA qA HS3 A2 A3 F3 A7 B2 B3) as (c4 & T1 & T2 & T3 & T4 & T5 & T6);
    cbn [p3 p2 setLife pr_client]; rewrite ?HEC in *; try done; try lia.
  destruct (half_trip Relay Client e3 eA r2 c1 r3 c4 _ _ _ _ _ _ D2 A2 B2 T2 K4 K3 M5 N5 M6 N6 U2 U1 A5 A6 T4 A8 T6) as (s6 & s7 & e6 & -> & HM).
  destruct (moved_reach _ _ _ _ _ _ _ _ _ _ _ _ HM R4 R3) as (R6 & R7 & R8). destruct HM as [K6 K7 U3 U4 _].
  exists c1, r2, r3, c4, e3, e6, q, qA. constructor; try done; [exact (wa_issued _ _ _ _ B7)|]. exists s3, s4, s6, s7. split_and!; try done.
  assert (Z.of_nat (S k) = Z.of_nat k + 1) as EK by lia. destruct A7 as [Q1 Q2 _ _ Q3].
  constructor; cbn [p3 p2 setLife pr_client pr_relay]; rewrite ?EK; try done. by left.
Qed.

Lemma trip k e sC sR p : synced k e sC sR p -> (k < count)%nat -> Z.of_nat count <= sc_MaxSessionMessages config -> (e <= 2 * k)%nat ->
  exists p' e' sC' sR', roundTrip slot v p = Some p' /\ synced (S k) e' sC' sR' p' /\ (e' <= 2 * S k)%nat.
Proof using All.
  intros HS Hk Hn He. destruct (trip_steps _ _ _ _ _ HS Hk Hn He) as (c1 & r2 & r3 & c4 & e3 & e6 & q & qA & [T1 T2 _ T3 T4 [E1 E2] _ _ _ _ _ _ _ T5]).
  destruct T5 as (s3 & s4 & s6 & s7 & _ & _ & _ & _ & _ & _ & _ & _ & HS'). eexists _, e6, s7, s6. split; [|split; [exact HS'|lia]].
  pose (f := fun s : unit => (s, @Ok lifecycle_error _ tt)). unfold roundTrip. fold f. rewrite T1, (T2 _ f tt tt eq_refl). cbn [tx_operationID]. rewrite T3.
  cbn [at_recordEpoch at_recordSequence at_ack]. by rewrite (T4 _ f tt tt eq_refl).
Qed.

Lemma fresh_end who : keyed (lifeOf p0 who) (match who with Client => schedC | Relay => schedR end) 0 /\
  k_outKeyAttempts (lf_keys (lifeOf p0 who)) = 0 /\ k_inKeyAttempts (lf_keys (lifeOf p0 who)) = 0 /\
  lf_state (lifeOf p0 who) = (match who with Client => StateEstablished | Relay => StateAuthenticating end) /\
  idleSender (lf_send (lifeOf p0 who)) 0 /\ idleReceiver (lf_recv (lifeOf p0 who)) 0.
Proof using HT HV Hnew.
  destruct schedule_zero as [H0C H0R]. pose proof L_range. destruct (newEndpoint_life who) as (profile & HN).
  unfold newEndpointLifecycleV1 in HN. go_inv HN. apply Ok_inj in HN as <-. split_and!; try done.
  constructor; cbn; try lia; try (by destruct who).
  - unfold partitioned. cbn. case_bool_decide; [by apply Ok_inj in E as <-|]. apply map_err_ok, rbind_ok in E as (w & _ & <-%Ok_inj). eauto.
  - intros slot'. unfold seqOf. cbn. rewrite lookup_empty. destruct (partitioned _); cbn; lia.
Qed.

Lemma fresh_synced : synced 0 0 schedC schedR p0.
Proof using HT HV Hnew.
  destruct (fresh_end Client) as (C1 & C2 & C3 & C4 & C5 & _), (fresh_end Relay) as (R1 & R2 & R3 & R4 & _ & R6).
  destruct (newPair_identity _ _ _ _ _ _ _ _ _ _ Hnew Client) as (_ & _ & I3 & I4 & _).
  assert (pr_closed p0 = false).
  { unfold newPair in Hnew. apply rbind_ok in Hnew as (a & _ & HN). apply rbind_ok in HN as (b & _ & HN). apply Ok_inj in HN as Hp. by rewrite <- Hp. }
  cbn [lifeOf] in *. constructor; try done; [by right|by rewrite C2, R3, C3, R2].
Qed.

Lemma trips k : (k <= count)%nat -> Z.of_nat count <= sc_MaxSessionMessages config ->
  exists p e sC sR, roundTrips k slot v p0 = Some p /\ synced k e sC sR p /\ (e <= 2 * k)%nat.
Proof using All.
  intros Hk Hn. induction k as [|k IH].
  - exists p0, 0%nat, schedC, schedR. split; [done|]. split; [exact fresh_synced|lia].
  - destruct IH as (p & e & sC & sR & HR & HS & He); [lia|]. destruct (trip k e sC sR p HS ltac:(lia) Hn He) as (p' & e' & sC' & sR' & HR' & HS' & He').
    exists p', e', sC', sR'. cbn [roundTrips]. by rewrite HR.
Qed.

(** The pair makes progress. Up to the session limit, the client can begin one
    operation after another, the relay accepts each, acknowledges it, and the client
    settles it; the keys are ratcheted whenever their lifetime is used up, on both
    ends alike, and in the end every operation is settled. Assumed are: one validated
    configuration at both ends, one of the four nonce modes, a rotation policy bound
    to the message or the profile lifetime, a replay window that can be built, a
    non-zero slot, a profile generation that does not move, replay commits that
    succeed, ratchets that succeed for twice as many epochs as operations, and
    distinct identities of these operations. *)
Theorem round_trips_complete : Z.of_nat count <= sc_MaxSessionMessages config ->
  exists p, roundTrips count slot v p0 = Some p /\ pr_closed p = false /\
    sd_sendCompleted (lf_send (pr_client p)) = Z.of_nat count /\ rc_receiveCompleted (lf_recv (pr_relay p)) = Z.of_nat count /\
    sd_outstanding (lf_send (pr_client p)) = ∅.
Proof using All.
  intros Hn. destruct (trips count (le_n _) Hn) as (p & e & sC & sR & HR & [HS _ _ _ _ _ _ [_ S1 S2] [_ R1 _]] & _). exists p. split; [done|].
  split; [apply HS|]. done.
Qed.
End pair.

(** ** A concrete pair

    Keys live for two records; sessions for eight operations. *)

Definition samplePolicy : EffectiveSecurityPolicy :=
  mkEffectiveSecurityPolicy "" "" "" "" "" "" "" "" "" "" NonceModeCounterXORBaseV1 ReplayPolicyBoundedReorderV1 64 "" "" ""
    "message_lifetime_bound" "" "" 8 2 [] [] [] [].
Definition sampleView : nat -> profileView := fun _ => mkView false 0.
Definition newSample : result lifecycle_error pairV1 :=
  newPair 1 (sampleHash 9) sampleView toySchedule toySchedule (sampleConfig 8 2) (sampleConfig 8 2) samplePolicy (sampleHash 5).
Definition closedSample : pairV1 := let e := mkLife StateClosed (mkIdentity false zeroHash zeroConfig 0 "" "" "" zeroHash 0)
    (mkKeys None 0 0 false ∅ 0 0 None ∅) (mkSend 0 false 0 ∅ ∅ ∅) (mkReceive 0 false 0 ∅ ∅ false) in mkPair 1 (sampleHash 9) true e e.
Definition samplePair : pairV1 := match newSample with Ok p => p | Err _ => closedSample end.

Definition sampleID (e k : Z) : bytes := @operationIDV1 toyPrimitives (sampleHash 5) 1 e 4 k.
Definition sampleFirst : operationTransmissionV1 := mkTransmission Client 1 (sampleID 0 0) 1 0 4 0 0 0 1.

(** Three operations of the client; the first is delivered and settled. *)
Definition sampleOps : list lifeOp :=
  [DoBegin Client 4 sampleView; DoCommit Relay sampleFirst sampleView (Ok tt); DoAck Relay (sampleID 0 0) false sampleView;
   DoCommitAck Client 2 0 0 (mkAck (sampleID 0 0) 1) sampleView (Ok tt); DoBegin Client 4 sampleView; DoBegin Client 4 sampleView].
Definition sampleRun (more : list lifeOp) : pairV1 * list event := @runOps toyPrimitives (sampleOps ++ more) samplePair.

Lemma sample_new : newPair 1 (sampleHash 9) sampleView toySchedule toySchedule (sampleConfig 8 2) (sampleConfig 8 2) samplePolicy (sampleHash 5) = Ok samplePair.
Proof. vm_compute. reflexivity. Qed.

Lemma sample_typed : typedStrict (sampleConfig 8 2) /\ @validateStrictSessionConfigV1 toyPrimitives (sampleConfig 8 2) = Ok tt.
Proof. split; [constructor|]; vm_compute; repeat split; (discriminate || reflexivity). Qed.

Lemma record_positions_unique_witness :
  positionsOf false Client (snd (sampleRun [])) = [(0, 0, 0); (0, 0, 1); (1, 0, 0)] /\
  NoDup (positionsOf false Client (snd (sampleRun []))) /\ forall e, usesOf e (positionsOf false Client (snd (sampleRun []))) <= 2.
Proof.
  split; [vm_compute; reflexivity|].
  exact (@record_positions_unique toyPrimitives 1 (sampleHash 9) sampleView toySchedule toySchedule (sampleConfig 8 2) (sampleConfig 8 2) samplePolicy (sampleHash 5) samplePair
           sample_new (proj1 sample_typed) (proj2 sample_typed) (proj1 sample_typed) (proj2 sample_typed) (sampleOps ++ []) Client).
Defined.

Lemma operations_in_order_witness :
  let tr := snd (sampleRun []) in
  acked Client tr = [(0, sampleID 0 0)] /\ delivered Relay tr = [(0, sampleID 0 0)] /\
  begun Client tr = [(0, sampleID 0 0); (1, sampleID 0 1); (2, sampleID 1 2)] /\
  acked Client tr `prefix_of` delivered Relay tr /\ delivered Relay tr `prefix_of` begun Client tr.
Proof.
  cbv zeta. do 3 (split; [vm_compute; reflexivity|]).
  pose proof (@operations_in_order toyPrimitives 1 (sampleHash 9) sampleView toySchedule toySchedule (sampleConfig 8 2) (sampleConfig 8 2) samplePolicy (sampleHash 5) samplePair
           sample_new (proj1 sample_typed) (proj2 sample_typed) (proj1 sample_typed) (proj2 sample_typed) (sampleOps ++ []) Client) as HO.
  cbv zeta in HO. exact (conj (proj1 HO) (proj1 (proj2 HO))).
Defined.

(** A retry of a settled operation closes the pair. *)
Definition sampleLater : list lifeOp := [DoRetry Client (sampleID 0 0) sampleView].

Lemma closed_pair_final_witness :
  pr_closed (fst (sampleRun [])) = false /\ pr_closed (fst (sampleRun sampleLater)) = true /\
  @runOps toyPrimitives sampleOps (fst (sampleRun sampleLater)) = (fst (sampleRun sampleLater), []).
Proof.
  split; [vm_compute; reflexivity|]. split; [vm_compute; reflexivity|].
  apply (@closed_pair_final toyPrimitives 1 (sampleHash 9) sampleView toySchedule toySchedule (sampleConfig 8 2) (sampleConfig 8 2) samplePolicy (sampleHash 5) samplePair
           sample_new (sampleOps ++ sampleLater) sampleOps). vm_compute. reflexivity.
Defined.

Lemma lifecycle_well_typed_witness : pr_closed (fst (sampleRun [])) = false /\ @wellTyped toyPrimitives (fst (sampleRun [])) Client.
Proof.
  split; [vm_compute; reflexivity|].
  refine (@lifecycle_well_typed toyPrimitives 1 (sampleHash 9) sampleView toySchedule toySchedule (sampleConfig 8 2) (sampleConfig 8 2) samplePolicy (sampleHash 5) samplePair
           sample_new (proj1 sample_typed) (proj2 sample_typed) (proj1 sample_typed) (proj2 sample_typed) _ (sampleOps ++ []) _ _ Client); try (vm_compute; reflexivity).
  unfold sampleOps. cbn [app]. repeat (apply Forall_cons_2; [first [exact I|cbn; unfold_widths; lia]|]). apply Forall_nil_2.
Defined.

(** Three round trips pass through three key epochs. *)
Lemma sample_reach m : (m <= 2 * 3)%nat -> exists s, @reaches toyPrimitives toySchedule s m.
Proof.
  intros Hm. assert (isOk (@ratchetN toyPrimitives m toySchedule) = true) as HK.
  { do 7 (destruct m as [|m]; [vm_compute; reflexivity|]). lia. }
  unfold reaches. destruct (ratchetN m toySchedule) as [s|]; [eauto|done].
Qed.

(** Identities [f e k] of [n] operations under key epochs up to [b]. *)
Definition distinctIDs (n b : Z) (f : Z -> Z -> bytes) : bool :=
  let rows := (fun i => (i, (fun e => f e i) <$> seqZ 0 (b + 1))) <$> seqZ 0 n in
  forallb (fun x => forallb (fun y => if x.1 <? y.1 then forallb (fun a => forallb (fun c => negb (bool_decide (a = c))) y.2) x.2 else true) rows) rows.

Lemma forallb_seqZ (g : Z -> bool) n k : forallb g (seqZ 0 n) = true -> 0 <= k < n -> g k = true.
Proof. rewrite forallb_forall. intros HG Hk. apply HG, list_elem_of_In, elem_of_seqZ. lia. Qed.

Lemma distinct_ids n b f i j e e' : distinctIDs n b f = true -> 0 <= i < j -> j < n -> 0 <= e <= b -> 0 <= e' <= b -> f e i <> f e' j.
Proof.
  intros HC Hij Hj He He'. unfold distinctIDs in HC. cbv zeta in HC.
  assert (HR : forall k, 0 <= k < n -> In (k, (fun e => f e k) <$> seqZ 0 (b + 1)) ((fun i => (i, (fun e => f e i) <$> seqZ 0 (b + 1))) <$> seqZ 0 n)).
  { intros k Hk. apply list_elem_of_In, list_elem_of_fmap. exists k. split; [done|]. apply elem_of_seqZ. lia. }
  assert (HE : forall k x, 0 <= x <= b -> In (f x k) ((fun e => f e k) <$> seqZ 0 (b + 1))).
  { intros k x Hx. apply list_elem_of_In, list_elem_of_fmap. exists x. split; [done|]. apply elem_of_seqZ. lia. }
  rewrite forallb_forall in HC. specialize (HC _ (HR i ltac:(lia))). cbn beta in HC. rewrite forallb_forall in HC. specialize (HC _ (HR j ltac:(lia))). cbn [fst snd] in HC.
  destruct (Z.ltb_spec i j); [|lia]. rewrite forallb_forall in HC. specialize (HC _ (HE i e He)). cbn beta in HC. rewrite forallb_forall in HC.
  specialize (HC _ (HE j e' He')). by apply negb_true_iff, bool_decide_eq_false in HC.
Qed.

Lemma sample_distinct : distinctIDs (Z.of_nat 3) (bound 3) sampleID = true.
Proof. vm_compute. reflexivity. Qed.

Lemma round_trips_complete_witness :
  exists p, @roundTrips toyPrimitives 3 4 sampleView samplePair = Some p /\ pr_closed p = false /\
    sd_sendCompleted (lf_send (pr_client p)) = 3 /\ rc_receiveCompleted (lf_recv (pr_relay p)) = 3 /\ sd_outstanding (lf_send (pr_client p)) = ∅.
Proof.
  refine (@round_trips_complete toyPrimitives 1 (sampleHash 9) sampleView toySchedule toySchedule (sampleConfig 8 2) samplePolicy (sampleHash 5) samplePair
            sample_new (proj1 sample_typed) (proj2 sample_typed) _ _ _ 4 _ sampleView 3 _ sample_reach sample_reach (fun i j e e' => distinct_ids _ _ sampleID i j e e' sample_distinct) _);
    try (vm_compute; reflexivity); try discriminate.
  - intros [] k; reflexivity.
Defined.
