(* ===== verification/SecureChannel.v ===== *)
(** * The protected channel as a whole

    The rest of [src/internal/runtime/protected_channel.go]: the channel over one
    authenticated pair, which reserves coordinates on the lifecycle ([Lifecycle]),
    seals and opens records ([Records]) with the envelopes of the current epoch
    ([Envelope]) and reassembles fragments ([Channel]).

    Every operation holds the channel's mutex, but the coordinator's mutex only in
    its critical sections. Between them another goroutine may close the pair, and
    the profile generation may change: a [world] says, for every critical section
    of one operation, whether the pair was closed just before it ([w_shut]) and
    what it reads of the profile state ([w_seen]). The seams that tests install
    ([afterSeal], [beforePublish], [beforeFragmentCommit]) are nil and the lab
    faults are off. *)

From S2P Require Import Prelude GoBytes SecurityErrors Ir KeySchedule Replay Nonce Transcript StrictConfig Envelope Records Channel Lifecycle.
From Stdlib Require Import ZArith Lia Strings.Byte.
From stdpp Require Import base list gmap strings.
Local Open Scope Z_scope.

(** [errors.Join(ErrOperationAckInvalid, security.ErrAuthenticationFailed)] is
    [ChAckAuth]. *)
Inductive channel_error :=
  | ChLife (e : lifecycle_error)
  | ChRecord (e : record_error)
  | ChSecurity (e : env_error)
  | ChAckAuth.

Definition ofLife (e : lifecycle_error) : channel_error :=
  match e with
  | ErrRecordInvalid_ => ChRecord ErrRecordInvalid
  | ErrOperationAckInvalid_ => ChRecord ErrOperationAckInvalid
  | ErrReplayCommit e => ChSecurity e
  | e => ChLife e
  end.

(** Key, class, epoch, slot and sequence of an allocated nonce. *)
Definition strictNonceObservationV1 : Type := Z * Z * Z * Z * Z.

Record strictNonceObserverV1 := mkObserver {
  ob_seen : gset strictNonceObservationV1;
  ob_domains : gset Z;
  ob_collisions : Z;
}.

Record strictProtectedChannelV1 := mkChannel {
  pc_pair : pairV1;
  pc_context : EnvelopeContextV1;
  pc_control : ControlContextV1;
  pc_clientEnvelope : EnvelopeCodecV1 * strictEnvelopeStateV1;
  pc_relayEnvelope : EnvelopeCodecV1 * strictEnvelopeStateV1;
  pc_clientEpoch : Z;
  pc_relayEpoch : Z;
  pc_observer : strictNonceObserverV1;
  pc_clientKey : Z;
  pc_relayKey : Z;
  pc_reassembly : strictFragmentReassemblyV1;
}.

Record world := mkWorld { w_shut : nat -> bool; w_seen : nat -> nat -> profileView }.

Definition keyOf (ch : strictProtectedChannelV1) (who : side) : Z := match who with Client => pc_clientKey ch | Relay => pc_relayKey ch end.
Definition envOf (ch : strictProtectedChannelV1) (who : side) : EnvelopeCodecV1 * strictEnvelopeStateV1 :=
  match who with Client => pc_clientEnvelope ch | Relay => pc_relayEnvelope ch end.
Definition epochOf (ch : strictProtectedChannelV1) (who : side) : Z := match who with Client => pc_clientEpoch ch | Relay => pc_relayEpoch ch end.
Definition directionOf (who : side) : Z := match who with Client => controlDirectionClientV1 | Relay => controlDirectionRelayV1 end.

Definition setEnv (ch : strictProtectedChannelV1) (who : side) (env : EnvelopeCodecV1 * strictEnvelopeStateV1) (epoch : Z) : strictProtectedChannelV1 :=
  match who with
  | Client => mkChannel (pc_pair ch) (pc_context ch) (pc_control ch) env (pc_relayEnvelope ch) epoch (pc_relayEpoch ch) (pc_observer ch)
                (pc_clientKey ch) (pc_relayKey ch) (pc_reassembly ch)
  | Relay => mkChannel (pc_pair ch) (pc_context ch) (pc_control ch) (pc_clientEnvelope ch) env (pc_clientEpoch ch) epoch (pc_observer ch)
               (pc_clientKey ch) (pc_relayKey ch) (pc_reassembly ch)
  end.
Definition setEnvState (ch : strictProtectedChannelV1) (who : side) (st : strictEnvelopeStateV1) : strictProtectedChannelV1 :=
  setEnv ch who (fst (envOf ch who), st) (epochOf ch who).
Definition setReassembly (ch : strictProtectedChannelV1) (r : strictFragmentReassemblyV1) : strictProtectedChannelV1 :=
  mkChannel (pc_pair ch) (pc_context ch) (pc_control ch) (pc_clientEnvelope ch) (pc_relayEnvelope ch) (pc_clientEpoch ch) (pc_relayEpoch ch)
    (pc_observer ch) (pc_clientKey ch) (pc_relayKey ch) r.
Definition setObserver (ch : strictProtectedChannelV1) (o : strictNonceObserverV1) : strictProtectedChannelV1 :=
  mkChannel (pc_pair ch) (pc_context ch) (pc_control ch) (pc_clientEnvelope ch) (pc_relayEnvelope ch) (pc_clientEpoch ch) (pc_relayEpoch ch)
    o (pc_clientKey ch) (pc_relayKey ch) (pc_reassembly ch).

(** The pair after a critical section. The first time the coordinator closes, its
    [destroy] also destroys the reassembly. *)
Definition setPair (ch : strictProtectedChannelV1) (p : pairV1) : strictProtectedChannelV1 :=
  mkChannel p (pc_context ch) (pc_control ch) (pc_clientEnvelope ch) (pc_relayEnvelope ch) (pc_clientEpoch ch) (pc_relayEpoch ch)
    (pc_observer ch) (pc_clientKey ch) (pc_relayKey ch)
    (if pr_closed p && negb (pr_closed (pc_pair ch)) then destroyReassembly (pc_reassembly ch) else pc_reassembly ch).

Definition closeChannel (ch : strictProtectedChannelV1) : strictProtectedChannelV1 := setPair ch (closeLockedV1 (pc_pair ch)).

(** What happened to the pair before critical section [i]. *)
Definition enter (w : world) (i : nat) (ch : strictProtectedChannelV1) : strictProtectedChannelV1 :=
  if w_shut w i then closeChannel ch else ch.

(** One lifecycle method in critical section [i]. *)
Definition onPair {A} (w : world) (i : nat) (ch : strictProtectedChannelV1)
    (f : pairV1 -> (nat -> profileView) -> pairV1 * result lifecycle_error A) : strictProtectedChannelV1 * result channel_error A :=
  let ch := enter w i ch in
  let '(p, r) := f (pc_pair ch) (w_seen w i) in
  (setPair ch p, map_err ofLife r).

(** ** Construction and guards *)

Section operations.
Context `{Primitives} `{Cipher}.

Definition newEnvelope (who : side) (schedule : KeySchedule) (context : EnvelopeContextV1) : result error (EnvelopeCodecV1 * strictEnvelopeStateV1) :=
  newRoleEnvelopeV1 (fun _ => 0) schedule context (bool_decide (who = Client)) false.

(** [context] and [control] are built from the coordinator's snapshot; [ordinal]
    numbers the keys for the observer. *)
Definition newStrictProtectedChannelV1 (p : pairV1) (context : EnvelopeContextV1) (control : ControlContextV1) (maxFrameBytes ordinal : Z)
    (observer : strictNonceObserverV1) : result channel_error strictProtectedChannelV1 :=
  fail? pr_closed p || negb (validStrictCandidateLockedV1 p (pr_client p)) || negb (validStrictCandidateLockedV1 p (pr_relay p))
      || negb (id_role (lf_id (pr_client p)) =? lifecycleRoleClientV1) || negb (id_role (lf_id (pr_relay p)) =? lifecycleRoleRelayV1)
      || negb (Bool.eqb (id_owner (lf_id (pr_client p))) (id_owner (lf_id (pr_relay p))))
      || negb (bool_decide (id_runtimeEpoch (lf_id (pr_client p)) = id_runtimeEpoch (lf_id (pr_relay p)))) with ChLife ErrSecureChannel in
  match k_schedule (lf_keys (pr_client p)), k_schedule (lf_keys (pr_relay p)) with
  | Some clientSchedule, Some relaySchedule =>
      let? clientEnvelope := map_err (fun e => ChSecurity (Sentinel e)) (newEnvelope Client clientSchedule context) in
      let? relayEnvelope := map_err (fun e => ChSecurity (Sentinel e)) (newEnvelope Relay relaySchedule context) in
      Ok (mkChannel p context control clientEnvelope relayEnvelope (Epoch clientSchedule) (Epoch relaySchedule) observer
            (ordinal * 2 - 1) (ordinal * 2) (newReassembly maxFrameBytes))
  | _, _ => Err (ChLife ErrSecureChannel)
  end.

Definition observeAllocationV1 (ch : strictProtectedChannelV1) (key class epoch slot sequence : Z) : strictProtectedChannelV1 :=
  let o := pc_observer ch in
  let value := (key, class, epoch, slot, sequence) in
  setObserver ch (mkObserver ({[value]} ∪ ob_seen o) ({[class]} ∪ ob_domains o)
                    (if bool_decide (value ∈ ob_seen o) then wrap64 (ob_collisions o + 1) else ob_collisions o)).

Definition guardOpenV1 (w : world) (i : nat) (ch : strictProtectedChannelV1) (who : side) : strictProtectedChannelV1 * result channel_error unit :=
  let ch := enter w i ch in
  let p := pc_pair ch in
  if negb (validStrictCandidateLockedV1 p (lifeOf p who)) || pr_closed p then (ch, Err (ChLife ErrSecureChannel))
  else if negb (isOk (profileGenerationValueLockedV1 (lifeOf p who) (w_seen w i 0%nat))) then
    (closeChannel ch, Err (ChLife ErrProfileRotationRequired))
  else (ch, Ok tt).

Definition publishRecordV1 (w : world) (i : nat) (ch : strictProtectedChannelV1) (who : side) (record : bytes)
    : strictProtectedChannelV1 * result channel_error bytes :=
  let ch := enter w i ch in
  let p := pc_pair ch in
  let life := lifeOf p who in
  if negb (validStrictCandidateLockedV1 p life) || pr_closed p || negb (bool_decide (lf_state life = StateEstablished)) then
    (ch, Err (ChLife ErrSecureChannel))
  else if negb (isOk (profileGenerationValueLockedV1 life (w_seen w i 0%nat))) then
    (closeChannel ch, Err (ChLife ErrProfileRotationRequired))
  else (ch, Ok record).

(** [ensureClientEnvelopeV1] and [ensureRelayEnvelopeV1]. *)
Definition ensureRoleEnvelopeV1 (ch : strictProtectedChannelV1) (role : side) (schedule : KeySchedule)
    : strictProtectedChannelV1 * result channel_error unit :=
  if epochOf ch role =? Epoch schedule then (ch, Ok tt)
  else
    match newEnvelope role schedule (pc_context ch) with
    | Err e => (ch, Err (ChSecurity (Sentinel e)))
    | Ok env => (setEnv ch role env (Epoch schedule), Ok tt)
    end.

(** The envelope of [role] is brought to the epoch of the end [who]; its epoch. *)
Definition ensureEnvelopeForLifeV1 (w : world) (i : nat) (ch : strictProtectedChannelV1) (who role : side)
    : strictProtectedChannelV1 * result channel_error Z :=
  let ch := enter w i ch in
  let p := pc_pair ch in
  match k_schedule (lf_keys (lifeOf p who)) with
  | Some schedule =>
      if negb (validStrictCandidateLockedV1 p (lifeOf p who)) || pr_closed p then (ch, Err (ChLife ErrSecureChannel))
      else let '(ch, r) := ensureRoleEnvelopeV1 ch role schedule in (ch, let? _ := r in Ok (Epoch schedule))
  | None => (ch, Err (ChLife ErrSecureChannel))
  end.

(** ** Sending *)

(** A record codec over the sealing closure of an end's envelope. *)
Definition sealOn (ch : strictProtectedChannelV1) (who : side)
    (seal : EnvelopeCodecV1 -> strictEnvelopeStateV1 -> strictEnvelopeStateV1 * result record_error bytes)
    : strictProtectedChannelV1 * result channel_error bytes :=
  let '(st, r) := seal (fst (envOf ch who)) (snd (envOf ch who)) in
  (setEnvState ch who st, map_err ChRecord r).

Definition sealFragment (ch : strictProtectedChannelV1) (who : side) (t : operationTransmissionV1) (fragment : ApplicationFragmentV1)
    : strictProtectedChannelV1 * result channel_error bytes :=
  sealOn ch who (fun c => sealApplicationFragmentV1 (directionOf who) (pc_context ch) (tx_streamSlot t) fragment
                            (applicationSeal c (tx_recordEpoch t) (tx_recordSequence t))).

(** Critical sections [i] and [S i]. *)
Definition sealPreparedApplicationFragmentLockedV1 (w : world) (i : nat) (ch : strictProtectedChannelV1) (who : side) (t : operationTransmissionV1)
    (fragment : ApplicationFragmentV1) : strictProtectedChannelV1 * result channel_error bytes :=
  let ch := observeAllocationV1 ch (keyOf ch who) 1 (tx_recordEpoch t) (tx_streamSlot t) (tx_recordSequence t) in
  let '(ch, r) := ensureEnvelopeForLifeV1 w i ch who who in
  match r with
  | Err e => (ch, Err e)
  | Ok _ =>
      let '(ch, r) := sealFragment ch who t fragment in
      match r with
      | Err e => (ch, Err e)
      | Ok record => publishRecordV1 w (S i) ch who record
      end
  end.

(** The record and the operation's identity; [retry] is the operation to send
    again, whose slot is the one it was begun on. *)
Definition sealApplicationV1 (w : world) (ch : strictProtectedChannelV1) (who : side) (slot : Z) (plaintext : bytes) (retry : option bytes)
    : strictProtectedChannelV1 * bytes * result channel_error bytes :=
  if (zlen plaintext =? 0) || (4294967295 <? zlen plaintext) then (ch, zeroHash, Err (ChRecord ErrRecordInvalid))
  else
    let '(ch, r) := onPair w 0 ch (fun p seen => match retry with
                                                 | None => beginOperationV1 p who slot seen
                                                 | Some id => retryOperationV1 p who id seen
                                                 end) in
    match r with
    | Err e => (ch, zeroHash, Err e)
    | Ok t =>
        if bool_decide (is_Some retry) && (tx_streamSlot t =? 0) then (ch, zeroHash, Err (ChRecord ErrRecordInvalid))
        else
          let fragment := mkFragment (tx_operationID t) 0 1 (wrap32 (zlen plaintext)) 0 plaintext in
          let ch := observeAllocationV1 ch (keyOf ch who) 1 (tx_recordEpoch t) (tx_streamSlot t) (tx_recordSequence t) in
          let '(ch, r) := ensureEnvelopeForLifeV1 w 1 ch who who in
          match r with
          | Err e => (ch, zeroHash, Err e)
          | Ok _ =>
              let '(ch, r) := sealFragment ch who t fragment in
              match r with
              | Err e => (ch, tx_operationID t, Err e)
              | Ok record => let '(ch, r) := publishRecordV1 w 2 ch who record in (ch, tx_operationID t, r)
              end
          end
    end.

Definition sealClientApplicationV1 w ch slot plaintext := sealApplicationV1 w ch Client slot plaintext None.
Definition sealRelayApplicationV1 w ch slot plaintext := sealApplicationV1 w ch Relay slot plaintext None.
Definition retryClientApplicationV1 w ch id plaintext := sealApplicationV1 w ch Client 0 plaintext (Some id).

(** The loop over the fragments; the first uses the coordinates of the operation. *)
Fixpoint sealFragments (w : world) (i : nat) (ch : strictProtectedChannelV1) (first : option operationTransmissionV1) (id : bytes)
    (fragments : list ApplicationFragmentV1) (records : list bytes) : strictProtectedChannelV1 * result channel_error (list bytes) :=
  match fragments with
  | [] => (ch, Ok records)
  | fragment :: fragments =>
      let '(ch, r) := match first with
                      | Some t => (ch, Ok t)
                      | None => onPair w i ch (fun p seen => reserveAdditionalFragmentV1 p Client id seen)
                      end in
      match r with
      | Err e => (ch, Err e)
      | Ok t =>
          let '(ch, r) := sealPreparedApplicationFragmentLockedV1 w (S i) ch Client t fragment in
          match r with
          | Err e => (ch, Err e)
          | Ok record => sealFragments w (S (S (S i))) ch None id fragments (records ++ [record])
          end
      end
  end.

Definition sealClientMultiFragmentV1 (w : world) (ch : strictProtectedChannelV1) (slot : Z) (plaintext : bytes) (lengths : list Z)
    : strictProtectedChannelV1 * bytes * result channel_error (list bytes) :=
  match fragmentSet (rs_maxOperation (pc_reassembly ch)) zeroHash plaintext lengths with
  | Err e => (ch, zeroHash, Err (ChRecord e))
  | Ok _ =>
      let '(ch, r) := onPair w 0 ch (fun p seen => canReserveFragmentSetV1 p Client slot (zlen lengths) (seen 0%nat)) in
      match r with
      | Err e => (ch, zeroHash, Err e)
      | Ok _ =>
          let '(ch, r) := onPair w 1 ch (fun p seen => beginOperationV1 p Client slot seen) in
          match r with
          | Err e => (ch, zeroHash, Err e)
          | Ok first =>
              let id := tx_operationID first in
              let '(ch, r) := sealFragments w 2 ch (Some first) id (cutFragments id plaintext (zlen lengths) 0 0 lengths) [] in
              (ch, id, r)
          end
      end
  end.

(** The acknowledgement of the relay. *)
Definition sealRelayAckV1 (w : world) (ch : strictProtectedChannelV1) (operationID : bytes) (retry : bool)
    : strictProtectedChannelV1 * result channel_error bytes :=
  let '(ch, r) := onPair w 0 ch (fun p seen => reserveOperationAckV1 p Relay operationID retry seen) in
  match r with
  | Err e => (ch, Err e)
  | Ok t =>
      let '(ch, r) := ensureEnvelopeForLifeV1 w 1 ch Relay Relay in
      match r with
      | Err e => (ch, Err e)
      | Ok _ =>
          let ch := observeAllocationV1 ch (pc_relayKey ch) 2 (at_recordEpoch t) 0 (at_recordSequence t) in
          let '(ch, r) := sealOn ch Relay (fun c => sealOperationAckV1 controlDirectionRelayV1 (pc_control ch) (at_recordEpoch t) (at_recordSequence t)
                                             (at_ack t) (controlSeal c RecordTypeOperationAckV1 controlDirectionRelayV1)) in
          match r with
          | Err e => (ch, Err e)
          | Ok record => publishRecordV1 w 2 ch Relay record
          end
      end
  end.

Definition sealCloseV1 (w : world) (ch : strictProtectedChannelV1) (who : side) : strictProtectedChannelV1 * result channel_error bytes :=
  let '(ch, r) := onPair w 0 ch (fun p seen => reserveCloseV1 p who seen) in
  match r with
  | Err e => (ch, Err e)
  | Ok (epoch, sequence) =>
      let ch := observeAllocationV1 ch (keyOf ch who) 2 epoch 0 sequence in
      let '(ch, r) := ensureEnvelopeForLifeV1 w 1 ch who who in
      match r with
      | Err e => (ch, Err e)
      | Ok _ =>
          let '(ch, r) := sealOn ch who (fun c => Records.sealCloseV1 (directionOf who) (pc_control ch) epoch sequence (mkClose CloseCodeTerminalV1)
                                           (controlSeal c RecordTypeCloseV1 (directionOf who))) in
          match r with
          | Err e => (ch, Err e)
          | Ok record => publishRecordV1 w 2 ch who record
          end
      end
  end.

(** ** Receiving *)

Definition discard (ch : strictProtectedChannelV1) (who : side) (capability : option nat) : strictProtectedChannelV1 :=
  match capability with
  | Some g => setEnvState ch who (fst (Discard (snd (envOf ch who)) g))
  | None => ch
  end.

(** [capability.Commit] as the replay authority of a lifecycle commit. *)
Definition replayCommit (c : EnvelopeCodecV1) (g : nat) (st : strictEnvelopeStateV1) : strictEnvelopeStateV1 * result lifecycle_error unit :=
  let '(st, r) := Commit c st g in (st, map_err ErrReplayCommit r).

Definition lookupIssuedOperationV1 (w : world) (i : nat) (ch : strictProtectedChannelV1) (sender : side) (slot epoch sequence : Z)
    : strictProtectedChannelV1 * option operationTransmissionV1 :=
  let ch := enter w i ch in
  let p := pc_pair ch in
  (ch, if negb (validStrictCandidateLockedV1 p (lifeOf p sender)) || pr_closed p then None
       else sd_issuedOperations (lf_send (lifeOf p sender)) !! mkKey slot epoch sequence).

Definition zeroAck : OperationAckV1 := mkAck zeroHash 0.

(** The bytes to hand on (none for a duplicate or an incomplete operation) and
    the acknowledgement. *)
Definition delivery (ch : strictProtectedChannelV1) (receiver : side) (payload : bytes) (ack : OperationAckV1) : option bytes * OperationAckV1 :=
  (if rc_lastCommitDeliver (lf_recv (lifeOf (pc_pair ch) receiver)) then Some payload else None, ack).

(** The lifecycle commit of an operation in critical section [i]; the closure owns
    the envelope state and the reassembly. *)
Definition commitOperation (w : world) (i : nat) (ch : strictProtectedChannelV1) (receiver : side) (t : operationTransmissionV1)
    (closure : strictEnvelopeStateV1 * strictFragmentReassemblyV1 -> (strictEnvelopeStateV1 * strictFragmentReassemblyV1) * result lifecycle_error unit)
    : strictProtectedChannelV1 * result channel_error OperationAckV1 :=
  let ch := enter w i ch in
  let '(s, p, r) := commitFirstAuthenticatedOperationV1 (pc_pair ch) receiver t (w_seen w i) closure (snd (envOf ch receiver), pc_reassembly ch) in
  (setPair (setReassembly (setEnvState ch receiver (fst s)) (snd s)) p, map_err ofLife r).

(** The channel's part of [acceptMultiFragmentV1]: [acceptFragment] asks for the
    commit exactly when it stores the fragment. The pair may be closed before the
    section on the reassembly, before the commit and before the entry is restored. *)
Definition acceptMultiFragmentOn (w : world) (i : nat) (ch : strictProtectedChannelV1) (receiver : side) (t : operationTransmissionV1)
    (header : ApplicationHeaderV1) (fragment : ApplicationFragmentV1) (g : nat)
    : strictProtectedChannelV1 * result channel_error (option bytes * OperationAckV1) :=
  let ch := enter w i ch in
  let c := fst (envOf ch receiver) in
  let '(stored, out) := acceptFragment (pc_reassembly ch) header fragment true in
  match out with
  | FragStored =>
      let '(st, r) := Commit c (snd (envOf ch receiver)) g in
      let ch := setEnvState ch receiver st in
      match r with
      | Err e => (setReassembly ch (fst (acceptFragment (pc_reassembly ch) header fragment false)), Err (ChSecurity e))
      | Ok _ => (setReassembly ch stored, Ok (None, zeroAck))
      end
  | FragAssembled assembled =>
      let commitFinal s :=
        let '(st, r) := replayCommit c g (fst s) in
        match r with
        | Err e => ((st, snd s), Err e)
        | Ok _ => ((st, finishFragment (snd s) (fr_OperationID fragment) (fr_OperationLength fragment) true), Ok tt)
        end in
      let '(ch, r) := commitOperation w (S i) (setReassembly ch stored) receiver t commitFinal in
      match r with
      | Err e =>
          let ch := enter w (S (S i)) ch in
          (discard (setReassembly ch (finishFragment (pc_reassembly ch) (fr_OperationID fragment) (fr_OperationLength fragment) false))
                    receiver (Some g), Err e)
      | Ok ack => (ch, Ok (delivery ch receiver assembled ack))
      end
  | _ => (discard (setReassembly ch stored) receiver (Some g), Err (ChRecord ErrRecordInvalid))
  end.

(** An application record from [sender]; the bytes to deliver and the
    acknowledgement. The error of the envelope itself is returned unchanged. *)
Definition openApplicationV1 (w : world) (ch : strictProtectedChannelV1) (sender : side) (record : bytes)
    : strictProtectedChannelV1 * result channel_error (option bytes * OperationAckV1) :=
  let receiver := peerOf sender in
  let '(ch, r) := guardOpenV1 w 0 ch receiver in
  match r with
  | Err e => (ch, Err e)
  | Ok _ =>
      match parseApplicationRecordV1 record (directionOf sender) (cx_MaxEnvelopeBytes (pc_context ch)) with
      | Err _ => (ch, Err (ChRecord ErrRecordInvalid))
      | Ok (header, _) =>
          let '(ch, r) := ensureEnvelopeForLifeV1 w 1 ch sender receiver in
          match r with
          | Err e => (ch, Err e)
          | Ok _ =>
              let c := fst (envOf ch receiver) in
              let open (s : strictEnvelopeStateV1 * option nat * option env_error) envelope :=
                let '(s', r) := applicationOpen c (fst s) envelope in
                ((s', match r with Err e => Some e | Ok _ => snd s end), r) in
              let '(s, r) := openApplicationFragmentV1 (directionOf sender) (pc_context ch) record open (snd (envOf ch receiver), None, None) in
              let '(st, capability, authErr) := s in
              let ch := setEnvState ch receiver st in
              match r, capability with
              | Err e, _ => (discard ch receiver capability, Err (match authErr with Some a => ChSecurity a | None => ChRecord e end))
              | Ok _, None => (ch, Err (ChRecord ErrRecordInvalid))      (* not reached: an opened record was authenticated *)
              | Ok fragment, Some g =>
                  let '(ch, found) := lookupIssuedOperationV1 w 2 ch sender (ah_StreamSlot header) (ah_Epoch header) (ah_Sequence header) in
                  match found with
                  | None => (discard ch receiver capability, Err (ChRecord ErrRecordInvalid))
                  | Some t =>
                      if negb (bool_decide (tx_operationID t = fr_OperationID fragment)) then
                        (discard ch receiver capability, Err (ChRecord ErrRecordInvalid))
                      else if negb (fr_FragmentCount fragment =? 1) then acceptMultiFragmentOn w 3 ch receiver t header fragment g
                      else if negb (fr_FragmentIndex fragment =? 0) || negb (fr_FragmentOffset fragment =? 0)
                              || negb (wrap32 (zlen (fr_Fragment fragment)) =? fr_OperationLength fragment) then
                        (discard ch receiver capability, Err (ChRecord ErrRecordInvalid))
                      else
                        let '(ch, r) := commitOperation w 3 ch receiver t
                                          (fun s => let '(st, r) := replayCommit c g (fst s) in ((st, snd s), r)) in
                        match r with
                        | Err e => (discard ch receiver capability, Err e)
                        | Ok ack => (ch, Ok (delivery ch receiver (fr_Fragment fragment) ack))
                        end
                  end
              end
          end
      end
  end.

Definition openClientApplicationV1 w ch record := openApplicationV1 w ch Client record.
Definition openRelayApplicationV1 w ch record := openApplicationV1 w ch Relay record.

Definition openRelayAckV1 (w : world) (ch : strictProtectedChannelV1) (record : bytes) : strictProtectedChannelV1 * result channel_error unit :=
  let '(ch, r) := guardOpenV1 w 0 ch Client in
  match r with
  | Err e => (ch, Err e)
  | Ok _ =>
      match parseControlRecordV1 record controlDirectionRelayV1 RecordTypeOperationAckV1 with
      | Err _ => (ch, Err (ChRecord ErrOperationAckInvalid))
      | Ok (header, _) =>
          let '(ch, r) := ensureEnvelopeForLifeV1 w 1 ch Relay Client in
          match r with
          | Err e => (ch, Err e)
          | Ok _ =>
              let c := fst (pc_clientEnvelope ch) in
              let open (s : strictEnvelopeStateV1 * option nat * bool) epoch sequence sealed aad :=
                let '(s', r) := controlOpen c RecordTypeOperationAckV1 controlDirectionRelayV1 (fst s) epoch sequence sealed aad in
                ((s', snd s || negb (isOk r)), r) in
              let '(s, r) := openOperationAckV1 controlDirectionRelayV1 (pc_control ch) record open (snd (pc_clientEnvelope ch), None, false) in
              let '(st, capability, authErr) := s in
              let ch := setEnvState ch Client st in
              match r, capability with
              | Err e, _ => (discard ch Client capability, Err (if authErr : bool then ChAckAuth else ChRecord ErrOperationAckInvalid))
              | Ok _, None => (ch, Err (ChRecord ErrOperationAckInvalid))      (* not reached, as above *)
              | Ok ack, Some g =>
                  let ch := enter w 2 ch in
                  let '(st, p, r) := commitStrictAuthenticatedOperationAckV1 (pc_pair ch) Client (ch_Direction header) (ch_Epoch header) (ch_Sequence header)
                                       ack (w_seen w 2) (replayCommit c g) (snd (pc_clientEnvelope ch)) in
                  let ch := setPair (setEnvState ch Client st) p in
                  match r with
                  | Err e => (discard ch Client capability, Err (ofLife e))
                  | Ok _ => (ch, Ok tt)
                  end
              end
          end
      end
  end.

(** A close that does not authenticate closes the pair as well ([terminal]). *)
Definition openCloseV1 (w : world) (ch : strictProtectedChannelV1) (sender : side) (record : bytes)
    : strictProtectedChannelV1 * result channel_error unit :=
  let receiver := peerOf sender in
  let terminal ch := (closeChannel ch, Err (ChSecurity (Sentinel ErrAuthenticationFailed))) in
  let '(ch, r) := guardOpenV1 w 0 ch receiver in
  match r with
  | Err e => (ch, Err e)
  | Ok _ =>
      match parseControlRecordV1 record (directionOf sender) RecordTypeCloseV1 with
      | Err _ => terminal ch
      | Ok (header, _) =>
          let '(ch, r) := ensureEnvelopeForLifeV1 w 1 ch sender receiver in
          match r with
          | Err _ => terminal ch
          | Ok senderEpoch =>
              let c := fst (envOf ch receiver) in
              let '(s, r) := Records.openCloseV1 (directionOf sender) (pc_control ch) record (controlOpen c RecordTypeCloseV1 (directionOf sender))
                               (snd (envOf ch receiver), None) in
              let '(st, capability) := s in
              let ch := setEnvState ch receiver st in
              match r, capability with
              | Err _, _ => terminal (discard ch receiver capability)
              | Ok _, None => terminal ch
              | Ok _, Some g =>
                  if negb (ch_Epoch header =? senderEpoch) then terminal (discard ch receiver capability)
                  else
                    let '(st, r) := Commit c (snd (envOf ch receiver)) g in
                    let ch := setEnvState ch receiver st in
                    match r with
                    | Err _ => terminal ch
                    | Ok _ => (closeChannel ch, Ok tt)
                    end
              end
          end
      end
  end.

End operations.
