(* ===== verification/SecureChannelFacts.v ===== *)
(** * What the protected channel guarantees

    Runs of channel operations by both ends, on any records the network delivers and
    under any interference of other goroutines. [channel_refines_lifecycle]: the
    pair moves as the lifecycle alone would, and what is handed on is what the
    lifecycle delivers. [published_positions_unique] and [no_nonce_collisions]: no
    two published records carry the same coordinates, and the channel's own observer
    never counts a collision. [forged_record_blocks_acks] is the case where a
    record that fails authentication stops the channel. *)

From S2P Require Import Prelude GoBytes SecurityErrors Ir KeySchedule Replay Nonce Transcript StrictConfig Envelope EnvelopeFacts Records RecordFacts Channel Lifecycle LifecycleFacts LifecycleState LifecycleProgress SecureChannel.
From Stdlib Require Import ZArith Lia Strings.Byte.
From stdpp Require Import base list gmap strings.
Local Open Scope Z_scope.

(** ** Runs *)

Inductive channelOp :=
  | SealApplication (w : world) (who : side) (slot : Z) (plaintext : bytes) (retry : option bytes)
  | SealMultiFragment (w : world) (slot : Z) (plaintext : bytes) (lengths : list Z)
  | SealAck (w : world) (id : bytes) (retry : bool)
  | SealClose (w : world) (who : side)
  | OpenApplication (w : world) (sender : side) (record : bytes)
  | OpenAck (w : world) (record : bytes)
  | OpenClose (w : world) (sender : side) (record : bytes)
  | CloseEndpoint.

(** What leaves the channel: records for the network, operations for the
    application. *)
Inductive output :=
  | Published (who : side) (record : bytes)
  | HandedOn (who : side) (id payload : bytes).

Section runs.
Context `{Primitives} `{Cipher}.

Definition publishes (who : side) (r : result channel_error bytes) : list output := match r with Ok record => [Published who record] | Err _ => [] end.

Definition channelStep (op : channelOp) (ch : strictProtectedChannelV1) : strictProtectedChannelV1 * list output :=
  match op with
  | SealApplication w who slot plaintext retry => let '(ch, _, r) := sealApplicationV1 w ch who slot plaintext retry in (ch, publishes who r)
  | SealMultiFragment w slot plaintext lengths =>
      let '(ch, _, r) := sealClientMultiFragmentV1 w ch slot plaintext lengths in
      (ch, match r with Ok records => Published Client <$> records | Err _ => [] end)
  | SealAck w id retry => let '(ch, r) := sealRelayAckV1 w ch id retry in (ch, publishes Relay r)
  | SealClose w who => let '(ch, r) := sealCloseV1 w ch who in (ch, publishes who r)
  | OpenApplication w sender record =>
      let '(ch, r) := openApplicationV1 w ch sender record in
      (ch, match r with Ok (Some payload, ack) => [HandedOn (peerOf sender) (ack_OperationID ack) payload] | _ => [] end)
  | OpenAck w record => (fst (openRelayAckV1 w ch record), [])
  | OpenClose w sender record => (fst (openCloseV1 w ch sender record), [])
  | CloseEndpoint => (closeChannel ch, [])
  end.

Fixpoint runChannel (ops : list channelOp) (ch : strictProtectedChannelV1) : strictProtectedChannelV1 * list output :=
  match ops with
  | [] => (ch, [])
  | op :: ops => let '(ch, now) := channelStep op ch in let '(ch, later) := runChannel ops ch in (ch, now ++ later)
  end.
End runs.

Definition published (who : side) : list output -> list bytes :=
  omap (fun o => match o with Published w record => if bool_decide (w = who) then Some record else None | _ => None end).
Definition handedOn (who : side) : list output -> list bytes :=
  omap (fun o => match o with HandedOn w id _ => if bool_decide (w = who) then Some id else None | _ => None end).

(** The record's header says epoch, slot and sequence. *)
Definition carries (who : side) (record : bytes) (position : Z * Z * Z) : Prop :=
  let '(e, slot, q) := position in
  (exists n sealed, u32 n /\ record = encodeApplicationHeaderV1 (mkAppHeader 1 1 e (directionOf who) slot q n) ++ sealed) \/
  (exists recordType n sealed, slot = 0 /\ controlSealedLengthV1 recordType = Some n /\
    record = encodeControlHeaderV1 (mkControlHeader 1 recordType e (directionOf who) q n) ++ sealed).

(** The position that a receiver reads from the bytes of a record of [who]: the
    type says which of the two headers it has. *)
Definition wirePosition (who : side) (record : bytes) : option (Z * Z * Z) :=
  if beAt 2 4 record =? RecordTypeApplicationFragmentV1 then
    match parseApplicationHeaderV1 (ztake applicationHeaderBytesV1 record) with
    | Ok h => if ah_Direction h =? directionOf who then Some (ah_Epoch h, ah_StreamSlot h, ah_Sequence h) else None
    | Err _ => None
    end
  else
    match parseControlHeaderV1 (ztake controlHeaderBytesV1 record) with
    | Ok h => if ch_Direction h =? directionOf who then Some (ch_Epoch h, 0, ch_Sequence h) else None
    | Err _ => None
    end.

Lemma carries_position who record e slot q : carries who record (e, slot, q) -> u64 e -> u16 slot -> u64 q -> wirePosition who record = Some (e, slot, q).
Proof.
  intros HC He Hs Hq. assert (Hd : u16 (directionOf who)) by (destruct who; unfold_widths; cbv; split; congruence). unfold wirePosition.
  destruct HC as [(n & sealed & Hn & ->)|(t & n & sealed & -> & Hl & ->)].
  - set (h := mkAppHeader _ _ _ _ _ _ _). assert (HT : typedAppHeader h) by (constructor; done || (unfold_widths; cbn; lia)).
    assert (beAt 2 4 (encodeApplicationHeaderV1 h ++ sealed) = 1) as ->.
    { unfold encodeApplicationHeaderV1. rewrite <- !app_assoc. read_field. by apply get_field16. }
    unfold applicationHeaderBytesV1. rewrite <- (zlen_appHeader h), ztake_app, (parse_appHeader h HT). cbn. by rewrite Z.eqb_refl.
  - assert (Ht : t = RecordTypeOperationAckV1 /\ n = operationAckSealedBytesV1 \/ t = RecordTypeCloseV1 /\ n = closeSealedBytesV1).
    { unfold controlSealedLengthV1 in Hl. repeat case_match; simplify_eq; rewrite ?Z.eqb_eq in *; auto. }
    set (h := mkControlHeader _ _ _ _ _ _).
    assert (HT : typedControlHeader h) by (destruct Ht as [[-> ->]|[-> ->]]; constructor; done || (unfold_widths; cbn; lia)).
    assert (beAt 2 4 (encodeControlHeaderV1 h ++ sealed) = t) as ->.
    { unfold encodeControlHeaderV1. rewrite <- !app_assoc. read_field. apply get_field16, HT. }
    assert (t =? RecordTypeApplicationFragmentV1 = false) as -> by by destruct Ht as [[-> _]|[-> _]].
    unfold controlHeaderBytesV1. rewrite <- (zlen_controlHeader h), ztake_app, (parse_controlHeader h HT). cbn. by rewrite Z.eqb_refl.
Qed.

(** The position as the nonce sees it: slots matter where they have sequences of
    their own. *)
Definition inDomain (partition : bool) (position : Z * Z * Z) : Z * Z * Z :=
  let '(e, slot, q) := position in (e, if partition then slot else 0, q).

Lemma application_header `{Cipher} who context c e q slot fragment st st' record :
  sealApplicationFragmentV1 (directionOf who) context slot fragment (applicationSeal c e q) st = (st', Ok record) ->
  exists n sealed, u32 n /\ record = encodeApplicationHeaderV1 (mkAppHeader 1 1 e (directionOf who) slot q n) ++ sealed.
Proof.
  unfold sealApplicationFragmentV1, applicationSeal. destruct (applicationExpectedClassV1 context); [|done]. case_match; [done|]. cbv zeta. case_match; [done|].
  destruct (SealApplicationV1 _ _ _ _) as [[st1 x] [env|err]]; cbn [rbind]; [|done].
  destruct (negb (er_Epoch env =? e) || negb (er_Sequence env =? q)) eqn:G; cbn [reject rbind]; [done|].
  destruct (_ || (_ <? er_SealedLength env)) eqn:G2; [done|]. intros HR. injection HR as _ <-.
  rewrite !orb_false_iff, !negb_false_iff, !Z.eqb_eq in G. rewrite !orb_false_iff, !negb_false_iff, !Z.eqb_eq in G2.
  destruct G as [-> ->], G2 as [[[[[_ ->] ->] Hn] _] _]. exists (er_SealedLength env), (er_Ciphertext env). split; [|done]. rewrite Hn. by apply wrap_range.
Qed.

Lemma control_header {S} who control e q recordType n body (seal : @ControlSealV1 S) s s' record :
  sealControlRecordV1 control e (directionOf who) q recordType n body seal s = (s', Ok record) ->
  exists sealed, record = encodeControlHeaderV1 (mkControlHeader 1 recordType e (directionOf who) q n) ++ sealed.
Proof. unfold sealControlRecordV1. destruct (seal _ _ _ _ _) as [s1 [sealed|err]]; [|done]. case_match; [done|]. intros HR. injection HR as _ <-. eauto. Qed.

Lemma application_carries `{Cipher} who context c e q slot fragment st st' record :
  sealApplicationFragmentV1 (directionOf who) context slot fragment (applicationSeal c e q) st = (st', Ok record) -> carries who record (e, slot, q).
Proof. intros (n & sealed & Hn & ->)%application_header. left. eauto. Qed.

Lemma control_carries {S} who control e q recordType n body (seal : @ControlSealV1 S) s s' record : controlSealedLengthV1 recordType = Some n ->
  sealControlRecordV1 control e (directionOf who) q recordType n body seal s = (s', Ok record) -> carries who record (e, 0, q).
Proof. intros Hl (sealed & ->)%control_header. right. eauto 10. Qed.

Lemma carried_positions who records cs : Forall2 (carries who) records cs -> (forall e slot q, (e, slot, q) ∈ cs -> u64 e /\ u16 slot /\ u64 q) ->
  wirePosition who <$> records = Some <$> cs.
Proof.
  induction 1 as [|record [[e slot] q] records cs HC _ IH]; intros HT; [done|]. cbn. destruct (HT e slot q) as (He & Hs & Hq); [left|].
  rewrite (carries_position _ _ _ _ _ HC), IH; [done| |done..]. intros e' s' q' Hin. apply HT. by right.
Qed.

Lemma position_reserved who e slot q tr : (e, slot, q) ∈ positionsOf true who tr -> Reserved who e slot q ∈ tr.
Proof.
  unfold positionsOf. rewrite list_elem_of_omap. intros (ev & Hin & Hev). destruct ev; try done. case_bool_decide; [|done]. by simplify_eq.
Qed.

Lemma positions_domain b who tr : positionsOf b who tr = inDomain b <$> positionsOf true who tr.
Proof. unfold positionsOf. induction tr as [|[w e s q| | |] tr IH]; [done|..]; cbn; try done. case_bool_decide; cbn; by rewrite IH. Qed.

(** The slots that callers pass. *)
Definition slotsOf (P : Z -> Prop) (op : channelOp) : Prop :=
  match op with SealApplication _ _ slot _ _ | SealMultiFragment _ slot _ _ => P slot | _ => True end.

(** ** The invariant *)

Section invariant.
Context `{Primitives} `{Cipher}.
Context (p0 : pairV1) (partition : bool) (clientKey relayKey : Z) (keys_differ : clientKey <> relayKey) (P : Z -> Prop).
Context (positions_unique : forall ops who, NoDup (positionsOf partition who (snd (runOps ops p0)))).

Definition keyFor (who : side) : Z := match who with Client => clientKey | Relay => relayKey end.

(** [pending] are positions that were reserved and not published yet. *)
Record inv (ch : strictProtectedChannelV1) (log : list output) (pending : side -> list (Z * Z * Z)) (tr : list event) : Prop := {
  iv_reached : exists ops, Forall (slotOk P) ops /\ runOps ops p0 = (pc_pair ch, tr);
  iv_keys : forall who, keyOf ch who = keyFor who;
  iv_clean : ob_collisions (pc_observer ch) = 0;
  iv_seen : forall o, o ∈ ob_seen (pc_observer ch) -> exists who class e slot q, o = (keyFor who, class, e, slot, q) /\ Reserved who e slot q ∈ tr;
  iv_handed : forall who, (delivered who tr).*2 = handedOn who log;
  iv_published : forall who, exists cs, Forall2 (carries who) (published who log) cs /\
    cs ++ pending who `sublist_of` positionsOf true who tr;
}.

Definition nothing : side -> list (Z * Z * Z) := fun _ => [].
Definition just (who : side) (l : list (Z * Z * Z)) : side -> list (Z * Z * Z) := fun w => if bool_decide (w = who) then l else [].

(** Envelopes and the reassembly do not matter. *)
Lemma inv_frame ch ch' log pending tr : inv ch log pending tr ->
  pc_pair ch' = pc_pair ch -> pc_observer ch' = pc_observer ch -> (forall who, keyOf ch' who = keyOf ch who) -> inv ch' log pending tr.
Proof using Type. intros [I1 I2 I3 I4 I5 I6] E1 E2 E3. constructor; rewrite ?E1, ?E2; try done. intros who. by rewrite E3. Qed.

Lemma inv_drop ch log pending tr : inv ch log pending tr -> inv ch log nothing tr.
Proof using Type.
  intros [I1 I2 I3 I4 I5 I6]. constructor; try done. intros who. destruct (I6 who) as (cs & F & S). exists cs. split; [done|].
  etrans; [|exact S]. rewrite app_nil_r. by apply sublist_inserts_r.
Qed.

Lemma runOps_snoc ops op p : runOps (ops ++ [op]) p = (fst (exec op (fst (runOps ops p))), snd (runOps ops p) ++ snd (exec op (fst (runOps ops p)))).
Proof using Type.
  revert p. induction ops as [|o ops IH]; intros p; cbn [app runOps fst snd].
  - destruct (exec op p) as [p1 now]. cbn. by rewrite app_nil_r.
  - destruct (exec o p) as [p1 now]. rewrite IH. destruct (runOps ops p1) as [p2 later]. cbn. by rewrite app_assoc.
Qed.

(** One lifecycle operation that delivers nothing. *)
Lemma inv_exec ch log pending tr op p evs : inv ch log pending tr -> exec op (pc_pair ch) = (p, evs) -> slotOk P op -> (forall who, delivered who evs = []) ->
  inv (setPair ch p) log pending (tr ++ evs).
Proof using Type.
  intros [(ops & I0 & I1) I2 I3 I4 I5 I6] HE HO HD. constructor; try done.
  - exists (ops ++ [op]). split; [by apply Forall_app; split; [|constructor]|]. by rewrite runOps_snoc, I1; cbn [fst snd]; rewrite HE.
  - intros o Ho. destruct (I4 o Ho) as (who & class & e & slot & q & -> & Hin). exists who, class, e, slot, q. split; [done|]. apply elem_of_app. by left.
  - intros who. by rewrite delivered_app, HD, app_nil_r.
  - intros who. destruct (I6 who) as (cs & F & S). exists cs. split; [done|]. rewrite positionsOf_app. by apply sublist_inserts_r.
Qed.

Lemma inv_close ch log pending tr : inv ch log pending tr -> inv (closeChannel ch) log pending tr.
Proof using Type. intros HI. rewrite <- (app_nil_r tr). by apply (inv_exec ch log pending tr DoShut). Qed.

Lemma inv_enter w i ch log pending tr : inv ch log pending tr -> inv (enter w i ch) log pending tr.
Proof using Type. intros HI. unfold enter. destruct (w_shut w i); [by apply inv_close|done]. Qed.

(** ** Sending *)

Definition unseen (ch : strictProtectedChannelV1) (who : side) (e slot q : Z) : Prop :=
  forall class, (keyFor who, class, e, slot, q) ∉ ob_seen (pc_observer ch).

Lemma keyFor_inj who w : keyFor who = keyFor w -> who = w.
Proof using keys_differ. destruct who, w; cbn; intros; congruence. Qed.

Lemma reserved_position who e slot q tr : Reserved who e slot q ∈ tr -> inDomain partition (e, slot, q) ∈ positionsOf partition who tr.
Proof using Type. intros Hin. apply list_elem_of_omap. eexists. split; [exact Hin|]. cbn. by rewrite bool_decide_eq_true_2. Qed.

(** One lifecycle operation that reserves a position. *)
Lemma inv_reserve ch log who l tr op p e slot q rest : inv ch log (just who l) tr -> slotOk P op -> exec op (pc_pair ch) = (p, Reserved who e slot q :: rest) ->
  (forall w, delivered w rest = []) -> (forall b w, positionsOf b w rest = []) ->
  inv (setPair ch p) log (just who (l ++ [(e, slot, q)])) (tr ++ Reserved who e slot q :: rest) /\ unseen (setPair ch p) who e slot q.
Proof using keys_differ positions_unique.
  intros HI HO HE HD HP. pose proof (inv_exec _ _ _ _ _ _ _ HI HE HO HD) as HX. destruct HI as [_ _ _ I4 _ I6], HX as [X1 X2 X3 X4 X5 X6].
  assert (HPos : forall b, positionsOf b who (tr ++ Reserved who e slot q :: rest) = positionsOf b who tr ++ [inDomain b (e, slot, q)]).
  { intros b. rewrite positionsOf_app. f_equal. change (Reserved who e slot q :: rest) with ([Reserved who e slot q] ++ rest). rewrite positionsOf_app, HP, app_nil_r.
    cbn. by rewrite bool_decide_eq_true_2. }
  split.
  - constructor; try done. intros w. destruct (decide (w = who)) as [->|Hw].
    + destruct (I6 who) as (cs & F & S). exists cs. split; [done|]. unfold just in *. rewrite bool_decide_eq_true_2 in S |- * by done.
      rewrite HPos, app_assoc. by apply sublist_app.
    + destruct (X6 w) as (cs & F & S). exists cs. split; [done|]. unfold just in *. by rewrite bool_decide_eq_false_2 in S |- * by done.
  - intros class Hin. change (pc_observer (setPair ch p)) with (pc_observer ch) in Hin.
    destruct (I4 _ Hin) as (w & class' & e' & slot' & q' & E & HR). injection E as Hk _ <- <- <-. apply keyFor_inj in Hk as <-.
    destruct X1 as (ops & _ & X1). pose proof (positions_unique ops who) as HN. rewrite X1 in HN. cbn [snd] in HN. rewrite HPos in HN.
    apply NoDup_app in HN as (_ & HN & _). apply (HN _ (reserved_position _ _ _ _ _ HR)), list_elem_of_singleton. done.
Qed.

Lemma inv_observe ch log pending tr who class e slot q : inv ch log pending tr -> unseen ch who e slot q -> Reserved who e slot q ∈ tr ->
  inv (observeAllocationV1 ch (keyOf ch who) class e slot q) log pending tr.
Proof using Type.
  intros [I1 I2 I3 I4 I5 I6] HU HR. constructor; try done.
  - cbn. rewrite I2, bool_decide_eq_false_2 by apply HU. done.
  - intros o. cbn. rewrite elem_of_union, elem_of_singleton. intros [->|Ho]; [|by apply I4]. rewrite I2. eauto 10.
Qed.

Lemma inv_log ch log who ps tr records : inv ch log (just who ps) tr -> Forall2 (carries who) records ps ->
  inv ch (log ++ (Published who <$> records)) nothing tr.
Proof using Type.
  intros [I1 I2 I3 I4 I5 I6] HF. constructor; try done.
  - intros w. rewrite I5. unfold handedOn. rewrite omap_app. symmetry. rewrite <- (app_nil_r (omap _ log)) at 2. f_equal. clear. by induction records.
  - intros w. destruct (I6 w) as (cs & F & S). unfold published in *. rewrite omap_app. unfold just in S. destruct (decide (w = who)) as [->|Hw].
    + exists (cs ++ ps). rewrite bool_decide_eq_true_2 in S by done. split; [|by rewrite app_nil_r].
      apply Forall2_app; [done|]. assert (omap _ (Published who <$> records) = records) as ->; [|done]. clear.
      induction records as [|r records IH]; [done|]. cbn. by rewrite bool_decide_eq_true_2, IH.
    + exists cs. rewrite bool_decide_eq_false_2 in S by done. split; [|done].
      assert (omap _ (Published who <$> records) = []) as ->; [|by rewrite app_nil_r]. clear -Hw.
      induction records as [|r records IH]; [done|]. cbn. by rewrite bool_decide_eq_false_2.
Qed.

Lemma inv_setEnv ch who env epoch log pending tr : inv ch log pending tr -> inv (setEnv ch who env epoch) log pending tr.
Proof using Type. intros HI. eapply inv_frame; [exact HI|by destruct who..|]. intros w. by destruct who. Qed.

Lemma inv_ensure w i ch who role log pending tr : inv ch log pending tr -> inv (fst (ensureEnvelopeForLifeV1 w i ch who role)) log pending tr.
Proof using Type.
  intros HI. unfold ensureEnvelopeForLifeV1, ensureRoleEnvelopeV1. apply (inv_enter w i) in HI.
  repeat case_match; simplify_eq/=; auto using inv_setEnv.
Qed.

Lemma ensure_observer w i ch who role : pc_observer (fst (ensureEnvelopeForLifeV1 w i ch who role)) = pc_observer ch.
Proof using Type.
  unfold ensureEnvelopeForLifeV1, ensureRoleEnvelopeV1, enter. destruct (w_shut w i); repeat case_match; simplify_eq/=; try done; by destruct role.
Qed.

Lemma inv_publish w i ch who record log pending tr : inv ch log pending tr ->
  inv (fst (publishRecordV1 w i ch who record)) log pending tr /\ forall r, snd (publishRecordV1 w i ch who record) = Ok r -> r = record.
Proof using Type.
  intros HI. unfold publishRecordV1. apply (inv_enter w i) in HI. destruct (_ || negb (bool_decide _)); [done|]. destruct (negb (isOk _)); cbn.
  - split; [by apply inv_close|done].
  - split; [done|]. by intros r [= ->].
Qed.

(** A sealed record goes through publication and becomes an output. *)
Lemma inv_sealed w i ch who record log pos tr : inv ch log (just who [pos]) tr -> carries who record pos ->
  inv (fst (publishRecordV1 w i ch who record)) (log ++ publishes who (snd (publishRecordV1 w i ch who record))) nothing tr.
Proof using Type.
  intros HI HC. destruct (inv_publish w i _ who record _ _ _ HI) as [HP HR]. destruct (snd (publishRecordV1 _ _ _ _ _)) as [r|err] eqn:E; cbn [publishes].
  - rewrite (HR r eq_refl). by apply (inv_log _ _ who [pos] _ [record]); [|constructor].
  - rewrite app_nil_r. by eapply inv_drop.
Qed.

(** The reservations, seen as lifecycle operations. *)
Lemma reserve_operation {A} w i ch log tr who (f : pairV1 -> (nat -> profileView) -> pairV1 * result lifecycle_error A) op (pos : A -> Z * Z * Z) rest ch' r l :
  inv ch log (just who l) tr ->
  (forall p, exec (op (w_seen w i)) p = (fst (f p (w_seen w i)),
     events (snd (f p (w_seen w i))) (fun t => Reserved who (pos t).1.1 (pos t).1.2 (pos t).2 :: rest t))) ->
  (forall t w, delivered w (rest t) = []) -> (forall t b w, positionsOf b w (rest t) = []) -> slotOk P (op (w_seen w i)) ->
  onPair w i ch f = (ch', r) ->
  match r with
  | Ok t => exists tr', inv ch' log (just who (l ++ [pos t])) tr' /\ unseen ch' who (pos t).1.1 (pos t).1.2 (pos t).2 /\
              Reserved who (pos t).1.1 (pos t).1.2 (pos t).2 ∈ tr'
  | Err _ => exists tr', inv ch' log (just who l) tr'
  end.
Proof using keys_differ positions_unique.
  intros HI HE HD HP HS HO. apply (inv_enter w i) in HI. unfold onPair in HO. set (c1 := enter w i ch) in *. specialize (HE (pc_pair c1)).
  destruct (f (pc_pair c1) (w_seen w i)) as [p [t|err]]; cbn [fst snd events map_err] in *; injection HO as <- <-.
  - destruct (inv_reserve _ _ _ _ _ _ _ _ _ _ _ HI HS HE (HD t) (HP t)) as [HX HU]. destruct (pos t) as [[e s] q]. cbn in *. eexists. split; [exact HX|].
    split; [done|]. apply elem_of_app. right. left.
  - eexists. by eapply inv_exec; [exact HI|exact HE|exact HS|].
Qed.

Definition txPosition (t : operationTransmissionV1) : Z * Z * Z := (tx_recordEpoch t, tx_streamSlot t, tx_recordSequence t).

Lemma sealFragment_inv ch who t fragment log pending tr : inv ch log pending tr ->
  inv (fst (sealFragment ch who t fragment)) log pending tr /\
  forall record, snd (sealFragment ch who t fragment) = Ok record -> carries who record (txPosition t).
Proof using Type.
  intros HI. unfold sealFragment, sealOn, setEnvState. destruct (sealApplicationFragmentV1 _ _ _ _ _ _) as [st r] eqn:E. cbn. split; [by apply inv_setEnv|].
  intros record HR. apply map_err_ok in HR as ->. by eapply application_carries.
Qed.

Lemma just_nil who ch log tr : inv ch log nothing tr <-> inv ch log (just who []) tr.
Proof using Type.
  split; intros [I1 I2 I3 I4 I5 I6]; constructor; try done; intros w; destruct (I6 w) as (cs & F & S); exists cs; (split; [done|]); unfold just, nothing in *;
    by destruct (bool_decide (w = who)).
Qed.

(** A prepared fragment: its position is reserved, pending and unseen. *)
Lemma sealPrepared_inv w i ch who t fragment log l tr : inv ch log (just who l) tr -> unseen ch who (tx_recordEpoch t) (tx_streamSlot t) (tx_recordSequence t) ->
  Reserved who (tx_recordEpoch t) (tx_streamSlot t) (tx_recordSequence t) ∈ tr ->
  inv (fst (sealPreparedApplicationFragmentLockedV1 w i ch who t fragment)) log (just who l) tr /\
  forall record, snd (sealPreparedApplicationFragmentLockedV1 w i ch who t fragment) = Ok record -> carries who record (txPosition t).
Proof using Type.
  intros HI HU HR. unfold sealPreparedApplicationFragmentLockedV1. apply (fun HX => inv_observe _ _ _ _ who 1 _ _ _ HX HU HR) in HI.
  set (c1 := observeAllocationV1 _ _ _ _ _ _) in *. apply (inv_ensure w i _ who who) in HI. destruct (ensureEnvelopeForLifeV1 w i c1 who who) as [c2 [x|e]]; cbn in *; [|done].
  destruct (sealFragment_inv c2 who t fragment _ _ _ HI) as [G1 G2]. destruct (sealFragment c2 who t fragment) as [c3 [record|e]]; cbn in *; [|done].
  destruct (inv_publish w (S i) c3 who record _ _ _ G1) as [G3 G4]. split; [done|]. intros r ->%G4. by apply G2.
Qed.

Lemma begin_exec who slot seen p : exec (DoBegin who slot seen) p = (fst (beginOperationV1 p who slot seen),
  events (snd (beginOperationV1 p who slot seen)) (fun t => Reserved who (txPosition t).1.1 (txPosition t).1.2 (txPosition t).2 ::
     [Begun who (tx_operationSequence t) (tx_operationID t)])).
Proof using Type. cbn [exec]. by destruct (beginOperationV1 p who slot seen). Qed.

Lemma retry_exec who id seen p : exec (DoRetry who id seen) p = (fst (retryOperationV1 p who id seen),
  events (snd (retryOperationV1 p who id seen)) (fun t => Reserved who (txPosition t).1.1 (txPosition t).1.2 (txPosition t).2 :: [])).
Proof using Type. cbn [exec]. by destruct (retryOperationV1 p who id seen). Qed.

Lemma fragment_exec who id seen p : exec (DoFragment who id seen) p = (fst (reserveAdditionalFragmentV1 p who id seen),
  events (snd (reserveAdditionalFragmentV1 p who id seen)) (fun t => Reserved who (txPosition t).1.1 (txPosition t).1.2 (txPosition t).2 :: [])).
Proof using Type. cbn [exec]. by destruct (reserveAdditionalFragmentV1 p who id seen). Qed.

Lemma sealApplication_inv w ch who slot plaintext retry log tr : P slot -> inv ch log nothing tr ->
  exists tr', inv (sealApplicationV1 w ch who slot plaintext retry).1.1 (log ++ publishes who (sealApplicationV1 w ch who slot plaintext retry).2) nothing tr'.
Proof using keys_differ positions_unique.
  intros HSl HI. unfold sealApplicationV1. case_match; [exists tr; cbn [publishes fst snd]; by rewrite app_nil_r|]. apply (just_nil who) in HI.
  destruct (onPair _ _ _ _) as [c1 r] eqn:HO.
  assert (match r with
          | Ok t => exists tr', inv c1 log (just who [txPosition t]) tr' /\ unseen c1 who (tx_recordEpoch t) (tx_streamSlot t) (tx_recordSequence t) /\
              Reserved who (tx_recordEpoch t) (tx_streamSlot t) (tx_recordSequence t) ∈ tr'
          | Err _ => exists tr', inv c1 log (just who []) tr'
          end) as HX.
  { destruct retry as [id|].
    - by eapply (reserve_operation w 0 ch log tr who _ (fun seen => DoRetry who id seen) txPosition (fun _ => []) _ _ [] HI (retry_exec who id _)).
    - by eapply (reserve_operation w 0 ch log tr who _ (fun seen => DoBegin who slot seen) txPosition _ _ _ [] HI (begin_exec who slot _)). }
  destruct r as [t|e]; [|destruct HX as [tr' HX]; exists tr'; cbn [publishes fst snd]; rewrite app_nil_r; by apply just_nil in HX]. destruct HX as (tr' & HI1 & HU & HR).
  exists tr'. destruct (bool_decide (is_Some retry) && _); [cbn [publishes fst snd]; rewrite app_nil_r; by eapply inv_drop|]. apply (fun HX => inv_observe _ _ _ _ who 1 _ _ _ HX HU HR) in HI1.
  set (c2 := observeAllocationV1 _ _ _ _ _ _) in *. apply (inv_ensure w 1 _ who who) in HI1.
  destruct (ensureEnvelopeForLifeV1 w 1 c2 who who) as [c3 [x|e]]; cbn in HI1; [|cbn [publishes fst snd]; rewrite app_nil_r; by eapply inv_drop].
  destruct (sealFragment_inv c3 who t (mkFragment (tx_operationID t) 0 1 (wrap32 (zlen plaintext)) 0 plaintext) _ _ _ HI1) as [G1 G2].
  destruct (sealFragment c3 who t _) as [c4 [record|e]]; cbn in G1, G2; [|cbn [publishes fst snd]; rewrite app_nil_r; by eapply inv_drop].
  pose proof (inv_sealed w 2 c4 who record _ _ _ G1 (G2 _ eq_refl)) as HS. by destruct (publishRecordV1 w 2 c4 who record).
Qed.

Lemma inv_shrink ch log who l x tr : inv ch log (just who (l ++ x)) tr -> inv ch log (just who l) tr.
Proof using Type.
  intros [I1 I2 I3 I4 I5 I6]. constructor; try done. intros w. destruct (I6 w) as (cs & F & S). exists cs. split; [done|]. unfold just in *.
  destruct (bool_decide (w = who)); [|done]. etrans; [|exact S]. rewrite app_assoc. by apply sublist_inserts_r.
Qed.

Lemma sealFragments_inv w id log fragments : forall i ch first records l tr,
  match first with
  | Some t => inv ch log (just Client (l ++ [txPosition t])) tr /\ unseen ch Client (tx_recordEpoch t) (tx_streamSlot t) (tx_recordSequence t) /\
      Reserved Client (tx_recordEpoch t) (tx_streamSlot t) (tx_recordSequence t) ∈ tr
  | None => inv ch log (just Client l) tr
  end -> Forall2 (carries Client) records l ->
  exists tr', match (sealFragments w i ch first id fragments records).2 with
              | Ok rs => inv (sealFragments w i ch first id fragments records).1 (log ++ (Published Client <$> rs)) nothing tr'
              | Err _ => inv (sealFragments w i ch first id fragments records).1 log nothing tr'
              end.
Proof using keys_differ positions_unique.
  induction fragments as [|fragment fragments IH]; intros i ch first records l tr HI HF; cbn [sealFragments].
  - exists tr. cbn [fst snd]. apply (inv_log _ _ _ l); [|done]. destruct first; [destruct HI as [HI _]; by eapply inv_shrink|done].
  - destruct (match first with Some t => _ | None => _ end) as [c1 r] eqn:HO.
    assert (match r with
          | Ok t => exists tr', inv c1 log (just Client (l ++ [txPosition t])) tr' /\ unseen c1 Client (tx_recordEpoch t) (tx_streamSlot t) (tx_recordSequence t) /\
              Reserved Client (tx_recordEpoch t) (tx_streamSlot t) (tx_recordSequence t) ∈ tr'
          | Err _ => exists tr', inv c1 log (just Client l) tr'
          end) as HX.
    { destruct first as [t|]; [injection HO as <- <-; eauto|].
      by eapply (reserve_operation w i ch log tr Client _ (fun seen => DoFragment Client id seen) txPosition (fun _ => []) _ _ l HI (fragment_exec Client id _)). }
    destruct r as [t|e]; [|destruct HX as [tr' HX]; exists tr'; cbn [fst snd]; by eapply inv_drop]. destruct HX as (tr' & HI1 & HU & HR).
    destruct (sealPrepared_inv w (S i) c1 Client t fragment _ _ _ HI1 HU HR) as [G1 G2].
    destruct (sealPreparedApplicationFragmentLockedV1 w (S i) c1 Client t fragment) as [c2 [record|e]]; cbn [fst snd] in *.
    + apply (IH _ _ None _ (l ++ [txPosition t]) tr'); [done|]. apply Forall2_app; [done|]. by constructor; [apply G2|].
    + exists tr'. by eapply inv_drop.
Qed.

Lemma sealMulti_inv w ch slot plaintext lengths log tr : P slot -> inv ch log nothing tr ->
  exists tr', match (sealClientMultiFragmentV1 w ch slot plaintext lengths).2 with
              | Ok rs => inv (sealClientMultiFragmentV1 w ch slot plaintext lengths).1.1 (log ++ (Published Client <$> rs)) nothing tr'
              | Err _ => inv (sealClientMultiFragmentV1 w ch slot plaintext lengths).1.1 log nothing tr'
              end.
Proof using keys_differ positions_unique.
  intros HSl HI. unfold sealClientMultiFragmentV1. destruct (fragmentSet _ _ _ _); [|by exists tr]. destruct (onPair w 0 _ _) as [c1 r] eqn:HO.
  assert (inv c1 log nothing tr) as HI1.
  { unfold onPair in HO. apply (inv_enter w 0) in HI. set (c0 := enter w 0 ch) in *.
    assert (exec (DoFragmentSet Client slot (zlen lengths) (w_seen w 0%nat 0%nat)) (pc_pair c0) =
      (fst (canReserveFragmentSetV1 (pc_pair c0) Client slot (zlen lengths) (w_seen w 0%nat 0%nat)), [])) as HE by done.
    destruct (canReserveFragmentSetV1 _ _ _ _ _) as [p x]. injection HO as <- _. rewrite <- (app_nil_r tr).
    exact (inv_exec c0 log nothing tr (DoFragmentSet Client slot (zlen lengths) (w_seen w 0%nat 0%nat)) _ _ HI HE I (fun _ => eq_refl)). }
  destruct r as [x|e]; [|by exists tr]. destruct (onPair w 1 _ _) as [c2 r] eqn:HO2. apply (just_nil Client) in HI1.
  pose proof (reserve_operation w 1 c1 log tr Client _ (fun seen => DoBegin Client slot seen) txPosition _ _ _ [] HI1 (begin_exec Client slot _)
                (fun _ _ => eq_refl) (fun _ _ _ => eq_refl) HSl HO2) as HX.
  destruct r as [t|e]; [|destruct HX as [tr' HX]; exists tr'; by apply just_nil in HX]. destruct HX as (tr' & HX).
  destruct (sealFragments_inv w (tx_operationID t) log (cutFragments (tx_operationID t) plaintext (zlen lengths) 0 0 lengths) 2 c2 (Some t) [] [] tr' HX) as [tr2 HY]; [constructor|].
  exists tr2. by destruct (sealFragments _ _ _ _ _ _ _).
Qed.

Lemma sealOn_inv ch who f log pending tr : inv ch log pending tr -> inv (fst (sealOn ch who f)) log pending tr.
Proof using Type. intros HI. unfold sealOn, setEnvState. destruct (f _ _). by apply inv_setEnv. Qed.

Lemma ack_exec who id retry seen p : exec (DoAck who id retry seen) p = (fst (reserveOperationAckV1 p who id retry seen),
  events (snd (reserveOperationAckV1 p who id retry seen)) (fun t => Reserved who (at_recordEpoch t) 0 (at_recordSequence t) :: [])).
Proof using Type. cbn [exec]. by destruct (reserveOperationAckV1 p who id retry seen). Qed.

Lemma close_exec who seen p : exec (DoClose who seen) p = (fst (reserveCloseV1 p who seen),
  events (snd (reserveCloseV1 p who seen)) (fun t => Reserved who (fst t) 0 (snd t) :: [])).
Proof using Type. cbn [exec]. by destruct (reserveCloseV1 p who seen). Qed.

Lemma sealAck_inv w ch id retry log tr : inv ch log nothing tr ->
  exists tr', inv (sealRelayAckV1 w ch id retry).1 (log ++ publishes Relay (sealRelayAckV1 w ch id retry).2) nothing tr'.
Proof using keys_differ positions_unique.
  intros HI. unfold sealRelayAckV1. apply (just_nil Relay) in HI. destruct (onPair _ _ _ _) as [c1 r] eqn:HO.
  pose proof (reserve_operation w 0 ch log tr Relay _ (fun seen => DoAck Relay id retry seen) (fun t => (at_recordEpoch t, 0, at_recordSequence t)) (fun _ => [])
                _ _ [] HI (ack_exec Relay id retry _) (fun _ _ => eq_refl) (fun _ _ _ => eq_refl) I HO) as HX.
  destruct r as [t|e]; [|destruct HX as [tr' HX]; exists tr'; cbn [publishes fst snd]; rewrite app_nil_r; by apply just_nil in HX].
  destruct HX as (tr' & HI1 & HU & HR). cbn [fst snd] in HI1, HU, HR. exists tr'. apply (inv_ensure w 1 _ Relay Relay) in HI1.
  pose proof (ensure_observer w 1 c1 Relay Relay) as HOb.
  destruct (ensureEnvelopeForLifeV1 w 1 c1 Relay Relay) as [c2 [x|e]]; cbn [fst snd] in *; [|cbn [publishes fst snd]; rewrite app_nil_r; by eapply inv_drop].
  assert (unseen c2 Relay (at_recordEpoch t) 0 (at_recordSequence t)) as HU2 by (unfold unseen in *; by rewrite HOb).
  apply (fun HX => inv_observe _ _ _ _ Relay 2 _ _ _ HX HU2 HR) in HI1. cbn [keyOf] in HI1.
  set (c3 := observeAllocationV1 _ _ _ _ _ _) in *.
  assert (forall record, (sealOn c3 Relay (fun c => sealOperationAckV1 controlDirectionRelayV1 (pc_control c3) (at_recordEpoch t) (at_recordSequence t) (at_ack t)
      (controlSeal c RecordTypeOperationAckV1 controlDirectionRelayV1))).2 = Ok record -> carries Relay record (at_recordEpoch t, 0, at_recordSequence t)) as HC.
  { intros record. unfold sealOn, sealOperationAckV1. destruct (encodeOperationAckBodyV1 (at_ack t)); [|done].
    destruct (sealControlRecordV1 _ _ _ _ _ _ _ _ _) as [st r] eqn:E. cbn. intros HR2. apply map_err_ok in HR2 as ->. by eapply (control_carries Relay); [|exact E]. }
  set (f := fun c : EnvelopeCodecV1 => _) in HC |- *. apply (sealOn_inv _ Relay f) in HI1. destruct (sealOn c3 Relay f) as [c4 [record|e]]; cbn [fst snd] in *.
  - pose proof (inv_sealed w 2 c4 Relay record _ _ _ HI1 (HC _ eq_refl)) as HS. by destruct (publishRecordV1 w 2 c4 Relay record).
  - cbn [publishes]. rewrite app_nil_r. by eapply inv_drop.
Qed.

Lemma sealClose_inv w ch who log tr : inv ch log nothing tr -> exists tr', inv (sealCloseV1 w ch who).1 (log ++ publishes who (sealCloseV1 w ch who).2) nothing tr'.
Proof using keys_differ positions_unique.
  intros HI. unfold sealCloseV1. apply (just_nil who) in HI. destruct (onPair _ _ _ _) as [c1 r] eqn:HO.
  pose proof (reserve_operation w 0 ch log tr who _ (fun seen => DoClose who seen) (fun t => (fst t, 0, snd t)) (fun _ => [])
                _ _ [] HI (close_exec who _) (fun _ _ => eq_refl) (fun _ _ _ => eq_refl) I HO) as HX.
  destruct r as [[e q]|err]; [|destruct HX as [tr' HX]; exists tr'; cbn [publishes fst snd]; rewrite app_nil_r; by apply just_nil in HX].
  destruct HX as (tr' & HI1 & HU & HR). cbn [fst snd] in HI1, HU, HR. exists tr'.
  apply (fun HX => inv_observe _ _ _ _ who 2 _ _ _ HX HU HR) in HI1. set (c2 := observeAllocationV1 _ _ _ _ _ _) in *.
  apply (inv_ensure w 1 _ who who) in HI1.
  destruct (ensureEnvelopeForLifeV1 w 1 c2 who who) as [c3 [x|err]]; cbn [fst snd] in *; [|cbn [publishes fst snd]; rewrite app_nil_r; by eapply inv_drop].
  assert (forall record, (sealOn c3 who (fun c => Records.sealCloseV1 (directionOf who) (pc_control c3) e q (mkClose CloseCodeTerminalV1)
      (controlSeal c RecordTypeCloseV1 (directionOf who)))).2 = Ok record -> carries who record (e, 0, q)) as HC.
  { intros record. unfold sealOn, Records.sealCloseV1. destruct (encodeCloseBodyV1 _); [|done].
    destruct (sealControlRecordV1 _ _ _ _ _ _ _ _ _) as [st r] eqn:E. cbn. intros HR2. apply map_err_ok in HR2 as ->. by eapply control_carries; [|exact E]. }
  set (f := fun c : EnvelopeCodecV1 => _) in HC |- *. apply (sealOn_inv _ who f) in HI1. destruct (sealOn c3 who f) as [c4 [record|err]]; cbn [fst snd] in *.
  - pose proof (inv_sealed w 2 c4 who record _ _ _ HI1 (HC _ eq_refl)) as HS. by destruct (publishRecordV1 w 2 c4 who record).
  - cbn [publishes]. rewrite app_nil_r. by eapply inv_drop.
Qed.

(** ** Receiving *)

Lemma inv_frame_env ch who st log pending tr : inv ch log pending tr -> inv (setEnvState ch who st) log pending tr.
Proof using Type. apply inv_setEnv. Qed.

Lemma inv_reassembly ch r log pending tr : inv ch log pending tr -> inv (setReassembly ch r) log pending tr.
Proof using Type. intros HI. by eapply inv_frame; [exact HI|..]. Qed.

Lemma inv_discard ch who g log pending tr : inv ch log pending tr -> inv (discard ch who g) log pending tr.
Proof using Type. intros HI. destruct g; [by apply inv_setEnv|done]. Qed.

Lemma inv_guard w i ch who log tr : inv ch log nothing tr -> inv (fst (guardOpenV1 w i ch who)) log nothing tr.
Proof using Type.
  intros HI. unfold guardOpenV1. apply (inv_enter w i) in HI. destruct (_ || _); [done|]. destruct (negb (isOk _)); [by apply inv_close|done].
Qed.

(** A commit whose closure reports [replay] is the lifecycle's commit with that
    outcome. *)
Lemma commit_exec {S} p who t seen (f : S -> S * result lifecycle_error unit) s s' p' r :
  commitFirstAuthenticatedOperationV1 p who t seen f s = (s', p', r) ->
  exists replay, exec (DoCommit who t seen replay) p
    = (p', events r (fun _ => if rc_lastCommitDeliver (lf_recv (lifeOf p' who)) then [deliveredEvent who t] else [])) /\
  (forall ack, r = Ok ack -> rc_lastCommitDeliver (lf_recv (lifeOf p' who)) = true -> ack_OperationID ack = tx_operationID t).
Proof using Type.
  unfold commitFirstAuthenticatedOperationV1. cbn [exec]. unfold commitFirstAuthenticatedOperationV1.
  destruct (prepareFirst p who t seen) as [[[candidate unique] ack]|e] eqn:E; [|intros HR; injection HR as _ <- <-; by exists (Ok tt)].
  destruct (f s) as [s1 replay] eqn:Ef. intros HR. exists replay. destruct replay as [[]|e]; injection HR as _ <- <-; [|done]. split; [done|].
  intros a [= <-]. rewrite lifeOf_set. unfold applyFirst. cbn [setRecv setDeliver lf_recv rc_lastCommitDeliver]. intros ->.
  unfold prepareFirst in E. go_inv E. apply Ok_inj in E. injection E as _ Hu <-.
  unfold classify in E1. destruct (rc_completed _ !! _); go_inv E1; apply Ok_inj in E1 as <-; done.
Qed.

Definition handed (who : side) (r : result channel_error (option bytes * OperationAckV1)) : list output :=
  match r with Ok (Some payload, ack) => [HandedOn who (ack_OperationID ack) payload] | _ => [] end.

(** An operation that delivers, and the output that goes with it. *)
Lemma inv_delivers ch log tr op p evs who id payload : inv ch log nothing tr -> exec op (pc_pair ch) = (p, evs) -> slotOk P op ->
  (exists n, evs = [Delivered who n id]) -> inv (setPair ch p) (log ++ [HandedOn who id payload]) nothing (tr ++ evs).
Proof using Type.
  intros [(ops & I0 & I1) I2 I3 I4 I5 I6] HE HO [n ->]. constructor; try done.
  - exists (ops ++ [op]). split; [by apply Forall_app; split; [|constructor]|]. by rewrite runOps_snoc, I1; cbn [fst snd]; rewrite HE.
  - intros o Ho. destruct (I4 o Ho) as (w & class & e & slot & q & -> & Hin). exists w, class, e, slot, q. split; [done|]. apply elem_of_app. by left.
  - intros w. rewrite delivered_app, fmap_app, I5. unfold handedOn. rewrite omap_app. f_equal. cbn. destruct (decide (who = w)).
    + by rewrite !bool_decide_eq_true_2.
    + by rewrite !bool_decide_eq_false_2.
  - intros w. destruct (I6 w) as (cs & F & S). exists cs. unfold published in *. rewrite omap_app, app_nil_r. split; [done|].
    rewrite positionsOf_app. by apply sublist_inserts_r.
Qed.

Lemma commitOperation_inv w i ch who t closure log tr payload : inv ch log nothing tr ->
  exists tr', inv (commitOperation w i ch who t closure).1
    (log ++ handed who (let? ack := (commitOperation w i ch who t closure).2 in Ok (delivery (commitOperation w i ch who t closure).1 who payload ack))) nothing tr'.
Proof using Type.
  intros HI. unfold commitOperation. apply (inv_enter w i) in HI. set (c1 := enter w i ch) in *.
  destruct (commitFirstAuthenticatedOperationV1 _ _ _ _ _ _) as [[s p] r] eqn:E. apply commit_exec in E as (replay & HE & Hid).
  set (c2 := setReassembly (setEnvState c1 who (fst s)) (snd s)).
  assert (inv c2 log nothing tr) as HI2 by by apply inv_reassembly, inv_setEnv.
  assert (pc_pair c2 = pc_pair c1) as Hp by by destruct who. rewrite <- Hp in HE. cbn [fst snd].
  destruct r as [ack|e]; cbn [map_err rbind handed events] in *.
  - unfold delivery. cbn [pc_pair setPair]. destruct (rc_lastCommitDeliver _); cbn [handed].
    + eexists. eapply inv_delivers; [exact HI2|exact HE|done|]. rewrite (Hid ack) by done. by eexists.
    + eexists. rewrite app_nil_r. by eapply inv_exec; [exact HI2|exact HE|done|].
  - eexists. rewrite app_nil_r. by eapply inv_exec; [exact HI2|exact HE|done|].
Qed.

Lemma acceptMulti_inv w i ch who t header fragment g log tr : inv ch log nothing tr ->
  exists tr', inv (acceptMultiFragmentOn w i ch who t header fragment g).1 (log ++ handed who (acceptMultiFragmentOn w i ch who t header fragment g).2) nothing tr'.
Proof using Type.
  intros HI. unfold acceptMultiFragmentOn. apply (inv_enter w i) in HI. set (c1 := enter w i ch) in *. cbv zeta.
  destruct (acceptFragment _ _ _ _) as [stored out]. destruct out as [| | |assembled].
  - exists tr. cbn [fst snd handed]. rewrite app_nil_r. by apply inv_discard, inv_reassembly.
  - exists tr. destruct (Commit _ _ _) as [st [x|e]]; cbn [fst snd handed]; rewrite app_nil_r; by apply inv_reassembly, inv_setEnv.
  - exists tr. cbn [fst snd handed]. rewrite app_nil_r. by apply inv_discard, inv_reassembly.
  - set (commitFinal := fun s : strictEnvelopeStateV1 * strictFragmentReassemblyV1 => _).
    destruct (commitOperation_inv w (S i) (setReassembly c1 stored) who t commitFinal log tr assembled (inv_reassembly _ _ _ _ _ HI)) as [tr' HX].
    exists tr'. destruct (commitOperation w (S i) _ who t commitFinal) as [c2 [ack|e]]; cbn [fst snd rbind handed] in *; [done|].
    by apply inv_discard, inv_reassembly, inv_enter.
Qed.

Lemma openApplication_inv w ch sender record log tr : inv ch log nothing tr ->
  exists tr', inv (openApplicationV1 w ch sender record).1 (log ++ handed (peerOf sender) (openApplicationV1 w ch sender record).2) nothing tr'.
Proof using Type.
  intros HI. unfold openApplicationV1. set (who := peerOf sender).
  assert (forall c e, inv c log nothing tr -> exists tr', inv (c, @Err channel_error (option bytes * OperationAckV1) e).1
            (log ++ handed who (c, @Err channel_error (option bytes * OperationAckV1) e).2) nothing tr') as Hfail.
  { intros c e HX. exists tr. cbn [fst snd handed]. by rewrite app_nil_r. }
  apply (inv_guard w 0 _ who) in HI. destruct (guardOpenV1 w 0 ch who) as [c1 [x|e]]; cbn [fst] in HI; [|by apply Hfail].
  destruct (parseApplicationRecordV1 _ _ _) as [[header body]|e]; [|by apply Hfail].
  apply (inv_ensure w 1 _ sender who) in HI. destruct (ensureEnvelopeForLifeV1 w 1 c1 sender who) as [c2 [y|e]]; cbn [fst] in HI; [|by apply Hfail].
  cbv zeta. destruct (openApplicationFragmentV1 _ _ _ _ _) as [[[st capability] authErr] r]. apply (inv_frame_env _ who st) in HI.
  set (c3 := setEnvState c2 who st) in *. destruct r as [fragment|e]; [|by apply Hfail, inv_discard]. destruct capability as [g|]; [|by apply Hfail].
  unfold lookupIssuedOperationV1. cbv zeta. apply (inv_enter w 2) in HI. set (c4 := enter w 2 c3) in *.
  destruct (if _ || _ then None else _) as [t|]; [|by apply Hfail, inv_discard]. destruct (negb (bool_decide _)); [by apply Hfail, inv_discard|].
  destruct (negb (fr_FragmentCount fragment =? 1)); [exact (acceptMulti_inv _ _ _ _ _ _ _ _ _ _ HI)|]. destruct (_ || _); [by apply Hfail, inv_discard|].
  set (closure := fun s : strictEnvelopeStateV1 * strictFragmentReassemblyV1 => _).
  destruct (commitOperation_inv w 3 c4 who t closure log tr (fr_Fragment fragment) HI) as [tr' HX].
  exists tr'. destruct (commitOperation w 3 c4 who t closure) as [c5 [ack|e]]; cbn [fst snd rbind handed] in *; [done|]. by apply inv_discard.
Qed.

Lemma ackCommit_exec {S} p who direction epoch sequence ack seen (f : S -> S * result lifecycle_error unit) s s' p' r :
  commitStrictAuthenticatedOperationAckV1 p who direction epoch sequence ack seen f s = (s', p', r) ->
  exists replay evs, exec (DoCommitAck who direction epoch sequence ack seen replay) p = (p', evs) /\ forall w, delivered w evs = [].
Proof using Type.
  unfold commitStrictAuthenticatedOperationAckV1. cbn [exec]. unfold commitStrictAuthenticatedOperationAckV1.
  destruct (prepareStrictAck p who direction epoch sequence ack seen) as [candidate|e]; [|intros HR; injection HR as _ <- <-; by exists (Ok tt), []].
  destruct (f s) as [s1 replay] eqn:Ef. intros HR. exists replay. destruct replay as [[]|e]; injection HR as _ <- <-; by eexists.
Qed.

Lemma openAck_inv w ch record log tr : inv ch log nothing tr -> exists tr', inv (openRelayAckV1 w ch record).1 log nothing tr'.
Proof using Type.
  intros HI. unfold openRelayAckV1. assert (forall c (e : channel_error), inv c log nothing tr -> exists tr', inv (c, @Err _ unit e).1 log nothing tr') as Hfail by eauto.
  apply (inv_guard w 0 _ Client) in HI. destruct (guardOpenV1 w 0 ch Client) as [c1 [x|e]]; cbn [fst] in HI; [|by apply Hfail].
  destruct (parseControlRecordV1 _ _ _) as [[header body]|e]; [|by apply Hfail].
  apply (inv_ensure w 1 _ Relay Client) in HI. destruct (ensureEnvelopeForLifeV1 w 1 c1 Relay Client) as [c2 [y|e]]; cbn [fst] in HI; [|by apply Hfail].
  cbv zeta. destruct (openOperationAckV1 _ _ _ _ _) as [[[st capability] authErr] r]. apply (inv_frame_env _ Client st) in HI.
  set (c3 := setEnvState c2 Client st) in *. destruct r as [ack|e]; [|by apply Hfail, inv_discard]. destruct capability as [g|]; [|by apply Hfail].
  apply (inv_enter w 2) in HI. set (c4 := enter w 2 c3) in *.
  destruct (commitStrictAuthenticatedOperationAckV1 _ _ _ _ _ _ _ _ _) as [[st' p] r] eqn:E. apply ackCommit_exec in E as (replay & evs & HE & HD).
  assert (inv (setPair (setEnvState c4 Client st') p) log nothing (tr ++ evs)) as HX by (eapply inv_exec; [by apply inv_setEnv|exact HE|done|done]).
  exists (tr ++ evs). destruct r; [done|]. by apply inv_discard.
Qed.

Lemma openClose_inv w ch sender record log tr : inv ch log nothing tr -> exists tr', inv (openCloseV1 w ch sender record).1 log nothing tr'.
Proof using Type.
  intros HI. unfold openCloseV1. exists tr. set (who := peerOf sender). cbv zeta.
  apply (inv_guard w 0 _ who) in HI. destruct (guardOpenV1 w 0 ch who) as [c1 [x|e]]; cbn [fst] in HI; [|done].
  destruct (parseControlRecordV1 _ _ _) as [[header body]|e]; [|by apply inv_close].
  apply (inv_ensure w 1 _ sender who) in HI. destruct (ensureEnvelopeForLifeV1 w 1 c1 sender who) as [c2 [y|e]]; cbn [fst] in HI; [|by apply inv_close].
  destruct (Records.openCloseV1 _ _ _ _ _) as [[st capability] r]. apply (inv_frame_env _ who st) in HI. set (c3 := setEnvState c2 who st) in *.
  destruct r as [v|e]; [|by apply inv_close, inv_discard]. destruct capability as [g|]; [|by apply inv_close].
  destruct (negb (ch_Epoch header =? y)); [by apply inv_close, inv_discard|]. destruct (Commit _ _ _) as [st' [u|e]]; by apply inv_close, inv_setEnv.
Qed.

Lemma step_inv op ch log tr : slotsOf P op -> inv ch log nothing tr -> exists tr', inv (channelStep op ch).1 (log ++ (channelStep op ch).2) nothing tr'.
Proof using keys_differ positions_unique.
  intros HO HI. destruct op as [w who slot plaintext retry|w slot plaintext lengths|w id retry|w who|w sender record|w record|w sender record|]; cbn [channelStep].
  - destruct (sealApplication_inv w ch who slot plaintext retry log tr HO HI) as [tr' HX]. exists tr'. by destruct (sealApplicationV1 _ _ _ _ _ _) as [[c1 id] r].
  - destruct (sealMulti_inv w ch slot plaintext lengths log tr HO HI) as [tr' HX]. exists tr'.
    destruct (sealClientMultiFragmentV1 _ _ _ _ _) as [[c1 id] [rs|e]]; cbn in *; [done|]. by rewrite app_nil_r.
  - destruct (sealAck_inv w ch id retry log tr HI) as [tr' HX]. exists tr'. by destruct (sealRelayAckV1 _ _ _ _).
  - destruct (sealClose_inv w ch who log tr HI) as [tr' HX]. exists tr'. by destruct (sealCloseV1 _ _ _).
  - destruct (openApplication_inv w ch sender record log tr HI) as [tr' HX]. exists tr'. by destruct (openApplicationV1 _ _ _ _).
  - destruct (openAck_inv w ch record log tr HI) as [tr' HX]. exists tr'. cbn. by rewrite app_nil_r.
  - destruct (openClose_inv w ch sender record log tr HI) as [tr' HX]. exists tr'. cbn. by rewrite app_nil_r.
  - exists tr. cbn. rewrite app_nil_r. by apply inv_close.
Qed.

Lemma runChannel_inv ops : Forall (slotsOf P) ops -> forall ch log tr, inv ch log nothing tr -> exists tr', inv (runChannel ops ch).1 (log ++ (runChannel ops ch).2) nothing tr'.
Proof using keys_differ positions_unique.
  induction ops as [|op ops IH]; intros HO ch log tr HI; cbn [runChannel]; [exists tr; cbn; by rewrite app_nil_r|].
  apply Forall_cons in HO as [Ho HO]. destruct (step_inv op ch log tr Ho HI) as [tr1 HS]. destruct (channelStep op ch) as [c1 now]. cbn [fst snd] in HS. destruct (IH HO c1 _ _ HS) as [tr2 HX].
  exists tr2. destruct (runChannel ops c1) as [c2 later]. cbn [fst snd] in *. by rewrite app_assoc.
Qed.
End invariant.

(** ** New channels *)

(** Sequences are counted per stream slot. *)
Definition perStream (policy : EffectiveSecurityPolicy) : bool := bool_decide (eff_NonceMode policy = NonceModeStreamPartitionedCounterV1).

Section channel.
Context `{Primitives} `{Cipher}.
Context (pid : Z) (epoch : bytes) (seen0 : nat -> profileView) (clientSchedule relaySchedule : KeySchedule).
Context (clientConfig relayConfig : StrictSessionConfigV1) (policy : EffectiveSecurityPolicy) (th : bytes) (p0 : pairV1).
Context (Hnew : newPair pid epoch seen0 clientSchedule relaySchedule clientConfig relayConfig policy th = Ok p0).
Context (Tc : typedStrict clientConfig) (Vc : validateStrictSessionConfigV1 clientConfig = Ok tt).
Context (Tr : typedStrict relayConfig) (Vr : validateStrictSessionConfigV1 relayConfig = Ok tt).
Context (context : EnvelopeContextV1) (control : ControlContextV1) (maxFrameBytes ordinal : Z) (ch0 : strictProtectedChannelV1).
Context (Hchannel : newStrictProtectedChannelV1 p0 context control maxFrameBytes ordinal (mkObserver ∅ ∅ 0) = Ok ch0).

Lemma run_positions ops who : NoDup (positionsOf (perStream policy) who (snd (runOps ops p0))).
Proof using Hnew Tc Tr Vc Vr.
  destruct (run_ok _ ops _ _ (fresh_ok _ _ _ _ _ _ _ _ _ _ Hnew Tc Vc Tr Vr)) as [HT _]. cbn [app] in HT. pose proof (to_used _ _ HT who) as [HU _].
  unfold partitionOf in HU. destruct (fresh_config _ _ _ _ _ _ _ _ _ _ Hnew Tc Vc Tr Vr who) as [_ E]. by rewrite E in HU.
Qed.

Lemma new_inv P : inv p0 (ordinal * 2 - 1) (ordinal * 2) P ch0 [] nothing [].
Proof using Hchannel.
  unfold newStrictProtectedChannelV1 in Hchannel. go_inv Hchannel. destruct (k_schedule _) as [s1|]; [|done]. destruct (k_schedule _) as [s2|]; [|done].
  go_inv Hchannel. apply Ok_inj in Hchannel as <-. constructor; try done.
  - by exists [].
  - intros who. exists []. split; [constructor|done].
Qed.

Lemma channel_run P ops : Forall (slotsOf P) ops ->
  exists tr, inv p0 (ordinal * 2 - 1) (ordinal * 2) P (runChannel ops ch0).1 (runChannel ops ch0).2 nothing tr.
Proof using Hchannel Hnew Tc Tr Vc Vr.
  intros HO. apply (runChannel_inv p0 (perStream policy) (ordinal * 2 - 1) (ordinal * 2) ltac:(lia) P run_positions ops HO ch0 [] [] (new_inv P)).
Qed.

Lemma any_slot (ops : list channelOp) : Forall (slotsOf (fun _ => True)) ops.
Proof using Type. by apply Forall_true; intros []. Qed.

(** C1: The channel implements the lifecycle: whatever both ends do, whatever
    records the network delivers and whenever the pair is closed or its profile
    rotated under them, the pair is in a state that lifecycle operations alone
    reach, with a trace in which the operations delivered to an end are exactly
    those that the channel handed on to its application. Each is handed on once,
    in the order in which the peer began them. *)
Theorem channel_refines_lifecycle ops :
  exists lifecycleOps tr, runOps lifecycleOps p0 = (pc_pair (runChannel ops ch0).1, tr) /\
    forall who, handedOn who (runChannel ops ch0).2 = (delivered who tr).*2 /\ delivered who tr `prefix_of` begun (peerOf who) tr.
Proof using Hchannel Hnew Tc Tr Vc Vr.
  destruct (channel_run (fun _ => True) ops (any_slot ops)) as [tr [(lops & _ & HL) _ _ _ HH _]]. exists lops, tr. split; [done|]. intros who. split; [done|].
  pose proof (run_ok _ lops _ _ (fresh_ok _ _ _ _ _ _ _ _ _ _ Hnew Tc Vc Tr Vr)) as [HT _]. rewrite HL in HT. cbn [app snd] in HT.
  pose proof (to_delivered _ _ HT (peerOf who)) as HD. by rewrite peer_peer in HD.
Qed.

(** C3: No two records that an end publishes carry the same position, so no nonce
    protects two records on the wire. From the bytes of every published record a
    receiver reads the direction of the end, an epoch, a slot and a sequence (slot 0
    for control records), and these positions, as read, are distinct (the slot
    counts where sequences are kept per stream). The callers' slots are 16-bit
    values and the configurations validated ones. This holds although an envelope is
    rebuilt, with its counters at zero, whenever the epochs of the two ends drift
    apart. *)
Theorem published_positions_unique ops who : Forall (slotsOf u16) ops ->
  exists positions, wirePosition who <$> published who (runChannel ops ch0).2 = Some <$> positions /\ NoDup (inDomain (perStream policy) <$> positions).
Proof using Hchannel Hnew Tc Tr Vc Vr.
  intros HO. destruct (channel_run u16 ops HO) as [tr [(lops & HS & HL) _ _ _ _ HP]]. destruct (HP who) as (cs & F & S). rewrite app_nil_r in S.
  exists cs. split.
  - pose proof (run_typed _ lops p0 [] HS (fresh_ok _ _ _ _ _ _ _ _ _ _ Hnew Tc Vc Tr Vr) (fresh_books _ _ _ _ _ _ _ _ _ _ Hnew Tc Vc Tr Vr)) as HT. rewrite HL in HT.
    apply carried_positions; [done|]. intros e slot q Hin. apply (sublist_subseteq _ _ S), position_reserved in Hin. rewrite Forall_forall in HT. exact (HT _ Hin).
  - pose proof (run_positions lops who) as HN. rewrite HL, positions_domain in HN. exact (sublist_NoDup _ _ HN (fmap_sublist _ _ _ S)).
Qed.

(** C24: The nonce observer of the channel never counts a collision. *)
Theorem no_nonce_collisions ops : ob_collisions (pc_observer (runChannel ops ch0).1) = 0.
Proof using Hchannel Hnew Tc Tr Vc Vr. by destruct (channel_run (fun _ => True) ops (any_slot ops)) as [tr []]. Qed.
End channel.

(** ** A concrete channel *)

(** Keys live for five records. *)
Definition channelPolicy : EffectiveSecurityPolicy :=
  mkEffectiveSecurityPolicy "p" "h" "1" "1" "1" "1" "full" "hkdf_sha256" "aead_aes_256_gcm" "hmac_sha256"
    NonceModeCounterXORBaseV1 ReplayPolicyWindowedReplayV1 64 "fail_closed" "strict" "strict" "message_lifetime_bound" "strict"
    "metadata_authenticated" 20 5 [] [] [] (replicate 32 Byte.x01).
Definition channelContext : EnvelopeContextV1 := let h := sampleHash 7 in mkEnvelopeContext channelPolicy 32768 h h h h h h.
Definition channelControl : ControlContextV1 := mkControlContext (sampleHash 7) (sampleHash 7).
Definition channelPair : pairV1 :=
  match newPair 1 (sampleHash 9) sampleView toySchedule toySchedule (sampleConfig 20 5) (sampleConfig 20 5) channelPolicy (sampleHash 7) with
  | Ok p => p
  | Err _ => closedSample
  end.
Definition sampleChannel : strictProtectedChannelV1 :=
  match newStrictProtectedChannelV1 channelPair channelContext channelControl 65536 1 (mkObserver ∅ ∅ 0) with
  | Ok ch => ch
  | Err _ => mkChannel closedSample channelContext channelControl emptyCodec emptyCodec 0 0 (mkObserver ∅ ∅ 0) 0 0 (newReassembly 0)
  end.
Definition quiet : world := mkWorld (fun _ => false) (fun _ => sampleView).

Lemma channelPair_new :
  newPair 1 (sampleHash 9) sampleView toySchedule toySchedule (sampleConfig 20 5) (sampleConfig 20 5) channelPolicy (sampleHash 7) = Ok channelPair.
Proof. vm_compute. reflexivity. Qed.

Lemma sampleChannel_new : newStrictProtectedChannelV1 channelPair channelContext channelControl 65536 1 (mkObserver ∅ ∅ 0) = Ok sampleChannel.
Proof. vm_compute. reflexivity. Qed.

Lemma channelConfig_typed : typedStrict (sampleConfig 20 5) /\ @validateStrictSessionConfigV1 toyPrimitives (sampleConfig 20 5) = Ok tt.
Proof. split; [constructor|]; vm_compute; repeat split; (discriminate || reflexivity). Qed.

Definition operationOf (e k : Z) : bytes := @operationIDV1 toyPrimitives (sampleHash 7) 1 e 4 k.
Definition stepOf := @channelStep toyPrimitives toyCipher.
Definition lastRecord (log : list output) : bytes := match log with [Published _ r] => r | _ => [] end.

(** The client seals, the relay opens what was sealed. *)
Definition sendTo (ch : strictProtectedChannelV1) (b : Byte.byte) : strictProtectedChannelV1 * bytes :=
  let '(ch, out) := stepOf (SealApplication quiet Client 4 [b] None) ch in (ch, lastRecord out).
Definition sampleRecords : bytes * bytes :=
  let '(ch, r) := sendTo sampleChannel Byte.x41 in
  let '(ch, _) := stepOf (OpenApplication quiet Client r) ch in
  let '(ch, out) := stepOf (SealAck quiet (operationOf 0 0) false) ch in (r, lastRecord out).
Definition sampleTraffic : list channelOp :=
  [SealApplication quiet Client 4 [Byte.x41] None; OpenApplication quiet Client (fst sampleRecords); OpenApplication quiet Client (fst sampleRecords);
   SealAck quiet (operationOf 0 0) false; OpenAck quiet (snd sampleRecords)].

Lemma channel_refines_lifecycle_witness :
  handedOn Relay (@runChannel toyPrimitives toyCipher sampleTraffic sampleChannel).2 = [operationOf 0 0] /\
  exists lifecycleOps tr, @runOps toyPrimitives lifecycleOps channelPair = (pc_pair (@runChannel toyPrimitives toyCipher sampleTraffic sampleChannel).1, tr) /\
    forall who, handedOn who (@runChannel toyPrimitives toyCipher sampleTraffic sampleChannel).2 = (delivered who tr).*2 /\ delivered who tr `prefix_of` begun (peerOf who) tr.
Proof.
  split; [vm_compute; reflexivity|].
  exact (@channel_refines_lifecycle toyPrimitives toyCipher 1 (sampleHash 9) sampleView toySchedule toySchedule (sampleConfig 20 5) (sampleConfig 20 5) channelPolicy
           (sampleHash 7) channelPair channelPair_new (proj1 channelConfig_typed) (proj2 channelConfig_typed) (proj1 channelConfig_typed) (proj2 channelConfig_typed)
           channelContext channelControl 65536 1 sampleChannel sampleChannel_new sampleTraffic).
Defined.

Definition moreTraffic : list channelOp := sampleTraffic ++ [SealApplication quiet Client 4 [Byte.x42] None].

Lemma published_positions_unique_witness :
  wirePosition Client <$> published Client (@runChannel toyPrimitives toyCipher moreTraffic sampleChannel).2 = [Some (0, 4, 0); Some (0, 4, 1)] /\
  exists positions, wirePosition Client <$> published Client (@runChannel toyPrimitives toyCipher moreTraffic sampleChannel).2 = Some <$> positions /\
    NoDup (inDomain (perStream channelPolicy) <$> positions).
Proof.
  split; [vm_compute; reflexivity|].
  refine (@published_positions_unique toyPrimitives toyCipher 1 (sampleHash 9) sampleView toySchedule toySchedule (sampleConfig 20 5) (sampleConfig 20 5) channelPolicy
           (sampleHash 7) channelPair channelPair_new (proj1 channelConfig_typed) (proj2 channelConfig_typed) (proj1 channelConfig_typed) (proj2 channelConfig_typed)
           channelContext channelControl 65536 1 sampleChannel sampleChannel_new moreTraffic Client _).
  unfold moreTraffic, sampleTraffic. cbn [app]. repeat apply Forall_cons_2; try apply Forall_nil_2; cbn; try exact I; unfold_widths; lia.
Defined.

Lemma no_nonce_collisions_witness :
  size (ob_seen (pc_observer (@runChannel toyPrimitives toyCipher sampleTraffic sampleChannel).1)) = 2%nat /\
  ob_collisions (pc_observer (@runChannel toyPrimitives toyCipher sampleTraffic sampleChannel).1) = 0.
Proof.
  split; [vm_compute; reflexivity|].
  exact (@no_nonce_collisions toyPrimitives toyCipher 1 (sampleHash 9) sampleView toySchedule toySchedule (sampleConfig 20 5) (sampleConfig 20 5) channelPolicy
           (sampleHash 7) channelPair channelPair_new (proj1 channelConfig_typed) (proj2 channelConfig_typed) (proj1 channelConfig_typed) (proj2 channelConfig_typed)
           channelContext channelControl 65536 1 sampleChannel sampleChannel_new sampleTraffic).
Defined.

(** ** A forged record

    The relay has acknowledged one operation and received a second. The client has
    used up its key and its next operation is of the next epoch, but has not
    arrived. *)

Definition drifted : strictProtectedChannelV1 :=
  let ch := (@runChannel toyPrimitives toyCipher sampleTraffic sampleChannel).1 in
  let '(ch, r) := sendTo ch Byte.x42 in
  let '(ch, _) := stepOf (OpenApplication quiet Client r) ch in
  let '(ch, _) := sendTo ch Byte.x43 in
  let '(ch, _) := sendTo ch Byte.x44 in
  let '(ch, _) := sendTo ch Byte.x45 in
  fst (sendTo ch Byte.x46).

(** Anyone can write this: a well-formed header and zeros. *)
Definition forged : bytes := encodeApplicationHeaderV1 (mkAppHeader 1 1 0 1 4 0 70) ++ replicate 70 Byte.x00.

(** The acknowledgement of the second operation, sent as often as the lifecycle
    allows. *)
Definition acknowledgeSecond (ch : strictProtectedChannelV1) : list (list output) :=
  let '(ch, a) := stepOf (SealAck quiet (operationOf 0 1) false) ch in
  let '(ch, b) := stepOf (SealAck quiet (operationOf 0 1) true) ch in
  let '(ch, c) := stepOf (SealAck quiet (operationOf 0 1) true) ch in [a; b; c].

(** A record that fails authentication changes the envelope of its receiver:
    [openApplicationV1] brings the envelope to the sender's epoch before it
    authenticates. When the receiver seals its next record, the envelope of its own
    epoch is built anew and counts from zero, while the lifecycle does not; every
    transmission of the acknowledgement is then refused, and the client's
    operation is never settled. Without the forged record all three succeed. *)
Lemma forged_record_blocks_acks :
  length <$> acknowledgeSecond drifted = [1%nat; 1%nat; 1%nat] /\
  (let '(ch, out) := stepOf (OpenApplication quiet Client forged) drifted in
   out = [] /\ pr_closed (pc_pair ch) = false /\ acknowledgeSecond ch = [[]; []; []]).
Proof. vm_compute. repeat split. Qed.
