(* ===== verification/SecureChannelProgress.v ===== *)
(** * The protected channel delivers

    On an undisturbed channel one operation after another passes from the client to
    the relay and is acknowledged ([channel_round_trips]): the lifecycle of
    [LifecycleProgress] and the records of [RecordDelivery] agree on the epoch and
    the sequence of every record, also where an envelope is replaced because the
    keys were ratcheted. *)

From S2P Require Import Prelude GoBytes SecurityErrors Ir KeySchedule Replay Nonce Transcript StrictConfig Envelope EnvelopeFacts Records RecordFacts Channel RecordDelivery Lifecycle LifecycleFacts LifecycleState LifecycleProgress SecureChannel SecureChannelFacts.
From Stdlib Require Import ZArith Lia Strings.Byte.
From stdpp Require Import base list gmap strings.
Local Open Scope Z_scope.

(** One operation from the client to the relay and its acknowledgement back; what
    the relay handed on. *)
Definition exchangeOne `{Primitives} `{Cipher} (w : world) (slot : Z) (ch : strictProtectedChannelV1) (payload : bytes)
    : option (strictProtectedChannelV1 * bytes) :=
  match sealClientApplicationV1 w ch slot payload with
  | (ch, _, Ok record) =>
      match openClientApplicationV1 w ch record with
      | (ch, Ok (Some got, ack)) =>
          match sealRelayAckV1 w ch (ack_OperationID ack) false with
          | (ch, Ok record) =>
              match openRelayAckV1 w ch record with
              | (ch, Ok _) => Some (ch, got)
              | _ => None
              end
          | _ => None
          end
      | _ => None
      end
  | _ => None
  end.

Fixpoint exchangeAll `{Primitives} `{Cipher} (w : world) (slot : Z) (ch : strictProtectedChannelV1) (payloads : list bytes)
    : option (strictProtectedChannelV1 * list bytes) :=
  match payloads with
  | [] => Some (ch, [])
  | payload :: payloads =>
      match exchangeOne w slot ch payload with
      | Some (ch, got) => match exchangeAll w slot ch payloads with Some (ch, more) => Some (ch, got :: more) | None => None end
      | None => None
      end
  end.

(** ** Headers *)

Lemma app_header_parsed record direction max h sealed h' sealed' : parseApplicationRecordV1 record direction max = Ok (h, sealed) ->
  record = encodeApplicationHeaderV1 h' ++ sealed' -> typedAppHeader h' -> h = h'.
Proof.
  intros (E & HO & _)%appRecord_exact -> HT. apply app_inj_1 in E as [E _].
  - pose proof (parse_appHeader _ HT) as P1. rewrite E, (parse_appHeader _ (aho_typed _ _ _ HO)) in P1. by apply Ok_inj in P1.
  - pose proof (zlen_appHeader h') as L1. rewrite <- (zlen_appHeader h) in L1. unfold zlen in L1. lia.
Qed.

Lemma control_header_parsed record direction recordType h sealed h' sealed' : parseControlRecordV1 record direction recordType = Ok (h, sealed) ->
  record = encodeControlHeaderV1 h' ++ sealed' -> typedControlHeader h' -> h = h'.
Proof.
  intros (E & HO & _)%controlRecord_exact -> HT. apply app_inj_1 in E as [E _].
  - pose proof (parse_controlHeader _ HT) as P1. rewrite E, (parse_controlHeader _ (cho_typed _ _ _ HO)) in P1. by apply Ok_inj in P1.
  - pose proof (zlen_controlHeader h') as L1. rewrite <- (zlen_controlHeader h) in L1. unfold zlen in L1. lia.
Qed.

(** ** The channel's closures

    They keep more than the closures of [RecordDelivery] do; an open that succeeds
    there succeeds here. *)

Section closures.
Context `{Cipher}.

Lemma settled_open {A} d (wrap : A -> RecordDelivery.received) o rt' x : settle d wrap o = (rt', Ok x) ->
  exists rt g a, o = ((rt, Some g), Ok a) /\ x = wrap a /\ Commit d rt g = (rt', Ok tt).
Proof.
  destruct o as [[rt [g|]] [a|e]]; cbn; try done. destruct (Commit d rt g) as [rt1 [[]|[]]] eqn:E; try done. intros HS. injection HS as <- <-. eauto 10.
Qed.

Lemma application_opened direction context d record rt rt1 g f :
  openApplicationFragmentV1 direction context record (applicationOpen d) (rt, None) = ((rt1, Some g), Ok f) ->
  openApplicationFragmentV1 direction context record
    (fun (s : strictEnvelopeStateV1 * option nat * option env_error) envelope => let '(s', r) := applicationOpen d (fst s) envelope in
       ((s', match r with Err e => Some e | Ok _ => snd s end), r)) (rt, None, None) = ((rt1, Some g, None), Ok f) /\
  exists header sealed, parseApplicationRecordV1 record direction (cx_MaxEnvelopeBytes context) = Ok (header, sealed).
Proof.
  unfold openApplicationFragmentV1. destruct (parseApplicationRecordV1 _ _ _) as [[header sealed]|]; [|done].
  destruct (applicationExpectedClassV1 context) as [class|]; [|done]. cbn [fst snd]. destruct (applicationOpen d _ _) as [s [body|e]]; [|done].
  destruct (negb _); [done|]. destruct (parseApplicationBodyV1 body) as [[fr cl]|]; [|done]. intros HO. injection HO as -> HO. rewrite HO. eauto.
Qed.

Lemma ack_opened direction control d record rt rt1 g a :
  openOperationAckV1 direction control record (controlOpen d RecordTypeOperationAckV1 direction) (rt, None) = ((rt1, Some g), Ok a) ->
  openOperationAckV1 direction control record
    (fun (s : strictEnvelopeStateV1 * option nat * bool) epoch sequence sealed aad =>
       let '(s', r) := controlOpen d RecordTypeOperationAckV1 direction (fst s) epoch sequence sealed aad in
       ((s', snd s || negb (isOk r)), r)) (rt, None, false) = ((rt1, Some g, false), Ok a) /\
  exists header sealed, parseControlRecordV1 record direction RecordTypeOperationAckV1 = Ok (header, sealed).
Proof.
  unfold openOperationAckV1, openControlRecordV1. destruct (parseControlRecordV1 _ _ _) as [[header sealed]|]; [|done]. cbn [fst snd].
  destruct (controlOpen d _ _ _ _ _ _) as [s [body|e]]; [|done]. destruct (parseOperationAckBodyV1 body); [|done]. intros HO. injection HO as -> ->. eauto.
Qed.
(** Receiving leaves the failure flag of the sealing side alone. *)
Lemma commit_sealFail d st g : es_sealFail (Commit d st g).1 = es_sealFail st.
Proof. unfold Commit, decide_, commitReplayV1. repeat case_match; simplify_eq/=; done. Qed.

Lemma destination_sealFail d st dst cls record base aad : es_sealFail (authenticateDestinationV1 d st dst cls record base aad).1.1 = es_sealFail st.
Proof.
  destruct (authenticateDestinationV1 _ _ _ _ _ _ _) as [[st' x] r] eqn:E. apply authenticate_pure in E. cbn. destruct r as [[b g]|e]; [by destruct E as [_ ->]|by subst].
Qed.

Lemma applicationOpen_sealFail d s envelope : es_sealFail (applicationOpen d s envelope).1.1 = es_sealFail s.1.
Proof.
  unfold applicationOpen, AuthenticateApplicationV1. rewrite <- (destination_sealFail d s.1 None nonceApplicationRecordV1 envelope 0 []).
  by destruct (authenticateDestinationV1 _ _ _ _ _ _ _) as [[rt x] [[b g]|e]].
Qed.

Lemma controlOpen_sealFail d t direction s e q sealed aad : es_sealFail (controlOpen d t direction s e q sealed aad).1.1 = es_sealFail s.1.
Proof.
  unfold controlOpen, AuthenticateControlV1. rewrite <- (destination_sealFail d s.1 None nonceControlRecordV1 (mkRecord t e direction 0 q (wrap32 (zlen sealed)) sealed) 0 aad).
  by destruct (authenticateDestinationV1 _ _ _ _ _ _ _) as [[rt x] [[b g]|err]].
Qed.

(** The record codecs touch the state only through the closure they are given. *)
Lemma openApplication_keeps {S A} (F : S -> A) direction context record (open : @ApplicationOpenV1 S) s : (forall s e, F (open s e).1 = F s) ->
  F (openApplicationFragmentV1 direction context record open s).1 = F s.
Proof.
  intros HF. unfold openApplicationFragmentV1. destruct (parseApplicationRecordV1 _ _ _) as [[h sealed]|]; [|done]. destruct (applicationExpectedClassV1 _); [|done].
  set (env := mkRecord _ _ _ _ _ _ _). rewrite <- (HF s env). destruct (open s env) as [s' r]. cbn. repeat case_match; done.
Qed.

Lemma openControl_keeps {S A B} (F : S -> A) direction recordType (parse : bytes -> result record_error B) refused control record (open : @ControlOpenV1 S) s :
  (forall s e q sealed aad, F (open s e q sealed aad).1 = F s) -> F (openControlRecordV1 direction recordType parse refused control record open s).1 = F s.
Proof.
  intros HF. unfold openControlRecordV1. destruct (parseControlRecordV1 _ _ _) as [[h sealed]|]; [|done].
  rewrite <- (HF s (ch_Epoch h) (ch_Sequence h) sealed (encodeControlAADV1 h control)). destruct (open s _ _ _ _) as [s' r]. by destruct r.
Qed.

Lemma settle_sealFail {A} d (wrap : A -> RecordDelivery.received) o : es_sealFail (settle d wrap o).1 = es_sealFail o.1.1.
Proof. destruct o as [[rt [g|]] [a|e]]; cbn; try done. rewrite <- (commit_sealFail d rt g). by destruct (Commit d rt g). Qed.

Lemma receive_sealFail direction control d rt p record : es_sealFail (receive direction control d rt p record).1 = es_sealFail rt.
Proof.
  destruct p; cbn [receive]; rewrite settle_sealFail.
  - apply (openApplication_keeps (fun s => es_sealFail s.1)), applicationOpen_sealFail.
  - apply (openControl_keeps (fun s => es_sealFail s.1)). intros. apply controlOpen_sealFail.
  - apply (openControl_keeps (fun s => es_sealFail s.1)). intros. apply controlOpen_sealFail.
Qed.
End closures.

(** ** One step of the channel *)

Section steps.
Context `{Primitives} `{Cipher}.
Context (w : world) (v : nat -> profileView) (Hshut : forall i, w_shut w i = false) (Hseen : forall i, w_seen w i = v).
Context (context : EnvelopeContextV1) (control : ControlContextV1).

Record base (ch : strictProtectedChannelV1) (p : pairV1) : Prop := {
  bs_pair : pc_pair ch = p;
  bs_context : pc_context ch = context;
  bs_control : pc_control ch = control;
}.

Definition endIs (ch : strictProtectedChannelV1) (who : side) (env : EnvelopeCodecV1 * strictEnvelopeStateV1) (e : Z) : Prop :=
  envOf ch who = env /\ epochOf ch who = e.
Definition sameEnd (ch ch' : strictProtectedChannelV1) (who : side) : Prop := endIs ch' who (envOf ch who) (epochOf ch who).

(** An end whose checks pass. *)
Record live (p : pairV1) (who : side) (s : KeySchedule) : Prop := {
  lv_open : pr_closed p = false;
  lv_valid : validStrictCandidateLockedV1 p (lifeOf p who) = true;
  lv_schedule : k_schedule (lf_keys (lifeOf p who)) = Some s;
  lv_profile : forall n, profileGenerationValueLockedV1 (lifeOf p who) (v n) = Ok tt;
}.

(** The envelope of [role] after it was brought to the epoch of [s]. *)
Definition refreshed (ch : strictProtectedChannelV1) (role : side) (s : KeySchedule) : result error (EnvelopeCodecV1 * strictEnvelopeStateV1) :=
  if epochOf ch role =? Epoch s then Ok (envOf ch role) else newEnvelope role s context.

Lemma refreshed_same ch ch' role s : sameEnd ch ch' role -> refreshed ch' role s = refreshed ch role s.
Proof using Type. intros [E1 E2]. unfold refreshed. by rewrite E1, E2. Qed.

Lemma sameEnd_trans ch ch1 ch2 who : sameEnd ch ch1 who -> sameEnd ch1 ch2 who -> sameEnd ch ch2 who.
Proof using Type. intros [E1 E2] [E3 E4]. split; congruence. Qed.

Lemma base_setEnv ch p who env e : base ch p -> base (setEnv ch who env e) p.
Proof using Type. intros []. by destruct who; constructor. Qed.
Lemma end_setEnv ch who env e : endIs (setEnv ch who env e) who env e /\ sameEnd ch (setEnv ch who env e) (peerOf who).
Proof using Type. by destruct who. Qed.
Lemma base_setEnvState ch p who st : base ch p -> base (setEnvState ch who st) p.
Proof using Type. apply base_setEnv. Qed.
Lemma end_setEnvState ch who c st0 st e : endIs ch who (c, st0) e -> endIs (setEnvState ch who st) who (c, st) e /\ sameEnd ch (setEnvState ch who st) (peerOf who).
Proof using Type. intros [E1 E2]. destruct (end_setEnv ch who (c, st) e) as [X1 X2]. unfold setEnvState. rewrite E1, E2. done. Qed.

Lemma base_setPair ch p p' : base ch p -> base (setPair ch p') p'.
Proof using Type. intros []. by constructor. Qed.
Lemma setPair_ends ch p who : sameEnd ch (setPair ch p) who.
Proof using Type. by destruct who. Qed.
Lemma base_observe ch p key class e slot q : base ch p -> base (observeAllocationV1 ch key class e slot q) p.
Proof using Type. intros []. by constructor. Qed.
Lemma observe_ends ch key class e slot q who : sameEnd ch (observeAllocationV1 ch key class e slot q) who.
Proof using Type. by destruct who. Qed.

Lemma enter_quiet i ch : enter w i ch = ch.
Proof using Hshut. unfold enter. by rewrite Hshut. Qed.

Lemma onPair_quiet {A} i ch p p' f (x : A) : base ch p -> f p v = (p', Ok x) -> onPair w i ch f = (setPair ch p', Ok x).
Proof using Hseen Hshut. intros [E _ _] HF. unfold onPair. by rewrite enter_quiet, Hseen, E, HF. Qed.

Lemma ensure_step i ch p owner role s env : base ch p -> live p owner s -> refreshed ch role s = Ok env ->
  exists ch', ensureEnvelopeForLifeV1 w i ch owner role = (ch', Ok (Epoch s)) /\ base ch' p /\ endIs ch' role env (Epoch s) /\ sameEnd ch ch' (peerOf role).
Proof using Hshut.
  intros HB [L1 L2 L3 _] HR. unfold ensureEnvelopeForLifeV1. rewrite enter_quiet, (bs_pair _ _ HB), L3, L2, L1. cbn [negb orb].
  unfold refreshed in HR. unfold ensureRoleEnvelopeV1. rewrite (bs_context _ _ HB). destruct (Z.eqb_spec (epochOf ch role) (Epoch s)) as [E|_].
  - apply Ok_inj in HR as <-. exists ch. done.
  - rewrite HR. cbn [rbind]. eexists. split; [done|]. split; [by apply base_setEnv|]. apply end_setEnv.
Qed.

Lemma publish_step i ch p who s record : base ch p -> live p who s -> lf_state (lifeOf p who) = StateEstablished -> publishRecordV1 w i ch who record = (ch, Ok record).
Proof using Hseen Hshut.
  intros HB [L1 L2 _ L4] HS. unfold publishRecordV1. rewrite enter_quiet, (bs_pair _ _ HB), L2, L1, HS, Hseen, L4, bool_decide_eq_true_2 by done. done.
Qed.

Lemma guard_step i ch p who s : base ch p -> live p who s -> guardOpenV1 w i ch who = (ch, Ok tt).
Proof using Hseen Hshut. intros HB [L1 L2 _ L4]. unfold guardOpenV1. by rewrite enter_quiet, (bs_pair _ _ HB), L2, L1, Hseen, L4. Qed.

(** ** The four operations of a round trip *)

(** The single fragment of an operation. *)
Definition whole (id payload : bytes) : ApplicationFragmentV1 := mkFragment id 0 1 (wrap32 (zlen payload)) 0 payload.

Lemma seal_step ch p life t s c st st' record payload slot : base ch p -> 1 <= zlen payload <= 4294967295 ->
  beginOperationV1 p Client slot v = (setLife p Client life, Ok t) -> live (setLife p Client life) Client s -> lf_state life = StateEstablished ->
  refreshed ch Client s = Ok (c, st) -> ec_context c = context ->
  send controlDirectionClientV1 control c (tx_recordEpoch t) (tx_recordSequence t) st (PFragment (tx_streamSlot t) (whole (tx_operationID t) payload)) = (st', Ok record) ->
  exists ch', sealClientApplicationV1 w ch slot payload = (ch', tx_operationID t, Ok record) /\ base ch' (setLife p Client life) /\
    endIs ch' Client (c, st') (Epoch s) /\ sameEnd ch ch' Relay.
Proof using Hseen Hshut.
  intros HB Hlen HBegin HL Hst HR Hc HS. unfold sealClientApplicationV1, sealApplicationV1.
  destruct (Z.eqb_spec (zlen payload) 0); [lia|]. destruct (Z.ltb_spec 4294967295 (zlen payload)); [lia|]. cbn [orb].
  rewrite (onPair_quiet 0 ch p _ _ _ HB HBegin). cbn [is_Some]. rewrite bool_decide_eq_false_2 by (by intros []). cbn [andb].
  set (ch1 := setPair ch _). assert (B1 : base ch1 (setLife p Client life)) by (by eapply base_setPair).
  set (ch2 := observeAllocationV1 _ _ _ _ _ _). assert (B2 : base ch2 (setLife p Client life)) by (by apply base_observe).
  assert (S2 : forall who, sameEnd ch ch2 who) by (intros who; eapply sameEnd_trans; [apply setPair_ends|apply observe_ends]).
  rewrite <- (refreshed_same _ ch2 _ _ (S2 Client)) in HR.
  destruct (ensure_step 1 ch2 _ Client Client s _ B2 HL HR) as (ch3 & -> & B3 & E3 & S3). cbn [peerOf] in S3.
  unfold sealFragment, sealOn. cbn [directionOf]. rewrite (proj1 E3). cbn [fst snd]. rewrite (bs_context _ _ B3), <- Hc. cbn [send] in HS. fold (whole (tx_operationID t) payload). rewrite HS. cbn [map_err].
  destruct (end_setEnvState _ _ _ _ st' _ E3) as [E4 S4]. pose proof (base_setEnvState _ _ Client st' B3) as B4.
  rewrite (publish_step 2 _ _ Client s record B4 HL Hst). eexists. split; [done|]. split; [done|]. split; [done|].
  eapply sameEnd_trans; [apply S2|]. by eapply sameEnd_trans.
Qed.

Lemma open_step ch p life t s sR d rt rt' record payload ack n sealed : base ch p ->
  record = encodeApplicationHeaderV1 (mkAppHeader 1 1 (tx_recordEpoch t) 1 (tx_streamSlot t) (tx_recordSequence t) n) ++ sealed ->
  typedAppHeader (mkAppHeader 1 1 (tx_recordEpoch t) 1 (tx_streamSlot t) (tx_recordSequence t) n) ->
  live p Client s -> live p Relay sR -> refreshed ch Relay s = Ok (d, rt) -> ec_context d = context ->
  receive controlDirectionClientV1 control d rt (PFragment (tx_streamSlot t) (whole (tx_operationID t) payload)) record
    = (rt', Ok (RFragment (whole (tx_operationID t) payload))) ->
  sd_issuedOperations (lf_send (pr_client p)) !! mkKey (tx_streamSlot t) (tx_recordEpoch t) (tx_recordSequence t) = Some t ->
  (forall S (f : S -> S * result lifecycle_error unit) x x', f x = (x', Ok tt) ->
    commitFirstAuthenticatedOperationV1 p Relay t v f x = (x', setLife p Relay life, Ok ack)) ->
  rc_lastCommitDeliver (lf_recv life) = true ->
  exists ch', openClientApplicationV1 w ch record = (ch', Ok (Some payload, ack)) /\ base ch' (setLife p Relay life) /\
    endIs ch' Relay (d, rt') (Epoch s) /\ sameEnd ch ch' Client.
Proof using Hseen Hshut.
  intros HB Hrec Hty HLC HLR HR Hd HO Hiss HC Hdel. cbn [receive] in HO. rewrite Hd in HO. apply settled_open in HO as (rt1 & g & a & HO & Ha & Hcm). injection Ha as <-.
  apply application_opened in HO as [HO (header & sealed' & HP)]. pose proof (app_header_parsed _ _ _ _ _ _ _ HP Hrec Hty) as ->.
  unfold openClientApplicationV1, openApplicationV1. cbn [peerOf directionOf]. rewrite (guard_step 0 ch p Relay sR HB HLR), (bs_context _ _ HB).
  change controlDirectionClientV1 with 1 in *. rewrite HP.
  destruct (ensure_step 1 ch p Client Relay s _ HB HLC HR) as (ch1 & -> & B1 & E1 & S1). cbn [peerOf] in S1. rewrite (proj1 E1). cbn [fst snd].
  rewrite (bs_context _ _ B1), HO.
  destruct (end_setEnvState _ _ _ _ rt1 _ E1) as [E2 S2]. pose proof (base_setEnvState _ _ Relay rt1 B1) as B2. set (ch2 := setEnvState ch1 Relay rt1) in *.
  unfold lookupIssuedOperationV1. rewrite enter_quiet, (bs_pair _ _ B2), (lv_valid _ _ _ HLC), (lv_open _ _ _ HLC). cbn [negb orb lifeOf ah_StreamSlot ah_Epoch ah_Sequence]. rewrite Hiss.
  cbn [whole fr_OperationID fr_FragmentCount fr_FragmentIndex fr_FragmentOffset fr_Fragment fr_OperationLength]. rewrite bool_decide_eq_true_2, !Z.eqb_refl by done. cbn [negb orb Z.eqb Pos.eqb].
  unfold commitOperation. rewrite enter_quiet, Hseen, (bs_pair _ _ B2), (proj1 E2). cbn [snd].
  erewrite HC; [|cbn [fst snd]; unfold replayCommit; rewrite Hcm; reflexivity]. cbn [fst snd map_err].
  set (ch3 := setPair _ _). assert (B3 : base ch3 (setLife p Relay life)).
  { unfold ch3. eapply base_setPair. destruct (base_setEnvState _ _ Relay rt' B2). constructor; done. }
  destruct (end_setEnvState _ _ _ _ rt' _ E2) as [E3 S3]. eexists. split; [unfold delivery; rewrite (bs_pair _ _ B3); cbn [lifeOf setLife pr_relay]; by rewrite Hdel|].
  split; [done|]. split; [done|]. eapply sameEnd_trans; [exact S1|]. eapply sameEnd_trans; [exact S2|exact S3].
Qed.

Lemma sealAck_step ch p life t s c st st' record : base ch p ->
  beginOperationAckV1 p Relay (ack_OperationID (at_ack t)) v = (setLife p Relay life, Ok t) -> live (setLife p Relay life) Relay s -> lf_state life = StateEstablished ->
  refreshed ch Relay s = Ok (c, st) ->
  send controlDirectionRelayV1 control c (at_recordEpoch t) (at_recordSequence t) st (PAck (at_ack t)) = (st', Ok record) ->
  exists ch', sealRelayAckV1 w ch (ack_OperationID (at_ack t)) false = (ch', Ok record) /\ base ch' (setLife p Relay life) /\
    endIs ch' Relay (c, st') (Epoch s) /\ sameEnd ch ch' Client.
Proof using Hseen Hshut.
  intros HB HBegin HL Hst HR HS. unfold sealRelayAckV1. rewrite (onPair_quiet 0 ch p _ (fun p seen => reserveOperationAckV1 p Relay (ack_OperationID (at_ack t)) false seen) _ HB HBegin).
  set (ch1 := setPair ch _). assert (B1 : base ch1 (setLife p Relay life)) by (by eapply base_setPair).
  rewrite <- (refreshed_same _ ch1 _ _ (setPair_ends _ _ Relay)) in HR.
  destruct (ensure_step 1 ch1 _ Relay Relay s _ B1 HL HR) as (ch2 & -> & B2 & E2 & S2). cbn [peerOf] in S2.
  set (ch3 := observeAllocationV1 _ _ _ _ _ _). pose proof (base_observe _ _ (pc_relayKey ch2) 2 (at_recordEpoch t) 0 (at_recordSequence t) B2) as B3. fold ch3 in B3.
  assert (E3 : endIs ch3 Relay (c, st) (Epoch s)) by exact E2.
  unfold sealOn. rewrite (proj1 E3). cbn [fst snd]. rewrite (bs_control _ _ B3). cbn [send] in HS. rewrite HS. cbn [map_err].
  destruct (end_setEnvState _ _ _ _ st' _ E3) as [E4 S4]. pose proof (base_setEnvState _ _ Relay st' B3) as B4.
  rewrite (publish_step 2 _ _ Relay s record B4 HL Hst). eexists. split; [done|]. split; [done|]. split; [done|].
  exact (sameEnd_trans _ _ _ _ (setPair_ends _ _ Client) (sameEnd_trans _ _ _ _ S2 S4)).
Qed.

Lemma openAck_step ch p life t s sC d rt rt' record n sealed : base ch p ->
  record = encodeControlHeaderV1 (mkControlHeader 1 RecordTypeOperationAckV1 (at_recordEpoch t) 2 (at_recordSequence t) n) ++ sealed ->
  typedControlHeader (mkControlHeader 1 RecordTypeOperationAckV1 (at_recordEpoch t) 2 (at_recordSequence t) n) ->
  live p Relay s -> live p Client sC -> refreshed ch Client s = Ok (d, rt) ->
  receive controlDirectionRelayV1 control d rt (PAck (at_ack t)) record = (rt', Ok (RAck (at_ack t))) ->
  (forall S (f : S -> S * result lifecycle_error unit) x x', f x = (x', Ok tt) ->
    commitStrictAuthenticatedOperationAckV1 p Client controlDirectionRelayV1 (at_recordEpoch t) (at_recordSequence t) (at_ack t) v f x
      = (x', setLife p Client life, Ok tt)) ->
  exists ch', openRelayAckV1 w ch record = (ch', Ok tt) /\ base ch' (setLife p Client life) /\
    endIs ch' Client (d, rt') (Epoch s) /\ sameEnd ch ch' Relay.
Proof using Hseen Hshut.
  intros HB Hrec Hty HLR HLC HR HO HC. cbn [receive] in HO. apply settled_open in HO as (rt1 & g & a & HO & Ha & Hcm). injection Ha as <-.
  apply ack_opened in HO as [HO (header & sealed' & HP)]. pose proof (control_header_parsed _ _ _ _ _ _ _ HP Hrec Hty) as ->.
  unfold openRelayAckV1. rewrite (guard_step 0 ch p Client sC HB HLC), HP.
  destruct (ensure_step 1 ch p Relay Client s _ HB HLR HR) as (ch1 & -> & B1 & E1 & S1). cbn [peerOf] in S1.
  change (pc_clientEnvelope ch1) with (envOf ch1 Client). rewrite (proj1 E1). cbn [fst snd]. rewrite (bs_control _ _ B1), HO.
  destruct (end_setEnvState _ _ _ _ rt1 _ E1) as [E2 S2]. pose proof (base_setEnvState _ _ Client rt1 B1) as B2. set (ch2 := setEnvState ch1 Client rt1) in *.
  rewrite enter_quiet, Hseen, (bs_pair _ _ B2). change (pc_clientEnvelope ch2) with (envOf ch2 Client). rewrite (proj1 E2). cbn [snd ch_Direction ch_Epoch ch_Sequence].
  change 2 with controlDirectionRelayV1. erewrite HC; [|unfold replayCommit; rewrite Hcm; reflexivity]. cbn [fst snd].
  set (ch3 := setPair _ _). assert (B3 : base ch3 (setLife p Client life)) by (unfold ch3; eapply base_setPair; exact (base_setEnvState _ _ Client rt' B2)).
  destruct (end_setEnvState _ _ _ _ rt' _ E2) as [E3 S3]. eexists. split; [done|]. split; [done|]. split; [done|].
  eapply sameEnd_trans; [exact S1|]. eapply sameEnd_trans; [exact S2|exact S3].
Qed.
End steps.

(** ** Envelopes and sequences in step *)

Section trips.
Context `{Primitives} `{Cipher} (CL : CipherLaws _).
Context (pid : Z) (epoch : bytes) (seen0 : nat -> profileView) (sched : KeySchedule).
Context (config : StrictSessionConfigV1) (policy : EffectiveSecurityPolicy) (th : bytes) (p0 : pairV1).
Context (Hnew : newPair pid epoch seen0 sched sched config config policy th = Ok p0).
Context (HT : typedStrict config) (HV : validateStrictSessionConfigV1 config = Ok tt).
Context (Hmode : mem (eff_NonceMode policy) [NonceModeCounterXORBaseV1; NonceModeCounterAppendBaseV1;
                                             NonceModeDirectionalCounterV1; NonceModeStreamPartitionedCounterV1] = true).
Context (Hrot : mem (eff_KeyRotationPolicy policy) ["message_lifetime_bound"; "profile_lifetime_bound"] = true).
Context (Hpolicy : isOk (NewReplayWindowV1 (eff_ReplayPolicy policy) (sc_ReplayWindowSize config)) = true).
Context (slot : Z) (Hslot : 1 <= slot < 65536) (w : world) (v : nat -> profileView) (count : nat).
Context (Hshut : forall i, w_shut w i = false) (Hseen : forall i, w_seen w i = v).
Context (Hview : forall who n, profileGenerationValueLockedV1 (lifeOf p0 who) (v n) = Ok tt).
Context (context : EnvelopeContextV1) (control : ControlContextV1) (maxFrameBytes ordinal : Z) (observer : strictNonceObserverV1) (ch0 : strictProtectedChannelV1).
Context (Hchannel : newStrictProtectedChannelV1 p0 context control maxFrameBytes ordinal observer = Ok ch0).
Context (Hcontext : cx_EffectivePolicy context = policy) (Hmax : u32 (cx_MaxEnvelopeBytes context)).
Context (class : Z) (Hclass : applicationExpectedClassV1 context = Ok class).

Definition isClient (who : side) : bool := bool_decide (who = Client).
Definition codecOf (s : KeySchedule) (who : side) : EnvelopeCodecV1 :=
  mkEnvelopeCodec context (Epoch s) (Some (writeKey s (isClient who))) (Some (writeKey s (negb (isClient who)))).
Definition dirOf (s : KeySchedule) (who : side) : nonceDirectionConfigV1 := dirConfig s (eff_NonceMode policy) (isClient who).

(** The envelope of an end under schedule [s]: counters [f], accepted [h]. *)
Definition sound (who : side) (s : KeySchedule) (f : Nonce.Spec.counters) (h : Z -> list Z) (st : strictEnvelopeStateV1) : Prop :=
  good (codecOf s who) (dirOf s who) (dirOf s (peerOf who)) f h st /\ es_sealFail st = false.

Lemma newEnvelope_sound who s : isOk (newEnvelope who s context) = true ->
  exists st, newEnvelope who s context = Ok (codecOf s who, st) /\ sound who s (fun _ => 0) (fun _ => []) st.
Proof using Hcontext.
  destruct (newEnvelope who s context) as [[c st]|] eqn:E; [|done]. intros _. exists st. apply newRole_good in E as (-> & HG & _ & HF).
  rewrite Hcontext in HG. split; [done|]. split; [|done]. unfold dirOf, codecOf, isClient. by destruct who.
Qed.

(** A value of schedule [s] that starts anew with another schedule. *)
Definition since {A} (s s' : KeySchedule) (x y : A) : A := if Epoch s =? Epoch s' then x else y.
Definition next (s s' : KeySchedule) : Prop := s' = s \/ Epoch s <> Epoch s' /\ forall who, isOk (newEnvelope who s' context) = true.

Lemma refresh_sound ch who s s' f h st : endIs ch who (codecOf s who, st) (Epoch s) -> sound who s f h st -> next s s' ->
  exists st', refreshed context ch who s' = Ok (codecOf s' who, st') /\ sound who s' (since s s' f (fun _ => 0)) (since s s' h (fun _ => [])) st'.
Proof using Hcontext.
  intros [E1 E2] HS [->|[Hne HN]]; unfold refreshed, since; rewrite E2.
  - rewrite Z.eqb_refl, E1. eauto.
  - destruct (Z.eqb_spec (Epoch s) (Epoch s')); [done|]. by apply newEnvelope_sound.
Qed.

(** The counters of an envelope are the sequences of its end. *)
Definition part : bool := bool_decide (eff_NonceMode policy = NonceModeStreamPartitionedCounterV1).
Definition domain (n : Z) : Z := if part then n else 0.
Definition tied (k : keyStateV1) (f : Nonce.Spec.counters) : Prop := forall n, f (domain n) = seqOf part k n.

Lemma codec_domain s who n : replayKeyV1 (codecOf s who) n = domain n.
Proof using Hcontext. unfold replayKeyV1, domain, part, codecOf. cbn [ec_context]. by rewrite Hcontext. Qed.

Lemma tied_followed s s' k k' f : tied k f -> k_keyEpoch k = Epoch s -> followed part k k' (Epoch s') -> tied k' (since s s' f (fun _ => 0)).
Proof using Type. intros HT' HE HF n. rewrite (HF n). unfold seqIn, since. rewrite HE, Z.eqb_sym. by destruct (_ =? _). Qed.

Lemma tied_advanced s s' k k' f n q : tied k f -> k_keyEpoch k = Epoch s -> advanced part n k k' (Epoch s') q ->
  q = since s s' f (fun _ => 0) (domain n) /\ tied k' (Nonce.Spec.bump (since s s' f (fun _ => 0)) (domain n)).
Proof using Type.
  intros HT' HE [HQ HA]. assert (HX : forall m, since s s' f (fun _ => 0) (domain m) = seqIn part k (Epoch s') m).
  { intros m. unfold seqIn, since. rewrite HE, Z.eqb_sym. by destruct (_ =? _). }
  split; [by rewrite HX|]. intros m. rewrite HA. unfold Nonce.Spec.bump. rewrite !HX. unfold domain. destruct part; cbn [negb orb].
  - destruct (Z.eqb_spec m n) as [->|]; lia.
  - by rewrite Z.eqb_refl.
Qed.

Record linkedBy (ch : strictProtectedChannelV1) (p : pairV1) (s : KeySchedule)
    (f : side -> Nonce.Spec.counters) (h : side -> Z -> list Z) (st : side -> strictEnvelopeStateV1) : Prop := {
  ln_env : forall who, endIs ch who (codecOf s who, st who) (Epoch s);
  ln_sound : forall who, sound who s (f who) (h who) (st who);
  ln_step : forall who, inStep (f who) (h (peerOf who));
  ln_tied : forall who, tied (lf_keys (lifeOf p who)) (f who);
}.
Definition linked ch p s : Prop := exists f h st, linkedBy ch p s f h st.

Definition choose {A} (who : side) (x y : A) (w : side) : A := if bool_decide (w = who) then x else y.

(** One record from [who] to its peer, whose key states become [kA] and [kB]. *)
Lemma half_exchange ch p who s s' pl kA kB q : linked ch p s -> next s s' -> validPayload context pl -> u64 (Epoch s') -> 0 <= q < 2 ^ 64 ->
  (forall x, k_keyEpoch (lf_keys (lifeOf p x)) = Epoch s) ->
  advanced part (slotOf pl) (lf_keys (lifeOf p who)) kA (Epoch s') q -> followed part (lf_keys (lifeOf p (peerOf who))) kB (Epoch s') ->
  exists st rt st' rt' record,
    refreshed context ch who s' = Ok (codecOf s' who, st) /\ refreshed context ch (peerOf who) s' = Ok (codecOf s' (peerOf who), rt) /\
    send (directionOf who) control (codecOf s' who) (Epoch s') q st pl = (st', Ok record) /\
    receive (directionOf who) control (codecOf s' (peerOf who)) rt pl record = (rt', Ok (expected pl)) /\
    forall ch' p', endIs ch' who (codecOf s' who, st') (Epoch s') -> endIs ch' (peerOf who) (codecOf s' (peerOf who), rt') (Epoch s') ->
      lf_keys (lifeOf p' who) = kA -> lf_keys (lifeOf p' (peerOf who)) = kB -> linked ch' p' s'.
Proof using CL Hclass Hcontext Hmax.
  intros (f & h & st & [L1 L2 L3 L4]) HN HP HU Hq HE HA HF.
  destruct (refresh_sound _ _ _ _ _ _ _ (L1 who) (L2 who) HN) as (sA & RA & [GA FA]).
  destruct (refresh_sound _ _ _ _ _ _ _ (L1 (peerOf who)) (L2 (peerOf who)) HN) as (sB & RB & [GB FB]).
  destruct (tied_advanced _ _ _ _ _ _ _ (L4 who) (HE who) HA) as [Q TA]. pose proof (tied_followed _ _ _ _ _ (L4 (peerOf who)) (HE (peerOf who)) HF) as TB.
  set (fA := since s s' (f who) (fun _ => 0)) in *. set (fB := since s s' (f (peerOf who)) (fun _ => 0)) in *.
  set (hA := since s s' (h who) (fun _ => [])) in *. set (hB := since s s' (h (peerOf who)) (fun _ => [])) in *.
  assert (I1 : inStep fA hB) by (intros k; unfold fA, hB, since; destruct (_ =? _); [apply L3|done]).
  assert (I2 : inStep fB hA) by (intros k; unfold fB, hA, since; destruct (_ =? _); [pose proof (L3 (peerOf who)) as L3'; rewrite peer_peer in L3'; apply L3'|done]).
  rewrite peer_peer in GB.
  assert (Hlt : fA (replayKeyV1 (codecOf s' who) (slotOf pl)) < 2 ^ 64) by (rewrite codec_domain, <- Q; lia).
  destruct (payload_one CL (codecOf s' who) (codecOf s' (peerOf who)) (dirOf s' who) (dirOf s' (peerOf who)) (dirOf s' (peerOf who)) control class
              eq_refl ltac:(by destruct who) ltac:(by destruct who) (writeKey s' (isClient who)) eq_refl ltac:(by destruct who) Hmax Hclass
              ltac:(destruct who; [by left|by right]) ltac:(by destruct who) fA hA sA fB hB sB pl GA GB FA I1 HP Hlt)
    as (st' & rt' & record & HS & HR & HF' & HG & h2 & HD & HI).
  rewrite codec_domain in HS, HG, HI. rewrite <- Q in HS.
  replace (direction (dirOf s' who)) with (directionOf who) in * by by destruct who. replace (Nonce.epoch (dirOf s' who)) with (Epoch s') in * by by destruct who.
  exists sA, sB, st', rt', record. split_and!; try done. intros ch' p' E1 E2 K1 K2.
  assert (S1 : sound who s' (Nonce.Spec.bump fA (domain (slotOf pl))) hA st') by done.
  assert (S2 : sound (peerOf who) s' fB h2 rt').
  { split; [by rewrite peer_peer|]. pose proof (receive_sealFail (directionOf who) control (codecOf s' (peerOf who)) sB pl record) as HX. rewrite HR in HX. cbn in HX. by rewrite HX. }
  exists (choose who (Nonce.Spec.bump fA (domain (slotOf pl))) fB), (choose who hA h2), (choose who st' rt').
  constructor; intros x; destruct who, x; unfold choose in *; cbn [peerOf bool_decide] in *; try done; by rewrite ?K1, ?K2.
Qed.

(** ** A round trip of the channel *)

Context (Hreach : forall m, (m <= 2 * count)%nat -> exists s, reaches sched s m).
Context (Henv : forall m s who, (m <= 2 * count)%nat -> reaches sched s m -> isOk (newEnvelope who s context) = true).
Context (Hids : forall i j e e', 0 <= i < j -> j < Z.of_nat count -> 0 <= e <= bound count -> 0 <= e' <= bound count -> opId th slot e i <> opId th slot e' j).
Context (Hid : forall i e, 0 <= i < Z.of_nat count -> 0 <= e <= bound count -> zlen (opId th slot e i) = 32 /\ zeroHashV1 (opId th slot e i) = false).

Lemma schedule_epoch s e : reaches sched s e -> Epoch s = Z.of_nat e /\ u64 (Epoch s).
Proof using Hnew. apply ratchetN_epoch. by destruct (schedule_zero _ _ _ _ _ _ _ _ _ Hnew). Qed.

Lemma next_reached s s' e e' : reaches sched s e -> reaches sched s' e' -> (e' <= 2 * count)%nat -> next s s'.
Proof using Hnew Henv.
  intros H1 H2 He. destruct (decide (e = e')) as [->|Hne].
  - left. unfold reaches in *. rewrite H1 in H2. by apply Ok_inj in H2.
  - right. destruct (schedule_epoch _ _ H1) as [E1 _], (schedule_epoch _ _ H2) as [E2 _]. split; [lia|]. intros who. by eapply Henv.
Qed.

Lemma reached_same s s' e : reaches sched s e -> reaches sched s' e -> s' = s.
Proof using Type. unfold reaches. intros H1 H2. rewrite H1 in H2. by apply Ok_inj in H2. Qed.

Lemma live_end p who s e : settled pid epoch p -> sameIdentity p0 who (lifeOf p who) -> keyed config (lifeOf p who) s e -> live v p who s.
Proof using Hnew Hmode Hview.
  intros HS HI HK. constructor; [apply HS|by eapply keyed_strict|apply HK|]. intros n. by eapply profile_id.
Qed.

Lemma position_range life life' n s s' e e' q : keyed config life s e -> keyed config life' s' e' -> partitioned life' = partitioned life ->
  advanced (partitioned life) n (lf_keys life) (lf_keys life') e' q -> 0 <= q < 2 ^ 24.
Proof using HT HV.
  intros HK HK' HP [HQ HA]. pose proof (L_range _ HT HV) as [HL1 HL2]. specialize (HA n). rewrite Z.eqb_refl, orb_true_r, <- HQ in HA.
  pose proof (kd_low _ _ _ _ HK' n) as X1. rewrite HP, HA in X1. pose proof (kd_out _ _ _ _ HK') as X2. pose proof (kd_low _ _ _ _ HK n) as X3.
  split; [|lia]. rewrite HQ. unfold seqIn. destruct (_ =? _); lia.
Qed.

Lemma whole_valid id payload : zlen id = 32 -> zeroHashV1 id = false -> 1 <= zlen payload <= cx_MaxEnvelopeBytes context - 70 -> validPayload context (PFragment slot (whole id payload)).
Proof using Hslot Hmax.
  intros H1 H2 H3. unfold_widths. assert (Hw : wrap32 (zlen payload) = zlen payload) by (apply wrap32_small; unfold_widths; lia).
  split; [done|]. split; [constructor; cbn; unfold_widths; rewrite ?Hw; lia|]. split; [|cbn; lia].
  unfold validApplicationFragmentV1, whole. cbn [fr_OperationID fr_FragmentCount fr_OperationLength fr_Fragment fr_FragmentIndex fr_FragmentOffset].
  rewrite H2, Hw, Z.add_0_l, (wrap64_small (zlen payload)) by (unfold_widths; lia). destruct (Z.eqb_spec (zlen payload) 0); [lia|].
  destruct (Z.ltb_spec 4294967295 (zlen payload)); [lia|]. cbn [orb Z.eqb Z.leb Z.compare]. rewrite Z.ltb_irrefl, Z.eqb_refl. done.
Qed.

(** From the client to the relay. *)
Lemma forward_half ch p s s3 (e e3 k : nat) c1 r2 q payload :
  let id := opId th slot (Z.of_nat e3) (Z.of_nat k) in
  let t := mkTransmission Client pid id 1 (Z.of_nat e3) slot (Z.of_nat k) (Z.of_nat e3) q 1 in
  let p1 := setLife p Client c1 in let p2 := setLife p1 Relay r2 in
  base context control ch p -> linked ch p s -> settled pid epoch p ->
  sameIdentity p0 Client (pr_client p) -> sameIdentity p0 Relay (pr_relay p) -> sameIdentity p0 Client c1 ->
  keyed config (pr_client p) s (Z.of_nat e) -> keyed config (pr_relay p) s (Z.of_nat e) -> keyed config c1 s3 (Z.of_nat e3) ->
  reaches sched s e -> reaches sched s3 e3 -> (e3 <= 2 * count)%nat -> (k < count)%nat -> lf_state c1 = StateEstablished ->
  1 <= zlen payload <= cx_MaxEnvelopeBytes context - 70 ->
  beginOperationV1 p Client slot v = (p1, Ok t) ->
  (forall S (f : S -> S * result lifecycle_error unit) x x', f x = (x', Ok tt) ->
    commitFirstAuthenticatedOperationV1 p1 Relay t v f x = (x', p2, Ok (mkAck id (Z.of_nat k + 1)))) ->
  rc_lastCommitDeliver (lf_recv r2) = true -> sd_issuedOperations (lf_send c1) !! mkKey slot (Z.of_nat e3) q = Some t ->
  advanced (partitioned (pr_client p)) slot (lf_keys (pr_client p)) (lf_keys c1) (Z.of_nat e3) q ->
  followed (partitioned (pr_relay p)) (lf_keys (pr_relay p)) (lf_keys r2) (Z.of_nat e3) ->
  exists ch1 record ch2, sealClientApplicationV1 w ch slot payload = (ch1, id, Ok record) /\
    openClientApplicationV1 w ch1 record = (ch2, Ok (Some payload, mkAck id (Z.of_nat k + 1))) /\
    base context control ch2 p2 /\ linked ch2 p2 s3.
Proof using CL Hclass Hcontext Henv HT HV Hid Hmax Hmode Hnew Hseen Hshut Hslot Hview.
  intros id t p1 p2 HB HL HS IC IR IC1 KC KR K1 R0 R3 He Hk Hst Hlen HBegin HC Hdel Hiss HA HF.
  destruct (schedule_epoch _ _ R0) as [E0 _], (schedule_epoch _ _ R3) as [E3 U3].
  destruct (Hid (Z.of_nat k) (Z.of_nat e3) ltac:(lia) ltac:(unfold bound; lia)) as [I1 I2]. fold id in I1, I2.
  pose proof (partitioned_id _ _ _ _ _ _ _ _ _ Hnew _ _ IC) as PC. pose proof (partitioned_id _ _ _ _ _ _ _ _ _ Hnew _ _ IR) as PR.
  pose proof (partitioned_id _ _ _ _ _ _ _ _ _ Hnew _ _ IC1) as P1.
  pose proof (position_range _ _ _ _ _ _ _ _ KC K1 ltac:(by rewrite PC) HA) as Hq. rewrite PC, <- E3 in HA. rewrite PR, <- E3 in HF. fold part in HA, HF.
  destruct (half_exchange ch p Client s s3 (PFragment slot (whole id payload)) (lf_keys c1) (lf_keys r2) q HL (next_reached _ _ _ _ R0 R3 He)
              (whole_valid _ _ I1 I2 Hlen) U3 ltac:(lia)) as (st & rt & st' & rt' & record & F1 & F2 & HSend & HRecv & HL'); [|exact HA|exact HF|].
  { intros x. rewrite E0. destruct x; [apply KC|apply KR]. }
  cbn [peerOf directionOf] in *. unfold_widths.
  pose proof (settled_set _ _ _ Client c1 HS) as HS1. fold p1 in HS1.
  pose proof (live_end p1 Client s3 _ HS1 IC1 K1) as LC. pose proof (live_end p1 Relay s _ HS1 IR KR) as LR.
  assert (HSend' : send controlDirectionClientV1 control (codecOf s3 Client) (tx_recordEpoch t) (tx_recordSequence t) st
    (PFragment (tx_streamSlot t) (whole (tx_operationID t) payload)) = (st', Ok record)) by (cbn [t tx_recordEpoch tx_recordSequence]; rewrite <- E3; exact HSend).
  destruct (seal_step w v Hshut Hseen context control ch p c1 t s3 (codecOf s3 Client) st st' record payload slot HB ltac:(lia) HBegin LC Hst F1 eq_refl HSend')
    as (ch1 & HSeal & B1 & En1 & Sm1).
  destruct (application_header Client _ _ _ _ _ _ _ _ _ HSend') as (n & sealed & Hn & Hrec).
  destruct (open_step w v Hshut Hseen context control ch1 p1 r2 t s3 s (codecOf s3 Relay) rt rt' record payload (mkAck id (Z.of_nat k + 1)) n sealed)
    as (ch2 & HOpen & B2 & En2 & Sm2); try done.
  { unfold_widths. constructor; cbn; unfold_widths; lia. }
  { by rewrite (refreshed_same _ _ _ _ _ Sm1). }
  exists ch1, record, ch2. split; [exact HSeal|]. split; [exact HOpen|]. split; [exact B2|]. apply HL'; try done.
  destruct En1 as [X1 X2]. by rewrite <- X1, <- X2.
Qed.

(** From the relay back to the client. *)
Lemma backward_half ch p s s6 (e e6 : nat) k id r3 c4 q :
  let t := mkAckTransmission Relay pid (mkAck id k) (Z.of_nat e6) q 1 in
  let p3 := setLife p Relay r3 in let p4 := setLife p3 Client c4 in
  base context control ch p -> linked ch p s -> settled pid epoch p ->
  sameIdentity p0 Client (pr_client p) -> sameIdentity p0 Relay (pr_relay p) -> sameIdentity p0 Relay r3 ->
  keyed config (pr_client p) s (Z.of_nat e) -> keyed config (pr_relay p) s (Z.of_nat e) -> keyed config r3 s6 (Z.of_nat e6) ->
  reaches sched s e -> reaches sched s6 e6 -> (e6 <= 2 * count)%nat -> lf_state r3 = StateEstablished ->
  zlen id = 32 -> zeroHashV1 id = false -> 0 < k < 2 ^ 64 ->
  beginOperationAckV1 p Relay id v = (p3, Ok t) ->
  (forall S (f : S -> S * result lifecycle_error unit) x x', f x = (x', Ok tt) ->
    commitStrictAuthenticatedOperationAckV1 p3 Client controlDirectionRelayV1 (Z.of_nat e6) q (mkAck id k) v f x = (x', p4, Ok tt)) ->
  advanced (partitioned (pr_relay p)) 0 (lf_keys (pr_relay p)) (lf_keys r3) (Z.of_nat e6) q ->
  followed (partitioned (pr_client p)) (lf_keys (pr_client p)) (lf_keys c4) (Z.of_nat e6) ->
  exists ch1 record ch2, sealRelayAckV1 w ch id false = (ch1, Ok record) /\ openRelayAckV1 w ch1 record = (ch2, Ok tt) /\
    base context control ch2 p4 /\ linked ch2 p4 s6.
Proof using CL Hclass Hcontext Henv HT HV Hmax Hmode Hnew Hseen Hshut Hview.
  intros t p3 p4 HB HL HS IC IR IR3 KC KR K3 R0 R6 He Hst I1 I2 Hk HBegin HC HA HF.
  destruct (schedule_epoch _ _ R0) as [E0 _], (schedule_epoch _ _ R6) as [E6 U6].
  pose proof (partitioned_id _ _ _ _ _ _ _ _ _ Hnew _ _ IC) as PC. pose proof (partitioned_id _ _ _ _ _ _ _ _ _ Hnew _ _ IR) as PR.
  pose proof (partitioned_id _ _ _ _ _ _ _ _ _ Hnew _ _ IR3) as P3.
  pose proof (position_range _ _ _ _ _ _ _ _ KR K3 ltac:(by rewrite PR) HA) as Hq. rewrite PR, <- E6 in HA. rewrite PC, <- E6 in HF. fold part in HA, HF.
  assert (HP : validPayload context (PAck (mkAck id k))).
  { split; [done|]. split; [unfold_widths; cbn; lia|]. unfold validOperationAckV1. cbn. rewrite I2. by destruct (Z.eqb_spec k 0); [lia|]. }
  destruct (half_exchange ch p Relay s s6 (PAck (mkAck id k)) (lf_keys r3) (lf_keys c4) q HL (next_reached _ _ _ _ R0 R6 He)
              HP U6 ltac:(lia)) as (st & rt & st' & rt' & record & F1 & F2 & HSend & HRecv & HL'); [|exact HA|exact HF|].
  { intros x. rewrite E0. destruct x; [apply KC|apply KR]. }
  cbn [peerOf directionOf] in *. unfold_widths.
  pose proof (settled_set _ _ _ Relay r3 HS) as HS3. fold p3 in HS3.
  pose proof (live_end p3 Relay s6 _ HS3 IR3 K3) as LR. pose proof (live_end p3 Client s _ HS3 IC KC) as LC.
  assert (HSend' : send controlDirectionRelayV1 control (codecOf s6 Relay) (at_recordEpoch t) (at_recordSequence t) st (PAck (at_ack t)) = (st', Ok record))
    by (cbn [t at_recordEpoch at_recordSequence at_ack]; rewrite <- E6; exact HSend).
  destruct (sealAck_step w v Hshut Hseen context control ch p r3 t s6 (codecOf s6 Relay) st st' record HB HBegin LR Hst F1 HSend') as (ch1 & HSeal & B1 & En1 & Sm1).
  cbn [send] in HSend'. unfold sealOperationAckV1 in HSend'. destruct (encodeOperationAckBodyV1 _) as [body|]; [|done].
  destruct (control_header Relay _ _ _ _ _ _ _ _ _ _ HSend') as (sealed & Hrec).
  destruct (openAck_step w v Hshut Hseen context control ch1 p3 c4 t s6 s (codecOf s6 Client) rt rt' record operationAckSealedBytesV1 sealed)
    as (ch2 & HOpen & B2 & En2 & Sm2); try done.
  { unfold operationAckSealedBytesV1, RecordTypeOperationAckV1. constructor; cbn; unfold_widths; lia. }
  { by rewrite (refreshed_same _ _ _ _ _ Sm1). }
  exists ch1, record, ch2. split; [exact HSeal|]. split; [exact HOpen|]. split; [exact B2|]. apply HL'; try done.
  destruct En1 as [X1 X2]. by rewrite <- X1, <- X2.
Qed.

Record ready (k e : nat) (s : KeySchedule) (ch : strictProtectedChannelV1) : Prop := {
  rd_synced : synced pid epoch sched sched config th p0 slot count k e s s (pc_pair ch);
  rd_base : base context control ch (pc_pair ch);
  rd_linked : linked ch (pc_pair ch) s;
}.

Lemma channel_trip k e s ch payload : ready k e s ch -> (k < count)%nat -> Z.of_nat count <= sc_MaxSessionMessages config -> (e <= 2 * k)%nat ->
  1 <= zlen payload <= cx_MaxEnvelopeBytes context - 70 ->
  exists ch' e' s', exchangeOne w slot ch payload = Some (ch', payload) /\ ready (S k) e' s' ch' /\ (e' <= 2 * S k)%nat.
Proof using All.
  intros [HY HB HL] Hk Hn He Hlen. set (p := pc_pair ch) in *.
  destruct (trip_steps _ _ _ _ _ _ _ _ _ Hnew HT HV Hmode Hrot Hpolicy slot ltac:(lia) v count Hview Hreach Hreach Hids _ _ _ _ _ HY Hk Hn He)
    as (c1 & r2 & r3 & c4 & e3 & e6 & q & qA & [T1 T2 T3 T4 T5 [X1 X2] (I1 & I2 & I3 & I4) (S1 & S2 & S3 & S4) T6 Q1 Q2 Q3 Q4 T7]).
  destruct T7 as (s3 & s4 & s6 & s7 & K1 & K2 & K3 & K4 & R3 & R4 & R6 & R7 & HY'). apply (reached_same _ _ _ R4) in R3 as ->. apply (reached_same _ _ _ R7) in R6 as ->.
  destruct HY as [HS [IC IR] _ _ [R0 _] [KC KR] _ _ _]. pose proof (L_range _ HT HV) as [_ HM]. change (2 ^ 24) with 16777216 in HM.
  destruct (forward_half ch p s s4 e e3 k c1 r2 q payload HB HL HS IC IR I1 KC KR K1 R0 R4 ltac:(lia) Hk S1 Hlen T1 T2 T3 T6 Q1 Q2)
    as (ch1 & record & ch2 & O1 & O2 & B2 & L2). set (p2 := setLife (setLife p Client c1) Relay r2) in *.
  pose proof (settled_set _ _ _ Relay r2 (settled_set _ _ _ Client c1 HS)) as HS2. fold p2 in HS2.
  destruct (Hid (Z.of_nat k) (Z.of_nat e3) ltac:(lia) ltac:(unfold bound; lia)) as [D1 D2].
  destruct (backward_half ch2 p2 s4 s7 e3 e6 (Z.of_nat k + 1) _ r3 c4 qA B2 L2 HS2 I1 I2 I3 K1 K2 K3 R4 R7 ltac:(lia) S3 D1 D2 ltac:(lia) T4 T5 Q3 Q4)
    as (ch3 & ackRecord & ch4 & O3 & O4 & B4 & L4).
  exists ch4, e6, s7. split.
  - unfold exchangeOne. rewrite O1, O2. cbn [ack_OperationID]. by rewrite O3, O4.
  - split; [|lia]. pose proof (bs_pair _ _ _ _ B4) as EP. constructor; rewrite EP; [exact HY'|exact B4|exact L4].
Qed.

Lemma ready_new : ready 0 0 sched ch0.
Proof using All.
  pose proof (fresh_synced _ _ _ _ _ _ _ _ _ Hnew HT HV slot count) as HY.
  assert (HE : forall who, isOk (newEnvelope who sched context) = true) by (intros who; by apply (Henv 0 sched who ltac:(lia))).
  destruct (newEnvelope_sound Client sched (HE Client)) as (stC & NC & SC). destruct (newEnvelope_sound Relay sched (HE Relay)) as (stR & NR & SR).
  pose proof Hchannel as HC. unfold newStrictProtectedChannelV1 in HC. apply reject_bind_ok in HC as [_ HC].
  destruct (sy_keyed _ _ _ _ _ _ _ _ _ _ _ _ _ _ HY) as [KC KR]. rewrite (kd_schedule _ _ _ _ KC), (kd_schedule _ _ _ _ KR), NC, NR in HC.
  cbn [map_err rbind] in HC. apply Ok_inj in HC as <-. constructor; [exact HY|by constructor|].
  exists (fun _ _ => 0), (fun _ _ => []), (fun who => match who with Client => stC | Relay => stR end).
  constructor; intros who; [by destruct who|by destruct who|done|].
  intros n. destruct (fresh_end _ _ _ _ _ _ _ _ _ Hnew HT HV slot count who) as (K & A1 & _). pose proof (kd_low _ _ _ _ K n) as X.
  assert (sameIdentity p0 who (lifeOf p0 who)) as I by done. rewrite (partitioned_id _ _ _ _ _ _ _ _ _ Hnew _ _ I), A1 in X. cbn [pc_pair]. fold part in X. lia.
Qed.

Lemma channel_trips payloads : forall k e s ch, ready k e s ch -> (k + length payloads = count)%nat -> Z.of_nat count <= sc_MaxSessionMessages config -> (e <= 2 * k)%nat ->
  Forall (fun payload => 1 <= zlen payload <= cx_MaxEnvelopeBytes context - 70) payloads ->
  exists ch' e' s', exchangeAll w slot ch payloads = Some (ch', payloads) /\ ready count e' s' ch'.
Proof using All.
  induction payloads as [|payload payloads IH]; intros k e s ch HR Hk Hn He HF; cbn [length exchangeAll] in *.
  - exists ch, e, s. replace count with k by lia. done.
  - apply Forall_cons in HF as [Hlen HF]. destruct (channel_trip k e s ch payload HR ltac:(lia) Hn He Hlen) as (ch1 & e1 & s1 & -> & HR1 & He1).
    destruct (IH (S k) e1 s1 ch1 HR1 ltac:(lia) Hn He1 HF) as (ch2 & e2 & s2 & -> & HR2). eauto.
Qed.

(** C2: The whole channel makes progress. The client sends one operation after
    another, up to the session limit, each in one record; the relay hands on exactly
    the payloads sent, in order, and acknowledges each; the client accepts every
    acknowledgement, and in the end the pair is open and every operation is settled
    at both ends. The keys are ratcheted whenever their lifetime is used up, and both
    ends replace their envelopes in step. Assumed are: a pair built from one key
    schedule and one validated configuration for both ends; one of the four nonce
    modes, a rotation policy bound to the message or the profile lifetime
    ([session_only] stops at the first key), a replay policy and size a window can be
    built for; a channel context with the policy of the pair, a 32-bit envelope limit
    and a known application class; a slot between 1 and 65535; payloads of at least
    one byte that leave 70 bytes of the envelope limit free; nobody else closing the
    pair and a profile generation that does not move; ratchets, and envelopes under
    the ratcheted schedules, that succeed for twice as many epochs as there are
    operations; operation ids of 32 bytes that are not zero and pairwise distinct;
    and the laws of the cipher. *)
Theorem channel_round_trips payloads : length payloads = count -> Z.of_nat count <= sc_MaxSessionMessages config ->
  Forall (fun payload => 1 <= zlen payload <= cx_MaxEnvelopeBytes context - 70) payloads ->
  exists ch, exchangeAll w slot ch0 payloads = Some (ch, payloads) /\ pr_closed (pc_pair ch) = false /\
    sd_sendCompleted (lf_send (pr_client (pc_pair ch))) = Z.of_nat count /\ rc_receiveCompleted (lf_recv (pr_relay (pc_pair ch))) = Z.of_nat count /\
    sd_outstanding (lf_send (pr_client (pc_pair ch))) = ∅.
Proof using All.
  intros Hk Hn HF. destruct (channel_trips payloads 0 0 sched ch0 ready_new Hk Hn (le_n _) HF) as (ch & e & s & HX & [HY _ _]).
  destruct HY as [HS _ _ _ _ _ _ [_ S1 S2] [_ R1 _]]. exists ch. split; [done|]. split; [apply HS|done].
Qed.
End trips.

(** ** Six operations

    Keys live for five records, so the sixth operation is sent under new keys. *)

Definition samplePayloads6 : list bytes := (fun b => [b; b]) <$> [Byte.x41; Byte.x42; Byte.x43; Byte.x44; Byte.x45; Byte.x46].

Definition epochReady (m : nat) : bool :=
  match @ratchetN toyPrimitives m toySchedule with
  | Ok s => isOk (newEnvelope Client s channelContext) && isOk (newEnvelope Relay s channelContext)
  | Err _ => false
  end.

Lemma epochs_ready m : (m <= 2 * 6)%nat -> epochReady m = true.
Proof.
  intros Hm. assert (HA : forallb epochReady (seq 0 13) = true) by (vm_compute; reflexivity).
  rewrite forallb_forall in HA. apply HA, in_seq. lia.
Qed.

Lemma channel_reach m : (m <= 2 * 6)%nat -> exists s, @reaches toyPrimitives toySchedule s m.
Proof. intros HR%epochs_ready. unfold epochReady, reaches in *. destruct (ratchetN m toySchedule) as [s|]; [eauto|done]. Qed.

Lemma channel_envelopes m s who : (m <= 2 * 6)%nat -> @reaches toyPrimitives toySchedule s m -> isOk (newEnvelope who s channelContext) = true.
Proof.
  intros HR%epochs_ready HS. unfold epochReady, reaches in *. rewrite HS in HR. apply andb_prop in HR as [H1 H2]. by destruct who.
Qed.

Definition validIDs (n b : Z) (f : Z -> Z -> bytes) : bool :=
  forallb (fun i => forallb (fun e => (zlen (f e i) =? 32) && negb (zeroHashV1 (f e i))) (seqZ 0 (b + 1))) (seqZ 0 n).

Lemma valid_ids n b f i e : validIDs n b f = true -> 0 <= i < n -> 0 <= e <= b -> zlen (f e i) = 32 /\ zeroHashV1 (f e i) = false.
Proof.
  intros HX Hi He. unfold validIDs in HX. apply (forallb_seqZ _ _ i) in HX; [|lia]. apply (forallb_seqZ _ _ e) in HX; [|lia].
  by apply andb_prop in HX as [HX%Z.eqb_eq HY%negb_true_iff].
Qed.

Lemma channel_ids : distinctIDs (Z.of_nat 6) (bound 6) operationOf = true /\ validIDs (Z.of_nat 6) (bound 6) operationOf = true.
Proof. split; vm_compute; reflexivity. Qed.

Lemma channel_round_trips_witness :
  exists ch, @exchangeAll toyPrimitives toyCipher quiet 4 sampleChannel samplePayloads6 = Some (ch, samplePayloads6) /\ pr_closed (pc_pair ch) = false /\
    sd_sendCompleted (lf_send (pr_client (pc_pair ch))) = 6 /\ rc_receiveCompleted (lf_recv (pr_relay (pc_pair ch))) = 6 /\
    sd_outstanding (lf_send (pr_client (pc_pair ch))) = ∅.
Proof.
  refine (@channel_round_trips toyPrimitives toyCipher toyCipher_laws 1 (sampleHash 9) sampleView toySchedule (sampleConfig 20 5) channelPolicy (sampleHash 7) channelPair
            channelPair_new (proj1 channelConfig_typed) (proj2 channelConfig_typed) _ _ _ 4 _ quiet sampleView 6 (fun _ => eq_refl) (fun _ => eq_refl) _
            channelContext channelControl 65536 1 (mkObserver ∅ ∅ 0) sampleChannel sampleChannel_new eq_refl _ 1 _ channel_reach channel_envelopes
            (fun i j e e' => distinct_ids _ _ operationOf i j e e' (proj1 channel_ids))
            (fun i e => valid_ids _ _ operationOf i e (proj2 channel_ids)) samplePayloads6 _ _ _);
    try (vm_compute; reflexivity); try (unfold_widths; vm_compute; split; (discriminate || reflexivity)).
  - intros [] n; reflexivity.
  - discriminate.
  - repeat constructor; vm_compute; discriminate.
Defined.
